(* ===== verification/_CoqProject ===== *)
-Q . S2P
Prelude.v
RustStr.v
Utf8.v
Lists.v
Canonical.v
Grpc.v
Orders.v
Externals.v
Models.v
Identity.v
Naming.v
CircuitBreaker.v
Http.v
IndexedRouting.v
RoutingCache.v
Layers.v
RouteSelect.v
Forward.v
Ingress.v
JobQueue.v
JobAdmin.v
JobLifecycle.v
JobHistory.v
WorkerHttp.v
PolicyTypes.v
Snapshot.v
Deployment.v
SnapshotAgree.v
Policy.v
PolicyFacts.v
PolicyDemo.v
Gate.v
Tls.v
JobAdminApi.v
Access.v
Lifecycle.v
AuthTable.v
Auth.v
Rollout.v
RolloutApi.v
RolloutFacts.v
RolloutRun.v
RolloutLimits.v
RolloutDemo.v
RolloutApiFacts.v
Schedule.v
ScheduleFacts.v
ScheduleApi.v
ScheduleDemo.v
Operations.v
NodeStatus.v
NodeTables.v
NodeStore.v
NodeSubmit.v
NodeRun.v
NodeAgent.v
NodeReport.v
NodeHost.v
NodeTx.v
NodeSteps.v
NodeLoad.v
NodeRefine.v
NodeRefineTx.v
NodeFacts.v
NodeFrame.v
NodeStuck.v
NodeClaims.v
NodeResults.v
NodeWedge.v
NodeAuthority.v
NodeSubmitFacts.v
NodeDeploy.v
NodeCleanup.v
NodeSystem.v
NodeStaging.v
NodeFences.v
NodeCleanupFacts.v
NodeDemo.v
NodeSystemDemo.v
