(* ===== verification/Prelude.v ===== *)
(** * Wruntime: a verification development

    Wruntime runs WebAssembly modules on a cluster. Managers own the cluster's policy and
    routing table; on every node a proxy forwards requests, between modules and from the
    public, to the engines that run the modules; engines also keep a queue of jobs in
    PostgreSQL. The development translates the parts below into executable definitions, by
    hand and with the names of the source, and proves what makes them correct.

    ** Conventions

    A Rust string is a [string] of its UTF-8 bytes; an integer is a [Z] whose wrap-around,
    saturation or checked conversion is written out where the code relies on it; instants
    and durations are nanoseconds in [Z]. A fallible function returns [result]; [let?] is the
    operator [?] and [ensure?] an early return. A panic is [None]. Mutable state is passed
    explicitly, shared cells (breakers, round-robin counters) in a heap or in the snapshot
    that owns them. An SQL statement is an atomic function of the table, and a transaction of
    the node tables a function in the monad [Tx], which rolls back on an error. Clock readings,
    random identifiers, answers of remote services, rows locked by other transactions and
    what a concurrent flag was read as are arguments, so a theorem about all of them is a
    theorem about every environment. Crates outside the repository are type classes
    ([Externals], [SnapshotCodec], [TomlLib], [X509Lib], [CursorLib], [CollationLib],
    [ChronoLib], [RolloutCodec], [UuidLib], [CleanupCodec]) whose laws state documented
    behaviour; [Models] and the [toy_] instances of other files satisfy them, and the
    witnesses evaluate the theorems there.

    ** Parts and files

    - Foundations: [Prelude], [RustStr], [Utf8], [Lists], [Orders] (what the code uses of
      Rust's standard library), [Canonical] (encodings that are digested), [Grpc] (statuses
      of RPCs), [Externals] and [Models].
    - Identities and derived names: [Identity] (wr-common/src/identity.rs), [Naming]
      (naming.rs), [Http] (http_headers.rs, uri.rs, endpoints of identity.rs).
    - The proxy: [CircuitBreaker] (wr-proxy/src/circuit_breaker.rs), [IndexedRouting]
      (indexed_routing.rs), [RoutingCache] (routing.rs), [Layers] and [RouteSelect]
      (layers/mod.rs, layers/routing.rs), [Forward] (layers/forward.rs, layers/egress.rs and
      the internal stack of main.rs), [Ingress] (layers/ingress.rs, routes of config.rs). The
      public stack runs [ingress_call] before the internal one; the routing layer reads the
      table of [RoutingCache] and asks the breakers that forwarding later informs.
    - The job queue: [JobQueue] (wr-engine/src/worker.rs and its migration), [JobAdmin]
      (job_admin_queue.rs), [WorkerHttp] (worker_http.rs) submit, run, read and retry jobs;
      [JobLifecycle] is the specification as a machine on jobs, [JobHistory] the
      interleavings of all operations.
    - Policy and access: [PolicyTypes] and [Policy] (authorization_policy.rs), [Snapshot]
      (snapshot_consumer.rs), [Tls] (tls.rs), [JobAdminApi] (wr-engine/src/job_admin.rs),
      [AuthTable] and [Auth] (wr-manager/src/auth.rs). A manager loads a policy, authorizes
      its own RPCs with it and serves snapshots of it; engines and proxies admit managers
      and peers by the last snapshot. [PolicyFacts], [SnapshotAgree] and [Access] prove how
      these fit together; [PolicyDemo] is an example document.
    - Deployments: [Deployment] (wr-common/src/deployment_contract.rs) brings the inventory
      of a deployment into the form whose digest names the revision.
    - Manager rollouts: [Rollout] (the tables and transactions of wr-manager/src/db.rs),
      [RolloutApi] (the handlers of service.rs), [RolloutRun] (the start and the observer of
      each manager, from main.rs and db.rs, interleaved statement by statement with the
      transactions; one process per manager identifier). [RolloutFacts], [RolloutLimits] and
      [RolloutApiFacts] hold the theorems, [RolloutDemo] the examples.
    - Schedules: [Schedule] (wr-manager/src/scheduler.rs and the statements of db.rs),
      [ScheduleApi] (the RPCs of service.rs and the job that a schedule leads to in
      [WorkerHttp]), with [ScheduleFacts] and [ScheduleDemo]. Statements of other managers run
      between those of a tick.
    - Operations on nodes (wr-manager/src/operations.rs): [Operations] (messages, steps and
      transitions), [NodeStatus] (the status snapshot and the conditions of a deployment, from
      db.rs), [NodeTables] (the tables with their constraints, and [Tx]), [NodeStore] (loading
      and the statements that calls share), [NodeSubmit], [NodeRun] (the reconciliation of
      slots, restoration and the end of an operation), [NodeAgent] (policies, attestations,
      claims, leases, observations), [NodeReport] (results), [NodeHost] (what the agent of
      wr-cli/src/cmd/node_agent.rs sends). [NodeTx] is the reasoning about transactions,
      [NodeSteps] the abstract machine of an operation; [NodeLoad], [NodeRefine] and
      [NodeRefineTx] prove the refinement. [NodeFacts], [NodeFrame], [NodeStuck],
      [NodeClaims], [NodeResults], [NodeWedge], [NodeAuthority] and [NodeSubmitFacts] hold the
      theorems, [NodeDemo] the examples.
    - Deployments of nodes and release cleanup: [NodeDeploy] (db.rs, service.rs), [NodeCleanup]
      (operations.rs, and the host's part of node_backend.rs and node_agent.rs), [NodeSystem]
      (all calls on the node tables interleaved with registrations). A deployment stages a
      revision, an operation takes it up and commits it, and every such change fences the
      cleanup's authority to delete. [NodeStaging], [NodeFences] and [NodeCleanupFacts] hold
      the theorems, [NodeSystemDemo] the examples.
    - Processes: [Gate] (the admission gate of lifecycle_service.rs) and [Lifecycle]
      (process_lifecycle.rs, lifecycle_observation.rs, the adapter of lifecycle_service.rs).

    ** What the theorems show

    - Proxy: from every reachable routing state no request panics the stack, while the open
      duration of the breakers keeps the clock within the range of [Instant], or leaves it for
      an address that is neither a published candidate nor an allowlisted host, and public
      requests reach only configured modules; the index serves exactly the admitted
      rules of the manager; refreshes keep breakers and counters; selection is newest-first for pins
      and prefers permitted candidates; convergence reports success only at its target.
    - Jobs: every statement refines the lifecycle machine; a claim ends at most once;
      attempts are accounted for; rows read back as written if their metadata leaves room for
      the identifier, and where the selected ones do paging lists each of them once.
    - Access: an accepted policy satisfies its invariants and its digest covers all it
      decides; snapshots decode to what the policy enrolls; the consumer fails closed
      while the clock is in range; the managers' authorizer and the engines' job administration admit exactly who the policy
      entitles; listings never combine values of different grants.
    - Deployments: the canonical inventory is a normal form, and the digest of a revision
      covers all of it but the order of its lists.
    - Rollouts: the tables keep their constraints under any transactions; the accepted policy
      only moves forward; replays return the original receipt; admission opens on exactly
      three grounds; declared sources are closed before targets open, in the schedules where
      no start finishes while a rollout is active (the flag [late] of [sys_step] admits the
      others); only authorized callers begin, and only complete evidence resets.
    - Schedules: the table keeps its constraints; a claim takes exactly the due rows without
      a lease and is finalized at most once; a tick settles what it claims; upserts stay
      within their namespace and listings within the grants; a stored schedule makes a job
      the engine accepts.
    - Operations: every transaction refines the abstract moves of an operation, where a slot
      advances only on the evidence of a snapshot that the call captured (observations,
      registrations and routes); a stored operation can always be loaded; a lease epoch
      has one holder, and results are accepted once, from the holder of the lease, for the
      step the target is at, and decide every later report of the same instruction; effects are recorded before an agent learns of them; a slot has
      one authority; a finished operation is final and uniformly the target or the source; the
      forward phase is bounded; tokens are used once.
    - Deployments of nodes: an attempt names one revision for good. Cleanup: what a claim
      deletes was reported by the node and is not protected, up to collisions of SHA-256 and
      for revisions below [2 ^ 59], where the encoding of the fingerprint is unambiguous.
    - Processes: the drained gate stays empty and draining terminates; the lifecycle only
      moves forward and observers classify it exactly.
    - Some theorems state where the code departs from its intent: a breaker whose open
      duration overflows the clock, a store buffered past the gate's check, a conflict latch that a regression clears, a convergence
      reported as timed out, job metadata near its bound that cannot be read back, listed
      domains that are rejected, a hop mark that is never read; rollout barriers that targets
      without any acknowledgement pass, managers that open on what they read before a rollout
      or while they drain, sources that open under any policy, rollouts onto the accepted
      policy that cannot succeed, source sets refused under a dictionary collation, and a
      reply with a NUL byte that ends a tick of the scheduler; an ambiguous effect of a proxy
      that ends all progress of its node, a second result for one instruction key that is
      refused, failed deployments that leave their revision staged, releases that are never cleaned up, and a
      new retention that does not withdraw the claims in flight.

    ** Bounds

    [converge_to_version] consumes one round of the environment per iteration; its theorem
    says that it returns once a round finds the deadline passed. [follow_cursors] has fuel,
    and its theorem uses one unit more than there are jobs to list, which suffices. Draining
    takes at most [50 * n + 9] steps besides refused entries for [n] tasks, by a decreasing
    weight. A slot of an operation takes at most [MAX_FORWARD_STEPS], eight, forward steps.
    The decoder of [Models] has the length of its input as fuel. All other recursion is
    structural.

    ** Not modelled

    - Of the manager, the registrations of engines and proxies (a relation on the tables in
      [NodeSystem]), routing rules, secrets, schemas and heartbeats of db.rs, status.rs, and
      the handlers of service.rs other than those of rollouts and schedules: over tables that
      are not modelled, or wrappers that authorize and call a modelled transaction. The
      waiting of transactions for each other's locks is not modelled: each is atomic. This is
      coarser than the code for [reconcile_node_cleanup_batch], which runs at READ COMMITTED
      and reads the policy of a node in several queries, so that they may see different
      commits; the fingerprint it stores is compared again when a claim is answered. What is
      stored encoded is kept as its value, so that decoding it does not fail.
    - Transcoding and schema checks of the proxy, which follow prost-reflect descriptors; its
      node service and reporting.
    - The engine's runtime and host interfaces (wasmtime, PostgreSQL, S3, model providers),
      configuration and start-up; the worker loops that call the modelled operations.
    - The backends of the node agent (systemd, processes, files) and its polling loops, the
      rest of the command line, the guest SDK and its macros, and build support.
    - Wiring of libraries: TLS configurations, HTTP clients, pools, telemetry, signals and
      task supervision. *)

From Stdlib Require Export Ascii NArith ZArith Lia Sorted.
From stdpp Require Export prelude gmap strings.

#[global] Set Default Proof Using "Type".
#[export] Set Default Goal Selector "!".

(** ** Results: Rust's [Result] and the [?] operator *)

Inductive result (E A : Type) : Type :=
| Ok (a : A)
| Err (e : E).

Arguments Ok {E A} a.
Arguments Err {E A} e.

Declare Scope rust_scope.
Delimit Scope rust_scope with rust.
Open Scope rust_scope.

Definition rbind {E A B} (r : result E A) (k : A → result E B) : result E B :=
  match r with Ok a => k a | Err e => Err e end.

Notation "'let?' x ':=' r 'in' k" := (rbind r (λ x, k))
  (at level 10, x pattern, r at level 100, k at level 200)
  : rust_scope.

Notation "'ensure?' b 'else' e 'in' k" := (if b then k else Err e)
  (at level 10, b at level 100, e at level 100, k at level 200)
  : rust_scope.

Definition is_ok {E A} (r : result E A) : bool :=
  match r with Ok _ => true | Err _ => false end.

Definition ok {E A} (r : result E A) : option A :=
  match r with Ok a => Some a | Err _ => None end.

#[global] Instance result_eq_dec {E A} `{EqDecision E, EqDecision A} :
  EqDecision (result E A).
Proof. solve_decision. Defined.

Lemma rbind_ok {E A B} (r : result E A) (k : A → result E B) b :
  rbind r k = Ok b ↔ ∃ a, r = Ok a ∧ k a = Ok b.
Proof. destruct r; naive_solver. Qed.

Lemma ok_inj {E A} (a b : A) : Ok (E := E) a = Ok b → a = b.
Proof. by injection 1. Qed.

(** ** Automation *)

Create HintDb wr.

(** Case analysis on every [match], [if] and [decide] that stands in a
    hypothesis or in the goal, closing what becomes contradictory. *)
Ltac split_cases :=
  repeat match goal with
  | H : context [match ?x with _ => _ end] |- _ => destruct x eqn:?; simplify_eq/=
  | |- context [match ?x with _ => _ end] => destruct x eqn:?; simplify_eq/=
  end.

(** Reads off a successful run of fallible code: each bind and each guard passed. *)
Ltac inv_ok H :=
  repeat lazymatch type of H with
  | rbind _ _ = Ok _ => apply rbind_ok in H as (? & ? & H)
  | (if ?b then _ else Err _) = Ok _ => destruct b eqn:?; [|discriminate H]
  | (let '(_, _) := ?x in _) = Ok _ => destruct x
  | (let x := _ in _) = Ok _ => cbv zeta in H
  end.

(** Turns the boolean tests of the code into propositions. *)
Ltac bool_to_prop :=
  repeat match goal with
  | H : (_ && _) = true |- _ => apply andb_true_iff in H as [? ?]
  | H : (_ && _) = false |- _ => apply andb_false_iff in H
  | H : (_ || _) = false |- _ => apply orb_false_iff in H as [? ?]
  | H : (_ || _) = true |- _ => apply orb_true_iff in H
  | H : negb _ = true |- _ => apply negb_true_iff in H
  | H : negb _ = false |- _ => apply negb_false_iff in H
  | H : bool_decide _ = true |- _ => apply bool_decide_eq_true in H
  | H : bool_decide _ = false |- _ => apply bool_decide_eq_false in H
  | H : (_ =? _)%nat = true |- _ => apply Nat.eqb_eq in H
  | H : (_ =? _)%nat = false |- _ => apply Nat.eqb_neq in H
  | H : (_ <=? _)%nat = true |- _ => apply Nat.leb_le in H
  | H : (_ <=? _)%nat = false |- _ => apply Nat.leb_gt in H
  | H : (_ <? _)%nat = true |- _ => apply Nat.ltb_lt in H
  | H : (_ <? _)%nat = false |- _ => apply Nat.ltb_ge in H
  | H : (_ =? _)%Z = true |- _ => apply Z.eqb_eq in H
  | H : (_ =? _)%Z = false |- _ => apply Z.eqb_neq in H
  | H : (_ <=? _)%Z = true |- _ => apply Z.leb_le in H
  | H : (_ <=? _)%Z = false |- _ => apply Z.leb_gt in H
  | H : (_ <? _)%Z = true |- _ => apply Z.ltb_lt in H
  | H : (_ <? _)%Z = false |- _ => apply Z.ltb_ge in H
  end.

(** ** Finite maps *)

Lemma alter_lookup_Some `{Countable K} {A} (f : A → A) (m : gmap K A) i x :
  m !! i = Some x → alter f i m = <[i := f x]> m.
Proof.
  intros Hi. apply map_eq. intros j. rewrite lookup_alter, lookup_insert.
  case_decide; [|done]. subst. by rewrite Hi.
Qed.

Lemma alter_lookup_None `{Countable K} {A} (f : A → A) (m : gmap K A) i :
  m !! i = None → alter f i m = m.
Proof.
  intros Hi. apply map_eq. intros j. rewrite lookup_alter.
  case_decide; [|done]. subst. by rewrite Hi.
Qed.

(** ** Options *)

(** Reading off a value whose presence evaluates. *)
Lemma default_found {A} (d : A) (o : option A) :
  (if o is Some _ then true else false) = true → o = Some (default d o).
Proof. by destruct o. Qed.

(** ** Machine integers *)

Definition U32_MAX : Z := 4294967295.
Definition U64_MAX : Z := 18446744073709551615.
Definition I32_MAX : Z := 2147483647.

(** [usize::wrapping_add], the arithmetic of [AtomicUsize::fetch_add]
    (64-bit targets). *)
Definition usize_wrapping_add (a b : Z) : Z := (a + b) `mod` 18446744073709551616.

Definition usize_checked_add (a b : Z) : option Z :=
  if (a + b <=? U64_MAX)%Z then Some (a + b)%Z else None.

(** [i32::try_from] of an unsigned and [u32::try_from] of a signed value. *)
Definition i32_try_from (v : Z) : option Z := if (v <=? I32_MAX)%Z then Some v else None.
Definition u32_try_from (v : Z) : option Z := if (0 <=? v)%Z then Some v else None.

(** [u32::saturating_add]. *)
Definition u32_saturating_add (a b : Z) : Z := Z.min (a + b) U32_MAX.

(** Instants and durations are nanoseconds on a monotonic axis. *)
Definition from_secs (s : Z) : Z := (s * 1000000000)%Z.

(** [Instant + Duration] on Unix, where an [Instant] is a [timespec] with 64-bit
    seconds: past its range the addition panics. *)
Definition INSTANT_END : Z := from_secs 9223372036854775808.

Definition instant_add (now duration : Z) : option Z :=
  if (now + duration <? INSTANT_END)%Z then Some (now + duration)%Z else None.

Lemma instant_add_Some now duration :
  (now + duration < INSTANT_END)%Z → instant_add now duration = Some (now + duration)%Z.
Proof. intros H. unfold instant_add. by rewrite (proj2 (Z.ltb_lt _ _) H). Qed.
Definition from_millis (ms : Z) : Z := (ms * 1000000)%Z.
