(* ===== verification/RustStr.v ===== *)
(** * Rust strings

    A Rust [&str]/[String] is the sequence of its UTF-8 bytes, here a [string]
    whose characters are bytes ([s.len()] is [String.length]). This file models
    the operations of [str] and [u8] the program uses, with the lemmas the
    components share about them. *)

From stdpp Require Import pretty.
From S2P Require Import Prelude.

(** ** Byte classes ([u8::is_ascii_*]) *)

Definition byte_in (lo hi : N) (c : ascii) : bool :=
  (lo <=? N_of_ascii c)%N && (N_of_ascii c <=? hi)%N.

Definition is_ascii_lowercase (c : ascii) : bool := byte_in 97 122 c.
Definition is_ascii_uppercase (c : ascii) : bool := byte_in 65 90 c.
Definition is_ascii_digit (c : ascii) : bool := byte_in 48 57 c.
Definition is_ascii_alphanumeric (c : ascii) : bool :=
  is_ascii_lowercase c || is_ascii_uppercase c || is_ascii_digit c.
Definition is_ascii_hexdigit (c : ascii) : bool :=
  is_ascii_digit c || byte_in 97 102 c || byte_in 65 70 c.
(** The bytes [http::HeaderValue::from_str] documents as acceptable text. *)
Definition is_visible_ascii (c : ascii) : bool := byte_in 32 126 c.

Definition byte_to_ascii_lowercase (c : ascii) : ascii :=
  if is_ascii_uppercase c then ascii_of_N (N_of_ascii c + 32) else c.

(** ** String operations *)

Fixpoint str_all (p : ascii → bool) (s : string) : bool :=
  match s with
  | EmptyString => true
  | String c s' => p c && str_all p s'
  end.

Definition str_head (s : string) : option ascii :=
  match s with EmptyString => None | String c _ => Some c end.

Fixpoint str_last (s : string) : option ascii :=
  match s with
  | EmptyString => None
  | String c EmptyString => Some c
  | String _ s' => str_last s'
  end.

Definition str_is_empty (s : string) : bool :=
  match s with EmptyString => true | _ => false end.

Definition char_eqb (a b : ascii) : bool := bool_decide (a = b).

(** [str::contains] for a single character. *)
Definition str_contains (c : ascii) (s : string) : bool :=
  negb (str_all (λ x, negb (char_eqb x c)) s).

(** [str::split] at a character: always at least one segment. *)
Fixpoint str_split (c : ascii) (s : string) : list string :=
  match s with
  | EmptyString => [EmptyString]
  | String x s' =>
      if char_eqb x c then EmptyString :: str_split c s'
      else match str_split c s' with
           | seg :: rest => String x seg :: rest
           | [] => [String x EmptyString]
           end
  end.

(** [str::split_once]: the text before and after the first occurrence. *)
Fixpoint split_once (c : ascii) (s : string) : option (string * string) :=
  match s with
  | EmptyString => None
  | String x s' =>
      if char_eqb x c then Some (EmptyString, s')
      else match split_once c s' with
           | Some (a, b) => Some (String x a, b)
           | None => None
           end
  end.

(** [str::strip_prefix]. *)
Fixpoint strip_prefix (p s : string) : option string :=
  match p, s with
  | EmptyString, _ => Some s
  | String a p', String b s' => if char_eqb a b then strip_prefix p' s' else None
  | String _ _, EmptyString => None
  end.

Definition starts_with (p s : string) : bool :=
  match strip_prefix p s with Some _ => true | None => false end.

(** [str::strip_suffix]: the only cut of [s] whose right part is [suf]. *)
Fixpoint strip_suffix (suf s : string) : option string :=
  if bool_decide (s = suf) then Some EmptyString
  else match s with
       | EmptyString => None
       | String c s' =>
           match strip_suffix suf s' with
           | Some p => Some (String c p)
           | None => None
           end
       end.

(** [str::to_ascii_lowercase]. *)
Fixpoint to_ascii_lowercase (s : string) : string :=
  match s with
  | EmptyString => EmptyString
  | String c s' => String (byte_to_ascii_lowercase c) (to_ascii_lowercase s')
  end.

(** [slice::join]. *)
Fixpoint str_join (sep : string) (l : list string) : string :=
  match l with
  | [] => EmptyString
  | [s] => s
  | s :: l' => s +:+ sep +:+ str_join sep l'
  end.

(** [str::len], in bytes. *)
Definition str_len (s : string) : Z := Z.of_nat (String.length s).

(** [String::truncate] / [&s[..n]] on a boundary. *)
Fixpoint str_take (n : nat) (s : string) : string :=
  match n, s with
  | S n', String c s' => String c (str_take n' s')
  | _, _ => EmptyString
  end.

Fixpoint str_drop (n : nat) (s : string) : string :=
  match n, s with
  | S n', String _ s' => str_drop n' s'
  | O, _ => s
  | _, EmptyString => EmptyString
  end.

(** ** Laws of append and length *)

Lemma str_app_nil_l s : "" +:+ s = s.
Proof. done. Qed.

Lemma str_app_cons c s t : String c s +:+ t = String c (s +:+ t).
Proof. done. Qed.

Lemma str_app_nil_r s : s +:+ "" = s.
Proof. induction s as [|c s IH]; [done|]. by rewrite str_app_cons, IH. Qed.

Lemma str_app_assoc s t u : (s +:+ t) +:+ u = s +:+ t +:+ u.
Proof. induction s as [|c s IH]; [done|]. by rewrite !str_app_cons, IH. Qed.

Lemma str_length_app s t : String.length (s +:+ t) = String.length s + String.length t.
Proof. induction s as [|c s IH]; [done|]. rewrite str_app_cons. simpl. lia. Qed.

Lemma str_len_app s t : str_len (s +:+ t) = (str_len s + str_len t)%Z.
Proof. unfold str_len. rewrite str_length_app. lia. Qed.

Lemma str_len_nonneg s : (0 ≤ str_len s)%Z.
Proof. unfold str_len. lia. Qed.

Lemma str_app_inj_l s t u : s +:+ t = s +:+ u → t = u.
Proof. induction s; [done|]. rewrite !str_app_cons. naive_solver. Qed.

Lemma str_app_inj_length s1 s2 t1 t2 :
  String.length s1 = String.length s2 → s1 +:+ t1 = s2 +:+ t2 → s1 = s2 ∧ t1 = t2.
Proof.
  revert s2. induction s1 as [|c s1 IH]; intros [|c2 s2] Hl Heq; try done.
  rewrite !str_app_cons in Heq. injection Heq as -> Heq. injection Hl as Hl.
  by destruct (IH s2 Hl Heq) as [-> ->].
Qed.

Lemma str_length_zero s : String.length s = 0 → s = "".
Proof. by destruct s. Qed.

Lemma str_app_inj_r s1 s2 t : s1 +:+ t = s2 +:+ t → s1 = s2.
Proof.
  intros H. apply (str_app_inj_length s1 s2 t t); [|done].
  apply (f_equal String.length) in H. rewrite !str_length_app in H. lia.
Qed.

Lemma str_length_take n s : String.length (str_take n s) = n `min` String.length s.
Proof. revert s; induction n; intros []; simpl; auto. Qed.

Lemma str_take_app k a b : k ≤ String.length a → str_take k (a +:+ b) = str_take k a.
Proof.
  revert a. induction k as [|k IH]; intros [|c a] Hk; simpl in *; try done; [lia|].
  rewrite IH; [done|lia].
Qed.

Lemma str_take_take k m s : k ≤ m → str_take k (str_take m s) = str_take k s.
Proof.
  revert m s. induction k as [|k IH]; intros m s Hk; [done|].
  destruct m as [|m]; [lia|]. destruct s as [|c s]; [done|]. simpl. rewrite IH; [done|lia].
Qed.

(** ** Byte predicates over strings *)

Lemma str_all_app p s t : str_all p (s +:+ t) = str_all p s && str_all p t.
Proof.
  induction s as [|c s IH]; [done|]. rewrite str_app_cons. simpl. rewrite IH.
  apply andb_assoc.
Qed.

Lemma str_all_impl (p q : ascii → bool) s :
  (∀ c, p c = true → q c = true) → str_all p s = true → str_all q s = true.
Proof. intros Hpq. induction s; simpl; [done|]. rewrite !andb_true_iff. naive_solver. Qed.

Lemma char_eqb_refl c : char_eqb c c = true.
Proof. by apply bool_decide_eq_true. Qed.

Lemma char_eqb_true a b : char_eqb a b = true ↔ a = b.
Proof. apply bool_decide_eq_true. Qed.

Lemma char_eqb_false a b : char_eqb a b = false ↔ a ≠ b.
Proof. apply bool_decide_eq_false. Qed.

Lemma str_contains_false c s :
  str_contains c s = false ↔ str_all (λ x, negb (char_eqb x c)) s = true.
Proof. unfold str_contains. apply negb_false_iff. Qed.

Lemma str_contains_app c s t :
  str_contains c (s +:+ t) = str_contains c s || str_contains c t.
Proof. unfold str_contains. rewrite str_all_app. apply negb_andb. Qed.

Lemma str_contains_cons c x s :
  str_contains c (String x s) = char_eqb x c || str_contains c s.
Proof. unfold str_contains. simpl. rewrite negb_andb. by rewrite negb_involutive. Qed.

(** A byte class that leaves [c] out keeps [c] out of the string. *)
Lemma str_all_not_contains p c s :
  p c = false → str_all p s = true → str_contains c s = false.
Proof.
  intros Hc Hs. apply str_contains_false. eapply str_all_impl, Hs.
  intros x Hx. apply negb_true_iff, char_eqb_false. congruence.
Qed.

(** ** Splitting and stripping *)

Lemma str_split_nonempty c s : str_split c s ≠ [].
Proof. destruct s as [|x s]; simpl; [done|]. split_cases; done. Qed.

Lemma str_split_no_char c s : str_contains c s = false → str_split c s = [s].
Proof.
  induction s as [|x s IH]; simpl; [done|].
  rewrite str_contains_cons, orb_false_iff. intros [-> Hs]. by rewrite IH.
Qed.

Lemma str_split_app c a b :
  str_contains c a = false → str_split c (a +:+ String c b) = a :: str_split c b.
Proof.
  induction a as [|x a IH]; rewrite ?str_app_nil_l, ?str_app_cons; simpl.
  - by rewrite char_eqb_refl.
  - rewrite str_contains_cons, orb_false_iff. intros [-> Ha]. by rewrite IH.
Qed.

(** [split] loses nothing: joining the segments gives the text back. *)
Lemma str_join_split c s : str_join (String c "") (str_split c s) = s.
Proof.
  induction s as [|x s IH]; [done|]. simpl.
  destruct (str_split c s) as [|seg rest] eqn:E; [by apply str_split_nonempty in E|].
  destruct (char_eqb x c) eqn:Hx.
  - apply char_eqb_true in Hx as ->. simpl in *. by rewrite IH.
  - rewrite <-IH. by destruct rest.
Qed.

Lemma split_once_Some c s a b :
  split_once c s = Some (a, b) ↔ s = a +:+ String c b ∧ str_contains c a = false.
Proof.
  revert a. induction s as [|x s IH]; intros a; simpl.
  { split; [done|]. intros [H _]. by destruct a. }
  destruct (char_eqb x c) eqn:Hx.
  - apply char_eqb_true in Hx as ->. split.
    + by intros [= <- <-].
    + intros [H Ha]. destruct a as [|y a].
      * rewrite str_app_nil_l in H. by simplify_eq.
      * rewrite str_app_cons in H. simplify_eq.
        by rewrite str_contains_cons, char_eqb_refl in Ha.
  - split.
    + destruct (split_once c s) as [[a' b']|] eqn:E; [|done]. intros [= <- <-].
      destruct (proj1 (IH a')) as [-> Ha']; [done|].
      by rewrite str_app_cons, str_contains_cons, Hx.
    + intros [H Ha]. destruct a as [|y a].
      { rewrite str_app_nil_l in H. simplify_eq. by rewrite char_eqb_refl in Hx. }
      rewrite str_app_cons in H. simplify_eq.
      rewrite str_contains_cons, Hx in Ha. simpl in Ha.
      by rewrite (proj2 (IH a)).
Qed.

Lemma split_once_None c s : split_once c s = None ↔ str_contains c s = false.
Proof.
  induction s as [|x s IH]; simpl; [done|]. rewrite str_contains_cons.
  destruct (char_eqb x c); [done|]. simpl. rewrite <-IH.
  destruct (split_once c s) as [[]|]; naive_solver.
Qed.

Lemma strip_prefix_Some p s r : strip_prefix p s = Some r ↔ s = p +:+ r.
Proof.
  revert s. induction p as [|x p IH]; intros s; simpl.
  { rewrite str_app_nil_l. naive_solver. }
  destruct s as [|y s]; [done|]. rewrite str_app_cons.
  destruct (char_eqb x y) eqn:Hx.
  - apply char_eqb_true in Hx as ->. rewrite IH. naive_solver.
  - apply char_eqb_false in Hx. naive_solver.
Qed.

Lemma strip_suffix_Some suf s p : strip_suffix suf s = Some p ↔ s = p +:+ suf.
Proof.
  revert p. induction s as [|c s IH]; intros p; simpl.
  - case_bool_decide as Hs.
    + subst. rewrite str_app_nil_r. naive_solver.
    + split; [done|]. intros H. destruct p; [|done].
      by rewrite str_app_nil_l in H.
  - case_bool_decide as Hs.
    + subst. split; [by intros [= <-]|].
      intros H. by apply (str_app_inj_r "" p) in H as <-.
    + split.
      * destruct (strip_suffix suf s) as [q|] eqn:E; [|done]. intros [= <-].
        by rewrite (proj1 (IH q) eq_refl), str_app_cons.
      * intros H. destruct p as [|x p]; [by rewrite str_app_nil_l in H|].
        rewrite str_app_cons in H. simplify_eq. by rewrite (proj2 (IH p)).
Qed.

Create Rewrite HintDb rstr.
#[export] Hint Rewrite str_app_nil_l str_app_cons str_app_nil_r str_app_assoc
  str_length_app : rstr.

(** ** Fixed-width integers as big-endian bytes ([to_be_bytes]) *)

Fixpoint be_bytes (n : nat) (v : Z) : string :=
  match n with
  | O => EmptyString
  | S n' => be_bytes n' (v / 256) +:+ String (ascii_of_N (Z.to_N (v mod 256))) EmptyString
  end%Z.

Lemma length_be_bytes n v : String.length (be_bytes n v) = n.
Proof. revert v; induction n; intros v; simpl; [done|]. rewrite str_length_app. simpl. rewrite IHn. lia. Qed.

Lemma be_bytes_inj n v w :
  (0 ≤ v < 256 ^ Z.of_nat n)%Z → (0 ≤ w < 256 ^ Z.of_nat n)%Z →
  be_bytes n v = be_bytes n w → v = w.
Proof.
  revert v w. induction n as [|n IH]; intros v w Hv Hw; simpl; [lia|].
  intros H. apply str_app_inj_length in H as [H1 H2]; [|by rewrite !length_be_bytes].
  injection H2 as H2. apply (f_equal N_of_ascii) in H2.
  pose proof (Z.mod_pos_bound v 256 ltac:(lia)).
  pose proof (Z.mod_pos_bound w 256 ltac:(lia)).
  rewrite !N_ascii_embedding in H2 by lia.
  apply Z2N.inj in H2; [|lia..].
  replace (256 ^ Z.of_nat (S n))%Z with (256 * 256 ^ Z.of_nat n)%Z in * by
    (rewrite Nat2Z.inj_succ, Z.pow_succ_r by lia; lia).
  apply IH in H1; [|split; [apply Z.div_pos; lia|apply Z.div_lt_upper_bound; lia]..].
  rewrite (Z.div_mod v 256), (Z.div_mod w 256) by lia. by rewrite H1, H2.
Qed.

(** A length-prefixed field, as the digests of the program frame their input. *)
Definition framed (width : nat) (s : string) : string :=
  be_bytes width (Z.of_nat (String.length s)) +:+ s.

Lemma framed_app_inj width s1 s2 r1 r2 :
  (Z.of_nat (String.length s1) < 256 ^ Z.of_nat width)%Z →
  (Z.of_nat (String.length s2) < 256 ^ Z.of_nat width)%Z →
  framed width s1 +:+ r1 = framed width s2 +:+ r2 → s1 = s2 ∧ r1 = r2.
Proof.
  intros H1 H2 H. unfold framed in H. rewrite !str_app_assoc in H.
  apply str_app_inj_length in H as [Hl H]; [|by rewrite !length_be_bytes].
  apply be_bytes_inj in Hl; [|lia..]. apply str_app_inj_length in H; [done|lia].
Qed.

(** Concatenated frames determine the list they were built from. *)
Lemma framed_list_inj width l1 l2 :
  0 < width →
  Forall (λ s, Z.of_nat (String.length s) < 256 ^ Z.of_nat width)%Z l1 →
  Forall (λ s, Z.of_nat (String.length s) < 256 ^ Z.of_nat width)%Z l2 →
  foldr (λ s acc, framed width s +:+ acc) "" l1
  = foldr (λ s acc, framed width s +:+ acc) "" l2 → l1 = l2.
Proof.
  intros Hw H1. revert l2. induction H1 as [|s1 l1 Hs1 _ IH]; intros l2 H2 H.
  - destruct H2 as [|s2 l2 Hs2 H2]; [done|]. exfalso. simpl in H.
    apply (f_equal String.length) in H. unfold framed in H.
    rewrite !str_length_app, length_be_bytes in H. simpl in H. lia.
  - destruct H2 as [|s2 l2 Hs2 H2]; simpl in H.
    + exfalso. apply (f_equal String.length) in H. unfold framed in H.
      rewrite !str_length_app, length_be_bytes in H. simpl in H. lia.
    + apply framed_app_inj in H as [-> H]; [|done..]. by rewrite (IH l2).
Qed.

(** ** Decimal numerals: [to_string] of the integers *)

Lemma pretty_N_go_digits x s :
  str_all is_ascii_digit s = true → str_all is_ascii_digit (pretty_N_go x s) = true.
Proof.
  revert s. induction (N.lt_wf_0 x) as [x _ IH]; intros s Hs.
  destruct (decide (x = 0%N)) as [->|Hx]; [done|].
  rewrite pretty_N_go_step by lia. apply IH; [apply N.div_lt; lia|]. cbn [str_all].
  rewrite Hs, andb_true_r. unfold pretty_N_char. by repeat case_match.
Qed.

Lemma pretty_N_go_length k x s :
  (x < 10 ^ N.of_nat k)%N → String.length (pretty_N_go x s) ≤ k + String.length s.
Proof.
  revert x s. induction k as [|k IH]; intros x s Hx.
  { cbn in Hx. replace x with 0%N by lia. by rewrite pretty_N_go_0. }
  destruct (decide (x = 0%N)) as [->|Hne]; [rewrite pretty_N_go_0; lia|].
  rewrite pretty_N_go_step by lia. etrans; [apply IH|cbn; lia].
  apply N.Div0.div_lt_upper_bound. rewrite Nat2N.inj_succ, N.pow_succ_r' in Hx. lia.
Qed.

(** The numeral of a non-negative number below [10^k]. *)
Lemma pretty_Z_numeral k z :
  (0 ≤ z < 10 ^ Z.of_nat k)%Z → 1 ≤ k →
  str_all is_ascii_digit (pretty z) = true ∧ String.length (pretty z) ≤ k.
Proof.
  intros Hz Hk. destruct z as [|p|p]; [by split|..|lia].
  change (pretty (Zpos p)) with (pretty_N_go (Npos p) ""). split; [by apply pretty_N_go_digits|].
  rewrite <-(Nat.add_0_r k). apply pretty_N_go_length.
  assert (Z.of_N (Npos p) < Z.of_N (10 ^ N.of_nat k))%Z; [|lia].
  rewrite N2Z.inj_pow. cbn. rewrite nat_N_Z. lia.
Qed.

(** ** Orders: [Ord for str] is the order of the bytes *)

Definition str_cmp (a b : string) : comparison := String.compare a b.

Lemma str_cmp_eq a b : str_cmp a b = Eq ↔ a = b.
Proof.
  split; [apply String.compare_eq_iff|]. intros <-. unfold str_cmp.
  induction a as [|x a IH]; [done|]. cbn. unfold Ascii.compare. by rewrite N.compare_refl.
Qed.

Lemma str_cmp_antisym a b : str_cmp b a = CompOpp (str_cmp a b).
Proof. apply String.compare_antisym. Qed.

Lemma str_cmp_trans a b c : str_cmp a b = Lt → str_cmp b c = Lt → str_cmp a c = Lt.
Proof.
  unfold str_cmp. revert b c. induction a as [|x a IH]; intros [|y b] [|z c]; cbn; try done.
  unfold Ascii.compare.
  destruct (N.compare_spec (N_of_ascii x) (N_of_ascii y)) as [Hxy|Hxy|Hxy]; [..|done];
    destruct (N.compare_spec (N_of_ascii y) (N_of_ascii z)) as [Hyz|Hyz|Hyz]; try done;
    intros H1 H2.
  - rewrite (proj2 (N.compare_eq_iff _ _)) by congruence. by eapply IH.
  - by rewrite (proj2 (N.compare_lt_iff _ _)) by lia.
  - by rewrite (proj2 (N.compare_lt_iff _ _)) by lia.
  - by rewrite (proj2 (N.compare_lt_iff _ _)) by lia.
Qed.
