(* ===== verification/Utf8.v ===== *)
(** * UTF-8 text: validation, lossy decoding, prefixes by characters

    [std::str::from_utf8], [String::from_utf8_lossy] and PostgreSQL's [LEFT]
    over strings as sequences of bytes.  The decoder is the automaton of the
    Unicode table of well-formed byte sequences: after a lead byte it holds the
    ranges the following bytes must lie in. *)

From S2P Require Import Prelude RustStr.

(** ** The automaton *)

Definition byte_range : Type := N * N.

Definition in_range (r : byte_range) (c : ascii) : bool := byte_in r.1 r.2 c.

Definition CONT : byte_range := (128%N, 191%N).

Definition is_continuation (c : ascii) : bool := in_range CONT c.

(** What may follow a lead byte; [None] for a byte that leads nothing. *)
Definition utf8_lead (c : ascii) : option (list byte_range) :=
  if byte_in 0 127 c then Some []
  else if byte_in 194 223 c then Some [CONT]
  else if byte_in 224 224 c then Some [(160%N, 191%N); CONT]
  else if byte_in 225 236 c then Some [CONT; CONT]
  else if byte_in 237 237 c then Some [(128%N, 159%N); CONT]
  else if byte_in 238 239 c then Some [CONT; CONT]
  else if byte_in 240 240 c then Some [(144%N, 191%N); CONT; CONT]
  else if byte_in 241 243 c then Some [CONT; CONT; CONT]
  else if byte_in 244 244 c then Some [(128%N, 143%N); CONT; CONT]
  else None.

Fixpoint utf8_valid_from (pend : list byte_range) (s : string) : bool :=
  match s, pend with
  | EmptyString, [] => true
  | EmptyString, _ :: _ => false
  | String c t, r :: p => in_range r c && utf8_valid_from p t
  | String c t, [] =>
      match utf8_lead c with
      | Some p => utf8_valid_from p t
      | None => false
      end
  end.

(** [std::str::from_utf8(..).is_ok()]. *)
Definition utf8_valid (s : string) : bool := utf8_valid_from [] s.

(** U+FFFD, the replacement character. *)
Definition REPLACEMENT : string :=
  String (ascii_of_nat 239) (String (ascii_of_nat 191) (String (ascii_of_nat 189) "")).

(** [String::from_utf8_lossy]: every maximal ill-formed part becomes one
    replacement character.  [held] are the bytes of the character being read,
    [pend] what may still follow them. *)
Fixpoint utf8_lossy_from (held : string) (pend : list byte_range) (s : string) : string :=
  match s with
  | EmptyString => match pend with [] => "" | _ :: _ => REPLACEMENT end
  | String c t =>
      let start :=
        match utf8_lead c with
        | Some [] => String c (utf8_lossy_from "" [] t)
        | Some p => utf8_lossy_from (String c "") p t
        | None => REPLACEMENT +:+ utf8_lossy_from "" [] t
        end in
      match pend with
      | [] => start
      | r :: p =>
          if in_range r c then
            match p with
            | [] => (held +:+ String c "") +:+ utf8_lossy_from "" [] t
            | _ :: _ => utf8_lossy_from (held +:+ String c "") p t
            end
          else REPLACEMENT +:+ start
      end
  end.

Definition from_utf8_lossy (s : string) : string := utf8_lossy_from "" [] s.

(** PostgreSQL's [LEFT(s, n)] for non-negative [n]: the first [n] characters. *)
Fixpoint utf8_left (n : Z) (s : string) : string :=
  match s with
  | EmptyString => ""
  | String c t =>
      if is_continuation c then String c (utf8_left n t)
      else if (n <=? 0)%Z then "" else String c (utf8_left (n - 1) t)
  end.

(** PostgreSQL refuses text that contains a NUL byte. *)
Definition NUL : ascii := Ascii.zero.
Definition pg_text (s : string) : bool := negb (str_contains NUL s).

(** ** Well-formed text is closed under concatenation and prefixes *)

Lemma byte_in_spec lo hi c :
  byte_in lo hi c = true ↔ (lo ≤ N_of_ascii c ≤ hi)%N.
Proof.
  unfold byte_in. rewrite andb_true_iff, !N.leb_le. done.
Qed.

Lemma utf8_valid_from_app pend s t :
  utf8_valid_from pend s = true →
  utf8_valid_from pend (s +:+ t) = utf8_valid_from [] t.
Proof.
  revert pend. induction s as [|c s IH]; intros [|r p];
    rewrite ?str_app_nil_l, ?str_app_cons; cbn; [done|done|..].
  - destruct (utf8_lead c); [apply IH|done].
  - destruct (in_range r c); [apply IH|done].
Qed.

Lemma utf8_valid_app s t : utf8_valid s = true → utf8_valid t = true → utf8_valid (s +:+ t) = true.
Proof. unfold utf8_valid. intros Hs Ht. by rewrite utf8_valid_from_app. Qed.

Lemma utf8_valid_ascii s : str_all (byte_in 0 127) s = true → utf8_valid s = true.
Proof.
  unfold utf8_valid. induction s as [|c s IH]; [done|]. cbn. intros [Hc Hs]%andb_true_iff.
  unfold utf8_lead. rewrite Hc. by apply IH.
Qed.

(** The ranges an automaton state may hold. *)
Definition is_cont_range (r : byte_range) : Prop := (128 ≤ r.1)%N ∧ (r.2 ≤ 191)%N.

Lemma utf8_lead_ranges c p :
  utf8_lead c = Some p → Forall is_cont_range p ∧ length p ≤ 3 ∧ is_continuation c = false.
Proof.
  intros H. split_and!.
  1,2: unfold utf8_lead in H;
    repeat (case_match; simplify_eq);
    repeat constructor; unfold is_cont_range, CONT; cbn; try lia.
  apply not_true_iff_false. unfold is_continuation, in_range, CONT. cbn [fst snd].
  rewrite byte_in_spec. intros Hc. unfold utf8_lead in H.
  repeat match goal with
  | H : context [byte_in ?a ?b c] |- _ =>
      replace (byte_in a b c) with false in H
        by (symmetry; apply not_true_iff_false; rewrite byte_in_spec; lia)
  end. done.
Qed.

Lemma in_cont_range r c : is_cont_range r → in_range r c = true → is_continuation c = true.
Proof.
  unfold is_cont_range, is_continuation, in_range. rewrite !byte_in_spec. cbn. lia.
Qed.

Lemma utf8_left_valid_from n pend s :
  Forall is_cont_range pend → utf8_valid_from pend s = true →
  utf8_valid_from pend (utf8_left n s) = true.
Proof.
  revert n pend. induction s as [|c s IH]; intros n [|r p] Hp Hv; try done.
  - cbn in Hv. destruct (utf8_lead c) as [p|] eqn:Hl; [|done].
    destruct (utf8_lead_ranges c p Hl) as (Hr & _ & Hc). cbn. rewrite Hc.
    destruct (n <=? 0)%Z; [done|]. cbn. rewrite Hl. by apply IH.
  - cbn in Hv. apply andb_true_iff in Hv as [Hin Hv].
    apply Forall_cons_1 in Hp as [Hr Hp]. cbn. rewrite (in_cont_range r c Hr Hin). cbn.
    rewrite Hin. by apply IH.
Qed.

Lemma utf8_left_valid n s : utf8_valid s = true → utf8_valid (utf8_left n s) = true.
Proof. by apply utf8_left_valid_from. Qed.

(** A character has at most four bytes. *)
Lemma utf8_left_length_from n pend s :
  (0 ≤ n)%Z → Forall is_cont_range pend → utf8_valid_from pend s = true →
  (Z.of_nat (String.length (utf8_left n s)) ≤ Z.of_nat (length pend) + 4 * n)%Z.
Proof.
  revert n pend. induction s as [|c s IH]; intros n [|r p] Hn Hp Hv; try (cbn; lia).
  - cbn in Hv. destruct (utf8_lead c) as [p|] eqn:Hl; [|done].
    destruct (utf8_lead_ranges c p Hl) as (Hr & Hlen & Hc). cbn. rewrite Hc.
    destruct (Z.leb_spec n 0); [cbn; lia|]. cbn.
    specialize (IH (n - 1)%Z p ltac:(lia) Hr Hv). lia.
  - cbn in Hv. apply andb_true_iff in Hv as [Hin Hv].
    apply Forall_cons_1 in Hp as [Hr Hp]. cbn. rewrite (in_cont_range r c Hr Hin). cbn.
    specialize (IH n p Hn Hp Hv). lia.
Qed.

Lemma utf8_left_length n s :
  (0 ≤ n)%Z → utf8_valid s = true →
  (Z.of_nat (String.length (utf8_left n s)) ≤ 4 * n)%Z.
Proof.
  intros Hn Hv. pose proof (utf8_left_length_from n [] s Hn ltac:(done) Hv). cbn in *. lia.
Qed.

(** Text without a given byte keeps it out in every prefix. *)
Lemma utf8_left_contains n c s :
  str_contains c s = false → str_contains c (utf8_left n s) = false.
Proof.
  revert n. induction s as [|x s IH]; intros n; [done|].
  rewrite str_contains_cons, orb_false_iff. intros [Hx Hs]. cbn.
  destruct (is_continuation x); [|destruct (n <=? 0)%Z; [done|]];
    rewrite str_contains_cons, Hx; by apply IH.
Qed.

(** ** Lossy decoding *)

(** [held] are bytes after which the automaton stands at [pend]. *)
Definition held_at (held : string) (pend : list byte_range) : Prop :=
  ∀ u, utf8_valid (held +:+ u) = utf8_valid_from pend u.

Lemma held_at_lead c p : utf8_lead c = Some p → held_at (String c "") p.
Proof. intros H u. unfold utf8_valid. rewrite str_app_cons. cbn. by rewrite H, str_app_nil_l. Qed.

Lemma held_at_step held r p c :
  held_at held (r :: p) → in_range r c = true → held_at (held +:+ String c "") p.
Proof. intros H Hc u. rewrite str_app_assoc, (H _), str_app_cons. cbn. by rewrite Hc, str_app_nil_l. Qed.

Lemma utf8_lossy_valid_from held pend s :
  held_at held pend → utf8_valid (utf8_lossy_from held pend s) = true.
Proof.
  assert (∀ t, utf8_valid (REPLACEMENT +:+ t) = utf8_valid t) as HR by done.
  assert (held_at "" []) as H0 by done.
  revert held pend. induction s as [|c s IH]; intros held pend Hh.
  - by destruct pend.
  - cbn. set (start := match utf8_lead c with Some _ => _ | None => _ end).
    assert (utf8_valid start = true) as Hstart.
    { subst start. destruct (utf8_lead c) as [[|r p]|] eqn:Hl.
      - unfold utf8_valid. cbn. rewrite Hl. by apply IH.
      - apply IH. by apply held_at_lead.
      - rewrite HR. by apply IH. }
    destruct pend as [|r p]; [done|]. destruct (in_range r c) eqn:Hc; [|by rewrite HR].
    pose proof (held_at_step held r p c Hh Hc) as Hstep. destruct p as [|r' p].
    + rewrite (Hstep _). by apply IH.
    + by apply IH.
Qed.

(** What lossy decoding yields is well-formed. *)
Lemma from_utf8_lossy_valid s : utf8_valid (from_utf8_lossy s) = true.
Proof. by apply utf8_lossy_valid_from. Qed.

(** Each byte grows to at most the three bytes of the replacement character. *)
Lemma utf8_lossy_length_from held pend s :
  (pend ≠ [] → 1 ≤ String.length held) →
  String.length (utf8_lossy_from held pend s) ≤ 3 * (String.length held + String.length s).
Proof.
  revert held pend. induction s as [|c s IH]; intros held pend Hh.
  - destruct pend; cbn; [lia|]. specialize (Hh ltac:(done)). lia.
  - cbn [utf8_lossy_from]. set (start := match utf8_lead c with Some _ => _ | None => _ end).
    assert (String.length start ≤ 3 * S (String.length s)) as Hstart.
    { subst start. destruct (utf8_lead c) as [[|r p]|].
      - cbn. specialize (IH "" [] ltac:(done)). cbn in IH. lia.
      - specialize (IH (String c "") (r :: p) ltac:(cbn; lia)). cbn in *. lia.
      - rewrite str_length_app. specialize (IH "" [] ltac:(done)). cbn in *. lia. }
    destruct pend as [|r p]; [cbn in *; lia|]. specialize (Hh ltac:(done)).
    destruct (in_range r c).
    + destruct p as [|r' p].
      * rewrite !str_length_app. specialize (IH "" [] ltac:(done)). cbn in *. lia.
      * specialize (IH (held +:+ String c "") (r' :: p)).
        rewrite !str_length_app in IH. cbn in *. specialize (IH ltac:(lia)). lia.
    + rewrite str_length_app. cbn in *. lia.
Qed.

Lemma from_utf8_lossy_length s : String.length (from_utf8_lossy s) ≤ 3 * String.length s.
Proof. apply (utf8_lossy_length_from "" []). done. Qed.

(** Well-formed text is decoded to itself. *)
Lemma utf8_lossy_id_from held pend s :
  (pend = [] → held = "") → utf8_valid_from pend s = true →
  utf8_lossy_from held pend s = held +:+ s.
Proof.
  revert held pend. induction s as [|c s IH]; intros held pend Hh Hv.
  - destruct pend; [|done]. rewrite (Hh eq_refl). done.
  - destruct pend as [|r p].
    + rewrite (Hh eq_refl). cbn in *. destruct (utf8_lead c) as [[|r p]|]; [..|done].
      * by rewrite IH.
      * by rewrite IH.
    + cbn in *. apply andb_true_iff in Hv as [-> Hv]. destruct p as [|r' p].
      * rewrite IH by done. by rewrite str_app_assoc.
      * rewrite IH by done. by rewrite str_app_assoc.
Qed.

Lemma from_utf8_lossy_id s : utf8_valid s = true → from_utf8_lossy s = s.
Proof. intros Hv. unfold from_utf8_lossy. by rewrite utf8_lossy_id_from. Qed.
