(* ===== verification/Lists.v ===== *)
(** * Lists the standard library of Rust works on

    The stable [sort_by], the positions of the elements a predicate selects, and
    the arithmetic of round-robin slots. *)

From S2P Require Import Prelude.

(** ** [slice::sort_by]: stable *)

Section sort_by.
Context {A : Type} (cmp : A → A → comparison).

(** [x] stood before every element of [l]: it passes only what it exceeds. *)
Fixpoint insert_by (x : A) (l : list A) : list A :=
  match l with
  | [] => [x]
  | y :: l' => match cmp x y with Gt => y :: insert_by x l' | _ => x :: y :: l' end
  end.

Definition sort_by (l : list A) : list A := foldr insert_by [] l.

Lemma insert_by_perm x l : insert_by x l ≡ₚ x :: l.
Proof.
  induction l as [|y l IH]; simpl; [done|]. destruct (cmp x y); [done..|].
  rewrite IH. constructor.
Qed.

Lemma sort_by_perm l : sort_by l ≡ₚ l.
Proof. induction l as [|x l IH]; simpl; [done|]. by rewrite insert_by_perm, IH. Qed.

(** Elements that the predicate selects and that compare alike keep their order. *)
Lemma insert_by_stable (P : A → Prop) `{∀ x, Decision (P x)} x l :
  (∀ a b, P a → P b → cmp a b ≠ Gt) → filter P (insert_by x l) = filter P (x :: l).
Proof.
  intros HP. induction l as [|y l IH]; [done|]. cbn [insert_by].
  destruct (cmp x y) eqn:Hc; [done..|].
  rewrite filter_cons, IH, !filter_cons.
  destruct (decide (P x)), (decide (P y)); try done. by destruct (HP x y).
Qed.

Lemma sort_by_stable (P : A → Prop) `{∀ x, Decision (P x)} l :
  (∀ a b, P a → P b → cmp a b ≠ Gt) → filter P (sort_by l) = filter P l.
Proof.
  intros HP. induction l as [|x l IH]; [done|]. cbn [sort_by foldr].
  rewrite insert_by_stable by done. rewrite !filter_cons. by rewrite <-IH.
Qed.

Context (cmp_antisym : ∀ x y, cmp y x = CompOpp (cmp x y)).
Context (le_trans : ∀ x y z, cmp x y ≠ Gt → cmp y z ≠ Gt → cmp x z ≠ Gt).

Lemma insert_by_sorted x l :
  StronglySorted (λ a b, cmp a b ≠ Gt) l → StronglySorted (λ a b, cmp a b ≠ Gt) (insert_by x l).
Proof using cmp_antisym le_trans.
  induction 1 as [|y l Hl IH Hy]; simpl; [by repeat constructor|].
  destruct (cmp x y) eqn:Hc.
  3: { constructor; [done|]. rewrite insert_by_perm. constructor; [|done].
       rewrite cmp_antisym, Hc. done. }
  all: constructor; [by constructor|]; constructor; [by rewrite Hc|];
    eapply Forall_impl; [exact Hy|]; simpl; intros z Hz; eapply le_trans; [|exact Hz];
    by rewrite Hc.
Qed.

Lemma sort_by_sorted l : StronglySorted (λ a b, cmp a b ≠ Gt) (sort_by l).
Proof using cmp_antisym le_trans.
  induction l; [constructor|by apply insert_by_sorted].
Qed.
End sort_by.

Lemma sort_by_ext {A} (f g : A → A → comparison) l :
  (∀ a b, f a b = g a b) → sort_by f l = sort_by g l.
Proof.
  intros E. unfold sort_by. induction l as [|x l IH]; [done|]. cbn. rewrite IH. clear IH.
  induction (foldr (insert_by g) [] l) as [|y k IH]; [done|]. cbn. by rewrite E, IH.
Qed.

(** Sorting by a key sorts the keys. *)
Lemma fmap_sort_by {A B} (key : A → B) (cmp : B → B → comparison) l :
  key <$> sort_by (λ a b, cmp (key a) (key b)) l = sort_by cmp (key <$> l).
Proof.
  unfold sort_by. induction l as [|x l IH]; [done|]. cbn. rewrite <-IH. clear IH.
  induction (foldr _ [] l) as [|y k IH]; [done|]. cbn. destruct (cmp _ _); cbn; [done..|]. by rewrite IH.
Qed.

Lemma StronglySorted_snoc {A} (R : A → A → Prop) l x :
  StronglySorted R l → Forall (λ y, R y x) l → StronglySorted R (l ++ [x]).
Proof.
  induction 1 as [|y l Hl IH Hy]; simpl; intros Hx; [by repeat constructor|].
  apply Forall_cons in Hx as [? Hx]. constructor; [by apply IH|].
  apply Forall_app. by repeat constructor.
Qed.

Lemma StronglySorted_snoc_inv {A} (R : A → A → Prop) l x :
  StronglySorted R (l ++ [x]) → StronglySorted R l ∧ ∀ y, y ∈ l → R y x.
Proof.
  induction l as [|y l IH]; simpl; intros Hs.
  { split; [constructor|]. by intros ? ?%elem_of_nil. }
  apply StronglySorted_inv in Hs as [Hs Hy]. apply IH in Hs as [Hs Hx].
  apply Forall_app in Hy as [Hy Hyx]. apply (proj1 (Forall_singleton _ _)) in Hyx.
  split; [by constructor|]. intros z [->|Hz]%elem_of_cons; auto.
Qed.

Lemma StronglySorted_fmap_ext {A B C} (R : C → C → Prop) (f : A → C) (g : B → C) l k :
  f <$> l = g <$> k →
  StronglySorted (λ x y, R (f x) (f y)) l → StronglySorted (λ x y, R (g x) (g y)) k.
Proof.
  intros E Hl. revert k E. induction Hl as [|x l Hl IH Hx]; intros [|y k] E; try done; [constructor|].
  injection E as Exy E. fold (f <$> l) in E. fold (g <$> k) in E. constructor; [by apply IH|].
  apply Forall_forall. intros z Hz. apply (list_elem_of_fmap_2 g) in Hz.
  rewrite <-E in Hz. apply list_elem_of_fmap in Hz as (w & -> & Hw).
  rewrite <-Exy. by apply (proj1 (Forall_forall _ _) Hx).
Qed.

Lemma StronglySorted_lookup {A} (R : A → A → Prop) l i j x y :
  StronglySorted R l → i < j → l !! i = Some x → l !! j = Some y → R x y.
Proof.
  intros Hs. revert i j. induction Hs as [|z l Hs IH Hz]; intros i j Hlt Hi Hj; [done|].
  destruct i as [|i], j as [|j]; simpl in *; [lia| |lia|].
  - injection Hi as ->. apply list_elem_of_lookup_2 in Hj. by apply (proj1 (Forall_forall _ _) Hz).
  - apply (IH i j); [lia|done..].
Qed.

Lemma fmap_alter_same {A B} (f : A → B) (g : A → A) (i : nat) (l : list A) :
  (∀ x, f (g x) = f x) → f <$> alter g i l = f <$> l.
Proof.
  intros Hg. revert i. induction l as [|x l IH]; intros [|i]; [done..| |].
  - change (f (g x) :: (f <$> l) = f x :: (f <$> l)). by rewrite Hg.
  - change (f x :: (f <$> alter g i l) = f x :: (f <$> l)). by rewrite IH.
Qed.

Lemma alter_snoc {A} (g : A → A) (l : list A) x : alter g (length l) (l ++ [x]) = l ++ [g x].
Proof.
  induction l as [|y l IH]; [done|].
  change (y :: alter g (length l) (l ++ [x]) = y :: (l ++ [g x])). by rewrite IH.
Qed.

Lemma lookup_snoc_eq {A} (l : list A) x : (l ++ [x]) !! length l = Some x.
Proof. apply lookup_snoc_Some. by right. Qed.

(** ** Positions *)

(** The positions, from [n] on, of the elements of [l] that satisfy [P]. *)
Fixpoint positions_from {A} (P : A → bool) (n : nat) (l : list A) : list nat :=
  match l with
  | [] => []
  | x :: l' => if P x then n :: positions_from P (S n) l' else positions_from P (S n) l'
  end.

Definition positions {A} (P : A → bool) (l : list A) : list nat := positions_from P 0 l.

Lemma positions_from_app {A} (P : A → bool) n l1 l2 :
  positions_from P n (l1 ++ l2) = positions_from P n l1 ++ positions_from P (n + length l1) l2.
Proof.
  revert n. induction l1 as [|x l1 IH]; intros n; simpl; [by rewrite Nat.add_0_r|].
  rewrite IH, Nat.add_succ_comm. by destruct (P x).
Qed.

Lemma positions_snoc {A} (P : A → bool) l x :
  positions P (l ++ [x]) = positions P l ++ (if P x then [length l] else []).
Proof. unfold positions. by rewrite positions_from_app. Qed.

Lemma elem_of_positions_from {A} (P : A → bool) n l i :
  i ∈ positions_from P n l ↔ ∃ k x, i = n + k ∧ l !! k = Some x ∧ P x = true.
Proof.
  revert n. induction l as [|x l IH]; intros n; simpl.
  { split; [by intros ?%elem_of_nil|]. by intros (k & y & _ & ? & _). }
  assert (i ∈ positions_from P (S n) l ↔ ∃ k y, i = n + S k ∧ l !! k = Some y ∧ P y = true) as IH'.
  { rewrite IH. by setoid_rewrite Nat.add_succ_comm. }
  destruct (P x) eqn:Hx; rewrite ?elem_of_cons, IH'; split.
  - intros [->|(k & y & -> & ?)]; [exists 0, x; split_and!; [lia|done..]|by exists (S k), y].
  - intros ([|k] & y & -> & Hy & ?); [left; lia|right; by exists k, y].
  - intros (k & y & -> & ?). by exists (S k), y.
  - intros ([|k] & y & -> & Hy & ?); [simplify_eq/=; congruence|by exists k, y].
Qed.

Lemma elem_of_positions {A} (P : A → bool) l i :
  i ∈ positions P l ↔ ∃ x, l !! i = Some x ∧ P x = true.
Proof. unfold positions. rewrite elem_of_positions_from. naive_solver. Qed.

Lemma positions_ext {A B} (P : A → bool) (Q : B → bool) l k :
  P <$> l = Q <$> k → positions P l = positions Q k.
Proof.
  unfold positions. generalize 0. revert k. induction l as [|x l IH]; intros [|y k] n E; try done.
  injection E as Exy E. simpl. rewrite Exy. by rewrite (IH k).
Qed.

Lemma NoDup_fmap_filter {A B} (f : A → B) (P : A → Prop) `{∀ x, Decision (P x)} l :
  NoDup (f <$> l) → NoDup (f <$> filter P l).
Proof.
  induction l as [|x l IH]; [done|]. cbn [fmap list_fmap]. intros [Hx Hl]%NoDup_cons.
  rewrite filter_cons. case_decide; [|by apply IH]. cbn [fmap list_fmap].
  apply NoDup_cons. split; [|by apply IH]. contradict Hx.
  apply list_elem_of_fmap in Hx as (y & -> & Hy). apply list_elem_of_filter in Hy as [_ Hy].
  by apply list_elem_of_fmap_2.
Qed.

(** [Iterator::filter] and [Vec::retain] take boolean tests. *)
Lemma list_filter_bool {A} (f : A → bool) l : List.filter f l = filter (λ x, f x = true) l.
Proof.
  induction l as [|x l IH]; [done|]. cbn [List.filter]. rewrite filter_cons, IH.
  destruct (f x) eqn:E; case_decide; congruence.
Qed.

(** ** Strictly sorted lists *)

Section strict.
Context {A : Type} (R : A → A → Prop) `{∀ x y, Decision (R x y)}.
Context (R_asym : ∀ x y, R x y → R y x → False).

Lemma strictly_sorted_unique l k :
  StronglySorted R l → StronglySorted R k → l ≡ₚ k → l = k.
Proof using R_asym.
  intros Hl Hk. revert k Hk. induction Hl as [|x l Hl IH Hx]; intros k Hk HP.
  { by apply Permutation_nil_l in HP. }
  destruct Hk as [|y k Hk Hy]; [by apply Permutation_nil_r in HP|].
  assert (x = y) as ->.
  { assert (x ∈ y :: k) as [?|Hxk]%elem_of_cons by (rewrite <-HP; by left); [done|].
    assert (y ∈ x :: l) as [?|Hyl]%elem_of_cons by (rewrite HP; by left); [done|].
    exfalso. apply (R_asym x y).
    - by apply (proj1 (Forall_forall _ _) Hx).
    - by apply (proj1 (Forall_forall _ _) Hy). }
  f_equal. apply IH; [done|]. by apply Permutation_cons_inv in HP.
Qed.

(** What stands after an element are the elements it precedes. *)
Lemma strictly_sorted_after l i x :
  StronglySorted R l → l !! i = Some x → filter (R x) l = drop (S i) l.
Proof using R_asym.
  intros Hl. revert i. induction Hl as [|y l Hl IH Hy]; intros i Hi; [done|].
  rewrite filter_cons. destruct i as [|i]; simpl in Hi.
  - injection Hi as ->. rewrite decide_False by (intros ?; eauto).
    change (drop 1 (x :: l)) with (drop 0 l). rewrite drop_0. clear -Hy. induction Hy as [|z l Hz Hl IH]; [done|].
    by rewrite filter_cons, decide_True, IH.
  - rewrite decide_False; [by rewrite (IH i)|].
    intros Hxy. apply list_elem_of_lookup_2 in Hi.
    apply (proj1 (Forall_forall _ _) Hy) in Hi. eauto.
Qed.

Lemma strictly_sorted_filter (P : A → Prop) `{∀ x, Decision (P x)} l :
  StronglySorted R l → StronglySorted R (filter P l).
Proof.
  induction 1 as [|x l Hl IH Hx]; [constructor|]. rewrite filter_cons.
  case_decide; [|done]. constructor; [done|]. apply Forall_forall. intros y Hy.
  apply list_elem_of_filter in Hy as [_ Hy]. by apply (proj1 (Forall_forall _ _) Hx).
Qed.

End strict.

(** ** Sorting without ties *)

Section sort_strict.
Context {A : Type} (cmp : A → A → comparison).
Context (cmp_eq : ∀ x y, cmp x y = Eq → x = y).
Context (cmp_antisym : ∀ x y, cmp y x = CompOpp (cmp x y)).
Context (cmp_trans : ∀ x y z, cmp x y = Lt → cmp y z = Lt → cmp x z = Lt).

Lemma cmp_le_trans x y z : cmp x y ≠ Gt → cmp y z ≠ Gt → cmp x z ≠ Gt.
Proof using cmp_eq cmp_trans.
  intros Hxy Hyz. destruct (cmp x y) eqn:E1; [by apply cmp_eq in E1 as ->|..|done].
  destruct (cmp y z) eqn:E2; [apply cmp_eq in E2 as <-; by rewrite E1|..|done].
  by rewrite (cmp_trans _ _ _ E1 E2).
Qed.

Lemma sort_by_strict l :
  NoDup l → StronglySorted (λ a b, cmp a b = Lt) (sort_by cmp l).
Proof using cmp_eq cmp_antisym cmp_trans.
  intros Hnd. rewrite <-(sort_by_perm cmp l) in Hnd.
  pose proof (sort_by_sorted cmp cmp_antisym cmp_le_trans l) as Hs.
  induction Hs as [|x k Hs IH Hx]; [constructor|]. apply NoDup_cons in Hnd as [Hn Hnd].
  constructor; [by apply IH|]. apply Forall_forall. intros y Hy.
  pose proof (proj1 (Forall_forall _ _) Hx y Hy) as Hle. cbn in Hle.
  destruct (cmp x y) eqn:E; [|done..]. apply cmp_eq in E as ->. done.
Qed.
End sort_strict.
