(* ===== verification/Canonical.v ===== *)
(** * Canonical encodings

    Documents that are digested are first written as bytes: integers big-endian, texts and
    collections preceded by their length. Such an encoding is a prefix code, so the bytes
    determine the document. The encoders differ only in the error of a length that does
    not fit 32 bits. *)

From S2P Require Import Prelude RustStr.

Section encoders.
Context {E : Type} (too_long : E).

(** [u32::try_from(value)?.to_be_bytes()]. *)
Definition enc_u32 (value : Z) : result E string :=
  ensure? (value <=? U32_MAX)%Z else too_long in Ok (be_bytes 4 value).

Definition enc_str (value : string) : result E string :=
  let? len := enc_u32 (str_len value) in Ok (len +:+ value).

(** A loop that pushes each element. *)
Fixpoint push_each {A} (f : A → result E string) (l : list A) : result E string :=
  match l with
  | [] => Ok ""
  | x :: l => let? a := f x in let? b := push_each f l in Ok (a +:+ b)
  end.

(** The count of a collection, then each element. *)
Definition enc_counted {A} (f : A → result E string) (l : list A) : result E string :=
  let? n := enc_u32 (Z.of_nat (length l)) in
  let? items := push_each f l in
  Ok (n +:+ items).

(** Two pushes in sequence. *)
Definition push_pair {A B} (f : A → result E string) (g : B → result E string) (x : A * B) :
    result E string :=
  let? a := f x.1 in let? b := g x.2 in Ok (a +:+ b).

(** ** Prefix codes *)

Definition prefix_code {A} (f : A → result E string) : Prop :=
  ∀ x y a b r s, f x = Ok a → f y = Ok b → a +:+ r = b +:+ s → x = y ∧ r = s.

Lemma enc_u32_code v w a b r s :
  (0 ≤ v)%Z → (0 ≤ w)%Z → enc_u32 v = Ok a → enc_u32 w = Ok b →
  a +:+ r = b +:+ s → v = w ∧ r = s.
Proof.
  unfold enc_u32. intros Hv Hw Ha Hb Eq. inv_ok Ha. inv_ok Hb. bool_to_prop.
  apply ok_inj in Ha as <-. apply ok_inj in Hb as <-.
  apply str_app_inj_length in Eq as [Eq ->]; [|by rewrite !length_be_bytes]. split; [|done].
  unfold U32_MAX in *. apply be_bytes_inj in Eq; [done|cbn; lia..].
Qed.

Lemma enc_str_code : prefix_code enc_str.
Proof.
  intros x y a b r s Ha Hb Eq. unfold enc_str in *. inv_ok Ha. inv_ok Hb.
  apply ok_inj in Ha as <-. apply ok_inj in Hb as <-. rewrite !str_app_assoc in Eq.
  eapply enc_u32_code in Eq as [El Eq]; [|apply str_len_nonneg..|done|done].
  apply str_app_inj_length in Eq; [done|]. unfold str_len in El. lia.
Qed.

Lemma push_pair_code {A B} (f : A → result E string) (g : B → result E string) :
  prefix_code f → prefix_code g → prefix_code (push_pair f g).
Proof.
  intros Hf Hg [x1 x2] [y1 y2] a b r s Ha Hb Eq. unfold push_pair in *. cbn [fst snd] in *.
  inv_ok Ha. inv_ok Hb. apply ok_inj in Ha as <-. apply ok_inj in Hb as <-. rewrite !str_app_assoc in Eq.
  eapply Hf in Eq as [-> Eq]; [|done..]. by eapply Hg in Eq as [-> ->].
Qed.

Lemma push_each_code {A} (f : A → result E string) l k a b r s :
  prefix_code f → length l = length k → push_each f l = Ok a → push_each f k = Ok b →
  a +:+ r = b +:+ s → l = k ∧ r = s.
Proof.
  intros Hf. revert k a b. induction l as [|x l IH]; intros [|y k] a b Hlen Ha Hb Eq; try done;
    cbn [push_each] in *.
  { simplify_eq. done. }
  inv_ok Ha. inv_ok Hb. apply ok_inj in Ha as <-. apply ok_inj in Hb as <-. rewrite !str_app_assoc in Eq.
  eapply Hf in Eq as [-> Eq]; [|done..]. eapply IH in Eq as [-> ->]; [done|by injection Hlen|done..].
Qed.

Lemma enc_counted_code {A} (f : A → result E string) : prefix_code f → prefix_code (enc_counted f).
Proof.
  intros Hf l k a b r s Ha Hb Eq. unfold enc_counted in *. inv_ok Ha. inv_ok Hb.
  apply ok_inj in Ha as <-. apply ok_inj in Hb as <-. rewrite !str_app_assoc in Eq.
  eapply enc_u32_code in Eq as [El Eq]; [|apply Nat2Z.is_nonneg..|done|done].
  eapply push_each_code in Eq; [done|done|lia|done..].
Qed.

(** Encoding an injective view of a value. *)
Lemma prefix_code_pullback {A B} (f : B → result E string) (g : A → B) :
  prefix_code f → Inj (=) (=) g → prefix_code (λ x, f (g x)).
Proof. intros Hf Hg x y a b r s Ha Hb Eq. eapply Hf in Eq as [Eq ->]; [|done..]. by apply Hg in Eq. Qed.
End encoders.

Create HintDb codes.
#[export] Hint Resolve enc_str_code push_pair_code enc_counted_code : codes.
