(* ===== verification/Grpc.v ===== *)
(** * Statuses of RPCs ([tonic::Status]) and protobuf values shared by the services *)

From S2P Require Import Prelude RustStr.

Inductive Code : Type :=
| CCancelled | CUnknown | CInvalidArgument | CDeadlineExceeded | CNotFound | CAlreadyExists
| CPermissionDenied | CResourceExhausted | CFailedPrecondition | CAborted | COutOfRange
| CUnimplemented | CInternal | CUnavailable | CDataLoss | CUnauthenticated.

#[global] Instance Code_eq_dec : EqDecision Code.
Proof. solve_decision. Defined.

Record Status : Type := rpc_status { st_code : Code; st_message : string }.

#[global] Instance Status_eq_dec : EqDecision Status.
Proof. solve_decision. Defined.

(** [Err(Status::permission_denied(..))]. *)
Definition denied {A} (message : string) : result Status A := Err (rpc_status CPermissionDenied message).

Definition is_denied {A} (r : result Status A) : bool :=
  match r with Err (rpc_status CPermissionDenied _) => true | _ => false end.

(** [Option::map(..).transpose()]. *)
Definition transpose {A B E} (o : option A) (f : A → result E B) : result E (option B) :=
  match o with None => Ok None | Some a => let? b := f a in Ok (Some b) end.
