(* ===== verification/Orders.v ===== *)
(** * Total orders ([Ord])

    The laws of the comparisons that [derive(Ord)] and the library's [Ord] instances
    provide, closed under the ways the program builds them, and what they give for sorted
    vectors. *)

From S2P Require Import Prelude RustStr Lists.

(** Lexicographic order, [derive(Ord)] on fields in sequence. *)
Definition then_cmp (a b : comparison) : comparison := match a with Eq => b | c => c end.

(** [Ord] for [Vec] and [BTreeSet]: lexicographic. *)
Fixpoint list_cmp {A} (cmp : A → A → comparison) (l k : list A) : comparison :=
  match l, k with
  | [], [] => Eq
  | [], _ :: _ => Lt
  | _ :: _, [] => Gt
  | x :: l, y :: k => then_cmp (cmp x y) (list_cmp cmp l k)
  end.

(** [Ord] for [Option]: [None] first. *)
Definition option_cmp {A} (cmp : A → A → comparison) (a b : option A) : comparison :=
  match a, b with
  | None, None => Eq
  | None, Some _ => Lt
  | Some _, None => Gt
  | Some a, Some b => cmp a b
  end.

(** [Ord] for pairs. *)
Definition pair_cmp {A B} (f : A → A → comparison) (g : B → B → comparison) (x y : A * B) :
    comparison :=
  then_cmp (f x.1 y.1) (g x.2 y.2).

(** [l.windows(2).all(...)]. *)
Fixpoint windows2_all {A} (f : A → A → bool) (l : list A) : bool :=
  match l with
  | [] => true
  | x :: rest => match rest with [] => true | y :: _ => f x y && windows2_all f rest end
  end.

Class Ord {A} (cmp : A → A → comparison) : Prop := {
  ord_eq x y : cmp x y = Eq → x = y;
  ord_antisym x y : cmp y x = CompOpp (cmp x y);
  ord_trans x y z : cmp x y = Lt → cmp y z = Lt → cmp x z = Lt;
}.

Lemma ord_refl `{Ord A cmp} x : cmp x x = Eq.
Proof. pose proof (ord_antisym x x) as E. by destruct (cmp x x). Qed.

Lemma then_cmp_lt a b : then_cmp a b = Lt ↔ a = Lt ∨ (a = Eq ∧ b = Lt).
Proof. destruct a, b; cbn; naive_solver. Qed.

Lemma then_cmp_eq a b : then_cmp a b = Eq ↔ a = Eq ∧ b = Eq.
Proof. destruct a, b; cbn; naive_solver. Qed.

Lemma then_cmp_opp a b : CompOpp (then_cmp a b) = then_cmp (CompOpp a) (CompOpp b).
Proof. by destruct a. Qed.

#[export] Instance str_ord : Ord str_cmp.
Proof.
  split; [by intros x y ->%str_cmp_eq|apply str_cmp_antisym|apply str_cmp_trans].
Qed.

#[export] Instance Z_ord : Ord Z.compare.
Proof.
  split; [apply Z.compare_eq|apply Z.compare_antisym|]. intros x y z. rewrite !Z.compare_lt_iff. lia.
Qed.

(** One comparison before another. *)
Lemma then_trans `{Ord A f} {B} (g : B → B → comparison) x1 y1 z1 x2 y2 z2 :
  (g x2 y2 = Lt → g y2 z2 = Lt → g x2 z2 = Lt) →
  then_cmp (f x1 y1) (g x2 y2) = Lt → then_cmp (f y1 z1) (g y2 z2) = Lt →
  then_cmp (f x1 z1) (g x2 z2) = Lt.
Proof.
  intros Hg. rewrite !then_cmp_lt. intros [H1|[H1 H1']] [H2|[H2 H2']].
  - left. by eapply ord_trans.
  - left. by apply ord_eq in H2 as <-.
  - left. by apply ord_eq in H1 as ->.
  - right. split; [apply ord_eq in H1 as ->; exact H2|by apply Hg].
Qed.

#[export] Instance pair_ord `{Ord A f} `{Ord B g} :
  Ord (pair_cmp f g).
Proof.
  split.
  - intros [a b] [c d] [E1 E2]%then_cmp_eq. cbn in *. apply ord_eq in E1 as ->.
    by apply ord_eq in E2 as ->.
  - intros x y. unfold pair_cmp. by rewrite then_cmp_opp, <-!ord_antisym.
  - intros x y z. unfold pair_cmp. apply then_trans. apply ord_trans.
Qed.

#[export] Instance list_ord `{Ord A cmp} : Ord (list_cmp cmp).
Proof.
  split.
  - induction x as [|x l IH]; intros [|y k]; try done. cbn. intros [->%ord_eq E]%then_cmp_eq.
    f_equal. by apply IH.
  - induction x as [|x l IH]; intros [|y k]; try done. cbn. by rewrite then_cmp_opp, <-ord_antisym, IH.
  - induction x as [|x l IH]; intros [|y k] [|z m]; try done. cbn. apply then_trans. apply IH.
Qed.

#[export] Instance option_ord `{Ord A cmp} : Ord (option_cmp cmp).
Proof.
  split.
  - intros [x|] [y|]; cbn; [by intros ->%ord_eq|done..].
  - intros [x|] [y|]; cbn; [apply ord_antisym|done..].
  - intros [x|] [y|] [z|]; cbn; [apply ord_trans|done..].
Qed.

(** Comparing through an injective key. *)
Lemma ord_pullback `{Ord B cmp} {A} (f : A → B) :
  Inj (=) (=) f → Ord (λ x y, cmp (f x) (f y)).
Proof.
  intros Hf. split.
  - intros x y E%ord_eq. by apply Hf.
  - intros x y. apply ord_antisym.
  - intros x y z. apply ord_trans.
Qed.

(** ** Sorting *)

Section sorting.
#[local] Set Default Proof Using "All".
Context `{Ord A cmp}.

Lemma ord_le_trans x y z : cmp x y ≠ Gt → cmp y z ≠ Gt → cmp x z ≠ Gt.
Proof. apply cmp_le_trans; [apply ord_eq|apply ord_trans]. Qed.

Lemma ord_sorted l : StronglySorted (λ a b, cmp a b ≠ Gt) (sort_by cmp l).
Proof. apply sort_by_sorted; [apply ord_antisym|apply ord_le_trans]. Qed.

Lemma ord_sorted_strict l : NoDup l → StronglySorted (λ a b, cmp a b = Lt) (sort_by cmp l).
Proof. apply sort_by_strict; [apply ord_eq|apply ord_antisym|apply ord_trans]. Qed.

(** A sorted vector whose neighbours differ has no duplicates. *)
Lemma sorted_neighbours_NoDup f l :
  (∀ x, f x x = false) → StronglySorted (λ a b, cmp a b ≠ Gt) l → windows2_all f l = true → NoDup l.
Proof.
  intros Hf. induction 1 as [|x l Hl IH Hx]; intros Hw; [constructor|].
  destruct l as [|y l]; [apply NoDup_singleton|].
  cbn [windows2_all] in Hw. apply andb_true_iff in Hw as [Hxy Hw].
  constructor; [|by apply IH]. intros Hin.
  apply elem_of_cons in Hin as [->|Hin]; [by rewrite Hf in Hxy|].
  apply Forall_cons_1 in Hx as [Hle _].
  apply StronglySorted_inv in Hl as [_ Hy].
  pose proof (proj1 (Forall_forall _ _) Hy x Hin) as Hge. cbn in Hge.
  rewrite ord_antisym in Hge. destruct (cmp x y) eqn:E; [|done|done].
  apply ord_eq in E as ->. by rewrite Hf in Hxy.
Qed.

(** Sorting forgets the order of the source. *)
Lemma sort_by_Permutation l k : NoDup l → l ≡ₚ k → sort_by cmp l = sort_by cmp k.
Proof.
  intros Hnd HP. apply (strictly_sorted_unique (λ a b, cmp a b = Lt)).
  - intros x y Hxy Hyx. rewrite ord_antisym, Hxy in Hyx. done.
  - by apply ord_sorted_strict.
  - apply ord_sorted_strict. by rewrite <-HP.
  - by rewrite !sort_by_perm.
Qed.
End sorting.

(** Sorting by a key that no two elements share. *)
Lemma sort_by_key_Permutation {A B} (cmp : B → B → comparison) `{!Ord cmp} (key : A → B) l k :
  NoDup (key <$> l) → l ≡ₚ k →
  sort_by (λ a b, cmp (key a) (key b)) l = sort_by (λ a b, cmp (key a) (key b)) k.
Proof.
  set (by_key := λ a b, cmp (key a) (key b)).
  assert (∀ l, NoDup (key <$> l) → StronglySorted (λ a b, by_key a b = Lt) (sort_by by_key l)) as Hs.
  { clear l k. intros l Hnd.
    assert (StronglySorted (λ a b, by_key a b ≠ Gt) (sort_by by_key l)) as Hle.
    { apply sort_by_sorted; [intros x y; apply (ord_antisym (cmp := cmp))|intros x y z; apply (ord_le_trans (cmp := cmp))]. }
    rewrite <-(sort_by_perm by_key) in Hnd. induction Hle as [|x m Hm IH Hx]; [constructor|].
    apply NoDup_cons in Hnd as [Hn Hnd]. constructor; [by apply IH|].
    apply Forall_forall. intros y Hy. pose proof (proj1 (Forall_forall _ _) Hx y Hy) as Hxy.
    unfold by_key in *. cbn in Hxy. destruct (cmp (key x) (key y)) eqn:E; [|done..].
    apply ord_eq in E. destruct Hn. rewrite E. by apply list_elem_of_fmap_2. }
  intros Hnd HP. apply (strictly_sorted_unique (λ a b, by_key a b = Lt)).
  - intros x y Hxy Hyx. unfold by_key in *. rewrite ord_antisym, Hxy in Hyx. done.
  - by apply Hs.
  - apply Hs. by rewrite <-HP.
  - by rewrite !sort_by_perm.
Qed.
