(* ===== verification/Externals.v ===== *)
(** * What the program uses of code outside the repository

    The crates [sha2], [semver] and [http] are parameters of the model: type
    classes whose operations the components call and whose laws state only
    behaviour those crates document. [Models] holds concrete instances. *)

From S2P Require Import Prelude RustStr Utf8.

(** [sha2::Sha256] printed with [{:x}]: 32 bytes, 64 lowercase hex digits. *)
Class Sha256Lib : Type := {
  sha256_hex : string → string;
  sha256_hex_length s : String.length (sha256_hex s) = 64;
  sha256_hex_digits s :
    str_all (λ c, is_ascii_digit c || byte_in 97 102 c) (sha256_hex s) = true;
}.

(** [semver::Version] and [semver::VersionReq]. *)
Class SemverLib : Type := {
  Version : Type;
  version_parse : string → option Version;
  version_cmp : Version → Version → comparison;
  VersionReq : Type;
  req_parse : string → option VersionReq;
  req_matches : VersionReq → Version → bool;
  (** [impl Ord for Version]: a total order, consistent with equality. *)
  version_cmp_eq v w : version_cmp v w = Eq ↔ v = w;
  version_cmp_antisym v w : version_cmp w v = CompOpp (version_cmp v w);
  version_cmp_trans u v w :
    version_cmp u v = Lt → version_cmp v w = Lt → version_cmp u w = Lt;
}.

(** Names the [http] crate takes as header names (letters, digits and hyphens;
    the crate takes a few more punctuation characters the program does not use).
    They are compared without regard to case. *)
Definition header_name_ok (name : string) : bool :=
  negb (str_is_empty name) && str_all (λ c, is_ascii_alphanumeric c || char_eqb c "-") name.

Definition same_header (a b : string) : bool :=
  String.eqb (to_ascii_lowercase a) (to_ascii_lowercase b).

(** Bytes of a registered name without a port or user information. *)
Definition host_byte (c : ascii) : bool :=
  is_ascii_lowercase c || is_ascii_digit c || char_eqb c "-" || char_eqb c ".".

(** [http::HeaderValue], [http::HeaderMap] and [http::Uri]. *)
Class HttpLib : Type := {
  HeaderValue : Type;
  header_from_str : string → option HeaderValue;
  header_to_str : HeaderValue → option string;
  HeaderMap : Type;
  hm_new : HeaderMap;
  (** [HeaderMap::get_all]: the values of a name, in order. *)
  hm_get_all : HeaderMap → string → list HeaderValue;
  hm_insert : HeaderMap → string → HeaderValue → HeaderMap;
  hm_remove : HeaderMap → string → HeaderMap;
  Uri : Type;
  uri_parse : string → option Uri;
  uri_scheme : Uri → option string;
  uri_authority : Uri → option string;
  uri_host : Uri → option string;
  uri_port : Uri → option Z;
  uri_path : Uri → string;
  uri_query : Uri → option string;
  PathAndQuery : Type;
  path_and_query_parse : string → option PathAndQuery;
  (** [PathAndQuery::from_static("/")]. *)
  root_path_and_query : PathAndQuery;
  uri_path_and_query : Uri → option PathAndQuery;
  (** [Uri::from_parts] of the parts of a URI with [path_and_query] replaced. *)
  uri_set_path_and_query : Uri → PathAndQuery → option Uri;
  (** [HeaderValue::from_str] accepts visible ASCII, and [to_str] returns it. *)
  header_visible s :
    str_all is_visible_ascii s = true →
    ∃ h, header_from_str s = Some h ∧ header_to_str h = Some s;
  (** [to_str] yields the text the value was made from. *)
  header_to_str_from s h s' : header_from_str s = Some h → header_to_str h = Some s' → s' = s;
  (** The host of [http://host/path]. *)
  uri_host_http host path u :
    host ≠ "" → str_all host_byte host = true → starts_with "/" path = true →
    uri_parse ("http://" +:+ host +:+ path) = Some u → uri_host u = Some host;
  hm_get_all_new k : hm_get_all hm_new k = [];
  (** [HeaderMap::insert] replaces every value of the name, [remove] drops them. *)
  hm_get_all_insert m k v k' :
    header_name_ok k = true →
    hm_get_all (hm_insert m k v) k' = if same_header k k' then [v] else hm_get_all m k';
  hm_get_all_remove m k k' :
    header_name_ok k = true →
    hm_get_all (hm_remove m k) k' = if same_header k k' then [] else hm_get_all m k';
}.

(** The OpenTelemetry propagator behind [telemetry::inject_context]: the W3C trace
    context propagator writes [traceparent] and [tracestate] and nothing else. *)
Class TraceLib `{HttpLib} : Type := {
  inject_context : HeaderMap → HeaderMap;
  inject_context_other headers name :
    same_header "traceparent" name = false → same_header "tracestate" name = false →
    hm_get_all (inject_context headers) name = hm_get_all headers name;
}.

(** [matchit::Router<Vec<usize>>] built by inserting [entries] one by one ([None] on
    the first invalid or conflicting pattern). A match returns the value of one
    of the inserted patterns. *)
Class MatchitLib : Type := {
  Router : Type;
  router_build : list (string * list nat) → option Router;
  router_at : Router → string → option (list nat);
  router_at_inserted entries r path v :
    router_build entries = Some r → router_at r path = Some v → ∃ p, (p, v) ∈ entries;
}.

(** [failsafe::StateMachine] with the consecutive-failures policy and an
    [Instrument]. Every operation reads the clock and reports the callbacks it
    makes, in order. *)
Inductive instrument_event : Type :=
| on_call_rejected
| on_open
| on_half_open
| on_closed.

Inductive machine_state : Type := MClosed | MOpen | MHalfOpen.

(** The state the callbacks made so far announce, starting from [s]. *)
Definition announce (s : machine_state) (e : instrument_event) : machine_state :=
  match e with
  | on_call_rejected => s
  | on_open => MOpen
  | on_half_open => MHalfOpen
  | on_closed => MClosed
  end.

Class FailsafeLib : Type := {
  Machine : Type;
  machine_new : Z → Z → Machine;
  machine_is_call_permitted : Z → Machine → bool * Machine * list instrument_event;
  machine_on_success : Z → Machine → Machine * list instrument_event;
  machine_on_error : Z → Machine → Machine * list instrument_event;
  machine_state_of : Machine → machine_state;
  (** A new breaker is closed. *)
  machine_new_closed threshold duration :
    machine_state_of (machine_new threshold duration) = MClosed;
  (** [Instrument]: "calls when the circuit breaker becomes ..." - the callbacks
      announce every change of state. *)
  machine_permitted_announced now m :
    foldl announce (machine_state_of m) (machine_is_call_permitted now m).2
    = machine_state_of (machine_is_call_permitted now m).1.2;
  machine_success_announced now m :
    foldl announce (machine_state_of m) (machine_on_success now m).2
    = machine_state_of (machine_on_success now m).1;
  machine_error_announced now m :
    foldl announce (machine_state_of m) (machine_on_error now m).2
    = machine_state_of (machine_on_error now m).1;
  (** A closed breaker permits every call. *)
  machine_closed_permits now m :
    machine_state_of m = MClosed → (machine_is_call_permitted now m).1.1 = true;
  (** The failure policy opens a breaker, when a failure is recorded: asking for
      permission and recording a success never do. *)
  machine_permitted_never_opens now m : on_open ∉ (machine_is_call_permitted now m).2;
  machine_success_never_opens now m : on_open ∉ (machine_on_success now m).2;
}.

(** What a paging cursor is made of: [base64]'s [URL_SAFE_NO_PAD], [serde_json] on a
    structure of a number and three strings, and [chrono]'s RFC 3339 text (four-digit
    years). *)
Class CursorLib : Type := {
  base64_encode : string → string;
  base64_decode : string → option string;
  cursor_to_json : Z → string → string → string → string;
  cursor_from_json : string → option (Z * string * string * string);
  to_rfc3339 : Z → string;
  parse_from_rfc3339 : string → option Z;
  base64_decode_encode s : base64_decode (base64_encode s) = Some s;
  base64_encode_empty s : base64_encode s = "" → s = "";
  cursor_from_to_json v a b c :
    utf8_valid a = true → utf8_valid b = true → utf8_valid c = true →
    cursor_from_json (cursor_to_json v a b c) = Some (v, a, b, c);
  cursor_to_json_nonempty v a b c : cursor_to_json v a b c ≠ "";
  rfc3339_utf8 t : utf8_valid (to_rfc3339 t) = true;
  rfc3339_roundtrip t :
    (0 ≤ t < from_secs 253402300800)%Z → parse_from_rfc3339 (to_rfc3339 t) = Some t;
}.

(** The collation PostgreSQL compares text with: a total order, with equality only
    between equal texts (deterministic collations). *)
Class CollationLib : Type := {
  text_cmp : string → string → comparison;
  text_cmp_eq a b : text_cmp a b = Eq ↔ a = b;
  text_cmp_antisym a b : text_cmp b a = CompOpp (text_cmp a b);
  text_cmp_trans a b c : text_cmp a b = Lt → text_cmp b c = Lt → text_cmp a c = Lt;
}.
