(* ===== verification/Models.v ===== *)
(** * Concrete instances of the external interfaces

    Small executable stand-ins for the crates of [Externals], with their laws
    proved. Only the witnesses use them: they show that the laws the theorems
    rely on can hold together, on inputs the definitions evaluate. *)

From S2P Require Import Prelude RustStr Utf8 Externals.

(** ** Digest *)

Definition zeros64 : string :=
  "0000000000000000000000000000000000000000000000000000000000000000".

Lemma zeros64_digits : str_all (λ c, is_ascii_digit c || byte_in 97 102 c) zeros64 = true.
Proof. done. Qed.

Definition toy_sha256 : Sha256Lib :=
  {| sha256_hex _ := zeros64; sha256_hex_length _ := eq_refl; sha256_hex_digits _ := zeros64_digits |}.

(** ** Versions: three numbers, ordered lexicographically *)

Definition digit_value (c : ascii) : option Z :=
  if is_ascii_digit c then Some (Z.of_N (N_of_ascii c) - 48)%Z else None.

Fixpoint number_parse_from (acc : Z) (s : string) : option Z :=
  match s with
  | EmptyString => Some acc
  | String c s' => match digit_value c with
                   | Some d => number_parse_from (10 * acc + d)%Z s'
                   | None => None
                   end
  end.

Definition number_parse (s : string) : option Z :=
  if str_is_empty s then None else number_parse_from 0 s.

Definition toy_version : Type := Z * Z * Z.

Definition toy_version_parse (s : string) : option toy_version :=
  match str_split "." s with
  | [a; b; c] => match number_parse a, number_parse b, number_parse c with
                 | Some x, Some y, Some z => Some (x, y, z)
                 | _, _, _ => None
                 end
  | _ => None
  end.

Definition lex (a b : comparison) : comparison := match a with Eq => b | c => c end.

Definition toy_version_cmp (v w : toy_version) : comparison :=
  lex (v.1.1 ?= w.1.1)%Z (lex (v.1.2 ?= w.1.2)%Z (v.2 ?= w.2)%Z).

Inductive toy_req : Type := ReqCaret (major : Z) | ReqExact (v : toy_version).

Definition toy_req_parse (s : string) : option toy_req :=
  match strip_prefix "^" s with
  | Some rest => ReqCaret <$> number_parse rest
  | None => ReqExact <$> toy_version_parse s
  end.

Definition toy_req_matches (r : toy_req) (v : toy_version) : bool :=
  match r with
  | ReqCaret major => (v.1.1 =? major)%Z
  | ReqExact w => bool_decide (v = w)
  end.

Lemma toy_version_cmp_eq v w : toy_version_cmp v w = Eq ↔ v = w.
Proof.
  unfold toy_version_cmp, lex. destruct v as [[a b] c], w as [[x y] z]; simpl.
  destruct (Z.compare_spec a x), (Z.compare_spec b y), (Z.compare_spec c z);
    split; intros; simplify_eq; done || lia.
Qed.

Lemma toy_version_cmp_antisym v w : toy_version_cmp w v = CompOpp (toy_version_cmp v w).
Proof.
  unfold toy_version_cmp, lex. destruct v as [[a b] c], w as [[x y] z]; simpl.
  rewrite (Z.compare_antisym a x), (Z.compare_antisym b y), (Z.compare_antisym c z).
  by destruct (a ?= x)%Z, (b ?= y)%Z, (c ?= z)%Z.
Qed.

Lemma toy_version_cmp_trans u v w :
  toy_version_cmp u v = Lt → toy_version_cmp v w = Lt → toy_version_cmp u w = Lt.
Proof.
  unfold toy_version_cmp, lex. destruct u as [[a b] c], v as [[x y] z], w as [[p q] r]; simpl.
  destruct (Z.compare_spec a x), (Z.compare_spec x p), (Z.compare_spec a p); intros; try lia; try done.
  all: destruct (Z.compare_spec b y), (Z.compare_spec y q), (Z.compare_spec b q); try lia; try done.
  all: destruct (Z.compare_spec c z), (Z.compare_spec z r), (Z.compare_spec c r); try lia; try done.
Qed.

Definition toy_semver : SemverLib :=
  {| Version := toy_version; version_parse := toy_version_parse;
     version_cmp := toy_version_cmp; VersionReq := toy_req;
     req_parse := toy_req_parse; req_matches := toy_req_matches;
     version_cmp_eq := toy_version_cmp_eq; version_cmp_antisym := toy_version_cmp_antisym;
     version_cmp_trans := toy_version_cmp_trans |}.

(** ** Headers and URIs: [scheme://host[:port][/path][?query]] *)

Record toy_uri : Type := mkToyUri {
  tu_scheme : option string; tu_authority : option string;
  tu_path : string; tu_query : option string;
}.

Definition cut_query (s : string) : string * option string :=
  match split_once "?" s with Some (p, q) => (p, Some q) | None => (s, None) end.

Fixpoint find_scheme (s : string) : option (string * string) :=
  match strip_prefix "://" s with
  | Some rest => Some (EmptyString, rest)
  | None => match s with
            | EmptyString => None
            | String c s' => match find_scheme s' with
                             | Some (a, b) => Some (String c a, b)
                             | None => None
                             end
            end
  end.

Definition toy_uri_parse (s : string) : option toy_uri :=
  if negb (str_all is_visible_ascii s) || str_contains " " s then None
  else match find_scheme s with
       | Some (scheme, rest) =>
           let '(before, query) := cut_query rest in
           match split_once "/" before with
           | Some (authority, path) =>
               if str_is_empty authority then None
               else Some (mkToyUri (Some scheme) (Some authority) ("/" +:+ path) query)
           | None =>
               if str_is_empty before then None
               else Some (mkToyUri (Some scheme) (Some before) "/" query)
           end
       | None => let '(path, query) := cut_query s in
                 if starts_with "/" path then Some (mkToyUri None None path query) else None
       end.

Definition toy_uri_host (u : toy_uri) : option string :=
  (λ a, match split_once ":" a with Some (h, _) => h | None => a end) <$> tu_authority u.

Definition toy_uri_port (u : toy_uri) : option Z :=
  a ← tu_authority u; '(_, p) ← split_once ":" a; number_parse p.

Abbreviation toy_headers := (gmap string (list string)).

Definition toy_header_from_str (s : string) : option string :=
  if str_all is_visible_ascii s then Some s else None.

Definition toy_get_all (m : toy_headers) (k : string) : list string :=
  default [] (m !! to_ascii_lowercase k).

Definition toy_insert (m : toy_headers) (k v : string) : toy_headers :=
  <[to_ascii_lowercase k := [v]]> m.

Definition toy_remove (m : toy_headers) (k : string) : toy_headers :=
  delete (to_ascii_lowercase k) m.

Lemma toy_header_visible s :
  str_all is_visible_ascii s = true → ∃ h, toy_header_from_str s = Some h ∧ Some h = Some s.
Proof. intros Hs. exists s. unfold toy_header_from_str. by rewrite Hs. Qed.

Lemma toy_header_to_str_from s h s' : toy_header_from_str s = Some h → Some h = Some s' → s' = s.
Proof. unfold toy_header_from_str. destruct (str_all _ s); [|done]. by intros [= <-] [= <-]. Qed.

Lemma host_byte_not host c :
  host_byte c = false → str_all host_byte host = true → str_contains c host = false.
Proof. intros Hc Hh. by apply (str_all_not_contains host_byte). Qed.

Lemma toy_uri_host_http host path u :
  host ≠ "" → str_all host_byte host = true → starts_with "/" path = true →
  toy_uri_parse ("http://" +:+ host +:+ path) = Some u → toy_uri_host u = Some host.
Proof.
  intros Hne Hh Hp. unfold toy_uri_parse. destruct (negb _ || _); [done|].
  change (find_scheme ("http://" +:+ host +:+ path)) with (Some ("http", host +:+ path)). cbn iota.
  unfold starts_with in Hp. destruct (strip_prefix "/" path) as [rest|] eqn:Hpath; [|done].
  apply strip_prefix_Some in Hpath as ->. change ("/" +:+ rest) with (String "/" rest).
  rename rest into path.
  unfold cut_query.
  assert (∃ p q, (match split_once "?" (host +:+ String "/" path) with
    Some (p, q) => (p, Some q) | None => (host +:+ String "/" path, None) end)
    = (host +:+ String "/" p, q)) as (p & q & ->).
  { destruct (split_once "?" (host +:+ String "/" path)) as [[a b]|] eqn:E; [|by eexists _, _].
    assert (split_once "?" (String "/" path) = None ∨ ∃ a' b', split_once "?" (String "/" path) = Some (a', b'))
      as [E'|(a' & b' & E')] by (destruct (split_once "?" (String "/" path)) as [[]|]; eauto).
    - apply split_once_None in E'. apply split_once_Some in E as [E _].
      assert (str_contains "?" (host +:+ String "/" path) = true) as Hq.
      { rewrite E, str_contains_app, str_contains_cons. simpl. by rewrite orb_true_r. }
      rewrite str_contains_app, E', (host_byte_not host "?") in Hq by done. done.
    - simpl in E'. destruct (split_once "?" path) as [[a1 b1]|] eqn:E1; [|done].
      injection E' as <- <-. apply split_once_Some in E1 as [-> Ha1].
      assert (split_once "?" (host +:+ String "/" (a1 +:+ String "?" b1))
        = Some (host +:+ String "/" a1, b1)) as E2.
      { apply split_once_Some. split; [by rewrite str_app_assoc, str_app_cons|].
        rewrite str_contains_app, str_contains_cons, Ha1, (host_byte_not host "?") by done. done. }
      rewrite E in E2. injection E2 as -> ->. by eexists _, _. }
  assert (split_once "/" (host +:+ String "/" p) = Some (host, p)) as ->.
  { apply split_once_Some. split; [done|]. by apply host_byte_not. }
  destruct (str_is_empty host) eqn:Hemp; [by destruct host|]. intros [= <-].
  unfold toy_uri_host. simpl.
  assert (split_once ":" host = None) as ->; [|done].
  apply split_once_None. by apply host_byte_not.
Qed.

Lemma toy_get_all_new k : toy_get_all ∅ k = [].
Proof. done. Qed.

Lemma toy_get_all_insert m k v k' :
  header_name_ok k = true →
  toy_get_all (toy_insert m k v) k' = if same_header k k' then [v] else toy_get_all m k'.
Proof.
  intros _. unfold same_header, toy_get_all, toy_insert.
  destruct (String.eqb_spec (to_ascii_lowercase k) (to_ascii_lowercase k')) as [<-|?];
    [by rewrite lookup_insert_eq|by rewrite lookup_insert_ne].
Qed.

Lemma toy_get_all_remove m k k' :
  header_name_ok k = true →
  toy_get_all (toy_remove m k) k' = if same_header k k' then [] else toy_get_all m k'.
Proof.
  intros _. unfold same_header, toy_get_all, toy_remove.
  destruct (String.eqb_spec (to_ascii_lowercase k) (to_ascii_lowercase k')) as [<-|?];
    [by rewrite lookup_delete_eq|by rewrite lookup_delete_ne].
Qed.

Definition toy_http : HttpLib :=
  {| HeaderValue := string; header_from_str := toy_header_from_str; header_to_str := Some;
     HeaderMap := toy_headers; hm_new := ∅; hm_get_all := toy_get_all; hm_insert := toy_insert;
     hm_remove := toy_remove;
     Uri := toy_uri; uri_parse := toy_uri_parse;
     uri_scheme := tu_scheme; uri_authority := tu_authority;
     uri_host := toy_uri_host; uri_port := toy_uri_port;
     uri_path := tu_path; uri_query := tu_query;
     PathAndQuery := string * option string;
     path_and_query_parse s := if starts_with "/" s then Some (cut_query s) else None;
     root_path_and_query := ("/", None);
     uri_path_and_query u := Some (tu_path u, tu_query u);
     uri_set_path_and_query u pq := Some (mkToyUri (tu_scheme u) (tu_authority u) pq.1 pq.2);
     header_visible := toy_header_visible; header_to_str_from := toy_header_to_str_from;
     uri_host_http := toy_uri_host_http; hm_get_all_new := toy_get_all_new;
     hm_get_all_insert := toy_get_all_insert; hm_get_all_remove := toy_get_all_remove |}.

Definition toy_traceparent (headers : toy_headers) : toy_headers :=
  toy_insert headers "traceparent" "00-0af7651916cd43dd8448eb211c80319c-b7ad6b7169203331-01".

Lemma toy_traceparent_other headers name :
  same_header "traceparent" name = false → same_header "tracestate" name = false →
  toy_get_all (toy_traceparent headers) name = toy_get_all headers name.
Proof. intros Hn _. unfold toy_traceparent. rewrite toy_get_all_insert by done. by rewrite Hn. Qed.

Definition toy_trace : TraceLib (H := toy_http) :=
  {| inject_context := toy_traceparent : @HeaderMap toy_http → @HeaderMap toy_http;
     inject_context_other := toy_traceparent_other |}.

(** ** Routes: exact paths *)

Definition toy_router_at (entries : list (string * list nat)) (path : string) : option (list nat) :=
  match list_find (λ e, e.1 = path) entries with Some (_, e) => Some e.2 | None => None end.

Definition toy_router_build (entries : list (string * list nat)) : option (list (string * list nat)) :=
  if bool_decide (NoDup entries.*1) && forallb (λ e, starts_with "/" e.1) entries
  then Some entries else None.

Lemma toy_router_at_inserted entries r path v :
  toy_router_build entries = Some r → toy_router_at r path = Some v → ∃ p, (p, v) ∈ entries.
Proof.
  unfold toy_router_build, toy_router_at. destruct (bool_decide _ && _); [|done]. intros [= <-].
  destruct (list_find _ entries) as [[i [p w]]|] eqn:Hf; [|done]. intros [= <-].
  apply list_find_Some in Hf as (Hi & _ & _). exists p. by eapply list_elem_of_lookup_2.
Qed.

Definition toy_matchit : MatchitLib :=
  {| Router := list (string * list nat); router_build := toy_router_build;
     router_at := toy_router_at; router_at_inserted := toy_router_at_inserted |}.

(** ** Circuit breaker: consecutive failures, constant delay *)

Inductive toy_machine_state : Type := TClosed (failures : Z) | TOpen (until : Z) | THalfOpen.

Record toy_machine : Type := mkToyMachine {
  tm_threshold : Z; tm_duration : Z; tm_state : toy_machine_state;
}.

Definition toy_set (m : toy_machine) (s : toy_machine_state) : toy_machine :=
  mkToyMachine (tm_threshold m) (tm_duration m) s.

Definition toy_permitted (now : Z) (m : toy_machine) : bool * toy_machine * list instrument_event :=
  match tm_state m with
  | TClosed _ | THalfOpen => (true, m, [])
  | TOpen until => if (until <? now)%Z then (true, toy_set m THalfOpen, [on_half_open])
                   else (false, m, [on_call_rejected])
  end.

Definition toy_success (now : Z) (m : toy_machine) : toy_machine * list instrument_event :=
  match tm_state m with
  | TClosed _ => (toy_set m (TClosed 0), [])
  | THalfOpen => (toy_set m (TClosed 0), [on_closed])
  | TOpen _ => (m, [])
  end.

Definition toy_error (now : Z) (m : toy_machine) : toy_machine * list instrument_event :=
  match tm_state m with
  | TClosed f => if (tm_threshold m <=? f + 1)%Z
                 then (toy_set m (TOpen (now + tm_duration m)), [on_open])
                 else (toy_set m (TClosed (f + 1)), [])
  | THalfOpen => (toy_set m (TOpen (now + tm_duration m)), [on_open])
  | TOpen _ => (m, [])
  end.

Definition toy_state_of (m : toy_machine) : machine_state :=
  match tm_state m with TClosed _ => MClosed | TOpen _ => MOpen | THalfOpen => MHalfOpen end.

Definition toy_machine_new (threshold duration : Z) : toy_machine :=
  mkToyMachine threshold duration (TClosed 0).

Lemma toy_new_closed t d : toy_state_of (toy_machine_new t d) = MClosed.
Proof. done. Qed.

Lemma toy_permitted_announced now m :
  foldl announce (toy_state_of m) (toy_permitted now m).2 = toy_state_of (toy_permitted now m).1.2.
Proof. destruct m as [t d []]; unfold toy_permitted; simpl; [done| |done]. by destruct (_ <? _)%Z. Qed.

Lemma toy_success_announced now m :
  foldl announce (toy_state_of m) (toy_success now m).2 = toy_state_of (toy_success now m).1.
Proof. by destruct m as [t d []]. Qed.

Lemma toy_error_announced now m :
  foldl announce (toy_state_of m) (toy_error now m).2 = toy_state_of (toy_error now m).1.
Proof. destruct m as [t d []]; unfold toy_error; simpl; [|done..]. by destruct (_ <=? _)%Z. Qed.

Lemma toy_closed_permits now m : toy_state_of m = MClosed → (toy_permitted now m).1.1 = true.
Proof. by destruct m as [t d []]. Qed.

Lemma toy_permitted_never_opens now m : on_open ∉ (toy_permitted now m).2.
Proof.
  destruct m as [t d []]; unfold toy_permitted; simpl; [|destruct (_ <? _)%Z; simpl|];
    rewrite ?elem_of_cons, ?elem_of_nil; naive_solver.
Qed.

Lemma toy_success_never_opens now m : on_open ∉ (toy_success now m).2.
Proof. destruct m as [t d []]; simpl; rewrite ?elem_of_cons, ?elem_of_nil; naive_solver. Qed.

Definition toy_failsafe : FailsafeLib :=
  {| Machine := toy_machine; machine_new := toy_machine_new;
     machine_is_call_permitted := toy_permitted; machine_on_success := toy_success;
     machine_on_error := toy_error; machine_state_of := toy_state_of;
     machine_new_closed := toy_new_closed; machine_permitted_announced := toy_permitted_announced;
     machine_success_announced := toy_success_announced;
     machine_error_announced := toy_error_announced;
     machine_closed_permits := toy_closed_permits;
     machine_permitted_never_opens := toy_permitted_never_opens;
     machine_success_never_opens := toy_success_never_opens |}.

(** ** Cursors and collation *)

(** Values as the binary digits of their code. *)
Fixpoint bits_of (p : positive) : string :=
  match p with
  | xH => "1"
  | xO p => String "0" (bits_of p)
  | xI p => String "1" (bits_of p)
  end.

Fixpoint bits_parse (s : string) : option positive :=
  match s with
  | EmptyString => None
  | String c EmptyString => if char_eqb c "1" then Some xH else None
  | String c s' => (if char_eqb c "1" then xI else xO) <$> bits_parse s'
  end.

Lemma bits_parse_of p : bits_parse (bits_of p) = Some p.
Proof.
  assert (∀ p, ∃ c s, bits_of p = String c s) as Hne by (intros []; cbn; eauto).
  induction p as [p IH|p IH|]; [..|done]; cbn [bits_of];
    destruct (Hne p) as (c & s & E); rewrite E in *;
    change (bits_parse (String ?b (String c s)))
      with ((if char_eqb b "1" then xI else xO) <$> bits_parse (String c s));
    by rewrite IH.
Qed.

Lemma bits_of_nonempty p : bits_of p ≠ "".
Proof. by destruct p. Qed.

Lemma bits_of_utf8 p : utf8_valid (bits_of p) = true.
Proof. induction p; done. Qed.

Definition coded `{Countable A} (x : A) : string := bits_of (encode x).
Definition decoded `{Countable A} (s : string) : option A := bits_parse s ≫= decode.

Lemma decoded_coded `{Countable A} (x : A) : decoded (coded x) = Some x.
Proof. unfold decoded, coded. rewrite bits_parse_of. apply decode_encode. Qed.

Definition toy_cursor_json (v : Z) (a b c : string) : string := coded (v, a, b, c).

Lemma toy_cursor_roundtrip v a b c :
  utf8_valid a = true → utf8_valid b = true → utf8_valid c = true →
  decoded (toy_cursor_json v a b c) = Some (v, a, b, c).
Proof. intros _ _ _. apply decoded_coded. Qed.

Lemma toy_cursor_nonempty v a b c : toy_cursor_json v a b c ≠ "".
Proof. apply bits_of_nonempty. Qed.

Lemma coded_utf8 (t : Z) : utf8_valid (coded t) = true.
Proof. apply bits_of_utf8. Qed.

Lemma coded_roundtrip (t : Z) :
  (0 ≤ t < from_secs 253402300800)%Z → decoded (coded t) = Some t.
Proof. intros _. apply decoded_coded. Qed.

Lemma some_id_roundtrip (s : string) : Some s = Some s.
Proof. done. Qed.

Definition toy_cursor : CursorLib :=
  {| base64_encode s := s;
     base64_decode s := Some s;
     cursor_to_json := toy_cursor_json;
     cursor_from_json := decoded;
     to_rfc3339 := coded;
     parse_from_rfc3339 := decoded;
     base64_decode_encode := some_id_roundtrip;
     base64_encode_empty s H := H;
     cursor_from_to_json := toy_cursor_roundtrip;
     cursor_to_json_nonempty := toy_cursor_nonempty;
     rfc3339_utf8 := coded_utf8;
     rfc3339_roundtrip := coded_roundtrip |}.

Definition toy_collation : CollationLib :=
  {| text_cmp := str_cmp;
     text_cmp_eq := str_cmp_eq;
     text_cmp_antisym := str_cmp_antisym;
     text_cmp_trans := str_cmp_trans |}.

(** ** Lists of texts as one text, for the instances of message codecs *)

(** Each byte is marked; an unmarked one ends the text. *)
Fixpoint mark (s : string) (rest : string) : string :=
  match s with
  | EmptyString => String "." rest
  | String c s => String "," (String c (mark s rest))
  end.

Fixpoint unmark (s : string) : option (string * string) :=
  match s with
  | EmptyString => None
  | String m s =>
      if char_eqb m "." then Some (EmptyString, s)
      else match s with
           | EmptyString => None
           | String c s => '(a, rest) ← unmark s; Some (String c a, rest)
           end
  end.

Definition texts_encode (l : list string) : string := foldr mark "" l.

Fixpoint texts_decode_fuel (fuel : nat) (s : string) : option (list string) :=
  match fuel, s with
  | _, EmptyString => Some []
  | O, _ => None
  | S fuel, _ => '(a, rest) ← unmark s; l ← texts_decode_fuel fuel rest; Some (a :: l)
  end.

Definition texts_decode (s : string) : option (list string) := texts_decode_fuel (String.length s) s.

Lemma unmark_mark s rest : unmark (mark s rest) = Some (s, rest).
Proof. induction s as [|c s IH]; [done|]. cbn in *. by rewrite IH. Qed.

Lemma mark_length s rest : String.length rest < String.length (mark s rest).
Proof. induction s; cbn in *; lia. Qed.

Lemma texts_decode_fuel_encode fuel l :
  String.length (texts_encode l) ≤ fuel → texts_decode_fuel fuel (texts_encode l) = Some l.
Proof.
  revert fuel. induction l as [|s l IH]; intros fuel Hf; [by destruct fuel|].
  cbn [texts_encode foldr] in *. fold (texts_encode l) in *.
  pose proof (mark_length s (texts_encode l)). destruct fuel as [|fuel]; [lia|].
  pose proof (unmark_mark s (texts_encode l)) as E.
  destruct (mark s (texts_encode l)) as [|c m] eqn:Em; [done|].
  change (texts_decode_fuel (S fuel) (String c m))
    with ('(a, rest) ← unmark (String c m); l ← texts_decode_fuel fuel rest; Some (a :: l)).
  rewrite E. cbn. rewrite IH; [done|lia].
Qed.

Lemma texts_decode_encode l : texts_decode (texts_encode l) = Some l.
Proof. by apply texts_decode_fuel_encode. Qed.
