(* ===== verification/Identity.v ===== *)
(** * Identities (wr-common/src/identity.rs)

    Stable names, principal kinds, principal URIs, opaque ids and the namespace
    filter. A principal URI is the only identity a client certificate carries,
    so its parser must accept exactly the strings its printer produces. *)

From S2P Require Import Prelude RustStr.

(** ** Stable names *)

Definition MAX_STABLE_NAME_LEN : nat := 24.

(** The failures of [validate_name], each with the [kind] its message names. *)
Inductive name_error : Type :=
| NameRequired (kind : string)
| NameTooLong (kind : string)
| NameBadStart (kind : string)
| NameBadEnd (kind : string)
| NameBadByte (kind : string).

#[global] Instance name_error_eq_dec : EqDecision name_error.
Proof. solve_decision. Defined.

(** [Option::is_some_and]. *)
Definition is_some_and {A} (o : option A) (p : A → bool) : bool :=
  match o with Some a => p a | None => false end.

Definition name_edge_byte (c : ascii) : bool := is_ascii_lowercase c || is_ascii_digit c.
Definition name_byte (c : ascii) : bool :=
  is_ascii_lowercase c || is_ascii_digit c || char_eqb c "-".

Definition validate_name (value kind : string) : result name_error () :=
  if str_is_empty value then Err (NameRequired kind)
  else if bool_decide (MAX_STABLE_NAME_LEN < String.length value) then Err (NameTooLong kind)
  else if negb (is_some_and (str_head value) is_ascii_lowercase)
          && negb (is_some_and (str_head value) is_ascii_digit)
  then Err (NameBadStart kind)
  else if negb (is_some_and (str_last value) is_ascii_lowercase)
          && negb (is_some_and (str_last value) is_ascii_digit)
  then Err (NameBadEnd kind)
  else if negb (str_all name_byte value) then Err (NameBadByte kind)
  else Ok ().

(** The seven types the macro [name_type!] declares, with their labels. *)
Inductive name_type : Type :=
| TNamespace | TModuleName | TJobQueueId | TClusterId | TNodeId | TManagerId
| TPrincipalName.

Definition name_label (t : name_type) : string :=
  match t with
  | TNamespace => "namespace"
  | TModuleName => "module name"
  | TJobQueueId => "job queue id"
  | TClusterId => "cluster id"
  | TNodeId => "node id"
  | TManagerId => "manager id"
  | TPrincipalName => "principal name"
  end.

Record name (t : name_type) : Type := Name { name_str : string }.
Arguments Name {t} name_str.
Arguments name_str {t} n.

#[global] Instance name_eq_dec t : EqDecision (name t).
Proof. solve_decision. Defined.

#[global] Instance name_countable t : Countable (name t).
Proof. by apply (inj_countable' name_str Name); intros []. Defined.

(** [$name::parse]. *)
Definition name_parse (t : name_type) (value : string) : result name_error (name t) :=
  let? _ := validate_name value (name_label t) in Ok (Name value).

Abbreviation Namespace := (name TNamespace).
Abbreviation ModuleName := (name TModuleName).
Abbreviation ClusterId := (name TClusterId).
Abbreviation PrincipalName := (name TPrincipalName).

(** ** Principals *)

Inductive PrincipalKind : Type :=
| Human | ServiceAccount | ManagerKind | ProxyKind | NodeAgent | PostgresClient.

#[global] Instance PrincipalKind_eq_dec : EqDecision PrincipalKind.
Proof. solve_decision. Defined.

Definition principal_kind_as_str (k : PrincipalKind) : string :=
  match k with
  | Human => "human"
  | ServiceAccount => "service-account"
  | ManagerKind => "manager"
  | ProxyKind => "proxy"
  | NodeAgent => "node-agent"
  | PostgresClient => "postgres-client"
  end.

Inductive principal_error : Type :=
| PrincipalBadScheme
| PrincipalMissingCluster
| PrincipalMissingKind
| PrincipalMissingName
| PrincipalTrailing
| PrincipalBadName (e : name_error)
| PrincipalUnsupportedKind
| PrincipalNotCanonical.

#[global] Instance principal_error_eq_dec : EqDecision principal_error.
Proof. solve_decision. Defined.

Definition principal_kind_from_str (value : string) : result principal_error PrincipalKind :=
  if decide (value = "human") then Ok Human
  else if decide (value = "service-account") then Ok ServiceAccount
  else if decide (value = "manager") then Ok ManagerKind
  else if decide (value = "proxy") then Ok ProxyKind
  else if decide (value = "node-agent") then Ok NodeAgent
  else if decide (value = "postgres-client") then Ok PostgresClient
  else Err PrincipalUnsupportedKind.

Record PrincipalUri : Type := mkPrincipalUri {
  pu_value : string;
  pu_cluster_id : ClusterId;
  pu_kind : PrincipalKind;
  pu_name : PrincipalName;
}.

#[global] Instance PrincipalUri_eq_dec : EqDecision PrincipalUri.
Proof. solve_decision. Defined.

(** [format!("urn:wruntime:{cluster_id}:{}:{name}", kind.as_str())]. *)
Definition principal_uri_format (c : ClusterId) (k : PrincipalKind) (n : PrincipalName) : string :=
  "urn:wruntime:" +:+ name_str c +:+ ":" +:+ principal_kind_as_str k +:+ ":" +:+ name_str n.

Definition principal_uri_new (c : ClusterId) (k : PrincipalKind) (n : PrincipalName) : PrincipalUri :=
  mkPrincipalUri (principal_uri_format c k n) c k n.

(** [segments.next()] on the iterator of the remaining segments. *)
Definition next_segment (segs : list string) : option string * list string :=
  match segs with [] => (None, []) | s :: rest => (Some s, rest) end.

Definition require_segment (segs : list string) (e : principal_error) :
  result principal_error (string * list string) :=
  match next_segment segs with
  | (Some s, rest) => Ok (s, rest)
  | (None, _) => Err e
  end.

Definition lift_name {A} (r : result name_error A) : result principal_error A :=
  match r with Ok a => Ok a | Err e => Err (PrincipalBadName e) end.

Definition principal_uri_parse (value : string) : result principal_error PrincipalUri :=
  let segments := str_split ":" value in
  let '(s0, segments) := next_segment segments in
  let '(s1, segments) := next_segment segments in
  if bool_decide (s0 ≠ Some "urn") || bool_decide (s1 ≠ Some "wruntime")
  then Err PrincipalBadScheme
  else
    let? (cluster, segments) := require_segment segments PrincipalMissingCluster in
    let? (kind, segments) := require_segment segments PrincipalMissingKind in
    let? (pname, segments) := require_segment segments PrincipalMissingName in
    match next_segment segments with
    | (Some _, _) => Err PrincipalTrailing
    | (None, _) =>
        let? cluster_id := lift_name (name_parse TClusterId cluster) in
        let? kind := principal_kind_from_str kind in
        let? pname := lift_name (name_parse TPrincipalName pname) in
        let canonical := principal_uri_format cluster_id kind pname in
        if bool_decide (canonical ≠ value) then Err PrincipalNotCanonical
        else Ok (mkPrincipalUri canonical cluster_id kind pname)
    end.

(** ** Opaque ids *)

(** UTF-8 encodings of the code points [char::is_whitespace] accepts. *)
Definition whitespace_at (s : string) : bool :=
  match s with
  | String a (String b (String c _)) =>
      let '(a, b, c) := (N_of_ascii a, N_of_ascii b, N_of_ascii c) in
      ((a =? 225) && (b =? 154) && (c =? 128))
      || ((a =? 226) && (b =? 128)
          && (((128 <=? c) && (c <=? 138)) || (c =? 168) || (c =? 169) || (c =? 175)))
      || ((a =? 226) && (b =? 129) && (c =? 159))
      || ((a =? 227) && (b =? 128) && (c =? 128))
  | _ => false
  end%N
  || match s with
     | String a (String b _) =>
         let '(a, b) := (N_of_ascii a, N_of_ascii b) in
         (a =? 194) && ((b =? 133) || (b =? 160))
     | _ => false
     end%N
  || match s with String a _ => byte_in 9 13 a || byte_in 32 32 a | _ => false end.

Fixpoint any_whitespace (s : string) : bool :=
  whitespace_at s || match s with EmptyString => false | String _ s' => any_whitespace s' end.

(** Bytes of the whitespace character at the head of [s], 0 when there is none. *)
Definition whitespace_len (s : string) : nat :=
  if negb (whitespace_at s) then 0
  else match s with
       | String a _ => if (N_of_ascii a <? 128)%N then 1 else if (N_of_ascii a <? 224)%N then 2 else 3
       | EmptyString => 0
       end.

(** [str::trim_start]; [skip] bytes of the current character remain. *)
Fixpoint trim_start_from (skip : nat) (s : string) : string :=
  match s with
  | EmptyString => EmptyString
  | String _ s' =>
      match skip with
      | S skip => trim_start_from skip s'
      | O => match whitespace_len s with O => s | S skip => trim_start_from skip s' end
      end
  end.

Fixpoint trim_end (s : string) : string :=
  match s with
  | EmptyString => EmptyString
  | String c s' => if str_is_empty (trim_start_from 0 s) then EmptyString else String c (trim_end s')
  end.

(** [str::trim]. *)
Definition str_trim (s : string) : string := trim_end (trim_start_from 0 s).

(** [EngineId::parse] and [RuleId::parse] ([opaque_id_type!]). *)
Definition opaque_id_parse (value : string) : option string :=
  if str_is_empty value || bool_decide (128 < String.length value) || any_whitespace value
  then None else Some value.

(** ** Route keys and the namespace filter *)

Definition route_key_validate (namespace module : string) : result name_error () :=
  let? _ := validate_name namespace "namespace" in
  validate_name module "module name".

Record RouteKey : Type := mkRouteKey { rk_namespace : Namespace; rk_module : ModuleName }.

#[global] Instance RouteKey_eq_dec : EqDecision RouteKey.
Proof. solve_decision. Defined.

#[global] Instance RouteKey_countable : Countable RouteKey.
Proof.
  by apply (inj_countable' (λ k, (rk_namespace k, rk_module k)) (λ p, mkRouteKey p.1 p.2));
    intros [].
Defined.

Definition route_key_parse (namespace module : string) : result name_error RouteKey :=
  let? _ := route_key_validate namespace module in
  Ok (mkRouteKey (Name namespace) (Name module)).

Inductive NamespaceFilter : Type :=
| FilterAll
| FilterOne (n : Namespace).

Definition namespace_filter_from_wire (value : string) : result name_error NamespaceFilter :=
  if str_is_empty value then Ok FilterAll
  else let? n := name_parse TNamespace value in Ok (FilterOne n).

Definition namespace_filter_as_db_value (f : NamespaceFilter) : string :=
  match f with FilterAll => "" | FilterOne n => name_str n end.

(** ** What the validator accepts *)

Definition valid_name (value : string) : Prop :=
  1 ≤ String.length value ≤ MAX_STABLE_NAME_LEN
  ∧ is_some_and (str_head value) name_edge_byte = true
  ∧ is_some_and (str_last value) name_edge_byte = true
  ∧ str_all name_byte value = true.

Lemma is_some_and_orb {A} (o : option A) (p q : A → bool) :
  is_some_and o (λ a, p a || q a) = is_some_and o p || is_some_and o q.
Proof. by destruct o. Qed.

Lemma edge_test o :
  negb (is_some_and o is_ascii_lowercase) && negb (is_some_and o is_ascii_digit)
  = negb (is_some_and o name_edge_byte).
Proof. rewrite <-negb_orb. f_equal. symmetry. apply is_some_and_orb. Qed.

Lemma validate_name_ok value kind u :
  validate_name value kind = Ok u ↔ valid_name value.
Proof.
  destruct u.
  unfold validate_name, valid_name. rewrite !edge_test.
  destruct value as [|c s]; [split; [done|simpl; lia]|].
  simpl str_is_empty. case_bool_decide as Hl; [split; [done|lia]|].
  assert (1 ≤ String.length (String c s) ≤ MAX_STABLE_NAME_LEN) by (simpl in *; lia).
  destruct (is_some_and (str_head _) _), (is_some_and (str_last _) _), (str_all _ _);
    simpl negb; cbv iota; intuition done.
Qed.

(** [validate_name] accepts exactly the strings of 1 to 24 bytes over
    lowercase letters, digits and '-' that start and end with a letter or
    digit, whatever the label of the identity. *)
Theorem validate_name_accepts value kind :
  validate_name value kind = Ok () ↔ valid_name value.
Proof. apply validate_name_ok. Qed.

Lemma name_parse_ok t value n :
  name_parse t value = Ok n ↔ n = Name value ∧ valid_name value.
Proof.
  unfold name_parse. rewrite rbind_ok. setoid_rewrite validate_name_ok. naive_solver.
Qed.

Lemma name_parse_valid t value : valid_name value → name_parse t value = Ok (Name value).
Proof. intros H. by apply name_parse_ok. Qed.

Lemma name_parse_str t value n : name_parse t value = Ok n → name_str n = value.
Proof. rewrite name_parse_ok. by intros [-> _]. Qed.

Lemma valid_name_no_char value c :
  name_byte c = false → valid_name value → str_contains c value = false.
Proof. intros Hc (_ & _ & _ & H). by eapply str_all_not_contains. Qed.

Lemma route_key_parse_ok ns m k :
  route_key_parse ns m = Ok k
  ↔ k = mkRouteKey (Name ns) (Name m) ∧ valid_name ns ∧ valid_name m.
Proof.
  unfold route_key_parse, route_key_validate. rewrite !rbind_ok.
  setoid_rewrite rbind_ok. setoid_rewrite validate_name_ok. naive_solver.
Qed.

(** ** Principal URIs *)

Lemma principal_kind_from_str_ok s k :
  principal_kind_from_str s = Ok k ↔ s = principal_kind_as_str k.
Proof. unfold principal_kind_from_str. split; [|intros ->; by destruct k].
  repeat case_decide; naive_solver. Qed.

Lemma principal_kind_no_colon k : str_contains ":" (principal_kind_as_str k) = false.
Proof. by destruct k. Qed.

Lemma principal_uri_segments c k n :
  valid_name (name_str c) → valid_name (name_str n) →
  str_split ":" (principal_uri_format c k n)
  = ["urn"; "wruntime"; name_str c; principal_kind_as_str k; name_str n].
Proof.
  intros Hc Hn. unfold principal_uri_format.
  change ("urn:wruntime:" +:+ ?x) with ("urn" +:+ String ":" ("wruntime" +:+ String ":" x)).
  do 2 change (":" +:+ ?x) with (String ":" x).
  rewrite !str_split_app
    by first [reflexivity | apply principal_kind_no_colon | by apply valid_name_no_char].
  by rewrite str_split_no_char by by apply valid_name_no_char.
Qed.

Lemma principal_uri_parse_iff value p :
  principal_uri_parse value = Ok p ↔
  ∃ c k n, valid_name (name_str c) ∧ valid_name (name_str n)
    ∧ p = principal_uri_new c k n ∧ value = pu_value p.
Proof.
  split.
  - unfold principal_uri_parse, require_segment.
    destruct (str_split ":" value) as [|s0 [|s1 [|cl [|kd [|nm [|]]]]]]; simpl;
      try done; try (by destruct (_ || _)).
    destruct (_ || _); [done|].
    destruct (name_parse TClusterId cl) as [c|] eqn:Hc; [|done]. simpl.
    destruct (principal_kind_from_str kd) as [k|] eqn:Hk; [|done]. simpl.
    destruct (name_parse TPrincipalName nm) as [n|] eqn:Hn; [|done]. simpl.
    apply name_parse_ok in Hc as [-> ?]. apply name_parse_ok in Hn as [-> ?].
    case_bool_decide as Heq; [done|]. intros [= <-].
    exists (Name cl), k, (Name nm). do 3 (split; [done|]).
    by rewrite <-Heq.
  - intros (c & k & n & Hc & Hn & -> & ->). unfold principal_uri_parse. simpl pu_value.
    rewrite principal_uri_segments by assumption. cbv [next_segment require_segment rbind].
    rewrite bool_decide_eq_false_2, bool_decide_eq_false_2 by (intros H; by apply H).
    simpl orb. cbv iota. rewrite !name_parse_valid by assumption. simpl lift_name. cbv iota.
    rewrite (proj2 (principal_kind_from_str_ok _ k)) by reflexivity. cbv iota.
    destruct c, n. simpl name_str. by rewrite bool_decide_eq_false_2 by (intros H; by apply H).
Qed.

(** A principal URI is byte exact: the parser accepts exactly the strings
    that [PrincipalUri::new] prints for validated cluster and principal names,
    and returns the identity they were printed from. *)
Theorem principal_uri_parse_exact value p :
  principal_uri_parse value = Ok p ↔
  ∃ c k n, valid_name (name_str c) ∧ valid_name (name_str n)
    ∧ p = principal_uri_new c k n ∧ value = pu_value p.
Proof. apply principal_uri_parse_iff. Qed.

Example principal_uri_example :
  pu_kind <$> ok (principal_uri_parse "urn:wruntime:cluster-a:node-agent:node-a")
  = Some NodeAgent
  ∧ principal_uri_parse "urn:wruntime:cluster-a:proxy:node-a:" = Err PrincipalTrailing.
Proof. vm_compute. split; reflexivity. Qed.
