(* ===== verification/Naming.v ===== *)
(** * Derived storage names (wr-common/src/naming.rs) and module identities

    Identities become PostgreSQL identifiers and S3 prefixes. The definitions
    follow naming.rs; the theorems show that names stay within PostgreSQL's 63
    bytes, that namespaces never share a database, role or prefix, and what the
    digest of a composite login name is computed from. [ModuleId] of
    identity.rs is here because its parser calls [module_schema]. *)

From S2P Require Import Prelude RustStr Externals Models Identity.

Definition POSTGRES_IDENTIFIER_MAX_BYTES : nat := 63.
Definition MIGRATION_EXECUTOR_SUFFIX_BYTES : nat := 8.

(** ** Encoding *)

Definition hex_digit (n : N) : ascii :=
  ascii_of_N (if (n <? 10)%N then 48 + n else 87 + n)%N.

(** [format!("{byte:02x}")]. *)
Definition hex2 (c : ascii) : string :=
  String (hex_digit (N_of_ascii c / 16)) (String (hex_digit (N_of_ascii c `mod` 16)) "").

Fixpoint storage_component (value : string) : string :=
  match value with
  | EmptyString => EmptyString
  | String byte rest =>
      (if is_ascii_alphanumeric byte then String byte ""
       else if char_eqb byte "-" then "_"
       else "_" +:+ hex2 byte) +:+ storage_component rest
  end.

Section naming.
Context `{Sha256Lib}.

(** The bytes [identity_digest] feeds the hasher, in order. *)
Definition identity_preimage (domain : string) (components : list string) : string :=
  framed 8 domain +:+ foldr (λ component acc, framed 8 component +:+ acc) "" components.

Definition identity_digest (domain : string) (components : list string) : string :=
  sha256_hex (identity_preimage domain components).

(** [max_bytes.checked_sub(13).expect(..)] panics below 13: [None]. *)
Definition bounded_postgres_identifier (prefix domain : string) (components : list string)
  (always_hash : bool) (max_bytes : nat) : option string :=
  let encoded := str_join "__" (storage_component <$> components) in
  let readable := prefix +:+ encoded in
  if negb always_hash && bool_decide (String.length readable ≤ max_bytes) then Some readable
  else
    let suffix := "_" +:+ str_take 12 (identity_digest domain components) in
    if bool_decide (String.length suffix ≤ max_bytes)
    then Some (str_take (max_bytes - String.length suffix) readable +:+ suffix)
    else None.

Definition namespace_identifier (prefix domain namespace : string) : option string :=
  bounded_postgres_identifier prefix domain [namespace] false POSTGRES_IDENTIFIER_MAX_BYTES.

Definition module_schema (namespace nm : string) : string :=
  "wr__" +:+ storage_component namespace +:+ "__" +:+ storage_component nm.

Definition namespace_runtime_group (namespace : string) : option string :=
  namespace_identifier "wr_ns_" "namespace-runtime-group" namespace.

Definition namespace_role (namespace : string) : option string :=
  namespace_runtime_group namespace.

Definition namespace_database (namespace : string) : option string :=
  namespace_identifier "wr_db_" "namespace-database" namespace.

Definition namespace_owner (namespace : string) : option string :=
  namespace_identifier "wr_owner_" "namespace-owner" namespace.

Definition namespace_maintenance_role (namespace : string) : option string :=
  namespace_identifier "wr_maint_" "namespace-maintenance" namespace.

Definition namespace_runtime_login (node namespace : string) : option string :=
  bounded_postgres_identifier "wr_runtime_" "namespace-runtime-login" [node; namespace] true
    POSTGRES_IDENTIFIER_MAX_BYTES.

Definition namespace_readiness_verifier (node namespace : string) : option string :=
  bounded_postgres_identifier "wr_ready_" "namespace-readiness-verifier" [node; namespace] true
    POSTGRES_IDENTIFIER_MAX_BYTES.

Definition migration_executor_prefix (namespace : string) : option string :=
  (λ p, p +:+ "_") <$>
    bounded_postgres_identifier "wr_migrate_" "migration-executor" [namespace] true
      (POSTGRES_IDENTIFIER_MAX_BYTES - MIGRATION_EXECUTOR_SUFFIX_BYTES - 1).

Definition blob_key_prefix (namespace : string) : string :=
  "wr/" +:+ storage_component namespace +:+ "/".

(** ** Module identities (identity.rs [ModuleId]) *)

Context `{SemverLib}.

Record ModuleId : Type := mkModuleId { mi_route : RouteKey; mi_version : Version }.

Inductive module_id_error : Type :=
| ModuleIdName (e : name_error)
| ModuleIdTooLong
| ModuleIdVersion.

Definition module_id_parse (namespace module version : string) : result module_id_error ModuleId :=
  match route_key_parse namespace module with
  | Err e => Err (ModuleIdName e)
  | Ok route =>
      if bool_decide (63 < String.length
           (module_schema (name_str (rk_namespace route)) (name_str (rk_module route))))
      then Err ModuleIdTooLong
      else match version_parse version with
           | Some v => Ok (mkModuleId route v)
           | None => Err ModuleIdVersion
           end
  end.
End naming.

(** ** Encoding of canonical names *)

Definition storage_byte (c : ascii) : ascii := if char_eqb c "-" then "_"%char else c.

Lemma storage_component_cons c s :
  name_byte c = true →
  storage_component (String c s) = String (storage_byte c) (storage_component s).
Proof.
  unfold name_byte, storage_byte. simpl.
  destruct (char_eqb c "-") eqn:Hc.
  - apply char_eqb_true in Hc as ->. done.
  - rewrite orb_false_r. intros H. unfold is_ascii_alphanumeric.
    apply orb_true_iff in H as [-> | ->]; [done|]. by rewrite orb_true_r.
Qed.

Lemma storage_byte_inj c d :
  name_byte c = true → name_byte d = true → storage_byte c = storage_byte d → c = d.
Proof.
  unfold storage_byte. intros Hc Hd.
  destruct (char_eqb c "-") eqn:Ec, (char_eqb d "-") eqn:Ed; intros H; subst; try done.
  apply char_eqb_true in Ec, Ed. congruence.
Qed.

Lemma storage_component_length s :
  str_all name_byte s = true → String.length (storage_component s) = String.length s.
Proof.
  induction s as [|c s IH]; [done|]. cbn [str_all]. rewrite andb_true_iff. intros [Hc Hs].
  rewrite storage_component_cons by done. simpl. by rewrite IH.
Qed.

Lemma storage_component_inj s t :
  str_all name_byte s = true → str_all name_byte t = true →
  storage_component s = storage_component t → s = t.
Proof.
  revert t. induction s as [|c s IH]; intros [|d t]; cbn [str_all];
    rewrite ?andb_true_iff; intros Hs Ht Heq; try done.
  - destruct Ht. by rewrite storage_component_cons in Heq.
  - destruct Hs. by rewrite storage_component_cons in Heq.
  - destruct Hs as [Hc Hs], Ht as [Hd Ht].
    rewrite !storage_component_cons in Heq by done. injection Heq as Hb Heq.
    apply storage_byte_inj in Hb as ->; [|done..]. f_equal. by apply IH.
Qed.

Lemma valid_name_bytes s : valid_name s → str_all name_byte s = true.
Proof. by intros (_ & _ & _ & ?). Qed.

Lemma valid_name_length s : valid_name s → String.length s ≤ 24.
Proof. by intros ([_ ?] & _). Qed.

#[export] Hint Resolve valid_name_bytes valid_name_length : wr.

Lemma storage_component_valid_length s :
  valid_name s → String.length (storage_component s) ≤ 24.
Proof. intros Hs. rewrite storage_component_length; auto with wr. Qed.

(** ** Bounds *)

Section naming_facts.
Context `{Sha256Lib}.

Lemma digest_suffix_length domain components :
  String.length ("_" +:+ str_take 12 (identity_digest domain components)) = 13.
Proof.
  rewrite str_length_app, str_length_take. unfold identity_digest.
  rewrite sha256_hex_length. done.
Qed.

(** With room for the 13-byte suffix the function returns, within its budget,
    and keeps the prefix. *)
Lemma bounded_identifier_total prefix domain cs always max :
  13 ≤ max →
  ∃ r, bounded_postgres_identifier prefix domain cs always max = Some r
    ∧ String.length r ≤ max
    ∧ ∀ k, k ≤ String.length prefix → k ≤ max - 13 → str_take k r = str_take k prefix.
Proof.
  intros Hmax. unfold bounded_postgres_identifier.
  set (readable := prefix +:+ str_join "__" (storage_component <$> cs)).
  assert (∀ k, k ≤ String.length prefix → str_take k readable = str_take k prefix) as Hr.
  { intros k Hk. by apply str_take_app. }
  destruct (negb always && _) eqn:Hb.
  - exists readable. bool_to_prop. auto.
  - rewrite digest_suffix_length, bool_decide_eq_true_2 by done.
    eexists. split; [done|]. split.
    + rewrite str_length_app, digest_suffix_length, str_length_take. lia.
    + intros k Hk Hk'. rewrite <-(Hr k) by done.
      assert (String.length prefix ≤ String.length readable)
        by (unfold readable; rewrite str_length_app; lia).
      rewrite str_take_app by (rewrite str_length_take; lia).
      apply str_take_take. lia.
Qed.

Lemma namespace_identifier_valid prefix domain n :
  String.length prefix ≤ 39 → valid_name n →
  namespace_identifier prefix domain n = Some (prefix +:+ storage_component n).
Proof.
  intros Hp Hn. unfold namespace_identifier, bounded_postgres_identifier. simpl.
  pose proof (storage_component_valid_length n Hn).
  rewrite bool_decide_eq_true_2; [done|].
  rewrite str_length_app. unfold POSTGRES_IDENTIFIER_MAX_BYTES. lia.
Qed.

Lemma namespace_identifier_inj prefix domain n1 n2 :
  String.length prefix ≤ 39 → valid_name n1 → valid_name n2 →
  namespace_identifier prefix domain n1 = namespace_identifier prefix domain n2 → n1 = n2.
Proof.
  intros Hp H1 H2. rewrite !namespace_identifier_valid by done. intros [= Heq].
  apply str_app_inj_l in Heq. apply storage_component_inj in Heq; auto with wr.
Qed.

(** ** Theorems *)

(** Namespace isolation: two distinct accepted namespaces never share a
    database, an owner, a runtime group, a maintenance role or an S3 prefix. *)
Theorem namespace_resources_injective n1 n2 :
  valid_name n1 → valid_name n2 →
  namespace_database n1 = namespace_database n2
  ∨ namespace_owner n1 = namespace_owner n2
  ∨ namespace_role n1 = namespace_role n2
  ∨ namespace_maintenance_role n1 = namespace_maintenance_role n2
  ∨ blob_key_prefix n1 = blob_key_prefix n2 →
  n1 = n2.
Proof.
  intros H1 H2 [E|[E|[E|[E|E]]]].
  1-4: eapply namespace_identifier_inj; [..|exact E]; [simpl; lia|done..].
  unfold blob_key_prefix in E. apply str_app_inj_l, str_app_inj_r in E.
  apply storage_component_inj in E; auto with wr.
Qed.

(** The PostgreSQL roles the module derives, by their function. *)
Inductive role_kind : Type :=
| RuntimeGroup | Owner | Maintenance | RuntimeLogin | ReadinessVerifier | MigrationExecutor.

Definition role_name (k : role_kind) (node namespace : string) : option string :=
  match k with
  | RuntimeGroup => namespace_runtime_group namespace
  | Owner => namespace_owner namespace
  | Maintenance => namespace_maintenance_role namespace
  | RuntimeLogin => namespace_runtime_login node namespace
  | ReadinessVerifier => namespace_readiness_verifier node namespace
  | MigrationExecutor => migration_executor_prefix namespace
  end.

Definition role_code (k : role_kind) : string :=
  match k with
  | RuntimeGroup => "wr_ns" | Owner => "wr_ow" | Maintenance => "wr_ma"
  | RuntimeLogin => "wr_ru" | ReadinessVerifier => "wr_re" | MigrationExecutor => "wr_mi"
  end.

Lemma role_name_total k node namespace :
  ∃ r, role_name k node namespace = Some r
    ∧ String.length r ≤ (if k is MigrationExecutor then 55 else 63)
    ∧ str_take 5 r = role_code k.
Proof.
  destruct k; cbn [role_name]; unfold namespace_runtime_group, namespace_owner,
    namespace_maintenance_role, namespace_runtime_login, namespace_readiness_verifier,
    namespace_identifier, migration_executor_prefix.
  all: match goal with |- context [bounded_postgres_identifier ?p ?d ?c ?a ?m] =>
    destruct (bounded_identifier_total p d c a m) as (r & -> & Hl & Ht);
      [cbv; lia|]; specialize (Ht 5 ltac:(cbv; lia) ltac:(cbv; lia)) end.
  all: unfold POSTGRES_IDENTIFIER_MAX_BYTES, MIGRATION_EXECUTOR_SUFFIX_BYTES in Hl.
  1-5: by exists r.
  exists (r +:+ "_"). split; [done|]. split; [rewrite str_length_app; simpl; lia|].
  rewrite str_take_app; [done|].
  apply (f_equal String.length) in Ht. rewrite !str_length_take in Ht.
  change (String.length "wr_migrate_") with 11 in Ht. lia.
Qed.

(** Every derived PostgreSQL role name exists and fits in 63 bytes for any
    node and namespace text, and leaves room for the nonce of a migration
    executor; roles of different functions never collide, so an owner name is
    never a runtime login. *)
Theorem role_names_bounded_and_disjoint k1 k2 node1 node2 ns1 ns2 :
  ∃ r1 r2, role_name k1 node1 ns1 = Some r1 ∧ role_name k2 node2 ns2 = Some r2
    ∧ String.length r1 ≤ POSTGRES_IDENTIFIER_MAX_BYTES
    ∧ (k1 = MigrationExecutor →
       String.length r1 + MIGRATION_EXECUTOR_SUFFIX_BYTES ≤ POSTGRES_IDENTIFIER_MAX_BYTES)
    ∧ (r1 = r2 → k1 = k2).
Proof.
  destruct (role_name_total k1 node1 ns1) as (r1 & -> & Hl & H1).
  destruct (role_name_total k2 node2 ns2) as (r2 & -> & _ & H2).
  exists r1, r2. split; [done|]. split; [done|].
  unfold POSTGRES_IDENTIFIER_MAX_BYTES, MIGRATION_EXECUTOR_SUFFIX_BYTES.
  split; [destruct k1; lia|]. split; [intros ->; lia|].
  intros ->. rewrite H1 in H2. by destruct k1, k2.
Qed.

(** The digest behind a composite name is computed from an unambiguous
    framing: the pre-image determines the domain and every component, so no
    separator can make two (node, namespace) pairs share one. *)
Theorem identity_preimage_injective d1 d2 cs1 cs2 :
  Forall (λ s, Z.of_nat (String.length s) ≤ U64_MAX)%Z (d1 :: cs1) →
  Forall (λ s, Z.of_nat (String.length s) ≤ U64_MAX)%Z (d2 :: cs2) →
  identity_preimage d1 cs1 = identity_preimage d2 cs2 → d1 = d2 ∧ cs1 = cs2.
Proof.
  intros H1 H2 E. enough (d1 :: cs1 = d2 :: cs2) by naive_solver.
  apply (framed_list_inj 8); [lia|..|exact E].
  - eapply Forall_impl; [exact H1|]. cbv beta. change (256 ^ Z.of_nat 8)%Z with (U64_MAX + 1)%Z. lia.
  - eapply Forall_impl; [exact H2|]. cbv beta. change (256 ^ Z.of_nat 8)%Z with (U64_MAX + 1)%Z. lia.
Qed.
End naming_facts.

Lemma identity_preimage_injective_witness : "d" = "d" ∧ ["a-"; "b"] = ["a-"; "b"].
Proof.
  apply (identity_preimage_injective "d" "d"); [..|reflexivity];
    repeat constructor; vm_compute; discriminate.
Defined.

(** ** Module schemas *)

Lemma module_schema_length ns m :
  valid_name ns → valid_name m → String.length (module_schema ns m) ≤ 54.
Proof.
  intros Hns Hm. unfold module_schema. rewrite !str_length_app.
  apply storage_component_valid_length in Hns, Hm. simpl. lia.
Qed.

(** [ModuleId::parse] succeeds exactly on two accepted names and a semantic
    version: the 63-byte guard on the schema name never rejects. *)
Theorem module_id_parse_accepts `{SemverLib} ns m version i :
  module_id_parse ns m version = Ok i ↔
  ∃ v, valid_name ns ∧ valid_name m ∧ version_parse version = Some v
    ∧ i = mkModuleId (mkRouteKey (Name ns) (Name m)) v.
Proof.
  unfold module_id_parse. destruct (route_key_parse ns m) as [k|e] eqn:Hk.
  - apply route_key_parse_ok in Hk as (-> & Hns & Hm). cbn [rk_namespace rk_module name_str].
    pose proof (module_schema_length ns m Hns Hm).
    rewrite bool_decide_eq_false_2 by lia.
    destruct (version_parse version); naive_solver.
  - split; [done|]. intros (v & Hns & Hm & _).
    by rewrite (proj2 (route_key_parse_ok ns m _) (conj eq_refl (conj Hns Hm))) in Hk.
Qed.

Lemma module_schema_inj_in_namespace ns m1 m2 :
  valid_name m1 → valid_name m2 → module_schema ns m1 = module_schema ns m2 → m1 = m2.
Proof.
  intros H1 H2 E. unfold module_schema in E. do 3 apply str_app_inj_l in E.
  apply storage_component_inj in E; auto with wr.
Qed.

(** A module's storage is the schema inside its namespace's database: the
    two names together determine namespace and module. The schema name alone
    does not, as the comment on [module_schema] warns: the separator can occur
    in an encoded name. *)
Theorem module_storage_determines_module `{Sha256Lib} ns1 m1 ns2 m2 :
  valid_name ns1 → valid_name m1 → valid_name ns2 → valid_name m2 →
  (namespace_database ns1 = namespace_database ns2 →
   module_schema ns1 m1 = module_schema ns2 m2 → ns1 = ns2 ∧ m1 = m2)
  ∧ module_schema "a--b" "c" = module_schema "a" "b--c".
Proof.
  intros Hn1 Hm1 Hn2 Hm2. split; [|reflexivity]. intros Hdb Hs.
  assert (ns1 = ns2) as ->.
  { eapply namespace_identifier_inj; [..|exact Hdb]; [simpl; lia|done..]. }
  split; [done|]. by apply (module_schema_inj_in_namespace ns2).
Qed.

(** ** Concrete instances of the theorems *)

Lemma namespace_resources_injective_witness :
  valid_name "shop" ∧ "shop" = "shop".
Proof.
  assert (valid_name "shop") as Hv by (vm_compute; split_and!; try reflexivity; lia).
  split; [exact Hv|].
  exact (@namespace_resources_injective toy_sha256 "shop" "shop" Hv Hv (or_introl eq_refl)).
Defined.

Lemma module_storage_determines_module_witness :
  (@namespace_database toy_sha256 "a" = @namespace_database toy_sha256 "a" →
   module_schema "a" "b--c" = module_schema "a" "b--c" → "a" = "a" ∧ "b--c" = "b--c")
  ∧ module_schema "a--b" "c" = module_schema "a" "b--c".
Proof.
  apply (@module_storage_determines_module toy_sha256 "a" "b--c" "a" "b--c");
    vm_compute; split_and!; try reflexivity; lia.
Defined.
