(* ===== verification/CircuitBreaker.v ===== *)
(** * Circuit breakers (wr-proxy/src/circuit_breaker.rs)

    An [EngineBreaker] is an [Arc]: routing snapshots, candidates and the
    registry hold handles to one shared cell. The model keeps the cells in a
    heap indexed by handles, so aliasing is visible: a breaker that outlives
    its registry entry keeps its own state. Opening a breaker adds the configured
    duration to the clock, which panics past the range of [Instant]: the
    operations return [None] then. *)

From S2P Require Import Prelude RustStr Externals Models.

Definition CLOSED : Z := 0.
Definition OPEN : Z := 1.
Definition HALF_OPEN : Z := 2.

Inductive BreakerTargetClass : Type := LocalEngineClass | RemoteProxyClass.

#[global] Instance BreakerTargetClass_eq_dec : EqDecision BreakerTargetClass.
Proof. solve_decision. Defined.

Inductive BreakerState : Type := Closed | Open | HalfOpen.

#[global] Instance BreakerState_eq_dec : EqDecision BreakerState.
Proof. solve_decision. Defined.

(** [CircuitBreakerConfig]. *)
Record CircuitBreakerConfig : Type := mkCircuitBreakerConfig {
  failure_threshold : Z;
  open_duration_secs : Z;
}.

(** [Arc<EngineBreakerInner>]: a handle. *)
Abbreviation EngineBreaker := nat (only parsing).

Section breaker.
Context `{FailsafeLib}.

(** ** Telemetry *)

Record BreakerTelemetry : Type := mkBreakerTelemetry {
  bt_state : Z;
  bt_open_until : option Z;
  bt_open_duration : Z;
}.

Definition telemetry_new (open_duration : Z) : BreakerTelemetry :=
  mkBreakerTelemetry CLOSED None open_duration.

Definition telemetry_snapshot (now : Z) (t : BreakerTelemetry) : BreakerState :=
  if (bt_state t =? OPEN)%Z then
    match bt_open_until t with
    | Some deadline => if (deadline <=? now)%Z then HalfOpen else Open
    | None => Open
    end
  else if (bt_state t =? HALF_OPEN)%Z then HalfOpen
  else Closed.

(** [impl Instrument for BreakerTelemetry]. *)
Definition telemetry_on (now : Z) (t : BreakerTelemetry) (e : instrument_event) :
  option BreakerTelemetry :=
  match e with
  | on_call_rejected => Some t
  | on_open => deadline ← instant_add now (bt_open_duration t);
               Some (mkBreakerTelemetry OPEN (Some deadline) (bt_open_duration t))
  | on_half_open => Some (mkBreakerTelemetry HALF_OPEN (bt_open_until t) (bt_open_duration t))
  | on_closed => Some (mkBreakerTelemetry CLOSED None (bt_open_duration t))
  end.

Fixpoint telemetry_run (now : Z) (t : BreakerTelemetry) (events : list instrument_event) :
  option BreakerTelemetry :=
  match events with
  | [] => Some t
  | e :: events => t ← telemetry_on now t e; telemetry_run now t events
  end.

(** ** Shared breaker cells *)

Record EngineBreakerInner : Type := mkEngineBreakerInner {
  eb_machine : Machine;
  eb_telemetry : BreakerTelemetry;
}.

Definition build_engine_breaker (threshold open_duration : Z) : EngineBreakerInner :=
  mkEngineBreakerInner (machine_new threshold open_duration) (telemetry_new open_duration).

(** A machine operation runs its callbacks on the cell's telemetry. *)
Definition run_callbacks (now : Z) (b : EngineBreakerInner) (m : Machine)
  (events : list instrument_event) : option EngineBreakerInner :=
  mkEngineBreakerInner m <$> telemetry_run now (eb_telemetry b) events.

Definition inner_is_call_permitted (now : Z) (b : EngineBreakerInner) :
  option (bool * EngineBreakerInner) :=
  let '(permitted, m, events) := machine_is_call_permitted now (eb_machine b) in
  b ← run_callbacks now b m events; Some (permitted, b).

Definition inner_on_success (now : Z) (b : EngineBreakerInner) : option EngineBreakerInner :=
  let '(m, events) := machine_on_success now (eb_machine b) in run_callbacks now b m events.

Definition inner_on_error (now : Z) (b : EngineBreakerInner) : option EngineBreakerInner :=
  let '(m, events) := machine_on_error now (eb_machine b) in run_callbacks now b m events.

Definition inner_state (now : Z) (b : EngineBreakerInner) : BreakerState :=
  telemetry_snapshot now (eb_telemetry b).

(** ** Registry *)

Record RegistryEntry : Type := mkRegistryEntry {
  re_class : BreakerTargetClass;
  re_breaker : EngineBreaker;
}.

Record CircuitBreakerRegistry : Type := mkRegistry {
  reg_map : gmap string RegistryEntry;
  reg_config : CircuitBreakerConfig;
  reg_resolver_calls : Z;
  reg_heap : gmap EngineBreaker EngineBreakerInner;
  reg_next : EngineBreaker;
}.

Definition registry_new (config : CircuitBreakerConfig) : CircuitBreakerRegistry :=
  mkRegistry ∅ config 0 ∅ 0.

Definition set_heap (r : CircuitBreakerRegistry) (h : gmap EngineBreaker EngineBreakerInner) :
  CircuitBreakerRegistry :=
  mkRegistry (reg_map r) (reg_config r) (reg_resolver_calls r) h (reg_next r).

Definition build_breaker (r : CircuitBreakerRegistry) : EngineBreakerInner :=
  build_engine_breaker (failure_threshold (reg_config r))
    (from_secs (open_duration_secs (reg_config r))).

Definition resolve (r : CircuitBreakerRegistry) (addr : string) (class : BreakerTargetClass) :
  result BreakerTargetClass EngineBreaker * CircuitBreakerRegistry :=
  let calls := usize_wrapping_add (reg_resolver_calls r) 1 in
  match reg_map r !! addr with
  | Some entry =>
      (if decide (re_class entry = class) then Ok (re_breaker entry) else Err (re_class entry),
       mkRegistry (reg_map r) (reg_config r) calls (reg_heap r) (reg_next r))
  | None =>
      let breaker := reg_next r in
      (Ok breaker,
       mkRegistry (<[addr := mkRegistryEntry class breaker]> (reg_map r)) (reg_config r) calls
         (<[breaker := build_breaker r]> (reg_heap r)) (S breaker))
  end.

Definition evict_missing (active : gset string) (r : CircuitBreakerRegistry) : CircuitBreakerRegistry :=
  mkRegistry (filter (λ kv, kv.1 ∈ active) (reg_map r)) (reg_config r) (reg_resolver_calls r)
    (reg_heap r) (reg_next r).

(** [EngineBreaker] methods through a handle. A handle is only obtained from
    [resolve], so it is always allocated; an unallocated one changes nothing. *)
Definition is_call_permitted (now : Z) (b : EngineBreaker) (r : CircuitBreakerRegistry) :
  option (bool * CircuitBreakerRegistry) :=
  match reg_heap r !! b with
  | Some cell => '(p, cell') ← inner_is_call_permitted now cell;
                 Some (p, set_heap r (<[b := cell']> (reg_heap r)))
  | None => Some (false, r)
  end.

Definition update_cell (f : EngineBreakerInner → option EngineBreakerInner) (b : EngineBreaker)
  (r : CircuitBreakerRegistry) : option CircuitBreakerRegistry :=
  match reg_heap r !! b with
  | Some cell => cell' ← f cell; Some (set_heap r (<[b := cell']> (reg_heap r)))
  | None => Some r
  end.

Definition on_success (now : Z) : EngineBreaker → CircuitBreakerRegistry →
  option CircuitBreakerRegistry := update_cell (inner_on_success now).

Definition on_error (now : Z) : EngineBreaker → CircuitBreakerRegistry →
  option CircuitBreakerRegistry := update_cell (inner_on_error now).

(** ** Aggregate telemetry *)

Record BreakerCounts : Type := mkBreakerCounts {
  bc_total : Z; bc_closed : Z; bc_open : Z; bc_half_open : Z;
}.

Record CircuitBreakerSummary : Type := mkSummary {
  cs_local_engine : BreakerCounts; cs_remote_proxy : BreakerCounts;
}.

Definition counts_default : BreakerCounts := mkBreakerCounts 0 0 0 0.
Definition summary_default : CircuitBreakerSummary := mkSummary counts_default counts_default.

Definition count_state (s : BreakerState) (c : BreakerCounts) : BreakerCounts :=
  let total := u32_saturating_add (bc_total c) 1 in
  match s with
  | Closed => mkBreakerCounts total (u32_saturating_add (bc_closed c) 1) (bc_open c) (bc_half_open c)
  | Open => mkBreakerCounts total (bc_closed c) (u32_saturating_add (bc_open c) 1) (bc_half_open c)
  | HalfOpen => mkBreakerCounts total (bc_closed c) (bc_open c) (u32_saturating_add (bc_half_open c) 1)
  end.

(** [now addr] is the instant at which the loop reads the entry of [addr]. *)
Definition count_entry (now : string → Z) (heap : gmap EngineBreaker EngineBreakerInner)
  (addr : string) (entry : RegistryEntry) (s : CircuitBreakerSummary) : CircuitBreakerSummary :=
  let state := match heap !! re_breaker entry with
               | Some cell => inner_state (now addr) cell
               | None => Closed
               end in
  match re_class entry with
  | LocalEngineClass => mkSummary (count_state state (cs_local_engine s)) (cs_remote_proxy s)
  | RemoteProxyClass => mkSummary (cs_local_engine s) (count_state state (cs_remote_proxy s))
  end.

Definition registry_snapshot (now : string → Z) (r : CircuitBreakerRegistry) : CircuitBreakerSummary :=
  map_fold (count_entry now (reg_heap r)) summary_default (reg_map r).
End breaker.

(** ** Invariant: handles and telemetry *)

Section facts.
Context `{FailsafeLib}.

(** The telemetry mirrors the machine it instruments. *)
Definition mirrored (b : EngineBreakerInner) : Prop :=
  match machine_state_of (eb_machine b) with
  | MClosed => bt_state (eb_telemetry b) = CLOSED ∧ bt_open_until (eb_telemetry b) = None
  | MOpen => bt_state (eb_telemetry b) = OPEN ∧ is_Some (bt_open_until (eb_telemetry b))
  | MHalfOpen => bt_state (eb_telemetry b) = HALF_OPEN
  end.

(** Registered handles are allocated and unshared; handles below [reg_next]
    are exactly the allocated ones; every cell is mirrored and opens for the
    configured time. *)
Record registry_wf (r : CircuitBreakerRegistry) : Prop := {
  wf_allocated b : is_Some (reg_heap r !! b) ↔ b < reg_next r;
  wf_registered a e : reg_map r !! a = Some e → re_breaker e < reg_next r;
  wf_unshared a1 a2 e1 e2 :
    reg_map r !! a1 = Some e1 → reg_map r !! a2 = Some e2 →
    re_breaker e1 = re_breaker e2 → a1 = a2;
  wf_mirrored b cell : reg_heap r !! b = Some cell → mirrored cell;
  wf_duration b cell : reg_heap r !! b = Some cell →
    bt_open_duration (eb_telemetry cell) = from_secs (open_duration_secs (reg_config r));
}.

Definition telemetry_matches (t : BreakerTelemetry) (s : machine_state) : Prop :=
  match s with
  | MClosed => bt_state t = CLOSED ∧ bt_open_until t = None
  | MOpen => bt_state t = OPEN ∧ is_Some (bt_open_until t)
  | MHalfOpen => bt_state t = HALF_OPEN
  end.

Lemma telemetry_follows now events t s t' :
  telemetry_run now t events = Some t' → telemetry_matches t s →
  telemetry_matches t' (foldl announce s events) ∧ bt_open_duration t' = bt_open_duration t.
Proof.
  revert t s. induction events as [|e events IH]; intros t s; simpl; [by intros [= <-]|].
  destruct (telemetry_on now t e) as [t1|] eqn:He; [|done]. simpl. intros Hrun Hts.
  assert (telemetry_matches t1 (announce s e) ∧ bt_open_duration t1 = bt_open_duration t) as [Ht1 <-].
  { destruct e; simpl in He; [|destruct (instant_add _ _); [|done]|..]; injection He as <-; simpl;
      (split; [|done]); [done|split; [done|by eexists]|done|done]. }
  by apply IH.
Qed.

(** The callbacks panic only when one opens the breaker past the range of [Instant]. *)
Lemma telemetry_run_total now events t :
  on_open ∉ events ∨ is_Some (instant_add now (bt_open_duration t)) →
  is_Some (telemetry_run now t events).
Proof.
  revert t. induction events as [|e events IH]; intros t Ht; simpl; [by eexists|].
  assert (∃ t', telemetry_on now t e = Some t' ∧ bt_open_duration t' = bt_open_duration t)
    as (t' & -> & Hd).
  { destruct e; simpl; [by eexists| |by eexists|by eexists].
    destruct Ht as [[]%not_elem_of_cons|[u ->]]; [done|]. by eexists. }
  simpl. apply IH. rewrite Hd. destruct Ht as [[_ ?]%not_elem_of_cons|]; auto.
Qed.

Lemma run_callbacks_follows now b m events b' :
  run_callbacks now b m events = Some b' →
  foldl announce (machine_state_of (eb_machine b)) events = machine_state_of m → mirrored b →
  mirrored b' ∧ bt_open_duration (eb_telemetry b') = bt_open_duration (eb_telemetry b).
Proof.
  intros (t & Ht & ->)%fmap_Some Hev Hb. unfold mirrored. simpl. rewrite <-Hev.
  by apply (telemetry_follows _ _ _ _ _ Ht).
Qed.

Lemma run_callbacks_total now b m events :
  on_open ∉ events ∨ is_Some (instant_add now (bt_open_duration (eb_telemetry b))) →
  is_Some (run_callbacks now b m events).
Proof. intros [t Ht]%(telemetry_run_total now events). unfold run_callbacks. rewrite Ht. by eexists. Qed.

Lemma build_engine_breaker_mirrored t d : mirrored (build_engine_breaker t d).
Proof. unfold mirrored. simpl. by rewrite machine_new_closed. Qed.

Lemma inner_is_call_permitted_spec now b :
  ∃ p b', inner_is_call_permitted now b = Some (p, b')
    ∧ p = (machine_is_call_permitted now (eb_machine b)).1.1
    ∧ (mirrored b → mirrored b'
       ∧ bt_open_duration (eb_telemetry b') = bt_open_duration (eb_telemetry b)).
Proof.
  unfold inner_is_call_permitted.
  pose proof (machine_permitted_announced now (eb_machine b)) as Hev.
  pose proof (machine_permitted_never_opens now (eb_machine b)) as Hno.
  destruct (machine_is_call_permitted now (eb_machine b)) as [[p m] events]. simpl in *.
  destruct (run_callbacks_total now b m events (or_introl Hno)) as [b' Hb']. rewrite Hb'.
  exists p, b'. split_and!; [done..|]. by apply (run_callbacks_follows _ _ _ _ _ Hb').
Qed.

Lemma inner_on_success_spec now b :
  ∃ b', inner_on_success now b = Some b'
    ∧ (mirrored b → mirrored b'
       ∧ bt_open_duration (eb_telemetry b') = bt_open_duration (eb_telemetry b)).
Proof.
  unfold inner_on_success.
  pose proof (machine_success_announced now (eb_machine b)) as Hev.
  pose proof (machine_success_never_opens now (eb_machine b)) as Hno.
  destruct (machine_on_success now (eb_machine b)) as [m events]. simpl in *.
  destruct (run_callbacks_total now b m events (or_introl Hno)) as [b' Hb']. rewrite Hb'.
  exists b'. split; [done|]. by apply (run_callbacks_follows _ _ _ _ _ Hb').
Qed.

Lemma inner_on_error_follows now b b' :
  inner_on_error now b = Some b' → mirrored b →
  mirrored b' ∧ bt_open_duration (eb_telemetry b') = bt_open_duration (eb_telemetry b).
Proof.
  unfold inner_on_error. pose proof (machine_error_announced now (eb_machine b)) as Hev.
  destruct (machine_on_error now (eb_machine b)) as [m events]. intros Hb'.
  by apply (run_callbacks_follows _ _ _ _ _ Hb').
Qed.

Lemma inner_on_error_total now b :
  is_Some (instant_add now (bt_open_duration (eb_telemetry b))) → is_Some (inner_on_error now b).
Proof.
  intros Hadd. unfold inner_on_error. destruct (machine_on_error now (eb_machine b)) as [m events].
  apply run_callbacks_total. by right.
Qed.

Lemma registry_new_wf config : registry_wf (registry_new config).
Proof.
  split; simpl.
  - intros b. rewrite lookup_empty. split; [by intros []|lia].
  - intros a e. by rewrite lookup_empty.
  - intros a1 a2 e1 e2. by rewrite lookup_empty.
  - intros b cell. by rewrite lookup_empty.
  - intros b cell. by rewrite lookup_empty.
Qed.

(** Updating one allocated cell keeps the invariant. *)
Lemma set_cell_wf r b cell cell' :
  registry_wf r → reg_heap r !! b = Some cell →
  (mirrored cell → mirrored cell'
   ∧ bt_open_duration (eb_telemetry cell') = bt_open_duration (eb_telemetry cell)) →
  registry_wf (set_heap r (<[b := cell']> (reg_heap r))).
Proof.
  intros [Ha Hr Hu Hm Hd] Hb Hc. destruct (Hc (Hm _ _ Hb)) as [Hc1 Hc2].
  pose proof (Hd _ _ Hb). split; simpl; [|done|done|..].
  - intros b'. rewrite <-Ha. destruct (decide (b = b')) as [->|]; simplify_map_eq; naive_solver.
  - intros b' c. destruct (decide (b = b')) as [->|]; simplify_map_eq; naive_solver.
  - intros b' c. destruct (decide (b = b')) as [->|]; simplify_map_eq; [congruence|apply Hd].
Qed.

Lemma is_call_permitted_total now b r :
  ∃ p r', is_call_permitted now b r = Some (p, r') ∧ reg_map r' = reg_map r
    ∧ reg_config r' = reg_config r ∧ (registry_wf r → registry_wf r').
Proof.
  unfold is_call_permitted. destruct (reg_heap r !! b) as [cell|] eqn:Hb; [|by exists false, r].
  destruct (inner_is_call_permitted_spec now cell) as (p & cell' & -> & _ & Hc). simpl.
  eexists _, _. split_and!; [done..|]. intros Hr. by apply (set_cell_wf r b cell).
Qed.

Lemma on_success_total now b r :
  ∃ r', on_success now b r = Some r' ∧ reg_map r' = reg_map r
    ∧ reg_config r' = reg_config r ∧ (registry_wf r → registry_wf r').
Proof.
  unfold on_success, update_cell. destruct (reg_heap r !! b) as [cell|] eqn:Hb; [|by exists r].
  destruct (inner_on_success_spec now cell) as (cell' & -> & Hc). simpl.
  eexists. split_and!; [done..|]. intros Hr. by apply (set_cell_wf r b cell).
Qed.

Lemma on_error_follows now b r r' :
  on_error now b r = Some r' → reg_map r' = reg_map r
    ∧ reg_config r' = reg_config r ∧ (registry_wf r → registry_wf r').
Proof.
  unfold on_error, update_cell. destruct (reg_heap r !! b) as [cell|] eqn:Hb; [|by intros [= <-]].
  destruct (inner_on_error now cell) as [cell'|] eqn:He; [|done]. intros [= <-]. split_and!; [done..|].
  intros Hr. apply (set_cell_wf r b cell); [done..|]. by apply (inner_on_error_follows now).
Qed.

(** Recording a failure returns as long as the clock plus the configured open
    duration is an [Instant]. *)
Lemma on_error_total now b r :
  registry_wf r → is_Some (instant_add now (from_secs (open_duration_secs (reg_config r)))) →
  is_Some (on_error now b r).
Proof.
  intros Hr Hadd. unfold on_error, update_cell.
  destruct (reg_heap r !! b) as [cell|] eqn:Hb; [|by eexists].
  rewrite <-(wf_duration _ Hr _ _ Hb) in Hadd.
  destruct (inner_on_error_total now cell Hadd) as [cell' ->]. by eexists.
Qed.

Lemma evict_missing_wf active r : registry_wf r → registry_wf (evict_missing active r).
Proof.
  intros [Ha Hr Hu Hm Hd]. split; simpl; [done| | |done|done].
  - intros a e. rewrite map_lookup_filter_Some. naive_solver.
  - intros a1 a2 e1 e2. rewrite !map_lookup_filter_Some. naive_solver.
Qed.

Lemma resolve_wf r addr class : registry_wf r → registry_wf (resolve r addr class).2.
Proof.
  intros [Ha Hr Hu Hm Hd]. unfold resolve.
  destruct (reg_map r !! addr) as [e|] eqn:Hl; [by split|]. split; simpl.
  - intros b. destruct (decide (b = reg_next r)) as [->|]; simplify_map_eq;
      [split; [lia|by eexists]|]. rewrite Ha. lia.
  - intros a e He. destruct (decide (a = addr)) as [->|]; simplify_map_eq; [lia|].
    apply Hr in He. lia.
  - intros a1 a2 e1 e2 He1 He2 Heq.
    destruct (decide (a1 = addr)) as [->|], (decide (a2 = addr)) as [->|]; simplify_map_eq.
    + done.
    + apply Hr in He2. lia.
    + apply Hr in He1. lia.
    + by eapply Hu.
  - intros b cell Hc. destruct (decide (b = reg_next r)) as [->|]; simplify_map_eq; [|by eapply Hm].
    apply build_engine_breaker_mirrored.
  - intros b cell Hc. destruct (decide (b = reg_next r)) as [->|]; simplify_map_eq; [done|by eapply Hd].
Qed.

(** What runs against a registry: routing refreshes resolve and evict, requests
    ask for permission and report outcomes, in any order and interleaving (every
    operation holds the registry's or the breaker's mutex). *)
Inductive registry_step : CircuitBreakerRegistry → CircuitBreakerRegistry → Prop :=
| step_resolve r addr class : registry_step r (resolve r addr class).2
| step_permitted r now b p r' : is_call_permitted now b r = Some (p, r') → registry_step r r'
| step_success r now b r' : on_success now b r = Some r' → registry_step r r'
| step_error r now b r' : on_error now b r = Some r' → registry_step r r'
| step_evict r active : registry_step r (evict_missing active r).

Lemma registry_step_wf r r' : registry_step r r' → registry_wf r → registry_wf r'.
Proof.
  destruct 1 as [r addr class|r now b p r' H1|r now b r' H1|r now b r' H1|r active].
  - apply resolve_wf.
  - destruct (is_call_permitted_total now b r) as (? & ? & H2 & _ & _ & Hwf). by simplify_eq.
  - destruct (on_success_total now b r) as (? & H2 & _ & _ & Hwf). by simplify_eq.
  - by apply (on_error_follows now b).
  - apply evict_missing_wf.
Qed.

Lemma registry_reachable_wf config r :
  rtc registry_step (registry_new config) r → registry_wf r.
Proof.
  intros Hr. pose proof (registry_new_wf config) as Hwf.
  induction Hr; eauto using registry_step_wf.
Qed.

(** In every reachable registry the read-only telemetry of a breaker agrees
    with the state machine it instruments: it reports Closed exactly when the
    machine is closed, HalfOpen when it is half open, and for an open machine
    Open until its deadline and HalfOpen from then on. *)
Theorem breaker_telemetry_mirrors config r b cell now :
  rtc registry_step (registry_new config) r →
  reg_heap r !! b = Some cell →
  match machine_state_of (eb_machine cell) with
  | MClosed => inner_state now cell = Closed
  | MHalfOpen => inner_state now cell = HalfOpen
  | MOpen => ∃ deadline, bt_open_until (eb_telemetry cell) = Some deadline
      ∧ inner_state now cell = if (deadline <=? now)%Z then HalfOpen else Open
  end.
Proof.
  intros Hr Hb. pose proof (wf_mirrored _ (registry_reachable_wf _ _ Hr) _ _ Hb) as Hm.
  unfold mirrored in Hm. unfold inner_state, telemetry_snapshot.
  destruct (machine_state_of _).
  - by destruct Hm as [-> _].
  - destruct Hm as [-> [d Hd]]. exists d. by rewrite Hd.
  - by rewrite Hm.
Qed.

(** Breaker identity across refreshes. Resolving a registered address with
    its class returns the shared breaker and changes no breaker; with the other
    class it fails with the registered one; an unregistered address gets a new
    closed breaker that permits calls, no other cell being touched. *)
Theorem resolve_shares_or_creates r addr class :
  registry_wf r →
  match reg_map r !! addr with
  | Some e => (resolve r addr class).1
              = (if decide (re_class e = class) then Ok (re_breaker e) else Err (re_class e))
              ∧ reg_heap (resolve r addr class).2 = reg_heap r
              ∧ reg_map (resolve r addr class).2 = reg_map r
  | None => ∃ b, (resolve r addr class).1 = Ok b
      ∧ reg_heap r !! b = None
      ∧ (∀ a e, reg_map r !! a = Some e → re_breaker e ≠ b)
      ∧ reg_map (resolve r addr class).2 !! addr = Some (mkRegistryEntry class b)
      ∧ (∀ now, fst <$> is_call_permitted now b (resolve r addr class).2 = Some true)
      ∧ ∀ b', b' ≠ b → reg_heap (resolve r addr class).2 !! b' = reg_heap r !! b'
  end.
Proof.
  intros Hr. unfold resolve. destruct (reg_map r !! addr) as [e|] eqn:Ha; [done|].
  assert (reg_heap r !! reg_next r = None) as Hfresh.
  { apply eq_None_not_Some. rewrite (wf_allocated _ Hr). lia. }
  exists (reg_next r). simpl. split_and!; [done|done| |by simplify_map_eq| |].
  - intros a e He. apply (wf_registered _ Hr) in He. lia.
  - intros now. unfold is_call_permitted. simpl. rewrite lookup_insert_eq. simpl.
    destruct (inner_is_call_permitted_spec now (build_breaker r)) as (p & cell & -> & -> & _).
    simpl. f_equal. apply machine_closed_permits, machine_new_closed.
  - intros b' Hb'. by rewrite lookup_insert_ne.
Qed.

(** Eviction is a reset boundary: once an address left the published table,
    resolving it again gives a different breaker, while the evicted breaker,
    still held by older snapshots, keeps its state. *)
Theorem eviction_resets_breaker r addr e active class :
  registry_wf r → reg_map r !! addr = Some e → addr ∉ active →
  ∃ b, (resolve (evict_missing active r) addr class).1 = Ok b
    ∧ b ≠ re_breaker e
    ∧ reg_heap (resolve (evict_missing active r) addr class).2 !! b
      = Some (build_breaker r)
    ∧ reg_heap (resolve (evict_missing active r) addr class).2 !! re_breaker e
      = reg_heap r !! re_breaker e.
Proof.
  intros Hr Ha Hact. pose proof (wf_registered _ Hr _ _ Ha) as Hlt.
  assert (reg_map (evict_missing active r) !! addr = None) as Hnone.
  { simpl. apply map_lookup_filter_None. right. by intros ? _. }
  unfold resolve. rewrite Hnone. simpl. exists (reg_next r).
  split_and!; [done|lia|by simplify_map_eq|]. apply lookup_insert_ne. lia.
Qed.

(** ** The telemetry summary *)

Definition of_class (class : BreakerTargetClass) (m : gmap string RegistryEntry) :
  gmap string RegistryEntry := filter (λ kv, re_class kv.2 = class) m.

Definition counts_of (class : BreakerTargetClass) (s : CircuitBreakerSummary) : BreakerCounts :=
  match class with LocalEngineClass => cs_local_engine s | RemoteProxyClass => cs_remote_proxy s end.

(** Counts that classify [n] breakers. *)
Definition counts_for (n : nat) (c : BreakerCounts) : Prop :=
  bc_total c = Z.of_nat n ∧ (bc_closed c + bc_open c + bc_half_open c = Z.of_nat n)%Z
  ∧ (0 ≤ bc_closed c)%Z ∧ (0 ≤ bc_open c)%Z ∧ (0 ≤ bc_half_open c)%Z.

Lemma count_state_for n s c :
  (Z.of_nat (S n) ≤ U32_MAX)%Z → counts_for n c → counts_for (S n) (count_state s c).
Proof.
  unfold counts_for, count_state, u32_saturating_add. intros Hn (? & ? & ? & ? & ?).
  destruct s; simpl; split_and!; lia.
Qed.

Lemma of_class_size_le class m : size (of_class class m) ≤ size m.
Proof. unfold of_class. apply map_size_filter. Qed.

Lemma of_class_insert class m i x :
  m !! i = None →
  size (of_class class (<[i:=x]> m))
  = if decide (re_class x = class) then S (size (of_class class m)) else size (of_class class m).
Proof.
  intros Hi. unfold of_class. rewrite map_filter_insert. simpl. destruct (decide (re_class x = class)).
  - apply map_size_insert_None, map_lookup_filter_None. by left.
  - by rewrite delete_id by done.
Qed.

(** The telemetry summary classifies every registered breaker exactly once,
    under the class it was registered with: as long as the registry holds fewer
    than 2^32 addresses no counter saturates, the total of a class is the number
    of its addresses, and its closed, open and half-open counts add up to it. *)
Theorem snapshot_counts_partition r now class :
  (Z.of_nat (size (reg_map r)) ≤ U32_MAX)%Z →
  counts_for (size (of_class class (reg_map r))) (counts_of class (registry_snapshot now r)).
Proof.
  unfold registry_snapshot.
  apply (map_fold_weak_ind (λ s m, (Z.of_nat (size m) ≤ U32_MAX)%Z →
    counts_for (size (of_class class m)) (counts_of class s))).
  - intros _. unfold of_class. rewrite map_filter_empty, map_size_empty.
    by destruct class.
  - intros i x m s Hi IH Hsz. rewrite map_size_insert_None in Hsz by done.
    rewrite of_class_insert by done. specialize (IH ltac:(lia)).
    pose proof (of_class_size_le class m). unfold count_entry.
    destruct (re_class x), class; simpl in *; try (by apply IH);
      apply count_state_for; auto; lia.
Qed.
End facts.

(** ** Concrete instances of the theorems *)

Definition demo_config : CircuitBreakerConfig := mkCircuitBreakerConfig 1 30.

Definition demo_registry : CircuitBreakerRegistry (H := toy_failsafe) :=
  (resolve (registry_new demo_config) "engine:9000" LocalEngineClass).2.

Lemma demo_registry_reachable : rtc registry_step (registry_new demo_config) demo_registry.
Proof. apply rtc_once, step_resolve. Qed.

(** One failure opens a breaker of threshold 1 for 30 seconds. *)
Definition opened_registry : CircuitBreakerRegistry (H := toy_failsafe) :=
  default demo_registry (on_error 5 0 demo_registry).

Definition opened_cell : EngineBreakerInner (H := toy_failsafe) :=
  default (build_breaker demo_registry) (reg_heap opened_registry !! 0).

Lemma breaker_telemetry_mirrors_witness :
  ∃ deadline, bt_open_until (eb_telemetry opened_cell) = Some deadline
    ∧ inner_state 30000000005 opened_cell
      = if (deadline <=? 30000000005)%Z then HalfOpen else Open.
Proof.
  exact (breaker_telemetry_mirrors demo_config opened_registry 0 opened_cell 30000000005
    (rtc_r _ _ _ demo_registry_reachable
       (step_error demo_registry 5 0 opened_registry ltac:(vm_compute; reflexivity)))
    ltac:(vm_compute; reflexivity)).
Defined.

(** The configuration check accepts every positive number of seconds. With an
    open duration past the range of [Instant] the first failure panics. *)
Definition huge_registry : CircuitBreakerRegistry (H := toy_failsafe) :=
  (resolve (registry_new (mkCircuitBreakerConfig 1 U64_MAX)) "engine:9000" LocalEngineClass).2.

Example huge_open_duration_panics : on_error 5 0 huge_registry = None.
Proof. vm_compute. reflexivity. Qed.

Lemma resolve_shares_or_creates_witness :
  (resolve demo_registry "engine:9000" RemoteProxyClass).1 = Err LocalEngineClass.
Proof.
  apply (resolve_shares_or_creates demo_registry "engine:9000" RemoteProxyClass
    (registry_reachable_wf _ _ demo_registry_reachable)).
Defined.

Lemma eviction_resets_breaker_witness :
  ∃ b, (resolve (evict_missing ∅ demo_registry) "engine:9000" RemoteProxyClass).1 = Ok b ∧ b ≠ 0.
Proof.
  destruct (eviction_resets_breaker demo_registry "engine:9000"
    (mkRegistryEntry LocalEngineClass 0) ∅ RemoteProxyClass
    (registry_reachable_wf _ _ demo_registry_reachable) eq_refl (not_elem_of_empty _))
    as (b & Hb & Hne & _).
  exists b. split; [exact Hb|exact Hne].
Defined.

Lemma snapshot_counts_partition_witness :
  counts_for 1 (counts_of LocalEngineClass (registry_snapshot (λ _, 0%Z) demo_registry)).
Proof.
  apply (snapshot_counts_partition demo_registry (λ _, 0%Z) LocalEngineClass).
  vm_compute. discriminate.
Defined.
