(* ===== verification/Http.v ===== *)
(** * Headers, requests and endpoint addresses

    The reserved [x-wr-*] headers and their three trust boundaries
    (wr-common/src/http_headers.rs), redaction of telemetry URIs
    (wr-common/src/uri.rs), endpoint validation (identity.rs) and the requests
    and responses the proxy layers pass on. *)

From S2P Require Import Prelude RustStr Externals Models.

Definition WR_DESTINATION : string := "x-wr-destination".
Definition WR_SOURCE : string := "x-wr-source".
Definition WR_SOURCE_NS : string := "x-wr-source-ns".
Definition WR_MODULE : string := "x-wr-module".
Definition WR_NAMESPACE : string := "x-wr-namespace".
Definition WR_VERSION : string := "x-wr-version".
Definition WR_VIA_PROXY : string := "x-wr-via-proxy".

Definition uri_for_telemetry (value : string) : string :=
  match split_once "?" value with Some (base, _) => base | None => value end.

Section http.
Context `{HttpLib}.

(** [HeaderMap::get]: the first value. *)
Definition hm_get (headers : HeaderMap) (name : string) : option HeaderValue :=
  head (hm_get_all headers name).

(** [headers.get(name).and_then(|v| v.to_str().ok())]. *)
Definition header_text (headers : HeaderMap) (name : string) : option string :=
  hm_get headers name ≫= header_to_str.

Definition header_str (headers : HeaderMap) (name : string) : string :=
  default "unknown" (header_text headers name).

Definition header_owned (headers : HeaderMap) (name : string) : string :=
  header_str headers name.

Definition strip_before_engine (headers : HeaderMap) : HeaderMap :=
  let headers := hm_remove headers WR_DESTINATION in
  let headers := hm_remove headers WR_SOURCE in
  let headers := hm_remove headers WR_SOURCE_NS in
  hm_remove headers WR_VIA_PROXY.

Definition strip_external_spoofable_headers (headers : HeaderMap) : HeaderMap :=
  let headers := hm_remove headers WR_DESTINATION in
  let headers := hm_remove headers WR_SOURCE in
  let headers := hm_remove headers WR_SOURCE_NS in
  let headers := hm_remove headers WR_MODULE in
  let headers := hm_remove headers WR_NAMESPACE in
  let headers := hm_remove headers WR_VERSION in
  hm_remove headers WR_VIA_PROXY.

Definition strip_before_egress (headers : HeaderMap) : HeaderMap :=
  let headers := hm_remove headers WR_DESTINATION in
  let headers := hm_remove headers WR_SOURCE in
  let headers := hm_remove headers WR_SOURCE_NS in
  let headers := hm_remove headers WR_MODULE in
  let headers := hm_remove headers WR_NAMESPACE in
  let headers := hm_remove headers WR_VERSION in
  hm_remove headers WR_VIA_PROXY.

(** ** Endpoint addresses (identity.rs [endpoint], [endpoint_type!]) *)

Inductive endpoint_error : Type :=
| EndpointInvalid
| EndpointScheme
| EndpointUnsupportedScheme (schemes : list string)
| EndpointHost
| EndpointPort.

Definition endpoint (value : string) (schemes : list string) (require_port : bool) :
  result endpoint_error Uri :=
  match uri_parse value with
  | None => Err EndpointInvalid
  | Some uri =>
      match uri_scheme uri with
      | None => Err EndpointScheme
      | Some scheme =>
          if negb (existsb (String.eqb scheme) schemes) then Err (EndpointUnsupportedScheme schemes)
          else if negb (bool_decide (is_Some (uri_host uri))) then Err EndpointHost
          else if require_port && negb (bool_decide (is_Some (uri_port uri))) then Err EndpointPort
          else Ok uri
      end
  end.

Inductive endpoint_type : Type := EngineHttpUrl | ProxyHttpUrl | ControlHttpUrl | PeerHttpsUrl.

Definition endpoint_schemes (t : endpoint_type) : list string :=
  match t with PeerHttpsUrl => ["https"] | _ => ["http"; "https"] end.

Definition endpoint_require_port (t : endpoint_type) : bool :=
  match t with PeerHttpsUrl => true | _ => false end.

#[global] Instance endpoint_type_eq_dec : EqDecision endpoint_type.
Proof. solve_decision. Defined.

(** [$name::parse]: the stored text is the input, unchanged. *)
Definition endpoint_parse (t : endpoint_type) (value : string) : result endpoint_error string :=
  let? _ := endpoint value (endpoint_schemes t) (endpoint_require_port t) in Ok value.

(** ** Facts *)

Definition reserved_headers : list string :=
  [WR_DESTINATION; WR_SOURCE; WR_SOURCE_NS; WR_MODULE; WR_NAMESPACE; WR_VERSION; WR_VIA_PROXY].

Definition is_one_of (names : list string) (name : string) : bool :=
  existsb (λ r, same_header r name) names.

Lemma strip_all names headers name :
  forallb header_name_ok names = true →
  hm_get_all (foldl hm_remove headers names) name
  = if is_one_of names name then [] else hm_get_all headers name.
Proof.
  revert headers. induction names as [|n ns IH]; intros headers; [done|].
  simpl. rewrite andb_true_iff. intros [Hn Hns]. rewrite IH by done.
  rewrite hm_get_all_remove by done. by destruct (same_header n name), (is_one_of ns name).
Qed.

Lemma strip_external_spoofable_get headers name :
  hm_get_all (strip_external_spoofable_headers headers) name
  = if is_one_of reserved_headers name then [] else hm_get_all headers name.
Proof. exact (strip_all reserved_headers headers name eq_refl). Qed.

Lemma strip_before_egress_get headers name :
  hm_get_all (strip_before_egress headers) name
  = if is_one_of reserved_headers name then [] else hm_get_all headers name.
Proof. exact (strip_all reserved_headers headers name eq_refl). Qed.

Lemma strip_before_engine_get headers name :
  hm_get_all (strip_before_engine headers) name
  = if is_one_of [WR_DESTINATION; WR_SOURCE; WR_SOURCE_NS; WR_VIA_PROXY] name then []
    else hm_get_all headers name.
Proof.
  exact (strip_all [WR_DESTINATION; WR_SOURCE; WR_SOURCE_NS; WR_VIA_PROXY] headers name eq_refl).
Qed.

Lemma hm_get_insert headers k v name :
  header_name_ok k = true →
  hm_get (hm_insert headers k v) name = if same_header k name then Some v else hm_get headers name.
Proof. intros Hk. unfold hm_get. rewrite hm_get_all_insert by done. by destruct (same_header k name). Qed.

Lemma endpoint_port_test t uri :
  endpoint_require_port t && negb (bool_decide (is_Some (uri_port uri)))
  = negb (bool_decide (t = PeerHttpsUrl → is_Some (uri_port uri))).
Proof.
  destruct t; cbn [endpoint_require_port andb]; [by rewrite bool_decide_eq_true_2..|].
  f_equal. apply bool_decide_ext. tauto.
Qed.

(** An accepted endpoint is stored verbatim and is an absolute URI with a
    host whose scheme the kind of endpoint allows; a peer address is https and
    names its port. *)
Theorem endpoint_parse_accepts t value stored :
  endpoint_parse t value = Ok stored ↔
  stored = value ∧ ∃ uri scheme, uri_parse value = Some uri ∧ uri_scheme uri = Some scheme
    ∧ scheme ∈ endpoint_schemes t ∧ is_Some (uri_host uri)
    ∧ (t = PeerHttpsUrl → is_Some (uri_port uri)).
Proof.
  unfold endpoint_parse, endpoint. destruct (uri_parse value) as [uri|]; [|naive_solver].
  simpl. destruct (uri_scheme uri) as [scheme|] eqn:Hsch; [|naive_solver].
  rewrite endpoint_port_test.
  assert (existsb (String.eqb scheme) (endpoint_schemes t) = bool_decide (scheme ∈ endpoint_schemes t)) as ->.
  { apply eq_true_iff_eq. rewrite bool_decide_eq_true, existsb_exists.
    setoid_rewrite String.eqb_eq. rewrite list_elem_of_In. naive_solver. }
  case_bool_decide as Hs; simpl; [|naive_solver].
  case_bool_decide as Hh; simpl; [|naive_solver].
  case_bool_decide as Hp; simpl; naive_solver.
Qed.

(** Telemetry never sees a query: the redacted value has no question mark and
    is a prefix of the original, which it equals when there was no query. *)
Theorem uri_for_telemetry_redacts value :
  str_contains "?" (uri_for_telemetry value) = false
  ∧ (∃ query, value = uri_for_telemetry value +:+ query)
  ∧ (str_contains "?" value = false → uri_for_telemetry value = value).
Proof.
  unfold uri_for_telemetry. destruct (split_once "?" value) as [[base q]|] eqn:Hs.
  - apply split_once_Some in Hs as [-> Hb]. split; [done|]. split; [by eexists|].
    rewrite str_contains_app. simpl. by rewrite orb_true_r.
  - apply split_once_None in Hs. split; [done|]. split; [|done].
    exists "". by rewrite str_app_nil_r.
Qed.
End http.
