(* ===== verification/IndexedRouting.v ===== *)
(** * The routing index (wr-proxy/src/indexed_routing.rs, layers/mod.rs)

    [from_proto] turns the manager's flat rule list into a two-level index with
    prepared headers, forwarding targets and circuit breakers. The breaker
    registry is threaded through the rules in their order; the counters, shared
    [AtomicUsize] cells of a published snapshot, are fields of the groups. *)

From S2P Require Import Prelude RustStr Lists Externals Models Identity CircuitBreaker Http.

(** ** Wire messages (proto/wruntime.proto) *)

Record RoutingRule : Type := mkRoutingRule {
  rule_id : string;
  source_module : string;
  destination_module : string;
  engine_id : string;
  engine_address : string;
  destination_version : string;
  healthy : bool;
  source_namespace : string;
  destination_namespace : string;
  peer_address : string;
}.

Record RoutingTable : Type := mkRoutingTable { rt_rules : list RoutingRule; rt_version : Z }.

Section index.
Context `{SL : SemverLib, HL : HttpLib, FL : FailsafeLib}.

(** ** Forwarding targets (layers/mod.rs) *)

Record ForwardTarget : Type := mkForwardTarget { ft_address : string; ft_base_uri : option Uri }.

Definition is_base_uri (uri : Uri) : bool :=
  bool_decide (is_Some (uri_scheme uri)) && bool_decide (is_Some (uri_authority uri))
  && bool_decide (uri_query uri = None)
  && (String.eqb (uri_path uri) "" || String.eqb (uri_path uri) "/").

Definition forward_target_new (address : string) : ForwardTarget :=
  mkForwardTarget address
    (uri ← uri_parse address; if is_base_uri uri then Some uri else None).

Inductive Destination : Type :=
| LocalEngine (target : ForwardTarget)
| RemoteProxy (target : ForwardTarget).

Definition destination_local (address : string) : Destination := LocalEngine (forward_target_new address).
Definition destination_remote (address : string) : Destination := RemoteProxy (forward_target_new address).

Definition destination_target (d : Destination) : ForwardTarget :=
  match d with LocalEngine t | RemoteProxy t => t end.

Definition destination_address (d : Destination) : string := ft_address (destination_target d).

Record ResolvedRoute : Type := mkResolvedRoute {
  rr_destination : Destination;
  rr_breaker : EngineBreaker;
}.

(** ** The index *)

Record IndexedCandidate : Type := mkIndexedCandidate {
  ic_destination : Destination;
  ic_breaker : EngineBreaker;
  ic_version_group_index : nat;
}.

Record VersionGroup : Type := mkVersionGroup {
  vg_parsed_version : Version;
  vg_version : string;
  vg_version_header : HeaderValue;
  vg_candidate_indexes : list nat;
  vg_counter : Z;
}.

Record RouteGroup : Type := mkRouteGroup {
  rg_namespace : string;
  rg_module : string;
  rg_namespace_header : HeaderValue;
  rg_module_header : HeaderValue;
  rg_candidates : list IndexedCandidate;
  rg_version_groups : list VersionGroup;
  rg_all_versions_counter : Z;
}.

Abbreviation ModulesByName := (gmap string RouteGroup).

Record IndexedRoutingTable : Type := mkIndexedRoutingTable {
  it_by_namespace : gmap string ModulesByName;
  it_active_forward_addrs : gset string;
  it_version : Z;
}.

Record PreparedCandidate : Type := mkPreparedCandidate {
  pc_parsed_version : Version;
  pc_version : string;
  pc_destination : Destination;
  pc_breaker : EngineBreaker;
}.

Definition table_empty : IndexedRoutingTable := mkIndexedRoutingTable ∅ ∅ 0.

Definition table_get (t : IndexedRoutingTable) (namespace module : string) : option RouteGroup :=
  modules ← it_by_namespace t !! namespace; modules !! module.

(** ** Counters across snapshots *)

Definition set_vg_counter (vg : VersionGroup) (n : Z) : VersionGroup :=
  mkVersionGroup (vg_parsed_version vg) (vg_version vg) (vg_version_header vg)
    (vg_candidate_indexes vg) n.

Definition seed_version_group (previous : RouteGroup) (vg : VersionGroup) : VersionGroup :=
  match list_find (λ candidate, vg_version candidate = vg_version vg) (rg_version_groups previous) with
  | Some (_, previous_version) => set_vg_counter vg (vg_counter previous_version)
  | None => vg
  end.

Definition seed_group_counters (group previous : RouteGroup) : RouteGroup :=
  mkRouteGroup (rg_namespace group) (rg_module group) (rg_namespace_header group)
    (rg_module_header group) (rg_candidates group)
    (seed_version_group previous <$> rg_version_groups group)
    (rg_all_versions_counter previous).

Definition seed_from (previous : option RouteGroup) (group : RouteGroup) : RouteGroup :=
  match previous with Some p => seed_group_counters group p | None => group end.

Definition seed_counters_from (t previous : IndexedRoutingTable) : IndexedRoutingTable :=
  mkIndexedRoutingTable
    (map_imap (λ namespace modules,
       Some (map_imap (λ module group, Some (seed_from (table_get previous namespace module) group))
               modules)) (it_by_namespace t))
    (it_active_forward_addrs t) (it_version t).

(** ** First pass: rules to prepared candidates *)

Definition make_destination (rule : RoutingRule) (self_peer_address : string) : Destination :=
  if String.eqb (peer_address rule) self_peer_address
  then destination_local (engine_address rule)
  else destination_remote (peer_address rule).

Definition destination_class (d : Destination) : BreakerTargetClass :=
  match d with LocalEngine _ => LocalEngineClass | RemoteProxy _ => RemoteProxyClass end.

Record prepared : Type := mkPrepared {
  p_registry : CircuitBreakerRegistry;
  p_active : gset string;
  p_grouped : gmap RouteKey (list PreparedCandidate);
}.

(** One iteration of the rule loop; each [continue] keeps the state reached. *)
Definition prepare_rule (self_peer_address : string) (st : prepared) (rule : RoutingRule) : prepared :=
  if negb (healthy rule) then st
  else if str_is_empty (peer_address rule) then st
  else match route_key_parse (destination_namespace rule) (destination_module rule) with
  | Err _ => st
  | Ok key =>
  match version_parse (destination_version rule) with
  | None => st
  | Some parsed_version =>
  match header_from_str (destination_version rule) with
  | None => st
  | Some _ =>
      let destination := make_destination rule self_peer_address in
      let address := destination_address destination in
      let '(resolved, registry) := resolve (p_registry st) address (destination_class destination) in
      match resolved with
      | Err _ => mkPrepared registry (p_active st) (p_grouped st)
      | Ok breaker =>
          mkPrepared registry
            (if str_is_empty address then p_active st else {[ address ]} ∪ p_active st)
            (<[key := default [] (p_grouped st !! key)
                ++ [mkPreparedCandidate parsed_version (destination_version rule) destination breaker]]>
               (p_grouped st))
      end
  end end end.

(** ** Second pass: one route group *)

Record building : Type := mkBuilding {
  b_version_indexes : gmap string nat;
  b_version_groups : list VersionGroup;
  b_candidates : list IndexedCandidate;
}.

Definition push_index (i : nat) (vg : VersionGroup) : VersionGroup :=
  mkVersionGroup (vg_parsed_version vg) (vg_version vg) (vg_version_header vg)
    (vg_candidate_indexes vg ++ [i]) (vg_counter vg).

Definition push_candidate (st : building) (c : PreparedCandidate) (group_index : nat) : building :=
  mkBuilding (b_version_indexes st)
    (alter (push_index (length (b_candidates st))) group_index (b_version_groups st))
    (b_candidates st ++ [mkIndexedCandidate (pc_destination c) (pc_breaker c) group_index]).

Definition add_candidate (st : building) (c : PreparedCandidate) : building :=
  match b_version_indexes st !! pc_version c with
  | Some index => push_candidate st c index
  | None =>
      match header_from_str (pc_version c) with
      | None => st
      | Some version_header =>
          let index := length (b_version_groups st) in
          push_candidate
            (mkBuilding (<[pc_version c := index]> (b_version_indexes st))
               (b_version_groups st
                  ++ [mkVersionGroup (pc_parsed_version c) (pc_version c) version_header [] 0])
               (b_candidates st)) c index
      end
  end.

Definition building_new : building := mkBuilding ∅ [] [].

(** [b.parsed_version.cmp(&a.parsed_version)]. *)
Definition newest_first (a b : PreparedCandidate) : comparison :=
  version_cmp (pc_parsed_version b) (pc_parsed_version a).

Definition build_route_group (key : RouteKey) (candidates : list PreparedCandidate)
  (prev : option IndexedRoutingTable) : option RouteGroup :=
  let sorted := sort_by newest_first candidates in
  let namespace := name_str (rk_namespace key) in
  let module := name_str (rk_module key) in
  namespace_header ← header_from_str namespace;
  module_header ← header_from_str module;
  let st := foldl add_candidate building_new sorted in
  match b_candidates st with
  | [] => None
  | _ => Some (seed_from (prev ≫= λ table, table_get table namespace module)
                 (mkRouteGroup namespace module namespace_header module_header
                    (b_candidates st) (b_version_groups st) 0))
  end.

Definition index_group (prev : option IndexedRoutingTable) (key : RouteKey)
  (candidates : list PreparedCandidate) (by_namespace : gmap string ModulesByName) :
  gmap string ModulesByName :=
  match build_route_group key candidates prev with
  | None => by_namespace
  | Some group =>
      let namespace := name_str (rk_namespace key) in
      <[namespace := <[name_str (rk_module key) := group]> (default ∅ (by_namespace !! namespace))]>
        by_namespace
  end.

(** The second loop iterates over a [HashMap]: [map_fold] stands for one order,
    and [from_proto_lookup] shows that the order does not matter. *)
Definition from_proto (table : RoutingTable) (prev : option IndexedRoutingTable)
  (registry : CircuitBreakerRegistry) (self_peer_address : string) :
  IndexedRoutingTable * CircuitBreakerRegistry :=
  let st := foldl (prepare_rule self_peer_address) (mkPrepared registry ∅ ∅) (rt_rules table) in
  (mkIndexedRoutingTable (map_fold (index_group prev) ∅ (p_grouped st)) (p_active st) (rt_version table),
   p_registry st).
End index.

#[global] Arguments from_proto : simpl never.

(** ** Resolving breakers while preparing *)

Section resolve_facts.
Context `{FL : FailsafeLib}.

Lemma resolve_registered r addr class b :
  (resolve r addr class).1 = Ok b →
  reg_map (resolve r addr class).2 !! addr = Some (mkRegistryEntry class b).
Proof.
  unfold resolve. destruct (reg_map r !! addr) as [[c b']|] eqn:Ha; simpl.
  - case_decide; simpl; intros; by simplify_eq.
  - intros [= <-]. apply lookup_insert_eq.
Qed.

Lemma resolve_keeps r addr class a e :
  reg_map r !! a = Some e → reg_map (resolve r addr class).2 !! a = Some e.
Proof.
  intros He. unfold resolve. destruct (reg_map r !! addr) as [?|] eqn:Ha; simpl; [done|].
  rewrite lookup_insert_ne; [done|]. intros ->. congruence.
Qed.
Lemma resolve_rejected r addr class c :
  (resolve r addr class).1 = Err c →
  ∃ e, reg_map (resolve r addr class).2 !! addr = Some e ∧ re_class e ≠ class.
Proof.
  unfold resolve. destruct (reg_map r !! addr) as [e|] eqn:Ha; simpl; [|done].
  case_decide; [done|]. intros _. by exists e.
Qed.
End resolve_facts.

(** ** Facts *)

Section index_facts.
Context `{SL : SemverLib, HL : HttpLib, FL : FailsafeLib}.

(** *** The two-level index does not depend on the iteration order *)

Lemma index_group_lookup prev key cs by_ns ns m :
  (modules ← index_group prev key cs by_ns !! ns; modules !! m)
  = if decide (key = mkRouteKey (Name ns) (Name m))
    then (if build_route_group key cs prev is Some g then Some g
          else modules ← by_ns !! ns; modules !! m)
    else modules ← by_ns !! ns; modules !! m.
Proof.
  unfold index_group. destruct (build_route_group key cs prev) as [g|]; [|by case_decide].
  destruct key as [[kn] [km]]. simpl.
  destruct (decide (kn = ns)) as [->|Hn].
  - rewrite lookup_insert_eq. simpl. destruct (decide (km = m)) as [->|Hm].
    + rewrite lookup_insert_eq. by rewrite decide_True.
    + rewrite lookup_insert_ne by done. rewrite decide_False by congruence.
      by destruct (by_ns !! ns).
  - rewrite lookup_insert_ne by done. by rewrite decide_False by congruence.
Qed.

Lemma index_fold_lookup prev grouped ns m :
  (modules ← map_fold (index_group prev) ∅ grouped !! ns; modules !! m)
  = (cs ← grouped !! mkRouteKey (Name ns) (Name m);
     build_route_group (mkRouteKey (Name ns) (Name m)) cs prev).
Proof.
  apply (map_fold_weak_ind (λ r g, (modules ← r !! ns; modules !! m)
    = (cs ← g !! mkRouteKey (Name ns) (Name m);
       build_route_group (mkRouteKey (Name ns) (Name m)) cs prev))).
  - by rewrite !lookup_empty.
  - intros key cs g r Hg IH. rewrite index_group_lookup, IH.
    destruct (decide (key = _)) as [->|Hk].
    + rewrite lookup_insert_eq, Hg. simpl. by destruct (build_route_group _ _ _).
    + by rewrite lookup_insert_ne.
Qed.

(** *** What the first pass prepares *)

Definition registered (st : prepared) (c : PreparedCandidate) : Prop :=
  reg_map (p_registry st) !! destination_address (pc_destination c)
  = Some (mkRegistryEntry (destination_class (pc_destination c)) (pc_breaker c)).

Definition candidate_ok (c : PreparedCandidate) : Prop :=
  version_parse (pc_version c) = Some (pc_parsed_version c)
  ∧ is_Some (header_from_str (pc_version c)).

Record prepared_wf (st : prepared) : Prop := {
  pw_registry : registry_wf (p_registry st);
  pw_key key cs : p_grouped st !! key = Some cs →
    valid_name (name_str (rk_namespace key)) ∧ valid_name (name_str (rk_module key)) ∧ cs ≠ [];
  pw_candidate key cs c : p_grouped st !! key = Some cs → c ∈ cs →
    candidate_ok c ∧ registered st c
    ∧ (destination_address (pc_destination c) ≠ "" →
       destination_address (pc_destination c) ∈ p_active st);
}.

Lemma prepare_rule_wf self st rule : prepared_wf st → prepared_wf (prepare_rule self st rule).
Proof.
  intros Hst. unfold prepare_rule.
  destruct (negb (healthy rule)), (str_is_empty (peer_address rule)); try exact Hst.
  destruct (route_key_parse _ _) as [key|] eqn:Hk; [|exact Hst].
  apply route_key_parse_ok in Hk as (-> & Hns & Hm).
  destruct (version_parse _) as [v|] eqn:Hv; [|exact Hst].
  destruct (header_from_str _) as [h|] eqn:Hh; [|exact Hst].
  set (d := make_destination rule self).
  pose proof (resolve_wf (p_registry st) (destination_address d) (destination_class d)
    (pw_registry _ Hst)) as Hwf.
  pose proof (resolve_keeps (p_registry st) (destination_address d) (destination_class d)) as Hkeep.
  pose proof (resolve_registered (p_registry st) (destination_address d) (destination_class d)) as Hreg.
  destruct (resolve _ _ _) as [[b|e] r] eqn:Hr; simpl in *.
  2: { split; [done|exact (pw_key _ Hst)|]. intros key cs c Hcs Hc.
       destruct (pw_candidate _ Hst key cs c Hcs Hc) as (? & ? & ?). unfold registered. simpl. auto. }
  split; simpl; [done| |].
  - intros key cs. rewrite lookup_insert_Some. intros [[<- <-]|[Hne Hcs]].
    + split; [done|]. split; [done|]. by destruct (default [] _).
    + by apply (pw_key _ Hst).
  - intros key cs c.
    assert (∀ key cs, p_grouped st !! key = Some cs → c ∈ cs → candidate_ok c ∧
      reg_map r !! destination_address (pc_destination c)
        = Some (mkRegistryEntry (destination_class (pc_destination c)) (pc_breaker c))
      ∧ (destination_address (pc_destination c) ≠ "" → destination_address (pc_destination c) ∈
          (if str_is_empty (destination_address d) then p_active st
           else {[destination_address d]} ∪ p_active st))) as Hold.
    { intros key' cs' Hcs Hc. destruct (pw_candidate _ Hst key' cs' c Hcs Hc) as (? & ? & ?).
      split; [done|]. split; [by apply Hkeep|]. intros. destruct (str_is_empty _); set_solver. }
    rewrite lookup_insert_Some. intros [[<- <-]|[Hne Hcs]]; [|by apply (Hold key)].
    rewrite elem_of_app, list_elem_of_singleton. intros [Hc| ->].
    + destruct (p_grouped st !! _) as [cs0|] eqn:Hcs0; [by eapply Hold|by apply elem_of_nil in Hc].
    + split; [by split; simpl; eauto|]. split; [by apply Hreg|]. simpl. intros Hne.
      destruct (destination_address d); [done|]. simpl. set_solver.
Qed.

Lemma prepare_rules_wf self rules st :
  prepared_wf st → prepared_wf (foldl (prepare_rule self) st rules).
Proof. revert st. induction rules; simpl; auto using prepare_rule_wf. Qed.

Lemma prepared_new_wf registry : registry_wf registry → prepared_wf (mkPrepared registry ∅ ∅).
Proof. intros Hr. split; [done|by intros ??..]. Qed.

(** *** What the second pass builds *)

Record building_inv (l : list PreparedCandidate) (st : building) : Prop := {
  bi_length : length (b_candidates st) = length l;
  bi_candidate i c : l !! i = Some c → ∃ k,
    b_version_indexes st !! pc_version c = Some k
    ∧ b_candidates st !! i = Some (mkIndexedCandidate (pc_destination c) (pc_breaker c) k);
  bi_index v k : b_version_indexes st !! v = Some k → ∃ vg,
    b_version_groups st !! k = Some vg ∧ vg_version vg = v;
  bi_group k vg : b_version_groups st !! k = Some vg →
    b_version_indexes st !! vg_version vg = Some k
    ∧ header_from_str (vg_version vg) = Some (vg_version_header vg)
    ∧ vg_candidate_indexes vg = positions (λ c, String.eqb (vg_version vg) (pc_version c)) l
    ∧ ∃ c, c ∈ l ∧ pc_version c = vg_version vg ∧ pc_parsed_version c = vg_parsed_version vg;
  bi_sorted : StronglySorted
    (λ a b, version_cmp (vg_parsed_version b) (vg_parsed_version a) ≠ Gt) (b_version_groups st);
}.

Lemma push_existing l st c k :
  building_inv l st → b_version_indexes st !! pc_version c = Some k →
  building_inv (l ++ [c]) (push_candidate st c k).
Proof.
  intros Hst Hk. destruct (bi_index _ _ Hst _ _ Hk) as (vgk & Hvgk & Hvk).
  split; simpl.
  - rewrite !length_app. by rewrite (bi_length _ _ Hst).
  - intros i c'. rewrite lookup_snoc_Some. intros [[Hi Hc']|[-> <-]].
    + destruct (bi_candidate _ _ Hst _ _ Hc') as (k' & ? & ?). exists k'.
      split; [done|]. rewrite lookup_app_l; [done|]. by rewrite (bi_length _ _ Hst).
    + exists k. split; [done|]. rewrite <-(bi_length _ _ Hst). apply lookup_snoc_eq.
  - intros v k' Hv. destruct (bi_index _ _ Hst _ _ Hv) as (vg & Hvg & <-).
    destruct (decide (k = k')) as [<-|Hne].
    + rewrite list_lookup_alter_eq, Hvg. simpl. by eexists.
    + rewrite list_lookup_alter_ne by done. by exists vg.
  - intros k' vg Hvg. rewrite positions_snoc. destruct (decide (k = k')) as [<-|Hne].
    + rewrite list_lookup_alter_eq, Hvgk in Hvg. simpl in Hvg. injection Hvg as <-. simpl.
      destruct (bi_group _ _ Hst _ _ Hvgk) as (? & ? & -> & c' & ? & ? & ?).
      rewrite Hvk, String.eqb_refl, (bi_length _ _ Hst). rewrite Hvk in *.
      split_and!; [done..|]. exists c'. split_and!; [set_solver|congruence|done].
    + rewrite list_lookup_alter_ne in Hvg by done.
      destruct (bi_group _ _ Hst _ _ Hvg) as (Hix & ? & Hpos & c' & ? & ? & ?).
      destruct (String.eqb_spec (vg_version vg) (pc_version c)) as [Heq|_]; [congruence|].
      rewrite app_nil_r. split_and!; [done..|]. exists c'. split_and!; [set_solver|done..].
  - eapply (StronglySorted_fmap_ext (λ a b, version_cmp b a ≠ Gt) vg_parsed_version vg_parsed_version);
      [|apply (bi_sorted _ _ Hst)].
    symmetry. by apply fmap_alter_same.
Qed.

Lemma push_existing' l st c k :
  building_inv l st → b_version_indexes st !! pc_version c = Some k →
  building_inv (l ++ [c]) (add_candidate st c).
Proof. intros Hst Hk. unfold add_candidate. rewrite Hk. by apply push_existing. Qed.

Lemma push_new l st c h :
  building_inv l st → b_version_indexes st !! pc_version c = None →
  header_from_str (pc_version c) = Some h → (∀ c', c' ∈ l → newest_first c' c ≠ Gt) →
  building_inv (l ++ [c]) (add_candidate st c).
Proof.
  intros Hst Hnone Hh Hge. unfold add_candidate. rewrite Hnone, Hh.
  unfold push_candidate. simpl.
  rewrite alter_snoc. simpl.
  assert (∀ k vg, b_version_groups st !! k = Some vg → vg_version vg ≠ pc_version c) as Hold.
  { intros k vg Hvg E. apply (bi_group _ _ Hst) in Hvg as [Hvg _]. congruence. }
  assert (positions (λ c', String.eqb (pc_version c) (pc_version c')) l = []) as Hnopos.
  { apply elem_of_nil_inv. intros i Hi. apply elem_of_positions in Hi as (c' & Hc' & E).
    apply String.eqb_eq in E. apply (bi_candidate _ _ Hst) in Hc' as (k & Hk & _). congruence. }
  split; simpl.
  - rewrite !length_app. by rewrite (bi_length _ _ Hst).
  - intros i c'. rewrite lookup_snoc_Some. intros [[Hi Hc']|[-> <-]].
    + destruct (bi_candidate _ _ Hst _ _ Hc') as (k' & ? & ?). exists k'.
      split; [rewrite lookup_insert_ne; [done|congruence]|].
      rewrite lookup_app_l; [done|]. by rewrite (bi_length _ _ Hst).
    + eexists. split; [apply lookup_insert_eq|]. rewrite <-(bi_length _ _ Hst). apply lookup_snoc_eq.
  - intros v k. rewrite lookup_insert_Some. intros [[<- <-]|[Hne Hv]].
    + eexists. split; [apply lookup_snoc_eq|done].
    + destruct (bi_index _ _ Hst _ _ Hv) as (vg & Hvg & <-). exists vg.
      split; [|done]. rewrite lookup_app_l; [done|]. by eapply lookup_lt_Some.
  - intros k vg. rewrite positions_snoc, lookup_snoc_Some. intros [[Hk Hvg]|[-> <-]]; simpl.
    + destruct (bi_group _ _ Hst _ _ Hvg) as (Hix & ? & Hpos & c' & ? & ? & ?).
      rewrite lookup_insert_ne by (symmetry; by eapply Hold).
      destruct (String.eqb_spec (vg_version vg) (pc_version c)) as [E|_]; [by destruct (Hold k vg)|].
      rewrite app_nil_r. split_and!; [done..|]. exists c'. split_and!; [set_solver|done..].
    + rewrite lookup_insert_eq, String.eqb_refl, Hnopos, (bi_length _ _ Hst).
      split_and!; [done..|]. exists c. split_and!; [set_solver|done..].
  - apply StronglySorted_snoc; [apply (bi_sorted _ _ Hst)|]. simpl.
    apply Forall_forall. intros vg [k Hvg]%list_elem_of_lookup.
    destruct (bi_group _ _ Hst _ _ Hvg) as (_ & _ & _ & c' & Hc' & _ & <-). by apply Hge.
Qed.

Lemma build_inv l :
  StronglySorted (λ a b, newest_first a b ≠ Gt) l → Forall candidate_ok l →
  building_inv l (foldl add_candidate building_new l).
Proof.
  induction l as [|c l IH] using rev_ind; intros Hs Hok.
  { split; simpl; [done|by intros ??..|constructor]. }
  rewrite foldl_app. simpl. apply StronglySorted_snoc_inv in Hs as [Hs Hge].
  apply Forall_app in Hok as [Hok Hc]. specialize (IH Hs Hok).
  destruct (b_version_indexes (foldl add_candidate building_new l) !! pc_version c) as [k|] eqn:Hk.
  - by apply (push_existing' _ _ _ k).
  - apply (proj1 (Forall_singleton _ _)) in Hc as [_ [h Hh]]. by eapply push_new.
Qed.

(** *** The first pass against the final registry *)

(** The candidate that [rule] contributes to [key], read off the rule and the
    classes and breakers of the registry [R] after the whole table. *)
Definition prepared_of (R : gmap string RegistryEntry) (self : string) (key : RouteKey)
  (rule : RoutingRule) : option PreparedCandidate :=
  if healthy rule && negb (str_is_empty (peer_address rule)) then
    key' ← ok (route_key_parse (destination_namespace rule) (destination_module rule));
    if decide (key' = key) then
      v ← version_parse (destination_version rule);
      _ ← header_from_str (destination_version rule);
      let d := make_destination rule self in
      entry ← R !! destination_address d;
      if decide (re_class entry = destination_class d)
      then Some (mkPreparedCandidate v (destination_version rule) d (re_breaker entry))
      else None
    else None
  else None.

Definition push_prepared (o : option (list PreparedCandidate)) (c : option PreparedCandidate) :
  option (list PreparedCandidate) :=
  match c with Some c => Some (default [] o ++ [c]) | None => o end.

Lemma prepare_rule_mono self st rule :
  reg_map (p_registry st) ⊆ reg_map (p_registry (prepare_rule self st rule)).
Proof.
  apply map_subseteq_spec. intros a e He. unfold prepare_rule.
  destruct (negb (healthy rule)), (str_is_empty (peer_address rule)); try exact He.
  destruct (route_key_parse _ _); [|exact He]. destruct (version_parse _); [|exact He].
  destruct (header_from_str _); [|exact He].
  pose proof (resolve_keeps (p_registry st) (destination_address (make_destination rule self))
    (destination_class (make_destination rule self)) a e He) as Hk.
  destruct (resolve _ _ _) as [[b|c] r]; exact Hk.
Qed.

Lemma prepare_rules_mono self rules st :
  reg_map (p_registry st) ⊆ reg_map (p_registry (foldl (prepare_rule self) st rules)).
Proof.
  revert st. induction rules as [|rule rules IH]; intros st; simpl; [done|].
  etrans; [apply (prepare_rule_mono self st rule)|apply IH].
Qed.

Lemma prepare_rule_grouped self st rule R key :
  reg_map (p_registry (prepare_rule self st rule)) ⊆ R →
  p_grouped (prepare_rule self st rule) !! key
  = push_prepared (p_grouped st !! key) (prepared_of R self key rule).
Proof.
  unfold prepare_rule, prepared_of.
  destruct (healthy rule); [|done]. destruct (str_is_empty (peer_address rule)); [done|].
  destruct (route_key_parse _ _) as [key'|]; [|done]. simpl.
  destruct (version_parse _) as [v|]; [|by case_decide].
  destruct (header_from_str _) as [h|]; [|by case_decide].
  set (d := make_destination rule self).
  pose proof (resolve_registered (p_registry st) (destination_address d) (destination_class d)) as Hreg.
  pose proof (resolve_rejected (p_registry st) (destination_address d) (destination_class d)) as Hrej.
  destruct (resolve _ _ _) as [[b|c] r]; simpl in *; rewrite map_subseteq_spec; intros HR.
  - rewrite (HR _ _ (Hreg b eq_refl)). simpl. rewrite (decide_True (P := destination_class d = destination_class d)) by done.
    case_decide as Hk; simpl; [subst key'; apply lookup_insert_eq|by apply lookup_insert_ne].
  - destruct (Hrej c eq_refl) as (e & He & Hne). rewrite (HR _ _ He). simpl.
    rewrite (decide_False (P := re_class e = _)) by done. by case_decide.
Qed.

Lemma prepare_rules_grouped self rules st R key :
  reg_map (p_registry (foldl (prepare_rule self) st rules)) ⊆ R →
  default [] (p_grouped (foldl (prepare_rule self) st rules) !! key)
  = default [] (p_grouped st !! key) ++ omap (prepared_of R self key) rules.
Proof.
  revert st. induction rules as [|rule rules IH]; intros st HR; simpl; [by rewrite app_nil_r|].
  rewrite IH by done. rewrite (prepare_rule_grouped _ _ _ R)
    by (etrans; [apply (prepare_rules_mono self rules)|done]).
  destruct (prepared_of R self key rule); simpl; [by rewrite <-app_assoc|done].
Qed.

(** *** Well-formed route groups *)

Record group_wf (g : RouteGroup) : Prop := {
  gw_nonempty : rg_candidates g ≠ [];
  gw_candidate i c : rg_candidates g !! i = Some c →
    ∃ vg, rg_version_groups g !! ic_version_group_index c = Some vg ∧ i ∈ vg_candidate_indexes vg;
  gw_indexes k vg : rg_version_groups g !! k = Some vg →
    vg_candidate_indexes vg ≠ []
    ∧ vg_candidate_indexes vg
      = positions (λ c, Nat.eqb (ic_version_group_index c) k) (rg_candidates g);
  gw_version vg : vg ∈ rg_version_groups g →
    version_parse (vg_version vg) = Some (vg_parsed_version vg)
    ∧ header_from_str (vg_version vg) = Some (vg_version_header vg);
  gw_unique : NoDup (vg_version <$> rg_version_groups g);
  gw_sorted : StronglySorted
    (λ a b, version_cmp (vg_parsed_version b) (vg_parsed_version a) ≠ Gt) (rg_version_groups g);
}.

Lemma build_indexes l st k vg :
  building_inv l st → b_version_groups st !! k = Some vg →
  vg_candidate_indexes vg = positions (λ c, Nat.eqb (ic_version_group_index c) k) (b_candidates st).
Proof.
  intros Hst Hvg. destruct (bi_group _ _ Hst _ _ Hvg) as (Hix & _ & -> & _).
  apply positions_ext. apply list_eq. intros i. rewrite !list_lookup_fmap.
  destruct (l !! i) as [c|] eqn:Hc; simpl.
  - destruct (bi_candidate _ _ Hst _ _ Hc) as (k' & Hk' & ->). simpl. f_equal.
    apply eq_true_iff_eq. rewrite String.eqb_eq, Nat.eqb_eq. split.
    + intros E. rewrite <-E, Hix in Hk'. by injection Hk'.
    + intros ->. destruct (bi_index _ _ Hst _ _ Hk') as (vg' & Hvg' & <-). congruence.
  - apply lookup_ge_None in Hc. rewrite <-(bi_length _ _ Hst) in Hc.
    by rewrite (proj2 (lookup_ge_None _ _) Hc).
Qed.

Lemma build_wf l st g :
  building_inv l st → Forall candidate_ok l → l ≠ [] →
  rg_candidates g = b_candidates st → rg_version_groups g = b_version_groups st → group_wf g.
Proof.
  intros Hst Hok Hne Hc Hg. split; rewrite ?Hc, ?Hg.
  - intros E. pose proof (bi_length _ _ Hst) as Hl. rewrite E in Hl. by destruct l.
  - intros i c Hi. destruct (lookup_lt_is_Some_2 l i) as [p Hp].
    { rewrite <-(bi_length _ _ Hst). by eapply lookup_lt_Some. }
    destruct (bi_candidate _ _ Hst _ _ Hp) as (k & Hk & Hi'). rewrite Hi in Hi'. injection Hi' as ->.
    simpl. destruct (bi_index _ _ Hst _ _ Hk) as (vg & Hvg & Hv). exists vg. split; [done|].
    destruct (bi_group _ _ Hst _ _ Hvg) as (_ & _ & -> & _). apply elem_of_positions.
    exists p. by rewrite Hv, String.eqb_refl.
  - intros k vg Hvg. split; [|by eapply build_indexes].
    destruct (bi_group _ _ Hst _ _ Hvg) as (_ & _ & -> & c & Hcl & Hv & _).
    apply list_elem_of_lookup in Hcl as [i Hi]. intros E.
    assert (i ∈ []) as ?%elem_of_nil; [|done]. rewrite <-E. apply elem_of_positions.
    exists c. by rewrite Hv, String.eqb_refl.
  - intros vg [k Hvg]%list_elem_of_lookup.
    destruct (bi_group _ _ Hst _ _ Hvg) as (_ & Hh & _ & c & Hcl & Hv & <-).
    split; [|done]. rewrite <-Hv. by apply (proj1 (Forall_forall _ _) Hok).
  - apply NoDup_alt. intros i j v. rewrite !list_lookup_fmap_Some.
    intros (vg & -> & Hi) (vg' & E & Hj).
    destruct (bi_group _ _ Hst _ _ Hi) as [Hi' _], (bi_group _ _ Hst _ _ Hj) as [Hj' _]. congruence.
  - apply (bi_sorted _ _ Hst).
Qed.

(** Counters do not matter. *)
Definition vg_static (vg : VersionGroup) : Version * string * HeaderValue * list nat :=
  (vg_parsed_version vg, vg_version vg, vg_version_header vg, vg_candidate_indexes vg).

Lemma vg_static_lookup (l l' : list VersionGroup) k vg :
  vg_static <$> l = vg_static <$> l' → l !! k = Some vg →
  ∃ vg', l' !! k = Some vg' ∧ vg_static vg' = vg_static vg.
Proof.
  intros E Hk. apply (f_equal (lookup k)) in E. rewrite !list_lookup_fmap, Hk in E. simpl in E.
  destruct (l' !! k) as [vg'|]; [|done]. exists vg'. split; [done|]. symmetry. exact (inj Some _ _ E).
Qed.

Lemma group_wf_ext g g' :
  rg_candidates g' = rg_candidates g →
  vg_static <$> rg_version_groups g' = vg_static <$> rg_version_groups g → group_wf g → group_wf g'.
Proof.
  intros Hc Hs Hg. split; rewrite ?Hc.
  - apply (gw_nonempty _ Hg).
  - intros i c Hi. destruct (gw_candidate _ Hg i c Hi) as (vg & Hvg & Hin).
    destruct (vg_static_lookup _ _ _ _ (eq_sym Hs) Hvg) as (vg' & Hvg' & [= _ _ _ Hix]).
    exists vg'. split; [done|]. by rewrite Hix.
  - intros k vg Hvg. destruct (vg_static_lookup _ _ _ _ Hs Hvg) as (vg' & Hvg' & [= _ _ _ <-]).
    by apply (gw_indexes _ Hg).
  - intros vg [k Hvg]%list_elem_of_lookup.
    destruct (vg_static_lookup _ _ _ _ Hs Hvg) as (vg' & Hvg' & [= <- <- <- _]).
    apply (gw_version _ Hg). by eapply list_elem_of_lookup_2.
  - assert (∀ l : list VersionGroup, vg_version <$> l = (λ x, x.1.1.2) <$> (vg_static <$> l)) as Hv.
    { intros l. by rewrite <-list_fmap_compose. }
    rewrite Hv, Hs, <-Hv. apply (gw_unique _ Hg).
  - eapply (StronglySorted_fmap_ext (λ a b, version_cmp b a ≠ Gt) vg_parsed_version vg_parsed_version);
      [|apply (gw_sorted _ Hg)].
    assert (∀ l : list VersionGroup, vg_parsed_version <$> l = (λ x, x.1.1.1) <$> (vg_static <$> l)) as Hv.
    { intros l. by rewrite <-list_fmap_compose. }
    by rewrite Hv, <-Hs, <-Hv.
Qed.

Lemma seed_version_group_static previous vg : vg_static (seed_version_group previous vg) = vg_static vg.
Proof. unfold seed_version_group. by destruct (list_find _ _) as [[]|]. Qed.

Lemma seed_group_counters_wf g previous : group_wf g → group_wf (seed_group_counters g previous).
Proof.
  apply group_wf_ext; [done|]. simpl. rewrite <-list_fmap_compose. apply list_fmap_ext.
  intros _ vg _. apply seed_version_group_static.
Qed.

Lemma seed_from_wf o g : group_wf g → group_wf (seed_from o g).
Proof. destruct o; simpl; auto using seed_group_counters_wf. Qed.

(** *** Descending versions *)

Lemma newest_first_antisym x y : newest_first y x = CompOpp (newest_first x y).
Proof. unfold newest_first. apply version_cmp_antisym. Qed.

Lemma version_le_trans u v w :
  version_cmp u v ≠ Gt → version_cmp v w ≠ Gt → version_cmp u w ≠ Gt.
Proof.
  destruct (version_cmp u v) eqn:Huv, (version_cmp v w) eqn:Hvw; try done; intros _ _.
  - apply version_cmp_eq in Huv as ->. by rewrite Hvw.
  - apply version_cmp_eq in Huv as ->. by rewrite Hvw.
  - apply version_cmp_eq in Hvw as <-. by rewrite Huv.
  - by rewrite (version_cmp_trans u v w Huv Hvw).
Qed.

Lemma newest_first_sorted cs : StronglySorted (λ a b, newest_first a b ≠ Gt) (sort_by newest_first cs).
Proof.
  apply sort_by_sorted; [apply newest_first_antisym|].
  unfold newest_first. intros x y z Hxy Hyz. by eapply version_le_trans.
Qed.

(** *** What a group serves *)

(** The candidate at each position with the version its group announces. *)
Definition served (g : RouteGroup) : list (option PreparedCandidate) :=
  (λ c, vg ← rg_version_groups g !! ic_version_group_index c;
        Some (mkPreparedCandidate (vg_parsed_version vg) (vg_version vg)
                (ic_destination c) (ic_breaker c))) <$> rg_candidates g.

Lemma build_served l st ns m nh mh n :
  building_inv l st → Forall candidate_ok l → l ≠ [] →
  served (mkRouteGroup ns m nh mh (b_candidates st) (b_version_groups st) n) = Some <$> l.
Proof.
  intros Hst Hok Hne. apply list_eq. intros i. unfold served. simpl. rewrite !list_lookup_fmap.
  destruct (l !! i) as [c|] eqn:Hc; simpl.
  - destruct (bi_candidate _ _ Hst _ _ Hc) as (k & Hk & ->). simpl.
    destruct (bi_index _ _ Hst _ _ Hk) as (vg & Hvg & Hv). rewrite Hvg. simpl.
    destruct (bi_group _ _ Hst _ _ Hvg) as (_ & _ & _ & c' & Hc' & Hv' & Hp').
    assert (candidate_ok c) as [Hp _] by (by apply (proj1 (Forall_forall _ _) Hok); eapply list_elem_of_lookup_2).
    assert (candidate_ok c') as [Hp'' _] by (by apply (proj1 (Forall_forall _ _) Hok)).
    assert (vg_parsed_version vg = pc_parsed_version c) as -> by congruence.
    rewrite Hv. by destruct c.
  - apply lookup_ge_None in Hc. rewrite <-(bi_length _ _ Hst) in Hc.
    by rewrite (proj2 (lookup_ge_None _ _) Hc).
Qed.

Lemma seed_from_served o g : served (seed_from o g) = served g.
Proof.
  destruct o as [p|]; [|done]. unfold served, seed_from. simpl. apply list_fmap_ext.
  intros i c _. rewrite list_lookup_fmap.
  destruct (rg_version_groups g !! ic_version_group_index c) as [vg|]; [|done]. simpl.
  by injection (seed_version_group_static p vg) as -> -> _ _.
Qed.

Lemma valid_name_visible s : valid_name s → str_all is_visible_ascii s = true.
Proof.
  intros (_ & _ & _ & Hs). eapply str_all_impl; [|exact Hs]. intros c Hc.
  by destruct c as [[] [] [] [] [] [] [] []].
Qed.

Lemma build_route_group_spec key cs prev :
  valid_name (name_str (rk_namespace key)) → valid_name (name_str (rk_module key)) →
  cs ≠ [] → Forall candidate_ok cs →
  ∃ g, build_route_group key cs prev = Some g ∧ group_wf g
    ∧ served g = Some <$> sort_by newest_first cs
    ∧ rg_namespace g = name_str (rk_namespace key) ∧ rg_module g = name_str (rk_module key)
    ∧ header_from_str (rg_namespace g) = Some (rg_namespace_header g)
    ∧ header_from_str (rg_module g) = Some (rg_module_header g).
Proof.
  intros Hns Hm Hne Hok. unfold build_route_group.
  destruct (header_visible _ (valid_name_visible _ Hns)) as (nh & Hnh & _).
  destruct (header_visible _ (valid_name_visible _ Hm)) as (mh & Hmh & _).
  rewrite Hnh, Hmh. simpl.
  assert (sort_by newest_first cs ≠ []) as Hne'.
  { intros E. pose proof (sort_by_perm newest_first cs) as Hp. rewrite E in Hp.
    by apply Permutation_nil_l in Hp. }
  assert (Forall candidate_ok (sort_by newest_first cs)) as Hok' by by rewrite sort_by_perm.
  pose proof (build_inv _ (newest_first_sorted cs) Hok') as Hst.
  destruct (b_candidates _) as [|ic ics] eqn:Hb.
  { pose proof (bi_length _ _ Hst) as Hl. rewrite Hb in Hl. by destruct (sort_by newest_first cs). }
  rewrite <-Hb. eexists. split; [done|].
  split; [by apply seed_from_wf, (build_wf _ _ _ Hst)|].
  split; [rewrite seed_from_served; by apply build_served|].
  by destruct (prev ≫= _).
Qed.

Lemma from_proto_get table prev registry self ns m :
  table_get (from_proto table prev registry self).1 ns m
  = (cs ← p_grouped (foldl (prepare_rule self) (mkPrepared registry ∅ ∅) (rt_rules table))
            !! mkRouteKey (Name ns) (Name m);
     build_route_group (mkRouteKey (Name ns) (Name m)) cs prev).
Proof. apply index_fold_lookup. Qed.

Lemma from_proto_group table prev registry self ns m g :
  registry_wf registry →
  table_get (from_proto table prev registry self).1 ns m = Some g →
  ∃ cs, p_grouped (foldl (prepare_rule self) (mkPrepared registry ∅ ∅) (rt_rules table))
          !! mkRouteKey (Name ns) (Name m) = Some cs
    ∧ group_wf g ∧ served g = Some <$> sort_by newest_first cs
    ∧ (valid_name ns ∧ valid_name m) ∧ rg_namespace g = ns ∧ rg_module g = m
    ∧ header_from_str ns = Some (rg_namespace_header g)
    ∧ header_from_str m = Some (rg_module_header g).
Proof.
  intros Hr. rewrite from_proto_get.
  pose proof (prepare_rules_wf self (rt_rules table) _ (prepared_new_wf _ Hr)) as Hp.
  destruct (p_grouped _ !! _) as [cs|] eqn:Hcs; [|done]. simpl. intros Hg.
  destruct (pw_key _ Hp _ _ Hcs) as (Hns & Hm & Hne).
  destruct (build_route_group_spec _ cs prev Hns Hm Hne) as (g' & Hg' & Hwf & Hs & Hn1 & Hm1 & Hh).
  { apply Forall_forall. intros c Hc. by apply (pw_candidate _ Hp _ _ _ Hcs Hc). }
  rewrite Hg in Hg'. injection Hg' as <-. simpl in *. rewrite Hn1, Hm1 in Hh. by exists cs.
Qed.

(** C23. The index serves exactly the admitted rules. For every namespace and
    module, the group found by the two-level lookup holds, newest version first
    and in rule order within a version, one candidate per rule that is healthy,
    has a peer address, names that module by valid names and a semantic version,
    and whose forwarding address is registered for its target class; there is no
    group exactly when no rule is admitted. *)
Theorem from_proto_serves_admitted_rules table prev registry self ns m :
  registry_wf registry →
  let cs := omap (prepared_of (reg_map (from_proto table prev registry self).2) self
                    (mkRouteKey (Name ns) (Name m))) (rt_rules table) in
  match table_get (from_proto table prev registry self).1 ns m with
  | None => cs = []
  | Some g => cs ≠ [] ∧ served g = Some <$> sort_by newest_first cs
  end.
Proof.
  intros Hr cs. set (st := foldl (prepare_rule self) (mkPrepared registry ∅ ∅) (rt_rules table)).
  assert (default [] (p_grouped st !! mkRouteKey (Name ns) (Name m)) = cs) as Hcs.
  { unfold st. rewrite (prepare_rules_grouped _ _ _ (reg_map (p_registry st))) by done. done. }
  pose proof (prepare_rules_wf self (rt_rules table) _ (prepared_new_wf _ Hr)) as Hp. fold st in Hp.
  destruct (table_get _ ns m) as [g|] eqn:Hg.
  - destruct (from_proto_group _ _ _ _ _ _ _ Hr Hg) as (cs' & Hcs' & _ & Hs & _).
    fold st in Hcs'. rewrite Hcs' in Hcs. simpl in Hcs. subst cs'.
    split; [|done]. by apply (pw_key _ Hp _ _ Hcs').
  - rewrite from_proto_get in Hg. fold st in Hg.
    destruct (p_grouped st !! _) as [cs'|] eqn:Hcs'; [|done]. simpl in *.
    destruct (pw_key _ Hp _ _ Hcs') as (Hns & Hm & Hne).
    destruct (build_route_group_spec _ cs' prev Hns Hm Hne) as (g' & Hg' & _); [|congruence].
    apply Forall_forall. intros c Hc. by apply (pw_candidate _ Hp _ _ _ Hcs' Hc).
Qed.

(** Every group of a built index is well formed: every candidate index and
    version-group index is in range, each version group lists exactly its
    candidates and is not empty, versions are unique and in descending
    semantic-version order, and the prepared header values spell the namespace,
    the module and the versions. *)
Theorem from_proto_groups_wf table prev registry self ns m g :
  registry_wf registry →
  table_get (from_proto table prev registry self).1 ns m = Some g →
  group_wf g ∧ rg_namespace g = ns ∧ rg_module g = m
  ∧ header_from_str ns = Some (rg_namespace_header g)
  ∧ header_from_str m = Some (rg_module_header g).
Proof.
  intros Hr Hg. destruct (from_proto_group _ _ _ _ _ _ _ Hr Hg) as (cs & _ & Hwf & _ & _ & Hrest).
  by split.
Qed.

(** Where a candidate's breaker stands in the registry. *)
Definition candidate_registered (r : CircuitBreakerRegistry) (c : IndexedCandidate) : Prop :=
  reg_map r !! destination_address (ic_destination c)
  = Some (mkRegistryEntry (destination_class (ic_destination c)) (ic_breaker c)).

Lemma from_proto_registered table prev registry self ns m g c :
  registry_wf registry →
  table_get (from_proto table prev registry self).1 ns m = Some g → c ∈ rg_candidates g →
  candidate_registered (from_proto table prev registry self).2 c
  ∧ (destination_address (ic_destination c) ≠ "" → destination_address (ic_destination c)
       ∈ it_active_forward_addrs (from_proto table prev registry self).1).
Proof.
  intros Hr Hg Hc. destruct (from_proto_group _ _ _ _ _ _ _ Hr Hg) as (cs & Hcs & Hwf & Hs & _).
  pose proof (prepare_rules_wf self (rt_rules table) _ (prepared_new_wf _ Hr)) as Hp.
  apply list_elem_of_lookup in Hc as [i Hc].
  destruct (gw_candidate _ Hwf i c Hc) as (vg & Hvg & _).
  apply (f_equal (lookup i)) in Hs. unfold served in Hs.
  rewrite !list_lookup_fmap, Hc in Hs. simpl in Hs. rewrite Hvg in Hs. simpl in Hs.
  destruct (sort_by newest_first cs !! i) as [p|] eqn:Hp'; [|done]. injection Hs as <-.
  apply list_elem_of_lookup_2 in Hp'. rewrite sort_by_perm in Hp'.
  by destruct (pw_candidate _ Hp _ _ _ Hcs Hp') as (_ & ? & ?).
Qed.

Lemma from_proto_registry_wf table prev registry self :
  registry_wf registry → registry_wf (from_proto table prev registry self).2.
Proof. intros Hr. apply (pw_registry _ (prepare_rules_wf self (rt_rules table) _ (prepared_new_wf _ Hr))). Qed.
End index_facts.

(** ** Concrete instances of the theorems *)

Definition demo_rule (version address : string) : RoutingRule :=
  mkRoutingRule "r" "" "cart" "e1" address version true "" "shop" "http://self".

Definition demo_rules : list RoutingRule :=
  [demo_rule "1.0.0" "http://e1:1"; demo_rule "1.2.0" "http://e2:1"; demo_rule "1.2.0" "http://e1:1"].

Section demo.
#[local] Existing Instances toy_semver toy_http toy_failsafe.

Definition demo_indexed : IndexedRoutingTable * CircuitBreakerRegistry :=
  from_proto (mkRoutingTable demo_rules 1) None (registry_new demo_config) "http://self".

Definition no_group : RouteGroup := mkRouteGroup "" "" "" "" [] [] 0.

Definition demo_indexed_group : RouteGroup := default no_group (table_get demo_indexed.1 "shop" "cart").

Lemma demo_indexed_found : table_get demo_indexed.1 "shop" "cart" = Some demo_indexed_group.
Proof. apply default_found. vm_compute. reflexivity. Qed.

Lemma from_proto_serves_admitted_rules_witness :
  served demo_indexed_group
  = Some <$> sort_by newest_first
      (omap (prepared_of (reg_map demo_indexed.2) "http://self" (mkRouteKey (Name "shop") (Name "cart")))
         demo_rules)
  ∧ length (served demo_indexed_group) = 3.
Proof.
  pose proof (from_proto_serves_admitted_rules (mkRoutingTable demo_rules 1) None
    (registry_new demo_config) "http://self" "shop" "cart" (registry_new_wf demo_config)) as Hw.
  fold demo_indexed in Hw. rewrite demo_indexed_found in Hw.
  split; [apply Hw|vm_compute; reflexivity].
Defined.

Lemma from_proto_groups_wf_witness : group_wf demo_indexed_group.
Proof.
  apply (from_proto_groups_wf (mkRoutingTable demo_rules 1) None (registry_new demo_config)
    "http://self" "shop" "cart" demo_indexed_group (registry_new_wf demo_config) demo_indexed_found).
Defined.
End demo.
