(* ===== verification/RoutingCache.v ===== *)
(** * The cached routing table and its synchronisation (wr-proxy/src/routing.rs)

    A [CachedRoutingTable] couples the published snapshot, the breaker registry
    and the evidence of the last synchronisation. [replace] runs under the
    refresh mutex but requests go on between its three critical sections
    (preparing the index, swapping the snapshot, evicting breakers), so it is
    also given as three steps that interleave with requests. The manager's
    answers, the clock and repinning come from the environment. *)

From stdpp Require Import pretty.
From S2P Require Import Prelude RustStr Lists Externals Models Identity CircuitBreaker Http IndexedRouting.

(** [tonic::Code]. *)
Inductive Code : Type :=
| OkCode | Cancelled | Unknown | InvalidArgument | DeadlineExceeded | NotFound | AlreadyExists
| PermissionDenied | ResourceExhausted | FailedPrecondition | Aborted | OutOfRange
| Unimplemented | Internal | Unavailable | DataLoss | Unauthenticated.

#[global] Instance Code_eq_dec : EqDecision Code.
Proof. solve_decision. Defined.

Record Status : Type := mkStatus { st_code : Code; st_message : string }.

Definition is_transport_failure (status : Status) : bool :=
  match st_code status with
  | Cancelled | Unknown | DeadlineExceeded | Unavailable => true
  | _ => false
  end.

Section cache.
Context `{SL : SemverLib, HL : HttpLib, FL : FailsafeLib}.

Record RoutingSyncObservation : Type := mkObservation {
  ob_installed_version : Z;
  ob_last_success : Z;
  ob_manager_id : string;
}.

Record CachedRoutingTable : Type := mkCached {
  ct_table : IndexedRoutingTable;
  ct_observation : option RoutingSyncObservation;
  ct_registry : CircuitBreakerRegistry;
  ct_self_peer_address : string;
}.

Definition cached_new (config : CircuitBreakerConfig) (self_peer_address : string) : CachedRoutingTable :=
  mkCached table_empty None (registry_new config) self_peer_address.

Definition cached_version (t : CachedRoutingTable) : Z := it_version (ct_table t).

Definition set_registry (t : CachedRoutingTable) (r : CircuitBreakerRegistry) : CachedRoutingTable :=
  mkCached (ct_table t) (ct_observation t) r (ct_self_peer_address t).

Definition set_table (t : CachedRoutingTable) (i : IndexedRoutingTable) : CachedRoutingTable :=
  mkCached i (ct_observation t) (ct_registry t) (ct_self_peer_address t).

Definition publish_synchronization (now : Z) (manager_id : string) (t : CachedRoutingTable) :
  CachedRoutingTable :=
  mkCached (ct_table t) (Some (mkObservation (cached_version t) now manager_id)) (ct_registry t)
    (ct_self_peer_address t).

(** ** [replace] *)

(** Up to [active_forward_addrs().clone()]: [None] when the table is not newer. *)
Definition replace_prepare (incoming : RoutingTable) (t : CachedRoutingTable) :
  option IndexedRoutingTable * CachedRoutingTable :=
  if (rt_version incoming <=? cached_version t)%Z then (None, t)
  else
    let '(indexed, registry) := from_proto incoming None (ct_registry t) (ct_self_peer_address t) in
    (Some indexed, set_registry t registry).

(** Under the write lock. *)
Definition replace_publish (incoming : RoutingTable) (indexed : IndexedRoutingTable)
  (t : CachedRoutingTable) : bool * CachedRoutingTable :=
  if (rt_version incoming <=? cached_version t)%Z then (false, t)
  else (true, set_table t (seed_counters_from indexed (ct_table t))).

Definition replace_evict (active : gset string) (t : CachedRoutingTable) : CachedRoutingTable :=
  set_registry t (evict_missing active (ct_registry t)).

Definition replace_table (incoming : RoutingTable) (t : CachedRoutingTable) : bool * CachedRoutingTable :=
  match replace_prepare incoming t with
  | (None, t) => (false, t)
  | (Some indexed, t) =>
      match replace_publish incoming indexed t with
      | (false, t) => (false, t)
      | (true, t) => (true, replace_evict (it_active_forward_addrs indexed) t)
      end
  end.

(** ** Synchronisation *)

(** [response] answers [known_version]; [now] is read after the table is in. *)
Definition sync_once (response : Z → result Status (option RoutingTable)) (manager_id : string)
  (now : Z) (t : CachedRoutingTable) : result Status () * CachedRoutingTable :=
  match response (cached_version t) with
  | Err status => (Err status, t)
  | Ok table =>
      let t := match table with Some incoming => (replace_table incoming t).2 | None => t end in
      (Ok (), publish_synchronization now manager_id t)
  end.

(** What the environment does in one round of [converge_to_version]: the clock
    at the deadline test, the pinned manager's answer, the clock at publication,
    the repin that follows a transport failure, and whether the deadline's timer
    fires before the 20 ms pause ends. *)
Record round (Epoch : Type) : Type := mkRound {
  rd_check : Z;
  rd_response : Epoch → Z → result Status (option RoutingTable);
  rd_publish : Z;
  rd_repin : Epoch → result Status Epoch;
  rd_deadline_fires : bool;
}.

Arguments mkRound {Epoch}.
Arguments rd_check {Epoch}.
Arguments rd_response {Epoch}.
Arguments rd_publish {Epoch}.
Arguments rd_repin {Epoch}.
Arguments rd_deadline_fires {Epoch}.

Definition convergence_timeout (target_version local_version : Z) : Status :=
  mkStatus DeadlineExceeded
    ("routing convergence timed out: manager version " +:+ pretty target_version
       +:+ ", local version " +:+ pretty local_version).

Section sync.
Context {Epoch : Type} (epoch_manager_id : Epoch → string).

(** The loop, one round of the environment per iteration; [None] when [rounds]
    is exhausted. *)
Fixpoint converge_to_version (rounds : list (round Epoch)) (target_version deadline : Z)
  (epoch : Epoch) (t : CachedRoutingTable) : option (result Status Z * Epoch * CachedRoutingTable) :=
  let local_version := cached_version t in
  if (target_version <=? local_version)%Z then Some (Ok local_version, epoch, t)
  else match rounds with
  | [] => None
  | rd :: rounds =>
      if (deadline <=? rd_check rd)%Z then Some (Err (convergence_timeout target_version local_version), epoch, t)
      else match sync_once (rd_response rd epoch) (epoch_manager_id epoch) (rd_publish rd) t with
      | (Err error, t) =>
          if is_transport_failure error then
            match rd_repin rd epoch with
            | Err e => Some (Err e, epoch, t)
            | Ok epoch => converge_to_version rounds target_version deadline epoch t
            end
          else Some (Err error, epoch, t)
      | (Ok _, t) =>
          if rd_deadline_fires rd
          then Some (Err (convergence_timeout target_version (cached_version t)), epoch, t)
          else converge_to_version rounds target_version deadline epoch t
      end
  end.

(** One tick of [sync_routing_table]; [pin] is the answer of [discovery.pin]. *)
Definition sync_tick (pin : option Epoch) (rd : round Epoch) (epoch : option Epoch)
  (t : CachedRoutingTable) : option Epoch * CachedRoutingTable :=
  let epoch := match epoch with Some e => Some e | None => pin end in
  match epoch with
  | None => (None, t)
  | Some retained =>
      match sync_once (rd_response rd retained) (epoch_manager_id retained) (rd_publish rd) t with
      | (Ok _, t) => (Some retained, t)
      | (Err error, t) =>
          if is_transport_failure error then
            match rd_repin rd retained with
            | Ok replacement => (Some replacement, t)
            | Err _ => (None, t)
            end
          else (Some retained, t)
      end
  end.
End sync.
End cache.

(** ** Counters of a published snapshot *)

Section counters.
Context `{SL : SemverLib, HL : HttpLib, FL : FailsafeLib}.

(** [fetch_add(1)] on the counter of a selection: all versions, or one group. *)
Definition bump_counter (which : option nat) (g : RouteGroup) : RouteGroup :=
  match which with
  | None => mkRouteGroup (rg_namespace g) (rg_module g) (rg_namespace_header g) (rg_module_header g)
      (rg_candidates g) (rg_version_groups g) (usize_wrapping_add (rg_all_versions_counter g) 1)
  | Some k => mkRouteGroup (rg_namespace g) (rg_module g) (rg_namespace_header g) (rg_module_header g)
      (rg_candidates g)
      (alter (λ vg, set_vg_counter vg (usize_wrapping_add (vg_counter vg) 1)) k (rg_version_groups g))
      (rg_all_versions_counter g)
  end.

Definition table_bump (namespace module : string) (which : option nat) (t : IndexedRoutingTable) :
  IndexedRoutingTable :=
  mkIndexedRoutingTable (alter (alter (bump_counter which) module) namespace (it_by_namespace t))
    (it_active_forward_addrs t) (it_version t).

(** ** Requests between the critical sections of a refresh *)

Inductive refresh : Type :=
| Idle
| Prepared (incoming : RoutingTable) (indexed : IndexedRoutingTable)
| Published (active : gset string).

Inductive cache_step : refresh * CachedRoutingTable → refresh * CachedRoutingTable → Prop :=
| step_stale incoming t t' :
    replace_prepare incoming t = (None, t') → cache_step (Idle, t) (Idle, t')
| step_prepare incoming indexed t t' :
    replace_prepare incoming t = (Some indexed, t') →
    cache_step (Idle, t) (Prepared incoming indexed, t')
| step_publish incoming indexed t t' :
    replace_publish incoming indexed t = (true, t') →
    cache_step (Prepared incoming indexed, t) (Published (it_active_forward_addrs indexed), t')
| step_publish_stale incoming indexed t t' :
    replace_publish incoming indexed t = (false, t') →
    cache_step (Prepared incoming indexed, t) (Idle, t')
| step_replace_evict active t :
    cache_step (Published active, t) (Idle, replace_evict active t)
| step_synchronized phase now manager_id t :
    cache_step (phase, t) (phase, publish_synchronization now manager_id t)
| step_select phase namespace module which t :
    cache_step (phase, t) (phase, set_table t (table_bump namespace module which (ct_table t)))
| step_ask phase now b t p r' :
    is_call_permitted now b (ct_registry t) = Some (p, r') →
    cache_step (phase, t) (phase, set_registry t r')
| step_report_success phase now b t r' :
    on_success now b (ct_registry t) = Some r' → cache_step (phase, t) (phase, set_registry t r')
| step_report_error phase now b t r' :
    on_error now b (ct_registry t) = Some r' → cache_step (phase, t) (phase, set_registry t r').
End counters.

(** ** Facts *)

Section cache_facts.
Context `{SL : SemverLib, HL : HttpLib, FL : FailsafeLib}.

Lemma seed_counters_get t prev ns m :
  table_get (seed_counters_from t prev) ns m
  = seed_from (table_get prev ns m) <$> table_get t ns m.
Proof.
  set (p := table_get prev ns m). unfold seed_counters_from, table_get. simpl.
  rewrite map_lookup_imap.
  destruct (it_by_namespace t !! ns) as [modules|]; simpl; [|done].
  rewrite map_lookup_imap. by destruct (modules !! m).
Qed.

Lemma table_bump_get ns m which t ns' m' :
  table_get (table_bump ns m which t) ns' m'
  = (if decide (ns = ns' ∧ m = m') then bump_counter which else id) <$> table_get t ns' m'.
Proof.
  unfold table_get, table_bump. simpl. rewrite lookup_alter.
  destruct (decide (ns = ns')) as [<-|Hns].
  - destruct (it_by_namespace t !! ns) as [modules|]; simpl; [|done]. rewrite lookup_alter.
    destruct (decide (m = m')) as [<-|Hm]; [by rewrite decide_True|].
    rewrite decide_False by naive_solver. by rewrite option_fmap_id.
  - rewrite decide_False by naive_solver. by rewrite option_fmap_id.
Qed.

Lemma bump_counter_wf which g : group_wf g → group_wf (bump_counter which g).
Proof.
  apply group_wf_ext; [by destruct which|]. destruct which as [k|]; [|done].
  by apply fmap_alter_same.
Qed.

(** *** The invariant of a cache between any two critical sections *)

Record group_ok (r : CircuitBreakerRegistry) (active : gset string) (ns m : string)
  (g : RouteGroup) : Prop := {
  go_wf : group_wf g;
  go_valid : valid_name ns ∧ valid_name m;
  go_namespace : rg_namespace g = ns;
  go_module : rg_module g = m;
  go_namespace_header : header_from_str ns = Some (rg_namespace_header g);
  go_module_header : header_from_str m = Some (rg_module_header g);
  go_registered c : c ∈ rg_candidates g → destination_address (ic_destination c) ≠ "" →
    candidate_registered r c ∧ destination_address (ic_destination c) ∈ active;
}.

Definition table_ok (r : CircuitBreakerRegistry) (t : IndexedRoutingTable) : Prop :=
  ∀ ns m g, table_get t ns m = Some g → group_ok r (it_active_forward_addrs t) ns m g.

Definition cache_wf (s : refresh * CachedRoutingTable) : Prop :=
  registry_wf (ct_registry s.2) ∧ table_ok (ct_registry s.2) (ct_table s.2)
  ∧ match s.1 with
    | Idle => True
    | Prepared _ indexed => table_ok (ct_registry s.2) indexed
    | Published active => active = it_active_forward_addrs (ct_table s.2)
    end.

Lemma group_ok_mono r r' active ns m g :
  (∀ a e, a ∈ active → reg_map r !! a = Some e → reg_map r' !! a = Some e) →
  group_ok r active ns m g → group_ok r' active ns m g.
Proof.
  intros Hr Hg. destruct Hg as [? ? ? ? ? ? Hreg]. split; [done..|].
  intros c Hc Ha. destruct (Hreg c Hc Ha) as [H1 H2]. split; [by apply Hr|done].
Qed.

Lemma table_ok_mono r r' t :
  (∀ a e, a ∈ it_active_forward_addrs t → reg_map r !! a = Some e → reg_map r' !! a = Some e) →
  table_ok r t → table_ok r' t.
Proof. intros Hr Ht ns m g Hg. eapply group_ok_mono; [exact Hr|]. by apply Ht. Qed.

Lemma group_ok_counters r active ns m g g' :
  rg_namespace g' = rg_namespace g → rg_module g' = rg_module g →
  rg_namespace_header g' = rg_namespace_header g → rg_module_header g' = rg_module_header g →
  rg_candidates g' = rg_candidates g → (group_wf g → group_wf g') →
  group_ok r active ns m g → group_ok r active ns m g'.
Proof.
  intros Hn Hm Hnh Hmh Hc Hwf [? ? ? ? ? ? ?]. split; rewrite ?Hn, ?Hm, ?Hnh, ?Hmh, ?Hc; auto.
Qed.

Lemma table_ok_seed r t prev : table_ok r t → table_ok r (seed_counters_from t prev).
Proof.
  intros Ht ns m g. rewrite seed_counters_get. intros (g0 & Hg & ->)%fmap_Some.
  apply Ht in Hg. destruct (table_get prev ns m) as [p|]; [|done].
  apply (group_ok_counters _ _ _ _ g0); [done..| |exact Hg]. apply seed_group_counters_wf.
Qed.

Lemma table_ok_bump r t ns m which : table_ok r t → table_ok r (table_bump ns m which t).
Proof.
  intros Ht ns' m' g. rewrite table_bump_get. intros (g0 & Hg & ->)%fmap_Some. apply Ht in Hg.
  case_decide; [|done]. apply (group_ok_counters _ _ _ _ g0); [by destruct which..| |exact Hg].
  apply bump_counter_wf.
Qed.

Lemma table_ok_from_proto incoming prev r self :
  registry_wf r → table_ok (from_proto incoming prev r self).2 (from_proto incoming prev r self).1.
Proof.
  intros Hr ns m g Hg. destruct (from_proto_group _ _ _ _ _ _ _ Hr Hg) as (cs & _ & ? & _ & ? & ? & ? & ? & ?).
  split; [done..|]. intros c Hc Ha.
  destruct (from_proto_registered _ _ _ _ _ _ _ _ Hr Hg Hc) as [? Hact]. split; [done|by apply Hact].
Qed.

Lemma from_proto_keeps incoming prev r self a e :
  reg_map r !! a = Some e → reg_map (from_proto incoming prev r self).2 !! a = Some e.
Proof.
  intros He. eapply (proj1 (map_subseteq_spec _ _)
    (prepare_rules_mono self (rt_rules incoming) (mkPrepared r ∅ ∅))), He.
Qed.

Lemma cache_wf_registry phase t r' :
  registry_wf r' → reg_map r' = reg_map (ct_registry t) →
  cache_wf (phase, t) → cache_wf (phase, set_registry t r').
Proof.
  intros Hr Hm (_ & Ht & Hp). unfold cache_wf. simpl in *.
  assert (∀ i, table_ok (ct_registry t) i → table_ok r' i) as Hmono.
  { intros i. apply table_ok_mono. by rewrite Hm. }
  split; [done|]. split; [by apply Hmono|]. destruct phase; auto.
Qed.

Lemma cache_step_wf s s' : cache_step s s' → cache_wf s → cache_wf s'.
Proof.
  destruct 1 as [incoming t t' E|incoming indexed t t' E|incoming indexed t t' E
    |incoming indexed t t' E|active t|phase now mid t|phase ns m which t|phase now b t p r' E
    |phase now b t r' E|phase now b t r' E]; intros Hs.
  - unfold replace_prepare in E. destruct (_ <=? _)%Z; [by injection E as <-|].
    by destruct (from_proto _ _ _ _).
  - unfold replace_prepare in E. destruct (_ <=? _)%Z; [done|].
    destruct Hs as (Hr & Ht & _). simpl in Hr, Ht.
    pose proof (table_ok_from_proto incoming None (ct_registry t) (ct_self_peer_address t) Hr) as Hnew.
    pose proof (from_proto_keeps incoming None (ct_registry t) (ct_self_peer_address t)) as Hk.
    pose proof (from_proto_registry_wf incoming None (ct_registry t) (ct_self_peer_address t) Hr) as Hr'.
    destruct (from_proto _ _ _ _) as [ix r']. injection E as <- <-. simpl in *.
    split; [done|]. split; [|done]. eapply table_ok_mono; [|exact Ht]. auto.
  - unfold replace_publish in E. destruct (_ <=? _)%Z; [done|]. injection E as <-.
    destruct Hs as (Hr & _ & Hix). simpl in *. split; [done|]. split; [by apply table_ok_seed|done].
  - unfold replace_publish in E. destruct (_ <=? _)%Z; [|done]. injection E as <-.
    by destruct Hs as (? & ? & _).
  - destruct Hs as (Hr & Ht & Hact). simpl in *. unfold cache_wf; simpl.
    split; [by apply evict_missing_wf|]. split; [|done]. eapply table_ok_mono; [|exact Ht].
    intros a e Ha He. simpl. apply map_lookup_filter_Some. subst active. by split.
  - exact Hs.
  - destruct Hs as (Hr & Ht & Hp). unfold cache_wf; simpl in *. split; [done|].
    split; [by apply table_ok_bump|]. by destruct phase.
  - destruct (is_call_permitted_total now b (ct_registry t)) as (? & ? & E' & Hm & _ & Hwf).
    simplify_eq. apply cache_wf_registry; [apply Hwf, Hs|done|done].
  - destruct (on_success_total now b (ct_registry t)) as (? & E' & Hm & _ & Hwf).
    simplify_eq. apply cache_wf_registry; [apply Hwf, Hs|done|done].
  - apply on_error_follows in E as (Hm & _ & Hwf). apply cache_wf_registry; [apply Hwf, Hs|done|done].
Qed.

Lemma cached_new_wf config self : cache_wf (Idle, cached_new config self).
Proof. split; [apply registry_new_wf|]. split; [by intros ???|done]. Qed.

Lemma cache_reachable_wf config self s :
  rtc cache_step (Idle, cached_new config self) s → cache_wf s.
Proof.
  intros Hs. pose proof (cached_new_wf config self) as Hwf.
  induction Hs; eauto using cache_step_wf.
Qed.

(** A cache never changes the configuration of its breakers. *)
Lemma resolve_config r addr class : reg_config (resolve r addr class).2 = reg_config r.
Proof. unfold resolve. by destruct (reg_map r !! addr). Qed.

Lemma prepare_rules_config self rules st :
  reg_config (p_registry (foldl (prepare_rule self) st rules)) = reg_config (p_registry st).
Proof.
  revert st. induction rules as [|rule rules IH]; intros st; simpl; [done|]. rewrite IH. clear IH.
  unfold prepare_rule.
  destruct (negb (healthy rule)), (str_is_empty (peer_address rule)); try done.
  destruct (route_key_parse _ _); [|done]. destruct (version_parse _); [|done].
  destruct (header_from_str _); [|done].
  pose proof (resolve_config (p_registry st) (destination_address (make_destination rule self))
    (destination_class (make_destination rule self))) as Hc.
  by destruct (resolve _ _ _) as [[b|e] r].
Qed.

Lemma cache_step_config s s' :
  cache_step s s' → reg_config (ct_registry s'.2) = reg_config (ct_registry s.2).
Proof.
  destruct 1 as [incoming t t' E|incoming indexed t t' E|incoming indexed t t' E
    |incoming indexed t t' E|active t|phase now mid t|phase ns m which t|phase now b t p r' E
    |phase now b t r' E|phase now b t r' E]; try done.
  1,2: unfold replace_prepare in E; destruct (_ <=? _)%Z; [by simplify_eq|];
    unfold from_proto in E; simplify_eq; simpl; by rewrite prepare_rules_config.
  1,2: unfold replace_publish in E; destruct (_ <=? _)%Z; by simplify_eq.
  - destruct (is_call_permitted_total now b (ct_registry t)) as (? & ? & E' & _ & Hc & _).
    by simplify_eq.
  - destruct (on_success_total now b (ct_registry t)) as (? & E' & _ & Hc & _). by simplify_eq.
  - by apply on_error_follows in E as (_ & Hc & _).
Qed.

Lemma cache_reachable_config config self s :
  rtc cache_step (Idle, cached_new config self) s → reg_config (ct_registry s.2) = config.
Proof.
  intros Hs. assert (reg_config (ct_registry (Idle, cached_new config self).2) = config) as Hc by done.
  revert Hs Hc. generalize (Idle, cached_new config self). intros s0 Hs.
  induction Hs as [|s1 s2 s3 Hstep _ IH]; [done|]. intros Hc. apply IH.
  by rewrite (cache_step_config _ _ Hstep).
Qed.

Lemma cache_candidate s ns m g c :
  cache_wf s → table_get (ct_table s.2) ns m = Some g → c ∈ rg_candidates g →
  destination_address (ic_destination c) ≠ "" → candidate_registered (ct_registry s.2) c.
Proof. intros (_ & Ht & _) Hg Hc Ha. by apply (go_registered _ _ _ _ _ (Ht _ _ _ Hg)). Qed.

Lemma candidate_registered_inj r c c' :
  candidate_registered r c → candidate_registered r c' →
  destination_address (ic_destination c') = destination_address (ic_destination c) →
  ic_breaker c' = ic_breaker c
  ∧ destination_class (ic_destination c') = destination_class (ic_destination c).
Proof. unfold candidate_registered. intros H1 H2 E. rewrite E, H1 in H2. by injection H2 as -> ->. Qed.

(** *** Replacing the snapshot *)

Lemma replace_table_spec incoming t :
  replace_table incoming t =
  if (rt_version incoming <=? cached_version t)%Z then (false, t)
  else
    let i := from_proto incoming None (ct_registry t) (ct_self_peer_address t) in
    (true, mkCached (seed_counters_from i.1 (ct_table t)) (ct_observation t)
             (evict_missing (it_active_forward_addrs i.1) i.2) (ct_self_peer_address t)).
Proof.
  unfold replace_table, replace_prepare, replace_publish.
  destruct (rt_version incoming <=? cached_version t)%Z eqn:Hv; [done|].
  destruct (from_proto _ _ _ _) as [i r]. change (cached_version (set_registry t r)) with (cached_version t).
  by rewrite Hv.
Qed.

Lemma replace_table_version incoming t :
  cached_version (replace_table incoming t).2 = Z.max (cached_version t) (rt_version incoming).
Proof.
  rewrite replace_table_spec. destruct (Z.leb_spec (rt_version incoming) (cached_version t)).
  - simpl. lia.
  - change (rt_version incoming = cached_version t `max` rt_version incoming)%Z. lia.
Qed.

(** With nothing in between, the three critical sections are [replace_table]. *)
Lemma replace_table_steps incoming t :
  rtc cache_step (Idle, t) (Idle, (replace_table incoming t).2).
Proof.
  unfold replace_table. destruct (replace_prepare incoming t) as [[indexed|] t1] eqn:Hp.
  2: { by apply rtc_once, (step_stale incoming). }
  eapply rtc_l; [by apply (step_prepare incoming)|].
  destruct (replace_publish incoming indexed t1) as [[] t2] eqn:Hb.
  2: { by apply rtc_once, (step_publish_stale incoming indexed). }
  eapply rtc_l; [by apply (step_publish incoming)|]. apply rtc_once, step_replace_evict.
Qed.

(** In every state a proxy can reach, with requests interleaved anywhere in a
    refresh, each published group is well formed, is stored under its own names,
    and each of its forwarding addresses is registered with the breaker and the
    target class of its candidate: no eviction removes a breaker in use. *)
Theorem published_groups_hold config self phase t ns m g :
  rtc cache_step (Idle, cached_new config self) (phase, t) →
  table_get (ct_table t) ns m = Some g →
  group_wf g ∧ rg_namespace g = ns ∧ rg_module g = m
  ∧ ∀ c, c ∈ rg_candidates g → destination_address (ic_destination c) ≠ "" →
    candidate_registered (ct_registry t) c.
Proof.
  intros Hs%cache_reachable_wf Hg. destruct Hs as (_ & Ht & _). simpl in Ht.
  destruct (Ht _ _ _ Hg) as [? _ ? ? _ _ Hreg]. split_and!; [done..|]. intros c Hc Ha. by apply Hreg.
Qed.

(** Breaker continuity: a refresh gives every forwarding address that the new
    snapshot still uses the breaker it had before, so failures counted before a
    refresh keep counting after it. *)
Theorem refresh_keeps_breakers config self t incoming ns m g c ns' m' g' c' :
  rtc cache_step (Idle, cached_new config self) (Idle, t) →
  table_get (ct_table t) ns m = Some g → c ∈ rg_candidates g →
  table_get (ct_table (replace_table incoming t).2) ns' m' = Some g' → c' ∈ rg_candidates g' →
  destination_address (ic_destination c') = destination_address (ic_destination c) →
  destination_address (ic_destination c) ≠ "" →
  ic_breaker c' = ic_breaker c
  ∧ destination_class (ic_destination c') = destination_class (ic_destination c).
Proof.
  intros Hwf%cache_reachable_wf Hg Hc Hg' Hc' E Hne.
  pose proof (cache_candidate _ _ _ _ _ Hwf Hg Hc Hne) as Hreg. simpl in Hreg.
  rewrite replace_table_spec in Hg'. destruct (_ <=? _)%Z; simpl in Hg'.
  - eapply (candidate_registered_inj (ct_registry t)); [done| |done].
    apply (cache_candidate (Idle, t) ns' m' g'); [done..|congruence].
  - rewrite seed_counters_get in Hg'. apply fmap_Some in Hg' as (g0 & Hg0 & ->).
    assert (c' ∈ rg_candidates g0) as Hc0 by (by destruct (table_get (ct_table t) ns' m')).
    destruct Hwf as [Hr _].
    destruct (from_proto_registered _ _ _ _ _ _ _ _ Hr Hg0 Hc0) as [Hreg' _].
    eapply candidate_registered_inj; [|exact Hreg'|done]. by apply from_proto_keeps.
Qed.

Lemma seed_version_group_counter p vg vg0 :
  NoDup (vg_version <$> rg_version_groups p) → vg0 ∈ rg_version_groups p →
  vg_version vg0 = vg_version vg → vg_counter (seed_version_group p vg) = vg_counter vg0.
Proof.
  intros Hnd Hin E. unfold seed_version_group.
  destruct (list_find _ _) as [[i vg1]|] eqn:Hf.
  - apply list_find_Some in Hf as (Hi & E1 & _). apply list_elem_of_lookup in Hin as [j Hj].
    assert (i = j) as ->; [|by simplify_eq].
    apply (proj1 (NoDup_alt _) Hnd i j (vg_version vg)); rewrite list_lookup_fmap_Some;
      [by exists vg1|by exists vg0].
  - apply list_find_None in Hf. by apply (proj1 (Forall_forall _ _) Hf) in Hin.
Qed.

Lemma replaced_counters incoming t ns m g g' :
  table_ok (ct_registry t) (ct_table t) → (cached_version t < rt_version incoming)%Z →
  table_get (ct_table t) ns m = Some g →
  table_get (ct_table (replace_table incoming t).2) ns m = Some g' →
  rg_all_versions_counter g' = rg_all_versions_counter g
  ∧ ∀ vg vg', vg ∈ rg_version_groups g → vg' ∈ rg_version_groups g' →
    vg_version vg' = vg_version vg → vg_counter vg' = vg_counter vg.
Proof.
  intros Ht Hv Hg. rewrite replace_table_spec.
  destruct (Z.leb_spec (rt_version incoming) (cached_version t)); [lia|]. simpl.
  rewrite seed_counters_get, Hg. intros (g0 & Hg0 & ->)%fmap_Some. split; [done|]. simpl.
  intros vg vg' Hvg (vg0 & -> & Hvg0)%list_elem_of_fmap E.
  injection (seed_version_group_static g vg0) as _ Hs _ _. rewrite Hs in E.
  apply seed_version_group_counter; [|done|done].
  apply (gw_unique _ (go_wf _ _ _ _ _ (Ht _ _ _ Hg))).
Qed.

(** [replace] installs exactly the tables that are newer than the snapshot and
    leaves everything untouched otherwise; an installed table continues the
    round-robin counters of every module and every version it keeps. *)
Theorem replace_installs_newer config self t incoming :
  rtc cache_step (Idle, cached_new config self) (Idle, t) →
  ((replace_table incoming t).1 = true ↔ (cached_version t < rt_version incoming)%Z)
  ∧ ((replace_table incoming t).1 = false → (replace_table incoming t).2 = t)
  ∧ ((replace_table incoming t).1 = true →
     cached_version (replace_table incoming t).2 = rt_version incoming
     ∧ ∀ ns m g g', table_get (ct_table t) ns m = Some g →
       table_get (ct_table (replace_table incoming t).2) ns m = Some g' →
       rg_all_versions_counter g' = rg_all_versions_counter g
       ∧ ∀ vg vg', vg ∈ rg_version_groups g → vg' ∈ rg_version_groups g' →
         vg_version vg' = vg_version vg → vg_counter vg' = vg_counter vg).
Proof.
  intros (_ & Ht & _)%cache_reachable_wf. simpl in Ht.
  assert ((replace_table incoming t).1 = true ↔ (cached_version t < rt_version incoming)%Z) as Hiff.
  { rewrite replace_table_spec. destruct (Z.leb_spec (rt_version incoming) (cached_version t));
      simpl; split; intros; try done; lia. }
  split; [done|]. split.
  - rewrite replace_table_spec. by destruct (_ <=? _)%Z.
  - intros Hv%Hiff. split; [rewrite replace_table_version; lia|].
    intros ns m g g'. by apply replaced_counters.
Qed.

(** *** Synchronisation *)

Lemma sync_once_version response mid now t :
  (cached_version t ≤ cached_version (sync_once response mid now t).2)%Z.
Proof.
  unfold sync_once. destruct (response (cached_version t)) as [[incoming|]|e]; [|done..].
  change (cached_version t ≤ cached_version (replace_table incoming t).2)%Z.
  rewrite replace_table_version. lia.
Qed.

(** C28. Convergence: whatever the managers answer, the installed version never goes
    back; the loop reports success only with an installed version of at least
    the target, which is the one it returns; and it returns once a round finds
    the deadline passed. *)
Theorem converge_to_version_correct {Epoch} (mid : Epoch → string) rounds target deadline epoch t :
  (∀ res epoch' t', converge_to_version mid rounds target deadline epoch t = Some (res, epoch', t') →
     (cached_version t ≤ cached_version t')%Z
     ∧ ∀ v, res = Ok v → v = cached_version t' ∧ (target ≤ v)%Z)
  ∧ (Exists (λ rd, (deadline ≤ rd_check _ rd)%Z) rounds →
     is_Some (converge_to_version mid rounds target deadline epoch t)).
Proof.
  revert epoch t. induction rounds as [|rd rounds IH]; intros epoch t; simpl.
  { split; [|by intros ?%Exists_nil]. intros res epoch' t'.
    destruct (Z.leb_spec target (cached_version t)); [|done].
    intros [= <- <- <-]. split; [lia|]. intros v [= <-]. by split. }
  destruct (Z.leb_spec target (cached_version t)) as [Ht|Ht].
  { split; [|done]. intros res epoch' t' [= <- <- <-]. split; [lia|]. intros v [= <-]. by split. }
  destruct (Z.leb_spec deadline (rd_check _ rd)) as [Hd|Hd].
  { split; [|done]. intros res epoch' t' [= <- <- <-]. by split; [lia|]. }
  rewrite Exists_cons.
  pose proof (sync_once_version (rd_response _ rd epoch) (mid epoch) (rd_publish _ rd) t) as Hmono.
  destruct (sync_once _ _ _ t) as [[u|e] t1]; simpl in Hmono.
  - destruct (rd_deadline_fires _ rd).
    { split; [|done]. intros res epoch' t' [= <- <- <-]. by split. }
    destruct (IH epoch t1) as [IH1 IH2]. split; [|intros [?|?]; [lia|auto]].
    intros res epoch' t' H. destruct (IH1 _ _ _ H). split; [lia|done].
  - destruct (is_transport_failure e).
    2: { split; [|done]. intros res epoch' t' [= <- <- <-]. by split. }
    destruct (rd_repin _ rd epoch) as [epoch1|e1].
    2: { split; [|done]. intros res epoch' t' [= <- <- <-]. by split. }
    destruct (IH epoch1 t1) as [IH1 IH2]. split; [|intros [?|?]; [lia|auto]].
    intros res epoch' t' H. destruct (IH1 _ _ _ H). split; [lia|done].
Qed.

(** A race at the deadline: when the deadline's timer fires during the pause
    that follows the synchronisation which installed the target version, the
    loop reports a timeout although the snapshot has converged. *)
Theorem converged_round_can_time_out {Epoch} (mid : Epoch → string) rd rounds target deadline
  epoch t incoming :
  (cached_version t < target)%Z → rt_version incoming = target → (rd_check _ rd < deadline)%Z →
  rd_response _ rd epoch (cached_version t) = Ok (Some incoming) → rd_deadline_fires _ rd = true →
  ∃ t', converge_to_version mid (rd :: rounds) target deadline epoch t
        = Some (Err (convergence_timeout target target), epoch, t')
    ∧ cached_version t' = target.
Proof.
  intros Hv Hi Hd Hresp Hf. simpl. unfold sync_once. rewrite Hresp, Hf.
  destruct (Z.leb_spec target (cached_version t)); [lia|].
  destruct (Z.leb_spec deadline (rd_check _ rd)); [lia|].
  set (t1 := publish_synchronization _ _ _).
  assert (cached_version t1 = target) as Ht1.
  { change (cached_version (replace_table incoming t).2 = target). rewrite replace_table_version. lia. }
  exists t1. by rewrite Ht1.
Qed.
End cache_facts.

(** ** Concrete instances of the theorems *)

Section demo.
#[local] Existing Instances toy_semver toy_http toy_failsafe.

Definition demo_cache : CachedRoutingTable :=
  (replace_table (mkRoutingTable demo_rules 1) (cached_new demo_config "http://self")).2.

Lemma demo_cache_reachable : rtc cache_step (Idle, cached_new demo_config "http://self") (Idle, demo_cache).
Proof. apply replace_table_steps. Qed.

Definition demo_group : RouteGroup := default no_group (table_get (ct_table demo_cache) "shop" "cart").

Lemma demo_group_found : table_get (ct_table demo_cache) "shop" "cart" = Some demo_group.
Proof. apply default_found. vm_compute. reflexivity. Qed.

Definition no_candidate : IndexedCandidate := mkIndexedCandidate (destination_local "") 0 0.

Definition demo_candidate : IndexedCandidate := default no_candidate (rg_candidates demo_group !! 1).

Lemma demo_candidate_served : demo_candidate ∈ rg_candidates demo_group.
Proof. apply (list_elem_of_lookup_2 _ 1), default_found. vm_compute. reflexivity. Qed.

Lemma published_groups_hold_witness : rg_namespace demo_group = "shop" ∧ rg_module demo_group = "cart".
Proof.
  destruct (published_groups_hold demo_config "http://self" Idle demo_cache "shop" "cart" demo_group
    demo_cache_reachable demo_group_found) as (_ & H1 & H2 & _).
  split; [exact H1|exact H2].
Defined.

(** The next version of the same table keeps the breakers. *)
Definition demo_next : RoutingTable := mkRoutingTable demo_rules 2.

Definition demo_next_group : RouteGroup :=
  default no_group (table_get (ct_table (replace_table demo_next demo_cache).2) "shop" "cart").

Lemma demo_next_group_found :
  table_get (ct_table (replace_table demo_next demo_cache).2) "shop" "cart" = Some demo_next_group.
Proof. apply default_found. vm_compute. reflexivity. Qed.

Definition demo_next_candidate : IndexedCandidate :=
  default no_candidate (rg_candidates demo_next_group !! 1).

Lemma demo_next_candidate_served : demo_next_candidate ∈ rg_candidates demo_next_group.
Proof. apply (list_elem_of_lookup_2 _ 1), default_found. vm_compute. reflexivity. Qed.

Lemma refresh_keeps_breakers_witness : ic_breaker demo_next_candidate = ic_breaker demo_candidate.
Proof.
  apply (refresh_keeps_breakers demo_config "http://self" demo_cache demo_next
    "shop" "cart" demo_group demo_candidate "shop" "cart" demo_next_group demo_next_candidate
    demo_cache_reachable demo_group_found demo_candidate_served
    demo_next_group_found demo_next_candidate_served).
  - vm_compute. reflexivity.
  - vm_compute. discriminate.
Defined.

Lemma replace_installs_newer_witness :
  (replace_table demo_next demo_cache).1 = true ↔ (cached_version demo_cache < rt_version demo_next)%Z.
Proof.
  apply (replace_installs_newer demo_config "http://self" demo_cache demo_next demo_cache_reachable).
Defined.

Lemma converged_round_can_time_out_witness :
  ∃ t', converge_to_version (λ _ : unit, "m1")
          [mkRound unit 0 (λ _ _, Ok (Some demo_next)) 0 (λ e, Ok e) true] 2 10 () demo_cache
        = Some (Err (convergence_timeout 2 2), (), t') ∧ cached_version t' = 2%Z.
Proof.
  apply (converged_round_can_time_out (λ _ : unit, "m1")
    (mkRound unit 0 (λ _ _, Ok (Some demo_next)) 0 (λ e, Ok e) true) [] 2 10 () demo_cache demo_next);
    vm_compute; reflexivity.
Defined.

End demo.
