(* ===== verification/Layers.v ===== *)
(** * Requests, responses and layers of the proxy (wr-proxy/src/layers)

    A Tower layer either answers a request itself or passes a rewritten request
    to the inner service; every layer here calls its inner service in tail
    position, so a layer is a function to that choice. The text of an error
    response is kept as its template and arguments. *)

From S2P Require Import Prelude RustStr Lists Externals Models Identity CircuitBreaker Http IndexedRouting.

(** [http::StatusCode] values the layers use. *)
Definition BAD_REQUEST : Z := 400.
Definition FORBIDDEN : Z := 403.
Definition NOT_FOUND : Z := 404.
Definition PAYLOAD_TOO_LARGE : Z := 413.
Definition UNSUPPORTED_MEDIA_TYPE : Z := 415.
Definition TOO_MANY_REQUESTS : Z := 429.
Definition INTERNAL_SERVER_ERROR : Z := 500.
Definition SERVICE_UNAVAILABLE : Z := 503.

Definition is_server_error (status : Z) : bool := (500 <=? status)%Z && (status <? 600)%Z.

(** The bodies of the responses the layers make up. *)
Inductive message : Type :=
| MsgVersionNotText
| MsgInvalidRequirement (text : string)
| MsgMalformedDestination
| MsgDestinationNoHost
| MsgMissingNamespace (host : string)
| MsgInvalidInternal (host : string) (error : name_error)
| MsgNoRouteFor (host : string)
| MsgNoRouteModule (namespace module : string)
| MsgNoRouteVersion (namespace module requirement : string)
| MsgEgressNotConfigured
| MsgEgressNotAllowed (host : string)
| MsgCircuitOpen
| MsgForwardFailed
| MsgNoPublicRoute
| MsgInvalidRpcPath
| MsgMissingSchemaIdentity
| MsgBodyTooLarge
| MsgBodyUnreadable
| MsgUnsupportedMedia
| MsgRpcNotInSchema
| MsgSchemaUnavailable
| MsgSchemaValidation (representation : string).

(** [domain_matches] of layers/egress.rs. [prefix[..len - 1]] drops the dot. *)
Definition domain_matches (pattern host : string) : bool :=
  if negb (str_contains "*" pattern) then String.eqb pattern host
  else match strip_prefix "*." pattern with
  | None => false
  | Some suffix =>
      match strip_suffix suffix host with
      | Some prefix =>
          bool_decide (2 ≤ String.length prefix)
          && is_some_and (str_last prefix) (λ c, char_eqb c ".")
          && negb (str_contains "." (str_take (String.length prefix - 1) prefix))
      | None => false
      end
  end.

Section layers.
Context `{SL : SemverLib, HL : HttpLib, FL : FailsafeLib}.

Record ExternalEgress : Type := mkExternalEgress { ee_host : string; ee_dest_uri : Uri }.

Inductive http_version : Type := HTTP_11 | HTTP_2.

(** The frames of a streaming body and whether the stream ends in an error. *)
Record Body : Type := mkBody { body_frames : list string; body_fails : bool }.

Definition body_full (bytes : string) : Body := mkBody [bytes] false.

(** A request with the two extensions the layers set. *)
Record Request : Type := mkRequest {
  rq_method : string;
  rq_uri : Uri;
  rq_version : http_version;
  rq_headers : HeaderMap;
  rq_body : Body;
  rq_route : option ResolvedRoute;
  rq_egress : option ExternalEgress;
}.

Inductive response_body : Type := BodyMessage (m : message) | BodyStream (b : Body).

Record Response : Type := mkResponse {
  rs_status : Z;
  rs_headers : HeaderMap;
  rs_body : response_body;
}.

Definition error_response (status : Z) (msg : message) : Response :=
  mkResponse status hm_new (BodyMessage msg).

(** What a layer does with a request. *)
Inductive layer_result : Type :=
| Respond (r : Response)
| Call (r : Request).

Definition set_headers (r : Request) (h : HeaderMap) : Request :=
  mkRequest (rq_method r) (rq_uri r) (rq_version r) h (rq_body r) (rq_route r) (rq_egress r).
Definition set_uri (r : Request) (u : Uri) : Request :=
  mkRequest (rq_method r) u (rq_version r) (rq_headers r) (rq_body r) (rq_route r) (rq_egress r).
Definition set_route (r : Request) (x : option ResolvedRoute) : Request :=
  mkRequest (rq_method r) (rq_uri r) (rq_version r) (rq_headers r) (rq_body r) x (rq_egress r).
Definition set_egress (r : Request) (x : option ExternalEgress) : Request :=
  mkRequest (rq_method r) (rq_uri r) (rq_version r) (rq_headers r) (rq_body r) (rq_route r) x.
Definition set_body (r : Request) (b : Body) : Request :=
  mkRequest (rq_method r) (rq_uri r) (rq_version r) (rq_headers r) b (rq_route r) (rq_egress r).
Definition set_version (r : Request) (v : http_version) : Request :=
  mkRequest (rq_method r) (rq_uri r) v (rq_headers r) (rq_body r) (rq_route r) (rq_egress r).
End layers.

(** ** Domain patterns *)

(** A host label: not empty, no dot. *)
Definition label (s : string) : Prop := s ≠ "" ∧ str_contains "." s = false.

Lemma str_last_snoc s c : str_last (s +:+ String c "") = Some c.
Proof.
  induction s as [|x s IH]; [done|]. rewrite str_app_cons. simpl. rewrite IH. by destruct s.
Qed.

Lemma str_take_length s : str_take (String.length s) s = s.
Proof. induction s as [|c s IH]; [done|]. simpl. by rewrite IH. Qed.

Lemma str_last_split s c :
  str_last s = Some c → s = str_take (String.length s - 1) s +:+ String c "".
Proof.
  induction s as [|x s IH]; [done|]. destruct s as [|y s]; [by intros [= ->]|].
  change (str_last (String x (String y s))) with (str_last (String y s)). intros Hl%IH.
  change (String.length (String x (String y s)) - 1) with (S (String.length s)).
  cbn [String.length] in Hl. rewrite Nat.sub_succ, Nat.sub_0_r in Hl.
  change (str_take (S (String.length s)) (String x (String y s)))
    with (String x (str_take (String.length s) (String y s))).
  rewrite str_app_cons. by rewrite <-Hl.
Qed.

Lemma one_label_prefix p :
  bool_decide (2 ≤ String.length p) && is_some_and (str_last p) (λ c, char_eqb c ".")
  && negb (str_contains "." (str_take (String.length p - 1) p)) = true
  ↔ ∃ l, label l ∧ p = l +:+ ".".
Proof.
  rewrite !andb_true_iff, bool_decide_eq_true, negb_true_iff. split.
  - intros [[Hl Hlast] Hdot]. destruct (str_last p) as [c|] eqn:Hp; [|done].
    apply str_last_split in Hp. apply char_eqb_true in Hlast. subst c.
    exists (str_take (String.length p - 1) p). split; [|done]. split; [|done].
    intros E. apply (f_equal String.length) in E. rewrite str_length_take in E. simpl in E. lia.
  - intros (l & [Hne Hdot] & ->). rewrite str_length_app, str_last_snoc. simpl.
    replace (String.length l + 1 - 1) with (String.length l) by lia.
    rewrite str_take_app by done. rewrite str_take_length. split; [|done]. split; [|done].
    destruct l; [done|]. simpl. lia.
Qed.

(** An allowlist pattern matches exactly itself, or, with a leading wildcard
    label, exactly the hosts with one non-empty label in place of the star: never
    the bare domain and never a deeper subdomain. *)
Theorem domain_matches_spec pattern host :
  domain_matches pattern host = true ↔
  (str_contains "*" pattern = false ∧ pattern = host)
  ∨ ∃ suffix l, pattern = "*." +:+ suffix ∧ label l ∧ host = l +:+ "." +:+ suffix.
Proof.
  unfold domain_matches. destruct (str_contains "*" pattern) eqn:Hstar; cbn [negb].
  - destruct (strip_prefix "*." pattern) as [suffix|] eqn:Hp.
    + apply strip_prefix_Some in Hp as ->. destruct (strip_suffix suffix host) as [p|] eqn:Hs.
      * apply strip_suffix_Some in Hs as ->. rewrite one_label_prefix. split.
        -- intros (l & Hl & ->). right. exists suffix, l. by rewrite str_app_assoc.
        -- intros [[? _]|(suffix' & l & E & Hl & Hh)]; [done|].
           apply str_app_inj_l in E as <-. exists l. split; [done|].
           rewrite <-str_app_assoc in Hh. by apply str_app_inj_r in Hh.
      * split; [done|]. intros [[? _]|(suffix' & l & E & Hl & ->)]; [done|].
        apply str_app_inj_l in E as <-.
        assert (strip_suffix suffix (l +:+ "." +:+ suffix) = Some (l +:+ ".")) as E.
        { apply strip_suffix_Some. by rewrite str_app_assoc. }
        congruence.
    + split; [done|]. intros [[? _]|(suffix & l & -> & _)]; [done|].
      assert (strip_prefix "*." ("*." +:+ suffix) = Some suffix) as E by by apply strip_prefix_Some.
      congruence.
  - rewrite String.eqb_eq. split; [by left|]. intros [[_ ?]|(suffix & l & -> & _)]; [done|].
    rewrite str_contains_app in Hstar. done.
Qed.
