(* ===== verification/RouteSelect.v ===== *)
(** * Routing layer (wr-proxy/src/layers/routing.rs)

    Version selection, round robin over permitted breakers, classification of a
    destination as internal, external or rejected, and the layer's handler. A
    request reads one snapshot of the table; it changes the snapshot's counters
    and, by asking for permission, the breakers. An index out of range panics
    in Rust and is [None] here. *)

From S2P Require Import Prelude RustStr Lists Externals Models Identity CircuitBreaker Http IndexedRouting RoutingCache Layers.

Section select.
Context `{SL : SemverLib, HL : HttpLib, FL : FailsafeLib}.

Inductive RequestedVersion : Type :=
| Unpinned
| Requirement (selector : VersionReq) (raw : HeaderValue).

Record SelectedCandidate : Type := mkSelected {
  sc_route : ResolvedRoute;
  sc_version : string;
  sc_version_header : HeaderValue;
}.

Inductive RouteOutcome : Type :=
| Internal (namespace module : string) (namespace_header module_header : HeaderValue)
    (selected : SelectedCandidate)
| External (host : string) (dest_uri : Uri)
| Reject (status : Z) (msg : message).

Definition parse_requested_version (value : option HeaderValue) : result message RequestedVersion :=
  match value with
  | None => Ok Unpinned
  | Some raw =>
      match header_to_str raw with
      | None => Err MsgVersionNotText
      | Some text =>
          match req_parse text with
          | None => Err (MsgInvalidRequirement text)
          | Some selector => Ok (Requirement selector raw)
          end
      end
  end.

(** ** Round robin *)

(** The loop over [eligible_indexes]; [now i] is the instant at which the breaker
    of candidate [i] is asked. *)
Fixpoint permitted_indexes (now : nat → Z) (candidates : list IndexedCandidate)
  (eligible : list nat) (registry : CircuitBreakerRegistry) :
  option (list nat * CircuitBreakerRegistry) :=
  match eligible with
  | [] => Some ([], registry)
  | index :: rest =>
      candidate ← candidates !! index;
      '(permitted, registry) ← is_call_permitted (now index) (ic_breaker candidate) registry;
      '(indexes, registry) ← permitted_indexes now candidates rest registry;
      Some (if (permitted : bool) then index :: indexes else indexes, registry)
  end.

(** The element that slot number [slot] stands for. *)
Definition at_slot (l : list nat) (slot : Z) : option nat :=
  l !! Z.to_nat (slot `mod` Z.of_nat (length l)).

(** The chosen index, the counter and the registry afterwards. *)
Definition choose_candidate (now : nat → Z) (group : RouteGroup) (eligible : list nat) (counter : Z)
  (registry : CircuitBreakerRegistry) : option (option nat * Z * CircuitBreakerRegistry) :=
  match eligible with
  | [] => Some (None, counter, registry)
  | _ =>
      '(permitted, registry) ← permitted_indexes now (rg_candidates group) eligible registry;
      let slot := counter in
      let counter := usize_wrapping_add counter 1 in
      match permitted with
      | [] => Some (at_slot eligible slot, counter, registry)
      | _ => Some (at_slot permitted slot, counter, registry)
      end
  end.

Definition set_all_versions_counter (g : RouteGroup) (n : Z) : RouteGroup :=
  mkRouteGroup (rg_namespace g) (rg_module g) (rg_namespace_header g) (rg_module_header g)
    (rg_candidates g) (rg_version_groups g) n.

Definition set_version_counter (g : RouteGroup) (k : nat) (n : Z) : RouteGroup :=
  mkRouteGroup (rg_namespace g) (rg_module g) (rg_namespace_header g) (rg_module_header g)
    (rg_candidates g) (alter (λ vg, set_vg_counter vg n) k (rg_version_groups g))
    (rg_all_versions_counter g).

(** The index of the candidate that [select_candidate] picks. *)
Definition select_index (now : nat → Z) (group : RouteGroup) (requested : RequestedVersion)
  (registry : CircuitBreakerRegistry) : option (option nat * RouteGroup * CircuitBreakerRegistry) :=
  match requested with
  | Unpinned =>
      '(chosen, counter, registry) ← choose_candidate now group
        (seq 0 (length (rg_candidates group))) (rg_all_versions_counter group) registry;
      Some (chosen, set_all_versions_counter group counter, registry)
  | Requirement selector _ =>
      match list_find (λ vg, req_matches selector (vg_parsed_version vg) = true)
              (rg_version_groups group) with
      | None => Some (None, group, registry)
      | Some (k, vg) =>
          '(chosen, counter, registry) ← choose_candidate now group
            (vg_candidate_indexes vg) (vg_counter vg) registry;
          Some (chosen, set_version_counter group k counter, registry)
      end
  end.

Definition selected_of (group : RouteGroup) (index : nat) : option SelectedCandidate :=
  candidate ← rg_candidates group !! index;
  version_group ← rg_version_groups group !! ic_version_group_index candidate;
  Some (mkSelected (mkResolvedRoute (ic_destination candidate) (ic_breaker candidate))
          (vg_version version_group) (vg_version_header version_group)).

Definition select_candidate (now : nat → Z) (group : RouteGroup) (requested : RequestedVersion)
  (registry : CircuitBreakerRegistry) :
  option (option SelectedCandidate * RouteGroup * CircuitBreakerRegistry) :=
  '(chosen, group, registry) ← select_index now group requested registry;
  match chosen with
  | None => Some (None, group, registry)
  | Some index => selected ← selected_of group index; Some (Some selected, group, registry)
  end.

(** ** Classification *)

Definition classify_external_host (host : string) (allowed : list string) : result message string :=
  match allowed with
  | [] => Err (MsgNoRouteFor host)
  | _ =>
      let host_lc := to_ascii_lowercase host in
      if existsb (λ pattern, domain_matches pattern host_lc) allowed then Ok host_lc
      else Err (MsgNoRouteFor host)
  end.

Definition external_or (host : string) (allowed : list string) (uri : Uri)
  (rejected : message → RouteOutcome) : RouteOutcome :=
  match classify_external_host host allowed with
  | Ok host => External host uri
  | Err msg => rejected msg
  end.

Definition set_group (t : IndexedRoutingTable) (namespace module : string) (g : RouteGroup) :
  IndexedRoutingTable :=
  mkIndexedRoutingTable (alter (alter (λ _, g) module) namespace (it_by_namespace t))
    (it_active_forward_addrs t) (it_version t).

(** [raw.to_str().expect("validated version header")]. *)
Definition no_candidate_message (group : RouteGroup) (requested : RequestedVersion) : option message :=
  match requested with
  | Requirement _ raw =>
      text ← header_to_str raw; Some (MsgNoRouteVersion (rg_namespace group) (rg_module group) text)
  | Unpinned => Some (MsgNoRouteModule (rg_namespace group) (rg_module group))
  end.

Definition route_destination (now : nat → Z) (table : IndexedRoutingTable) (allowed : list string)
  (dest_uri : option Uri) (requested : RequestedVersion) (registry : CircuitBreakerRegistry) :
  option (RouteOutcome * IndexedRoutingTable * CircuitBreakerRegistry) :=
  let done outcome := Some (outcome, table, registry) in
  match dest_uri with
  | None => done (Reject BAD_REQUEST MsgMalformedDestination)
  | Some uri =>
  match uri_host uri with
  | None | Some EmptyString => done (Reject BAD_REQUEST MsgDestinationNoHost)
  | Some host =>
  match split_once "." host with
  | None => done (external_or host allowed uri (λ _, Reject BAD_REQUEST (MsgMissingNamespace host)))
  | Some (namespace, module) =>
  if str_contains "." module
  then done (external_or host allowed uri (Reject SERVICE_UNAVAILABLE))
  else match route_key_validate namespace module with
  | Err error => done (Reject BAD_REQUEST (MsgInvalidInternal host error))
  | Ok _ =>
  match table_get table namespace module with
  | None => done (external_or host allowed uri (Reject SERVICE_UNAVAILABLE))
  | Some group =>
      '(selected, group', registry) ← select_candidate now group requested registry;
      outcome ← match selected with
                | Some selected => Some (Internal (rg_namespace group) (rg_module group)
                    (rg_namespace_header group) (rg_module_header group) selected)
                | None => Reject SERVICE_UNAVAILABLE <$> no_candidate_message group requested
                end;
      Some (outcome, set_group table namespace module group', registry)
  end end end end end.

(** ** The layer *)

Definition inject_routing_headers (req : Request) (namespace module version : HeaderValue) : Request :=
  let headers := hm_insert (rq_headers req) WR_NAMESPACE namespace in
  let headers := hm_insert headers WR_MODULE module in
  let headers := hm_insert headers WR_VERSION version in
  set_headers req headers.

Definition with_egress (allowed_domains : list string) : list string :=
  to_ascii_lowercase <$> allowed_domains.

Definition routing_call (now : nat → Z) (allowed : list string) (req : Request)
  (table : IndexedRoutingTable) (registry : CircuitBreakerRegistry) :
  option (layer_result * IndexedRoutingTable * CircuitBreakerRegistry) :=
  match parse_requested_version (hm_get (rq_headers req) WR_VERSION) with
  | Err msg => Some (Respond (error_response BAD_REQUEST msg), table, registry)
  | Ok requested =>
      let dest_uri := header_text (rq_headers req) WR_DESTINATION ≫= uri_parse in
      '(outcome, table, registry) ← route_destination now table allowed dest_uri requested registry;
      Some (match outcome with
            | Internal _ _ namespace_header module_header selected =>
                Call (set_route (inject_routing_headers req namespace_header module_header
                        (sc_version_header selected)) (Some (sc_route selected)))
            | External host dest_uri =>
                Call (set_egress req (Some (mkExternalEgress host dest_uri)))
            | Reject status msg => Respond (error_response status msg)
            end, table, registry)
  end.
End select.

(** ** Facts *)

Section select_facts.
Context `{SL : SemverLib, HL : HttpLib, FL : FailsafeLib}.

(** *** Slots *)

Lemma at_slot_elem l slot : l ≠ [] → ∃ i, at_slot l slot = Some i ∧ i ∈ l.
Proof.
  intros Hl. unfold at_slot.
  assert (0 < Z.of_nat (length l))%Z as Hn by (destruct l; [done|simpl; lia]).
  pose proof (Z.mod_pos_bound slot _ Hn).
  destruct (lookup_lt_is_Some_2 l (Z.to_nat (slot `mod` Z.of_nat (length l)))) as [i Hi]; [lia|].
  exists i. split; [done|]. by eapply list_elem_of_lookup_2.
Qed.

Lemma slot_window_inj n c i j :
  (0 < n)%Z → (0 ≤ i < n)%Z → (0 ≤ j < n)%Z → ((c + i) `mod` n = (c + j) `mod` n)%Z → i = j.
Proof.
  intros Hn Hi Hj E.
  pose proof (Z.div_mod (c + i) n ltac:(lia)) as Ei. pose proof (Z.div_mod (c + j) n ltac:(lia)) as Ej.
  rewrite E in Ei. revert Ei Ej. generalize ((c + i) / n)%Z ((c + j) / n)%Z ((c + j) `mod` n)%Z.
  intros a b r Ei Ej. destruct (Z.lt_trichotomy a b) as [?|[->|?]]; [nia|lia|nia].
Qed.

(** Round robin is fair: any window of as many consecutive slots as there are
    eligible (or permitted) candidates serves each of them exactly once. *)
Theorem round_robin_window_fair l c :
  (λ k, at_slot l (c + Z.of_nat k)) <$> seq 0 (length l) ≡ₚ Some <$> l.
Proof.
  destruct (decide (l = [])) as [->|Hl]; [done|].
  set (n := Z.of_nat (length l)). assert (0 < n)%Z as Hn by (destruct l; [done|unfold n; simpl; lia]).
  set (f := λ k, Z.to_nat ((c + Z.of_nat k) `mod` n)).
  assert (f <$> seq 0 (length l) ≡ₚ seq 0 (length l)) as Hperm.
  { apply submseteq_length_Permutation; [|by rewrite length_fmap].
    apply NoDup_submseteq.
    - apply NoDup_fmap_2_strong; [|apply NoDup_seq].
      intros i j Hi%elem_of_seq Hj%elem_of_seq E. unfold f in E.
      pose proof (Z.mod_pos_bound (c + Z.of_nat i) n Hn).
      pose proof (Z.mod_pos_bound (c + Z.of_nat j) n Hn).
      apply Z2Nat.inj in E; [|lia..]. apply slot_window_inj in E; unfold n in *; lia.
    - intros x (k & -> & Hk)%list_elem_of_fmap. apply elem_of_seq. unfold f.
      pose proof (Z.mod_pos_bound (c + Z.of_nat k) n Hn). unfold n in *. lia. }
  assert ((λ k, at_slot l (c + Z.of_nat k)) <$> seq 0 (length l) = (l !!.) <$> (f <$> seq 0 (length l))) as ->.
  { rewrite <-list_fmap_compose. done. }
  rewrite Hperm. clear. assert (∀ a b : list (option nat), a = b → a ≡ₚ b) as Heq by by intros ?? ->.
  apply Heq, list_eq. intros i.
  rewrite !list_lookup_fmap. destruct (decide (i < length l)) as [Hi|Hi].
  - rewrite lookup_seq_lt by done. simpl. by destruct (lookup_lt_is_Some_2 l i Hi) as [x ->].
  - rewrite (proj2 (lookup_ge_None _ _)) by (rewrite length_seq; lia).
    by rewrite (proj2 (lookup_ge_None l _)) by lia.
Qed.

(** *** Asking the breakers *)

Lemma permitted_indexes_total now cands eligible r :
  Forall (λ i, i < length cands) eligible →
  ∃ p r', permitted_indexes now cands eligible r = Some (p, r') ∧ p ⊆ eligible.
Proof.
  revert r. induction eligible as [|i rest IH]; intros r Hin; simpl; [by exists [], r|].
  apply Forall_cons in Hin as [Hi Hin].
  destruct (lookup_lt_is_Some_2 cands i Hi) as [c Hc]. rewrite Hc. simpl.
  destruct (is_call_permitted_total (now i) (ic_breaker c) r) as (b & r1 & -> & _). simpl.
  destruct (IH r1 Hin) as (p & r' & -> & Hp). simpl. eexists _, r'. split; [done|].
  destruct b; set_solver.
Qed.

Lemma choose_candidate_total now g eligible counter r :
  Forall (λ i, i < length (rg_candidates g)) eligible → eligible ≠ [] →
  ∃ i permitted r', permitted_indexes now (rg_candidates g) eligible r = Some (permitted, r')
    ∧ choose_candidate now g eligible counter r = Some (Some i, usize_wrapping_add counter 1, r')
    ∧ i ∈ eligible ∧ (permitted ≠ [] → i ∈ permitted).
Proof.
  intros Hin Hne. destruct (permitted_indexes_total now _ _ r Hin) as (p & r' & Hp & Hsub).
  unfold choose_candidate. destruct eligible as [|e rest]; [done|].
  rewrite Hp. simpl. destruct p as [|x xs].
  - destruct (at_slot_elem (e :: rest) counter Hne) as (i & -> & Hi).
    exists i, [], r'. by split_and!.
  - destruct (at_slot_elem (x :: xs) counter ltac:(done)) as (i & -> & Hi).
    exists i, (x :: xs), r'. split_and!; [done..|by apply Hsub|done].
Qed.

(** *** Selecting in a well-formed group *)

Lemma group_all_eligible g :
  group_wf g → Forall (λ i, i < length (rg_candidates g)) (seq 0 (length (rg_candidates g)))
               ∧ seq 0 (length (rg_candidates g)) ≠ [].
Proof.
  intros Hg. split.
  - apply Forall_forall. intros i Hi%elem_of_seq. lia.
  - pose proof (gw_nonempty _ Hg). by destruct (rg_candidates g).
Qed.

Lemma group_version_eligible g k vg i :
  group_wf g → rg_version_groups g !! k = Some vg → i ∈ vg_candidate_indexes vg →
  ∃ c, rg_candidates g !! i = Some c ∧ ic_version_group_index c = k.
Proof.
  intros Hg Hvg Hi. destruct (gw_indexes _ Hg k vg Hvg) as [_ E]. rewrite E in Hi.
  apply elem_of_positions in Hi as (c & Hc & Hk%Nat.eqb_eq). by exists c.
Qed.

Lemma group_version_eligible_all g k vg :
  group_wf g → rg_version_groups g !! k = Some vg →
  Forall (λ i, i < length (rg_candidates g)) (vg_candidate_indexes vg).
Proof.
  intros Hg Hvg. apply Forall_forall. intros i Hi.
  destruct (group_version_eligible g k vg i Hg Hvg Hi) as (c & Hc & _). by eapply lookup_lt_Some.
Qed.

Lemma set_version_counter_bump g k vg :
  rg_version_groups g !! k = Some vg →
  set_version_counter g k (usize_wrapping_add (vg_counter vg) 1) = bump_counter (Some k) g.
Proof.
  intros Hvg. unfold set_version_counter, bump_counter. f_equal.
  apply list_eq. intros j. rewrite !list_lookup_alter. case_decide; [|done]. by rewrite Hvg.
Qed.

(** What [select_index] does in a well-formed group: it picks a candidate and
    counts, or it finds no matching version and changes nothing. *)
Inductive selection (g : RouteGroup) (r : CircuitBreakerRegistry) (now : nat → Z) :
  RequestedVersion → option nat → RouteGroup → CircuitBreakerRegistry → Prop :=
| selection_any i permitted r' :
    permitted_indexes now (rg_candidates g) (seq 0 (length (rg_candidates g))) r = Some (permitted, r') →
    i < length (rg_candidates g) → (permitted ≠ [] → i ∈ permitted) →
    selection g r now Unpinned (Some i) (bump_counter None g) r'
| selection_version selector raw k vg i permitted r' :
    rg_version_groups g !! k = Some vg → req_matches selector (vg_parsed_version vg) = true →
    (∀ j vg', rg_version_groups g !! j = Some vg' → j < k →
       req_matches selector (vg_parsed_version vg') ≠ true) →
    permitted_indexes now (rg_candidates g) (vg_candidate_indexes vg) r = Some (permitted, r') →
    i ∈ vg_candidate_indexes vg → (permitted ≠ [] → i ∈ permitted) →
    selection g r now (Requirement selector raw) (Some i) (bump_counter (Some k) g) r'
| selection_none selector raw :
    (∀ vg, vg ∈ rg_version_groups g → req_matches selector (vg_parsed_version vg) ≠ true) →
    selection g r now (Requirement selector raw) None g r.

Lemma select_index_spec now g requested r :
  group_wf g → ∃ chosen g' r', select_index now g requested r = Some (chosen, g', r')
    ∧ selection g r now requested chosen g' r'.
Proof.
  intros Hg. destruct requested as [|selector raw]; simpl.
  - destruct (group_all_eligible g Hg) as [Hall Hne].
    destruct (choose_candidate_total now g _ (rg_all_versions_counter g) r Hall Hne)
      as (i & p & r' & Hp & -> & Hi & Hperm).
    eexists _, _, _. split; [done|]. apply elem_of_seq in Hi.
    by apply (selection_any _ _ _ i p); [|lia|].
  - destruct (list_find _ _) as [[k vg]|] eqn:Hf.
    + apply list_find_Some in Hf as (Hk & Hm & Hmin).
      destruct (choose_candidate_total now g _ (vg_counter vg) r
        (group_version_eligible_all g k vg Hg Hk) (proj1 (gw_indexes _ Hg k vg Hk)))
        as (i & p & r' & Hp & -> & Hi & Hperm).
      eexists _, _, _. split; [done|]. rewrite (set_version_counter_bump _ _ _ Hk).
      by eapply selection_version.
    + apply list_find_None in Hf. eexists _, _, _. split; [done|]. apply selection_none.
      intros vg Hvg. by apply (proj1 (Forall_forall _ _) Hf).
Qed.

Lemma selected_of_bump which g i : selected_of (bump_counter which g) i = selected_of g i.
Proof.
  destruct which as [k|]; [|done]. unfold selected_of. simpl.
  destruct (rg_candidates g !! i) as [c|]; [|done]. simpl. rewrite list_lookup_alter.
  case_decide as E; [|done]. rewrite <-E. by destruct (rg_version_groups g !! k).
Qed.

Lemma selected_of_total g i :
  group_wf g → i < length (rg_candidates g) → ∃ c vg,
    rg_candidates g !! i = Some c ∧ rg_version_groups g !! ic_version_group_index c = Some vg
    ∧ selected_of g i = Some (mkSelected (mkResolvedRoute (ic_destination c) (ic_breaker c))
                                (vg_version vg) (vg_version_header vg)).
Proof.
  intros Hg Hi. destruct (lookup_lt_is_Some_2 _ _ Hi) as [c Hc].
  destruct (gw_candidate _ Hg i c Hc) as (vg & Hvg & _). exists c, vg.
  unfold selected_of. rewrite Hc. simpl. by rewrite Hvg.
Qed.

Lemma selected_of_candidate g i selected :
  selected_of g i = Some selected →
  ∃ c, c ∈ rg_candidates g ∧ sc_route selected = mkResolvedRoute (ic_destination c) (ic_breaker c).
Proof.
  unfold selected_of. destruct (rg_candidates g !! i) as [c|] eqn:Hc; [|done]. simpl.
  destruct (rg_version_groups g !! _) as [vg|]; [|done]. intros [= <-]. exists c.
  split; [by eapply list_elem_of_lookup_2|done].
Qed.

Lemma select_candidate_spec now g requested r :
  group_wf g → ∃ chosen g' r', select_candidate now g requested r
      = Some (chosen ≫= selected_of g, g', r')
    ∧ selection g r now requested chosen g' r' ∧ (is_Some chosen → is_Some (chosen ≫= selected_of g)).
Proof.
  intros Hg. destruct (select_index_spec now g requested r Hg) as (chosen & g' & r' & Hs & Hsel).
  exists chosen, g', r'. unfold select_candidate. rewrite Hs. simpl.
  destruct chosen as [i|]; simpl; [|by split_and!; [..|intros []%is_Some_None]].
  assert (i < length (rg_candidates g) ∧ selected_of g' i = selected_of g i) as [Hi ->].
  { inversion Hsel; subst; rewrite selected_of_bump; split; try done.
    by eapply (proj1 (Forall_forall _ _) (group_version_eligible_all g _ _ Hg ltac:(eassumption))). }
  destruct (selected_of_total g i Hg Hi) as (c & vg & _ & _ & ->). simpl. eauto.
Qed.

(** The candidates a request may be sent to. *)
Definition eligible (g : RouteGroup) (requested : RequestedVersion) : list nat :=
  match requested with
  | Unpinned => seq 0 (length (rg_candidates g))
  | Requirement selector _ =>
      match list_find (λ vg, req_matches selector (vg_parsed_version vg) = true) (rg_version_groups g) with
      | Some (_, vg) => vg_candidate_indexes vg
      | None => []
      end
  end.

(** Selection in a well-formed group never panics. It picks an eligible
    candidate whenever there is one, every eligible breaker is asked, and the
    candidate comes from those whose breaker permits the call unless none does. *)
Theorem selection_prefers_permitted now g requested r :
  group_wf g →
  ∃ permitted r' chosen g',
    permitted_indexes now (rg_candidates g) (eligible g requested) r = Some (permitted, r')
    ∧ select_index now g requested r = Some (chosen, g', r')
    ∧ match chosen with
      | None => eligible g requested = []
      | Some i => i ∈ eligible g requested ∧ (permitted ≠ [] → i ∈ permitted)
                  ∧ is_Some (selected_of g i)
      end.
Proof.
  intros Hg. destruct (select_index_spec now g requested r Hg) as (chosen & g' & r' & Hs & Hsel).
  rewrite Hs. destruct Hsel as [i p r' Hp Hi Hperm|selector raw k vg i p r' Hk Hm Hmin Hp Hi Hperm
    |selector raw Hnone]; simpl.
  - exists p, r', (Some i), (bump_counter None g). split_and!; [done..| |done|].
    + apply elem_of_seq. lia.
    + destruct (selected_of_total g i Hg Hi) as (c & vg & _ & _ & ->). done.
  - assert (list_find (λ vg, req_matches selector (vg_parsed_version vg) = true)
      (rg_version_groups g) = Some (k, vg)) as ->.
    { apply list_find_Some. split_and!; [done..|]. intros j vg' Hj Hlt. by eapply Hmin. }
    exists p, r', (Some i), (bump_counter (Some k) g). split_and!; [done..|].
    destruct (group_version_eligible g k vg i Hg Hk Hi) as (c & Hc & _).
    destruct (selected_of_total g i Hg) as (? & ? & _ & _ & ->); [by eapply lookup_lt_Some|done].
  - assert (list_find (λ vg, req_matches selector (vg_parsed_version vg) = true)
      (rg_version_groups g) = None) as ->.
    { apply list_find_None, Forall_forall. exact Hnone. }
    by exists [], r, None, g.
Qed.

Lemma newest_match g k vg :
  group_wf g → rg_version_groups g !! k = Some vg →
  ∀ (P : Version → Prop) j vg', rg_version_groups g !! j = Some vg' → P (vg_parsed_version vg') →
  (∀ i vg0, rg_version_groups g !! i = Some vg0 → i < k → ¬ P (vg_parsed_version vg0)) →
  version_cmp (vg_parsed_version vg') (vg_parsed_version vg) ≠ Gt.
Proof.
  intros Hg Hk P j vg' Hj HP Hmin.
  destruct (Nat.lt_trichotomy j k) as [Hlt|[->|Hlt]].
  - by destruct (Hmin j vg' Hj Hlt).
  - replace vg' with vg by congruence. by rewrite (proj2 (version_cmp_eq _ _) eq_refl).
  - eapply StronglySorted_lookup in Hlt; [..|exact (gw_sorted _ Hg)|exact Hk|exact Hj]. done.
Qed.

(** A pinned request is served by the newest version that satisfies its
    requirement: the selected route is a candidate of a version group that
    matches, no matching group is newer, and the announced version is that
    group's. There is no selection exactly when no version matches. *)
Theorem pinned_selection_is_newest now g selector raw r :
  group_wf g →
  ∃ selected g' r', select_candidate now g (Requirement selector raw) r = Some (selected, g', r')
    ∧ match selected with
      | None => ∀ vg, vg ∈ rg_version_groups g → req_matches selector (vg_parsed_version vg) = false
      | Some s => ∃ vg c, vg ∈ rg_version_groups g ∧ c ∈ rg_candidates g
          ∧ rg_version_groups g !! ic_version_group_index c = Some vg
          ∧ s = mkSelected (mkResolvedRoute (ic_destination c) (ic_breaker c))
                  (vg_version vg) (vg_version_header vg)
          ∧ req_matches selector (vg_parsed_version vg) = true
          ∧ ∀ vg', vg' ∈ rg_version_groups g →
            req_matches selector (vg_parsed_version vg') = true →
            version_cmp (vg_parsed_version vg') (vg_parsed_version vg) ≠ Gt
      end.
Proof.
  intros Hg. destruct (select_candidate_spec now g (Requirement selector raw) r Hg)
    as (chosen & g' & r' & -> & Hsel & _).
  eexists _, g', r'. split; [done|].
  inversion Hsel as [|? ? k vg i p ? Hk Hm Hmin Hp Hi|? ? Hnone]; subst; simpl.
  2: { intros vg Hvg. apply not_true_iff_false. by apply Hnone. }
  destruct (group_version_eligible g k vg i Hg Hk Hi) as (c & Hc & Hck).
  destruct (selected_of_total g i Hg) as (c' & vg' & Hc' & Hvg' & ->); [by eapply lookup_lt_Some|].
  rewrite Hc in Hc'. injection Hc' as <-. rewrite Hck, Hk in Hvg'. injection Hvg' as <-.
  exists vg, c. rewrite Hck. split_and!;
    [by eapply list_elem_of_lookup_2|by eapply list_elem_of_lookup_2|done..|].
  intros vg' [j Hj]%list_elem_of_lookup Hm'.
  by apply (newest_match g k vg Hg Hk (λ v, req_matches selector v = true) j vg').
Qed.

(** *** Classification *)

Lemma classify_external_ok host allowed lc :
  classify_external_host host allowed = Ok lc ↔
  lc = to_ascii_lowercase host ∧ ∃ pattern, pattern ∈ allowed ∧ domain_matches pattern lc = true.
Proof.
  unfold classify_external_host. destruct allowed as [|a allowed].
  { split; [done|]. by intros (_ & p & ?%elem_of_nil & _). }
  destruct (existsb _ (a :: allowed)) eqn:He.
  - apply existsb_exists in He as (p & Hp & Hm). rewrite <-list_elem_of_In in Hp. naive_solver.
  - split; [done|]. intros (-> & p & Hp & Hm).
    assert (existsb (λ pattern, domain_matches pattern (to_ascii_lowercase host)) (a :: allowed) = true);
      [|congruence].
    apply existsb_exists. exists p. by rewrite <-list_elem_of_In.
Qed.

(** Requests carry the requirement that [parse_requested_version] accepted. *)
Definition requested_ok (requested : RequestedVersion) : Prop :=
  match requested with Unpinned => True | Requirement _ raw => is_Some (header_to_str raw) end.

Lemma parse_requested_version_ok value requested :
  parse_requested_version value = Ok requested → requested_ok requested.
Proof.
  unfold parse_requested_version. destruct value as [raw|]; [|by intros [= <-]].
  destruct (header_to_str raw) as [text|] eqn:Ht; [|done].
  destruct (req_parse text); [|done]. intros [= <-]. by exists text.
Qed.

(** What an outcome says about the request, the table and the allowlist. *)
Definition outcome_sound (table : IndexedRoutingTable) (allowed : list string)
  (dest_uri : option Uri) (outcome : RouteOutcome) : Prop :=
  match outcome with
  | Internal ns m nh mh selected => ∃ uri g i,
      dest_uri = Some uri ∧ uri_host uri = Some (ns +:+ "." +:+ m) ∧ valid_name ns ∧ valid_name m
      ∧ table_get table ns m = Some g ∧ header_from_str ns = Some nh ∧ header_from_str m = Some mh
      ∧ selected_of g i = Some selected
  | External lc uri => ∃ host,
      dest_uri = Some uri ∧ uri_host uri = Some host ∧ lc = to_ascii_lowercase host
      ∧ (∃ pattern, pattern ∈ allowed ∧ domain_matches pattern lc = true)
      ∧ ∀ ns m, host = ns +:+ "." +:+ m → str_contains "." ns = false → table_get table ns m = None
  | Reject status _ => status = BAD_REQUEST ∨ status = SERVICE_UNAVAILABLE
  end.

Lemma external_or_sound table allowed uri host rejected :
  uri_host uri = Some host →
  (∀ msg, outcome_sound table allowed (Some uri) (rejected msg)) →
  (∀ ns m, host = ns +:+ "." +:+ m → str_contains "." ns = false → table_get table ns m = None) →
  outcome_sound table allowed (Some uri) (external_or host allowed uri rejected).
Proof.
  intros Hh Hrej Hnone. unfold external_or.
  destruct (classify_external_host host allowed) as [lc|msg] eqn:Hc; [|by apply Hrej].
  apply classify_external_ok in Hc as (-> & Hp). by exists host.
Qed.

Lemma table_ok_names r t ns m g :
  table_ok r t → table_get t ns m = Some g →
  group_wf g ∧ rg_namespace g = ns ∧ rg_module g = m
  ∧ header_from_str ns = Some (rg_namespace_header g) ∧ header_from_str m = Some (rg_module_header g).
Proof. intros Ht Hg. by destruct (Ht _ _ _ Hg). Qed.

Lemma split_host ns m ns' m' :
  ns +:+ "." +:+ m = ns' +:+ "." +:+ m' → str_contains "." ns = false → str_contains "." ns' = false →
  ns = ns' ∧ m = m'.
Proof.
  intros E H1 H2.
  assert (split_once "." (ns +:+ "." +:+ m) = Some (ns, m)) as E1 by by apply split_once_Some.
  assert (split_once "." (ns' +:+ "." +:+ m') = Some (ns', m')) as E2 by by apply split_once_Some.
  rewrite E, E2 in E1. by injection E1 as -> ->.
Qed.

(** Routing never panics with a published table, and its outcome is sound. *)
Lemma route_destination_total now table allowed dest_uri requested r r0 :
  table_ok r0 table → requested_ok requested →
  ∃ outcome table' r', route_destination now table allowed dest_uri requested r
                       = Some (outcome, table', r')
    ∧ outcome_sound table allowed dest_uri outcome.
Proof.
  intros Ht Hreq. unfold route_destination.
  assert (∀ ns m g, table_get table ns m = Some g → valid_name ns ∧ valid_name m) as Hnames.
  { intros ns m g Hg. apply (go_valid _ _ _ _ _ (Ht _ _ _ Hg)). }
  destruct dest_uri as [uri|]; [|eexists _, _, _; split; [done|by left]].
  destruct (uri_host uri) as [[|hc hs]|] eqn:Hh; [eexists _, _, _; split; [done|by left]| |
    eexists _, _, _; split; [done|by left]].
  set (host := String hc hs) in *.
  destruct (split_once "." host) as [[ns m]|] eqn:Hsplit.
  2: { eexists _, _, _. split; [done|]. apply external_or_sound; [done|by left|].
       intros ns m E _. apply split_once_None in Hsplit. rewrite E in Hsplit.
       rewrite !str_contains_app in Hsplit. simpl in Hsplit. by rewrite orb_true_r in Hsplit. }
  apply split_once_Some in Hsplit as [Ehost Hns].
  destruct (str_contains "." m) eqn:Hdot.
  { eexists _, _, _. split; [done|]. apply external_or_sound; [done|by right|].
    intros ns' m' E Hns'. rewrite Ehost in E. apply (split_host ns m) in E as [<- <-]; [|done..].
    apply eq_None_ne_Some. intros g Hg. apply Hnames in Hg as [_ Hm].
    assert (str_contains "." m = false) by by apply valid_name_no_char. congruence. }
  destruct (route_key_validate ns m) as [u|e] eqn:Hv; [|eexists _, _, _; split; [done|by left]].
  destruct (table_get table ns m) as [g|] eqn:Hg.
  2: { eexists _, _, _. split; [done|]. apply external_or_sound; [done|by right|].
       intros ns' m' E Hns'. rewrite Ehost in E. by apply (split_host ns m) in E as [<- <-]. }
  destruct (table_ok_names _ _ _ _ _ Ht Hg) as (Hwf & En & Em & Hnh & Hmh).
  destruct (select_candidate_spec now g requested r Hwf) as (chosen & g' & r' & -> & Hsel & Hsome).
  simpl. destruct chosen as [i|]; simpl in *.
  - destruct (Hsome ltac:(by eexists)) as [s Hs]. rewrite Hs. simpl.
    eexists _, _, _. split; [done|]. simpl. rewrite En, Em. exists uri, g, i.
    destruct (Hnames _ _ _ Hg). split_and!; [done| |done..]. by rewrite Hh, Ehost.
  - destruct requested as [|selector raw]; simpl in *; [|destruct Hreq as [text ->]];
      (eexists _, _, _; split; [done|by right]).
Qed.

(** A destination of two labels that is not a pair of stable names (a label of
    more than 24 bytes, an upper-case letter, an underscore) is rejected as
    malformed, also when the allowlist lists exactly that domain. *)
Theorem listed_two_label_domain_rejected now table allowed uri requested r ns m :
  uri_host uri = Some (ns +:+ "." +:+ m) →
  str_contains "." ns = false → str_contains "." m = false → ¬ (valid_name ns ∧ valid_name m) →
  ∃ e, route_destination now table allowed (Some uri) requested r
       = Some (Reject BAD_REQUEST (MsgInvalidInternal (ns +:+ "." +:+ m) e), table, r).
Proof.
  intros Hh Hns Hm Hbad. unfold route_destination. rewrite Hh.
  destruct (ns +:+ "." +:+ m) as [|hc hs] eqn:E.
  { apply (f_equal String.length) in E. rewrite !str_length_app in E. simpl in E. lia. }
  assert (split_once "." (String hc hs) = Some (ns, m)) as ->.
  { rewrite <-E. by apply split_once_Some. }
  rewrite Hm. destruct (route_key_validate ns m) as [[]|e] eqn:Hv; [|by exists e].
  destruct Hbad.
  assert (route_key_parse ns m = Ok (mkRouteKey (Name ns) (Name m))) as Hp.
  { unfold route_key_parse. by rewrite Hv. }
  apply route_key_parse_ok in Hp as (_ & ? & ?). split; assumption.
Qed.

(** *** Requests as steps of the cache *)

Lemma permitted_indexes_steps now cands el phase t p r' :
  permitted_indexes now cands el (ct_registry t) = Some (p, r') →
  rtc cache_step (phase, t) (phase, set_registry t r').
Proof.
  revert t p. induction el as [|i rest IH]; intros t p; simpl.
  { intros [= <- <-]. by destruct t. }
  destruct (cands !! i) as [c|]; [|done]. simpl.
  destruct (is_call_permitted (now i) (ic_breaker c) (ct_registry t)) as [[b r1]|] eqn:Hask; [|done].
  pose proof (step_ask phase (now i) (ic_breaker c) t _ _ Hask) as Hstep. simpl.
  destruct (permitted_indexes now cands rest r1) as [[p1 r2]|] eqn:Hp; [|done].
  simpl. intros [= <- <-]. eapply rtc_l; [exact Hstep|]. exact (IH (set_registry t r1) p1 Hp).
Qed.

Lemma set_group_bump t ns m g which :
  table_get t ns m = Some g → set_group t ns m (bump_counter which g) = table_bump ns m which t.
Proof.
  unfold table_get, set_group, table_bump. intros Hg. f_equal.
  apply map_eq. intros a. rewrite !lookup_alter. case_decide as Ha; [|done]. subst a.
  destruct (it_by_namespace t !! ns) as [ms|]; [|done]. simpl in *. f_equal.
  apply map_eq. intros b. rewrite !lookup_alter. case_decide as Hb; [|done]. subst b. by rewrite Hg.
Qed.

Lemma set_group_same t ns m g : table_get t ns m = Some g → set_group t ns m g = t.
Proof.
  unfold table_get, set_group. intros Hg. destruct t as [bn act v]. simpl in *. f_equal.
  apply map_eq. intros a. rewrite lookup_alter. case_decide as Ha; [|done]. subst a.
  destruct (bn !! ns) as [ms|]; [|done]. simpl in *. f_equal.
  apply map_eq. intros b. rewrite lookup_alter. case_decide as Hb; [|done]. subst b. by rewrite Hg.
Qed.

Lemma set_table_registry t i r : set_registry (set_table t i) r = set_table (set_registry t r) i.
Proof. done. Qed.

Lemma selection_steps now g requested chosen g' r' phase t ns m :
  table_get (ct_table t) ns m = Some g →
  selection g (ct_registry t) now requested chosen g' r' →
  rtc cache_step (phase, t) (phase, set_registry (set_table t (set_group (ct_table t) ns m g')) r').
Proof.
  intros Hg Hsel. rewrite set_table_registry.
  destruct Hsel as [i p r' Hp _ _|selector raw k vg i p r' _ _ _ Hp _ _|].
  - rewrite (set_group_bump _ _ _ _ _ Hg).
    eapply rtc_r; [exact (permitted_indexes_steps now _ _ phase t p r' Hp)|].
    apply (step_select phase ns m None (set_registry t r')).
  - rewrite (set_group_bump _ _ _ _ _ Hg).
    eapply rtc_r; [exact (permitted_indexes_steps now _ _ phase t p r' Hp)|].
    apply (step_select phase ns m (Some k) (set_registry t r')).
  - rewrite (set_group_same _ _ _ _ Hg). by destruct t.
Qed.

Lemma route_destination_steps now phase t allowed dest_uri requested outcome table' r' :
  table_ok (ct_registry t) (ct_table t) →
  route_destination now (ct_table t) allowed dest_uri requested (ct_registry t)
  = Some (outcome, table', r') →
  rtc cache_step (phase, t) (phase, set_registry (set_table t table') r').
Proof.
  intros Ht. unfold route_destination.
  assert (∀ o o' : RouteOutcome, Some (o, ct_table t, ct_registry t) = Some (o', table', r') →
    rtc cache_step (phase, t) (phase, set_registry (set_table t table') r')) as Hdone.
  { intros o o' [= _ <- <-]. by destruct t. }
  destruct dest_uri as [uri|]; [|apply Hdone].
  destruct (uri_host uri) as [[|hc hs]|]; [apply Hdone| |apply Hdone].
  destruct (split_once "." (String hc hs)) as [[ns m]|]; [|apply Hdone].
  destruct (str_contains "." m); [apply Hdone|].
  destruct (route_key_validate ns m); [|apply Hdone].
  destruct (table_get (ct_table t) ns m) as [g|] eqn:Hg; [|apply Hdone].
  destruct (select_candidate_spec now g requested (ct_registry t)
    (go_wf _ _ _ _ _ (Ht _ _ _ Hg))) as (chosen & g' & r1 & -> & Hsel & _).
  simpl. destruct (match chosen ≫= selected_of g with Some _ => _ | None => _ end); [|done].
  simpl. intros [= _ <- <-]. by eapply selection_steps.
Qed.

(** Headers written by the layer replace whatever the caller sent. *)
Lemma inject_routing_headers_get req nh mh vh :
  let req' := inject_routing_headers req nh mh vh in
  hm_get_all (rq_headers req') WR_NAMESPACE = [nh]
  ∧ hm_get_all (rq_headers req') WR_MODULE = [mh]
  ∧ hm_get_all (rq_headers req') WR_VERSION = [vh].
Proof.
  unfold inject_routing_headers. simpl. by rewrite !hm_get_all_insert by done.
Qed.

(** A request the layer passes on: to a candidate of a published group with the
    headers of that group, or to an allowlisted host. *)
Definition passed_internal (t : CachedRoutingTable) (req req' : Request) : Prop :=
  ∃ ns m g i selected nh mh,
    (∃ uri, header_text (rq_headers req) WR_DESTINATION ≫= uri_parse = Some uri
       ∧ uri_host uri = Some (ns +:+ "." +:+ m) ∧ valid_name ns ∧ valid_name m)
    ∧ table_get (ct_table t) ns m = Some g ∧ selected_of g i = Some selected
    ∧ rq_route req' = Some (sc_route selected) ∧ rq_egress req' = rq_egress req
    ∧ header_from_str ns = Some nh ∧ header_from_str m = Some mh
    ∧ hm_get_all (rq_headers req') WR_NAMESPACE = [nh]
    ∧ hm_get_all (rq_headers req') WR_MODULE = [mh]
    ∧ hm_get_all (rq_headers req') WR_VERSION = [sc_version_header selected].

Definition passed_external (allowed : list string) (req req' : Request) : Prop :=
  rq_route req' = rq_route req ∧ rq_headers req' = rq_headers req
  ∧ ∃ h uri pattern, rq_egress req' = Some (mkExternalEgress (to_ascii_lowercase h) uri)
    ∧ uri_host uri = Some h ∧ pattern ∈ allowed
    ∧ domain_matches pattern (to_ascii_lowercase h) = true.

Lemma routing_call_total config self phase t now allowed req :
  rtc cache_step (Idle, cached_new config self) (phase, t) →
  ∃ res table' r', routing_call now allowed req (ct_table t) (ct_registry t) = Some (res, table', r')
    ∧ rtc cache_step (phase, t) (phase, set_registry (set_table t table') r')
    ∧ match res with
      | Respond resp => rs_status resp = BAD_REQUEST ∨ rs_status resp = SERVICE_UNAVAILABLE
      | Call req' => passed_internal t req req' ∨ passed_external allowed req req'
      end.
Proof.
  intros (_ & Ht & _)%cache_reachable_wf. simpl in Ht. unfold routing_call.
  destruct (parse_requested_version _) as [requested|msg] eqn:Hp.
  2: { eexists _, _, _. split; [done|]. split; [by destruct t|by left]. }
  apply parse_requested_version_ok in Hp.
  destruct (route_destination_total now (ct_table t) allowed
    (header_text (rq_headers req) WR_DESTINATION ≫= uri_parse) requested (ct_registry t) _ Ht Hp)
    as (outcome & table' & r' & Hr & Hs).
  rewrite Hr. simpl. eexists _, _, _. split; [done|].
  split; [by eapply route_destination_steps|].
  destruct outcome as [ns m nh mh selected|host uri|status msg]; simpl in Hs.
  - destruct Hs as (uri & g & i & Hu & Hh & Hns & Hm & Hg & Hnh & Hmh & Hsel). left.
    destruct (inject_routing_headers_get req nh mh (sc_version_header selected)) as (? & ? & ?).
    exists ns, m, g, i, selected, nh, mh. split; [by exists uri|done].
  - destruct Hs as (h & _ & Hh & -> & (pattern & Hpat & Hm) & _). right.
    split; [done|]. split; [done|]. by exists h, uri, pattern.
  - exact Hs.
Qed.

(** Without an allowlist nothing is external. *)
Lemma route_destination_no_egress now table dest_uri requested r host uri table' r' :
  route_destination now table [] dest_uri requested r ≠ Some (External host uri, table', r').
Proof.
  unfold route_destination, external_or, classify_external_host.
  destruct dest_uri as [u|]; [|done].
  destruct (uri_host u) as [[|hc hs]|]; [done| |done].
  destruct (split_once _ _) as [[ns m]|]; [|done].
  destruct (str_contains _ _); [done|].
  destruct (route_key_validate _ _); [|done].
  destruct (table_get _ _ _) as [g|]; [|done].
  destruct (select_candidate _ _ _ _) as [[[[s|] g'] r1]|]; simpl; [done| |done].
  by destruct (no_candidate_message _ _).
Qed.

(** The routing layer in any state a proxy can reach, also in the middle of a
    refresh: it never panics, its effect on the shared state is a sequence of
    the cache's steps, and it answers 400 or 503 itself, or sends the request to
    a candidate of a published group with that group's identity headers in place
    of the caller's, or marks it for an allowlisted external host. *)
Theorem routing_call_sound config self phase t now allowed req :
  rtc cache_step (Idle, cached_new config self) (phase, t) →
  ∃ res table' r', routing_call now allowed req (ct_table t) (ct_registry t) = Some (res, table', r')
    ∧ rtc cache_step (phase, t) (phase, set_registry (set_table t table') r')
    ∧ match res with
      | Respond resp => rs_status resp = BAD_REQUEST ∨ rs_status resp = SERVICE_UNAVAILABLE
      | Call req' => passed_internal t req req' ∨ passed_external allowed req req'
      end.
Proof. apply routing_call_total. Qed.
End select_facts.

(** ** Concrete instances of the theorems *)

Section demo.
#[local] Existing Instances toy_semver toy_http toy_failsafe.

Lemma demo_group_wf : group_wf demo_group.
Proof.
  destruct (cache_reachable_wf _ _ _ demo_cache_reachable) as (_ & Ht & _).
  apply (go_wf _ _ _ _ _ (Ht _ _ _ demo_group_found)).
Qed.

(** A request for [^1] goes to one of the two replicas of version 1.2.0. *)
Lemma pinned_selection_is_newest_witness :
  ∃ selected g' r', select_candidate (λ _, 0%Z) demo_group (Requirement (ReqCaret 1) "^1")
                      (ct_registry demo_cache) = Some (selected, g', r').
Proof.
  destruct (pinned_selection_is_newest (λ _, 0%Z) demo_group (ReqCaret 1) "^1"
    (ct_registry demo_cache) demo_group_wf) as (s & g' & r' & Hs & _).
  exists s, g', r'. exact Hs.
Defined.

Lemma selection_prefers_permitted_witness :
  ∃ permitted r', permitted_indexes (λ _, 0%Z) (rg_candidates demo_group)
                    (eligible demo_group Unpinned) (ct_registry demo_cache) = Some (permitted, r').
Proof.
  destruct (selection_prefers_permitted (λ _, 0%Z) demo_group Unpinned (ct_registry demo_cache)
    demo_group_wf) as (p & r' & _ & _ & Hp & _).
  exists p, r'. exact Hp.
Defined.

Definition demo_request : Request :=
  mkRequest "POST" (mkToyUri None None "/cart.Cart/Get" None) HTTP_11
    (hm_insert hm_new WR_DESTINATION "http://shop.cart/cart.Cart/Get") (body_full "") None None.

Lemma routing_call_sound_witness :
  ∃ res table' r', routing_call (λ _, 0%Z) [] demo_request (ct_table demo_cache) (ct_registry demo_cache)
                   = Some (res, table', r').
Proof.
  destruct (routing_call_sound demo_config "http://self" Idle demo_cache (λ _, 0%Z) [] demo_request
    demo_cache_reachable) as (res & table' & r' & Hr & _).
  exists res, table', r'. exact Hr.
Defined.

Definition demo_long_domain : Uri :=
  mkToyUri (Some "https") (Some "a-domain-of-more-than-24-bytes.com") "/" None.

Lemma listed_two_label_domain_rejected_witness :
  ∃ e, route_destination (λ _, 0%Z) table_empty ["a-domain-of-more-than-24-bytes.com"]
         (Some demo_long_domain)
         Unpinned (registry_new demo_config)
       = Some (Reject BAD_REQUEST (MsgInvalidInternal "a-domain-of-more-than-24-bytes.com" e),
               table_empty, registry_new demo_config).
Proof.
  apply (listed_two_label_domain_rejected (λ _, 0%Z) table_empty ["a-domain-of-more-than-24-bytes.com"]
    demo_long_domain Unpinned
    (registry_new demo_config) "a-domain-of-more-than-24-bytes" "com").
  - vm_compute. reflexivity.
  - vm_compute. reflexivity.
  - vm_compute. reflexivity.
  - intros [[[_ Hl] _] _]. vm_compute in Hl. lia.
Defined.
End demo.
