(* ===== verification/Forward.v ===== *)
(** * Forwarding: engines, peer proxies and external hosts
    (wr-proxy/src/layers/forward.rs, egress.rs)

    The two services at the bottom of the stack. The HTTP clients are the
    environment: a sent request is part of the result and the answer an
    argument. Failures of [call] itself are values of [service_error]. *)

From stdpp Require Import pretty.
From S2P Require Import Prelude RustStr Lists Externals Models Identity CircuitBreaker Http IndexedRouting RoutingCache Layers RouteSelect.

Inductive service_error : Type :=
| MissingResolvedRoute
| NotAbsoluteBase (address : string)
| InvalidUriParts
| EgressForwardFailed.

(** Which client a request is sent with. *)
Inductive client : Type := LocalClient | MtlsClient | EgressClient.

Section forward.
Context `{SL : SemverLib, HL : HttpLib, TL : !TraceLib, FL : FailsafeLib}.

(** [HeaderValue::from_static] of a visible ASCII text. *)
Definition header_static (s : string) : option HeaderValue := header_from_str s.

Definition assemble_forward_uri (target : ForwardTarget) (pq : PathAndQuery) : result service_error Uri :=
  match ft_base_uri target with
  | None => Err (NotAbsoluteBase (ft_address target))
  | Some base => match uri_set_path_and_query base pq with
                 | Some uri => Ok uri
                 | None => Err InvalidUriParts
                 end
  end.

(** ** ForwardService *)

(** The request that [call] builds from a resolved route. *)
Definition forward_headers (destination : Destination) (headers : HeaderMap) : HeaderMap :=
  match destination with
  | LocalEngine _ => strip_before_engine headers
  | RemoteProxy _ => match header_static "1" with
                     | Some one => hm_insert headers WR_VIA_PROXY one
                     | None => headers
                     end
  end.

Definition forward_request (req : Request) (resolved : ResolvedRoute) : result service_error Request :=
  let pq := default root_path_and_query (uri_path_and_query (rq_uri req)) in
  let? uri := assemble_forward_uri (destination_target (rr_destination resolved)) pq in
  Ok (set_headers (set_uri (set_route req None) uri)
        (inject_context (forward_headers (rr_destination resolved) (rq_headers req)))).

Definition forward_client (destination : Destination) : client :=
  match destination with LocalEngine _ => LocalClient | RemoteProxy _ => MtlsClient end.

Definition circuit_open_response (open_duration_secs : Z) : Response :=
  let response := error_response SERVICE_UNAVAILABLE MsgCircuitOpen in
  match header_from_str (pretty open_duration_secs) with
  | Some value => mkResponse (rs_status response) (hm_insert (rs_headers response) "retry-after" value)
                    (rs_body response)
  | None => response
  end.

Definition counts_as_failure (status : Z) : bool :=
  is_server_error status || (status =? TOO_MANY_REQUESTS)%Z.

(** What [call] did: its answer, the request it sent, the registry afterwards. *)
Record forward_result : Type := mkForwardResult {
  fr_answer : result service_error Response;
  fr_sent : option (client * Request);
  fr_registry : CircuitBreakerRegistry;
}.

(** [asked] and [answered] are the instants of the permission and of the outcome;
    [send] is the client's answer, [None] for a transport failure. The result is
    [None] when a breaker operation panics. *)
Definition forward_call (open_duration_secs : Z) (asked answered : Z)
  (send : client → Request → option Response) (req : Request) (registry : CircuitBreakerRegistry) :
  option forward_result :=
  match rq_route req with
  | None => Some (mkForwardResult (Err MissingResolvedRoute) None registry)
  | Some resolved =>
  match forward_request req resolved with
  | Err e => Some (mkForwardResult (Err e) None registry)
  | Ok forward_req =>
      '(permitted, registry) ← is_call_permitted asked (rr_breaker resolved) registry;
      if negb permitted
      then Some (mkForwardResult (Ok (circuit_open_response open_duration_secs)) None registry)
      else
        let c := forward_client (rr_destination resolved) in
        match send c forward_req with
        | Some response =>
            registry ← (if counts_as_failure (rs_status response)
                        then on_error answered (rr_breaker resolved) registry
                        else on_success answered (rr_breaker resolved) registry);
            Some (mkForwardResult (Ok response) (Some (c, forward_req)) registry)
        | None =>
            registry ← on_error answered (rr_breaker resolved) registry;
            Some (mkForwardResult (Ok (error_response SERVICE_UNAVAILABLE MsgForwardFailed))
                    (Some (c, forward_req)) registry)
        end
  end end.

(** ** EgressService *)

Record EgressConfig : Type := mkEgressConfig { allowed_domains : list string }.

Definition egress_layer_new (config : option EgressConfig) : option EgressConfig :=
  (λ c, mkEgressConfig (to_ascii_lowercase <$> allowed_domains c)) <$> config.

Definition egress_request (req : Request) (egress : ExternalEgress) : Request :=
  set_headers (set_version (set_uri req (ee_dest_uri egress)) HTTP_11)
    (inject_context (strip_before_egress (rq_headers req))).

(** The 403 answer is JSON and says so. *)
Definition egress_blocked_response (host : string) : Response :=
  let headers := match header_static "application/json" with
                 | Some value => hm_insert hm_new "content-type" value
                 | None => hm_new
                 end in
  mkResponse FORBIDDEN headers (BodyMessage (MsgEgressNotAllowed host)).

(** The answer and the request sent outside; [inner] is the rest of the stack. *)
Definition egress_call (config : option EgressConfig) (send : client → Request → option Response)
  (inner : Request → option forward_result) (req : Request) (registry : CircuitBreakerRegistry) :
  option forward_result :=
  match rq_egress req with
  | None => inner req
  | Some egress =>
      match config with
      | None => Some (mkForwardResult
                  (Ok (error_response SERVICE_UNAVAILABLE MsgEgressNotConfigured)) None registry)
      | Some cfg =>
          if negb (existsb (λ pattern, domain_matches pattern (ee_host egress)) (allowed_domains cfg))
          then Some (mkForwardResult (Ok (egress_blocked_response (ee_host egress))) None registry)
          else
            let egress_req := egress_request req egress in
            match send EgressClient egress_req with
            | Some response =>
                Some (mkForwardResult (Ok response) (Some (EgressClient, egress_req)) registry)
            | None =>
                Some (mkForwardResult (Err EgressForwardFailed) (Some (EgressClient, egress_req)) registry)
            end
      end
  end.

(** ** The internal stack (main.rs): routing, egress, forwarding *)

(** [config.egress] gives both layers their patterns. [routed] are the instants
    of the routing layer. *)
Definition internal_stack (config : option EgressConfig) (open_duration_secs : Z) (routed : nat → Z)
  (asked answered : Z) (send : client → Request → option Response) (req : Request)
  (table : IndexedRoutingTable) (registry : CircuitBreakerRegistry) :
  option (forward_result * IndexedRoutingTable) :=
  let egress_domains := default [] (allowed_domains <$> config) in
  '(res, table, registry) ← routing_call routed (with_egress egress_domains) req table registry;
  fr ← match res with
       | Respond response => Some (mkForwardResult (Ok response) None registry)
       | Call req => egress_call (egress_layer_new config) send
           (λ req, forward_call open_duration_secs asked answered send req registry) req registry
       end;
  Some (fr, table).
End forward.

(** ** Facts *)

Section forward_facts.
Context `{SL : SemverLib, HL : HttpLib, TL : !TraceLib, FL : FailsafeLib}.

(** Names the trace propagator never writes. *)
Definition not_trace (name : string) : Prop :=
  same_header "traceparent" name = false ∧ same_header "tracestate" name = false.

Lemma reserved_not_trace name : is_one_of reserved_headers name = true → not_trace name.
Proof.
  unfold is_one_of. rewrite existsb_exists. intros (r & Hin & Hs%String.eqb_eq).
  unfold not_trace, same_header. rewrite <-Hs. clear Hs.
  destruct Hin as [<-|[<-|[<-|[<-|[<-|[<-|[<-|[]]]]]]]]; done.
Qed.

Lemma inject_context_get headers name :
  not_trace name → hm_get_all (inject_context headers) name = hm_get_all headers name.
Proof. intros [H1 H2]. by apply inject_context_other. Qed.

(** What leaves for an engine or a peer. *)
Definition forward_boundary (req : Request) (destination : Destination) (sent : Request) : Prop :=
  match destination with
  | LocalEngine _ =>
      ∀ name, is_one_of [WR_DESTINATION; WR_SOURCE; WR_SOURCE_NS; WR_VIA_PROXY] name = true →
        hm_get_all (rq_headers sent) name = []
  | RemoteProxy _ => ∃ one, header_to_str one = Some "1" ∧
      hm_get_all (rq_headers sent) WR_VIA_PROXY = [one]
      ∧ ∀ name, not_trace name → same_header WR_VIA_PROXY name = false →
        hm_get_all (rq_headers sent) name = hm_get_all (rq_headers req) name
  end.

Lemma forward_request_boundary req resolved sent :
  forward_request req resolved = Ok sent →
  forward_boundary req (rr_destination resolved) sent
  ∧ rq_body sent = rq_body req ∧ rq_method sent = rq_method req.
Proof.
  unfold forward_request. rewrite rbind_ok. intros (uri & _ & [= <-]). split; [|done].
  unfold forward_boundary, forward_headers, header_static.
  destruct (rr_destination resolved); cbn [rq_headers set_headers].
  - intros name Hn. rewrite inject_context_get, strip_before_engine_get, Hn; [done|].
    apply reserved_not_trace. revert Hn. unfold is_one_of. rewrite !existsb_exists.
    intros (r & Hin & Hr). exists r. split; [|done]. revert Hin. simpl. tauto.
  - destruct (header_visible "1" eq_refl) as (one & -> & Hone). exists one. split; [done|]. split.
    + by rewrite inject_context_get, hm_get_all_insert.
    + intros name Ht Hn. by rewrite inject_context_get, hm_get_all_insert, Hn.
Qed.

Lemma egress_request_stripped req egress name :
  is_one_of reserved_headers name = true →
  hm_get_all (rq_headers (egress_request req egress)) name = [].
Proof.
  intros Hn. simpl. rewrite inject_context_get by by apply reserved_not_trace.
  by rewrite strip_before_egress_get, Hn.
Qed.

(** Circuit breaking at the forwarding service. A request leaves the proxy only
    with the permission of its breaker, which is then told the outcome exactly
    once: a transport failure, a 5xx or a 429 answer is a failure, any other
    answer a success. Without permission nothing is sent and the caller gets
    503; an unroutable request changes no breaker at all. *)
Theorem forward_call_respects_breaker secs asked answered send req r res :
  forward_call secs asked answered send req r = Some res →
  match rq_route req with
  | None => fr_sent res = None ∧ fr_registry res = r ∧ fr_answer res = Err MissingResolvedRoute
  | Some route =>
      let b := rr_breaker route in
      ∃ permitted r1, is_call_permitted asked b r = Some (permitted, r1) ∧
      match fr_sent res with
      | None => (permitted = false ∧ fr_registry res = r1
                 ∧ ∃ resp, fr_answer res = Ok resp ∧ rs_status resp = SERVICE_UNAVAILABLE)
                ∨ (fr_registry res = r ∧ is_ok (fr_answer res) = false)
      | Some (c, sent) =>
          permitted = true ∧ c = forward_client (rr_destination route)
          ∧ forward_boundary req (rr_destination route) sent
          ∧ rq_body sent = rq_body req ∧ rq_method sent = rq_method req
          ∧ match send c sent with
            | None => on_error answered b r1 = Some (fr_registry res)
                      ∧ ∃ resp, fr_answer res = Ok resp ∧ rs_status resp = SERVICE_UNAVAILABLE
            | Some resp => fr_answer res = Ok resp
                ∧ (if counts_as_failure (rs_status resp) then on_error answered b r1
                   else on_success answered b r1) = Some (fr_registry res)
            end
      end
  end.
Proof.
  unfold forward_call. destruct (rq_route req) as [route|]; [|by intros [= <-]].
  destruct (is_call_permitted_total asked (rr_breaker route) r) as (p & r1 & -> & _).
  destruct (forward_request req route) as [freq|e] eqn:Hf.
  2: { intros [= <-]. exists p, r1. split; [done|]. by right. }
  intros H. exists p, r1. split; [done|]. simpl in H. destruct p; simpl in H.
  2: { injection H as <-. left. split_and!; [done..|]. eexists. split; [done|].
       unfold circuit_open_response. by destruct (header_from_str _). }
  apply forward_request_boundary in Hf as (Hb & Hbody & Hm).
  destruct (send _ freq) as [resp|] eqn:Hs; simpl in H;
    [destruct (if counts_as_failure (rs_status resp) then _ else _) as [r2|] eqn:Hr
    |destruct (on_error _ _ _) as [r2|] eqn:Hr]; [|done| |done]; injection H as <-; simpl;
    rewrite Hs; split_and!; try done. by eexists.
Qed.

(** The service panics at most while recording a failure. *)
Lemma forward_call_total secs asked answered send req r :
  registry_wf r → (answered + from_secs (open_duration_secs (reg_config r)) < INSTANT_END)%Z →
  is_Some (forward_call secs asked answered send req r).
Proof.
  intros Hr Ha. unfold forward_call. destruct (rq_route req) as [route|]; [|by eexists].
  destruct (forward_request req route) as [freq|e]; [|by eexists].
  destruct (is_call_permitted_total asked (rr_breaker route) r) as (p & r1 & -> & _ & Hc & Hwf).
  simpl. destruct p; simpl; [|by eexists].
  assert (is_Some (on_error answered (rr_breaker route) r1)) as [r2 Hr2].
  { apply on_error_total; [by apply Hwf|]. rewrite Hc, instant_add_Some by done.
    by eexists. }
  destruct (on_success_total answered (rr_breaker route) r1) as (r3 & Hr3 & _).
  rewrite Hr2, Hr3. destruct (send _ freq) as [resp|]; [|by eexists].
  by destruct (counts_as_failure (rs_status resp)); eexists.
Qed.

Lemma forward_call_sent secs asked answered send req r res c sent :
  forward_call secs asked answered send req r = Some res → fr_sent res = Some (c, sent) →
  ∃ route, rq_route req = Some route ∧ forward_request req route = Ok sent
    ∧ c = forward_client (rr_destination route).
Proof.
  unfold forward_call. destruct (rq_route req) as [route|]; [|by intros [= <-]].
  destruct (forward_request req route) as [freq|e] eqn:Hf; [|by intros [= <-]].
  destruct (is_call_permitted_total asked (rr_breaker route) r) as (p & r1 & -> & _).
  simpl. destruct p; simpl; [|by intros [= <-]].
  destruct (send _ freq) as [resp|]; simpl;
    [destruct (if counts_as_failure (rs_status resp) then _ else _)|destruct (on_error _ _ _)];
    [|done| |done]; intros [= <-] [= <- <-]; by exists route.
Qed.

(** What the internal stack may send where. *)
Definition sent_safely (config : option EgressConfig) (t : CachedRoutingTable)
  (c : client) (sent : Request) : Prop :=
  match c with
  | EgressClient => ∃ cfg pattern host,
      config = Some cfg ∧ pattern ∈ allowed_domains cfg ∧ uri_host (rq_uri sent) = Some host
      ∧ domain_matches (to_ascii_lowercase pattern) (to_ascii_lowercase host) = true
      ∧ ∀ name, is_one_of reserved_headers name = true → hm_get_all (rq_headers sent) name = []
  | LocalClient | MtlsClient => ∃ ns m g cand base pq,
      table_get (ct_table t) ns m = Some g ∧ cand ∈ rg_candidates g
      ∧ c = forward_client (ic_destination cand)
      ∧ ft_base_uri (destination_target (ic_destination cand)) = Some base
      ∧ uri_set_path_and_query base pq = Some (rq_uri sent)
  end.

Lemma egress_call_sent config send inner req r res c sent :
  egress_call config send inner req r = Some res → fr_sent res = Some (c, sent) →
  match rq_egress req with
  | None => inner req = Some res
  | Some egress => c = EgressClient ∧ sent = egress_request req egress
      ∧ ∃ cfg, config = Some cfg
        ∧ existsb (λ p, domain_matches p (ee_host egress)) (allowed_domains cfg) = true
  end.
Proof.
  unfold egress_call. destruct (rq_egress req) as [egress|]; [|done].
  destruct config as [cfg|]; [|by intros [= <-]].
  destruct (existsb _ _) eqn:He; simpl; [|by intros [= <-]].
  destruct (send _ _); simpl; intros [= <-] [= <- <-]; eauto.
Qed.

Lemma egress_call_total config send inner req r :
  is_Some (inner req) → is_Some (egress_call config send inner req r).
Proof.
  intros Hi. unfold egress_call. destruct (rq_egress req) as [egress|]; [|done].
  destruct config as [cfg|]; [|by eexists]. destruct (negb _); [by eexists|].
  destruct (send _ _); by eexists.
Qed.

(** What the routing layer passed on is sent safely. *)
Lemma forwarded_safely config t secs asked answered send req req' r res c sent :
  rq_egress req = None → passed_internal t req req' →
  egress_call (egress_layer_new config) send
    (λ req, forward_call secs asked answered send req r) req' r = Some res →
  fr_sent res = Some (c, sent) → sent_safely config t c sent.
Proof.
  intros Hegress (ns & m & g & i & sel & nh & mh & _ & Hg & Hsel & Hr' & He' & _) Hcall Hsent.
  pose proof (egress_call_sent _ _ _ _ _ _ _ _ Hcall Hsent) as Hin. rewrite He', Hegress in Hin.
  apply forward_call_sent with (c := c) (sent := sent) in Hin as (route & Hrt & Hf & ->); [|done].
  rewrite Hr' in Hrt. injection Hrt as <-.
  destruct (selected_of_candidate _ _ _ Hsel) as (cand & Hc & Hroute'). rewrite Hroute' in Hf |- *.
  unfold forward_request in Hf. rewrite rbind_ok in Hf. destruct Hf as (u & Hu & [= <-]).
  unfold assemble_forward_uri in Hu. simpl in Hu.
  destruct (ft_base_uri _) as [base|] eqn:Hb; [|done].
  destruct (uri_set_path_and_query base _) as [u'|] eqn:Hset; [|done]. injection Hu as <-.
  simpl. destruct (ic_destination cand) as [tg|tg] eqn:Hd; simpl; exists ns, m, g, cand, base; eexists;
    rewrite Hd; by split_and!.
Qed.

Lemma egressed_safely config t send inner req req' r res c sent :
  passed_external (with_egress (default [] (allowed_domains <$> config))) req req' →
  egress_call (egress_layer_new config) send inner req' r = Some res →
  fr_sent res = Some (c, sent) → sent_safely config t c sent.
Proof.
  intros (Hr' & _ & h & uri & pattern & He' & Hh & Hpat & Hm) Hcall Hsent.
  pose proof (egress_call_sent _ _ _ _ _ _ _ _ Hcall Hsent) as Hin. rewrite He' in Hin.
  destruct Hin as (-> & -> & cfg' & Hcfg & _). unfold egress_layer_new in Hcfg.
  destruct config as [cfg|]; [|done]. simpl in Hpat.
  apply list_elem_of_fmap in Hpat as (p & -> & Hp). exists cfg, p, h. simpl.
  split_and!; [done..|]. intros name Hn.
  exact (egress_request_stripped req' (mkExternalEgress (to_ascii_lowercase h) uri) name Hn).
Qed.

(** C1. The internal stack from any state reached without a panic, as long as the
    instant of the answer plus the configured open duration is an [Instant] (the
    one addition that can panic, when the answer is a failure that opens the
    breaker): it returns, and a request without routing extensions leaves the
    proxy only to the base address of a candidate in the published table, or to
    an external host that the configured allowlist matches, without any reserved
    header. *)
Theorem internal_stack_safe config cb self phase t secs routed asked answered send req :
  rtc cache_step (Idle, cached_new cb self) (phase, t) →
  (answered + from_secs (open_duration_secs cb) < INSTANT_END)%Z →
  rq_route req = None → rq_egress req = None →
  ∃ res table', internal_stack config secs routed asked answered send req (ct_table t) (ct_registry t)
                = Some (res, table')
    ∧ ∀ c sent, fr_sent res = Some (c, sent) → sent_safely config t c sent.
Proof.
  intros Ht Hclock Hroute Hegress. unfold internal_stack.
  destruct (routing_call_total cb self phase t routed
    (with_egress (default [] (allowed_domains <$> config))) req Ht)
    as (rr & table' & r' & -> & Hsteps & Hres).
  simpl. assert (rtc cache_step (Idle, cached_new cb self)
    (phase, set_registry (set_table t table') r')) as Ht' by by etrans.
  pose proof (cache_reachable_config _ _ _ Ht') as Hcb. simpl in Hcb. rewrite <-Hcb in Hclock.
  destruct (cache_reachable_wf _ _ _ Ht') as [Hwf _]. simpl in Hwf.
  destruct rr as [resp|req']; [by eexists _, _|].
  destruct (egress_call_total (egress_layer_new config) send
    (λ req, forward_call secs asked answered send req r') req' r') as [fr Hfr].
  { by apply forward_call_total. }
  rewrite Hfr. eexists _, _. split; [done|]. intros c sent Hsent.
  destruct Hres as [Hin|Hout]; [by eapply forwarded_safely|by eapply egressed_safely].
Qed.

(** *** The mark of a peer hop *)

(** Where a layer sends a request. *)
Definition routed_to (res : layer_result) : result Response (option ResolvedRoute * option ExternalEgress) :=
  match res with
  | Respond resp => Err resp
  | Call req => Ok (rq_route req, rq_egress req)
  end.

(** The mark [x-wr-via-proxy] that a proxy puts on a request for a peer has no
    influence on the peer's routing: with and without it the routing layer makes
    the same choice among all candidates, the peer proxies included. *)
Theorem via_proxy_mark_ignored now allowed req v table r :
  (λ x, (routed_to x.1.1, x.1.2, x.2)) <$>
    routing_call now allowed (set_headers req (hm_insert (rq_headers req) WR_VIA_PROXY v)) table r
  = (λ x, (routed_to x.1.1, x.1.2, x.2)) <$> routing_call now allowed req table r.
Proof.
  unfold routing_call, header_text. cbn [rq_headers set_headers]. rewrite !hm_get_insert by done.
  change (same_header WR_VIA_PROXY WR_VERSION) with false.
  change (same_header WR_VIA_PROXY WR_DESTINATION) with false. cbn iota.
  destruct (parse_requested_version _) as [requested|msg]; [|done].
  destruct (route_destination _ _ _ _ _ _) as [[[outcome table'] r']|]; [|done].
  simpl. by destruct outcome.
Qed.
End forward_facts.

(** ** Concrete instances of the theorems *)

Section demo.
#[local] Existing Instances toy_semver toy_http toy_trace toy_failsafe.

Definition demo_egress : option EgressConfig := Some (mkEgressConfig ["*.Example.com"]).

(** The engine does not answer: the request was sent, and the failure opens its
    breaker of threshold 1. *)
Lemma internal_stack_safe_witness :
  ∃ res table', internal_stack demo_egress 30 (λ _, 0%Z) 1 2 (λ _ _, None) demo_request
                  (ct_table demo_cache) (ct_registry demo_cache) = Some (res, table')
    ∧ ∀ c sent, fr_sent res = Some (c, sent) → sent_safely demo_egress demo_cache c sent.
Proof.
  exact (internal_stack_safe demo_egress demo_config "http://self" Idle demo_cache 30 (λ _, 0%Z) 1 2
    (λ _ _, None) demo_request demo_cache_reachable eq_refl eq_refl eq_refl).
Defined.

Example demo_request_sent :
  ((λ x, (negb (bool_decide (fr_sent x.1 = None)), rs_status <$> ok (fr_answer x.1))) <$>
    internal_stack demo_egress 30 (λ _, 0%Z) 1 2 (λ _ _, None) demo_request
      (ct_table demo_cache) (ct_registry demo_cache)) = Some (true, Some SERVICE_UNAVAILABLE).
Proof. vm_compute. reflexivity. Qed.

(** Two nodes run the module. Node B, asked by a peer, forwards the request to
    node A again instead of serving it from its own engine. *)
Definition two_node_rules : list RoutingRule :=
  [mkRoutingRule "r1" "" "cart" "ea" "http://127.0.0.1:1" "1.0.0" true "" "shop" "https://a:9443";
   mkRoutingRule "r2" "" "cart" "eb" "http://127.0.0.1:1" "1.0.0" true "" "shop" "https://b:9443"].

Definition node_b : CachedRoutingTable :=
  (replace_table (mkRoutingTable two_node_rules 1) (cached_new demo_config "https://b:9443")).2.

Definition peer_request : Request :=
  set_headers demo_request (hm_insert (rq_headers demo_request) WR_VIA_PROXY "1").

Definition peer_hop : option (option string) :=
  '(res, _, _) ← routing_call (λ _, 0%Z) [] peer_request (ct_table node_b) (ct_registry node_b);
  match res with
  | Call req => Some (route ← rq_route req;
      match rr_destination route with RemoteProxy t => Some (ft_address t) | LocalEngine _ => None end)
  | Respond _ => None
  end.

Example peer_request_hops_again : peer_hop = Some (Some "https://a:9443").
Proof. vm_compute. reflexivity. Qed.
End demo.
