(* ===== verification/Ingress.v ===== *)
(** * Public ingress (wr-proxy/src/config.rs, layers/ingress.rs)

    Validated public routes, the index over their patterns and the ingress
    layer, which strips reserved headers and rewrites a public request into a
    call of the configured RPC. The pattern router is [matchit]. *)

From S2P Require Import Prelude RustStr Lists Externals Models Identity CircuitBreaker Http IndexedRouting RoutingCache Layers RouteSelect Forward.

(** ** Route configuration *)

Inductive route_error : Type :=
| PathNotAbsolute
| InvalidPattern (path : string)
| InvalidMethod (method : string)
| InvalidRpcPath
| InvalidTarget (e : name_error).

Inductive MethodSet : Type :=
| AllMethods
| OnlyMethods (methods : list string).

Definition method_allows (m : MethodSet) (method : string) : bool :=
  match m with
  | AllMethods => true
  | OnlyMethods methods => existsb (String.eqb method) methods
  end.

Definition byte_to_ascii_uppercase (c : ascii) : ascii :=
  if is_ascii_lowercase c then ascii_of_N (N_of_ascii c - 32) else c.

Fixpoint to_ascii_uppercase (s : string) : string :=
  match s with
  | EmptyString => EmptyString
  | String c s' => String (byte_to_ascii_uppercase c) (to_ascii_uppercase s')
  end.

Record ModuleTarget : Type := mkModuleTarget { mt_namespace : Namespace; mt_module : ModuleName }.

Definition module_target_new (namespace module : string) : result route_error ModuleTarget :=
  match name_parse TNamespace (str_trim namespace) with
  | Err e => Err (InvalidTarget e)
  | Ok ns => match name_parse TModuleName (str_trim module) with
             | Err e => Err (InvalidTarget e)
             | Ok m => Ok (mkModuleTarget ns m)
             end
  end.

(** [segments.next().unwrap_or_default()]. *)
Definition next_or_default (segs : list string) : string * list string :=
  match segs with s :: rest => (s, rest) | [] => ("", []) end.

Definition rpc_path_try_from (path : string) : result route_error string :=
  let segments := str_split "/" (default "" (strip_prefix "/" path)) in
  let '(service, segments) := next_or_default segments in
  let '(method, segments) := next_or_default segments in
  if negb (str_is_empty service) && negb (str_is_empty method)
     && match segments with [] => true | _ => false end
     && negb (str_contains "?" path || str_contains "#" path
              || str_contains "{" path || str_contains "}" path)
  then Ok path else Err InvalidRpcPath.

Section ingress.
Context `{SL : SemverLib, HL : HttpLib, ML : MatchitLib, FL : FailsafeLib}.

(** [Method::from_bytes] accepts the text. *)
Context (method_ok : string → bool).

Fixpoint methods_from (methods parsed : list string) : result route_error (list string) :=
  match methods with
  | [] => Ok parsed
  | method :: rest =>
      let normalized := to_ascii_uppercase method in
      if method_ok normalized
      then methods_from rest (if existsb (String.eqb normalized) parsed then parsed
                              else parsed ++ [normalized])
      else Err (InvalidMethod method)
  end.

Definition method_set_try_from (methods : list string) : result route_error MethodSet :=
  match methods with
  | [] => Ok AllMethods
  | _ => let? parsed := methods_from methods [] in Ok (OnlyMethods parsed)
  end.

Definition route_pattern_try_from (path : string) : result route_error string :=
  if negb (starts_with "/" path) then Err PathNotAbsolute
  else match router_build [(path, [])] with
       | Some _ => Ok path
       | None => Err (InvalidPattern path)
       end.

Record ExternalRoute : Type := mkExternalRoute {
  er_path : string;
  er_rpc_path : string;
  er_methods : MethodSet;
  er_target : ModuleTarget;
}.

Definition external_route_new (path rpc_path : string) (methods : list string)
  (module namespace : string) : result route_error ExternalRoute :=
  let? path := route_pattern_try_from path in
  let? rpc_path := rpc_path_try_from rpc_path in
  let? methods := method_set_try_from methods in
  let? target := module_target_new namespace module in
  Ok (mkExternalRoute path rpc_path methods target).

(** ** The index of patterns *)

Definition add_route_index (m : gmap string (list nat)) (ir : nat * ExternalRoute) : gmap string (list nat) :=
  <[er_path ir.2 := default [] (m !! er_path ir.2) ++ [ir.1]]> m.

Definition path_map (routes : list ExternalRoute) : gmap string (list nat) :=
  foldl add_route_index ∅ (imap (λ i r, (i, r)) routes).

Definition build_external_route_index (routes : list ExternalRoute) : option Router :=
  router_build (map_to_list (path_map routes)).

(** ** The layer *)

(** [format!("http://{}.{}{}", ..)]. *)
Definition public_destination (route : ExternalRoute) : string :=
  "http://" +:+ name_str (mt_namespace (er_target route)) +:+ "."
    +:+ name_str (mt_module (er_target route)) +:+ er_rpc_path route.

(** [matched.value.iter().find(|&&idx| routes[idx].methods().allows(&method))]. *)
Fixpoint find_route (routes : list ExternalRoute) (method : string) (value : list nat) :
  option (option ExternalRoute) :=
  match value with
  | [] => Some None
  | idx :: rest =>
      route ← routes !! idx;
      if method_allows (er_methods route) method then Some (Some route)
      else find_route routes method rest
  end.

Definition ingress_call (routes : list ExternalRoute) (router : Router) (req : Request) :
  option layer_result :=
  let headers := strip_external_spoofable_headers (rq_headers req) in
  match router_at router (uri_path (rq_uri req)) with
  | None => Some (Respond (error_response NOT_FOUND MsgNoPublicRoute))
  | Some value =>
      found ← find_route routes (rq_method req) value;
      match found with
      | None => Some (Respond (error_response NOT_FOUND MsgNoPublicRoute))
      | Some route =>
          let rpc_path := er_rpc_path route in
          let path_and_query := match uri_query (rq_uri req) with
                                | Some query => rpc_path +:+ "?" +:+ query
                                | None => rpc_path
                                end in
          match path_and_query_parse path_and_query ≫= uri_set_path_and_query (rq_uri req) with
          | None => Some (Respond (error_response INTERNAL_SERVER_ERROR MsgInvalidRpcPath))
          | Some uri =>
              let headers := match header_from_str (public_destination route) with
                             | Some value => hm_insert headers WR_DESTINATION value
                             | None => headers
                             end in
              external ← header_from_str "external";
              Some (Call (set_headers (set_uri req uri) (hm_insert headers WR_SOURCE external)))
          end
      end
  end.
End ingress.

(** ** Facts *)

Section ingress_facts.
Context `{SL : SemverLib, HL : HttpLib, ML : MatchitLib, FL : FailsafeLib}.

(** *** Validated routes *)

Lemma rpc_path_absolute path p : rpc_path_try_from path = Ok p → p = path ∧ starts_with "/" p = true.
Proof.
  unfold rpc_path_try_from, starts_with. destruct (strip_prefix "/" path) as [rest|] eqn:Hs.
  - change (default "" (Some rest)) with rest. destruct (next_or_default (str_split "/" rest)) as [service segs].
    destruct (next_or_default segs) as [method segs'].
    match goal with |- (if ?b then _ else _) = _ → _ => destruct b; [|done] end.
    intros [= <-]. by rewrite Hs.
  - by intros ?.
Qed.

Lemma module_target_valid ns m t :
  module_target_new ns m = Ok t →
  valid_name (name_str (mt_namespace t)) ∧ valid_name (name_str (mt_module t)).
Proof.
  unfold module_target_new. destruct (name_parse TNamespace _) as [n|] eqn:Hn; [|done].
  destruct (name_parse TModuleName _) as [k|] eqn:Hk; [|done]. intros [= <-]. simpl.
  apply name_parse_ok in Hn as [-> Hn]. apply name_parse_ok in Hk as [-> Hk]. split; assumption.
Qed.

(** What a route built by [ExternalRoute::new] satisfies. *)
Definition route_valid (r : ExternalRoute) : Prop :=
  starts_with "/" (er_rpc_path r) = true
  ∧ valid_name (name_str (mt_namespace (er_target r))) ∧ valid_name (name_str (mt_module (er_target r))).

Lemma external_route_new_valid method_ok path rpc methods m ns r :
  external_route_new method_ok path rpc methods m ns = Ok r → route_valid r.
Proof.
  unfold external_route_new. rewrite rbind_ok. intros (p & _ & H). rewrite rbind_ok in H.
  destruct H as (rp & Hrp & H). rewrite rbind_ok in H. destruct H as (ms & _ & H).
  rewrite rbind_ok in H. destruct H as (t & Ht & [= <-]). unfold route_valid. simpl.
  split; [by apply (rpc_path_absolute rpc)|]. by apply module_target_valid in Ht.
Qed.

(** *** The index names existing routes *)

Definition indexes_within (n : nat) (m : gmap string (list nat)) : Prop :=
  ∀ p l i, m !! p = Some l → i ∈ l → i < n.

Lemma add_route_indexes m i r n :
  i < n → indexes_within n m → indexes_within n (add_route_index m (i, r)).
Proof.
  intros Hi Hm p l j. unfold add_route_index. rewrite lookup_insert_Some. simpl.
  intros [[<- <-]|[_ Hp]] Hj; [|by eapply Hm].
  rewrite elem_of_app, list_elem_of_singleton in Hj. destruct Hj as [Hj| ->]; [|done].
  destruct (m !! er_path r) as [l|] eqn:E; [by eapply Hm|by apply elem_of_nil in Hj].
Qed.

Lemma path_map_within routes : indexes_within (length routes) (path_map routes).
Proof.
  unfold path_map.
  assert (Forall (λ ir : nat * ExternalRoute, ir.1 < length routes) (imap (λ i r, (i, r)) routes)) as Hall.
  { apply Forall_lookup. intros k [i r] Hk. rewrite list_lookup_imap in Hk.
    destruct (routes !! k) as [r'|] eqn:E; [|done]. injection Hk as <- <-. simpl.
    by eapply lookup_lt_Some. }
  assert (indexes_within (length routes) ∅) as H0 by by intros ???.
  revert H0 Hall. generalize (imap (λ i r, (i, r)) routes) (∅ : gmap string (list nat)).
  intros l. induction l as [|[i r] l IH]; intros m Hm Hall; simpl; [done|].
  apply Forall_cons in Hall as [Hi Hall]. apply IH; [by apply add_route_indexes|done].
Qed.

Lemma find_route_total routes method value :
  (∀ i, i ∈ value → i < length routes) →
  ∃ found, find_route routes method value = Some found
    ∧ ∀ r, found = Some r → r ∈ routes ∧ method_allows (er_methods r) method = true.
Proof.
  induction value as [|i rest IH]; intros Hin; simpl; [by exists None|].
  destruct (lookup_lt_is_Some_2 routes i) as [r Hr]; [apply Hin; left|]. rewrite Hr. simpl.
  destruct (method_allows (er_methods r) method) eqn:Hm.
  - exists (Some r). split; [done|]. intros r' [= <-]. split; [by eapply list_elem_of_lookup_2|done].
  - apply IH. intros j Hj. apply Hin. by right.
Qed.

(** *** The layer *)

(** A rewritten public request: nothing reserved but the configured destination
    and the source [external]; every other header as the caller sent it. *)
Definition rewritten (route : ExternalRoute) (req req' : Request) : Prop :=
  rq_method req' = rq_method req ∧ rq_body req' = rq_body req
  ∧ rq_route req' = rq_route req ∧ rq_egress req' = rq_egress req
  ∧ (∃ ext, header_to_str ext = Some "external" ∧ hm_get_all (rq_headers req') WR_SOURCE = [ext])
  ∧ hm_get_all (rq_headers req') WR_DESTINATION
    = option_list (header_from_str (public_destination route))
  ∧ (∀ name, is_one_of reserved_headers name = true → same_header WR_SOURCE name = false →
       same_header WR_DESTINATION name = false → hm_get_all (rq_headers req') name = [])
  ∧ (∀ name, is_one_of reserved_headers name = false →
       hm_get_all (rq_headers req') name = hm_get_all (rq_headers req) name).

Lemma not_reserved name r :
  is_one_of reserved_headers name = false → In r reserved_headers → same_header r name = false.
Proof.
  intros Hn Hin. apply not_true_iff_false. intros Hs. apply not_true_iff_false in Hn. apply Hn.
  unfold is_one_of. apply existsb_exists. by exists r.
Qed.

Lemma rewritten_headers route req uri ext :
  header_to_str ext = Some "external" →
  rewritten route req (set_headers (set_uri req uri)
    (hm_insert (match header_from_str (public_destination route) with
                | Some value => hm_insert (strip_external_spoofable_headers (rq_headers req)) WR_DESTINATION value
                | None => strip_external_spoofable_headers (rq_headers req)
                end) WR_SOURCE ext)).
Proof.
  intros Hext. unfold rewritten. cbn [rq_method rq_body rq_route rq_egress rq_headers set_headers set_uri].
  do 4 (split; [done|]).
  assert (∀ name, hm_get_all (hm_insert (match header_from_str (public_destination route) with
      | Some value => hm_insert (strip_external_spoofable_headers (rq_headers req)) WR_DESTINATION value
      | None => strip_external_spoofable_headers (rq_headers req) end) WR_SOURCE ext) name
    = if same_header WR_SOURCE name then [ext]
      else if same_header WR_DESTINATION name then option_list (header_from_str (public_destination route))
      else if is_one_of reserved_headers name then [] else hm_get_all (rq_headers req) name) as Hget.
  { intros name. rewrite hm_get_all_insert by done.
    destruct (same_header WR_SOURCE name) eqn:Hs; [done|].
    destruct (header_from_str (public_destination route)) as [v|];
      rewrite ?hm_get_all_insert by done; rewrite strip_external_spoofable_get; [done|].
    destruct (same_header WR_DESTINATION name) eqn:Hd; [|done].
    assert (is_one_of reserved_headers name = true) as ->; [|done].
    unfold is_one_of. apply existsb_exists. exists WR_DESTINATION. split; [by left|done]. }
  split; [exists ext; by rewrite Hget|]. split; [by rewrite Hget|]. split.
  - intros name Hr Hs Hd. by rewrite Hget, Hs, Hd, Hr.
  - intros name Hn. rewrite Hget, Hn, !(not_reserved name) by (done || (simpl; tauto)). done.
Qed.

Lemma ingress_call_total routes router req :
  build_external_route_index routes = Some router →
  ∃ res, ingress_call routes router req = Some res ∧
    match res with
    | Respond r => rs_status r = NOT_FOUND ∨ rs_status r = INTERNAL_SERVER_ERROR
    | Call req' => ∃ route, route ∈ routes
        ∧ method_allows (er_methods route) (rq_method req) = true ∧ rewritten route req req'
    end.
Proof.
  intros Hb. unfold ingress_call.
  destruct (router_at router (uri_path (rq_uri req))) as [value|] eqn:Hat; [|eexists; split; [done|by left]].
  destruct (router_at_inserted _ _ _ _ Hb Hat) as [p Hp%elem_of_map_to_list].
  destruct (find_route_total routes (rq_method req) value) as (found & -> & Hfound).
  { intros i Hi. by eapply path_map_within. }
  simpl. destruct found as [route|]; [|eexists; split; [done|by left]].
  destruct (Hfound route eq_refl) as [Hin Hm].
  match goal with |- context [match ?o with Some _ => _ | None => _ end] =>
    destruct o as [uri|]; [|eexists; split; [done|by right]] end.
  destruct (header_visible "external" eq_refl) as (ext & -> & Hext). simpl.
  eexists. split; [done|]. exists route. split; [done|]. split; [done|]. by apply rewritten_headers.
Qed.

(** Public ingress cannot be used to spoof internal identity: with any index
    built from the configured routes the layer never panics, and what it passes
    on matches a configured route and its methods and carries the configured
    destination and source instead of any reserved header of the caller. *)
Theorem ingress_rewrites_public_requests routes router req :
  build_external_route_index routes = Some router →
  ∃ res, ingress_call routes router req = Some res ∧
    match res with
    | Respond r => rs_status r = NOT_FOUND ∨ rs_status r = INTERNAL_SERVER_ERROR
    | Call req' => ∃ route, route ∈ routes
        ∧ method_allows (er_methods route) (rq_method req) = true ∧ rewritten route req req'
    end.
Proof. apply ingress_call_total. Qed.

Lemma valid_name_host s : valid_name s → str_all host_byte s = true.
Proof.
  intros (_ & _ & _ & Hs). eapply str_all_impl; [|exact Hs]. intros c Hc.
  unfold host_byte. unfold name_byte in Hc. by rewrite Hc.
Qed.

Lemma public_destination_host route u :
  route_valid route → uri_parse (public_destination route) = Some u →
  uri_host u = Some (name_str (mt_namespace (er_target route)) +:+ "."
                       +:+ name_str (mt_module (er_target route))).
Proof.
  intros (Hp & Hns & Hm) Hu. unfold public_destination in Hu.
  apply (uri_host_http _ (er_rpc_path route)); [..|by rewrite !str_app_assoc].
  - intros E. apply (f_equal String.length) in E. rewrite !str_length_app in E. simpl in E. lia.
  - by rewrite !str_all_app, (valid_name_host _ Hns), (valid_name_host _ Hm).
  - exact Hp.
Qed.

(** C15. End to end, a public request that the routing layer forwards goes to a
    candidate of the module that a configured public route names, and never to
    an external host: the public stack has no egress. *)
Theorem public_requests_reach_configured_modules cb self phase t routes router req req1 req2 now table' r' :
  rtc cache_step (Idle, cached_new cb self) (phase, t) →
  Forall route_valid routes → build_external_route_index routes = Some router →
  rq_route req = None → rq_egress req = None →
  ingress_call routes router req = Some (Call req1) →
  routing_call now [] req1 (ct_table t) (ct_registry t) = Some (Call req2, table', r') →
  ∃ route g i selected, route ∈ routes
    ∧ method_allows (er_methods route) (rq_method req) = true
    ∧ table_get (ct_table t) (name_str (mt_namespace (er_target route)))
        (name_str (mt_module (er_target route))) = Some g
    ∧ selected_of g i = Some selected
    ∧ rq_route req2 = Some (sc_route selected) ∧ rq_egress req2 = None.
Proof.
  intros Hreach Hvalid Hb Hnr Hne Hin Hrt.
  destruct (ingress_call_total routes router req Hb) as (res & Hres & Hprop).
  rewrite Hin in Hres. injection Hres as <-. destruct Hprop as (route & Hroute & Hm & Hrw).
  destruct (routing_call_total cb self phase t now [] req1 Hreach) as (res & ? & ? & Hrc & _ & Hpass).
  rewrite Hrt in Hrc. injection Hrc as <- <- <-.
  destruct Hrw as (_ & _ & Hr1 & He1 & _ & Hdest & _).
  destruct Hpass as [(ns & m & g & i & sel & nh & mh & (uri & Hu & Hh & Hns & Hmn) & Hg & Hsel & Hr2 & He2 & _)
    |(_ & _ & h & uri & pattern & _ & _ & Hpat & _)]; [|by apply elem_of_nil in Hpat].
  exists route, g, i, sel.
  assert (route_valid route) as Hrv by (by apply (proj1 (Forall_forall _ _) Hvalid)).
  unfold header_text, hm_get in Hu. rewrite Hdest in Hu.
  destruct (header_from_str (public_destination route)) as [v|] eqn:Hv; [|done]. simpl in Hu.
  destruct (header_to_str v) as [d|] eqn:Hd; [|done]. simpl in Hu.
  rewrite (header_to_str_from _ _ _ Hv Hd) in Hu.
  pose proof (public_destination_host route uri Hrv Hu) as Hh'. rewrite Hh in Hh'.
  injection Hh' as Hh'. destruct Hrv as (_ & Hvn & Hvm).
  apply split_host in Hh' as [-> ->]; [|by apply valid_name_no_char..].
  split_and!; [done..|]. congruence.
Qed.
End ingress_facts.

(** ** Concrete instances of the theorems *)

Section demo.
#[local] Existing Instances toy_semver toy_http toy_matchit toy_failsafe.

Definition demo_route : ExternalRoute :=
  mkExternalRoute "/cart" "/cart.Cart/Get" (OnlyMethods ["GET"])
    (mkModuleTarget (Name "shop") (Name "cart")).

Definition demo_routes : list ExternalRoute := [demo_route].

Example demo_route_new :
  external_route_new (λ _, true) "/cart" "/cart.Cart/Get" ["get"; "GET"] " cart" "shop " = Ok demo_route.
Proof. vm_compute. reflexivity. Qed.

Lemma demo_routes_valid : Forall route_valid demo_routes.
Proof.
  constructor; [|constructor]. exact (external_route_new_valid _ _ _ _ _ _ _ demo_route_new).
Qed.

Definition demo_router : Router := [("/cart", [0])].

Lemma demo_router_built : build_external_route_index demo_routes = Some demo_router.
Proof. reflexivity. Qed.

(** The caller tries to choose the destination. *)
Definition public_request : Request :=
  mkRequest "GET" (mkToyUri None None "/cart" None) HTTP_11
    (hm_insert hm_new WR_DESTINATION "http://other.module/x") (body_full "") None None.

Definition pass_of (o : option layer_result) : Request :=
  match o with Some (Call r) => r | _ => public_request end.

Lemma ingress_rewrites_public_requests_witness :
  ∃ res, ingress_call demo_routes demo_router public_request = Some res.
Proof.
  destruct (ingress_rewrites_public_requests demo_routes demo_router public_request demo_router_built)
    as (res & Hres & _).
  exists res. exact Hres.
Defined.

Definition ingress_passed : Request := pass_of (ingress_call demo_routes demo_router public_request).

Lemma ingress_passed_call :
  ingress_call demo_routes demo_router public_request = Some (Call ingress_passed).
Proof. reflexivity. Qed.

Definition routed_result :=
  routing_call (λ _, 0%Z) [] ingress_passed (ct_table demo_cache) (ct_registry demo_cache).

Definition routed_request : Request := pass_of ((λ x, x.1.1) <$> routed_result).

Lemma routed_found :
  (match routed_result with Some (Call _, _, _) => true | _ => false end) = true.
Proof. vm_compute. reflexivity. Qed.

Lemma public_requests_reach_configured_modules_witness :
  ∃ route, route ∈ demo_routes ∧ rq_egress routed_request = None.
Proof.
  pose proof routed_found as Hf. unfold routed_request.
  destruct routed_result as [[[[resp|req2] table'] r']|] eqn:Hr; try discriminate Hf. simpl.
  destruct (public_requests_reach_configured_modules demo_config "http://self" Idle demo_cache
    demo_routes demo_router public_request ingress_passed req2 (λ _, 0%Z) table' r'
    demo_cache_reachable demo_routes_valid demo_router_built eq_refl eq_refl
    ingress_passed_call Hr) as (route & g & i & sel & Hin & _ & _ & _ & _ & He).
  exists route. split; [exact Hin|exact He].
Defined.
End demo.
