(* ===== verification/JobQueue.v ===== *)
(** * The job queue of the engines (wr-engine/src/worker.rs)

    The table of wr-engine/migrations/jobs/V1__canonical_job_queue.sql with its
    CHECK constraints, and the statements the engines run on it. A statement is
    atomic: it reads and writes the table at one instant [now] of the database
    clock, skips the rows the set [locked] of other transactions holds, and fails
    as a whole when a constraint is violated. Among rows created at the same
    instant [ORDER BY created_at] leaves the choice open: it is the argument
    [tie]. Random identifiers are arguments. *)

From stdpp Require Import pretty.
From S2P Require Import Prelude RustStr Utf8 Lists Externals Models Layers.

(** ** Lifecycle values (wr-common/src/lifecycle.rs) *)

Definition MAX_JOB_BLOB_BYTES : Z := 1024 * 1024.
Definition MAX_JOB_ERROR_BYTES : Z := 1024 * 1024.
Definition MAX_JOB_METADATA_BYTES : Z := 64 * 1024.

Inductive JobState : Type := Pending | Running | Complete | Dead.

#[global] Instance JobState_eq_dec : EqDecision JobState.
Proof. solve_decision. Defined.

Definition job_state_as_str (s : JobState) : string :=
  match s with
  | Pending => "pending"
  | Running => "running"
  | Complete => "complete"
  | Dead => "dead"
  end.

Definition job_state_try_from (value : string) : result string JobState :=
  if String.eqb value "pending" then Ok Pending
  else if String.eqb value "running" then Ok Running
  else if String.eqb value "complete" then Ok Complete
  else if String.eqb value "dead" then Ok Dead
  else Err ("unknown job state '" +:+ value +:+ "'").

(** [MaxAttempts::new], [JobTimeoutSecs::new] and [ScheduleIntervalSecs::new]: the
    macro [positive_u32]. *)
Definition positive_u32_new (label : string) (value : Z) : result string Z :=
  if (value =? 0)%Z then Err (label +:+ " must be > 0") else Ok value.

Definition max_attempts_new : Z → result string Z := positive_u32_new "max attempts".
Definition job_timeout_secs_new : Z → result string Z := positive_u32_new "job timeout".

Definition attempt_count_validate (attempt max : Z) : result string Z :=
  if (attempt <=? max)%Z then Ok attempt else Err "attempt count exceeds max attempts".

Definition schedule_interval_secs_new : Z → result string Z := positive_u32_new "schedule interval".

Definition worker_concurrency_new (value : Z) : result string Z :=
  ensure? negb (value =? 0)%Z else "worker concurrency must be > 0" in Ok value.

(** [PositiveDuration], in nanoseconds. *)
Definition positive_duration_from_secs (value : Z) (label : string) : result string Z :=
  ensure? negb (value =? 0)%Z else (label +:+ " must be > 0") in Ok (from_secs value).

Definition positive_duration_from_millis (value : Z) (label : string) : result string Z :=
  ensure? negb (value =? 0)%Z else (label +:+ " must be > 0") in Ok (from_millis value).

(** ** The table *)

(** The columns no statement updates. *)
Record JobSpec : Type := mkSpec {
  job_id : string;
  worker_namespace : string;
  worker_name : string;
  worker_version : string;
  job_type : string;
  payload : string;
  max_attempts : Z;
  timeout_secs : Z;
  created_at : Z;
  source_namespace : string;
  source_module : string;
}.

Record JobRow : Type := mkRow {
  spec : JobSpec;
  status : string;
  result_bytes : option string;
  error_message : option string;
  attempt : Z;
  updated_at : Z;
  claimed_at : option Z;
  completed_at : option Z;
  claimed_by : option string;
  claim_id : option Z;
  lease_expires_at : option Z;
}.

Definition is_null {A} (o : option A) : bool :=
  match o with None => true | Some _ => false end.
Definition not_null {A} (o : option A) : bool := negb (is_null o).

(** The CHECK constraints of the table. *)
Definition jobs_status_valid (r : JobRow) : bool :=
  String.eqb (status r) "pending" || String.eqb (status r) "running"
  || String.eqb (status r) "complete" || String.eqb (status r) "dead".

Definition jobs_claim_metadata_valid (r : JobRow) : bool :=
  (String.eqb (status r) "running"
   && not_null (claimed_at r) && not_null (claimed_by r)
   && not_null (claim_id r) && not_null (lease_expires_at r))
  || (negb (String.eqb (status r) "running")
      && is_null (claimed_at r) && is_null (claimed_by r)
      && is_null (claim_id r) && is_null (lease_expires_at r)).

Definition jobs_dead_lifecycle_valid (r : JobRow) : bool :=
  negb (String.eqb (status r) "dead")
  || ((attempt r =? max_attempts (spec r))%Z
      && match error_message r with Some e => negb (str_is_empty e) | None => false end
      && is_null (result_bytes r) && is_null (completed_at r)
      && is_null (claimed_at r) && is_null (claimed_by r)
      && is_null (claim_id r) && is_null (lease_expires_at r)).

Definition jobs_constraints (r : JobRow) : bool :=
  jobs_status_valid r
  && (0 <? timeout_secs (spec r))%Z
  && (0 <? max_attempts (spec r))%Z
  && ((0 <=? attempt r)%Z && (attempt r <=? max_attempts (spec r))%Z)
  && jobs_claim_metadata_valid r
  && jobs_dead_lifecycle_valid r.

(** The database: the table and the notifications sent, as channel and payload. *)
Record Db : Type := mkDb {
  db_jobs : gmap string JobRow;
  db_notices : list (string * string);
}.

Inductive DbError : Type :=
| UniqueViolation
| CheckViolation
| InvalidText
| IntegerOutOfRange.

Inductive WorkerError : Type :=
| PayloadTooLarge
| MetadataOverflow
| MetadataTooLarge
| ResultTooLarge
| ErrorEmpty
| ErrorTooLarge
| InvalidValue (message : string)
| IntConversion
| Database (e : DbError).

(** A row as an INSERT or UPDATE stores it. *)
Definition db_store (r : JobRow) (db : Db) : result DbError Db :=
  ensure? (attempt r <=? I32_MAX)%Z else IntegerOutOfRange in
  ensure? jobs_constraints r else CheckViolation in
  Ok (mkDb (<[job_id (spec r) := r]> (db_jobs db)) (db_notices db)).

Definition db_notify (channel text : string) (db : Db) : Db :=
  mkDb (db_jobs db) (db_notices db ++ [(channel, text)]).

Definition db_result {A} (r : result DbError A) : result WorkerError A :=
  match r with Ok a => Ok a | Err e => Err (Database e) end.

(** ** Channels *)

Definition LONG_IDENTITY_WORKER_CHANNEL : string := "wr_jobs_long_identity".
Definition MAX_POSTGRES_CHANNEL_BYTES : Z := 63.

Definition worker_channel (namespace name version : string) : string :=
  let channel :=
    if str_is_empty version then "wr_jobs_" +:+ namespace +:+ "_" +:+ name +:+ "_unversioned"
    else "wr_jobs_" +:+ namespace +:+ "_" +:+ name +:+ "_" +:+ version in
  if (MAX_POSTGRES_CHANNEL_BYTES <? str_len channel)%Z then LONG_IDENTITY_WORKER_CHANNEL
  else channel.

(** The function [notify_new_job] of the trigger on INSERT. *)
Definition notify_new_job (r : JobRow) (db : Db) : Db :=
  let s := spec r in
  let channel_name :=
    if String.eqb (worker_version s) "" then
      "wr_jobs_" +:+ worker_namespace s +:+ "_" +:+ worker_name s +:+ "_unversioned"
    else
      "wr_jobs_" +:+ worker_namespace s +:+ "_" +:+ worker_name s +:+ "_" +:+ worker_version s in
  let channel_name :=
    if (63 <? str_len channel_name)%Z then "wr_jobs_long_identity" else channel_name in
  db_notify channel_name (job_id s) db.

(** The channels [spawn_worker_pool] has the pool listen on. *)
Definition pool_channels (namespace name version : string) : list string :=
  [worker_channel namespace name version; worker_channel namespace name ""].

(** ** Submission *)

(** [try_fold(0, |total, value| total.checked_add(value.len()))]. *)
Definition lengths_total (l : list string) : option Z :=
  foldl (λ total value, t ← total; usize_checked_add t (str_len value)) (Some 0%Z) l.

Definition sql_insert (now : Z) (s : JobSpec) (db : Db) : result DbError Db :=
  ensure? pg_text (job_id s) && pg_text (worker_namespace s) && pg_text (worker_name s)
          && pg_text (worker_version s) && pg_text (job_type s)
          && pg_text (source_namespace s) && pg_text (source_module s) else InvalidText in
  ensure? is_null (db_jobs db !! job_id s) else UniqueViolation in
  let r := mkRow s "pending" None None 0 now None None None None None in
  let? db := db_store r db in
  Ok (notify_new_job r db).

Definition insert_job (now : Z) (new_id : string)
    (namespace name version job_type payload : string) (timeout_secs max_attempts : Z)
    (source_namespace source_module : string) (db : Db) : result WorkerError (string * Db) :=
  ensure? (str_len payload <=? MAX_JOB_BLOB_BYTES)%Z else PayloadTooLarge in
  match lengths_total
          [namespace; name; version; job_type; source_namespace; source_module] with
  | None => Err MetadataOverflow
  | Some metadata_bytes =>
      ensure? (metadata_bytes <=? MAX_JOB_METADATA_BYTES)%Z else MetadataTooLarge in
      match job_timeout_secs_new (if (timeout_secs =? 0)%Z then 300%Z else timeout_secs),
            max_attempts_new (if (max_attempts =? 0)%Z then 3%Z else max_attempts) with
      | Err e, _ | _, Err e => Err (InvalidValue e)
      | Ok timeout, Ok attempts =>
          match i32_try_from timeout, i32_try_from attempts with
          | Some timeout, Some attempts =>
              let s := mkSpec new_id namespace name version job_type payload attempts timeout
                         now source_namespace source_module in
              let? db := db_result (sql_insert now s db) in
              Ok (new_id, db)
          | _, _ => Err IntConversion
          end
      end
  end.

(** ** Status *)

Record JobStatus : Type := mkStatus {
  js_job_id : string;
  js_status : JobState;
  js_result : string;
  js_error_message : string;
  js_attempt : Z;
  js_max_attempts : Z;
}.

Definition try_u32 (v : Z) : result string Z :=
  match u32_try_from v with Some v => Ok v | None => Err "out of range integral type conversion" end.

Definition get_job_status (id : string) (db : Db) : result string (option JobStatus) :=
  match db_jobs db !! id with
  | None => Ok None
  | Some r =>
      let? state := job_state_try_from (status r) in
      let? max_raw := try_u32 (max_attempts (spec r)) in
      let? max := max_attempts_new max_raw in
      let? attempt_raw := try_u32 (attempt r) in
      let? attempt := attempt_count_validate attempt_raw max in
      Ok (Some (mkStatus (job_id (spec r)) state (default "" (result_bytes r))
                  (default "" (error_message r)) attempt max))
  end.

(** ** Claims *)

Record ClaimedJob : Type := mkClaimed {
  cj_job_id : string;
  cj_job_type : string;
  cj_payload : string;
  cj_claim_id : Z;
}.

Inductive Finalization : Type := Applied | Stale.

Definition from_affected_rows (rows : Z) : Finalization :=
  if (rows =? 1)%Z then Applied else Stale.

Definition claimable (namespace name version : string) (locked : gset string)
    (r : JobRow) : bool :=
  String.eqb (worker_namespace (spec r)) namespace
  && String.eqb (worker_name (spec r)) name
  && (String.eqb (worker_version (spec r)) version || String.eqb (worker_version (spec r)) "")
  && String.eqb (status r) "pending"
  && bool_decide (job_id (spec r) ∉ locked).

(** [ORDER BY created_at ASC LIMIT 1 FOR UPDATE SKIP LOCKED]. *)
Definition oldest (l : list JobRow) : list JobRow :=
  filter (λ r, forallb (λ x, created_at (spec r) <=? created_at (spec x))%Z l = true) l.

Definition claim_select (tie : nat) (namespace name version : string) (locked : gset string)
    (db : Db) : option JobRow :=
  let first := oldest (filter (λ r, claimable namespace name version locked r = true)
                              (map_to_list (db_jobs db)).*2) in
  first !! (tie `mod` length first).

Definition claim_job (now : Z) (tie : nat) (locked : gset string)
    (namespace name version engine_id : string) (new_claim : Z) (db : Db) :
    result WorkerError (option ClaimedJob * Db) :=
  ensure? pg_text namespace && pg_text name && pg_text version && pg_text engine_id
    else Database InvalidText in
  match claim_select tie namespace name version locked db with
  | None => Ok (None, db)
  | Some r =>
      let s := spec r in
      let r' := mkRow s "running" (result_bytes r) (error_message r) (attempt r + 1) now
                  (Some now) (completed_at r) (Some engine_id) (Some new_claim)
                  (Some (now + from_secs (timeout_secs s))%Z) in
      let? db := db_result (db_store r' db) in
      Ok (Some (mkClaimed (job_id s) (job_type s) (payload s) new_claim), db)
  end.

(** ** Finalization *)

(** [WHERE job_id = $1 AND status = 'running' AND claim_id = $2]. *)
Definition active_claim (id : string) (claim : Z) (db : Db) : option JobRow :=
  r ← db_jobs db !! id;
  if String.eqb (status r) "running" && bool_decide (claim_id r = Some claim)
  then Some r else None.

(** The number of rows an UPDATE by primary key changes, and the table after it. *)
Definition update_claim (id : string) (claim : Z) (set : JobRow → JobRow) (db : Db) :
    result DbError (Z * Db) :=
  match active_claim id claim db with
  | None => Ok (0%Z, db)
  | Some r => let? db := db_store (set r) db in Ok (1%Z, db)
  end.

Definition complete_job (now : Z) (id : string) (claim : Z) (bytes : string) (db : Db) :
    result WorkerError (Finalization * Db) :=
  ensure? (str_len bytes <=? MAX_JOB_BLOB_BYTES)%Z else ResultTooLarge in
  ensure? pg_text id else Database InvalidText in
  let? (rows, db) := db_result (update_claim id claim (λ r,
    mkRow (spec r) "complete" (Some bytes) (error_message r) (attempt r) now
      None (Some now) None None None) db) in
  Ok (from_affected_rows rows, db).

(** The status a failed or expired attempt leaves. *)
Definition retry_or_dead (r : JobRow) : string :=
  if (attempt r <? max_attempts (spec r))%Z then "pending" else "dead".

Definition fail_job (now : Z) (id : string) (claim : Z) (error_msg : string) (db : Db) :
    result WorkerError (Finalization * Db) :=
  ensure? negb (str_is_empty error_msg) else ErrorEmpty in
  ensure? (str_len error_msg <=? MAX_JOB_ERROR_BYTES)%Z else ErrorTooLarge in
  ensure? pg_text id && pg_text error_msg else Database InvalidText in
  let? (rows, db) := db_result (update_claim id claim (λ r,
    mkRow (spec r) (retry_or_dead r) (result_bytes r) (Some error_msg) (attempt r) now
      None (completed_at r) None None None) db) in
  Ok (from_affected_rows rows, db).

(** ** Recovery of expired leases *)

Definition expired (now : Z) (locked : gset string) (r : JobRow) : bool :=
  String.eqb (status r) "running"
  && match lease_expires_at r with Some t => (t <=? now)%Z | None => false end
  && bool_decide (job_id (spec r) ∉ locked).

Definition retained_error_chars : Z := MAX_JOB_ERROR_BYTES / 4 - 32.

Definition recovered (now : Z) (r : JobRow) : JobRow :=
  mkRow (spec r) (retry_or_dead r) (result_bytes r)
    (Some (utf8_left retained_error_chars (default "" (error_message r))
           +:+ " [stale recovery]"))
    (attempt r) now None (completed_at r) None None None.

Definition recover_stale_jobs (now : Z) (locked : gset string) (db : Db) :
    result WorkerError (Z * Db) :=
  let jobs' := (λ r, if expired now locked r then recovered now r else r) <$> db_jobs db in
  let stale := filter (λ r, expired now locked r = true) (map_to_list (db_jobs db)).*2 in
  ensure? forallb (λ r, jobs_constraints (recovered now r)) stale else Database CheckViolation in
  Ok (Z.of_nat (length stale), mkDb jobs' (db_notices db)).

(** ** Dispatch *)

Definition finalize_failure (now : Z) (id : string) (claim : Z) (message : string) (db : Db) : Db :=
  match fail_job now id claim message db with
  | Ok (_, db) => db
  | Err _ => db
  end.

Section dispatch.
Context `{HL : HttpLib}.

(** The request for a job: [None] where [http::Request::builder] reports an error. *)
Definition build_job_request (job : ClaimedJob) (job_timeout : Z) : option Request :=
  uri ← uri_parse ("http://localhost" +:+ cj_job_type job);
  id_value ← header_from_str (cj_job_id job);
  timeout_value ← header_from_str (pretty (job_timeout / 1000000000)%Z);
  content_type ← header_from_str "application/x-protobuf";
  Some (mkRequest "POST" uri HTTP_11
          (hm_insert (hm_insert (hm_insert hm_new "x-wr-job-id" id_value)
                                "x-wr-timeout" timeout_value)
                     "content-type" content_type)
          (body_full (cj_payload job)) None None).

(** What the module's side of a dispatch comes to. *)
Inductive ModuleOutcome : Type :=
| ChannelClosed
| ResponseDropped
| BodyError (error : string)
| Responded (status : Z) (body : string)
| TimedOut.

Definition is_success (status : Z) : bool := (200 <=? status)%Z && (status <? 300)%Z.

(** What [dispatch_job] records: the result of the job, or the message of a failure. *)
Definition job_verdict (job_timeout : Z) (outcome : ModuleOutcome) : result string string :=
  match outcome with
  | ChannelClosed => Err "module channel closed"
  | ResponseDropped => Err "module dropped response"
  | BodyError error => Err ("response body: " +:+ error)
  | Responded status body =>
      if is_success status then Ok body
      else
        let error_body_limit := (MAX_JOB_ERROR_BYTES / 4)%Z in
        let body := str_take (Z.to_nat (Z.min (str_len body) error_body_limit)) body in
        Err ("HTTP " +:+ pretty status +:+ ": " +:+ from_utf8_lossy body)
  | TimedOut => Err ("job timed out after " +:+ pretty (job_timeout / 1000000000)%Z +:+ "s")
  end.

(** [outcome] is how the module answers the request it is sent, [build_error] how the
    builder words a failure. *)
Definition dispatch_job (now : Z) (job : ClaimedJob) (job_timeout : Z) (build_error : string)
    (outcome : Request → ModuleOutcome) (db : Db) : Db :=
  match build_job_request job job_timeout with
  | None =>
      finalize_failure now (cj_job_id job) (cj_claim_id job) ("build request: " +:+ build_error) db
  | Some request =>
      match job_verdict job_timeout (outcome request) with
      | Ok body =>
          match complete_job now (cj_job_id job) (cj_claim_id job) body db with
          | Ok (_, db) => db
          | Err _ => db
          end
      | Err message => finalize_failure now (cj_job_id job) (cj_claim_id job) message db
      end
  end.

End dispatch.
