(* ===== verification/JobAdmin.v ===== *)
(** * Job administration queries (wr-engine/src/job_admin_queue.rs)

    Reading jobs back with the consistency checks of [list_item] and [detail],
    paging with a keyset cursor, the queue summary and the retry of dead jobs.
    A query is a function of the table of [JobQueue]; [WHERE] with the predicates
    a filter contributes is [matches], [ORDER BY created_at DESC, job_id DESC] sorts
    by [row_cmp] over the collation of the database. A failing pool or connection is
    the environment's and leaves the table as it is. *)

From S2P Require Import Prelude RustStr Utf8 Lists Externals Models Identity JobQueue.

Definition DEFAULT_PAGE_SIZE : Z := 50.
Definition MAX_PAGE_SIZE : Z := 200.

Inductive JobAdminError : Type :=
| Invalid (message : string)
| NotFound
| FailedPrecondition (message : string)
| AdminDatabase (message : string).

(** ** Filters *)

Record JobFilter : Type := mkFilter {
  f_worker_namespace : option string;
  f_worker_name : option string;
  f_worker_version : option string;
  f_job_type : option string;
  f_source_namespace : option string;
  f_source_module : option string;
  f_created_at_from : option Z;
  f_created_at_before : option Z;
}.

Definition filter_validate (f : JobFilter) : result JobAdminError () :=
  ensure? negb (not_null (f_worker_name f) && is_null (f_worker_namespace f))
    else Invalid "worker_namespace is required with worker_name" in
  ensure? negb (not_null (f_worker_version f) && is_null (f_worker_name f))
    else Invalid "worker_name is required with worker_version" in
  ensure? negb (not_null (f_source_module f) && is_null (f_source_namespace f))
    else Invalid "source_namespace is required with source_module" in
  ensure? negb (match f_created_at_from f, f_created_at_before f with
                | Some from, Some before => (before <=? from)%Z
                | _, _ => false
                end)
    else Invalid "created_at_from must be earlier than created_at_before" in
  Ok ().

(** The predicates [filter_predicates] puts into the [WHERE] clause. *)
Definition text_filter (value : option string) (column : string) : bool :=
  match value with Some v => String.eqb column v | None => true end.

Definition filter_predicates (f : JobFilter) (r : JobRow) : bool :=
  let s := spec r in
  text_filter (f_worker_namespace f) (worker_namespace s)
  && text_filter (f_worker_name f) (worker_name s)
  && text_filter (f_worker_version f) (worker_version s)
  && text_filter (f_job_type f) (job_type s)
  && text_filter (f_source_namespace f) (source_namespace s)
  && text_filter (f_source_module f) (source_module s)
  && match f_created_at_from f with Some t => (t <=? created_at s)%Z | None => true end
  && match f_created_at_before f with Some t => (created_at s <? t)%Z | None => true end.

(** Whether PostgreSQL takes the text parameters of the filter. *)
Definition filter_params_ok (f : JobFilter) : bool :=
  forallb (λ v, match v with Some v => pg_text v | None => true end)
    [f_worker_namespace f; f_worker_name f; f_worker_version f; f_job_type f;
     f_source_namespace f; f_source_module f].

(** ** Reading rows *)

Record JobListItem : Type := mkItem {
  li_job_id : string;
  li_worker_namespace : string;
  li_worker_name : string;
  li_worker_version : string;
  li_job_type : string;
  li_status : JobState;
  li_attempt : Z;
  li_max_attempts : Z;
  li_source_namespace : string;
  li_source_module : string;
  li_created_at : Z;
  li_updated_at : Z;
}.

Definition admin_database {A} (r : result string A) : result JobAdminError A :=
  match r with Ok a => Ok a | Err e => Err (AdminDatabase e) end.

Definition checked_counts (r : JobRow) : result JobAdminError (Z * Z) :=
  match u32_try_from (attempt r) with
  | None => Err (AdminDatabase "negative attempt")
  | Some attempt =>
      match (v ← u32_try_from (max_attempts (spec r)); ok (max_attempts_new v)) with
      | None => Err (AdminDatabase "invalid max attempts")
      | Some max =>
          let? attempt := admin_database (attempt_count_validate attempt max) in
          Ok (attempt, max)
      end
  end.

Definition list_item (r : JobRow) : result JobAdminError JobListItem :=
  let s := spec r in
  let? state := admin_database (job_state_try_from (status r)) in
  let? (attempt, max) := checked_counts r in
  ensure? negb (negb (bool_decide (state = Pending)) && (attempt =? 0)%Z)
    else AdminDatabase "non-pending job has zero attempts" in
  ensure? negb (bool_decide (state = Dead) && negb (attempt =? max)%Z)
    else AdminDatabase "dead job has remaining attempts" in
  ensure? (created_at s <=? updated_at r)%Z
    else AdminDatabase "job updated_at precedes created_at" in
  match lengths_total
          [job_id s; worker_namespace s; worker_name s; worker_version s; job_type s;
           source_namespace s; source_module s] with
  | None => Err (AdminDatabase "job metadata length overflow")
  | Some metadata_bytes =>
      ensure? (metadata_bytes <=? MAX_JOB_METADATA_BYTES)%Z
        else AdminDatabase "job metadata exceeds configured size bounds" in
      Ok (mkItem (job_id s) (worker_namespace s) (worker_name s) (worker_version s) (job_type s)
            state attempt max (source_namespace s) (source_module s) (created_at s) (updated_at r))
  end.

Record JobDetail : Type := mkDetail {
  jd_summary : JobListItem;
  jd_payload : string;
  jd_result : string;
  jd_last_error : string;
  jd_timeout : Z;
  jd_claimed_at : option Z;
  jd_lease_expires_at : option Z;
  jd_completed_at : option Z;
  jd_claimed_by : string;
}.

Definition validate_dead_lifecycle (attempt max : Z) (last_error : option string) :
    result JobAdminError () :=
  if negb (attempt =? max)%Z
     || negb (match last_error with Some e => negb (str_is_empty e) | None => false end)
  then Err (AdminDatabase "dead job has inconsistent attempt or failure metadata")
  else Ok ().

Definition exceeds {A} (o : option A) (p : A → bool) : bool :=
  match o with Some a => p a | None => false end.

(** The four columns of a claim are all null. *)
Definition no_claim (r : JobRow) : bool :=
  is_null (claimed_at r) && is_null (lease_expires_at r)
  && is_null (claimed_by r) && is_null (claim_id r).

(** The match of [detail] on the state of the job. *)
Definition check_lifecycle (item : JobListItem) (r : JobRow) : result JobAdminError () :=
  match li_status item with
  | Pending =>
      ensure? no_claim r && is_null (completed_at r) && is_null (result_bytes r)
        else AdminDatabase "pending job has terminal or claim metadata" in
      Ok ()
  | Dead =>
      let? _ := validate_dead_lifecycle (li_attempt item) (li_max_attempts item)
                  (error_message r) in
      ensure? no_claim r && is_null (completed_at r) && is_null (result_bytes r)
        else AdminDatabase "dead job has terminal or claim metadata" in
      Ok ()
  | Running =>
      match claimed_at r, lease_expires_at r, claimed_by r, claim_id r with
      | Some claimed, Some lease, Some worker, Some _ =>
          ensure? negb (str_is_empty worker || not_null (completed_at r) || not_null (result_bytes r)
                        || (claimed <? li_created_at item)%Z || (li_updated_at item <? claimed)%Z
                        || (lease <=? claimed)%Z)
            else AdminDatabase "running job has inconsistent lifecycle metadata" in
          Ok ()
      | _, _, _, _ => Err (AdminDatabase "running job is missing claim metadata")
      end
  | Complete =>
      match completed_at r with
      | None => Err (AdminDatabase "complete job is missing completed_at")
      | Some completed =>
          ensure? negb (negb (no_claim r) || is_null (result_bytes r)
                        || (completed <? li_created_at item)%Z
                        || (li_updated_at item <? completed)%Z)
            else AdminDatabase "complete job has inconsistent lifecycle metadata" in
          Ok ()
      end
  end.

Definition detail (r : JobRow) : result JobAdminError JobDetail :=
  let? item := list_item r in
  match (v ← u32_try_from (timeout_secs (spec r)); ok (job_timeout_secs_new v)) with
  | None => Err (AdminDatabase "invalid job timeout")
  | Some timeout =>
      ensure? negb ((MAX_JOB_BLOB_BYTES <? str_len (payload (spec r)))%Z
                    || exceeds (result_bytes r) (λ v, (MAX_JOB_BLOB_BYTES <? str_len v)%Z)
                    || exceeds (error_message r) (λ v, (MAX_JOB_ERROR_BYTES <? str_len v)%Z))
        else AdminDatabase "job detail exceeds configured size bounds" in
      match lengths_total
              [li_worker_namespace item; li_worker_name item; li_worker_version item;
               li_job_type item; li_source_namespace item; li_source_module item] with
      | None => Err (AdminDatabase "job metadata length overflow")
      | Some metadata_bytes =>
          ensure? (metadata_bytes <=? MAX_JOB_METADATA_BYTES)%Z
            else AdminDatabase "job metadata exceeds configured size bounds" in
          let? _ := check_lifecycle item r in
          Ok (mkDetail item (payload (spec r)) (default "" (result_bytes r))
                (default "" (error_message r)) timeout (claimed_at r) (lease_expires_at r)
                (completed_at r) (default "" (claimed_by r)))
      end
  end.

(** ** One job *)

Definition get_job (id : string) (db : Db) : result JobAdminError JobDetail :=
  ensure? negb (str_is_empty (str_trim id)) else Invalid "job_id is required" in
  ensure? pg_text id else AdminDatabase "invalid text" in
  match db_jobs db !! id with
  | None => Err NotFound
  | Some r => detail r
  end.

(** The transaction of a retry: it commits only when the updated row reads back. *)
Definition retry_dead_job (now : Z) (id : string) (db : Db) :
    result JobAdminError (JobDetail * Db) :=
  ensure? negb (str_is_empty (str_trim id)) else Invalid "job_id is required" in
  ensure? pg_text id else AdminDatabase "invalid text" in
  match db_jobs db !! id with
  | None => Err NotFound
  | Some r =>
      let? state := admin_database (job_state_try_from (status r)) in
      ensure? bool_decide (state = Dead)
        else FailedPrecondition ("job is " +:+ job_state_as_str state
                                 +:+ ", only dead jobs can be retried") in
      let s := spec r in
      let channel := worker_channel (worker_namespace s) (worker_name s) (worker_version s) in
      let updated := mkRow s "pending" None (error_message r) 0 now None None None None None in
      match db_store updated db with
      | Err _ => Err (AdminDatabase "update failed")
      | Ok db =>
          let db := db_notify channel id db in
          let? d := detail updated in
          Ok (d, db)
      end
  end.

(** ** The summary *)

Record JobQueueSummary : Type := mkSummary {
  observed_at : Z;
  s_pending : Z;
  s_running : Z;
  s_complete : Z;
  s_dead : Z;
  s_total : Z;
  oldest_pending_at : option Z;
}.

Definition rows (db : Db) : list JobRow := (map_to_list (db_jobs db)).*2.

Definition count_where (p : JobRow → bool) (l : list JobRow) : Z :=
  Z.of_nat (length (filter (λ r, p r = true) l)).

(** SQL's [min]: null on no rows. *)
Definition min_of (l : list Z) : option Z :=
  match l with [] => None | x :: l => Some (foldl Z.min x l) end.

Definition has_status (value : string) (r : JobRow) : bool := String.eqb (status r) value.

Definition summarize_jobs (now : Z) (f : JobFilter) (db : Db) :
    result JobAdminError JobQueueSummary :=
  let? _ := filter_validate f in
  ensure? filter_params_ok f else AdminDatabase "invalid text" in
  let l := filter (λ r, filter_predicates f r = true) (rows db) in
  Ok (mkSummary now (count_where (has_status "pending") l) (count_where (has_status "running") l)
        (count_where (has_status "complete") l) (count_where (has_status "dead") l)
        (Z.of_nat (length l))
        (min_of ((λ r, created_at (spec r)) <$> filter (λ r, has_status "pending" r = true) l))).

(** ** Pages *)

Record JobPage : Type := mkPage { page_jobs : list JobListItem; page_next : option string }.

Section pages.
Context `{CL : CollationLib, CU : CursorLib, SH : Sha256Lib}.

Definition fingerprint (f : JobFilter) (st : option JobState) : string :=
  let sep := String (ascii_of_nat 31) "" in
  sha256_hex (str_join sep
    [default "" (f_worker_namespace f); default "" (f_worker_name f);
     default "" (f_worker_version f); default "" (f_job_type f);
     default "" (f_source_namespace f); default "" (f_source_module f);
     default "" (to_rfc3339 <$> f_created_at_from f);
     default "" (to_rfc3339 <$> f_created_at_before f);
     default "" (job_state_as_str <$> st)]).

Definition decode_cursor (value : string) (f : JobFilter) (st : option JobState) :
    result JobAdminError (option (Z * string)) :=
  if str_is_empty value then Ok None
  else match base64_decode value with
  | None => Err (Invalid "cursor is malformed")
  | Some bytes =>
      match cursor_from_json bytes with
      | None => Err (Invalid "cursor is malformed")
      | Some (v, created, id, filter) =>
          ensure? (v =? 1)%Z && String.eqb filter (fingerprint f st)
            else Invalid "cursor does not match the requested filters" in
          match parse_from_rfc3339 created with
          | None => Err (Invalid "cursor is malformed")
          | Some created =>
              ensure? negb (str_is_empty id) else Invalid "cursor is malformed" in
              Ok (Some (created, id))
          end
      end
  end.

Definition encode_cursor (item : JobListItem) (f : JobFilter) (st : option JobState) : string :=
  base64_encode
    (cursor_to_json 1 (to_rfc3339 (li_created_at item)) (li_job_id item) (fingerprint f st)).

(** [ORDER BY created_at DESC, job_id DESC]. *)
Definition key_cmp (a b : Z * string) : comparison :=
  match (a.1 ?= b.1)%Z with Eq => text_cmp a.2 b.2 | c => c end.

Definition row_key (r : JobRow) : Z * string := (created_at (spec r), job_id (spec r)).

Definition row_cmp (a b : JobRow) : comparison := key_cmp (row_key b) (row_key a).

(** The WHERE clause of a listing. *)
Definition listed (f : JobFilter) (st : option JobState) (cursor : option (Z * string))
    (r : JobRow) : bool :=
  filter_predicates f r
  && match st with Some st => has_status (job_state_as_str st) r | None => true end
  && match cursor with
     | Some key => match key_cmp (row_key r) key with Lt => true | _ => false end
     | None => true
     end.

Definition select_jobs (f : JobFilter) (st : option JobState) (cursor : option (Z * string))
    (db : Db) : list JobRow :=
  sort_by row_cmp (filter (λ r, listed f st cursor r = true) (rows db)).

(** [collect::<Result<Vec<_>, _>>]: the first error. *)
Fixpoint collect_items (l : list JobRow) : result JobAdminError (list JobListItem) :=
  match l with
  | [] => Ok []
  | r :: l =>
      let? item := list_item r in
      let? items := collect_items l in
      Ok (item :: items)
  end.

Definition list_jobs (f : JobFilter) (st : option JobState) (page_size : Z) (cursor : string)
    (db : Db) : result JobAdminError JobPage :=
  let? _ := filter_validate f in
  let page_size := if (page_size =? 0)%Z then DEFAULT_PAGE_SIZE else page_size in
  ensure? (1 <=? page_size)%Z && (page_size <=? MAX_PAGE_SIZE)%Z
    else Invalid "page_size must be in 1..=200" in
  let? cursor := decode_cursor cursor f st in
  ensure? filter_params_ok f && match cursor with Some (_, id) => pg_text id | None => true end
    else AdminDatabase "invalid text" in
  let found := take (Z.to_nat (page_size + 1)) (select_jobs f st cursor db) in
  let has_more := bool_decide (Z.to_nat page_size < length found) in
  let? jobs := collect_items (take (Z.to_nat page_size) found) in
  let next := if has_more then (λ item, encode_cursor item f st) <$> last jobs else None in
  Ok (mkPage jobs next).

(** ** Paging visits every listed job once *)

(** Rows are stored under their identifier. *)
Definition keyed (db : Db) : Prop :=
  ∀ id r, db_jobs db !! id = Some r → job_id (spec r) = id.

Lemma key_cmp_antisym a b : key_cmp b a = CompOpp (key_cmp a b).
Proof.
  unfold key_cmp. rewrite Z.compare_antisym.
  destruct (a.1 ?= b.1)%Z; [apply text_cmp_antisym|done..].
Qed.

Lemma key_cmp_eq a b : key_cmp a b = Eq ↔ a = b.
Proof.
  destruct a as [x s], b as [y t]. unfold key_cmp. cbn.
  destruct (Z.compare_spec x y); [rewrite text_cmp_eq|..]; naive_solver lia.
Qed.

Lemma key_cmp_trans a b c : key_cmp a b = Lt → key_cmp b c = Lt → key_cmp a c = Lt.
Proof.
  destruct a as [x s], b as [y t], c as [z u]. unfold key_cmp. cbn.
  destruct (Z.compare_spec x y); destruct (Z.compare_spec y z); try done; intros H1 H2.
  - rewrite (proj2 (Z.compare_eq_iff _ _)) by lia. by eapply text_cmp_trans.
  - by rewrite (proj2 (Z.compare_lt_iff _ _)) by lia.
  - by rewrite (proj2 (Z.compare_lt_iff _ _)) by lia.
  - by rewrite (proj2 (Z.compare_lt_iff _ _)) by lia.
Qed.

Lemma row_cmp_antisym a b : row_cmp b a = CompOpp (row_cmp a b).
Proof. apply key_cmp_antisym. Qed.

Lemma row_cmp_le_trans a b c : row_cmp a b ≠ Gt → row_cmp b c ≠ Gt → row_cmp a c ≠ Gt.
Proof.
  unfold row_cmp. intros Hab Hbc.
  destruct (key_cmp (row_key b) (row_key a)) eqn:E1; [|..|done].
  { apply key_cmp_eq in E1. by rewrite <-E1. }
  destruct (key_cmp (row_key c) (row_key b)) eqn:E2; [|..|done].
  { apply key_cmp_eq in E2. by rewrite E2, E1. }
  by rewrite (key_cmp_trans _ _ _ E2 E1).
Qed.

Definition row_before (a b : JobRow) : Prop := row_cmp a b = Lt.

#[global] Instance row_before_dec a b : Decision (row_before a b).
Proof. unfold row_before. apply _. Defined.

Lemma row_before_asym a b : row_before a b → row_before b a → False.
Proof. unfold row_before. rewrite (row_cmp_antisym a b). intros ->. done. Qed.

Lemma elem_of_rows db r : r ∈ rows db ↔ ∃ id, db_jobs db !! id = Some r.
Proof.
  unfold rows. rewrite list_elem_of_fmap. split.
  - intros ([id r'] & -> & H). apply elem_of_map_to_list in H. eauto.
  - intros [id H]. exists (id, r). split; [done|]. by apply elem_of_map_to_list.
Qed.

Lemma rows_keys_nodup db : keyed db → NoDup ((λ r, job_id (spec r)) <$> rows db).
Proof.
  intros Hk. unfold rows.
  replace (_ <$> _) with (map_to_list (db_jobs db)).*1; [apply NoDup_fst_map_to_list|].
  rewrite <-list_fmap_compose. apply list_fmap_ext. intros i [id r] Hi. cbn. symmetry. apply Hk.
  apply elem_of_map_to_list. by eapply list_elem_of_lookup_2.
Qed.

Lemma sorted_rows_strict l :
  NoDup ((λ r, job_id (spec r)) <$> l) → StronglySorted row_before (sort_by row_cmp l).
Proof.
  intros Hnd. rewrite <-(sort_by_perm row_cmp l) in Hnd.
  pose proof (sort_by_sorted row_cmp row_cmp_antisym row_cmp_le_trans l) as Hs.
  induction Hs as [|x k Hs IH Hx]; [constructor|]. cbn in Hnd. apply NoDup_cons in Hnd as [Hn Hnd].
  constructor; [by apply IH|]. apply Forall_forall. intros y Hy. unfold row_before.
  pose proof (proj1 (Forall_forall _ _) Hx y Hy) as Hle. cbn in Hle.
  destruct (row_cmp x y) eqn:E; [|done..]. exfalso. apply Hn.
  apply key_cmp_eq in E. injection E as _ <-. by apply (list_elem_of_fmap_2 (λ r, job_id (spec r))).
Qed.

Lemma select_jobs_sorted f st cursor db :
  keyed db → StronglySorted row_before (select_jobs f st cursor db).
Proof.
  intros Hk. apply sorted_rows_strict, NoDup_fmap_filter, rows_keys_nodup, Hk.
Qed.

(** A cursor made from a listed row selects what follows it. *)
Lemma select_jobs_after f st db i r :
  keyed db → select_jobs f st None db !! i = Some r →
  select_jobs f st (Some (row_key r)) db = drop (S i) (select_jobs f st None db).
Proof.
  intros Hk Hi. pose proof (select_jobs_sorted f st None db Hk) as Hs.
  rewrite <-(strictly_sorted_after row_before row_before_asym _ _ _ Hs Hi).
  apply (strictly_sorted_unique row_before row_before_asym).
  - by apply select_jobs_sorted.
  - by apply strictly_sorted_filter.
  - unfold select_jobs. rewrite !sort_by_perm, list_filter_filter.
    apply reflexive_eq, list_filter_iff. intros x. unfold listed, row_before, row_cmp.
    rewrite !andb_true_iff. destruct (key_cmp (row_key x) (row_key r)); naive_solver.
Qed.

(** *** Reading the selected rows *)

Lemma collect_items_Forall2 l items :
  collect_items l = Ok items ↔ Forall2 (λ r item, list_item r = Ok item) l items.
Proof.
  revert items. induction l as [|r l IH]; intros items; cbn.
  - split; [intros [= <-]; constructor|]. by intros ->%Forall2_nil_inv_l.
  - rewrite rbind_ok. split.
    + intros (item & Hr & (k & Hk & [= <-])%rbind_ok). constructor; [done|by apply IH].
    + intros (item & k & Hr & Hk & ->)%Forall2_cons_inv_l. exists item. split; [done|].
      apply rbind_ok. exists k. split; [by apply IH|done].
Qed.

Lemma collect_items_total l :
  (∀ r, r ∈ l → ∃ item, list_item r = Ok item) → ∃ items, collect_items l = Ok items.
Proof.
  induction l as [|r l IH]; intros H; [by eexists|]. destruct (H r) as [item Hi]; [by left|].
  destruct IH as [items Hl]; [intros; apply H; by right|]. exists (item :: items). cbn. by rewrite Hi, Hl.
Qed.

Lemma list_item_key r item : list_item r = Ok item → row_key r = (li_created_at item, li_job_id item).
Proof.
  unfold list_item, row_key. intros (st & _ & H)%rbind_ok.
  apply rbind_ok in H as ([a m] & _ & H). split_cases; naive_solver.
Qed.

Definition item_ok (item : JobListItem) : Prop :=
  (0 ≤ li_created_at item < from_secs 253402300800)%Z ∧
  utf8_valid (li_job_id item) = true ∧ li_job_id item ≠ "" ∧ pg_text (li_job_id item) = true.

Lemma fingerprint_utf8 f st : utf8_valid (fingerprint f st) = true.
Proof.
  apply utf8_valid_ascii. eapply str_all_impl; [|apply sha256_hex_digits].
  intros c. cbn. unfold is_ascii_digit. rewrite orb_true_iff, !byte_in_spec. lia.
Qed.

(** A cursor decodes, under the filters it was made for, to the key of its job. *)
Lemma decode_encode_cursor item f st :
  item_ok item →
  decode_cursor (encode_cursor item f st) f st = Ok (Some (li_created_at item, li_job_id item)).
Proof.
  intros (Ht & Hu & Hne & _). unfold decode_cursor, encode_cursor.
  destruct (str_is_empty _) eqn:E.
  { destruct (base64_encode _) eqn:Eb; [|done].
    apply base64_encode_empty in Eb. by destruct (cursor_to_json_nonempty _ _ _ _ Eb). }
  rewrite base64_decode_encode, cursor_from_to_json
    by eauto using rfc3339_utf8, fingerprint_utf8.
  rewrite String.eqb_refl. cbn -[String.eqb]. rewrite rfc3339_roundtrip by done.
  by destruct (li_job_id item).
Qed.

(** *** Following the cursors *)

(** The cursor that asks for what follows the first [i] jobs. *)
Definition cursor_at (f : JobFilter) (st : option JobState) (items : list JobListItem) (i : nat) :
    string :=
  match i with
  | 0 => ""
  | S j => default "" ((λ item, encode_cursor item f st) <$> items !! j)
  end.

Lemma list_jobs_page f st p db items i :
  keyed db → filter_validate f = Ok () → filter_params_ok f = true →
  (1 ≤ p ≤ MAX_PAGE_SIZE)%Z → collect_items (select_jobs f st None db) = Ok items →
  Forall item_ok items → i ≤ length items →
  list_jobs f st p (cursor_at f st items i) db =
  Ok (mkPage (take (Z.to_nat p) (drop i items))
        (if bool_decide (i + Z.to_nat p < length items)
         then Some (cursor_at f st items (i + Z.to_nat p)) else None)).
Proof.
  intros Hk Hf Hpar Hp Hc Hok Hi. pose proof (proj1 (collect_items_Forall2 _ _) Hc) as Hrel.
  pose proof (Forall2_length _ _ _ Hrel) as Hlen.
  assert (∃ cursor, decode_cursor (cursor_at f st items i) f st = Ok cursor
      ∧ match cursor with Some (_, id) => pg_text id | None => true end = true
      ∧ select_jobs f st cursor db = drop i (select_jobs f st None db)) as (cur & Hd & Hid & Hsel).
  { destruct i as [|j]; [by exists None|].
    destruct (lookup_lt_is_Some_2 items j ltac:(lia)) as [item Hj].
    destruct (Forall2_lookup_r _ _ _ _ _ Hrel Hj) as (r & Hr & Hri).
    pose proof (proj1 (Forall_lookup _ _) Hok _ _ Hj) as Hio.
    exists (Some (li_created_at item, li_job_id item)).
    unfold cursor_at. rewrite Hj. change (default "" _) with (encode_cursor item f st).
    rewrite decode_encode_cursor by done. split_and!; [done|apply Hio|].
    rewrite <-(list_item_key _ _ Hri). by apply select_jobs_after. }
  unfold list_jobs. rewrite Hf. cbn [rbind].
  rewrite (proj2 (Z.eqb_neq p 0)) by lia.
  rewrite (proj2 (Z.leb_le 1 p)), (proj2 (Z.leb_le p MAX_PAGE_SIZE)) by lia. cbn [andb].
  rewrite Hd. cbn [rbind]. rewrite Hpar, Hid. cbn [andb]. rewrite Hsel.
  rewrite take_take, Nat.min_l by lia.
  assert (collect_items (take (Z.to_nat p) (drop i (select_jobs f st None db)))
          = Ok (take (Z.to_nat p) (drop i items))) as ->.
  { apply collect_items_Forall2. by apply Forall2_take, Forall2_drop. }
  cbn [rbind]. f_equal. f_equal.
  rewrite length_take, length_drop, Hlen.
  rewrite (bool_decide_ext _ (i + Z.to_nat p < length items)) by lia.
  case_bool_decide as Hmore; [|done].
  rewrite last_lookup, length_take, length_drop.
  destruct (i + Z.to_nat p) as [|j] eqn:Ej; [lia|].
  rewrite lookup_take_lt, lookup_drop by lia. cbn [cursor_at].
  replace (i + _) with j by lia.
  destruct (lookup_lt_is_Some_2 items j ltac:(lia)) as [item Hj]. by rewrite Hj.
Qed.

(** A client that follows [next_cursor] until there is none. *)
Fixpoint follow_cursors (fuel : nat) (f : JobFilter) (st : option JobState) (p : Z)
    (cursor : string) (db : Db) : option (list JobListItem) :=
  match fuel with
  | 0 => None
  | S fuel =>
      match list_jobs f st p cursor db with
      | Err _ => None
      | Ok page =>
          match page_next page with
          | None => Some (page_jobs page)
          | Some cursor => app (page_jobs page) <$> follow_cursors fuel f st p cursor db
          end
      end
  end.

Lemma follow_cursors_from f st p db items fuel i :
  keyed db → filter_validate f = Ok () → filter_params_ok f = true →
  (1 ≤ p ≤ MAX_PAGE_SIZE)%Z → collect_items (select_jobs f st None db) = Ok items →
  Forall item_ok items → i ≤ length items → length items - i < fuel →
  follow_cursors fuel f st p (cursor_at f st items i) db = Some (drop i items).
Proof.
  intros Hk Hf Hpar Hp Hc Hok. revert i. induction fuel as [|fuel IH]; intros i Hi Hfuel; [lia|].
  cbn [follow_cursors]. rewrite (list_jobs_page f st p db items i) by done. cbn [page_next page_jobs].
  case_bool_decide as Hmore.
  - rewrite IH by lia. cbn. rewrite <-drop_drop. by rewrite take_drop.
  - rewrite take_ge; [done|]. rewrite length_drop. lia.
Qed.

End pages.
