(* ===== verification/JobLifecycle.v ===== *)
(** * The lifecycle of jobs: what the queue promises

    The specification of the job queue is a machine on jobs that wait, are held
    under a claim, are done or have exhausted their attempts. The SQL of
    [JobQueue] and [JobAdmin] refines it: every statement, run on a table that
    represents a queue, succeeds or refuses its arguments, never violates a
    constraint, and leaves a table that represents the queue after the events the
    statement reports. What the machine guarantees on every history then holds of
    the table. *)

From S2P Require Import Prelude RustStr Utf8 Lists Externals Models Identity JobQueue JobAdmin.

(** ** The machine *)

Inductive Phase : Type :=
| Waiting
| Held (claim : Z) (worker : string) (since : Z)
| Done (bytes : string) (at_time : Z)
| Exhausted.

Record Job : Type := mkJob {
  j_spec : JobSpec;
  j_error : option string;
  j_attempt : Z;
  j_updated : Z;
  j_phase : Phase;
}.

Abbreviation Queue := (gmap string Job).

Definition start_job (now : Z) (s : JobSpec) : Job := mkJob s None 0 now Waiting.

Definition hold_job (now : Z) (c : Z) (worker : string) (j : Job) : Job :=
  mkJob (j_spec j) (j_error j) (j_attempt j + 1) now (Held c worker now).

Definition finish_job (now : Z) (bytes : string) (j : Job) : Job :=
  mkJob (j_spec j) (j_error j) (j_attempt j) now (Done bytes now).

Definition release_job (now : Z) (msg : string) (j : Job) : Job :=
  mkJob (j_spec j) (Some msg) (j_attempt j) now
    (if (j_attempt j <? max_attempts (j_spec j))%Z then Waiting else Exhausted).

Definition restart_job (now : Z) (j : Job) : Job :=
  mkJob (j_spec j) (j_error j) 0 now Waiting.

Definition lease_end (j : Job) (since : Z) : Z := (since + from_secs (timeout_secs (j_spec j)))%Z.

(** What happens to the queue. *)
Inductive event : Type :=
| Submitted (id : string)
| Claimed (id : string) (c : Z)
| Completed (id : string) (c : Z)
| Failed (id : string) (c : Z)
| Recovered (id : string) (c : Z)
| Retried (id : string).

(** The bounds a submission is admitted with. *)
Definition metadata (s : JobSpec) : list string :=
  [worker_namespace s; worker_name s; worker_version s; job_type s; source_namespace s;
   source_module s].

Definition total_length (l : list string) : Z := foldr (λ s n, (str_len s + n)%Z) 0%Z l.

(** [Uuid::to_string]: 36 hexadecimal digits and hyphens. *)
Definition uuid_text (s : string) : bool :=
  (str_len s =? 36)%Z && str_all (λ c, is_ascii_hexdigit c || char_eqb c "-") s.

Definition spec_ok (s : JobSpec) : Prop :=
  (str_len (payload s) ≤ MAX_JOB_BLOB_BYTES)%Z ∧
  (total_length (metadata s) ≤ MAX_JOB_METADATA_BYTES)%Z ∧
  (0 < timeout_secs s ≤ I32_MAX)%Z ∧ (0 < max_attempts s ≤ I32_MAX)%Z.

(** Error texts that PostgreSQL takes and the reader accepts. *)
Definition error_ok (e : string) : Prop :=
  utf8_valid e = true ∧ pg_text e = true ∧ e ≠ "" ∧ (str_len e ≤ MAX_JOB_ERROR_BYTES)%Z.

Inductive queue_step (now : Z) : event → Queue → Queue → Prop :=
| step_submit q s :
    q !! job_id s = None → uuid_text (job_id s) = true → spec_ok s → created_at s = now →
    queue_step now (Submitted (job_id s)) q (<[job_id s := start_job now s]> q)
| step_claim q id j c worker :
    q !! id = Some j → j_phase j = Waiting → worker ≠ "" →
    queue_step now (Claimed id c) q (<[id := hold_job now c worker j]> q)
| step_complete q id j c worker since bytes :
    q !! id = Some j → j_phase j = Held c worker since →
    (str_len bytes ≤ MAX_JOB_BLOB_BYTES)%Z →
    queue_step now (Completed id c) q (<[id := finish_job now bytes j]> q)
| step_fail q id j c worker since msg :
    q !! id = Some j → j_phase j = Held c worker since → error_ok msg →
    queue_step now (Failed id c) q (<[id := release_job now msg j]> q)
| step_recover q id j c worker since msg :
    q !! id = Some j → j_phase j = Held c worker since → error_ok msg →
    (lease_end j since ≤ now)%Z →
    queue_step now (Recovered id c) q (<[id := release_job now msg j]> q)
| step_retry q id j :
    q !! id = Some j → j_phase j = Exhausted →
    queue_step now (Retried id) q (<[id := restart_job now j]> q).

(** Several events at one instant. *)
Inductive queue_steps (now : Z) : list event → Queue → Queue → Prop :=
| steps_nil q : queue_steps now [] q q
| steps_cons e es q1 q2 q3 :
    queue_step now e q1 q2 → queue_steps now es q2 q3 → queue_steps now (e :: es) q1 q3.

(** *** The invariant of a job *)

Definition phase_ok (j : Job) : Prop :=
  let s := j_spec j in
  match j_phase j with
  | Waiting => (j_attempt j < max_attempts s)%Z
  | Held _ worker since =>
      (1 ≤ j_attempt j)%Z ∧ worker ≠ "" ∧ (created_at s ≤ since ≤ j_updated j)%Z
  | Done bytes at_time =>
      (1 ≤ j_attempt j)%Z ∧ (str_len bytes ≤ MAX_JOB_BLOB_BYTES)%Z
      ∧ (created_at s ≤ at_time ≤ j_updated j)%Z
  | Exhausted => j_attempt j = max_attempts s ∧ is_Some (j_error j)
  end.

Definition job_ok (now : Z) (j : Job) : Prop :=
  uuid_text (job_id (j_spec j)) = true ∧ spec_ok (j_spec j)
  ∧ (created_at (j_spec j) ≤ j_updated j ≤ now)%Z
  ∧ (0 ≤ j_attempt j ≤ max_attempts (j_spec j))%Z
  ∧ (∀ e, j_error j = Some e → error_ok e)
  ∧ phase_ok j.

Definition queue_ok (now : Z) (q : Queue) : Prop :=
  ∀ id j, q !! id = Some j → job_id (j_spec j) = id ∧ job_ok now j.

Lemma queue_ok_insert now q id j :
  queue_ok now q → job_id (j_spec j) = id → job_ok now j → queue_ok now (<[id := j]> q).
Proof. intros Hq Hid Hj id' j' [[-> <-]|[_ ?]]%lookup_insert_Some; [done|by apply Hq]. Qed.

Lemma queue_ok_later now now' q : (now ≤ now')%Z → queue_ok now q → queue_ok now' q.
Proof.
  intros Hle Hq id j Hj. destruct (Hq id j Hj) as (? & ? & ? & ? & ?).
  unfold job_ok. split_and!; try lia; naive_solver.
Qed.

Lemma queue_step_ok now e q q' : queue_step now e q q' → queue_ok now q → queue_ok now q'.
Proof.
  intros Hs Hq.
  destruct Hs as [q s Hn Hu Hs Hc|q id j c w Hj Hp Hw|q id j c w t b Hj Hp Hb
    |q id j c w t m Hj Hp Hm|q id j c w t m Hj Hp Hm Ht|q id j Hj Hp].
  { apply queue_ok_insert; [done..|]. unfold job_ok, phase_ok. cbn.
    pose proof Hs as (_ & _ & _ & ?). split_and!; [done|done|lia..|done|lia]. }
  all: destruct (Hq id j Hj) as (Hid & Hu & Hs & Ht' & Ha & He & Hph);
    apply queue_ok_insert; [done..|]; unfold phase_ok in Hph; rewrite Hp in Hph;
    pose proof Hs as (_ & _ & _ & ?);
    unfold job_ok, phase_ok; cbn; split_and!; try done; try lia.
  all: try (intros e [= <-]; done).
  all: destruct (Z.ltb_spec (j_attempt j) (max_attempts (j_spec j))); [done|].
  all: split; [lia|by eexists].
Qed.

Lemma queue_steps_ok now es q q' : queue_steps now es q q' → queue_ok now q → queue_ok now q'.
Proof. induction 1; eauto using queue_step_ok. Qed.

Lemma queue_steps_app now es1 es2 q1 q2 q3 :
  queue_steps now es1 q1 q2 → queue_steps now es2 q2 q3 → queue_steps now (es1 ++ es2) q1 q3.
Proof. induction 1; [done|]. intros. econstructor; eauto. Qed.

(** ** Representation in the table *)

Definition row_of (j : Job) : JobRow :=
  let row st := mkRow (j_spec j) st in
  match j_phase j with
  | Waiting =>
      row "pending" None (j_error j) (j_attempt j) (j_updated j) None None None None None
  | Held c worker since =>
      row "running" None (j_error j) (j_attempt j) (j_updated j) (Some since) None (Some worker)
        (Some c) (Some (lease_end j since))
  | Done bytes at_time =>
      row "complete" (Some bytes) (j_error j) (j_attempt j) (j_updated j) None (Some at_time)
        None None None
  | Exhausted =>
      row "dead" None (j_error j) (j_attempt j) (j_updated j) None None None None None
  end.

Definition represents (db : Db) (q : Queue) : Prop := db_jobs db = row_of <$> q.

Lemma row_of_spec j : spec (row_of j) = j_spec j.
Proof. unfold row_of. by destruct (j_phase j). Qed.

Lemma row_of_attempt j : attempt (row_of j) = j_attempt j.
Proof. unfold row_of. by destruct (j_phase j). Qed.

Lemma row_of_error j : error_message (row_of j) = j_error j.
Proof. unfold row_of. by destruct (j_phase j). Qed.

Lemma row_of_updated j : updated_at (row_of j) = j_updated j.
Proof. unfold row_of. by destruct (j_phase j). Qed.

(** *** Sums of lengths *)

Lemma total_length_cons s l : total_length (s :: l) = (str_len s + total_length l)%Z.
Proof. done. Qed.

Lemma total_length_nonneg l : (0 ≤ total_length l)%Z.
Proof.
  induction l as [|s l IH]; [done|]. rewrite total_length_cons.
  pose proof (str_len_nonneg s). lia.
Qed.

Lemma lengths_total_from l acc n :
  (0 ≤ acc)%Z →
  foldl (λ total value, t ← total; usize_checked_add t (str_len value)) (Some acc) l = Some n ↔
  n = (acc + total_length l)%Z ∧ (l = [] ∨ n ≤ U64_MAX)%Z.
Proof.
  assert (∀ k : list string,
    foldl (λ total value, t ← total; usize_checked_add t (str_len value)) None k = None) as Hnone
    by (intros k; induction k; done).
  revert acc. induction l as [|s l IH]; intros acc Hacc.
  - cbn. rewrite Z.add_0_r. naive_solver.
  - pose proof (str_len_nonneg s) as Hs. pose proof (total_length_nonneg l) as Hl.
    cbn [foldl mbind option_bind]. rewrite total_length_cons.
    unfold usize_checked_add. destruct (Z.leb_spec (acc + str_len s) U64_MAX) as [Hle|Hgt].
    + rewrite IH by lia. split; intros [-> H]; (split; [lia|]); [|lia || naive_solver lia].
      right. destruct H as [->|?]; [cbn; lia|lia].
    + rewrite Hnone. split; [done|]. intros [-> [?|?]]; [done|lia].
Qed.

(** The fold over [checked_add] is the sum, when it is below the metadata bound. *)
Lemma lengths_total_le l bound :
  (bound ≤ U64_MAX)%Z →
  match lengths_total l with Some n => (n <=? bound)%Z | None => false end
  = (total_length l <=? bound)%Z.
Proof.
  intros Hb. unfold lengths_total. destruct (foldl _ _ _) as [n|] eqn:E.
  - apply lengths_total_from in E as [-> _]; [|done]. done.
  - symmetry. apply Z.leb_gt. apply Z.lt_nge. intros Hle.
    assert (Some (0 + total_length l)%Z = None) as Hcontra; [|done].
    rewrite <-E. symmetry. apply lengths_total_from; [done|]. split; [done|right; lia].
Qed.

(** *** Rows that represent jobs satisfy the constraints *)

Lemma row_of_constraints now j : job_ok now j → jobs_constraints (row_of j) = true.
Proof.
  intros (_ & (_ & _ & Ht & Hm) & _ & Ha & He & Hp). unfold jobs_constraints.
  rewrite row_of_spec, row_of_attempt.
  rewrite !andb_true_iff, !Z.ltb_lt, !Z.leb_le.
  split_and!; try lia; unfold row_of, phase_ok in *;
    destruct (j_phase j); cbn; try done.
  destruct Hp as [-> [e Hj]]. unfold jobs_dead_lifecycle_valid. cbn.
  rewrite Z.eqb_refl, Hj. destruct (He e Hj) as (_ & _ & Hne & _). by destruct e.
Qed.

Lemma db_store_represents now db q j :
  represents db q → job_ok now j →
  ∃ db', db_store (row_of j) db = Ok db' ∧ represents db' (<[job_id (j_spec j) := j]> q)
    ∧ db_notices db' = db_notices db.
Proof.
  intros Hr Hj. unfold db_store. rewrite (row_of_constraints now) by done.
  pose proof Hj as (_ & (_ & _ & _ & Hm) & _ & Ha & _).
  rewrite row_of_attempt, (proj2 (Z.leb_le _ _)) by lia.
  eexists. split_and!; [done| |done]. unfold represents in *. cbn.
  by rewrite Hr, fmap_insert, row_of_spec.
Qed.

Lemma represents_lookup db q id :
  represents db q → db_jobs db !! id = row_of <$> q !! id.
Proof. intros ->. apply lookup_fmap. Qed.

Lemma row_of_status j st :
  String.eqb (status (row_of j)) (job_state_as_str st) = true ↔
  st = match j_phase j with Waiting => Pending | Held _ _ _ => Running
       | Done _ _ => Complete | Exhausted => Dead end.
Proof. unfold row_of. destruct (j_phase j), st; cbn; split; done. Qed.

(** *** Submission *)

(** The job a submission stands for, with the defaults filled in. *)
Definition submitted_spec (now : Z) (new_id ns name version ty body : string)
    (timeout max : Z) (src_ns src_mod : string) : JobSpec :=
  mkSpec new_id ns name version ty body (if (max =? 0)%Z then 3%Z else max)
    (if (timeout =? 0)%Z then 300%Z else timeout) now src_ns src_mod.

Definition spec_texts (s : JobSpec) : bool :=
  forallb pg_text (job_id s :: metadata s).

Lemma positive_u32_new_ok label v : v ≠ 0%Z → positive_u32_new label v = Ok v.
Proof. intros Hv. unfold positive_u32_new. by rewrite (proj2 (Z.eqb_neq _ _) Hv). Qed.

Lemma notify_new_job_channel j db :
  notify_new_job (row_of j) db =
  db_notify (worker_channel (worker_namespace (j_spec j)) (worker_name (j_spec j))
               (worker_version (j_spec j))) (job_id (j_spec j)) db.
Proof.
  unfold notify_new_job, worker_channel. rewrite row_of_spec.
  by destruct (worker_version (j_spec j)).
Qed.

(** The tests of [insert_job] before its statement. *)
Definition admitted (s : JobSpec) : bool :=
  (str_len (payload s) <=? MAX_JOB_BLOB_BYTES)%Z
  && (total_length (metadata s) <=? MAX_JOB_METADATA_BYTES)%Z
  && (timeout_secs s <=? I32_MAX)%Z && (max_attempts s <=? I32_MAX)%Z.

Lemma insert_job_admitted now new_id ns name version ty body timeout max src_ns src_mod db :
  let s := submitted_spec now new_id ns name version ty body timeout max src_ns src_mod in
  match insert_job now new_id ns name version ty body timeout max src_ns src_mod db with
  | Ok x => admitted s = true ∧ db_result (sql_insert now s db) = Ok x.2 ∧ x.1 = new_id
  | Err e => (admitted s = false ∧ ∀ d, e ≠ Database d)
      ∨ (admitted s = true ∧ db_result (sql_insert now s db) = Err e)
  end.
Proof.
  unfold insert_job, admitted. cbv zeta.
  destruct (Z.leb_spec (str_len body) MAX_JOB_BLOB_BYTES); [|left].
  2: { cbn [payload submitted_spec]. by rewrite (proj2 (Z.leb_gt _ _)) by lia. }
  pose proof (lengths_total_le [ns; name; version; ty; src_ns; src_mod] MAX_JOB_METADATA_BYTES
    ltac:(done)) as Hl.
  cbn [payload submitted_spec]. rewrite (proj2 (Z.leb_le _ _)) by lia.
  unfold metadata. cbn [worker_namespace worker_name worker_version job_type source_namespace
    source_module submitted_spec]. rewrite <-Hl.
  destruct (lengths_total _) as [n|]; [|by left].
  destruct (n <=? MAX_JOB_METADATA_BYTES)%Z; [|by left].
  unfold job_timeout_secs_new, max_attempts_new.
  rewrite !positive_u32_new_ok
    by (match goal with |- context [(?v =? 0)%Z] => destruct (Z.eqb_spec v 0) end; done).
  unfold i32_try_from. cbn [timeout_secs max_attempts submitted_spec].
  destruct (_ <=? I32_MAX)%Z; [|by left]. destruct (_ <=? I32_MAX)%Z; [|by left]. cbn [andb].
  unfold submitted_spec. destruct (db_result _); [done|by right].
Qed.

Lemma admitted_ok s :
  (0 < timeout_secs s)%Z → (0 < max_attempts s)%Z → admitted s = true ↔ spec_ok s.
Proof.
  intros Ht Hm. unfold admitted, spec_ok. rewrite !andb_true_iff, !Z.leb_le. lia.
Qed.

Lemma sql_insert_refines now s db q :
  represents db q → uuid_text (job_id s) = true → spec_ok s → created_at s = now →
  match sql_insert now s db with
  | Ok db' => queue_step now (Submitted (job_id s)) q (<[job_id s := start_job now s]> q)
      ∧ represents db' (<[job_id s := start_job now s]> q)
      ∧ db_notices db' = db_notices db ++
          [(worker_channel (worker_namespace s) (worker_name s) (worker_version s), job_id s)]
  | Err e => (e = InvalidText ∧ spec_texts s = false) ∨ (e = UniqueViolation ∧ is_Some (q !! job_id s))
  end.
Proof.
  intros Hr Hu Hs Hc. unfold sql_insert.
  assert (pg_text (job_id s) && pg_text (worker_namespace s) && pg_text (worker_name s)
    && pg_text (worker_version s) && pg_text (job_type s) && pg_text (source_namespace s)
    && pg_text (source_module s) = spec_texts s) as ->.
  { unfold spec_texts. cbn [forallb metadata]. by rewrite andb_true_r, !andb_assoc. }
  destruct (spec_texts s); [|by left].
  rewrite (represents_lookup db q) by done.
  destruct (q !! job_id s) as [j|] eqn:Hq; cbn [fmap option_fmap option_map is_null]; [right; eauto|].
  change (mkRow s "pending" None None 0 now None None None None None)
    with (row_of (start_job now s)).
  assert (job_ok now (start_job now s)) as Hj.
  { pose proof Hs as (_ & _ & _ & ?). unfold job_ok, phase_ok. cbn. split_and!; [done|done|lia..|done|lia]. }
  destruct (db_store_represents now db q _ Hr Hj) as (db' & -> & Hr' & Hn). cbn [rbind].
  rewrite notify_new_job_channel. split_and!; [by apply step_submit|done|].
  unfold db_notify. cbn [db_notices]. by rewrite Hn.
Qed.

Lemma submitted_spec_positive now new_id ns name version ty body timeout max src_ns src_mod :
  (0 ≤ timeout)%Z → (0 ≤ max)%Z →
  let s := submitted_spec now new_id ns name version ty body timeout max src_ns src_mod in
  (0 < timeout_secs s)%Z ∧ (0 < max_attempts s)%Z.
Proof.
  intros Ht Hm. cbn. destruct (Z.eqb_spec timeout 0), (Z.eqb_spec max 0); lia.
Qed.

Lemma insert_job_refines now new_id ns name version ty body timeout max src_ns src_mod db q :
  represents db q → uuid_text new_id = true → (0 ≤ timeout)%Z → (0 ≤ max)%Z →
  let s := submitted_spec now new_id ns name version ty body timeout max src_ns src_mod in
  match insert_job now new_id ns name version ty body timeout max src_ns src_mod db with
  | Ok (id, db') => id = new_id
      ∧ queue_step now (Submitted id) q (<[id := start_job now s]> q)
      ∧ represents db' (<[id := start_job now s]> q)
      ∧ db_notices db' = db_notices db ++ [(worker_channel ns name version, id)]
  | Err e => (¬ spec_ok s ∧ ∀ d, e ≠ Database d)
      ∨ (e = Database InvalidText ∧ spec_texts s = false)
      ∨ (e = Database UniqueViolation ∧ is_Some (q !! new_id))
  end.
Proof.
  intros Hr Hu Ht Hm s. pose proof (submitted_spec_positive now new_id ns name version ty body
    timeout max src_ns src_mod Ht Hm) as [Hst Hsm]. fold s in Hst, Hsm.
  pose proof (insert_job_admitted now new_id ns name version ty body timeout max src_ns src_mod db)
    as Hi. cbv zeta in Hi. fold s in Hi.
  destruct (insert_job _ _ _ _ _ _ _ _ _ _ _ _) as [[id db']|e].
  - destruct Hi as (Ha & Hsql & Hid). cbn in Hid. subst id. split; [done|].
    apply admitted_ok in Ha; [|done..].
    pose proof (sql_insert_refines now s db q Hr Hu Ha eq_refl) as H.
    destruct (sql_insert now s db) as [db''|]; [|done]. injection Hsql as ->. done.
  - destruct Hi as [[Ha He]|[Ha Hsql]].
    + left. rewrite <-admitted_ok by done. by rewrite Ha.
    + right. apply admitted_ok in Ha; [|done..].
      pose proof (sql_insert_refines now s db q Hr Hu Ha eq_refl) as H.
      destruct (sql_insert now s db); [done|]. naive_solver.
Qed.

(** *** Claims *)

Lemma oldest_nonempty l : l ≠ [] → oldest l ≠ [].
Proof.
  intros Hl.
  assert (∃ r, r ∈ l ∧ ∀ x, x ∈ l → (created_at (spec r) ≤ created_at (spec x))%Z)
    as (r & Hr & Hmin).
  { clear -Hl. induction l as [|y l IH]; [done|]. destruct l as [|z l].
    - exists y. split; [by left|]. intros x ->%list_elem_of_singleton. lia.
    - destruct IH as (r & Hr & Hmin); [done|].
      destruct (Z.le_ge_cases (created_at (spec y)) (created_at (spec r))).
      + exists y. split; [by left|]. intros x [->|Hx]%elem_of_cons; [lia|].
        specialize (Hmin x Hx). lia.
      + exists r. split; [by right|]. intros x [->|Hx]%elem_of_cons; [lia|by apply Hmin]. }
  intros E. assert (r ∈ oldest l) as H; [|rewrite E in H; by apply elem_of_nil in H].
  apply list_elem_of_filter. split; [|done]. apply forallb_forall. intros x Hx.
  apply Z.leb_le, Hmin. by apply list_elem_of_In.
Qed.

(** The rows the subselect of a claim ranges over. *)
Definition claim_candidate ns name version locked (db : Db) (r : JobRow) : Prop :=
  r ∈ rows db ∧ claimable ns name version locked r = true.

Lemma claim_select_spec tie ns name version locked db :
  match claim_select tie ns name version locked db with
  | Some r => claim_candidate ns name version locked db r
      ∧ ∀ x, claim_candidate ns name version locked db x →
          (created_at (spec r) ≤ created_at (spec x))%Z
  | None => ∀ r, ¬ claim_candidate ns name version locked db r
  end.
Proof.
  unfold claim_select, claim_candidate, rows.
  set (l := filter _ (map_to_list (db_jobs db)).*2). cbv zeta.
  destruct (oldest l !! _) as [r|] eqn:E.
  - apply list_elem_of_lookup_2, list_elem_of_filter in E as [Hf Hr].
    apply list_elem_of_filter in Hr as [Hc Hr]. split; [done|].
    intros x [Hx Hcx]. apply Z.leb_le. rewrite forallb_forall in Hf. apply Hf.
    apply list_elem_of_In, list_elem_of_filter. done.
  - intros r [Hr Hc].
    assert (oldest l ≠ []) as Hne.
    { apply oldest_nonempty. intros El. assert (r ∈ l) as H; [|rewrite El in H; by apply elem_of_nil in H].
      by apply list_elem_of_filter. }
    apply lookup_ge_None in E.
    assert (length (oldest l) ≠ 0) by (by destruct (oldest l)).
    pose proof (Nat.mod_upper_bound tie (length (oldest l))). lia.
Qed.

Lemma claimable_waiting ns name version locked j :
  claimable ns name version locked (row_of j) = true → j_phase j = Waiting.
Proof.
  unfold claimable. rewrite !andb_true_iff. intros [[_ Hst] _].
  apply (row_of_status j Pending) in Hst. by destruct (j_phase j).
Qed.

Lemma claim_candidate_job ns name version locked db q r :
  represents db q → claim_candidate ns name version locked db r →
  ∃ id j, q !! id = Some j ∧ r = row_of j ∧ j_phase j = Waiting.
Proof.
  intros Hr [Hin Hc]. apply elem_of_rows in Hin as [id Hid].
  rewrite (represents_lookup db q) in Hid by done.
  apply fmap_Some in Hid as (j & Hj & ->). exists id, j.
  split_and!; [done..|]. by eapply claimable_waiting.
Qed.

Lemma row_of_hold now c worker j :
  j_phase j = Waiting →
  mkRow (spec (row_of j)) "running" (result_bytes (row_of j)) (error_message (row_of j))
    (attempt (row_of j) + 1) now (Some now) (completed_at (row_of j)) (Some worker) (Some c)
    (Some (now + from_secs (timeout_secs (spec (row_of j))))%Z)
  = row_of (hold_job now c worker j).
Proof. intros Hp. unfold row_of. rewrite Hp. done. Qed.

Lemma claim_job_refines now tie locked ns name version engine c db q :
  represents db q → queue_ok now q → engine ≠ "" →
  match claim_job now tie locked ns name version engine c db with
  | Ok (Some job, db') => ∃ j q', q !! cj_job_id job = Some j
      ∧ claim_candidate ns name version locked db (row_of j)
      ∧ (∀ x, claim_candidate ns name version locked db x →
           (created_at (j_spec j) ≤ created_at (spec x))%Z)
      ∧ job = mkClaimed (job_id (j_spec j)) (job_type (j_spec j)) (payload (j_spec j)) c
      ∧ queue_step now (Claimed (cj_job_id job) c) q q'
      ∧ q' = <[cj_job_id job := hold_job now c engine j]> q
      ∧ represents db' q' ∧ db_notices db' = db_notices db
  | Ok (None, db') => db' = db ∧ ∀ r, ¬ claim_candidate ns name version locked db r
  | Err e => e = Database InvalidText
      ∧ pg_text ns && pg_text name && pg_text version && pg_text engine = false
  end.
Proof.
  intros Hr Hq Hne. unfold claim_job.
  destruct (_ && _ && _ && _); [|done].
  pose proof (claim_select_spec tie ns name version locked db) as Hsel.
  destruct (claim_select _ _ _ _ _ _) as [r|]; [|done]. destruct Hsel as [Hc Hmin].
  destruct (claim_candidate_job _ _ _ _ _ _ _ Hr Hc) as (id & j & Hj & -> & Hw).
  destruct (Hq id j Hj) as [Hid Hok].
  cbv zeta. rewrite row_of_hold by done.
  assert (queue_step now (Claimed id c) q (<[id := hold_job now c engine j]> q)) as Hstep
    by (by eapply step_claim).
  pose proof (queue_step_ok _ _ _ _ Hstep Hq id _ (lookup_insert_eq _ _ _)) as [_ Hok'].
  destruct (db_store_represents now db q _ Hr Hok') as (db' & Hst & Hr' & Hn).
  rewrite Hst. cbn [db_result rbind]. rewrite !row_of_spec in *.
  cbn [cj_job_id]. rewrite Hid. exists j, (<[id := hold_job now c engine j]> q).
  split_and!; try done.
  - by rewrite Hid.
  - cbn [hold_job j_spec] in Hr'. by rewrite Hid in Hr'.
Qed.

(** *** Finalization *)

Lemma active_claim_held id c db q :
  represents db q →
  active_claim id c db = match q !! id with
    | Some j => match j_phase j with
                | Held c' _ _ => if decide (c' = c) then Some (row_of j) else None
                | _ => None
                end
    | None => None
    end.
Proof.
  intros Hr. unfold active_claim. rewrite (represents_lookup db q) by done.
  destruct (q !! id) as [j|]; [|done]. cbn [fmap option_fmap option_map mbind option_bind].
  unfold row_of. destruct (j_phase j) as [|c' w t| |]; try done.
  cbn. destruct (decide (c' = c)) as [->|Hne]; [by rewrite bool_decide_true|].
  by rewrite bool_decide_false by congruence.
Qed.

(** An UPDATE under a claim moves the held job to the job its new row represents. *)
Lemma update_claim_refines now id c set next e db q :
  represents db q → queue_ok now q →
  (∀ j w t, q !! id = Some j → j_phase j = Held c w t →
     set (row_of j) = row_of (next j) ∧ queue_step now (e id c) q (<[id := next j]> q)) →
  match update_claim id c set db with
  | Ok (n, db') =>
      (n = 1%Z ∧ ∃ j w t, q !! id = Some j ∧ j_phase j = Held c w t
         ∧ queue_step now (e id c) q (<[id := next j]> q)
         ∧ represents db' (<[id := next j]> q) ∧ db_notices db' = db_notices db)
      ∨ (n = 0%Z ∧ db' = db ∧ ∀ j w t, q !! id = Some j → j_phase j ≠ Held c w t)
  | Err _ => False
  end.
Proof.
  intros Hr Hq Hset. unfold update_claim. rewrite (active_claim_held id c db q) by done.
  destruct (q !! id) as [j|] eqn:Hj; [|right; naive_solver].
  destruct (j_phase j) as [|c' w t| |] eqn:Hp;
    try (right; split_and!; [done|done|]; intros j' w' t' [= <-]; congruence).
  destruct (decide (c' = c)) as [->|Hne]; [|right; split_and!; [done..|]; intros; congruence].
  destruct (Hset j w t eq_refl Hp) as [-> Hstep].
  pose proof (queue_step_ok _ _ _ _ Hstep Hq id _ (lookup_insert_eq _ _ _)) as [Hid Hok].
  destruct (db_store_represents now db q _ Hr Hok) as (db' & -> & Hr' & Hn).
  cbn [rbind]. rewrite Hid in Hr'. left. split; [done|]. exists j, w, t. done.
Qed.

Lemma complete_job_refines now id c bytes db q :
  represents db q → queue_ok now q →
  match complete_job now id c bytes db with
  | Ok (Applied, db') => ∃ j w t, q !! id = Some j ∧ j_phase j = Held c w t
      ∧ queue_step now (Completed id c) q (<[id := finish_job now bytes j]> q)
      ∧ represents db' (<[id := finish_job now bytes j]> q) ∧ db_notices db' = db_notices db
  | Ok (Stale, db') => db' = db ∧ ∀ j w t, q !! id = Some j → j_phase j ≠ Held c w t
  | Err e => (e = ResultTooLarge ∧ (MAX_JOB_BLOB_BYTES < str_len bytes)%Z)
      ∨ (e = Database InvalidText ∧ pg_text id = false)
  end.
Proof.
  intros Hr Hq. unfold complete_job.
  destruct (Z.leb_spec (str_len bytes) MAX_JOB_BLOB_BYTES) as [Hb|Hb]; [|by left].
  destruct (pg_text id); [|by right].
  pose proof (update_claim_refines now id c (λ r,
    mkRow (spec r) "complete" (Some bytes) (error_message r) (attempt r) now
      None (Some now) None None None) (finish_job now bytes) Completed db q Hr Hq) as H.
  destruct (update_claim _ _ _ _) as [[n db']|]; cbn [db_result rbind].
  - destruct H as [(-> & H)|(-> & H)]; [|done..].
    intros j w t Hj Hp. split; [by unfold row_of; rewrite Hp|by eapply step_complete].
  - destruct H. intros j w t Hj Hp.
    split; [by unfold row_of; rewrite Hp|by eapply step_complete].
Qed.

Lemma row_of_release now msg j c w t :
  j_phase j = Held c w t →
  mkRow (spec (row_of j)) (retry_or_dead (row_of j)) (result_bytes (row_of j)) (Some msg)
    (attempt (row_of j)) now None (completed_at (row_of j)) None None None
  = row_of (release_job now msg j).
Proof.
  intros Hp. unfold retry_or_dead. rewrite row_of_spec, row_of_attempt.
  unfold row_of, release_job. rewrite Hp. cbn. by destruct (_ <? _)%Z.
Qed.

Lemma fail_job_refines now id c msg db q :
  represents db q → queue_ok now q → utf8_valid msg = true →
  match fail_job now id c msg db with
  | Ok (Applied, db') => ∃ j w t, q !! id = Some j ∧ j_phase j = Held c w t
      ∧ queue_step now (Failed id c) q (<[id := release_job now msg j]> q)
      ∧ represents db' (<[id := release_job now msg j]> q) ∧ db_notices db' = db_notices db
  | Ok (Stale, db') => db' = db ∧ ∀ j w t, q !! id = Some j → j_phase j ≠ Held c w t
  | Err e => (e = ErrorEmpty ∧ msg = "")
      ∨ (e = ErrorTooLarge ∧ (MAX_JOB_ERROR_BYTES < str_len msg)%Z)
      ∨ (e = Database InvalidText ∧ pg_text id && pg_text msg = false)
  end.
Proof.
  intros Hr Hq Hu. unfold fail_job.
  destruct (str_is_empty msg) eqn:He; [left; by destruct msg|]. cbn [negb].
  destruct (Z.leb_spec (str_len msg) MAX_JOB_ERROR_BYTES) as [Hb|Hb]; [|by right; left].
  destruct (pg_text id && pg_text msg) eqn:Ht; [|by right; right].
  assert (error_ok msg) as Hok.
  { apply andb_true_iff in Ht as [_ Ht]. split_and!; [done..| |done]. by intros ->. }
  assert (∀ j w t, q !! id = Some j → j_phase j = Held c w t →
    mkRow (spec (row_of j)) (retry_or_dead (row_of j)) (result_bytes (row_of j)) (Some msg)
      (attempt (row_of j)) now None (completed_at (row_of j)) None None None
    = row_of (release_job now msg j) ∧ queue_step now (Failed id c) q (<[id := release_job now msg j]> q))
    as Hset.
  { intros j w t Hj Hp. split; [by eapply row_of_release|by eapply step_fail]. }
  pose proof (update_claim_refines now id c (λ r,
    mkRow (spec r) (retry_or_dead r) (result_bytes r) (Some msg) (attempt r) now
      None (completed_at r) None None None) (release_job now msg) Failed db q Hr Hq Hset) as H.
  destruct (update_claim _ _ _ _) as [[n db']|]; cbn [db_result rbind]; [|done].
  by destruct H as [(-> & H)|(-> & H)].
Qed.

(** *** Recovery *)

Definition recovery_message (j : Job) : string :=
  utf8_left retained_error_chars (default "" (j_error j)) +:+ " [stale recovery]".

Definition recover_job (now : Z) (j : Job) : Job := release_job now (recovery_message j) j.

(** The kept prefix and the mark together stay within the bound of an error. *)
Lemma recovery_message_ok now j : job_ok now j → error_ok (recovery_message j).
Proof.
  intros (_ & _ & _ & _ & He & _). unfold recovery_message.
  set (e := default "" (j_error j)).
  assert (utf8_valid e = true ∧ pg_text e = true) as [Hu Ht].
  { subst e. destruct (j_error j) as [e|]; [|done]. cbn. by destruct (He e eq_refl) as (? & ? & _). }
  split_and!.
  - by apply utf8_valid_app; [apply utf8_left_valid|].
  - unfold pg_text in *. rewrite str_contains_app, negb_orb, andb_true_iff. split; [|done].
    rewrite negb_true_iff in *. by apply utf8_left_contains.
  - intros E. apply (f_equal String.length) in E. rewrite str_length_app in E. cbn in E. lia.
  - rewrite str_len_app.
    pose proof (utf8_left_length retained_error_chars e ltac:(done) Hu) as Hl.
    fold (str_len (utf8_left retained_error_chars e)) in Hl.
    change (str_len " [stale recovery]") with 17%Z.
    change (4 * retained_error_chars)%Z with 1048448%Z in Hl.
    change MAX_JOB_ERROR_BYTES with 1048576%Z. lia.
Qed.

Definition job_expired (now : Z) (locked : gset string) (j : Job) : bool :=
  match j_phase j with
  | Held _ _ since => (lease_end j since <=? now)%Z && bool_decide (job_id (j_spec j) ∉ locked)
  | _ => false
  end.

Lemma expired_row_of now locked j : expired now locked (row_of j) = job_expired now locked j.
Proof.
  unfold expired, job_expired. rewrite row_of_spec. unfold row_of.
  by destruct (j_phase j); cbn.
Qed.

Lemma recovered_row_of now locked j :
  job_expired now locked j = true → recovered now (row_of j) = row_of (recover_job now j).
Proof.
  unfold job_expired. destruct (j_phase j) as [|c w t| |] eqn:Hp; try done. intros _.
  unfold recovered, recover_job. rewrite <-(row_of_release now _ j c w t) by done.
  unfold recovery_message. by rewrite row_of_error.
Qed.

(** The rows a recovery picks up, and the claims it ends. *)
Definition stale_rows (now : Z) (locked : gset string) (db : Db) : list JobRow :=
  filter (λ r, expired now locked r = true) (rows db).

Definition recovery_event (r : JobRow) : event :=
  Recovered (job_id (spec r)) (default 0%Z (claim_id r)).

(** Updating distinct keys one after the other. *)
Lemma lookup_foldl_alter {A} (f : A → A) (ks : list string) (m : gmap string A) k :
  NoDup ks →
  foldl (λ m k, alter f k m) m ks !! k = if decide (k ∈ ks) then f <$> m !! k else m !! k.
Proof.
  intros Hnd. revert m. induction Hnd as [|x ks Hx Hnd IH]; intros m; cbn [foldl].
  { by rewrite decide_False by apply not_elem_of_nil. }
  rewrite IH, lookup_alter.
  destruct (decide (k = x)) as [->|Hne].
  - rewrite decide_False by done. by rewrite !decide_True by (try left; done).
  - rewrite (decide_False (P := x = k)) by congruence.
    destruct (decide (k ∈ ks)).
    + by rewrite decide_True by (by right).
    + rewrite decide_False; [done|]. by intros [?|?]%elem_of_cons.
Qed.

Lemma recover_steps now locked (l : list Job) (q : Queue) :
  NoDup ((λ j, job_id (j_spec j)) <$> l) →
  Forall (λ j, q !! job_id (j_spec j) = Some j ∧ job_ok now j
                ∧ job_expired now locked j = true) l →
  queue_steps now (recovery_event ∘ row_of <$> l) q
    (foldl (λ m k, alter (recover_job now) k m) q ((λ j, job_id (j_spec j)) <$> l)).
Proof.
  revert q. induction l as [|j l IH]; intros q Hnd Hl; [constructor|].
  cbn [fmap list_fmap] in *. apply NoDup_cons in Hnd as [Hn Hnd].
  apply Forall_cons_1 in Hl as [(Hj & Hok & He) Hl]. cbn [foldl].
  rewrite (alter_lookup_Some _ _ _ _ Hj). eapply steps_cons; [|apply IH; [done|]].
  - unfold job_expired in He. destruct (j_phase j) as [|c w t| |] eqn:Hp; try done.
    apply andb_true_iff in He as [He _]. apply Z.leb_le in He.
    unfold compose, recovery_event. rewrite row_of_spec.
    replace (claim_id (row_of j)) with (Some c) by (unfold row_of; by rewrite Hp).
    eapply step_recover; [done..| |done]. by eapply recovery_message_ok.
  - apply Forall_forall. intros k Hk. destruct (proj1 (Forall_forall _ _) Hl k Hk) as (Hkq & ? & ?).
    split_and!; [|done..]. rewrite lookup_insert_ne; [done|]. intros E. apply Hn. rewrite E.
    by apply (list_elem_of_fmap_2 (λ j, job_id (j_spec j))).
Qed.

Lemma filter_expired_rows now locked (l : list Job) :
  filter (λ r, expired now locked r = true) (row_of <$> l)
  = row_of <$> filter (λ j, job_expired now locked j = true) l.
Proof.
  induction l as [|j l IH]; [done|]. cbn [fmap list_fmap].
  rewrite !filter_cons, expired_row_of. destruct (decide _); [|done].
  cbn [fmap list_fmap]. by f_equal.
Qed.

Lemma stale_rows_jobs now locked db q :
  represents db q → queue_ok now q →
  ∃ l, stale_rows now locked db = row_of <$> l
    ∧ NoDup ((λ j, job_id (j_spec j)) <$> l)
    ∧ (∀ id, id ∈ (λ j, job_id (j_spec j)) <$> l ↔
         ∃ j, q !! id = Some j ∧ job_expired now locked j = true)
    ∧ Forall (λ j, q !! job_id (j_spec j) = Some j ∧ job_ok now j
                   ∧ job_expired now locked j = true) l.
Proof.
  intros Hr Hq. set (l := filter (λ j, job_expired now locked j = true) (map_to_list q).*2).
  assert (∀ j, j ∈ l ↔ job_expired now locked j = true ∧ q !! job_id (j_spec j) = Some j) as Hin.
  { intros j. unfold l. rewrite list_elem_of_filter, list_elem_of_fmap. split.
    - intros (He & [id j'] & -> & Hj). apply elem_of_map_to_list in Hj. split; [done|].
      cbn. by rewrite (proj1 (Hq _ _ Hj)).
    - intros [He Hj]. split; [done|]. exists (job_id (j_spec j), j). split; [done|].
      by apply elem_of_map_to_list. }
  exists l. split_and!.
  - unfold stale_rows, rows, l. rewrite Hr, map_to_list_fmap, <-list_fmap_compose.
    rewrite (list_fmap_ext _ (row_of ∘ snd) (map_to_list q)) by (by intros ? []).
    by rewrite list_fmap_compose, filter_expired_rows.
  - apply NoDup_fmap_filter.
    replace (_ <$> _) with (map_to_list q).*1; [apply NoDup_fst_map_to_list|].
    rewrite <-list_fmap_compose. apply list_fmap_ext. intros i [id j] Hi. cbn. symmetry.
    apply (Hq id). apply elem_of_map_to_list. by eapply list_elem_of_lookup_2.
  - intros id. rewrite list_elem_of_fmap. split.
    + intros (j & -> & [He Hj]%Hin). eauto.
    + intros (j & Hj & He). exists j. pose proof (proj1 (Hq _ _ Hj)) as Hid.
      split; [done|]. apply Hin. by rewrite Hid.
  - apply Forall_forall. intros j [He Hj]%Hin. split_and!; [done| |done]. by apply (Hq _ _ Hj).
Qed.

Lemma recover_stale_jobs_refines now locked db q :
  represents db q → queue_ok now q →
  ∃ db' q', recover_stale_jobs now locked db
      = Ok (Z.of_nat (length (stale_rows now locked db)), db')
    ∧ queue_steps now (recovery_event <$> stale_rows now locked db) q q'
    ∧ q' = (λ j, if job_expired now locked j then recover_job now j else j) <$> q
    ∧ represents db' q' ∧ db_notices db' = db_notices db.
Proof.
  intros Hr Hq. destruct (stale_rows_jobs now locked db q Hr Hq) as (l & Hl & Hnd & Hin & Hall).
  set (q' := (λ j, if job_expired now locked j then recover_job now j else j) <$> q).
  assert (queue_steps now (recovery_event <$> stale_rows now locked db) q q') as Hsteps.
  { rewrite Hl, <-list_fmap_compose.
    replace q' with (foldl (λ m k, alter (recover_job now) k m) q
                       ((λ j, job_id (j_spec j)) <$> l)); [by eapply recover_steps|].
    apply map_eq. intros id. rewrite lookup_foldl_alter by done. unfold q'. rewrite lookup_fmap.
    destruct (q !! id) as [j|] eqn:Hj; cbn.
    - destruct (job_expired now locked j) eqn:He.
      + by rewrite decide_True by (apply Hin; eauto).
      + rewrite decide_False; [done|]. rewrite Hin. intros (j' & Hj' & He'). simplify_eq. congruence.
    - by destruct (decide _). }
  eexists _, q'. split; [|split; [done|split; [done|]]].
  - unfold recover_stale_jobs. change (filter _ (map_to_list (db_jobs db)).*2)
      with (stale_rows now locked db).
    replace (forallb _ _) with true; [done|]. symmetry. apply forallb_forall.
    intros r Hir. apply list_elem_of_In in Hir. rewrite Hl in Hir.
    apply list_elem_of_fmap in Hir as (j & -> & Hj).
    destruct (proj1 (Forall_forall _ _) Hall j Hj) as (Hjq & Hok & He).
    rewrite (recovered_row_of now locked) by done. apply (row_of_constraints now).
    apply (queue_steps_ok _ _ _ _ Hsteps Hq (job_id (j_spec j))).
    unfold q'. by rewrite lookup_fmap, Hjq; cbn; rewrite He.
  - split; [|done]. unfold represents, q'. cbn [db_jobs]. rewrite Hr, <-!map_fmap_compose.
    apply map_fmap_ext. intros id j _. cbn. rewrite expired_row_of.
    destruct (job_expired now locked j) eqn:He; [by eapply recovered_row_of|done].
Qed.

(** *** Reading back *)

Lemma lengths_total_eq l :
  (total_length l ≤ U64_MAX)%Z → lengths_total l = Some (total_length l).
Proof. intros Hl. apply lengths_total_from; [done|]. split; [done|by right]. Qed.

(** What the lists of the administration count against the metadata bound. *)
Definition listed_length (s : JobSpec) : Z := total_length (job_id s :: metadata s).

Definition state_of (j : Job) : JobState :=
  match j_phase j with
  | Waiting => Pending
  | Held _ _ _ => Running
  | Done _ _ => Complete
  | Exhausted => Dead
  end.

Definition item_of (j : Job) : JobListItem :=
  let s := j_spec j in
  mkItem (job_id s) (worker_namespace s) (worker_name s) (worker_version s) (job_type s)
    (state_of j) (j_attempt j) (max_attempts s) (source_namespace s) (source_module s)
    (created_at s) (j_updated j).

Definition detail_of (j : Job) : JobDetail :=
  mkDetail (item_of j) (payload (j_spec j))
    match j_phase j with Done bytes _ => bytes | _ => "" end
    (default "" (j_error j)) (timeout_secs (j_spec j))
    match j_phase j with Held _ _ t => Some t | _ => None end
    match j_phase j with Held _ _ t => Some (lease_end j t) | _ => None end
    match j_phase j with Done _ t => Some t | _ => None end
    match j_phase j with Held _ w _ => w | _ => "" end.

Lemma row_of_state j : job_state_try_from (status (row_of j)) = Ok (state_of j).
Proof. unfold row_of, state_of. by destruct (j_phase j). Qed.

Lemma u32_positive_ok label v :
  (0 < v)%Z → (x ← u32_try_from v; ok (positive_u32_new label x)) = Some v.
Proof.
  intros Hv. unfold u32_try_from. rewrite (proj2 (Z.leb_le 0 v)) by lia. cbn.
  by rewrite positive_u32_new_ok by lia.
Qed.

Lemma checked_counts_row_of now j :
  job_ok now j → checked_counts (row_of j) = Ok (j_attempt j, max_attempts (j_spec j)).
Proof.
  intros (_ & (_ & _ & _ & Hm) & _ & Ha & _). unfold checked_counts.
  rewrite row_of_attempt, row_of_spec. unfold max_attempts_new.
  rewrite u32_positive_ok by lia. unfold u32_try_from, attempt_count_validate.
  rewrite (proj2 (Z.leb_le 0 _)), (proj2 (Z.leb_le _ (max_attempts _))) by lia. done.
Qed.

Lemma listed_length_uuid now j :
  job_ok now j → listed_length (j_spec j) = (36 + total_length (metadata (j_spec j)))%Z.
Proof.
  intros (Hu & _). apply andb_true_iff in Hu as [Hu _]. apply Z.eqb_eq in Hu.
  unfold listed_length. by rewrite total_length_cons, Hu.
Qed.

Lemma listed_length_fits now j : job_ok now j → (listed_length (j_spec j) ≤ U64_MAX)%Z.
Proof.
  intros Hok. rewrite (listed_length_uuid now) by done. destruct Hok as (_ & (_ & Hm & _) & _).
  etrans; [apply Z.add_le_mono_l, Hm|done].
Qed.

Lemma list_item_row_of now j :
  job_ok now j →
  list_item (row_of j) =
  if (listed_length (j_spec j) <=? MAX_JOB_METADATA_BYTES)%Z then Ok (item_of j)
  else Err (AdminDatabase "job metadata exceeds configured size bounds").
Proof.
  intros Hok. pose proof (listed_length_fits now j Hok) as Hlen. unfold list_item.
  rewrite row_of_state, (checked_counts_row_of now j Hok), row_of_spec, row_of_updated.
  cbn [admin_database rbind]. pose proof Hok as (_ & (_ & _ & _ & Hm) & Ht & Ha & _ & Hp).
  replace (negb _) with true.
  2: { unfold state_of, phase_ok in *. symmetry. apply negb_true_iff, andb_false_iff.
       rewrite Z.eqb_neq. destruct (j_phase j); [by left|right; lia..]. }
  replace (negb _) with true.
  2: { unfold state_of, phase_ok in *. symmetry. apply negb_true_iff, andb_false_iff.
       destruct (j_phase j); [by left..|right]. destruct Hp as [-> _]. by rewrite Z.eqb_refl. }
  rewrite (proj2 (Z.leb_le (created_at _) _)) by lia.
  fold (metadata (j_spec j)). unfold listed_length in *. rewrite lengths_total_eq by done. done.
Qed.

Lemma check_lifecycle_row_of now j : job_ok now j → check_lifecycle (item_of j) (row_of j) = Ok ().
Proof.
  intros (_ & (_ & _ & Hto & _) & Ht & Ha & He & Hp). unfold check_lifecycle, phase_ok in *.
  change (li_status (item_of j)) with (state_of j).
  change (li_created_at (item_of j)) with (created_at (j_spec j)).
  change (li_updated_at (item_of j)) with (j_updated j).
  change (li_attempt (item_of j)) with (j_attempt j).
  change (li_max_attempts (item_of j)) with (max_attempts (j_spec j)).
  unfold state_of, row_of. destruct (j_phase j) as [|c w t|b t|]; cbn; [done|..].
  - destruct Hp as (_ & Hw & Htt). unfold lease_end, from_secs.
    rewrite (proj2 (Z.ltb_ge t _)), (proj2 (Z.ltb_ge _ t)), (proj2 (Z.leb_gt _ t)) by lia.
    by destruct w.
  - destruct Hp as (_ & _ & Htt).
    by rewrite (proj2 (Z.ltb_ge t _)), (proj2 (Z.ltb_ge _ t)) by lia.
  - destruct Hp as [-> [e Hj]]. unfold validate_dead_lifecycle. rewrite Z.eqb_refl, Hj.
    destruct (He e Hj) as (_ & _ & Hne & _). by destruct e.
Qed.

Lemma detail_row_of now j :
  job_ok now j →
  detail (row_of j) =
  if (listed_length (j_spec j) <=? MAX_JOB_METADATA_BYTES)%Z then Ok (detail_of j)
  else Err (AdminDatabase "job metadata exceeds configured size bounds").
Proof.
  intros Hok. unfold detail. rewrite (list_item_row_of now) by done.
  destruct (_ <=? _)%Z; [|done]. cbn [rbind].
  pose proof Hok as (_ & (Hb & Hmeta & Hto & _) & _ & _ & He & Hp). rewrite row_of_spec.
  unfold job_timeout_secs_new. rewrite u32_positive_ok by lia.
  rewrite row_of_error, (proj2 (Z.ltb_ge _ _) Hb).
  replace (exceeds (j_error j) _) with false.
  2: { destruct (j_error j) as [e|]; [|done]. cbn. symmetry. apply Z.ltb_ge. by apply He. }
  replace (exceeds (result_bytes (row_of j)) _) with false.
  2: { unfold row_of, phase_ok in *. destruct (j_phase j); try done. cbn. symmetry.
       apply Z.ltb_ge. by apply Hp. }
  cbn [orb negb].
  change (lengths_total _) with (lengths_total (metadata (j_spec j))).
  rewrite lengths_total_eq by (etrans; [exact Hmeta|done]).
  rewrite (proj2 (Z.leb_le _ _) Hmeta).
  rewrite (check_lifecycle_row_of now) by done. cbn [rbind].
  unfold detail_of, row_of. by destruct (j_phase j).
Qed.

Lemma get_job_status_row_of now db q id :
  represents db q → queue_ok now q →
  get_job_status id db = Ok ((λ j,
    mkStatus id (state_of j) match j_phase j with Done bytes _ => bytes | _ => "" end
      (default "" (j_error j)) (j_attempt j) (max_attempts (j_spec j))) <$> q !! id).
Proof.
  intros Hr Hq. unfold get_job_status. rewrite (represents_lookup db q) by done.
  destruct (q !! id) as [j|] eqn:Hj; [|done]. cbn [fmap option_fmap option_map].
  destruct (Hq id j Hj) as [Hid (_ & (_ & _ & _ & Hm) & _ & Ha & _)].
  rewrite row_of_state, row_of_spec, row_of_attempt, row_of_error, Hid. cbn [rbind].
  unfold try_u32, u32_try_from. rewrite !(proj2 (Z.leb_le 0 _)) by lia. cbn [rbind].
  unfold max_attempts_new. rewrite positive_u32_new_ok by lia. cbn [rbind].
  unfold attempt_count_validate. rewrite (proj2 (Z.leb_le (j_attempt j) _)) by lia. cbn [rbind].
  unfold row_of. by destruct (j_phase j).
Qed.

(** Identifiers are texts PostgreSQL takes, and not blank. *)
Lemma uuid_pg_text id : uuid_text id = true → pg_text id = true.
Proof.
  unfold uuid_text, pg_text. intros [_ H]%andb_true_iff. apply negb_true_iff.
  eapply str_all_not_contains; [|exact H]. done.
Qed.

Lemma uuid_not_blank id : uuid_text id = true → str_is_empty (str_trim id) = false.
Proof.
  unfold uuid_text. intros [Hl Hall]%andb_true_iff. destruct id as [|c id]; [done|].
  cbn [str_all] in Hall. apply andb_true_iff in Hall as [Hc _].
  assert (45 ≤ N_of_ascii c ≤ 102)%N as Hr.
  { apply orb_true_iff in Hc as [Hc|Hc].
    - unfold is_ascii_hexdigit, is_ascii_digit in Hc. rewrite !orb_true_iff, !byte_in_spec in Hc. lia.
    - apply char_eqb_true in Hc as ->. done. }
  assert (whitespace_len (String c id) = 0) as Hw.
  { unfold whitespace_len. replace (whitespace_at (String c id)) with false; [done|].
    unfold whitespace_at. symmetry. apply orb_false_iff. split; [apply orb_false_iff; split|].
    - destruct id as [|a [|b id]]; [done..|].
      by rewrite !(proj2 (N.eqb_neq (N_of_ascii c) _)) by lia.
    - destruct id as [|a id]; [done|]. by rewrite !(proj2 (N.eqb_neq (N_of_ascii c) _)) by lia.
    - apply orb_false_iff; split; apply not_true_iff_false; rewrite byte_in_spec; lia. }
  unfold str_trim. cbn [trim_start_from]. rewrite Hw. cbn [trim_end trim_start_from].
  by rewrite Hw.
Qed.

(** *** Retry *)

Lemma restart_job_ok now j : job_ok now j → j_phase j = Exhausted → job_ok now (restart_job now j).
Proof.
  intros Hok Hp.
  assert (queue_ok now {[job_id (j_spec j) := j]}) as Hq.
  { intros id k [<- <-]%lookup_singleton_Some. done. }
  assert (queue_step now (Retried (job_id (j_spec j))) {[job_id (j_spec j) := j]}
            (<[job_id (j_spec j) := restart_job now j]> {[job_id (j_spec j) := j]})) as Hs.
  { apply step_retry; [apply lookup_singleton_eq|done]. }
  by apply (queue_step_ok _ _ _ _ Hs Hq (job_id (j_spec j))), lookup_insert_eq.
Qed.

Lemma retry_dead_job_refines now id db q :
  represents db q → queue_ok now q →
  match retry_dead_job now id db with
  | Ok (d, db') => ∃ j, q !! id = Some j ∧ j_phase j = Exhausted
      ∧ (listed_length (j_spec j) ≤ MAX_JOB_METADATA_BYTES)%Z
      ∧ queue_step now (Retried id) q (<[id := restart_job now j]> q)
      ∧ d = detail_of (restart_job now j) ∧ represents db' (<[id := restart_job now j]> q)
      ∧ db_notices db' = db_notices db ++
          [(worker_channel (worker_namespace (j_spec j)) (worker_name (j_spec j))
              (worker_version (j_spec j)), id)]
  | Err e =>
      (e = Invalid "job_id is required" ∧ str_trim id = "")
      ∨ (e = AdminDatabase "invalid text" ∧ pg_text id = false)
      ∨ (e = NotFound ∧ q !! id = None)
      ∨ (∃ j, q !! id = Some j ∧ j_phase j ≠ Exhausted
           ∧ e = FailedPrecondition ("job is " +:+ job_state_as_str (state_of j)
                                     +:+ ", only dead jobs can be retried"))
      ∨ (∃ j, q !! id = Some j ∧ j_phase j = Exhausted
           ∧ (MAX_JOB_METADATA_BYTES < listed_length (j_spec j))%Z
           ∧ e = AdminDatabase "job metadata exceeds configured size bounds")
  end.
Proof.
  intros Hr Hq. unfold retry_dead_job.
  destruct (str_is_empty (str_trim id)) eqn:Et; cbn [negb].
  { left. split; [done|]. by destruct (str_trim id). }
  destruct (pg_text id); [|naive_solver].
  rewrite (represents_lookup db q) by done.
  destruct (q !! id) as [j|] eqn:Hj; cbn [fmap option_fmap option_map]; [|naive_solver].
  destruct (Hq id j Hj) as [Hid Hok]. rewrite row_of_state. cbn [admin_database rbind].
  case_bool_decide as Hd.
  2: { right; right; right; left. exists j. split_and!; [done| |done].
       intros Hp. apply Hd. unfold state_of. by rewrite Hp. }
  assert (j_phase j = Exhausted) as Hp by (unfold state_of in Hd; by destruct (j_phase j)).
  cbv zeta. rewrite row_of_spec, row_of_error.
  change (mkRow (j_spec j) "pending" None (j_error j) 0 now None None None None None)
    with (row_of (restart_job now j)).
  pose proof (restart_job_ok now j Hok Hp) as Hok'.
  destruct (db_store_represents now db q _ Hr Hok') as (db' & -> & Hr' & Hn).
  rewrite (detail_row_of now) by done. cbn [j_spec restart_job] in *. rewrite Hid in Hr'.
  destruct (Z.leb_spec (listed_length (j_spec j)) MAX_JOB_METADATA_BYTES); cbn [rbind].
  - exists j. split_and!; [done..|by apply step_retry|done|done|]. cbn [db_notify db_notices].
    by rewrite Hn.
  - naive_solver.
Qed.
