(* ===== verification/JobHistory.v ===== *)
(** * Histories of the job queue

    Every engine, worker and operator acts on the queue through the statements of
    [JobQueue] and [JobAdmin]. A history is any interleaving of them, at instants
    that do not decrease; the claim identifiers drawn for it do not repeat. The
    properties here hold of every table a history reaches. *)

From stdpp Require Import pretty.
From S2P Require Import Prelude RustStr Utf8 Lists Externals Models Identity Layers JobQueue JobAdmin JobLifecycle.

(** ** Operations and their events *)

Inductive JobOp : Type :=
| Insert (new_id ns name version ty body : string) (timeout max : Z) (src_ns src_mod : string)
| Claim (tie : nat) (locked : gset string) (ns name version engine : string) (c : Z)
| Finish (id : string) (c : Z) (bytes : string)
| Fault (id : string) (c : Z) (msg : string)
| Recover (locked : gset string)
| Retry (id : string).

Inductive OpError : Type :=
| WorkerErr (e : WorkerError)
| AdminErr (e : JobAdminError).

Definition worker_op {A} (r : result WorkerError A) : result OpError A :=
  match r with Ok a => Ok a | Err e => Err (WorkerErr e) end.

Definition admin_op {A} (r : result JobAdminError A) : result OpError A :=
  match r with Ok a => Ok a | Err e => Err (AdminErr e) end.

Definition ended_by (f : Finalization) (e : event) : list event :=
  match f with Applied => [e] | Stale => [] end.

(** The table after an operation, with what its answer reports. *)
Definition run_op (now : Z) (op : JobOp) (db : Db) : result OpError (Db * list event) :=
  match op with
  | Insert new_id ns name version ty body timeout max src_ns src_mod =>
      let? (id, db) := worker_op
        (insert_job now new_id ns name version ty body timeout max src_ns src_mod db) in
      Ok (db, [Submitted id])
  | Claim tie locked ns name version engine c =>
      let? (job, db) := worker_op (claim_job now tie locked ns name version engine c db) in
      Ok (db, match job with Some job => [Claimed (cj_job_id job) (cj_claim_id job)] | None => [] end)
  | Finish id c bytes =>
      let? (f, db) := worker_op (complete_job now id c bytes db) in
      Ok (db, ended_by f (Completed id c))
  | Fault id c msg =>
      let? (f, db) := worker_op (fail_job now id c msg db) in
      Ok (db, ended_by f (Failed id c))
  | Recover locked =>
      let? (_, db') := worker_op (recover_stale_jobs now locked db) in
      Ok (db', recovery_event <$> stale_rows now locked db)
  | Retry id =>
      let? (_, db) := admin_op (retry_dead_job now id db) in
      Ok (db, [Retried id])
  end.

(** What the types of the program and the generators of identifiers give: unsigned
    numbers, UTF-8 text, UUIDs, a non-empty engine identity. *)
Definition op_ok (op : JobOp) : Prop :=
  match op with
  | Insert new_id _ _ _ _ _ timeout max _ _ =>
      uuid_text new_id = true ∧ (0 ≤ timeout)%Z ∧ (0 ≤ max)%Z
  | Claim _ _ _ _ _ engine _ => engine ≠ ""
  | Fault _ _ msg => utf8_valid msg = true
  | _ => True
  end.

Definition fresh_claim (op : JobOp) (es : list event) : Prop :=
  match op with
  | Claim _ _ _ _ _ _ c => ∀ id, Claimed id c ∉ es
  | _ => True
  end.

Inductive history : Z → Db → list event → Prop :=
| history_start now : history now (mkDb ∅ []) []
| history_op now now' op db es db' es' :
    history now db es → (now ≤ now')%Z → op_ok op → fresh_claim op es →
    run_op now' op db = Ok (db', es') →
    history now' db' (es ++ es').

(** The errors no operation may end in: a constraint violation, an overflow, or an
    update of a retry that the table refuses. *)
Definition internal_error (e : OpError) : bool :=
  match e with
  | WorkerErr (Database CheckViolation) | WorkerErr (Database IntegerOutOfRange) => true
  | AdminErr (AdminDatabase "update failed") => true
  | _ => false
  end.

Lemma run_op_refines now op db q :
  represents db q → queue_ok now q → op_ok op →
  match run_op now op db with
  | Ok (db', es) => ∃ q', queue_steps now es q q' ∧ represents db' q'
  | Err e => internal_error e = false
  end.
Proof.
  intros Hr Hq Hop. destruct op as [new_id ns name version ty body timeout max src_ns src_mod
    |tie locked ns name version engine c|id c bytes|id c msg|locked|id]; cbn in Hop; cbn [run_op].
  - destruct Hop as (Hu & Ht & Hm).
    pose proof (insert_job_refines now new_id ns name version ty body timeout max src_ns src_mod
      db q Hr Hu Ht Hm) as H. cbv zeta in H.
    destruct (insert_job _ _ _ _ _ _ _ _ _ _ _ _) as [[id db']|e] eqn:E; cbn.
    + destruct H as (-> & Hs & Hr' & _). eauto using steps_cons, steps_nil.
    + destruct H as [[_ He]|[[-> _]|[-> _]]]; [|done..].
      destruct e as [| | | | | | | |[]]; try done; by destruct (He _ eq_refl).
  - pose proof (claim_job_refines now tie locked ns name version engine c db q Hr Hq Hop) as H.
    destruct (claim_job _ _ _ _ _ _ _ _ _) as [[[job|] db']|e]; cbn.
    + destruct H as (j & q' & _ & _ & _ & -> & Hs & _ & Hr' & _). cbn in *.
      eauto using steps_cons, steps_nil.
    + destruct H as [-> _]. eauto using steps_nil.
    + by destruct H as [-> _].
  - pose proof (complete_job_refines now id c bytes db q Hr Hq) as H.
    destruct (complete_job _ _ _ _ _) as [[[] db']|e]; cbn.
    + destruct H as (j & w & t & _ & _ & Hs & Hr' & _). eauto using steps_cons, steps_nil.
    + destruct H as [-> _]. eauto using steps_nil.
    + naive_solver.
  - pose proof (fail_job_refines now id c msg db q Hr Hq Hop) as H.
    destruct (fail_job _ _ _ _ _) as [[[] db']|e]; cbn.
    + destruct H as (j & w & t & _ & _ & Hs & Hr' & _). eauto using steps_cons, steps_nil.
    + destruct H as [-> _]. eauto using steps_nil.
    + naive_solver.
  - destruct (recover_stale_jobs_refines now locked db q Hr Hq) as (db' & q' & -> & Hs & _ & Hr' & _).
    cbn. eauto.
  - pose proof (retry_dead_job_refines now id db q Hr Hq) as H.
    destruct (retry_dead_job _ _ _) as [[d db']|e]; cbn.
    + destruct H as (j & _ & _ & _ & Hs & _ & Hr' & _). eauto using steps_cons, steps_nil.
    + naive_solver.
Qed.

(** ** Accounts of a history *)

(** The claims made and the claims ended, by identifier. *)
Definition claim_made (e : event) : option Z :=
  match e with Claimed _ c => Some c | _ => None end.

Definition claim_ended (e : event) : option Z :=
  match e with Completed _ c | Failed _ c | Recovered _ c => Some c | _ => None end.

Definition claims_made (es : list event) : list Z := omap claim_made es.
Definition claims_ended (es : list event) : list Z := omap claim_ended es.

(** How often a job was claimed, and how often an operator retried it. *)
Definition is_claim_of (id : string) (e : event) : bool :=
  match e with Claimed id' _ => String.eqb id' id | _ => false end.

Definition is_retry_of (id : string) (e : event) : bool :=
  match e with Retried id' => String.eqb id' id | _ => false end.

Definition count_events (p : event → bool) (es : list event) : Z :=
  Z.of_nat (length (filter (λ e, p e = true) es)).

Lemma count_events_snoc p es e :
  count_events p (es ++ [e]) = (count_events p es + if p e then 1 else 0)%Z.
Proof.
  unfold count_events. rewrite filter_app, length_app, filter_cons, filter_nil.
  destruct (p e); [rewrite decide_True by done|rewrite decide_False by done]; cbn; lia.
Qed.

(** Claim identifiers are drawn once and ended at most once; a held claim was made and
    has not ended. *)
Record claims_acc (es : list event) (q : Queue) : Prop := {
  acc_made : NoDup (claims_made es);
  acc_ended : NoDup (claims_ended es);
  acc_ended_made c : c ∈ claims_ended es → c ∈ claims_made es;
  acc_held id j c w t :
    q !! id = Some j → j_phase j = Held c w t → Claimed id c ∈ es ∧ c ∉ claims_ended es;
}.

(** A job was claimed [attempt] times since its last retry, and [max_attempts] times
    before each retry. *)
Record attempts_acc (es : list event) (q : Queue) : Prop := {
  acc_attempts id j :
    q !! id = Some j →
    (count_events (is_claim_of id) es
     = max_attempts (j_spec j) * count_events (is_retry_of id) es + j_attempt j)%Z;
  acc_absent id :
    q !! id = None →
    count_events (is_claim_of id) es = 0%Z ∧ count_events (is_retry_of id) es = 0%Z;
}.

Lemma elem_of_claims_made es c : c ∈ claims_made es ↔ ∃ id, Claimed id c ∈ es.
Proof.
  unfold claims_made. rewrite list_elem_of_omap. split.
  - intros (e & He & Hc). destruct e; naive_solver.
  - intros [id Hid]. by exists (Claimed id c).
Qed.

Lemma claims_made_inj es id1 id2 c :
  NoDup (claims_made es) → Claimed id1 c ∈ es → Claimed id2 c ∈ es → id1 = id2.
Proof.
  induction es as [|e es IH]; [by intros _ ?%elem_of_nil|].
  intros Hnd [H1|H1]%elem_of_cons [H2|H2]%elem_of_cons; [congruence|..].
  - subst e. cbn in Hnd. apply NoDup_cons in Hnd as [Hn _]. destruct Hn.
    apply elem_of_claims_made. eauto.
  - subst e. cbn in Hnd. apply NoDup_cons in Hnd as [Hn _]. destruct Hn.
    apply elem_of_claims_made. eauto.
  - apply IH; [|done..]. cbn in Hnd. destruct (claim_made e); [by apply NoDup_cons in Hnd as [_ ?]|done].
Qed.

Lemma claims_made_snoc es e : claims_made (es ++ [e]) = claims_made es ++ option_list (claim_made e).
Proof. unfold claims_made. rewrite omap_app. cbn. by destruct (claim_made e). Qed.

Lemma claims_ended_snoc es e :
  claims_ended (es ++ [e]) = claims_ended es ++ option_list (claim_ended e).
Proof. unfold claims_ended. rewrite omap_app. cbn. by destruct (claim_ended e). Qed.

(** An event that neither makes nor ends a claim, and a job that is not held after it. *)
Lemma claims_acc_neutral es q e id j :
  claims_acc es q → claim_made e = None → claim_ended e = None →
  (∀ c w t, j_phase j ≠ Held c w t) → claims_acc (es ++ [e]) (<[id := j]> q).
Proof.
  intros [H1 H2 H3 H4] Hm He Hp. split.
  - by rewrite claims_made_snoc, Hm, app_nil_r.
  - by rewrite claims_ended_snoc, He, app_nil_r.
  - intros c. rewrite claims_made_snoc, claims_ended_snoc, Hm, He, !app_nil_r. apply H3.
  - intros id' j' c w t Hl Hj'. rewrite claims_ended_snoc, He, app_nil_r.
    apply lookup_insert_Some in Hl as [[<- <-]|[_ Hl]]; [by destruct (Hp c w t)|].
    destruct (H4 _ _ _ _ _ Hl Hj'). split; [|done]. apply elem_of_app. by left.
Qed.

Lemma claims_acc_make es q id j c :
  claims_acc es q → c ∉ claims_made es → (∃ w t, j_phase j = Held c w t) →
  claims_acc (es ++ [Claimed id c]) (<[id := j]> q).
Proof.
  intros [H1 H2 H3 H4] Hc (w & t & Hp). split.
  - rewrite claims_made_snoc. cbn. apply NoDup_app. split_and!; [done| |apply NoDup_singleton].
    by intros x Hx ->%list_elem_of_singleton.
  - by rewrite claims_ended_snoc; cbn; rewrite app_nil_r.
  - intros x. rewrite claims_made_snoc, claims_ended_snoc. cbn. rewrite app_nil_r, elem_of_app.
    intros Hx. left. by apply H3.
  - intros id' j' c' w' t' Hl Hj'. rewrite claims_ended_snoc. cbn. rewrite app_nil_r, elem_of_app.
    apply lookup_insert_Some in Hl as [[<- <-]|[_ Hl]].
    + rewrite Hp in Hj'. injection Hj' as <- <- <-. split; [right; by left|]. naive_solver.
    + destruct (H4 _ _ _ _ _ Hl Hj'). split; [by left|done].
Qed.

Lemma claims_acc_end es q e id j j' c w t :
  claims_acc es q → claim_made e = None → claim_ended e = Some c →
  q !! id = Some j → j_phase j = Held c w t → (∀ c w t, j_phase j' ≠ Held c w t) →
  claims_acc (es ++ [e]) (<[id := j']> q).
Proof.
  intros [H1 H2 H3 H4] Hm He Hj Hp Hp'. destruct (H4 _ _ _ _ _ Hj Hp) as [Hmade Hnot]. split.
  - by rewrite claims_made_snoc, Hm, app_nil_r.
  - rewrite claims_ended_snoc, He. cbn. apply NoDup_app. split_and!; [done| |apply NoDup_singleton].
    by intros x Hx ->%list_elem_of_singleton.
  - intros x. rewrite claims_made_snoc, claims_ended_snoc, Hm, He, app_nil_r, elem_of_app.
    intros [Hx| ->%list_elem_of_singleton]; [by apply H3|].
    apply elem_of_claims_made. eauto.
  - intros id' k c' w' t' Hl Hk. rewrite claims_ended_snoc, He, !elem_of_app.
    apply lookup_insert_Some in Hl as [[<- <-]|[Hne Hl]]; [by destruct (Hp' c' w' t')|].
    destruct (H4 _ _ _ _ _ Hl Hk) as [Hmade' Hnot']. split; [by left|].
    intros [?|E%list_elem_of_singleton]; [done|]. subst c'. apply Hne.
    by eapply claims_made_inj.
Qed.

Lemma claims_acc_step now e es q q' :
  queue_step now e q q' → (∀ c, claim_made e = Some c → c ∉ claims_made es) →
  claims_acc es q → claims_acc (es ++ [e]) q'.
Proof.
  intros Hs Hfresh Hacc. destruct Hs.
  - by apply claims_acc_neutral.
  - apply claims_acc_make; [done|by apply Hfresh|cbn; eauto].
  - by eapply claims_acc_end.
  - eapply claims_acc_end; [done..|]. cbn. by destruct (_ <? _)%Z.
  - eapply claims_acc_end; [done..|]. cbn. by destruct (_ <? _)%Z.
  - by apply claims_acc_neutral.
Qed.

(** *** Attempts *)

Lemma attempts_acc_update es q e id j j' :
  attempts_acc es q → q !! id = Some j → j_spec j' = j_spec j →
  (∀ id', id' ≠ id → is_claim_of id' e = false ∧ is_retry_of id' e = false) →
  (j_attempt j' + max_attempts (j_spec j) * (if is_retry_of id e then 1 else 0)
   = j_attempt j + (if is_claim_of id e then 1 else 0))%Z →
  attempts_acc (es ++ [e]) (<[id := j']> q).
Proof.
  intros [H1 H2] Hj Hsp Hoth Hsum. split.
  - intros id' k Hl. rewrite !count_events_snoc.
    apply lookup_insert_Some in Hl as [[<- <-]|[Hne Hl]].
    + rewrite Hsp. pose proof (H1 _ _ Hj). nia.
    + destruct (Hoth id') as [-> ->]; [done|]. pose proof (H1 _ _ Hl). lia.
  - intros id' Hl. rewrite !count_events_snoc. apply lookup_insert_None in Hl as [Hl Hne].
    destruct (Hoth id') as [-> ->]; [done|]. destruct (H2 _ Hl). lia.
Qed.

Lemma attempts_acc_step now e es q q' :
  queue_ok now q → queue_step now e q q' → attempts_acc es q → attempts_acc (es ++ [e]) q'.
Proof.
  intros Hq Hs Hacc.
  assert (∀ id id' : string, id' ≠ id → String.eqb id id' = false) as Hneq.
  { intros id id' Hne. apply String.eqb_neq. congruence. }
  destruct Hs as [q s Hn|q id j c w Hj|q id j c w t b Hj|q id j c w t m Hj|q id j c w t m Hj
    |q id j Hj Hp].
  - destruct Hacc as [Hatt Habs]. split.
    + intros id k Hl. rewrite !count_events_snoc. cbn.
      apply lookup_insert_Some in Hl as [[<- <-]|[Hne Hl]].
      * destruct (Habs _ Hn) as [-> ->]. cbn. lia.
      * pose proof (Hatt _ _ Hl). lia.
    + intros id Hl. rewrite !count_events_snoc. cbn. apply lookup_insert_None in Hl as [Hl _].
      destruct (Habs _ Hl). lia.
  - eapply attempts_acc_update; [done..| |]; cbn.
    + intros id' Hne. by rewrite Hneq.
    + rewrite String.eqb_refl. lia.
  - eapply attempts_acc_update; [done..|]; cbn. lia.
  - eapply attempts_acc_update; [done..|]; cbn. lia.
  - eapply attempts_acc_update; [done..|]; cbn. lia.
  - eapply attempts_acc_update; [done..| |]; cbn.
    + intros id' Hne. by rewrite Hneq.
    + rewrite String.eqb_refl. destruct (Hq _ _ Hj) as (_ & _ & _ & _ & _ & _ & Hph).
      unfold phase_ok in Hph. rewrite Hp in Hph. lia.
Qed.

(** *** Every reachable table *)

Record queue_inv (now : Z) (db : Db) (es : list event) (q : Queue) : Prop := {
  inv_represents : represents db q;
  inv_ok : queue_ok now q;
  inv_claims : claims_acc es q;
  inv_attempts : attempts_acc es q;
}.

Lemma accounts_steps now es es' q q' :
  queue_steps now es' q q' → queue_ok now q →
  (∀ e c, e ∈ es' → claim_made e = Some c → es' = [e] ∧ c ∉ claims_made es) →
  claims_acc es q → attempts_acc es q →
  claims_acc (es ++ es') q' ∧ attempts_acc (es ++ es') q'.
Proof.
  intros Hs. revert es. induction Hs as [q|e es' q1 q2 q3 Hs Hss IH]; intros es Hq Hfresh Hc Ha.
  { by rewrite app_nil_r. }
  assert (claims_acc (es ++ [e]) q2) as Hc2.
  { eapply claims_acc_step; [done| |done]. intros c Hm. eapply Hfresh; [by left|done]. }
  assert (attempts_acc (es ++ [e]) q2) as Ha2 by (by eapply attempts_acc_step).
  rewrite cons_middle, app_assoc. apply IH; [by eapply queue_step_ok| |done..].
  intros e' c He' Hm. destruct (Hfresh e' c) as [[= -> ->] _]; [by right|done|].
  by apply elem_of_nil in He'.
Qed.

Lemma run_op_claims now op db db' es' e c :
  run_op now op db = Ok (db', es') → e ∈ es' → claim_made e = Some c →
  es' = [e] ∧ ∃ tie locked ns name version engine, op = Claim tie locked ns name version engine c.
Proof.
  intros Hrun He Hm. destruct op as [| tie locked ns name version engine k|id k b|id k m|locked|id];
    cbn [run_op] in Hrun.
  - apply rbind_ok in Hrun as ([? ?] & _ & [= _ <-]).
    apply list_elem_of_singleton in He. by subst.
  - apply rbind_ok in Hrun as ([job d] & Hop & [= _ <-]).
    unfold claim_job, worker_op in Hop. destruct job as [job|]; [|by apply elem_of_nil in He].
    apply list_elem_of_singleton in He. subst e. injection Hm as <-. split; [done|].
    destruct (_ && _ && _ && _); [|done]. destruct (claim_select _ _ _ _ _ _); [|done].
    destruct (db_result _); [|done]. injection Hop as <- _. cbn. eauto 10.
  - apply rbind_ok in Hrun as ([[] ?] & _ & [= _ <-]);
      [apply list_elem_of_singleton in He; by subst|by apply elem_of_nil in He].
  - apply rbind_ok in Hrun as ([[] ?] & _ & [= _ <-]);
      [apply list_elem_of_singleton in He; by subst|by apply elem_of_nil in He].
  - apply rbind_ok in Hrun as ([? ?] & _ & [= _ <-]).
    apply list_elem_of_fmap in He as (r & -> & _). done.
  - apply rbind_ok in Hrun as ([? ?] & _ & [= _ <-]).
    apply list_elem_of_singleton in He. by subst.
Qed.

Lemma history_inv now db es : history now db es → ∃ q, queue_inv now db es q.
Proof.
  induction 1 as [now|now now' op db es db' es' _ [q [Hr Hq Hc Ha]] Hle Hop Hfresh Hrun].
  { exists ∅. split.
    - unfold represents. cbn. by rewrite fmap_empty.
    - intros id j Hj. by rewrite lookup_empty in Hj.
    - split; [constructor|constructor|by intros c ?%elem_of_nil|].
      intros id j c w t Hj. by rewrite lookup_empty in Hj.
    - split; [|done]. intros id j Hj. by rewrite lookup_empty in Hj. }
  apply (queue_ok_later _ _ _ Hle) in Hq.
  pose proof (run_op_refines now' op db q Hr Hq Hop) as H. rewrite Hrun in H.
  destruct H as (q' & Hs & Hr'). exists q'.
  destruct (accounts_steps now' es es' q q') as [Hc' Ha']; [done..| |done|done|].
  - intros e c He Hm. destruct (run_op_claims _ _ _ _ _ _ _ Hrun He Hm)
      as (-> & tie & locked & ns & name & version & engine & ->).
    split; [done|]. rewrite elem_of_claims_made. intros [id Hid]. by apply (Hfresh id).
  - split; [done|by eapply queue_steps_ok|done..].
Qed.

(** ** Properties of every history *)

(** C2. The SQL of the queue refines the lifecycle machine. From any table a history of
    submissions, claims, completions, failures, recoveries and retries reaches, each
    operation either refuses its arguments, never by violating a constraint of the table
    or overflowing a column, or takes the steps of the machine its answer reports. *)
Theorem job_statements_refine_lifecycle now db es now' op :
  history now db es → (now ≤ now')%Z → op_ok op →
  ∃ q, represents db q ∧ queue_ok now' q ∧
    match run_op now' op db with
    | Ok (db', es') => ∃ q', queue_steps now' es' q q' ∧ represents db' q' ∧ queue_ok now' q'
    | Err e => internal_error e = false
    end.
Proof.
  intros Hh Hle Hop. destruct (history_inv _ _ _ Hh) as [q [Hr Hq _ _]].
  apply (queue_ok_later _ _ _ Hle) in Hq. exists q. split_and!; [done..|].
  pose proof (run_op_refines now' op db q Hr Hq Hop) as H.
  destruct (run_op now' op db) as [[db' es']|e]; [|done].
  destruct H as (q' & Hs & Hr'). eauto using queue_steps_ok.
Qed.

(** C4. The fence of claims. On every history a claim ends at most once, by completion,
    failure or recovery; once it has ended, a worker that still holds it changes nothing:
    both its completion and its failure report [Stale]. *)
Theorem claims_end_at_most_once now db es :
  history now db es →
  NoDup (claims_ended es) ∧
  ∀ c, c ∈ claims_ended es → c ∈ claims_made es ∧
    ∀ now' id bytes msg, (now ≤ now')%Z → pg_text id = true →
      (str_len bytes ≤ MAX_JOB_BLOB_BYTES)%Z → error_ok msg →
      complete_job now' id c bytes db = Ok (Stale, db) ∧
      fail_job now' id c msg db = Ok (Stale, db).
Proof.
  intros Hh. destruct (history_inv _ _ _ Hh) as [q [Hr Hq Hc _]].
  split; [apply Hc|]. intros c Hend. split; [by apply Hc|].
  intros now' id bytes msg Hle Hid Hb (Hmu & Hmt & Hme & Hml).
  apply (queue_ok_later _ _ _ Hle) in Hq.
  assert (∀ j w t, q !! id = Some j → j_phase j ≠ Held c w t) as Hnot.
  { intros j w t Hj Hp. by destruct (acc_held _ _ Hc _ _ _ _ _ Hj Hp). }
  pose proof (complete_job_refines now' id c bytes db q Hr Hq) as H1.
  pose proof (fail_job_refines now' id c msg db q Hr Hq Hmu) as H2. split.
  - destruct (complete_job _ _ _ _ _) as [[[] db']|]; [naive_solver| |].
    + by destruct H1 as [-> _].
    + destruct H1 as [[_ ?]|[_ ?]]; [lia|congruence].
  - destruct (fail_job _ _ _ _ _) as [[[] db']|]; [naive_solver| |].
    + by destruct H2 as [-> _].
    + destruct H2 as [[_ ?]|[[_ ?]|[_ ?]]]; [done|lia|]. by rewrite Hid, Hmt in *.
Qed.

(** C25. Attempts are exact. On every history the number of times a job was handed to a
    worker is [max_attempts] for each retry an operator made plus the [attempt] column of
    its row, which never exceeds [max_attempts]. *)
Theorem attempts_accounted now db es id r :
  history now db es → db_jobs db !! id = Some r →
  (count_events (is_claim_of id) es
   = max_attempts (spec r) * count_events (is_retry_of id) es + attempt r)%Z
  ∧ (0 ≤ attempt r ≤ max_attempts (spec r))%Z.
Proof.
  intros Hh Hr. destruct (history_inv _ _ _ Hh) as [q [Hrep Hq _ Ha]].
  rewrite (represents_lookup db q) in Hr by done. apply fmap_Some in Hr as (j & Hj & ->).
  rewrite row_of_spec, row_of_attempt. split; [by apply Ha|].
  by destruct (Hq _ _ Hj) as (_ & _ & _ & _ & ? & _).
Qed.

(** The row a claim writes. *)
Definition claimed_row (now : Z) (engine : string) (c : Z) (r : JobRow) : JobRow :=
  mkRow (spec r) "running" None (error_message r) (attempt r + 1) now (Some now) None (Some engine)
    (Some c) (Some (now + from_secs (timeout_secs (spec r)))%Z).

(** A claim takes the oldest waiting job of the worker, of its version or unversioned,
    that no other transaction has locked, and finds none only when there is none. It
    leases that row for the timeout of the job and leaves every other row alone. *)
Theorem claim_takes_oldest now db es now' tie locked ns name version engine c :
  history now db es → (now ≤ now')%Z → engine ≠ "" →
  pg_text ns && pg_text name && pg_text version && pg_text engine = true →
  match claim_job now' tie locked ns name version engine c db with
  | Ok (Some job, db') => ∃ r, db_jobs db !! cj_job_id job = Some r
      ∧ claimable ns name version locked r = true
      ∧ (∀ id x, db_jobs db !! id = Some x → claimable ns name version locked x = true →
           (created_at (spec r) ≤ created_at (spec x))%Z)
      ∧ job = mkClaimed (job_id (spec r)) (job_type (spec r)) (payload (spec r)) c
      ∧ db_jobs db' = <[cj_job_id job := claimed_row now' engine c r]> (db_jobs db)
  | Ok (None, db') => db' = db
      ∧ ∀ id r, db_jobs db !! id = Some r → claimable ns name version locked r = false
  | Err _ => False
  end.
Proof.
  intros Hh Hle He Ht. destruct (history_inv _ _ _ Hh) as [q [Hr Hq _ _]].
  apply (queue_ok_later _ _ _ Hle) in Hq.
  assert (∀ id x, db_jobs db !! id = Some x → claimable ns name version locked x = true →
    claim_candidate ns name version locked db x) as Hcand.
  { intros id x Hx Hcl. split; [|done]. apply elem_of_rows. eauto. }
  pose proof (claim_job_refines now' tie locked ns name version engine c db q Hr Hq He) as H.
  destruct (claim_job _ _ _ _ _ _ _ _ _) as [[[job|] db']|e].
  - destruct H as (j & q' & Hj & [_ Hcl] & Hmin & -> & _ & -> & Hr' & _). cbn [cj_job_id] in *.
    exists (row_of j). rewrite (represents_lookup db q), Hj, row_of_spec by done.
    split_and!; [done|done| |done|].
    + intros id x Hx Hxc. eapply Hmin, Hcand; done.
    + rewrite Hr', Hr, fmap_insert. do 2 f_equal. unfold claimed_row.
      apply claimable_waiting in Hcl. unfold row_of. by rewrite Hcl.
  - destruct H as [-> Hno]. split; [done|]. intros id r Hid.
    apply not_true_iff_false. intros Hcl. eapply Hno, Hcand; done.
  - destruct H as [_ H]. congruence.
Qed.

(** Recovery is complete and exact. On every reachable table it succeeds, returns to
    the queue (or, after the last attempt, to the dead jobs) exactly the running rows
    whose lease has ended and that no other transaction has locked, and reports their
    number; a row that is still running after it has a lease in the future or is locked. *)
Theorem recovery_takes_expired_leases now db es now' locked :
  history now db es → (now ≤ now')%Z →
  ∃ db', recover_stale_jobs now' locked db
      = Ok (count_where (expired now' locked) (rows db), db')
    ∧ db_jobs db' = (λ r, if expired now' locked r then recovered now' r else r) <$> db_jobs db
    ∧ ∀ id r, db_jobs db' !! id = Some r → status r = "running" →
        id ∈ locked ∨ ∃ t, lease_expires_at r = Some t ∧ (now' < t)%Z.
Proof.
  intros Hh Hle. destruct (history_inv _ _ _ Hh) as [q [Hr Hq _ _]].
  apply (queue_ok_later _ _ _ Hle) in Hq.
  destruct (recover_stale_jobs_refines now' locked db q Hr Hq)
    as (db' & q' & Hrec & Hs & -> & Hr' & _).
  exists db'. split_and!; [done| |].
  - rewrite Hr', Hr, <-!map_fmap_compose. apply map_fmap_ext. intros id j _. cbn.
    rewrite expired_row_of.
    destruct (job_expired now' locked j) eqn:He; [symmetry; by eapply recovered_row_of|done].
  - intros id r Hid Hst. rewrite Hr', <-map_fmap_compose, lookup_fmap in Hid.
    apply fmap_Some in Hid as (j & Hj & ->). cbn in *.
    destruct (job_expired now' locked j) eqn:He.
    { unfold row_of, recover_job, release_job in Hst. cbn in Hst. by destruct (_ <? _)%Z. }
    unfold job_expired in He. unfold row_of in *. destruct (j_phase j) as [|c w t| |]; try done.
    cbn. apply andb_false_iff in He as [He|He].
    + right. eexists. split; [done|]. by apply Z.leb_gt.
    + left. apply bool_decide_eq_false, dec_stable in He. by rewrite (proj1 (Hq _ _ Hj)) in He.
Qed.

(** Rows read back. Every row of a reachable table has a readable status, and a job
    whose metadata leaves room for its 36-byte identifier below the metadata bound is
    listed and shown with exactly the values of its row. *)
Theorem reachable_rows_read_back now db es id r :
  history now db es → db_jobs db !! id = Some r →
  get_job_status id db = Ok (Some (mkStatus id (default Pending (ok (job_state_try_from (status r))))
    (default "" (result_bytes r)) (default "" (error_message r)) (attempt r) (max_attempts (spec r))))
  ∧ ((total_length (metadata (spec r)) + 36 ≤ MAX_JOB_METADATA_BYTES)%Z →
     ∃ item, list_item r = Ok item
       ∧ li_job_id item = id ∧ job_state_as_str (li_status item) = status r
       ∧ li_attempt item = attempt r ∧ li_created_at item = created_at (spec r)
       ∧ get_job id db = Ok (mkDetail item (payload (spec r)) (default "" (result_bytes r))
           (default "" (error_message r)) (timeout_secs (spec r)) (claimed_at r)
           (lease_expires_at r) (completed_at r) (default "" (claimed_by r)))).
Proof.
  intros Hh Hr. destruct (history_inv _ _ _ Hh) as [q [Hrep Hq _ _]].
  pose proof (get_job_status_row_of now db q id Hrep Hq) as Hst.
  pose proof Hr as Hr'. rewrite (represents_lookup db q) in Hr' by done.
  apply fmap_Some in Hr' as (j & Hj & ->). rewrite Hj in Hst. cbn [fmap option_fmap option_map] in Hst.
  destruct (Hq _ _ Hj) as [Hid Hok]. split.
  - rewrite Hst, row_of_state, row_of_error, row_of_attempt, row_of_spec. cbn [ok default].
    do 2 f_equal. f_equal. unfold row_of. by destruct (j_phase j).
  - rewrite row_of_spec. intros Hlen.
    assert ((listed_length (j_spec j) <=? MAX_JOB_METADATA_BYTES)%Z = true) as Hl.
    { apply Z.leb_le. rewrite (listed_length_uuid now) by done. lia. }
    exists (item_of j). rewrite (list_item_row_of now), Hl, row_of_attempt by done. split_and!; try done.
    + unfold row_of. cbn. unfold state_of. by destruct (j_phase j).
    + unfold get_job. rewrite (uuid_not_blank id), (uuid_pg_text id), Hr by (rewrite <-Hid; apply Hok).
      rewrite (detail_row_of now), Hl, row_of_error by done. cbn [negb].
      unfold detail_of, row_of. by destruct (j_phase j).
Qed.

(** A job whose metadata is accepted at submission but lies within 36 bytes of the
    bound cannot be administered: the lists count the identifier too, so reading it,
    any list that contains it and its retry fail. *)
Theorem near_limit_metadata_unreadable now db es id r :
  history now db es → db_jobs db !! id = Some r →
  (MAX_JOB_METADATA_BYTES - 36 < total_length (metadata (spec r)))%Z →
  list_item r = Err (AdminDatabase "job metadata exceeds configured size bounds")
  ∧ get_job id db = Err (AdminDatabase "job metadata exceeds configured size bounds")
  ∧ (∀ now', (now ≤ now')%Z → is_ok (retry_dead_job now' id db) = false)
  ∧ (∀ l, r ∈ l → is_ok (collect_items l) = false).
Proof.
  intros Hh Hr Hlen. destruct (history_inv _ _ _ Hh) as [q [Hrep Hq _ _]].
  pose proof Hr as Hr'. rewrite (represents_lookup db q) in Hr' by done.
  apply fmap_Some in Hr' as (j & Hj & ->). destruct (Hq _ _ Hj) as [Hid Hok].
  rewrite row_of_spec in Hlen.
  assert (MAX_JOB_METADATA_BYTES < listed_length (j_spec j))%Z as Hl.
  { rewrite (listed_length_uuid now) by done. lia. }
  assert (list_item (row_of j) = Err (AdminDatabase "job metadata exceeds configured size bounds"))
    as Hitem by (by rewrite (list_item_row_of now), (proj2 (Z.leb_gt _ _) Hl)).
  split_and!; [done|..].
  - unfold get_job. rewrite (uuid_not_blank id), (uuid_pg_text id), Hr by (rewrite <-Hid; apply Hok).
    by rewrite (detail_row_of now), (proj2 (Z.leb_gt _ _) Hl) by done.
  - intros now' Hle. apply (queue_ok_later _ _ _ Hle) in Hq.
    pose proof (retry_dead_job_refines now' id db q Hrep Hq) as H.
    destruct (retry_dead_job now' id db) as [[d db']|]; [|done].
    destruct H as (j' & Hj' & _ & Hl' & _). simplify_eq. lia.
  - intros l Hin. destruct (collect_items l) as [items|] eqn:E; [|done].
    apply collect_items_Forall2 in E. apply list_elem_of_lookup in Hin as [i Hi].
    destruct (Forall2_lookup_l _ _ _ _ _ E Hi) as (item & _ & Hitem'). congruence.
Qed.

(** A submission that fits the bounds, is text PostgreSQL takes and drew an unused
    identifier waits in the queue with its defaults filled in, and is announced on a
    channel that every worker pool able to claim it listens on; any other is refused. *)
Theorem submission_waits_and_notifies now db es now' new_id ns name version ty body timeout max
    src_ns src_mod :
  history now db es → (now ≤ now')%Z → uuid_text new_id = true → (0 ≤ timeout)%Z → (0 ≤ max)%Z →
  let s := submitted_spec now' new_id ns name version ty body timeout max src_ns src_mod in
  match insert_job now' new_id ns name version ty body timeout max src_ns src_mod db with
  | Ok (id, db') => id = new_id
      ∧ db_jobs db' = <[id := mkRow s "pending" None None 0 now' None None None None None]> (db_jobs db)
      ∧ ∃ channel, db_notices db' = db_notices db ++ [(channel, id)]
          ∧ ∀ v, version = v ∨ version = "" → channel ∈ pool_channels ns name v
  | Err _ => ¬ spec_ok s ∨ spec_texts s = false ∨ is_Some (db_jobs db !! new_id)
  end.
Proof.
  intros Hh Hle Hu Ht Hm s. destruct (history_inv _ _ _ Hh) as [q [Hr Hq _ _]].
  pose proof (insert_job_refines now' new_id ns name version ty body timeout max src_ns src_mod
    db q Hr Hu Ht Hm) as H. cbv zeta in H. fold s in H.
  destruct (insert_job _ _ _ _ _ _ _ _ _ _ _ _) as [[id db']|e].
  - destruct H as (-> & _ & Hr' & Hn). split_and!; [done| |].
    + by rewrite Hr', Hr, fmap_insert.
    + exists (worker_channel ns name version). split; [done|].
      intros v [<- | ->]; unfold pool_channels; set_solver.
  - rewrite (represents_lookup db q) by done.
    destruct H as [[? _]|[[_ ?]|[_ [j Hj]]]]; [by left|by right; left|right; right].
    rewrite Hj. by eexists.
Qed.

(** *** Dispatch *)

(** A text the environment words: UTF-8, and short of the bound of an error. *)
Definition env_text (s : string) : Prop :=
  utf8_valid s = true ∧ (str_len s ≤ MAX_JOB_ERROR_BYTES - 64)%Z.

(** What a module and the HTTP machinery can answer: [Limited] caps the body. *)
Definition outcome_ok (o : ModuleOutcome) : Prop :=
  match o with
  | BodyError e => env_text e
  | Responded status body => (100 ≤ status ≤ 999)%Z ∧ (str_len body ≤ MAX_JOB_BLOB_BYTES)%Z
  | _ => True
  end.

Lemma numeral_text k z :
  (0 ≤ z < 10 ^ Z.of_nat k)%Z → 1 ≤ k →
  utf8_valid (pretty z) = true ∧ (str_len (pretty z) ≤ Z.of_nat k)%Z.
Proof.
  intros Hz Hk. destruct (pretty_Z_numeral k z Hz Hk) as [Hd Hl]. split; [|unfold str_len; lia].
  apply utf8_valid_ascii. eapply str_all_impl; [|exact Hd].
  intros c. unfold is_ascii_digit. rewrite !byte_in_spec. lia.
Qed.

Lemma prefixed_message p s n :
  p ≠ "" → utf8_valid p = true → utf8_valid s = true →
  (str_len s ≤ n)%Z → (str_len p + n ≤ MAX_JOB_ERROR_BYTES)%Z →
  utf8_valid (p +:+ s) = true ∧ p +:+ s ≠ "" ∧ (str_len (p +:+ s) ≤ MAX_JOB_ERROR_BYTES)%Z.
Proof.
  intros Hne Hp Hs Hl Hn. split_and!; [by apply utf8_valid_app| |rewrite str_len_app; lia].
  by destruct p.
Qed.

(** Every failure message is text within the bound of an error. *)
Lemma job_verdict_message timeout o m :
  (0 ≤ timeout ≤ from_secs U64_MAX + from_secs 1)%Z → outcome_ok o →
  job_verdict timeout o = Err m →
  utf8_valid m = true ∧ m ≠ "" ∧ (str_len m ≤ MAX_JOB_ERROR_BYTES)%Z.
Proof.
  intros Ht Ho Hv. destruct o as [| |e|status body|]; cbn [job_verdict] in Hv.
  - by injection Hv as <-.
  - by injection Hv as <-.
  - injection Hv as <-. destruct Ho as [Hu Hl]. by apply (prefixed_message _ _ (MAX_JOB_ERROR_BYTES - 64)).
  - destruct (is_success status); [done|]. cbv zeta in Hv.
    set (limit := Z.to_nat _) in Hv. injection Hv as <-. destruct Ho as [Hs Hb].
    destruct (numeral_text 3 status ltac:(lia) ltac:(lia)) as [Hsu Hsl].
    pose proof (from_utf8_lossy_length (str_take limit body)) as Hl. rewrite str_length_take in Hl.
    assert (str_len (from_utf8_lossy (str_take limit body)) ≤ 786432)%Z as Hll.
    { unfold str_len. assert (Z.of_nat limit ≤ 262144)%Z; [|lia].
      unfold limit. change (MAX_JOB_ERROR_BYTES / 4)%Z with 262144%Z.
      pose proof (str_len_nonneg body). lia. }
    apply (prefixed_message "HTTP " _ 786500); [done..| | |done].
    + apply utf8_valid_app; [done|]. apply utf8_valid_app; [done|apply from_utf8_lossy_valid].
    + rewrite !str_len_app. change (str_len ": ") with 2%Z. lia.
  - injection Hv as <-.
    destruct (numeral_text 20 (timeout / 1000000000)) as [Hsu Hsl]; [|lia|].
    { unfold from_secs, U64_MAX in Ht.
      pose proof (Z.div_pos timeout 1000000000 ltac:(lia) ltac:(lia)).
      pose proof (Z.div_le_mono timeout (18446744073709551616 * 1000000000) 1000000000
        ltac:(lia) ltac:(lia)) as Hd.
      rewrite Z.div_mul in Hd by lia. change (10 ^ Z.of_nat 20)%Z with 100000000000000000000%Z. lia. }
    apply (prefixed_message "job timed out after " _ 30); [done..| | |done].
    + by apply utf8_valid_app.
    + rewrite str_len_app. change (str_len "s") with 1%Z. lia.
Qed.

(** The rows a completion and a failure write. *)
Definition completed_row (now : Z) (bytes : string) (r : JobRow) : JobRow :=
  mkRow (spec r) "complete" (Some bytes) (error_message r) (attempt r) now None (Some now)
    None None None.

Definition failed_row (now : Z) (msg : string) (r : JobRow) : JobRow :=
  mkRow (spec r) (retry_or_dead r) None (Some msg) (attempt r) now None None None None None.

Lemma held_row db q now id r c :
  represents db q → queue_ok now q → db_jobs db !! id = Some r → status r = "running" →
  claim_id r = Some c → ∃ j w t, q !! id = Some j ∧ r = row_of j ∧ j_phase j = Held c w t.
Proof.
  intros Hr Hq Hid Hst Hc. rewrite (represents_lookup db q) in Hid by done.
  apply fmap_Some in Hid as (j & Hj & ->). unfold row_of in Hst, Hc.
  destruct (j_phase j) as [|c' w t| |] eqn:Hp; try done. injection Hc as <-. eauto 6.
Qed.

Lemma complete_job_held now db q id r c bytes :
  represents db q → queue_ok now q → db_jobs db !! id = Some r → status r = "running" →
  claim_id r = Some c → pg_text id = true → (str_len bytes ≤ MAX_JOB_BLOB_BYTES)%Z →
  ∃ db', complete_job now id c bytes db = Ok (Applied, db')
    ∧ db_jobs db' = <[id := completed_row now bytes r]> (db_jobs db).
Proof.
  intros Hr Hq Hid Hst Hc Ht Hb.
  destruct (held_row _ _ _ _ _ _ Hr Hq Hid Hst Hc) as (j & w & t & Hj & -> & Hp).
  pose proof (complete_job_refines now id c bytes db q Hr Hq) as H.
  destruct (complete_job _ _ _ _ _) as [[[] db']|].
  - destruct H as (j' & _ & _ & Hj' & _ & _ & Hr' & _). simplify_eq. exists db'. split; [done|].
    rewrite Hr', Hr, fmap_insert. f_equal. unfold completed_row.
    by rewrite row_of_spec, row_of_error, row_of_attempt.
  - destruct H as [_ H]. by destruct (H _ _ _ Hj Hp).
  - destruct H as [[_ ?]|[_ ?]]; [lia|congruence].
Qed.

Lemma fail_job_held now db q id r c msg :
  represents db q → queue_ok now q → db_jobs db !! id = Some r → status r = "running" →
  claim_id r = Some c → pg_text id = true → utf8_valid msg = true → msg ≠ "" →
  (str_len msg ≤ MAX_JOB_ERROR_BYTES)%Z →
  db_jobs (finalize_failure now id c msg db)
  = if pg_text msg then <[id := failed_row now msg r]> (db_jobs db) else db_jobs db.
Proof.
  intros Hr Hq Hid Hst Hc Ht Hu Hne Hl.
  destruct (held_row _ _ _ _ _ _ Hr Hq Hid Hst Hc) as (j & w & t & Hj & -> & Hp).
  unfold finalize_failure. pose proof (fail_job_refines now id c msg db q Hr Hq Hu) as H.
  destruct (fail_job _ _ _ _ _) as [[[] db']|e] eqn:E.
  - destruct H as (j' & _ & _ & Hj' & _ & _ & Hr' & _). simplify_eq.
    assert (pg_text msg = true) as ->.
    { unfold fail_job in E. rewrite Ht in E. destruct (negb _); [|done].
      destruct (_ <=? _)%Z; [|done]. by destruct (pg_text msg). }
    rewrite Hr', Hr, fmap_insert. f_equal.
    rewrite <-(row_of_release now msg j c w t) by done. unfold failed_row.
    assert (result_bytes (row_of j) = None ∧ completed_at (row_of j) = None) as [-> ->]; [|done].
    unfold row_of. by rewrite Hp.
  - destruct H as [_ H]. by destruct (H _ _ _ Hj Hp).
  - destruct H as [[_ ?]|[[_ ?]|[_ Hn]]]; [done|lia|]. rewrite Ht in Hn. cbn in Hn. by rewrite Hn.
Qed.

Section dispatch.
Context `{HL : HttpLib}.

(** What a dispatch comes to, the failure to build the request included. *)
Definition dispatch_verdict (job : ClaimedJob) (timeout : Z) (build_error : string)
    (outcome : Request → ModuleOutcome) : result string string :=
  match build_job_request job timeout with
  | None => Err ("build request: " +:+ build_error)
  | Some request => job_verdict timeout (outcome request)
  end.

(** C29. Dispatch settles its claim. For a job whose row still carries the claim, a
    successful response completes the row with the body; any other outcome returns it to
    the queue, or declares it dead after the last attempt, with a message that always fits
    the bound of an error. Only a message with a NUL byte is not recorded: PostgreSQL
    refuses it, and the row stays running until its lease ends. *)
Theorem dispatch_settles_claim now db es now' job r timeout build_error outcome :
  history now db es → (now ≤ now')%Z →
  db_jobs db !! cj_job_id job = Some r → status r = "running" →
  claim_id r = Some (cj_claim_id job) →
  (0 ≤ timeout ≤ from_secs U64_MAX + from_secs 1)%Z → env_text build_error →
  (∀ request, outcome_ok (outcome request)) →
  db_jobs (dispatch_job now' job timeout build_error outcome db) =
  match dispatch_verdict job timeout build_error outcome with
  | Ok body => <[cj_job_id job := completed_row now' body r]> (db_jobs db)
  | Err msg =>
      if pg_text msg then <[cj_job_id job := failed_row now' msg r]> (db_jobs db)
      else db_jobs db
  end.
Proof.
  intros Hh Hle Hid Hst Hc Ht [Hbu Hbl] Ho. destruct (history_inv _ _ _ Hh) as [q [Hr Hq _ _]].
  apply (queue_ok_later _ _ _ Hle) in Hq.
  assert (pg_text (cj_job_id job) = true) as Hpg.
  { destruct (held_row _ _ _ _ _ _ Hr Hq Hid Hst Hc) as (j & w & t & Hj & _ & _).
    destruct (Hq _ _ Hj) as (<- & Hu & _). by apply uuid_pg_text. }
  unfold dispatch_job, dispatch_verdict. destruct (build_job_request job timeout) as [request|].
  - specialize (Ho request). destruct (job_verdict timeout (outcome request)) as [body|msg] eqn:Hv.
    + assert (str_len body ≤ MAX_JOB_BLOB_BYTES)%Z as Hb.
      { destruct (outcome request) as [| | |status b|]; cbn in Hv; try done.
        destruct (is_success status); [|done]. injection Hv as ->. apply Ho. }
      destruct (complete_job_held now' db q (cj_job_id job) r (cj_claim_id job) body) as (db' & -> & E);
        done.
    + destruct (job_verdict_message _ _ _ Ht Ho Hv) as (? & ? & ?). by eapply fail_job_held.
  - destruct (prefixed_message "build request: " build_error (MAX_JOB_ERROR_BYTES - 64))
      as (? & ? & ?); [done..|]. by eapply fail_job_held.
Qed.

End dispatch.

(** ** Paging over a reachable table *)

Section pages.
Context `{CL : CollationLib, CU : CursorLib, SH : Sha256Lib}.

Lemma history_keyed now db es : history now db es → keyed db.
Proof.
  intros Hh id r Hr. destruct (history_inv _ _ _ Hh) as [q [Hrep Hq _ _]].
  rewrite (represents_lookup db q) in Hr by done. apply fmap_Some in Hr as (j & Hj & ->).
  rewrite row_of_spec. by apply (Hq _ _ Hj).
Qed.

Lemma uuid_utf8 id : uuid_text id = true → utf8_valid id = true.
Proof.
  unfold uuid_text. intros [_ H]%andb_true_iff. apply utf8_valid_ascii.
  eapply str_all_impl; [|exact H]. intros c [Hc|Hc]%orb_true_iff.
  - unfold is_ascii_hexdigit, is_ascii_digit in Hc. rewrite !orb_true_iff, !byte_in_spec in Hc.
    apply byte_in_spec. lia.
  - by apply char_eqb_true in Hc as ->.
Qed.

(** The items of the selected rows are what a client that follows the cursors receives. *)
Lemma followed_items now db es f st p items :
  history now db es → filter_validate f = Ok () → filter_params_ok f = true →
  (1 ≤ p ≤ MAX_PAGE_SIZE)%Z →
  (∀ id r, db_jobs db !! id = Some r → (0 ≤ created_at (spec r) < from_secs 253402300800)%Z) →
  collect_items (select_jobs f st None db) = Ok items →
  follow_cursors (S (length items)) f st p "" db = Some items
  ∧ NoDup (li_job_id <$> items)
  ∧ ∀ id, id ∈ li_job_id <$> items ↔
      ∃ r, db_jobs db !! id = Some r ∧ listed f st None r = true.
Proof.
  intros Hh Hf Hp Hps Hrange Hc. pose proof (history_keyed _ _ _ Hh) as Hk.
  pose proof (proj1 (collect_items_Forall2 _ _) Hc) as Hrel.
  assert (∀ r, r ∈ select_jobs f st None db ↔
    listed f st None r = true ∧ db_jobs db !! job_id (spec r) = Some r) as Hsel.
  { intros r. unfold select_jobs. rewrite sort_by_perm, list_elem_of_filter, elem_of_rows. split.
    - intros [Hl [id Hid]]. split; [done|]. by rewrite (Hk _ _ Hid).
    - intros [Hl Hid]. eauto. }
  assert (li_job_id <$> items = (λ r, job_id (spec r)) <$> select_jobs f st None db) as Hids.
  { clear -Hrel. induction Hrel as [|r item l k Hri Hl IH]; [done|]. cbn. f_equal; [|done].
    apply list_item_key in Hri. by injection Hri. }
  split_and!.
  - apply (follow_cursors_from f st p db items _ 0); try done; [|lia..].
    apply Forall_forall. intros item Hin. apply list_elem_of_lookup in Hin as [i Hi].
    destruct (Forall2_lookup_r _ _ _ _ _ Hrel Hi) as (r & Hr & Hri).
    apply list_elem_of_lookup_2, Hsel in Hr as [_ Hr].
    destruct (history_inv _ _ _ Hh) as [q [Hrep Hq _ _]].
    pose proof (Hrange _ _ Hr) as Ht. apply list_item_key in Hri. injection Hri as E1 E2.
    rewrite (represents_lookup db q) in Hr by done. apply fmap_Some in Hr as (j & Hj & Hrj).
    destruct (Hq _ _ Hj) as (E3 & Hu & _). rewrite E3, E2 in Hu.
    unfold item_ok. rewrite <-E1. split_and!; [lia..|by apply uuid_utf8| |by apply uuid_pg_text].
    intros E. by rewrite E in Hu.
  - rewrite Hids. unfold select_jobs. rewrite sort_by_perm.
    by apply NoDup_fmap_filter, rows_keys_nodup.
  - intros id. rewrite Hids, list_elem_of_fmap. split.
    + intros (r & -> & [Hl Hr]%Hsel). eauto.
    + intros (r & Hr & Hl). pose proof (Hk _ _ Hr) as E. exists r. split; [done|].
      apply Hsel. by rewrite E.
Qed.

(** C32. Paging is exact. On a reachable table whose jobs have creation times that a cursor can
    carry, and where the metadata of each selected job leaves room for its 36-byte identifier
    below the metadata bound, a client that follows the cursors of [list_jobs] until there is
    none receives every job that the filter and the status select exactly once, newest first,
    for every page size. *)
Theorem pages_list_every_job_once now db es f st p :
  history now db es → filter_validate f = Ok () → filter_params_ok f = true →
  (1 ≤ p ≤ MAX_PAGE_SIZE)%Z →
  (∀ id r, db_jobs db !! id = Some r → (0 ≤ created_at (spec r) < from_secs 253402300800)%Z) →
  (∀ id r, db_jobs db !! id = Some r → listed f st None r = true →
     (total_length (metadata (spec r)) + 36 ≤ MAX_JOB_METADATA_BYTES)%Z) →
  ∃ items, collect_items (select_jobs f st None db) = Ok items
    ∧ follow_cursors (S (length items)) f st p "" db = Some items
    ∧ NoDup (li_job_id <$> items)
    ∧ ∀ id, id ∈ li_job_id <$> items ↔ ∃ r, db_jobs db !! id = Some r ∧ listed f st None r = true.
Proof.
  intros Hh Hf Hp Hps Hrange Hfit.
  assert (∀ r, r ∈ select_jobs f st None db → ∃ item, list_item r = Ok item) as Hitems.
  { intros r Hr. unfold select_jobs in Hr. rewrite sort_by_perm, list_elem_of_filter, elem_of_rows in Hr.
    destruct Hr as [Hl [id Hid]]. destruct (reachable_rows_read_back _ _ _ _ _ Hh Hid) as [_ H].
    destruct (H (Hfit _ _ Hid Hl)) as (item & Hi & _). by exists item. }
  destruct (collect_items_total _ Hitems) as [items Hc]. exists items. split; [exact Hc|].
  by eapply followed_items.
Qed.

End pages.

(** ** A history that evaluates *)

Definition op_okb (op : JobOp) : bool :=
  match op with
  | Insert new_id _ _ _ _ _ timeout max _ _ =>
      uuid_text new_id && (0 <=? timeout)%Z && (0 <=? max)%Z
  | Claim _ _ _ _ _ engine _ => negb (str_is_empty engine)
  | Fault _ _ msg => utf8_valid msg
  | _ => true
  end.

Definition fresh_claimb (op : JobOp) (es : list event) : bool :=
  match op with
  | Claim _ _ _ _ _ _ c => bool_decide (c ∉ claims_made es)
  | _ => true
  end.

Fixpoint run_ops (now : Z) (ops : list (Z * JobOp)) (db : Db) (es : list event) :
    option (Z * Db * list event) :=
  match ops with
  | [] => Some (now, db, es)
  | (now', op) :: ops =>
      if (now <=? now')%Z && op_okb op && fresh_claimb op es then
        match run_op now' op db with
        | Ok (db', es') => run_ops now' ops db' (es ++ es')
        | Err _ => None
        end
      else None
  end.

Lemma run_ops_history now ops db es now' db' es' :
  history now db es → run_ops now ops db es = Some (now', db', es') → history now' db' es'.
Proof.
  revert now db es. induction ops as [|[t op] ops IH]; intros now db es Hh Hrun; cbn in Hrun.
  { by injection Hrun as <- <- <-. }
  destruct (now <=? t)%Z eqn:Ht; [|done]. destruct (op_okb op) eqn:Hop; [|done].
  destruct (fresh_claimb op es) eqn:Hf; [|done]. cbn [andb] in Hrun.
  destruct (run_op t op db) as [[d e]|] eqn:Hr; [|done].
  eapply IH; [|done]. eapply history_op; [done|by apply Z.leb_le| | |done].
  - destruct op as [| ? ? ? ? ? engine| | | |]; try done; cbn in *; bool_to_prop; [done|].
    intros ->. done.
  - destruct op; try done. cbn in *. apply bool_decide_eq_true in Hf. intros id Hid. apply Hf.
    apply elem_of_claims_made. eauto.
Qed.

Definition demo_id : string := "00000000-0000-0000-0000-000000000001".

(** A job is submitted, claimed, recovered after its lease, claimed again and fails for
    the last time. *)
Definition demo_ops : list (Z * JobOp) :=
  [ (from_secs 1, Insert demo_id "shop" "mailer" "" "/send" "hi" 60 2 "" "");
    (from_secs 2, Claim 0 ∅ "shop" "mailer" "1.0.0" "engine-a" 7);
    (from_secs 62, Recover ∅);
    (from_secs 63, Claim 0 ∅ "shop" "mailer" "1.0.0" "engine-b" 8);
    (from_secs 64, Fault demo_id 8 "boom") ].

Definition demo_start : Z * Db * list event := (0%Z, mkDb ∅ [], []).

Definition state_after (ops : list (Z * JobOp)) : Z * Db * list event :=
  default demo_start (run_ops 0 ops (mkDb ∅ []) []).

Lemma state_after_history ops :
  (if run_ops 0 ops (mkDb ∅ []) [] is Some _ then true else false) = true →
  history (state_after ops).1.1 (state_after ops).1.2 (state_after ops).2.
Proof.
  intros H. eapply run_ops_history; [apply (history_start 0)|].
  rewrite (default_found demo_start _ H). fold (state_after ops).
  by destruct (state_after ops) as [[? ?] ?].
Qed.

Definition demo_state (n : nat) : Z * Db * list event := state_after (take n demo_ops).
Definition demo_db (n : nat) : Db := (demo_state n).1.2.
Definition demo_events (n : nat) : list event := (demo_state n).2.

Lemma demo_state_history n :
  (if run_ops 0 (take n demo_ops) (mkDb ∅ []) [] is Some _ then true else false) = true →
  history (demo_state n).1.1 (demo_db n) (demo_events n).
Proof. apply state_after_history. Qed.

(** At the third step the first claim has ended. *)
Lemma claims_end_at_most_once_witness :
  7%Z ∈ claims_ended (demo_events 3) ∧
  complete_job (from_secs 62) demo_id 7 "late" (demo_db 3) = Ok (Stale, demo_db 3).
Proof.
  assert (7%Z ∈ claims_ended (demo_events 3)) as Hin by (vm_compute; left).
  split; [done|].
  destruct (claims_end_at_most_once _ _ _ (demo_state_history 3 ltac:(vm_compute; reflexivity)))
    as [_ H].
  destruct (H 7%Z Hin) as [_ H7].
  apply (H7 (from_secs 62) demo_id "late" "x").
  - by vm_compute.
  - done.
  - done.
  - by repeat split.
Defined.

Definition blank_row : JobRow :=
  mkRow (mkSpec "" "" "" "" "" "" 0 0 0 "" "") "" None None 0 0 None None None None None.

Definition demo_row (n : nat) : JobRow := default blank_row (db_jobs (demo_db n) !! demo_id).

Lemma demo_row_found n :
  (if db_jobs (demo_db n) !! demo_id is Some _ then true else false) = true →
  db_jobs (demo_db n) !! demo_id = Some (demo_row n).
Proof. apply default_found. Qed.

Lemma job_statements_refine_lifecycle_witness :
  ∃ q, represents (demo_db 2) q ∧ queue_ok (from_secs 62) q.
Proof.
  destruct (job_statements_refine_lifecycle _ _ _ (from_secs 62) (Recover ∅)
    (demo_state_history 2 ltac:(vm_compute; reflexivity))) as (q & Hr & Hq & _).
  - by vm_compute.
  - done.
  - exists q. exact (conj Hr Hq).
Defined.

Lemma attempts_accounted_witness :
  count_events (is_claim_of demo_id) (demo_events 5) = 2%Z ∧
  (0 ≤ attempt (demo_row 5) ≤ max_attempts (spec (demo_row 5)))%Z.
Proof.
  destruct (attempts_accounted _ _ _ demo_id (demo_row 5)
    (demo_state_history 5 ltac:(vm_compute; reflexivity))
    (demo_row_found 5 ltac:(vm_compute; reflexivity))) as [H1 H2].
  split; [|exact H2]. rewrite H1. by vm_compute.
Defined.

Lemma claim_takes_oldest_witness :
  ∃ job db', claim_job (from_secs 2) 0 ∅ "shop" "mailer" "1.0.0" "engine-a" 7 (demo_db 1)
               = Ok (Some job, db') ∧ cj_payload job = "hi".
Proof.
  pose proof (claim_takes_oldest _ _ _ (from_secs 2) 0 ∅ "shop" "mailer" "1.0.0" "engine-a" 7
    (demo_state_history 1 ltac:(vm_compute; reflexivity)) ltac:(by vm_compute) ltac:(done)
    ltac:(vm_compute; reflexivity)) as H.
  assert (fst <$> ok (claim_job (from_secs 2) 0 ∅ "shop" "mailer" "1.0.0" "engine-a" 7 (demo_db 1))
    = Some (Some (mkClaimed demo_id "/send" "hi" 7))) as Hv by (vm_compute; reflexivity).
  destruct (claim_job _ _ _ _ _ _ _ _ _) as [[[job|] db']|] eqn:E; [|exfalso|destruct H].
  - exists job, db'. split; [reflexivity|]. cbn in Hv. injection Hv as ->. reflexivity.
  - discriminate Hv.
Defined.

Lemma recovery_takes_expired_leases_witness :
  ∃ db', recover_stale_jobs (from_secs 62) ∅ (demo_db 2) = Ok (1%Z, db').
Proof.
  destruct (recovery_takes_expired_leases _ _ _ (from_secs 62) ∅
    (demo_state_history 2 ltac:(vm_compute; reflexivity)) ltac:(by vm_compute)) as (db' & H & _).
  exists db'. rewrite H. by vm_compute.
Defined.

Lemma reachable_rows_read_back_witness :
  status (demo_row 2) = "running" ∧ ∃ item, list_item (demo_row 2) = Ok item ∧ li_status item = Running.
Proof.
  destruct (reachable_rows_read_back _ _ _ demo_id (demo_row 2)
    (demo_state_history 2 ltac:(vm_compute; reflexivity))
    (demo_row_found 2 ltac:(vm_compute; reflexivity))) as [_ H].
  split; [by vm_compute|]. destruct H as (item & Hi & _ & Hs & _); [by vm_compute|].
  exists item. split; [exact Hi|].
  assert (status (demo_row 2) = "running") as Hrun by (vm_compute; reflexivity).
  rewrite Hrun in Hs. destruct (li_status item); [discriminate Hs|reflexivity|discriminate Hs..].
Defined.

Lemma submission_waits_and_notifies_witness :
  is_ok (insert_job (from_secs 1) demo_id "shop" "mailer" "" "/send" "hi" 60 2 "" "" (demo_db 0)) = true.
Proof.
  pose proof (submission_waits_and_notifies _ _ _ (from_secs 1) demo_id "shop" "mailer" "" "/send"
    "hi" 60 2 "" "" (demo_state_history 0 ltac:(vm_compute; reflexivity)) ltac:(by vm_compute)
    ltac:(by vm_compute) ltac:(done) ltac:(done)) as H.
  cbv zeta in H. destruct (insert_job _ _ _ _ _ _ _ _ _ _ _ _) as [[id db']|e]; [reflexivity|].
  destruct H as [H|[H|[x H]]].
  - exfalso. apply H. by vm_compute.
  - vm_compute in H. discriminate H.
  - vm_compute in H. discriminate H.
Defined.

(** A job whose texts fill the metadata bound. *)
Definition long_text : string := N.iter 10920 (String "a") "".

Definition long_ops : list (Z * JobOp) :=
  [ (from_secs 1, Insert demo_id long_text long_text long_text long_text "hi" 60 2 long_text long_text) ].

Definition long_db : Db := (state_after long_ops).1.2.
Definition long_row : JobRow := default blank_row (db_jobs long_db !! demo_id).

Lemma long_history :
  history (state_after long_ops).1.1 long_db (state_after long_ops).2.
Proof. apply state_after_history. vm_compute. reflexivity. Qed.

Lemma long_row_found : db_jobs long_db !! demo_id = Some long_row.
Proof. apply default_found. vm_compute. reflexivity. Qed.

Lemma long_row_metadata :
  (MAX_JOB_METADATA_BYTES - 36 < total_length (metadata (spec long_row)))%Z.
Proof. vm_compute. reflexivity. Qed.

Lemma near_limit_metadata_unreadable_witness :
  list_item long_row = Err (AdminDatabase "job metadata exceeds configured size bounds") ∧
  get_job demo_id long_db = Err (AdminDatabase "job metadata exceeds configured size bounds").
Proof.
  pose proof (near_limit_metadata_unreadable _ _ _ _ _ long_history long_row_found
    long_row_metadata) as (H1 & H2 & _).
  exact (conj H1 H2).
Defined.

Section demo.
#[local] Existing Instances toy_http toy_collation toy_cursor toy_sha256.

Definition demo_job : ClaimedJob := mkClaimed demo_id "/send" "hi" 7.

Lemma demo_claim_held :
  status (demo_row 2) = "running" ∧ claim_id (demo_row 2) = Some (cj_claim_id demo_job).
Proof. vm_compute. done. Qed.

Lemma demo_outcome_ok (request : Request) : outcome_ok (Responded 503 "busy").
Proof. vm_compute. done. Qed.

Lemma demo_verdict :
  dispatch_verdict demo_job (from_secs 60) "bad" (λ _, Responded 503 "busy") = Err "HTTP 503: busy".
Proof. vm_compute. reflexivity. Qed.

Lemma dispatch_settles_claim_witness :
  db_jobs (dispatch_job (from_secs 3) demo_job (from_secs 60) "bad" (λ _, Responded 503 "busy")
             (demo_db 2))
  = <[demo_id := failed_row (from_secs 3) "HTTP 503: busy" (demo_row 2)]> (db_jobs (demo_db 2)).
Proof.
  pose proof (dispatch_settles_claim _ _ _ (from_secs 3) demo_job (demo_row 2) (from_secs 60) "bad"
    (λ _, Responded 503 "busy") (demo_state_history 2 ltac:(vm_compute; reflexivity))
    ltac:(by vm_compute) (demo_row_found 2 ltac:(vm_compute; reflexivity))
    (proj1 demo_claim_held) (proj2 demo_claim_held) ltac:(by vm_compute) ltac:(by vm_compute)
    demo_outcome_ok) as H.
  rewrite demo_verdict in H. exact H.
Defined.

Definition demo_filter : JobFilter :=
  mkFilter (Some "shop") None None None None None None None.

Definition demo_items : list JobListItem :=
  default [] (ok (collect_items (select_jobs demo_filter None None (demo_db 5)))).

Lemma demo_created id r :
  db_jobs (demo_db 5) !! id = Some r → (0 ≤ created_at (spec r) < from_secs 253402300800)%Z.
Proof.
  intros Hr.
  assert (map_Forall (λ _ r, (0 ≤ created_at (spec r) < from_secs 253402300800)%Z)
            (db_jobs (demo_db 5))) as Hall; [|by apply (Hall id r)].
  apply (bool_decide_unpack _). vm_compute. exact I.
Qed.

Lemma demo_fits id r :
  db_jobs (demo_db 5) !! id = Some r → listed demo_filter None None r = true →
  (total_length (metadata (spec r)) + 36 ≤ MAX_JOB_METADATA_BYTES)%Z.
Proof.
  intros Hr _.
  assert (map_Forall (λ _ r, (total_length (metadata (spec r)) + 36 ≤ MAX_JOB_METADATA_BYTES)%Z)
            (db_jobs (demo_db 5))) as Hall; [|by apply (Hall id r)].
  apply (bool_decide_unpack _). vm_compute. exact I.
Qed.

Lemma pages_list_every_job_once_witness :
  length demo_items = 1 ∧
  follow_cursors (S (length demo_items)) demo_filter None 1 "" (demo_db 5) = Some demo_items.
Proof.
  destruct (pages_list_every_job_once _ _ _ demo_filter None 1
    (demo_state_history 5 ltac:(vm_compute; reflexivity)) eq_refl eq_refl ltac:(by vm_compute)
    demo_created demo_fits) as (items & Hc & H & _).
  unfold demo_items. rewrite Hc. cbn [ok default]. split; [|exact H].
  assert (match collect_items (select_jobs demo_filter None None (demo_db 5)) with
          | Ok l => Nat.eqb (length l) 1 | Err _ => false end = true) as Hl by (vm_compute; reflexivity).
  rewrite Hc in Hl. by apply Nat.eqb_eq.
Defined.

End demo.
