(* ===== verification/WorkerHttp.v ===== *)
(** * Submitting jobs and asking for their status over HTTP (wr-engine/src/worker_http.rs)

    The handler behind the two paths of the worker service. [prost] decodes the
    protobuf messages and [semver] prints versions: both are parameters. The body
    arrives read up to the submission limit, or not at all. *)

From S2P Require Import Prelude RustStr Utf8 Lists Externals Models Identity Naming Http Layers JobQueue JobAdmin JobLifecycle JobHistory.

Definition SUBMIT_JOB_PATH : string := "/wruntime.WorkerService/SubmitJob".
Definition GET_JOB_STATUS_PATH : string := "/wruntime.WorkerService/GetJobStatus".

Definition canonical_worker_path (path : string) : option string :=
  if String.eqb path SUBMIT_JOB_PATH then Some SUBMIT_JOB_PATH
  else if String.eqb path GET_JOB_STATUS_PATH then Some GET_JOB_STATUS_PATH
  else None.

Record WorkerPolicy : Type := mkPolicy { wp_max_attempts : Z; wp_timeout_secs : Z }.

(** Messages of proto/wruntime.proto. *)
Record SubmitJobRequest : Type := mkSubmit {
  sr_worker_namespace : string;
  sr_worker_name : string;
  sr_worker_version : string;
  sr_job_type : string;
  sr_payload : string;
  sr_timeout_secs : Z;
  sr_max_attempts : Z;
}.

Inductive worker_message : Type :=
| WrkUnknownEndpoint
| WrkNoDatabase
| WrkBodyLimit
| WrkDecode (error : string)
| WrkMissingIdentity
| WrkIdentityMismatch
| WrkVersionMismatch
| WrkInsert (e : WorkerError)
| WrkNotFound
| WrkQuery (error : string).

Inductive worker_response : Type :=
| WorkerError_ (status : Z) (message : worker_message)
| SubmitJobResponse (job_id : string)
| GetJobStatusResponse (s : JobStatus).

Definition response_status (r : worker_response) : Z :=
  match r with WorkerError_ status _ => status | _ => 200%Z end.

Inductive ModuleMode : Type := Service | Worker.

Record ModuleConfig : Type := mkModuleConfig {
  mc_namespace : string;
  mc_name : string;
  mc_version : string;
  mc_mode : ModuleMode;
  mc_worker_max_attempts : Z;
  mc_worker_job_timeout_secs : Z;
}.

Section worker_http.
Context `{SL : SemverLib, HL : HttpLib}.
(** [Display for semver::Version], [SubmitJobRequest::decode], [GetJobStatusRequest::decode]. *)
Context (version_to_string : Version → string).
Context (submit_decode : string → result string SubmitJobRequest).
Context (status_decode : string → result string string).

(** [HashMap<ModuleId, WorkerPolicy>]: the latest insertion of a key stands first. *)
Definition WorkerDefaults : Type := list (ModuleId * WorkerPolicy).

Definition module_id_eqb (a b : ModuleId) : bool :=
  bool_decide (mi_route a = mi_route b)
  && match version_cmp (mi_version a) (mi_version b) with Eq => true | _ => false end.

(** [u32::try_from(..).unwrap_or(u32::MAX)]. *)
Definition clamp_u32 (v : Z) : Z := if (v <=? U32_MAX)%Z then v else U32_MAX.

Fixpoint from_modules_onto (policies : WorkerDefaults) (modules : list ModuleConfig) :
    result module_id_error WorkerDefaults :=
  match modules with
  | [] => Ok policies
  | m :: modules =>
      match mc_mode m with
      | Worker =>
          let? id := module_id_parse (mc_namespace m) (mc_name m) (mc_version m) in
          from_modules_onto
            ((id, mkPolicy (mc_worker_max_attempts m) (clamp_u32 (mc_worker_job_timeout_secs m)))
               :: policies) modules
      | Service => from_modules_onto policies modules
      end
  end.

Definition from_modules (modules : list ModuleConfig) : result module_id_error WorkerDefaults :=
  from_modules_onto [] modules.

Definition default_policy : WorkerPolicy := mkPolicy 3 300.

Fixpoint policy_for (policies : WorkerDefaults) (id : ModuleId) : WorkerPolicy :=
  match policies with
  | [] => default_policy
  | (id', p) :: policies => if module_id_eqb id id' then p else policy_for policies id
  end.

(** The policy of the module a submission names. *)
Definition submission_policy (defaults : WorkerDefaults) (request : SubmitJobRequest)
    (routed_version : option string) : WorkerPolicy :=
  let defaults_version :=
    if str_is_empty (sr_worker_version request) then default "" routed_version
    else sr_worker_version request in
  match module_id_parse (sr_worker_namespace request) (sr_worker_name request) defaults_version with
  | Ok id => policy_for defaults id
  | Err _ => default_policy
  end.

Definition handle_submit_job (now : Z) (new_id : string) (body : string)
    (routed_namespace routed_module routed_version : option string) (defaults : WorkerDefaults)
    (db : Db) : worker_response * Db :=
  match submit_decode body with
  | Err e => (WorkerError_ BAD_REQUEST (WrkDecode e), db)
  | Ok request =>
      match routed_namespace, routed_module with
      | Some namespace, Some module =>
          if negb (String.eqb (sr_worker_namespace request) namespace)
             || negb (String.eqb (sr_worker_name request) module)
          then (WorkerError_ BAD_REQUEST WrkIdentityMismatch, db)
          else if negb (str_is_empty (sr_worker_version request))
               && match routed_version with
                  | Some v => negb (String.eqb v (sr_worker_version request))
                  | None => false
                  end
          then (WorkerError_ BAD_REQUEST WrkVersionMismatch, db)
          else
            let policy := submission_policy defaults request routed_version in
            let max_attempts :=
              if (0 <? sr_max_attempts request)%Z then sr_max_attempts request
              else wp_max_attempts policy in
            let timeout_secs :=
              if (0 <? sr_timeout_secs request)%Z then sr_timeout_secs request
              else wp_timeout_secs policy in
            match insert_job now new_id (sr_worker_namespace request) (sr_worker_name request)
                    (sr_worker_version request) (sr_job_type request) (sr_payload request)
                    timeout_secs max_attempts "" "" db with
            | Ok (id, db) => (SubmitJobResponse id, db)
            | Err e => (WorkerError_ INTERNAL_SERVER_ERROR (WrkInsert e), db)
            end
      | _, _ => (WorkerError_ BAD_REQUEST WrkMissingIdentity, db)
      end
  end.

Definition handle_get_job_status (body : string) (db : Db) : worker_response :=
  match status_decode body with
  | Err e => WorkerError_ BAD_REQUEST (WrkDecode e)
  | Ok id =>
      match get_job_status id db with
      | Ok (Some s) => GetJobStatusResponse s
      | Ok None => WorkerError_ NOT_FOUND WrkNotFound
      | Err e => WorkerError_ INTERNAL_SERVER_ERROR (WrkQuery e)
      end
  end.

Definition handle_worker_grpc_bytes (now : Z) (new_id path body : string) (db_pool : bool)
    (routed_namespace routed_module routed_version : option string) (defaults : WorkerDefaults)
    (db : Db) : worker_response * Db :=
  match canonical_worker_path path with
  | None => (WorkerError_ NOT_FOUND WrkUnknownEndpoint, db)
  | Some path =>
      if negb db_pool then (WorkerError_ SERVICE_UNAVAILABLE WrkNoDatabase, db)
      else if String.eqb path SUBMIT_JOB_PATH then
        handle_submit_job now new_id body routed_namespace routed_module routed_version defaults db
      else (handle_get_job_status body db, db)
  end.

(** The identity the proxy routed the request with: the three headers, if they parse. *)
Definition routed_identity (headers : HeaderMap) : option ModuleId :=
  namespace ← header_text headers WR_NAMESPACE;
  module ← header_text headers WR_MODULE;
  version ← header_text headers WR_VERSION;
  ok (module_id_parse namespace module version).

(** [body] is [None] when reading it failed or exceeded the limit. *)
Definition handle_worker_http_request (now : Z) (new_id : string) (path : string)
    (headers : HeaderMap) (body : option string) (db_pool : bool) (defaults : WorkerDefaults)
    (db : Db) : worker_response * Db :=
  let routed := routed_identity headers in
  match body with
  | None => (WorkerError_ PAYLOAD_TOO_LARGE WrkBodyLimit, db)
  | Some body =>
      handle_worker_grpc_bytes now new_id path body db_pool
        (name_str ∘ rk_namespace ∘ mi_route <$> routed)
        (name_str ∘ rk_module ∘ mi_route <$> routed)
        (version_to_string ∘ mi_version <$> routed) defaults db
  end.

(** ** Submissions follow their route *)

Lemma insert_job_id now new_id ns name version ty body timeout max src_ns src_mod db id db' :
  insert_job now new_id ns name version ty body timeout max src_ns src_mod db = Ok (id, db') →
  id = new_id.
Proof.
  intros E. pose proof (insert_job_admitted now new_id ns name version ty body timeout max src_ns
    src_mod db) as H. cbv zeta in H. rewrite E in H. by destruct H as (_ & _ & H).
Qed.

Lemma handle_submit_job_spec now new_id body namespace module version defaults db response db' :
  handle_submit_job now new_id body (Some namespace) (Some module) (Some version) defaults db
  = (response, db') →
  (db' = db ∧ ∀ id, response ≠ SubmitJobResponse id)
  ∨ (response = SubmitJobResponse new_id ∧ ∃ request,
      submit_decode body = Ok request
      ∧ sr_worker_namespace request = namespace ∧ sr_worker_name request = module
      ∧ (sr_worker_version request = "" ∨ sr_worker_version request = version)
      ∧ insert_job now new_id (sr_worker_namespace request) (sr_worker_name request)
          (sr_worker_version request) (sr_job_type request) (sr_payload request)
          (if (0 <? sr_timeout_secs request)%Z then sr_timeout_secs request
           else wp_timeout_secs (submission_policy defaults request (Some version)))
          (if (0 <? sr_max_attempts request)%Z then sr_max_attempts request
           else wp_max_attempts (submission_policy defaults request (Some version)))
          "" "" db = Ok (new_id, db')).
Proof.
  unfold handle_submit_job. intros E.
  destruct (submit_decode body) as [request|e]; [|left; by injection E as <- <-].
  destruct (negb _ || negb _) eqn:Hid; [left; by injection E as <- <-|].
  destruct (negb _ && negb _) eqn:Hv; [left; by injection E as <- <-|].
  cbv zeta in E. destruct (insert_job _ _ _ _ _ _ _ _ _ _ _ _) as [[id d]|e] eqn:Hins;
    [|left; by injection E as <- <-].
  right. injection E as <- <-. pose proof (insert_job_id _ _ _ _ _ _ _ _ _ _ _ _ _ _ Hins) as ->.
  split; [done|]. exists request. bool_to_prop.
  rewrite negb_false_iff, String.eqb_eq in *. split_and!; try done.
  destruct Hv as [Hv|Hv]; bool_to_prop.
  - left. by destruct (sr_worker_version request).
  - right. by apply String.eqb_eq in Hv.
Qed.

(** A job enters the queue only through the route of its worker. A request changes the
    table only when it is answered with the identifier of a submission; the submitted row
    names exactly the namespace and module of the routed identity headers and no version or
    the routed one, and its limits are the request's, or the policy of that module where
    the request leaves them zero. *)
Theorem submissions_follow_their_route now new_id path headers body db_pool defaults db
    response db' :
  handle_worker_http_request now new_id path headers body db_pool defaults db = (response, db') →
  (db' = db ∧ ∀ id, response ≠ SubmitJobResponse id)
  ∨ (response = SubmitJobResponse new_id ∧ path = SUBMIT_JOB_PATH ∧ db_pool = true ∧
     ∃ routed bytes request max_attempts timeout,
       routed_identity headers = Some routed ∧ body = Some bytes
       ∧ submit_decode bytes = Ok request
       ∧ sr_worker_namespace request = name_str (rk_namespace (mi_route routed))
       ∧ sr_worker_name request = name_str (rk_module (mi_route routed))
       ∧ (sr_worker_version request = "" ∨
          sr_worker_version request = version_to_string (mi_version routed))
       ∧ max_attempts = (if (0 <? sr_max_attempts request)%Z then sr_max_attempts request else
           wp_max_attempts (submission_policy defaults request
             (Some (version_to_string (mi_version routed)))))
       ∧ timeout = (if (0 <? sr_timeout_secs request)%Z then sr_timeout_secs request else
           wp_timeout_secs (submission_policy defaults request
             (Some (version_to_string (mi_version routed)))))
       ∧ insert_job now new_id (sr_worker_namespace request) (sr_worker_name request)
           (sr_worker_version request) (sr_job_type request) (sr_payload request)
           timeout max_attempts "" "" db = Ok (new_id, db')).
Proof.
  unfold handle_worker_http_request, handle_worker_grpc_bytes. intros E.
  destruct body as [bytes|]; [|left; by injection E as <- <-].
  unfold canonical_worker_path in E.
  destruct (String.eqb_spec path SUBMIT_JOB_PATH) as [->|Hne].
  2: { destruct (String.eqb path GET_JOB_STATUS_PATH); [|left; by injection E as <- <-].
       destruct (negb db_pool); [left; by injection E as <- <-|]. left. injection E as <- <-.
       split; [done|]. intros id. unfold handle_get_job_status. by repeat case_match. }
  destruct db_pool; [|left; by injection E as <- <-]. cbn [negb] in E. rewrite String.eqb_refl in E.
  destruct (routed_identity headers) as [routed|].
  - apply handle_submit_job_spec in E as [?|(-> & request & ? & ? & ? & ? & ?)]; [by left|].
    right. split_and!; [done..|]. eexists routed, bytes, request, _, _. done.
  - left. cbn in E. unfold handle_submit_job in E.
    destruct (submit_decode bytes); by injection E as <- <-.
Qed.

(** A configured job timeout that does not fit the column makes every submission that
    relies on it fail. *)
Lemma oversized_default_timeout_refused now new_id request namespace module version defaults db
    body :
  submit_decode body = Ok request →
  sr_worker_namespace request = namespace → sr_worker_name request = module →
  sr_worker_version request = "" → sr_timeout_secs request = 0%Z →
  (I32_MAX < wp_timeout_secs (submission_policy defaults request (Some version)))%Z →
  response_status (handle_submit_job now new_id body (Some namespace) (Some module) (Some version)
    defaults db).1 = INTERNAL_SERVER_ERROR.
Proof.
  intros Hd <- <- Hv Ht Hbig. unfold handle_submit_job. rewrite Hd, !String.eqb_refl, Hv, Ht. cbn.
  destruct (insert_job _ _ _ _ _ _ _ _ _ _ _ _) as [[id d]|e] eqn:E; [|done].
  pose proof (insert_job_admitted now new_id (sr_worker_namespace request) (sr_worker_name request)
    "" (sr_job_type request) (sr_payload request)
    (wp_timeout_secs (submission_policy defaults request (Some version)))
    (if (0 <? sr_max_attempts request)%Z then sr_max_attempts request
     else wp_max_attempts (submission_policy defaults request (Some version))) "" "" db) as H.
  cbv zeta in H. rewrite E in H. destruct H as [H _]. unfold admitted in H.
  rewrite !andb_true_iff, !Z.leb_le in H. destruct H as [[_ H] _]. cbn in H.
  destruct (Z.eqb_spec (wp_timeout_secs (submission_policy defaults request (Some version))) 0); lia.
Qed.

End worker_http.

Section demo.
#[local] Existing Instances toy_semver toy_http.

Definition demo_header (headers : HeaderMap) (name value : string) : HeaderMap :=
  match header_from_str value with Some v => hm_insert headers name v | None => headers end.

Definition demo_headers : HeaderMap :=
  demo_header (demo_header (demo_header hm_new WR_NAMESPACE "shop") WR_MODULE "mailer")
    WR_VERSION "1.0.0".

Definition demo_decode (body : string) : result string SubmitJobRequest :=
  Ok (mkSubmit "shop" "mailer" "" "/send" body 0 5).

Definition demo_submission : worker_response * Db :=
  handle_worker_http_request (λ _, "1.0.0") demo_decode (λ s, Ok s) (from_secs 1) demo_id
    SUBMIT_JOB_PATH demo_headers (Some "hi") true [] (mkDb ∅ []).

Lemma demo_submission_accepted : demo_submission.1 = SubmitJobResponse demo_id.
Proof. vm_compute. reflexivity. Qed.

Lemma submissions_follow_their_route_witness :
  is_ok (insert_job (from_secs 1) demo_id "shop" "mailer" "" "/send" "hi" 300 5 "" "" (mkDb ∅ []))
  = true.
Proof.
  destruct (submissions_follow_their_route (λ _, "1.0.0") demo_decode (λ s, Ok s) (from_secs 1)
    demo_id SUBMIT_JOB_PATH demo_headers (Some "hi") true [] (mkDb ∅ []) demo_submission.1
    demo_submission.2 (surjective_pairing _)) as [[_ H]|(_ & _ & _ & routed & bytes & request & m & t & H)].
  - destruct (H demo_id demo_submission_accepted).
  - destruct H as (_ & Hb & Hd & _ & _ & _ & Hm & Ht & Hi).
    injection Hb as <-. injection Hd as <-. cbn [sr_max_attempts sr_timeout_secs] in Hm, Ht.
    vm_compute in Hm. subst m.
    assert (t = 300%Z) as -> by (rewrite Ht; destruct routed; vm_compute; reflexivity).
    cbn [sr_worker_namespace sr_worker_name sr_worker_version sr_job_type sr_payload] in Hi.
    rewrite Hi. reflexivity.
Defined.

End demo.
