(* ===== verification/PolicyTypes.v ===== *)
(** * Types of the authorization policy (wr-common/src/authorization_policy.rs)

    What a validated policy is made of, shared by its validator ([Policy]) and the
    workload snapshots projected from it ([Snapshot]). *)

From S2P Require Import Prelude RustStr Lists Orders Identity.

Definition MAX_POLICY_BYTES : Z := 4 * 1024 * 1024.
Definition MAX_PRINCIPALS : Z := 4096.
Definition MAX_ASSIGNMENTS : Z := 16384.
Definition MAX_ASSIGNMENTS_PER_PRINCIPAL : Z := 16.
Definition MAX_SCOPE_VALUES : Z := 65536.
Definition MAX_SCOPE_VALUES_PER_ASSIGNMENT : Z := 1024.
Definition MAX_MANAGERS : Z := 128.
Definition MAX_PROXIES : Z := 4096.
Definition MAX_NODE_AGENTS : Z := 4096.
Definition MAX_REVOKED_FINGERPRINTS : Z := 16384.
Definition MAX_WORKLOAD_PROJECTION_BYTES : Z := 2 * 1024 * 1024.

(** In the order [derive(Ord)] gives them. *)
Inductive PolicyRole : Type :=
| RAdmin | RView | RInfra | RJobView | RJobAdmin | RStatus | RRoute | RSecret | RSchedule | RDeploy.

#[global] Instance PolicyRole_eq_dec : EqDecision PolicyRole.
Proof. solve_decision. Defined.

Definition role_as_str (r : PolicyRole) : string :=
  match r with
  | RAdmin => "admin"
  | RView => "view"
  | RInfra => "infra"
  | RJobView => "job-view"
  | RJobAdmin => "job-admin"
  | RStatus => "status"
  | RRoute => "route"
  | RSecret => "secret"
  | RSchedule => "schedule"
  | RDeploy => "deploy"
  end.

Definition role_from_str (value : string) : option PolicyRole :=
  if String.eqb value "admin" then Some RAdmin
  else if String.eqb value "view" then Some RView
  else if String.eqb value "infra" then Some RInfra
  else if String.eqb value "job-view" then Some RJobView
  else if String.eqb value "job-admin" then Some RJobAdmin
  else if String.eqb value "status" then Some RStatus
  else if String.eqb value "route" then Some RRoute
  else if String.eqb value "secret" then Some RSecret
  else if String.eqb value "schedule" then Some RSchedule
  else if String.eqb value "deploy" then Some RDeploy
  else None.

Lemma role_from_as_str r : role_from_str (role_as_str r) = Some r.
Proof. by destruct r. Qed.

Lemma role_from_str_Some s r : role_from_str s = Some r → s = role_as_str r.
Proof.
  unfold role_from_str. intros H.
  repeat match type of H with
  | (if String.eqb s ?x then _ else _) = _ =>
      destruct (String.eqb_spec s x) as [->|]; [injection H as <-; done|]
  end. done.
Qed.

(** [BTreeSet<String>]s; an absent set leaves the dimension unrestricted. *)
Record AssignmentScope : Type := mkScope {
  sc_namespace_ids : option (gset string);
  sc_node_ids : option (gset string);
  sc_job_queue_ids : option (gset string);
  sc_manager_ids : option (gset string);
}.

Record RoleAssignment : Type := mkAssignment {
  ra_principal : string;
  ra_role : PolicyRole;
  ra_scope : AssignmentScope;
}.

#[global] Instance AssignmentScope_eq_dec : EqDecision AssignmentScope.
Proof. solve_decision. Defined.
#[global] Instance RoleAssignment_eq_dec : EqDecision RoleAssignment.
Proof. solve_decision. Defined.

Record ManagerEnrollment : Type := mkManagerEnrollment {
  me_principal : string;
  me_manager_id : string;
  me_endpoint : string;
}.

Record NodeEnrollment : Type := mkNodeEnrollment { ne_principal : string; ne_node_id : string }.

Record CapHeadroom : Type := mkHeadroom {
  ch_raw_bytes : Z;
  ch_canonical_bytes : Z;
  ch_principals : Z;
  ch_assignments : Z;
  ch_scope_values : Z;
  ch_managers : Z;
  ch_proxies : Z;
  ch_node_agents : Z;
  ch_revoked_fingerprints : Z;
}.

Record ValidatedPolicy : Type := mkPolicyV {
  vp_schema_version : Z;
  vp_generation : Z;
  vp_cluster_id : string;
  vp_digest : string;
  vp_principals : gmap string PrincipalKind;
  vp_assignments : list RoleAssignment;
  vp_manager_enrollments : list ManagerEnrollment;
  vp_proxy_enrollments : list NodeEnrollment;
  vp_node_agent_enrollments : list NodeEnrollment;
  vp_revoked_leaf_fingerprints : gset string;
  vp_manager_set_hash : string;
  vp_cap_headroom : CapHeadroom;
}.

Record RolloutTarget : Type := mkTarget { rt_manager_id : string; rt_endpoint : string }.

#[global] Instance RolloutTarget_eq_dec : EqDecision RolloutTarget.
Proof. solve_decision. Defined.

(** ** Orders *)

(** A [BTreeSet<String>] iterates in the order of its elements. *)
Definition btree_elements (s : gset string) : list string := sort_by str_cmp (elements s).

(** A [BTreeMap<String, _>] iterates in the order of its keys. *)
Definition btree_entries {A} (m : gmap string A) : list (string * A) :=
  sort_by (λ a b, str_cmp a.1 b.1) (map_to_list m).
