(* ===== verification/Snapshot.v ===== *)
(** * Workload snapshots (wr-common/src/snapshot_consumer.rs)

    A manager projects its authorization policy into a snapshot of the enrolled
    workloads, valid for thirty seconds; proxies and engines decode it and keep it in a
    fail-closed state. [prost] encodes the message: an interface with its round trip.
    Wall-clock times are nanoseconds since the Unix epoch, instants nanoseconds on the
    monotonic clock. *)

From S2P Require Import Prelude RustStr Utf8 Lists Orders Externals Models Identity PolicyTypes.

(** ** Digests and timestamps *)

Definition SNAPSHOT_VALIDITY : Z := from_secs 30.
Definition MAX_FUTURE_SKEW : Z := from_secs 5.

Definition SNAPSHOT_DOMAIN : string := "wruntime-workload-snapshot-v1".

Definition valid_digest (value : string) : bool :=
  (str_len value =? 71)%Z && starts_with "sha256:" value
  && str_all (λ b, is_ascii_hexdigit b && negb (is_ascii_uppercase b)) (str_drop 7 value).

Record Timestamp : Type := mkTimestamp { ts_seconds : Z; ts_nanos : Z }.

Definition I64_MAX : Z := 9223372036854775807.

Inductive SnapshotError : Type :=
| SnapTooLarge
| SnapMalformed
| SnapNonCanonical
| SnapVersion
| SnapWrongTarget
| SnapCluster (e : name_error)
| SnapDigest
| SnapCardinality
| SnapCap
| SnapPrincipal (e : principal_error)
| SnapPrincipalMismatch
| SnapWorkload (e : name_error)
| SnapUnsorted
| SnapRevocation
| SnapDigestMismatch
| SnapTimestampMissing
| SnapTimestampMalformed
| SnapValidity
| SnapClock
| SnapFreshness
| SnapFieldTooLong
| SnapKind
| SnapTimeRange.

(** [value.duration_since(UNIX_EPOCH)]. *)
Definition system_duration (value : Z) : result SnapshotError Z :=
  ensure? (0 <=? value)%Z else SnapClock in Ok value.

Definition timestamp (value : Z) : result SnapshotError Timestamp :=
  let? d := system_duration value in
  ensure? (d / 1000000000 <=? I64_MAX)%Z else SnapTimeRange in
  Ok (mkTimestamp (d / 1000000000) (d mod 1000000000)).

Definition timestamp_duration (value : Timestamp) : result SnapshotError Z :=
  ensure? (0 <=? ts_nanos value)%Z && (ts_nanos value <? 1000000000)%Z && (0 <=? ts_seconds value)%Z
    else SnapTimestampMalformed in
  Ok (ts_seconds value * 1000000000 + ts_nanos value)%Z.

(** ** The message *)

Inductive WorkloadProjectionKind : Type := Unspecified | ProxyPeerV1 | EngineJobAdminV1.

#[global] Instance WorkloadProjectionKind_eq_dec : EqDecision WorkloadProjectionKind.
Proof. solve_decision. Defined.

Definition kind_number (k : WorkloadProjectionKind) : Z :=
  match k with Unspecified => 0 | ProxyPeerV1 => 1 | EngineJobAdminV1 => 2 end.

Record WorkloadEnrollmentV1 : Type := mkEnrollment { we_principal_uri : string; we_workload_id : string }.

Record WorkloadSnapshotV1 : Type := mkSnapshot {
  ws_schema_version : Z;
  ws_projection_kind : Z;
  ws_cluster_id : string;
  ws_policy_generation : Z;
  ws_policy_digest : string;
  ws_projection_digest : string;
  ws_issued_at : option Timestamp;
  ws_valid_until : option Timestamp;
  ws_enrollment_count : Z;
  ws_revoked_fingerprint_count : Z;
  ws_enrollments : list WorkloadEnrollmentV1;
  ws_revoked_leaf_fingerprints : list string;
}.

#[global] Instance Timestamp_eq_dec : EqDecision Timestamp.
Proof. solve_decision. Defined.
#[global] Instance WorkloadEnrollmentV1_eq_dec : EqDecision WorkloadEnrollmentV1.
Proof. solve_decision. Defined.
#[global] Instance WorkloadSnapshotV1_eq_dec : EqDecision WorkloadSnapshotV1.
Proof. solve_decision. Defined.

(** Texts of the message: protobuf strings are UTF-8. *)
Definition snapshot_texts (s : WorkloadSnapshotV1) : list string :=
  [ws_cluster_id s; ws_policy_digest s; ws_projection_digest s]
  ++ (we_principal_uri <$> ws_enrollments s) ++ (we_workload_id <$> ws_enrollments s)
  ++ ws_revoked_leaf_fingerprints s.

(** Numbers of the message within the width of their fields. *)
Definition snapshot_ranges (s : WorkloadSnapshotV1) : bool :=
  (0 <=? ws_schema_version s)%Z && (ws_schema_version s <=? U32_MAX)%Z
  && (0 <=? ws_projection_kind s)%Z && (ws_projection_kind s <=? I32_MAX)%Z
  && (0 <=? ws_policy_generation s)%Z && (ws_policy_generation s <=? U64_MAX)%Z
  && (0 <=? ws_enrollment_count s)%Z && (ws_enrollment_count s <=? U32_MAX)%Z
  && (0 <=? ws_revoked_fingerprint_count s)%Z && (ws_revoked_fingerprint_count s <=? U32_MAX)%Z.

(** [prost::Message] for the snapshot: decoding what was encoded. *)
Class SnapshotCodec : Type := {
  snapshot_encode : WorkloadSnapshotV1 → string;
  snapshot_decode : string → option WorkloadSnapshotV1;
  snapshot_decode_encode s :
    forallb utf8_valid (snapshot_texts s) = true → snapshot_ranges s = true →
    snapshot_decode (snapshot_encode s) = Some s;
}.

(** An instance of the codec: the fields as texts, the lists as texts of texts. *)
Fixpoint pairs_of (l : list string) : option (list WorkloadEnrollmentV1) :=
  match l with
  | [] => Some []
  | [_] => None
  | p :: w :: l => cons (mkEnrollment p w) <$> pairs_of l
  end.

Definition ts_pair (t : Timestamp) : Z * Z := (ts_seconds t, ts_nanos t).
Definition pair_ts (t : Z * Z) : Timestamp := mkTimestamp t.1 t.2.

Definition toy_snapshot_encode (s : WorkloadSnapshotV1) : string :=
  texts_encode
    [coded (ws_schema_version s); coded (ws_projection_kind s); ws_cluster_id s;
     coded (ws_policy_generation s); ws_policy_digest s; ws_projection_digest s;
     coded (ts_pair <$> ws_issued_at s); coded (ts_pair <$> ws_valid_until s);
     coded (ws_enrollment_count s); coded (ws_revoked_fingerprint_count s);
     texts_encode (e ← ws_enrollments s; [we_principal_uri e; we_workload_id e]);
     texts_encode (ws_revoked_leaf_fingerprints s)].

Definition toy_snapshot_decode (s : string) : option WorkloadSnapshotV1 :=
  l ← texts_decode s;
  match l with
  | [schema; kind; cluster; generation; pdig; jdig; issued; until; ec; rc; es; rs] =>
      schema ← decoded schema; kind ← decoded kind; generation ← decoded generation;
      issued ← decoded issued; until ← decoded until; ec ← decoded ec; rc ← decoded rc;
      es ← texts_decode es ≫= pairs_of; rs ← texts_decode rs;
      Some (mkSnapshot schema kind cluster generation pdig jdig (pair_ts <$> issued)
              (pair_ts <$> until) ec rc es rs)
  | _ => None
  end.

Lemma pairs_of_flat l : pairs_of (e ← l; [we_principal_uri e; we_workload_id e]) = Some l.
Proof. induction l as [|[p w] l IH]; [done|]. cbn in *. by rewrite IH. Qed.

Lemma pair_ts_pair (o : option Timestamp) : pair_ts <$> (ts_pair <$> o) = o.
Proof. by destruct o as [[]|]. Qed.

Lemma toy_snapshot_roundtrip s :
  forallb utf8_valid (snapshot_texts s) = true → snapshot_ranges s = true →
  toy_snapshot_decode (toy_snapshot_encode s) = Some s.
Proof.
  intros _ _. unfold toy_snapshot_decode, toy_snapshot_encode. rewrite texts_decode_encode.
  cbn [mbind option_bind]. rewrite !decoded_coded. cbn [mbind option_bind].
  rewrite !texts_decode_encode. cbn [mbind option_bind]. rewrite pairs_of_flat.
  cbn [mbind option_bind]. rewrite !pair_ts_pair. by destruct s.
Qed.

Definition toy_codec : SnapshotCodec :=
  {| snapshot_encode := toy_snapshot_encode; snapshot_decode := toy_snapshot_decode;
     snapshot_decode_encode := toy_snapshot_roundtrip |}.

(** ** Producing *)

Definition enrollment_cmp (a b : WorkloadEnrollmentV1) : comparison :=
  then_cmp (str_cmp (we_principal_uri a) (we_principal_uri b))
           (str_cmp (we_workload_id a) (we_workload_id b)).

Section snapshots.
Context `{SH : Sha256Lib, SC : SnapshotCodec}.

(** [push_u32] and [push_str] fail beyond [u32::MAX]. *)
Definition push_u32 (value : Z) : result SnapshotError string :=
  ensure? (value <=? U32_MAX)%Z else SnapFieldTooLong in Ok (be_bytes 4 value).

Definition push_str (value : string) : result SnapshotError string :=
  let? len := push_u32 (str_len value) in Ok (len +:+ value).

Fixpoint push_strs (values : list string) : result SnapshotError string :=
  match values with
  | [] => Ok ""
  | v :: values =>
      let? a := push_str v in
      let? b := push_strs values in
      Ok (a +:+ b)
  end.

Definition projection_digest (s : WorkloadSnapshotV1) : result SnapshotError string :=
  let? cluster := push_str (ws_cluster_id s) in
  let? digest := push_str (ws_policy_digest s) in
  let? n := push_u32 (Z.of_nat (length (ws_enrollments s))) in
  let? items := push_strs (e ← ws_enrollments s; [we_principal_uri e; we_workload_id e]) in
  let? m := push_u32 (Z.of_nat (length (ws_revoked_leaf_fingerprints s))) in
  let? revoked := push_strs (ws_revoked_leaf_fingerprints s) in
  Ok ("sha256:" +:+ sha256_hex
        (SNAPSHOT_DOMAIN +:+ be_bytes 4 (ws_schema_version s) +:+ be_bytes 4 (ws_projection_kind s)
         +:+ cluster +:+ be_bytes 8 (ws_policy_generation s) +:+ digest +:+ n +:+ items
         +:+ m +:+ revoked)).

Definition set_projection_digest (s : WorkloadSnapshotV1) (d : string) : WorkloadSnapshotV1 :=
  mkSnapshot (ws_schema_version s) (ws_projection_kind s) (ws_cluster_id s) (ws_policy_generation s)
    (ws_policy_digest s) d (ws_issued_at s) (ws_valid_until s) (ws_enrollment_count s)
    (ws_revoked_fingerprint_count s) (ws_enrollments s) (ws_revoked_leaf_fingerprints s).

(** [len as u32]. *)
Definition as_u32 (n : nat) : Z := (Z.of_nat n mod 4294967296)%Z.

Definition projected_enrollments (p : ValidatedPolicy) (kind : WorkloadProjectionKind) :
    list WorkloadEnrollmentV1 :=
  match kind with
  | ProxyPeerV1 =>
      (λ e, mkEnrollment (ne_principal e) (ne_node_id e)) <$> vp_proxy_enrollments p
  | EngineJobAdminV1 =>
      (λ e, mkEnrollment (me_principal e) (me_manager_id e)) <$> vp_manager_enrollments p
  | Unspecified => []
  end.

Definition build_snapshot (p : ValidatedPolicy) (kind : WorkloadProjectionKind) (now : Z) :
    result SnapshotError string :=
  ensure? negb (bool_decide (kind = Unspecified)) else SnapKind in
  let enrollments := sort_by enrollment_cmp (projected_enrollments p kind) in
  let revoked := btree_elements (vp_revoked_leaf_fingerprints p) in
  let? issued := timestamp now in
  let? until := timestamp (now + SNAPSHOT_VALIDITY) in
  let snapshot :=
    mkSnapshot 1 (kind_number kind) (vp_cluster_id p) (vp_generation p) (vp_digest p) ""
      (Some issued) (Some until) (as_u32 (length enrollments)) (as_u32 (length revoked))
      enrollments revoked in
  let? digest := projection_digest snapshot in
  let bytes := snapshot_encode (set_projection_digest snapshot digest) in
  ensure? (str_len bytes <=? MAX_WORKLOAD_PROJECTION_BYTES)%Z else SnapTooLarge in
  Ok bytes.

(** ** Decoding *)

Record IndexedSnapshot : Type := mkIndexed {
  is_wire : WorkloadSnapshotV1;
  is_enrollments : gmap string string;
  is_revocations : gset string;
}.

Record SnapshotIdentity : Type := mkIdentity {
  si_generation : Z;
  si_policy_digest : string;
  si_projection_digest : string;
}.

#[global] Instance SnapshotIdentity_eq_dec : EqDecision SnapshotIdentity.
Proof. solve_decision. Defined.

Definition snapshot_identity (s : IndexedSnapshot) : SnapshotIdentity :=
  mkIdentity (ws_policy_generation (is_wire s)) (ws_policy_digest (is_wire s))
    (ws_projection_digest (is_wire s)).

Definition admits (s : IndexedSnapshot) (principal fingerprint : string) : bool :=
  bool_decide (is_Some (is_enrollments s !! principal))
  && negb (bool_decide (fingerprint ∈ is_revocations s)).

Definition lift_snap {E A} (f : E → SnapshotError) (r : result E A) : result SnapshotError A :=
  match r with Ok a => Ok a | Err e => Err (f e) end.

(** [NodeId::parse] or [ManagerId::parse] of the workload. *)
Definition check_workload (kind : WorkloadProjectionKind) (id : string) :
    result SnapshotError () :=
  match kind with
  | ProxyPeerV1 => let? _ := lift_snap SnapWorkload (name_parse TNodeId id) in Ok ()
  | EngineJobAdminV1 => let? _ := lift_snap SnapWorkload (name_parse TManagerId id) in Ok ()
  | Unspecified => Ok ()
  end.

(** The loop over the enrollments: the previous key and the index so far. *)
Fixpoint index_enrollments (kind : WorkloadProjectionKind) (expected : PrincipalKind)
    (cluster : string) (previous : option WorkloadEnrollmentV1) (index : gmap string string)
    (items : list WorkloadEnrollmentV1) : result SnapshotError (gmap string string) :=
  match items with
  | [] => Ok index
  | item :: items =>
      let? principal := lift_snap SnapPrincipal (principal_uri_parse (we_principal_uri item)) in
      ensure? String.eqb (name_str (pu_cluster_id principal)) cluster
              && bool_decide (pu_kind principal = expected) else SnapPrincipalMismatch in
      let? _ := check_workload kind (we_workload_id item) in
      ensure? match previous with
              | None => true
              | Some p => match enrollment_cmp p item with Lt => true | _ => false end
              end else SnapUnsorted in
      index_enrollments kind expected cluster (Some item)
        (<[we_principal_uri item := we_workload_id item]> index) items
  end.

(** The loop over the revocations. [insert] reports whether the value was new. *)
Fixpoint index_revocations (prior : string) (index : gset string) (values : list string) :
    result SnapshotError (gset string) :=
  match values with
  | [] => Ok index
  | v :: values =>
      ensure? valid_digest v && match str_cmp prior v with Lt => true | _ => false end
              && bool_decide (v ∉ index) else SnapRevocation in
      index_revocations v ({[v]} ∪ index) values
  end.

Definition kind_cap (kind : WorkloadProjectionKind) : Z :=
  match kind with
  | ProxyPeerV1 => MAX_PROXIES
  | EngineJobAdminV1 => MAX_MANAGERS
  | Unspecified => 0
  end.

(** [unreachable!()] on the unspecified kind: a panic. *)
Definition kind_identity (kind : WorkloadProjectionKind) : option PrincipalKind :=
  match kind with
  | ProxyPeerV1 => Some ProxyKind
  | EngineJobAdminV1 => Some ManagerKind
  | Unspecified => None
  end.

Definition require {A} (o : option A) : result SnapshotError A :=
  match o with Some a => Ok a | None => Err SnapTimestampMissing end.

(** The freshness envelope at the wall-clock time of receipt. *)
Definition check_envelope (s : WorkloadSnapshotV1) (receipt_wall : Z) : result SnapshotError () :=
  let? issued := require (ws_issued_at s) in
  let? issued := timestamp_duration issued in
  let? until := require (ws_valid_until s) in
  let? until := timestamp_duration until in
  ensure? (issued <=? until)%Z && (until - issued =? SNAPSHOT_VALIDITY)%Z else SnapValidity in
  let? receipt := system_duration receipt_wall in
  ensure? (issued <=? receipt + MAX_FUTURE_SKEW)%Z && (receipt <? until)%Z else SnapFreshness in
  Ok ().

(** The checks up to the caps. *)
Definition decode_header (raw expected_cluster : string) (expected_kind : WorkloadProjectionKind) :
    result SnapshotError WorkloadSnapshotV1 :=
  ensure? (str_len raw <=? MAX_WORKLOAD_PROJECTION_BYTES)%Z else SnapTooLarge in
  match snapshot_decode raw with
  | None => Err SnapMalformed
  | Some s =>
      ensure? String.eqb (snapshot_encode s) raw else SnapNonCanonical in
      ensure? (ws_schema_version s =? 1)%Z && (0 <? ws_policy_generation s)%Z else SnapVersion in
      ensure? (ws_projection_kind s =? kind_number expected_kind)%Z
              && String.eqb (ws_cluster_id s) expected_cluster else SnapWrongTarget in
      let? _ := lift_snap SnapCluster (name_parse TClusterId (ws_cluster_id s)) in
      ensure? valid_digest (ws_policy_digest s) && valid_digest (ws_projection_digest s)
        else SnapDigest in
      ensure? (ws_enrollment_count s =? Z.of_nat (length (ws_enrollments s)))%Z
              && (ws_revoked_fingerprint_count s
                  =? Z.of_nat (length (ws_revoked_leaf_fingerprints s)))%Z
        else SnapCardinality in
      ensure? (Z.of_nat (length (ws_enrollments s)) <=? kind_cap expected_kind)%Z
              && (Z.of_nat (length (ws_revoked_leaf_fingerprints s))
                  <=? MAX_REVOKED_FINGERPRINTS)%Z
        else SnapCap in
      Ok s
  end.

(** The two loops, the digest and the envelope. *)
Definition decode_body (s : WorkloadSnapshotV1) (expected_cluster : string)
    (expected_kind : WorkloadProjectionKind) (expected : PrincipalKind) (receipt_wall : Z) :
    result SnapshotError IndexedSnapshot :=
  let? enrollments := index_enrollments expected_kind expected expected_cluster None ∅
                        (ws_enrollments s) in
  let? revocations := index_revocations "" ∅ (ws_revoked_leaf_fingerprints s) in
  let? digest := projection_digest s in
  ensure? String.eqb digest (ws_projection_digest s) else SnapDigestMismatch in
  let? _ := check_envelope s receipt_wall in
  Ok (mkIndexed s enrollments revocations).

(** [None] where [unreachable!()] panics. *)
Definition decode_snapshot (raw expected_cluster : string) (expected_kind : WorkloadProjectionKind)
    (receipt_wall : Z) : option (result SnapshotError IndexedSnapshot) :=
  match decode_header raw expected_cluster expected_kind with
  | Err e => Some (Err e)
  | Ok s =>
      expected ← kind_identity expected_kind;
      Some (decode_body s expected_cluster expected_kind expected receipt_wall)
  end.

(** ** The fail-closed consumer *)

Inductive RecoveryPredicate : Type :=
| AnyCompleteValid
| MatchingRetainedOrHigher
| StrictlyHigherGeneration.

#[global] Instance RecoveryPredicate_eq_dec : EqDecision RecoveryPredicate.
Proof. solve_decision. Defined.

Inductive block_reason : Type :=
| ReasonFetch (error : string)
| ReasonFence
| ReasonDecode (e : SnapshotError)
| ReasonRegressed
| ReasonConflict.

Inductive SnapshotConsumerState : Type :=
| Empty
| Fresh (snapshot : IndexedSnapshot) (accepted_at fresh_until : Z)
| StaleSnapshot (retained : IndexedSnapshot)
| Blocked (retained : option IndexedSnapshot) (reason : block_reason) (recovery : RecoveryPredicate).

Definition is_fresh (state : SnapshotConsumerState) (now : Z) : bool :=
  match state with Fresh _ _ fresh_until => (now <? fresh_until)%Z | _ => false end.

Definition expire (state : SnapshotConsumerState) (now : Z) : SnapshotConsumerState :=
  match state with
  | Fresh snapshot _ fresh_until =>
      if (fresh_until <=? now)%Z then StaleSnapshot snapshot else state
  | _ => state
  end.

Definition retained (state : SnapshotConsumerState) : option IndexedSnapshot :=
  match state with
  | Fresh snapshot _ _ => Some snapshot
  | StaleSnapshot snapshot => Some snapshot
  | Blocked (Some snapshot) _ _ => Some snapshot
  | _ => None
  end.

Definition recovery_of (state : SnapshotConsumerState) : option RecoveryPredicate :=
  match state with Blocked _ _ recovery => Some recovery | _ => None end.

(** [raw.and_then(..)]: the fence, then the decoder. *)
Definition decode_raw (raw : result string string) (expected_cluster : string)
    (expected_kind : WorkloadProjectionKind) (wall : Z) (fence_matches : bool) :
    option (result block_reason IndexedSnapshot) :=
  match raw with
  | Err e => Some (Err (ReasonFetch e))
  | Ok bytes =>
      if negb fence_matches then Some (Err ReasonFence)
      else
        decoded ← decode_snapshot bytes expected_cluster expected_kind wall;
        Some (match decoded with Ok s => Ok s | Err e => Err (ReasonDecode e) end)
  end.

(** [timestamp_duration(..)] of the candidate's end of validity. *)
Definition wire_valid_until (s : IndexedSnapshot) : option Z :=
  t ← ws_valid_until (is_wire s); ok (timestamp_duration t).

(** The new fresh state; [None] where an [expect] or the addition would panic. *)
Definition accept (candidate : IndexedSnapshot) (wall now : Z) : option SnapshotConsumerState :=
  valid_until ← wire_valid_until candidate;
  receipt ← ok (system_duration wall);
  let budget := Z.min SNAPSHOT_VALIDITY (Z.max 0 (valid_until - receipt)) in
  fresh_until ← instant_add now budget;
  Some (Fresh candidate now fresh_until).

Definition consume (state : SnapshotConsumerState) (raw : result string string)
    (expected_cluster : string) (expected_kind : WorkloadProjectionKind) (wall now : Z)
    (fence_matches : bool) : option SnapshotConsumerState :=
  let state := expire state now in
  let old := retained state in
  let recovery := recovery_of state in
  decoded ← decode_raw raw expected_cluster expected_kind wall fence_matches;
  match decoded with
  | Err reason =>
      Some (Blocked old reason
        (default (match old with Some _ => MatchingRetainedOrHigher | None => AnyCompleteValid end)
                 recovery))
  | Ok candidate =>
      let cid := snapshot_identity candidate in
      match old with
      | None => accept candidate wall now
      | Some previous =>
          let oid := snapshot_identity previous in
          if (si_generation cid <? si_generation oid)%Z
          then Some (Blocked old ReasonRegressed MatchingRetainedOrHigher)
          else if (si_generation cid =? si_generation oid)%Z && negb (bool_decide (cid = oid))
          then Some (Blocked old ReasonConflict StrictlyHigherGeneration)
          else if bool_decide (recovery = Some StrictlyHigherGeneration)
                  && (si_generation cid <=? si_generation oid)%Z
          then Some state
          else if bool_decide (recovery = Some MatchingRetainedOrHigher)
                  && (si_generation cid =? si_generation oid)%Z && negb (bool_decide (cid = oid))
          then Some state
          else accept candidate wall now
      end
  end.

(** ** What a decoded snapshot satisfies *)

Lemma rbind_decode {E A B} (r : result E A) (k : A → result E B) b :
  rbind r k = Ok b → ∃ a, r = Ok a ∧ k a = Ok b.
Proof. apply rbind_ok. Qed.

Lemma check_envelope_ok s wall :
  check_envelope s wall = Ok () →
  ∃ issued until ti tu, ws_issued_at s = Some ti ∧ timestamp_duration ti = Ok issued
    ∧ ws_valid_until s = Some tu ∧ timestamp_duration tu = Ok until
    ∧ (until = issued + SNAPSHOT_VALIDITY)%Z ∧ (0 ≤ wall)%Z
    ∧ (issued ≤ wall + MAX_FUTURE_SKEW)%Z ∧ (wall < until)%Z.
Proof.
  unfold check_envelope. intros H.
  apply rbind_ok in H as (ti & Hi & H). apply rbind_ok in H as (issued & Hti & H).
  apply rbind_ok in H as (tu & Hu & H). apply rbind_ok in H as (until & Htu & H).
  destruct (_ && _) eqn:E1 in H; [|done]. apply rbind_ok in H as (receipt & Hr & H).
  destruct (_ && _) eqn:E2 in H; [|done]. bool_to_prop.
  unfold system_duration in Hr. destruct (Z.leb_spec 0 wall); [|done]. injection Hr as <-.
  destruct (ws_issued_at s) as [ti'|]; [|done]. injection Hi as ->.
  destruct (ws_valid_until s) as [tu'|]; [|done]. injection Hu as ->.
  exists issued, until, ti, tu. split_and!; (done || lia).
Qed.

Lemma decode_header_ok raw cluster kind s :
  decode_header raw cluster kind = Ok s →
  snapshot_decode raw = Some s ∧ snapshot_encode s = raw
  ∧ (0 < ws_policy_generation s)%Z ∧ ws_cluster_id s = cluster.
Proof.
  unfold decode_header. intros H. destruct (_ <=? _)%Z; [|done].
  destruct (snapshot_decode raw) as [s'|]; [|done].
  destruct (String.eqb_spec (snapshot_encode s') raw) as [Henc|]; [|done].
  destruct (_ && _) eqn:E1 in H; [|done]. destruct (_ && _) eqn:E2 in H; [|done].
  apply rbind_ok in H as (? & _ & H).
  do 3 (destruct (_ && _) in H; [|done]). injection H as <-. bool_to_prop.
  match goal with H : String.eqb _ _ = true |- _ => apply String.eqb_eq in H end.
  split_and!; done.
Qed.

(** Every clause of the decoder, read off a snapshot it returned. *)
Lemma decode_snapshot_ok raw cluster kind wall x :
  decode_snapshot raw cluster kind wall = Some (Ok x) →
  ∃ expected, kind_identity kind = Some expected
    ∧ snapshot_decode raw = Some (is_wire x) ∧ snapshot_encode (is_wire x) = raw
    ∧ (0 < ws_policy_generation (is_wire x))%Z ∧ ws_cluster_id (is_wire x) = cluster
    ∧ index_enrollments kind expected cluster None ∅ (ws_enrollments (is_wire x))
        = Ok (is_enrollments x)
    ∧ index_revocations "" ∅ (ws_revoked_leaf_fingerprints (is_wire x)) = Ok (is_revocations x)
    ∧ check_envelope (is_wire x) wall = Ok ().
Proof.
  unfold decode_snapshot.
  destruct (decode_header raw cluster kind) as [s|] eqn:Hh; [|done].
  apply decode_header_ok in Hh as (Hd & Henc & Hg & Hc).
  destruct (kind_identity kind) as [expected|] eqn:He; [|done]. cbn. intros [= H].
  unfold decode_body in H. apply rbind_ok in H as (en & Hen & H).
  apply rbind_ok in H as (rv & Hrv & H). apply rbind_ok in H as (dg & _ & H).
  destruct (String.eqb dg _); [|done]. apply rbind_ok in H as ([] & Hck & H).
  injection H as <-. exists expected. cbn. split_and!; done.
Qed.

(** ** The consumer *)

(** When the state takes a decoded candidate over. *)
Definition acceptable (state : SnapshotConsumerState) (candidate : IndexedSnapshot) : bool :=
  match retained state with
  | None => true
  | Some previous =>
      (si_generation (snapshot_identity previous) <? si_generation (snapshot_identity candidate))%Z
      || (bool_decide (snapshot_identity candidate = snapshot_identity previous)
          && negb (bool_decide (recovery_of state = Some StrictlyHigherGeneration)))
  end.

Definition never_fresh (state : SnapshotConsumerState) : Prop := ∀ t, is_fresh state t = false.

Lemma expire_retained state now : retained (expire state now) = retained state.
Proof. destruct state; cbn; [done|by destruct (_ <=? _)%Z|done..]. Qed.

Lemma expire_recovery state now : recovery_of (expire state now) = recovery_of state.
Proof. destruct state; cbn; [done|by destruct (_ <=? _)%Z|done..]. Qed.

Lemma blocked_never_fresh old reason recovery : never_fresh (Blocked old reason recovery).
Proof. done. Qed.

Lemma recovery_never_fresh state r : recovery_of state = Some r → never_fresh state.
Proof. by destruct state. Qed.

(** The [expect]s do not panic: the decoder has checked what they unwrap. *)
Lemma accept_decoded raw cluster kind wall now x :
  decode_snapshot raw cluster kind wall = Some (Ok x) →
  ∃ until, wire_valid_until x = Some until ∧ (wall < until)%Z ∧
    accept x wall now
    = Fresh x now <$> instant_add now (Z.min SNAPSHOT_VALIDITY (until - wall)).
Proof.
  intros H. apply decode_snapshot_ok in H as (_ & _ & _ & _ & _ & _ & _ & _ & Hck).
  apply check_envelope_ok in Hck as (issued & until & ti & tu & _ & _ & Hu & Htu & _ & H0 & _ & Hlt).
  exists until. unfold accept, wire_valid_until. rewrite Hu. cbn. rewrite Htu. cbn.
  split_and!; [done|done|]. unfold system_duration. rewrite (proj2 (Z.leb_le 0 wall)) by lia. cbn.
  rewrite Z.max_r by lia. done.
Qed.

Lemma decode_raw_ok raw cluster kind wall fence x :
  decode_raw raw cluster kind wall fence = Some (Ok x) →
  ∃ bytes, raw = Ok bytes ∧ fence = true ∧ decode_snapshot bytes cluster kind wall = Some (Ok x).
Proof.
  unfold decode_raw. destruct raw as [bytes|]; [|done]. destruct fence; [|done]. cbn.
  destruct (decode_snapshot _ _ _ _) as [[]|] eqn:E; [|done..]. intros [= <-]. eauto.
Qed.

(** Only the unspecified projection reaches [unreachable!()]. *)
Lemma decode_raw_total raw cluster kind wall fence :
  kind ≠ Unspecified → is_Some (decode_raw raw cluster kind wall fence).
Proof.
  intros Hk. unfold decode_raw, decode_snapshot. destruct raw as [bytes|]; [|by eexists].
  destruct fence; [|by eexists]. cbn. destruct (decode_header _ _ _); [|by eexists].
  destruct kind; [done|by eexists..].
Qed.

(** The consumer as a table: a candidate that is acceptable becomes fresh for at most the
    validity it has left; anything else leaves the retained snapshot without freshness. *)
Lemma consume_spec state raw cluster kind wall now fence decoded :
  decode_raw raw cluster kind wall fence = Some decoded →
  match decoded with
  | Ok candidate =>
      if acceptable state candidate
      then ∃ until, wire_valid_until candidate = Some until ∧ (wall < until)%Z ∧
        consume state raw cluster kind wall now fence
        = Fresh candidate now <$> instant_add now (Z.min SNAPSHOT_VALIDITY (until - wall))
      else ∃ state', consume state raw cluster kind wall now fence = Some state'
        ∧ never_fresh state' ∧ retained state' = retained state
  | Err _ => ∃ state', consume state raw cluster kind wall now fence = Some state'
      ∧ never_fresh state' ∧ retained state' = retained state
  end.
Proof.
  intros Hd. unfold consume. rewrite expire_retained, expire_recovery, Hd. cbn [mbind option_bind].
  destruct decoded as [x|reason].
  2: { eexists. split_and!; [done|done|]. by destruct (retained state). }
  apply decode_raw_ok in Hd as (bytes & _ & _ & Hdec).
  pose proof (accept_decoded _ _ _ _ now _ Hdec) as Hacc. unfold acceptable.
  destruct (retained state) as [old|] eqn:Hold; [|done]. cbv zeta.
  destruct (Z.ltb_spec (si_generation (snapshot_identity x)) (si_generation (snapshot_identity old))).
  { rewrite (proj2 (Z.ltb_ge (si_generation (snapshot_identity old)) _)) by lia.
    rewrite bool_decide_eq_false_2 by (intros E; rewrite E in *; lia).
    cbn. eexists. split_and!; done. }
  destruct (bool_decide_reflect (snapshot_identity x = snapshot_identity old)) as [Heq|Hne].
  - rewrite Heq, Z.eqb_refl, Z.leb_refl, Z.ltb_irrefl. cbn. rewrite !andb_true_r, !andb_false_r.
    case_bool_decide as Hrec; cbn; [|done]. exists (expire state now).
    split_and!; [done| |by rewrite expire_retained, Hold].
    eapply recovery_never_fresh. by rewrite expire_recovery.
  - cbn [negb andb]. rewrite !andb_true_r, orb_false_r.
    destruct (Z.eqb_spec (si_generation (snapshot_identity x)) (si_generation (snapshot_identity old))).
    + rewrite (proj2 (Z.ltb_ge (si_generation (snapshot_identity old)) _)) by lia.
      cbn. eexists. split_and!; done.
    + rewrite (proj2 (Z.ltb_lt (si_generation (snapshot_identity old)) _)),
        (proj2 (Z.leb_gt (si_generation (snapshot_identity x)) _)) by lia. cbn.
      rewrite !andb_false_r. done.
Qed.

(** ** Runs of a consumer *)

Inductive consumer_input : Type :=
| Received (raw : result string string) (wall now : Z) (fence_matches : bool)
| Looked (now : Z).

Definition consumer_step (cluster : string) (kind : WorkloadProjectionKind)
    (state : SnapshotConsumerState) (input : consumer_input) : option SnapshotConsumerState :=
  match input with
  | Received raw wall now fence => consume state raw cluster kind wall now fence
  | Looked now => Some (expire state now)
  end.

Fixpoint consumer_run (cluster : string) (kind : WorkloadProjectionKind)
    (state : SnapshotConsumerState) (inputs : list consumer_input) : option SnapshotConsumerState :=
  match inputs with
  | [] => Some state
  | input :: inputs => state ← consumer_step cluster kind state input;
                       consumer_run cluster kind state inputs
  end.

(** [b] is at least as new as [a]. *)
Definition supersedes (b a : IndexedSnapshot) : Prop :=
  (si_generation (snapshot_identity a) < si_generation (snapshot_identity b))%Z
  ∨ snapshot_identity b = snapshot_identity a.

Lemma supersedes_trans c b a : supersedes c b → supersedes b a → supersedes c a.
Proof.
  unfold supersedes. intros [H1|H1] [H2|H2].
  - left. lia.
  - left. by rewrite <-H2.
  - left. by rewrite H1.
  - right. congruence.
Qed.

Lemma acceptable_supersedes state x y :
  acceptable state x = true → retained state = Some y → supersedes x y.
Proof.
  unfold acceptable. intros Ha Hy. rewrite Hy in Ha.
  apply orb_true_iff in Ha as [Ha|[Ha _]%andb_true_iff].
  - left. by apply Z.ltb_lt.
  - right. by apply bool_decide_eq_true in Ha.
Qed.

(** One input: the consumer never forgets or rolls back the retained snapshot, and is
    fresh afterwards only through this input, or because it was. *)
Lemma consumer_step_spec cluster kind state input state' :
  consumer_step cluster kind state input = Some state' →
    (∀ y, retained state = Some y → ∃ x, retained state' = Some x ∧ supersedes x y)
    ∧ ∀ t, is_fresh state' t = true →
        match input with
        | Looked _ => is_fresh state t = true ∧ retained state' = retained state
        | Received raw wall now fence => ∃ bytes x until, raw = Ok bytes ∧ fence = true
            ∧ decode_snapshot bytes cluster kind wall = Some (Ok x) ∧ retained state' = Some x
            ∧ wire_valid_until x = Some until
            ∧ (t < now + SNAPSHOT_VALIDITY)%Z ∧ (wall + (t - now) < until)%Z
        end.
Proof.
  destruct input as [raw wall now fence|now]; cbn [consumer_step].
  - destruct (decode_raw raw cluster kind wall fence) as [decoded|] eqn:Hd.
    2: { unfold consume. by rewrite Hd. }
    pose proof (consume_spec state raw cluster kind wall now fence _ Hd) as H.
    assert ((∃ st, consume state raw cluster kind wall now fence = Some st
      ∧ never_fresh st ∧ retained st = retained state) →
      consume state raw cluster kind wall now fence = Some state' →
      (∀ y, retained state = Some y → ∃ x, retained state' = Some x ∧ supersedes x y)
      ∧ never_fresh state') as Hblocked.
    { intros (st & -> & Hnf & Hret) [= <-]. split; [|done]. intros y Hy. exists y.
      rewrite Hret. split; [done|by right]. }
    destruct decoded as [x|]; [destruct (acceptable state x) eqn:Ha|].
    2,3: intros [Hs Hnf]%(Hblocked H); (split; [exact Hs|]); intros t Ht; by rewrite Hnf in Ht.
    destruct H as (until & Hu & Hlt & ->). intros (f & Hf & ->)%fmap_Some. unfold instant_add in Hf.
    destruct (_ <? _)%Z; [|done]. injection Hf as <-. split.
    + intros y Hy. exists x. split; [done|by eapply acceptable_supersedes].
    + intros t Ht. apply decode_raw_ok in Hd as (bytes & -> & -> & Hdec).
      cbn in Ht. apply Z.ltb_lt in Ht. exists bytes, x, until. split_and!; (done || lia).
  - intros [= <-]. split.
    + intros y Hy. exists y. rewrite expire_retained. split; [done|by right].
    + intros t Ht. split; [|apply expire_retained].
      destruct state; cbn in *; try done. by destruct (_ <=? _)%Z.
Qed.

(** An input at an instant to which the validity of a snapshot can be added. *)
Definition clock_in_range (input : consumer_input) : bool :=
  match input with
  | Received _ _ now _ => (now + SNAPSHOT_VALIDITY <? INSTANT_END)%Z
  | Looked _ => true
  end.

Lemma consumer_step_total cluster kind state input :
  kind ≠ Unspecified → clock_in_range input = true →
  is_Some (consumer_step cluster kind state input).
Proof.
  intros Hk Hc. destruct input as [raw wall now fence|now]; cbn [consumer_step]; [|by eexists].
  cbn in Hc. apply Z.ltb_lt in Hc.
  destruct (decode_raw_total raw cluster kind wall fence Hk) as [decoded Hd].
  pose proof (consume_spec state raw cluster kind wall now fence _ Hd) as H.
  destruct decoded as [x|]; [destruct (acceptable state x)|]; [|by destruct H as (st & -> & _)..].
  destruct H as (until & _ & _ & ->). rewrite instant_add_Some by lia. by eexists.
Qed.

Lemma consumer_run_total cluster kind state inputs :
  kind ≠ Unspecified → forallb clock_in_range inputs = true →
  is_Some (consumer_run cluster kind state inputs).
Proof.
  intros Hk. revert state. induction inputs as [|i inputs IH]; intros state Hc; [by eexists|].
  cbn in *. apply andb_true_iff in Hc as [Hi Hc].
  destruct (consumer_step_total cluster kind state i Hk Hi) as [state' ->]. by apply IH.
Qed.

Lemma consumer_run_supersedes cluster kind state inputs state' y :
  consumer_run cluster kind state inputs = Some state' → retained state = Some y →
  ∃ x, retained state' = Some x ∧ supersedes x y.
Proof.
  revert state y. induction inputs as [|i inputs IH]; intros state y Hrun Hy; cbn in Hrun.
  { injection Hrun as <-. exists y. split; [done|by right]. }
  destruct (consumer_step cluster kind state i) as [st|] eqn:Hst; [|done].
  apply consumer_step_spec in Hst as [Hsup _]. destruct (Hsup y Hy) as (x & Hx & Hxy).
  destruct (IH _ _ Hrun Hx) as (z & Hz & Hzx). exists z. split; [done|].
  by eapply supersedes_trans.
Qed.

Lemma consumer_run_app cluster kind state i1 i2 :
  consumer_run cluster kind state (i1 ++ i2)
  = consumer_run cluster kind state i1 ≫= λ s, consumer_run cluster kind s i2.
Proof.
  revert state. induction i1 as [|i i1 IH]; intros state; [done|]. cbn.
  destruct (consumer_step cluster kind state i); [apply IH|done].
Qed.

(** Why a consumer is fresh: the last snapshot it received. *)
Lemma consumer_fresh_cause cluster kind inputs state t :
  consumer_run cluster kind Empty inputs = Some state → is_fresh state t = true →
  ∃ pre bytes wall now post x until,
    inputs = pre ++ Received (Ok bytes) wall now true :: post
    ∧ Forall (λ i, ∃ n, i = Looked n) post
    ∧ decode_snapshot bytes cluster kind wall = Some (Ok x) ∧ retained state = Some x
    ∧ wire_valid_until x = Some until
    ∧ (t < now + SNAPSHOT_VALIDITY)%Z ∧ (wall + (t - now) < until)%Z.
Proof.
  revert state. induction inputs as [|i inputs IH] using rev_ind; intros state Hrun Ht.
  { injection Hrun as <-. done. }
  rewrite consumer_run_app in Hrun.
  destruct (consumer_run cluster kind Empty inputs) as [mid|] eqn:Hmid; [|done]. cbn in Hrun.
  destruct (consumer_step cluster kind mid i) as [st|] eqn:Hst; [|done].
  injection Hrun as ->. apply consumer_step_spec in Hst as [_ Hfr]. specialize (Hfr t Ht).
  destruct i as [raw wall now fence|n].
  - destruct Hfr as (bytes & x & until & -> & -> & ?). exists inputs, bytes, wall, now, [], x, until.
    split_and!; [done|constructor|naive_solver..].
  - destruct Hfr as [Hf Hret].
    destruct (IH mid eq_refl Hf) as (pre & bytes & wall & now & post & x & until & -> & Hp & ?).
    exists pre, bytes, wall, now, (post ++ [Looked n]), x, until. rewrite Hret.
    split_and!; [by rewrite <-app_assoc| |naive_solver..].
    apply Forall_app. split; [done|]. constructor; [by eexists|constructor].
Qed.

(** C31. The consumer of workload snapshots fails closed and never rolls back. With one of
    the two projections that proxies and engines ask for, and on a clock to which thirty
    seconds can be added, it panics on no input; when it is fresh at an instant, the last
    thing it received was a snapshot under a matching ownership fence that decoded for this
    cluster and projection, that very snapshot is the one it answers from, less than thirty
    seconds have passed since and its validity has not run out; and it supersedes every
    snapshot retained before. *)
Theorem consumer_fails_closed cluster kind inputs :
  kind ≠ Unspecified → forallb clock_in_range inputs = true →
  ∃ state, consumer_run cluster kind Empty inputs = Some state
    ∧ (∀ pre post mid y, inputs = pre ++ post → consumer_run cluster kind Empty pre = Some mid →
         retained mid = Some y → ∃ x, retained state = Some x ∧ supersedes x y)
    ∧ ∀ t, is_fresh state t = true →
        ∃ pre bytes wall now post x until,
          inputs = pre ++ Received (Ok bytes) wall now true :: post
          ∧ Forall (λ i, ∃ n, i = Looked n) post
          ∧ decode_snapshot bytes cluster kind wall = Some (Ok x) ∧ retained state = Some x
          ∧ wire_valid_until x = Some until
          ∧ (t < now + SNAPSHOT_VALIDITY)%Z ∧ (wall + (t - now) < until)%Z.
Proof.
  intros Hk Hc. destruct (consumer_run_total cluster kind Empty inputs Hk Hc) as [state Hrun].
  exists state. split; [done|]. split; [|intros t; by apply consumer_fresh_cause].
  intros pre post mid y -> Hpre Hy. rewrite consumer_run_app, Hpre in Hrun. cbn in Hrun.
  by eapply consumer_run_supersedes.
Qed.

(** [unreachable!()] is reached: with the unspecified projection a well-formed empty
    snapshot of that kind panics the decoder. No caller passes it. *)
Lemma unspecified_projection_panics raw cluster wall s :
  decode_header raw cluster Unspecified = Ok s → decode_snapshot raw cluster Unspecified wall = None.
Proof. unfold decode_snapshot. by intros ->. Qed.

(** The latch of a same-generation conflict opens by a regression. After a conflict the
    consumer asks for a strictly higher generation, and the retained snapshot alone does
    not clear the block; but a snapshot of a lower generation, itself refused, downgrades
    the condition, and then the retained generation is fresh again. *)
Theorem regression_clears_conflict_latch cluster kind old reason raw1 raw2 low same wall1 wall2
    now1 now2 :
  decode_raw raw1 cluster kind wall1 true = Some (Ok low) →
  decode_raw raw2 cluster kind wall2 true = Some (Ok same) →
  (now2 + SNAPSHOT_VALIDITY < INSTANT_END)%Z →
  (si_generation (snapshot_identity low) < si_generation (snapshot_identity old))%Z →
  snapshot_identity same = snapshot_identity old →
  let conflict := Blocked (Some old) reason StrictlyHigherGeneration in
  consume conflict raw2 cluster kind wall2 now2 true = Some conflict
  ∧ ∃ until, consumer_run cluster kind conflict
      [Received raw1 wall1 now1 true; Received raw2 wall2 now2 true]
    = Some (Fresh same now2 (now2 + Z.min SNAPSHOT_VALIDITY (until - wall2))).
Proof.
  intros H1 H2 Hclock Hlow Hsame conflict. split.
  - unfold consume. cbn [expire conflict retained recovery_of]. rewrite H2. cbn [mbind option_bind]. cbv zeta.
    rewrite Hsame, Z.ltb_irrefl, Z.eqb_refl, Z.leb_refl.
    by rewrite !bool_decide_eq_true_2 by done.
  - assert (consume conflict raw1 cluster kind wall1 now1 true
      = Some (Blocked (Some old) ReasonRegressed MatchingRetainedOrHigher)) as E.
    { unfold consume. cbn [expire conflict retained recovery_of]. rewrite H1. cbn [mbind option_bind]. cbv zeta.
      by rewrite (proj2 (Z.ltb_lt _ _) Hlow). }
    pose proof (consume_spec (Blocked (Some old) ReasonRegressed MatchingRetainedOrHigher)
      raw2 cluster kind wall2 now2 true _ H2) as H. cbv beta iota in H.
    replace (acceptable _ same) with true in H.
    2: { unfold acceptable. cbn [retained recovery_of]. rewrite Hsame, Z.ltb_irrefl.
         by rewrite bool_decide_eq_true_2 by done. }
    destruct H as (until & _ & _ & H). exists until. cbn [consumer_run consumer_step].
    rewrite E. cbn [mbind option_bind]. rewrite H, instant_add_Some by lia. done.
Qed.

End snapshots.
