(* ===== verification/Deployment.v ===== *)
(** * Deployment inventories (wr-common/src/deployment_contract.rs)

    What a deployment expects to run on a node, brought into one canonical form whose
    digest identifies the revision. [prost]'s [encoded_len] and the printing of a URI are
    parameters. *)

From S2P Require Import Prelude RustStr Lists Canonical Orders Externals Models Identity Naming Http Snapshot.

Definition DEPLOYMENT_INVENTORY_SCHEMA_VERSION : Z := 1.
Definition MAX_DEPLOYMENT_INVENTORY_BYTES : Z := 2 * 1024 * 1024.
Definition REVISION_DOMAIN : string := "wruntime-deployment-revision-v1".
Definition OPERATION_DOMAIN : string := "wruntime-deployment-operation-v1".

Record ModuleIdentity : Type := mkModuleIdentity {
  mid_namespace : string;
  mid_name : string;
  mid_version : string;
}.

Record ExpectedModule : Type := mkExpectedModule {
  em_identity : option ModuleIdentity;
  em_proto_schema_digest : string;
}.

Record SecretRequest : Type := mkSecretRequest { sr_namespace : string; sr_key : string }.

Record ExpectedEngine : Type := mkExpectedEngine {
  ee_engine_slot : string;
  ee_modules : list ExpectedModule;
  ee_secrets : list SecretRequest;
  ee_db_namespaces : list string;
  ee_job_queue_id : string;
  ee_job_admin_address : string;
}.

Record DeploymentInventoryV1 : Type := mkInventory {
  di_schema_version : Z;
  di_engines : list ExpectedEngine;
}.

Inductive DeployError : Type :=
| DepSchemaVersion
| DepEngineCount
| DepSlot
| DepSlotCap
| DepOverflow
| DepIdentityMissing
| DepModule (e : module_id_error)
| DepSchemaDigest
| DepDuplicateModule
| DepNamespace (e : name_error)
| DepSecret
| DepDuplicateDb
| DepQueue (e : name_error)
| DepAddressTooLong
| DepAddress (e : endpoint_error)
| DepAddressForm
| DepQueueAddress
| DepTotalCap
| DepTooLarge
| DepNode (e : name_error)
| DepRevision
| DepRevisionDigest
| DepFieldTooLong.

Definition lift_dep {E A} (f : E → DeployError) (r : result E A) : result DeployError A :=
  match r with Ok a => Ok a | Err e => Err (f e) end.

Definition valid_token (value : string) : bool :=
  negb (str_is_empty value) && (str_len value <=? 128)%Z
  && str_all (λ b, is_ascii_alphanumeric b || char_eqb b "-" || char_eqb b "_" || char_eqb b ".") value.

(** A loop that checks each element and that its key, kept in a [BTreeSet], is new. *)
Fixpoint check_each {A K} `{Countable K} (check : A → result DeployError ()) (key : A → K)
    (duplicate : DeployError) (seen : gset K) (l : list A) : result DeployError () :=
  match l with
  | [] => Ok ()
  | x :: l =>
      let? _ := check x in
      ensure? bool_decide (key x ∉ seen) else duplicate in
      check_each check key duplicate ({[key x]} ∪ seen) l
  end.

Definition module_key_cmp : string * (string * (string * string)) → string * (string * (string * string)) → comparison :=
  pair_cmp str_cmp (pair_cmp str_cmp (pair_cmp str_cmp str_cmp)).

(** Sorting reads the key only after every identity was found present. *)
Definition module_key (m : ExpectedModule) : string * (string * (string * string)) :=
  match em_identity m with
  | Some i => (mid_namespace i, (mid_name i, (mid_version i, em_proto_schema_digest m)))
  | None => ("", ("", ("", em_proto_schema_digest m)))
  end.

Definition module_cmp (a b : ExpectedModule) : comparison := module_key_cmp (module_key a) (module_key b).

Definition secret_key (s : SecretRequest) : string * string := (sr_namespace s, sr_key s).

Definition secret_cmp (a b : SecretRequest) : comparison :=
  pair_cmp str_cmp str_cmp (secret_key a) (secret_key b).

Definition slot_cmp (a b : ExpectedEngine) : comparison :=
  str_cmp (ee_engine_slot a) (ee_engine_slot b).

(** *** Bytes of a digest *)

Definition hex_value (c : ascii) : N :=
  let n := N_of_ascii c in if (n <? 58)%N then (n - 48)%N else (n - 87)%N.

(** The bytes that a hexadecimal text writes. *)
Fixpoint unhex (s : string) : list N :=
  match s with
  | String a (String b rest) => (16 * hex_value a + hex_value b)%N :: unhex rest
  | _ => []
  end.

(** [bytes[i] = f(bytes[i])]. *)
Definition update_byte (i : nat) (f : N → N) (bytes : list N) : list N := alter f i bytes.

(** [format!("{byte:02x}")] of each byte. *)
Definition to_hex (bytes : list N) : string :=
  foldr (λ b acc, String (hex_digit (b / 16)) (String (hex_digit (b `mod` 16)) acc)) "" bytes.

Section deployment.
Context `{SH : Sha256Lib, SV : SemverLib, HL : HttpLib}.
Context (uri_to_string : Uri → string) (inventory_encoded_len : DeploymentInventoryV1 → Z).

Definition check_module (m : ExpectedModule) : result DeployError () :=
  match em_identity m with
  | None => Err DepIdentityMissing
  | Some i =>
      let? _ := lift_dep DepModule (module_id_parse (mid_namespace i) (mid_name i) (mid_version i)) in
      ensure? str_is_empty (em_proto_schema_digest m) || valid_digest (em_proto_schema_digest m)
        else DepSchemaDigest in
      Ok ()
  end.

Definition check_secret (s : SecretRequest) : result DeployError () :=
  let? _ := lift_dep DepNamespace (name_parse TNamespace (sr_namespace s)) in
  ensure? negb (str_is_empty (sr_key s)) && (str_len (sr_key s) <=? 256)%Z else DepSecret in
  Ok ().

Definition check_db (namespace : string) : result DeployError () :=
  let? _ := lift_dep DepNamespace (name_parse TNamespace namespace) in Ok ().

Definition check_job_admin (queue address : string) : result DeployError () :=
  match str_is_empty queue, str_is_empty address with
  | true, true => Ok ()
  | false, false =>
      let? _ := lift_dep DepQueue (name_parse TJobQueueId queue) in
      ensure? (str_len address <=? 2048)%Z else DepAddressTooLong in
      let? _ := lift_dep DepAddress (endpoint_parse PeerHttpsUrl address) in
      match uri_parse address with
      | None => Err (DepAddress EndpointInvalid)
      | Some uri =>
          ensure? bool_decide (uri_scheme uri = Some "https") && bool_decide (uri_query uri = None)
                  && negb (is_some_and (uri_authority uri) (str_contains "@"))
                  && String.eqb (uri_to_string uri) address else DepAddressForm in
          Ok ()
      end
  | _, _ => Err DepQueueAddress
  end.

(** One iteration of the loop, after the engine's slot and sizes were checked. *)
Definition canonical_engine (e : ExpectedEngine) : result DeployError ExpectedEngine :=
  let? _ := check_each check_module module_key DepDuplicateModule ∅ (ee_modules e) in
  let modules := sort_by module_cmp (ee_modules e) in
  let? _ := check_each check_secret secret_key DepSecret ∅ (ee_secrets e) in
  let secrets := sort_by secret_cmp (ee_secrets e) in
  let? _ := check_each check_db id DepDuplicateDb ∅ (ee_db_namespaces e) in
  let db_namespaces := sort_by str_cmp (ee_db_namespaces e) in
  let? _ := check_job_admin (ee_job_queue_id e) (ee_job_admin_address e) in
  Ok (mkExpectedEngine (ee_engine_slot e) modules secrets db_namespaces (ee_job_queue_id e)
        (ee_job_admin_address e)).

Definition entry_count (e : ExpectedEngine) : Z :=
  Z.of_nat (length (ee_modules e)) + Z.of_nat (length (ee_secrets e))
  + Z.of_nat (length (ee_db_namespaces e)).

Definition within_slot_caps (e : ExpectedEngine) : bool :=
  (Z.of_nat (length (ee_modules e)) <=? 4096)%Z && (Z.of_nat (length (ee_secrets e)) <=? 4096)%Z
  && (Z.of_nat (length (ee_db_namespaces e)) <=? 4096)%Z.

Fixpoint canonical_engines (total : Z) (slots : gset string) (engines : list ExpectedEngine) :
    result DeployError (Z * list ExpectedEngine) :=
  match engines with
  | [] => Ok (total, [])
  | e :: engines =>
      ensure? valid_token (ee_engine_slot e) && bool_decide (ee_engine_slot e ∉ slots) else DepSlot in
      ensure? within_slot_caps e else DepSlotCap in
      let? total := match usize_checked_add total (entry_count e) with
                    | Some total => Ok total
                    | None => Err DepOverflow
                    end in
      let? e' := canonical_engine e in
      let? (total, engines) := canonical_engines total ({[ee_engine_slot e]} ∪ slots) engines in
      Ok (total, e' :: engines)
  end.

Definition canonicalize_inventory (inventory : DeploymentInventoryV1) :
    result DeployError DeploymentInventoryV1 :=
  ensure? (di_schema_version inventory =? DEPLOYMENT_INVENTORY_SCHEMA_VERSION)%Z else DepSchemaVersion in
  ensure? (Z.of_nat (length (di_engines inventory)) <=? 1024)%Z else DepEngineCount in
  let? (total, engines) := canonical_engines 0 ∅ (di_engines inventory) in
  ensure? (total <=? 65536)%Z else DepTotalCap in
  let inventory := mkInventory (di_schema_version inventory) (sort_by slot_cmp engines) in
  ensure? (inventory_encoded_len inventory <=? MAX_DEPLOYMENT_INVENTORY_BYTES)%Z else DepTooLarge in
  Ok inventory.

Definition dep_push_str : string → result DeployError string := enc_str DepFieldTooLong.

Definition push_module (m : ExpectedModule) : result DeployError string :=
  push_pair dep_push_str (push_pair dep_push_str (push_pair dep_push_str dep_push_str)) (module_key m).

Definition push_secret (s : SecretRequest) : result DeployError string :=
  push_pair dep_push_str dep_push_str (secret_key s).

Definition push_engine (e : ExpectedEngine) : result DeployError string :=
  push_pair dep_push_str
    (push_pair (enc_counted DepFieldTooLong push_module)
      (push_pair (enc_counted DepFieldTooLong push_secret)
        (push_pair (enc_counted DepFieldTooLong dep_push_str)
          (push_pair dep_push_str dep_push_str))))
    (ee_engine_slot e, (ee_modules e, (ee_secrets e, (ee_db_namespaces e,
      (ee_job_queue_id e, ee_job_admin_address e))))).

(** The bytes that [revision_digest] hashes. *)
Definition revision_bytes (node_id : string) (revision : Z) (bundle_digest : string)
    (inventory : DeploymentInventoryV1) : result DeployError string :=
  let? _ := lift_dep DepNode (name_parse TNodeId node_id) in
  ensure? (0 <? revision)%Z && valid_digest bundle_digest else DepRevision in
  let? inventory := canonicalize_inventory inventory in
  let? node := dep_push_str node_id in
  let? bundle := dep_push_str bundle_digest in
  let? engines := enc_counted DepFieldTooLong push_engine (di_engines inventory) in
  Ok (REVISION_DOMAIN +:+ be_bytes 4 (di_schema_version inventory) +:+ node
      +:+ be_bytes 8 revision +:+ bundle +:+ engines).

Definition revision_digest (node_id : string) (revision : Z) (bundle_digest : string)
    (inventory : DeploymentInventoryV1) : result DeployError string :=
  let? bytes := revision_bytes node_id revision bundle_digest inventory in
  Ok ("sha256:" +:+ sha256_hex bytes).

Definition deployment_operation_id (digest : string) : result DeployError string :=
  ensure? valid_digest digest else DepRevisionDigest in
  let bytes := take 16 (unhex (sha256_hex (OPERATION_DOMAIN +:+ digest))) in
  let bytes := update_byte 6 (λ b, N.lor (N.land b 15) 128) bytes in
  let bytes := update_byte 8 (λ b, N.lor (N.land b 63) 128) bytes in
  let hex := to_hex bytes in
  Ok (str_take 8 hex +:+ "-" +:+ str_take 4 (str_drop 8 hex) +:+ "-" +:+ str_take 4 (str_drop 12 hex)
      +:+ "-" +:+ str_take 4 (str_drop 16 hex) +:+ "-" +:+ str_drop 20 hex).

Definition schema_digest (bytes : string) : string :=
  if str_is_empty bytes then "" else "sha256:" +:+ sha256_hex bytes.

(** ** Acceptance, without the order of the lists *)

Lemma check_each_ok {A K} `{Countable K} (check : A → result DeployError ()) (key : A → K) dup seen l :
  check_each check key dup seen l = Ok () ↔
  Forall (λ x, check x = Ok ()) l ∧ NoDup (key <$> l) ∧ ∀ k, k ∈ key <$> l → k ∉ seen.
Proof.
  revert seen. induction l as [|x l IH]; intros seen; cbn [check_each].
  { split; [intros _; split_and!; [constructor|constructor|]|done].
    cbn. intros k Hk. by apply elem_of_nil in Hk. }
  rewrite fmap_cons, NoDup_cons, Forall_cons. split.
  - intros Hr. inv_ok Hr. bool_to_prop. apply IH in Hr as (Hf & Hnd & Hs).
    match goal with E : check x = Ok ?u |- _ => destruct u end. split_and!; [done..| |done|].
    + intros Hin. apply Hs in Hin. set_solver.
    + intros k [->|Hk]%elem_of_cons; [done|]. apply Hs in Hk. set_solver.
  - intros ([Hx Hf] & [Hn Hnd] & Hs). rewrite Hx. cbn.
    rewrite bool_decide_true by (apply Hs; by left). apply IH. split_and!; [done..|].
    intros k Hk. apply not_elem_of_union. split; [|apply Hs; by right].
    intros ->%elem_of_singleton. done.
Qed.

Lemma check_each_new {A K} `{Countable K} (check : A → result DeployError ()) (key : A → K) dup l :
  check_each check key dup ∅ l = Ok () ↔ Forall (λ x, check x = Ok ()) l ∧ NoDup (key <$> l).
Proof.
  rewrite check_each_ok. split; [tauto|]. intros [? ?]. split_and!; [done..|].
  intros k _. apply not_elem_of_empty.
Qed.

Record engine_ok (e : ExpectedEngine) : Prop := {
  eo_slot : valid_token (ee_engine_slot e) = true;
  eo_caps : within_slot_caps e = true;
  eo_modules : Forall (λ m, check_module m = Ok ()) (ee_modules e);
  eo_module_keys : NoDup (module_key <$> ee_modules e);
  eo_secrets : Forall (λ s, check_secret s = Ok ()) (ee_secrets e);
  eo_secret_keys : NoDup (secret_key <$> ee_secrets e);
  eo_dbs : Forall (λ n, check_db n = Ok ()) (ee_db_namespaces e);
  eo_db_keys : NoDup (ee_db_namespaces e);
  eo_job_admin : check_job_admin (ee_job_queue_id e) (ee_job_admin_address e) = Ok ();
}.

(** The canonical form of an engine. *)
Definition engine_form (e : ExpectedEngine) : ExpectedEngine :=
  mkExpectedEngine (ee_engine_slot e) (sort_by module_cmp (ee_modules e))
    (sort_by secret_cmp (ee_secrets e)) (sort_by str_cmp (ee_db_namespaces e))
    (ee_job_queue_id e) (ee_job_admin_address e).

Lemma rbind_unit_ok {E A} (r : result E ()) (k : result E A) a :
  (let? _ := r in k) = Ok a ↔ r = Ok () ∧ k = Ok a.
Proof. destruct r as [[]|]; cbn; naive_solver. Qed.

Lemma canonical_engine_ok e e' :
  valid_token (ee_engine_slot e) = true → within_slot_caps e = true →
  canonical_engine e = Ok e' ↔ engine_ok e ∧ e' = engine_form e.
Proof.
  intros Ht Hc. unfold canonical_engine. cbv zeta.
  rewrite !rbind_unit_ok, !check_each_new, list_fmap_id. split.
  - intros ([? ?] & [? ?] & [? ?] & ? & <-%ok_inj). by split.
  - intros [[] ->]. done.
Qed.

Definition total_entries (l : list ExpectedEngine) : Z := foldr Z.add 0%Z (entry_count <$> l).

Lemma entry_count_nonneg e : (0 ≤ entry_count e)%Z.
Proof. unfold entry_count. lia. Qed.

Lemma total_entries_nonneg l : (0 ≤ total_entries l)%Z.
Proof. induction l as [|e l IH]; cbn; [done|]. pose proof (entry_count_nonneg e). unfold total_entries in IH. lia. Qed.

Lemma canonical_engines_ok total slots l total' l' :
  (0 ≤ total)%Z → (total' ≤ 65536)%Z →
  canonical_engines total slots l = Ok (total', l') ↔
  Forall engine_ok l ∧ NoDup (ee_engine_slot <$> l)
  ∧ (∀ s, s ∈ ee_engine_slot <$> l → s ∉ slots)
  ∧ total' = (total + total_entries l)%Z ∧ l' = engine_form <$> l.
Proof.
  intros H0 Hcap. revert total slots l' H0. induction l as [|e l IH]; intros total slots l' H0;
    cbn [canonical_engines].
  { split.
    - intros [= <- <-]. split_and!; [constructor|constructor| |cbn; lia|done].
      intros s Hs. by apply elem_of_nil in Hs.
    - intros (_ & _ & _ & -> & ->). cbn. by rewrite Z.add_0_r. }
  pose proof (entry_count_nonneg e) as Hn. rewrite fmap_cons, NoDup_cons, Forall_cons.
  change (total_entries (e :: l)) with (entry_count e + total_entries l)%Z. split.
  - intros Hr. inv_ok Hr. bool_to_prop. unfold usize_checked_add in *.
    match goal with E : match (if ?b then _ else _) with _ => _ end = Ok _ |- _ =>
      destruct b; [apply ok_inj in E as <-|discriminate E] end.
    match goal with E : canonical_engine e = Ok _ |- _ =>
      apply canonical_engine_ok in E as [He ->]; [|done..] end.
    apply ok_inj in Hr. injection Hr as -> <-.
    match goal with E : canonical_engines _ _ l = Ok _ |- _ =>
      apply IH in E as (Hf & Hnd & Hs & -> & ->); [|lia] end.
    split_and!; [done..| |done| |lia|done].
    + intros Hin. apply Hs in Hin. set_solver.
    + intros s [->|Hin]%elem_of_cons; [done|]. apply Hs in Hin. set_solver.
  - intros ([He Hf] & [Hni Hnd] & Hs & Ht & ->). pose proof (total_entries_nonneg l) as Hl.
    rewrite (eo_slot _ He), bool_decide_true by (apply Hs; by left). rewrite (eo_caps _ He).
    unfold usize_checked_add. rewrite (proj2 (Z.leb_le _ _)) by (unfold U64_MAX; lia). cbn [rbind andb].
    rewrite (proj2 (canonical_engine_ok e _ (eo_slot _ He) (eo_caps _ He)) (conj He eq_refl)). cbn [rbind].
    rewrite (proj2 (IH (total + entry_count e)%Z ({[ee_engine_slot e]} ∪ slots) (engine_form <$> l)
      ltac:(lia))); [done|]. split_and!; [done..| |lia|done].
    intros s Hin. apply not_elem_of_union. split; [by intros ->%elem_of_singleton|apply Hs; by right].
Qed.

Record inventory_ok (i : DeploymentInventoryV1) : Prop := {
  io_schema : di_schema_version i = DEPLOYMENT_INVENTORY_SCHEMA_VERSION;
  io_count : (Z.of_nat (length (di_engines i)) ≤ 1024)%Z;
  io_engines : Forall engine_ok (di_engines i);
  io_slots : NoDup (ee_engine_slot <$> di_engines i);
  io_total : (total_entries (di_engines i) ≤ 65536)%Z;
}.

Definition inventory_form (i : DeploymentInventoryV1) : DeploymentInventoryV1 :=
  mkInventory (di_schema_version i) (sort_by slot_cmp (engine_form <$> di_engines i)).

Lemma canonicalize_ok i c :
  canonicalize_inventory i = Ok c ↔
  inventory_ok i ∧ c = inventory_form i
  ∧ (inventory_encoded_len c ≤ MAX_DEPLOYMENT_INVENTORY_BYTES)%Z.
Proof.
  unfold canonicalize_inventory. split.
  - intros H. inv_ok H. bool_to_prop. apply ok_inj in H as <-.
    match goal with E : canonical_engines _ _ _ = Ok _ |- _ =>
      apply canonical_engines_ok in E as (Hf & Hnd & _ & -> & ->); [|lia|lia] end.
    split_and!; [|done|done]. split; [done|done|done|done|lia].
  - intros ([Hs Hc Hf Hnd Ht] & -> & Hl).
    rewrite (proj2 (Z.eqb_eq _ _) Hs), (proj2 (Z.leb_le _ _) Hc).
    rewrite (proj2 (canonical_engines_ok 0 ∅ (di_engines i) (total_entries (di_engines i))
      (engine_form <$> di_engines i) ltac:(lia) Ht)).
    + cbn [rbind]. rewrite (proj2 (Z.leb_le _ _) Ht). cbv zeta.
      fold (inventory_form i). by rewrite (proj2 (Z.leb_le _ _) Hl).
    + split_and!; [done..| |lia|done]. intros s _. apply not_elem_of_empty.
Qed.

(** ** Inventories that differ only in the order of their lists *)

Record engine_equiv (a b : ExpectedEngine) : Prop := {
  eq_slot : ee_engine_slot a = ee_engine_slot b;
  eq_modules : ee_modules a ≡ₚ ee_modules b;
  eq_secrets : ee_secrets a ≡ₚ ee_secrets b;
  eq_dbs : ee_db_namespaces a ≡ₚ ee_db_namespaces b;
  eq_queue : ee_job_queue_id a = ee_job_queue_id b;
  eq_address : ee_job_admin_address a = ee_job_admin_address b;
}.

Definition inventory_equiv (i j : DeploymentInventoryV1) : Prop :=
  di_schema_version i = di_schema_version j
  ∧ ∃ l, di_engines i ≡ₚ l ∧ Forall2 engine_equiv l (di_engines j).

#[global] Instance engine_equiv_equivalence : Equivalence engine_equiv.
Proof.
  split.
  - intros a. by split.
  - intros a b []. by split.
  - intros a b c [] []. split; by etrans.
Qed.

Lemma Forall2_Permutation_swap {A} (R : A → A → Prop) l k m :
  Forall2 R l k → k ≡ₚ m → ∃ n, l ≡ₚ n ∧ Forall2 R n m.
Proof.
  intros HR HP. revert l HR. induction HP as [|x k m HP IH|x y k|k m n _ IH1 _ IH2]; intros l HR.
  - apply Forall2_nil_inv_r in HR as ->. by exists [].
  - apply Forall2_cons_inv_r in HR as (a & l' & Ha & HR & ->).
    destruct (IH _ HR) as (n & Hn & Hf). exists (a :: n). split; [by constructor|by constructor].
  - apply Forall2_cons_inv_r in HR as (a & l' & Ha & HR & ->).
    apply Forall2_cons_inv_r in HR as (b & l'' & Hb & HR & ->).
    exists (b :: a :: l''). split; [constructor|by repeat constructor].
  - destruct (IH1 _ HR) as (p & Hp & Hf). destruct (IH2 _ Hf) as (q & Hq & Hg).
    exists q. split; [by etrans|done].
Qed.

#[global] Instance inventory_equiv_equivalence : Equivalence inventory_equiv.
Proof.
  split.
  - intros i. split; [done|]. exists (di_engines i). split; [done|]. by apply Forall_Forall2_diag, Forall_true.
  - intros i j [Hs (l & HP & HF)]. split; [done|]. symmetry in HP. apply Forall2_flip in HF.
    destruct (Forall2_Permutation_swap _ _ _ _ HF HP) as (n & Hn & Hf). exists n. split; [done|].
    eapply Forall2_impl; [exact Hf|]. by intros a b ?.
  - intros i j k [Hs (l & HP & HF)] [Hs' (m & HP' & HF')]. split; [by etrans|].
    destruct (Forall2_Permutation_swap _ _ _ _ HF HP') as (n & Hn & Hf). exists n.
    split; [by etrans|]. by transitivity m.
Qed.

Lemma engine_form_equiv e : engine_equiv e (engine_form e).
Proof. split; try done; cbn; by rewrite sort_by_perm. Qed.

Lemma inventory_form_equiv i : inventory_equiv i (inventory_form i).
Proof.
  split; [done|]. cbn.
  enough (∃ l, sort_by slot_cmp (engine_form <$> di_engines i) ≡ₚ l ∧ Forall2 engine_equiv l (di_engines i))
    as (l & HP & HF).
  { apply Forall2_flip in HF. symmetry in HP.
    destruct (Forall2_Permutation_swap _ _ _ _ HF HP) as (n & Hn & Hf). exists n. split; [done|].
    eapply Forall2_impl; [exact Hf|]. intros a b ?. by symmetry. }
  exists (engine_form <$> di_engines i). split; [apply sort_by_perm|].
  apply Forall2_fmap_l, Forall_Forall2_diag, Forall_true. intros e.
  apply (symmetry (R := engine_equiv)), engine_form_equiv.
Qed.

#[global] Instance key_ord : Ord module_key_cmp.
Proof. unfold module_key_cmp. apply _. Qed.

Lemma engine_ok_equiv a b : engine_equiv a b → engine_ok a → engine_ok b.
Proof.
  intros [E1 E2 E3 E4 E5 E6] []. split; rewrite <-?E1, <-?E2, <-?E3, <-?E4, <-?E5, <-?E6; try done.
  unfold within_slot_caps. by rewrite <-E2, <-E3, <-E4.
Qed.

Lemma engine_form_unique a b : engine_equiv a b → engine_ok a → engine_form a = engine_form b.
Proof.
  intros [E1 E2 E3 E4 E5 E6] []. unfold engine_form. f_equal; try done.
  - by apply (sort_by_key_Permutation module_key_cmp module_key).
  - by apply (sort_by_key_Permutation (pair_cmp str_cmp str_cmp) secret_key).
  - by apply sort_by_Permutation.
Qed.

Lemma entry_count_equiv a b : engine_equiv a b → entry_count a = entry_count b.
Proof. intros [_ E2 E3 E4 _ _]. unfold entry_count. by rewrite E2, E3, E4. Qed.

Lemma total_entries_perm l k : l ≡ₚ k → total_entries l = total_entries k.
Proof. induction 1; cbn in *; unfold total_entries in *; lia. Qed.

Lemma pointwise_equiv l k :
  Forall2 engine_equiv l k → Forall engine_ok l →
  Forall engine_ok k ∧ engine_form <$> l = engine_form <$> k
  ∧ ee_engine_slot <$> l = ee_engine_slot <$> k ∧ total_entries l = total_entries k.
Proof.
  induction 1 as [|a b l k Hab _ IH]; intros Hl; [done|]. apply Forall_cons in Hl as [Ha Hl].
  destruct (IH Hl) as (Hk & Hf & Hs & Ht). split_and!.
  - constructor; [by eapply engine_ok_equiv|done].
  - cbn. by rewrite (engine_form_unique _ _ Hab Ha), Hf.
  - cbn. by rewrite (eq_slot _ _ Hab), Hs.
  - unfold total_entries in *. cbn. by rewrite (entry_count_equiv _ _ Hab), Ht.
Qed.

Lemma inventory_form_unique i j :
  inventory_equiv i j → inventory_ok i → inventory_ok j ∧ inventory_form i = inventory_form j.
Proof.
  intros [Hs (l & HP & HF)] [H1 H2 H3 H4 H5]. rewrite HP in H3, H4.
  destruct (pointwise_equiv _ _ HF H3) as (Hk & Hf & Hsl & Ht). split.
  - split; [congruence| |done|by rewrite <-Hsl|].
    + by rewrite <-(Forall2_length _ _ _ HF), <-HP.
    + by rewrite <-Ht, <-(total_entries_perm _ _ HP).
  - unfold inventory_form. f_equal; [done|]. rewrite <-Hf.
    apply (sort_by_key_Permutation str_cmp ee_engine_slot); [|by rewrite HP].
    rewrite <-list_fmap_compose. by rewrite HP.
Qed.

(** Canonicalization of deployment inventories is a normal form. An accepted inventory
    differs from its canonical form only in the order of its engines and of each engine's
    modules, secrets and database namespaces; the canonical form is a fixed point; and the
    inventories brought to that form are exactly those that differ from the first only in
    these orders, so whether an inventory is accepted does not depend on them either. *)
Theorem canonical_inventory_is_normal_form i c :
  canonicalize_inventory i = Ok c →
  inventory_equiv i c ∧ canonicalize_inventory c = Ok c
  ∧ ∀ j, canonicalize_inventory j = Ok c ↔ inventory_equiv i j.
Proof.
  intros (Hi & -> & Hlen)%canonicalize_ok. pose proof (inventory_form_equiv i) as He.
  assert (∀ j, inventory_equiv i j → canonicalize_inventory j = Ok (inventory_form i)) as Hall.
  { intros j Hj. destruct (inventory_form_unique _ _ Hj Hi) as [Hjok Hf].
    apply canonicalize_ok. by rewrite Hf in Hlen |- *. }
  split_and!; [done|by apply Hall|]. intros j. split; [|by apply Hall].
  intros (_ & E & _)%canonicalize_ok. etrans; [exact He|]. rewrite E. symmetry. apply inventory_form_equiv.
Qed.

(** ** The digest of a revision *)

Definition engine_view (e : ExpectedEngine) :=
  (ee_engine_slot e, (module_key <$> ee_modules e, (secret_key <$> ee_secrets e,
    (ee_db_namespaces e, (ee_job_queue_id e, ee_job_admin_address e))))).

Definition push_view :=
  push_pair dep_push_str
    (push_pair (enc_counted DepFieldTooLong
        (push_pair dep_push_str (push_pair dep_push_str (push_pair dep_push_str dep_push_str))))
      (push_pair (enc_counted DepFieldTooLong (push_pair dep_push_str dep_push_str))
        (push_pair (enc_counted DepFieldTooLong dep_push_str)
          (push_pair dep_push_str dep_push_str)))).

Lemma push_each_fmap {E A B} (f : B → result E string) (g : A → B) l :
  push_each (λ x, f (g x)) l = push_each f (g <$> l).
Proof. induction l as [|x l IH]; cbn; [done|]. by rewrite IH. Qed.

Lemma enc_counted_fmap {E A B} (too_long : E) (f : B → result E string) (g : A → B) l :
  enc_counted too_long (λ x, f (g x)) l = enc_counted too_long f (g <$> l).
Proof. unfold enc_counted. by rewrite push_each_fmap, length_fmap. Qed.

Lemma push_engine_view e : push_engine e = push_view (engine_view e).
Proof.
  unfold push_engine, push_view, engine_view, push_pair. cbn [fst snd].
  rewrite <-!enc_counted_fmap. done.
Qed.

Lemma push_each_ext {E A} (f g : A → result E string) l :
  (∀ x, f x = g x) → push_each f l = push_each g l.
Proof. intros Hfg. induction l as [|x l IH]; cbn; [done|]. by rewrite Hfg, IH. Qed.

Lemma push_engines_view l :
  enc_counted DepFieldTooLong push_engine l = enc_counted DepFieldTooLong push_view (engine_view <$> l).
Proof.
  rewrite <-enc_counted_fmap. unfold enc_counted.
  by rewrite (push_each_ext push_engine (λ x, push_view (engine_view x)) l push_engine_view).
Qed.

Lemma push_view_code : prefix_code push_view.
Proof.
  unfold push_view, dep_push_str. repeat apply push_pair_code; auto 10 with codes.
Qed.

Lemma fmap_inj_on {A B} (P : A → Prop) (g : A → B) l k :
  (∀ x y, P x → P y → g x = g y → x = y) → Forall P l → Forall P k → g <$> l = g <$> k → l = k.
Proof.
  intros Hg Hl. revert k. induction Hl as [|x l Hx Hl IH]; intros [|y k] Hk E; try done.
  apply Forall_cons in Hk as [Hy Hk]. injection E as E1 E2. f_equal; [by apply Hg|by apply IH].
Qed.

Lemma module_key_inj x y :
  check_module x = Ok () → check_module y = Ok () → module_key x = module_key y → x = y.
Proof.
  unfold check_module, module_key. destruct x as [[[]|] ?], y as [[[]|] ?]; cbn; try done.
  intros _ _ [= -> -> -> ->]. done.
Qed.

Lemma engine_view_inj x y : engine_ok x → engine_ok y → engine_view x = engine_view y → x = y.
Proof.
  intros Hx Hy. destruct x as [s1 m1 k1 d1 q1 a1], y as [s2 m2 k2 d2 q2 a2]. unfold engine_view. cbn.
  intros [= -> Em Ek -> -> ->]. f_equal.
  - apply (fmap_inj_on _ _ _ _ module_key_inj (eo_modules _ Hx) (eo_modules _ Hy) Em).
  - apply (fmap_inj_on (λ _, True) secret_key); [|by apply Forall_true..|done].
    intros [] [] _ _ [= -> ->]. done.
Qed.

Lemma form_engines_ok i : inventory_ok i → Forall engine_ok (di_engines (inventory_form i)).
Proof.
  intros Hi. apply (inventory_form_unique i _ (inventory_form_equiv i) Hi).
Qed.

Lemma revision_bytes_ok n r b i x :
  revision_bytes n r b i = Ok x →
  ∃ c node bundle engines, canonicalize_inventory i = Ok c ∧ (0 < r)%Z ∧ valid_digest b = true
    ∧ dep_push_str n = Ok node ∧ dep_push_str b = Ok bundle
    ∧ enc_counted DepFieldTooLong push_engine (di_engines c) = Ok engines
    ∧ x = REVISION_DOMAIN +:+ be_bytes 4 1 +:+ node +:+ be_bytes 8 r +:+ bundle +:+ engines.
Proof.
  unfold revision_bytes. intros H. inv_ok H. bool_to_prop. apply ok_inj in H as <-.
  match goal with E : canonicalize_inventory i = Ok ?c |- _ =>
    pose proof E as (Hi & Hc & _)%canonicalize_ok; exists c end.
  do 3 eexists. split_and!; [eassumption|done|done|eassumption|eassumption|eassumption|].
  do 2 f_equal. rewrite Hc. cbn. by rewrite (io_schema _ Hi).
Qed.

(** The digest of a deployment revision covers the whole revision and nothing of its
    presentation: two accepted revisions have the same canonical bytes, whose SHA-256 is
    the digest, exactly when they are for the same node, revision number and bundle and
    their inventories differ at most in the order of their lists. *)
Theorem revision_digest_covers_inventory n1 r1 b1 i1 x1 n2 r2 b2 i2 x2 :
  (r1 ≤ U64_MAX)%Z → (r2 ≤ U64_MAX)%Z →
  revision_bytes n1 r1 b1 i1 = Ok x1 → revision_bytes n2 r2 b2 i2 = Ok x2 →
  revision_digest n1 r1 b1 i1 = Ok ("sha256:" +:+ sha256_hex x1)
  ∧ revision_digest n2 r2 b2 i2 = Ok ("sha256:" +:+ sha256_hex x2)
  ∧ (x1 = x2 ↔ n1 = n2 ∧ r1 = r2 ∧ b1 = b2 ∧ inventory_equiv i1 i2).
Proof.
  intros Hr1 Hr2 H1 H2. unfold revision_digest. split; [by rewrite H1|]. split; [by rewrite H2|].
  pose proof H1 as (c1 & n1' & b1' & e1 & Hc1 & Hp1 & Hd1 & En1 & Eb1 & Ee1 & ->)%revision_bytes_ok.
  pose proof H2 as (c2 & n2' & b2' & e2 & Hc2 & Hp2 & Hd2 & En2 & Eb2 & Ee2 & ->)%revision_bytes_ok.
  pose proof Hc1 as (Hi1 & F1 & _)%canonicalize_ok. pose proof Hc2 as (Hi2 & F2 & _)%canonicalize_ok.
  unfold dep_push_str in En1, En2, Eb1, Eb2. split.
  - intros E. apply str_app_inj_length in E as [_ E]; [|done]. apply str_app_inj_length in E as [_ E]; [|done].
    apply (enc_str_code DepFieldTooLong _ _ _ _ _ _ En1 En2) in E as [-> E].
    apply str_app_inj_length in E as [Er E]; [|by rewrite !length_be_bytes].
    apply be_bytes_inj in Er as ->; [|unfold U64_MAX in *; cbn; lia..].
    apply (enc_str_code DepFieldTooLong _ _ _ _ _ _ Eb1 Eb2) in E as [-> E]. split_and!; [done..|].
    rewrite push_engines_view in Ee1, Ee2.
    assert (engine_view <$> di_engines c1 = engine_view <$> di_engines c2) as Ev.
    { apply (enc_counted_code DepFieldTooLong push_view push_view_code _ _ e1 e2 "" "" Ee1 Ee2).
      by rewrite E. }
    apply (fmap_inj_on engine_ok) in Ev; [|apply engine_view_inj|
      rewrite F1; by apply form_engines_ok|rewrite F2; by apply form_engines_ok].
    assert (c1 = c2) as Ec.
    { rewrite F1, F2 in Ev |- *. unfold inventory_form in *. cbn in Ev.
      by rewrite Ev, (io_schema _ Hi1), (io_schema _ Hi2). }
    etrans; [apply inventory_form_equiv|]. rewrite <-F1, Ec, F2. symmetry. apply inventory_form_equiv.
  - intros (<- & <- & <- & He). assert (c1 = c2) as <-.
    { rewrite F1, F2. by apply inventory_form_unique. }
    congruence.
Qed.

(** ** Operation identifiers *)

Definition lower_hex (c : ascii) : bool := is_ascii_digit c || byte_in 97 102 c.

Lemma all_bytes (P : N → bool) :
  forallb P (N.of_nat <$> seq 0 256) = true → ∀ b, (b < 256)%N → P b = true.
Proof.
  rewrite forallb_forall. intros HP b Hb. apply HP, list_elem_of_In, list_elem_of_fmap.
  exists (N.to_nat b). split; [lia|]. apply elem_of_seq. lia.
Qed.

Lemma hex_value_lt c : lower_hex c = true → (hex_value c < 16)%N.
Proof.
  intros Hc. assert (negb (lower_hex (ascii_of_N (N_of_ascii c)))
    || (hex_value (ascii_of_N (N_of_ascii c)) <? 16)%N = true) as H.
  { apply (all_bytes (λ n, negb (lower_hex (ascii_of_N n)) || (hex_value (ascii_of_N n) <? 16)%N));
      [by vm_compute|apply N_ascii_bounded]. }
  rewrite ascii_N_embedding, Hc in H. by apply N.ltb_lt.
Qed.

Lemma unhex_bytes n s :
  String.length s = 2 * n → str_all lower_hex s = true →
  length (unhex s) = n ∧ Forall (λ b, (b < 256)%N) (unhex s).
Proof.
  revert s. induction n as [|n IH]; intros s Hl Hs.
  { destruct s; [|done]. by split. }
  destruct s as [|a [|b s]]; [done|cbn in Hl; lia|]. cbn [str_all] in Hs. bool_to_prop.
  destruct (IH s) as [Hn Hf]; [cbn in Hl; lia|done|]. cbn [unhex length]. split; [by rewrite Hn|].
  constructor; [|done]. pose proof (hex_value_lt a). pose proof (hex_value_lt b).
  assert (hex_value a < 16)%N by auto. assert (hex_value b < 16)%N by auto. lia.
Qed.

Definition byte_digits_lower (b : N) : bool :=
  lower_hex (hex_digit (b / 16)) && lower_hex (hex_digit (b `mod` 16)).

Definition is_variant (c : ascii) : bool :=
  char_eqb c "8" || char_eqb c "9" || char_eqb c "a" || char_eqb c "b".

Lemma to_hex_lower l :
  Forall (λ b, (b < 256)%N) l → str_all lower_hex (to_hex l) = true ∧ String.length (to_hex l) = 2 * length l.
Proof.
  induction 1 as [|b l Hb _ [IH Hl]]; [done|]. cbn [to_hex foldr str_all String.length].
  fold (to_hex l). rewrite IH, Hl. pose proof (all_bytes byte_digits_lower eq_refl b Hb) as Hd.
  unfold byte_digits_lower in Hd. bool_to_prop. split; [by rewrite !andb_true_iff|cbn; lia].
Qed.

(** The two changed bytes: the version and the variant. *)
Lemma version_byte b : (b < 256)%N →
  let v := N.lor (N.land b 15) 128 in (v < 256)%N ∧ hex_digit (v / 16) = "8"%char.
Proof.
  intros Hb. cbv zeta.
  pose proof (all_bytes (λ b, (N.lor (N.land b 15) 128 <? 256)%N
    && char_eqb (hex_digit (N.lor (N.land b 15) 128 / 16)) "8") eq_refl b Hb) as H.
  cbv beta in H. apply andb_true_iff in H as [H1 H2]. split; [by apply N.ltb_lt|].
  by apply bool_decide_eq_true in H2.
Qed.

Lemma variant_byte b : (b < 256)%N →
  let v := N.lor (N.land b 63) 128 in (v < 256)%N ∧ is_variant (hex_digit (v / 16)) = true.
Proof.
  intros Hb. cbv zeta.
  pose proof (all_bytes (λ b, (N.lor (N.land b 63) 128 <? 256)%N
    && is_variant (hex_digit (N.lor (N.land b 63) 128 / 16))) eq_refl b Hb) as H.
  cbv beta in H. apply andb_true_iff in H as [H1 H2]. split; [by apply N.ltb_lt|done].
Qed.

(** The identifier of a revision's operation is a UUID of version 8: five groups of 8, 4, 4,
    4 and 12 lowercase hexadecimal digits, the third beginning with 8 and the fourth with
    the RFC variant. It exists exactly for normalized digests. *)
Theorem operation_id_is_uuid8 digest :
  match deployment_operation_id digest with
  | Err _ => valid_digest digest = false
  | Ok id => valid_digest digest = true ∧ ∃ g1 g2 g3 v g4 g5,
      id = g1 +:+ "-" +:+ g2 +:+ "-" +:+ String "8" g3 +:+ "-" +:+ String v g4 +:+ "-" +:+ g5
      ∧ is_variant v = true
      ∧ (String.length <$> [g1; g2; g3; g4; g5]) = [8; 4; 3; 3; 12]
      ∧ Forall (λ g, str_all lower_hex g = true) [g1; g2; g3; g4; g5]
  end.
Proof.
  unfold deployment_operation_id. destruct (valid_digest digest); [|done]. split; [done|].
  destruct (unhex_bytes 32 (sha256_hex (OPERATION_DOMAIN +:+ digest))) as [Hl Hf];
    [apply sha256_hex_length|apply sha256_hex_digits|].
  set (bytes := take 16 _). assert (length bytes = 16) as Hb by (unfold bytes; rewrite length_take; lia).
  assert (Forall (λ b, (b < 256)%N) bytes) as Hbf by by apply Forall_take. clearbody bytes. clear Hl Hf.
  destruct bytes as [|b0 [|b1 [|b2 [|b3 [|b4 [|b5 [|b6 [|b7 [|b8 [|b9 [|b10 [|b11 [|b12 [|b13 [|b14
    [|b15 [|]]]]]]]]]]]]]]]]]; try discriminate Hb.
  repeat (apply Forall_cons in Hbf as [? Hbf]). cbv zeta.
  cbn [update_byte alter list_alter].
  destruct (version_byte b6) as [V6 E6]; [done|]. destruct (variant_byte b8) as [V8 E8]; [done|].
  pose proof (all_bytes byte_digits_lower eq_refl _ V6) as D6.
  pose proof (all_bytes byte_digits_lower eq_refl _ V8) as D8. unfold byte_digits_lower in D6, D8.
  apply andb_true_iff in D6 as [_ D6], D8 as [_ D8].
  exists (to_hex [b0; b1; b2; b3]), (to_hex [b4; b5]),
    (String (hex_digit (N.lor (N.land b6 15) 128 `mod` 16)) (to_hex [b7])),
    (hex_digit (N.lor (N.land b8 63) 128 / 16)),
    (String (hex_digit (N.lor (N.land b8 63) 128 `mod` 16)) (to_hex [b9])),
    (to_hex [b10; b11; b12; b13; b14; b15]).
  split; [rewrite <-E6; reflexivity|]. split; [done|]. split; [reflexivity|].
  repeat constructor; cbn [str_all]; rewrite ?D6, ?D8; cbn [andb]; apply to_hex_lower; repeat constructor; done.
Qed.
End deployment.

(** ** An example *)

Section demo.
#[local] Existing Instances toy_sha256 toy_semver toy_http.

Definition demo_print (_ : Uri) : string := "".
Definition demo_size (i : DeploymentInventoryV1) : Z := 64 * Z.of_nat (length (di_engines i)).

Definition demo_module (ns nm : string) : ExpectedModule :=
  mkExpectedModule (Some (mkModuleIdentity ns nm "1.0.0")) "".

Definition demo_engine (slot : string) (modules : list ExpectedModule) (dbs : list string) : ExpectedEngine :=
  mkExpectedEngine slot modules [mkSecretRequest "shop" "key"] dbs "" "".

Definition demo_inventory : DeploymentInventoryV1 :=
  mkInventory 1 [demo_engine "b" [] ["shop"];
                 demo_engine "a" [demo_module "shop" "cart"; demo_module "bank" "pay"] ["shop"; "bank"]].

Definition demo_canonical : DeploymentInventoryV1 :=
  mkInventory 1 [demo_engine "a" [demo_module "bank" "pay"; demo_module "shop" "cart"] ["bank"; "shop"];
                 demo_engine "b" [] ["shop"]].

Lemma demo_canonicalizes : canonicalize_inventory demo_print demo_size demo_inventory = Ok demo_canonical.
Proof. vm_compute. reflexivity. Qed.

Lemma canonical_inventory_is_normal_form_witness :
  inventory_equiv demo_inventory demo_canonical
  ∧ canonicalize_inventory demo_print demo_size demo_canonical = Ok demo_canonical.
Proof.
  destruct (canonical_inventory_is_normal_form demo_print demo_size demo_inventory demo_canonical
    demo_canonicalizes) as (H1 & H2 & _). exact (conj H1 H2).
Defined.

Definition demo_bundle : string :=
  "sha256:00112233445566778899aabbccddeeff00112233445566778899aabbccddeeff".

Definition demo_revision (i : DeploymentInventoryV1) : string :=
  match revision_bytes demo_print demo_size "node-a" 3 demo_bundle i with Ok x => x | Err _ => "" end.

Lemma demo_revision_ok : revision_bytes demo_print demo_size "node-a" 3 demo_bundle demo_inventory
  = Ok (demo_revision demo_inventory).
Proof. vm_compute. reflexivity. Qed.

Lemma demo_revision_canonical : revision_bytes demo_print demo_size "node-a" 3 demo_bundle demo_canonical
  = Ok (demo_revision demo_canonical).
Proof. vm_compute. reflexivity. Qed.

Lemma demo_revision_same : demo_revision demo_inventory = demo_revision demo_canonical.
Proof. vm_compute. reflexivity. Qed.

Lemma revision_digest_covers_inventory_witness : inventory_equiv demo_inventory demo_canonical.
Proof.
  destruct (revision_digest_covers_inventory demo_print demo_size "node-a" 3 demo_bundle demo_inventory
    (demo_revision demo_inventory) "node-a" 3 demo_bundle demo_canonical (demo_revision demo_canonical)
    ltac:(done) ltac:(done) demo_revision_ok demo_revision_canonical) as (_ & _ & [H _]).
  destruct (H demo_revision_same) as (_ & _ & _ & He). exact He.
Defined.
End demo.
