(* ===== verification/SnapshotAgree.v ===== *)
(** * Producer and consumer of snapshots agree

    What a manager builds from a well-formed policy, every proxy or engine decodes within
    its validity, to an index that admits exactly the enrolled and unrevoked workloads.
    [Policy] proves that a loaded policy is well formed in this sense. *)

From S2P Require Import Prelude RustStr Utf8 Lists Orders Externals Models Identity PolicyTypes Snapshot.

(** ** Well-formed projections *)

Definition principal_of (cluster : string) (kind : PrincipalKind) (uri : string) : Prop :=
  ∃ n, valid_name n ∧ uri = principal_uri_format (Name cluster) kind (Name n).

Record workloads_wf (cluster : string) (kind : PrincipalKind) (cap : Z)
    (l : list WorkloadEnrollmentV1) : Prop := {
  ww_items : Forall (λ e, principal_of cluster kind (we_principal_uri e)
                          ∧ valid_name (we_workload_id e)) l;
  ww_unique : NoDup (we_principal_uri <$> l);
  ww_cap : (Z.of_nat (length l) ≤ cap)%Z;
}.

Record policy_wf (p : ValidatedPolicy) : Prop := {
  pw_cluster : valid_name (vp_cluster_id p);
  pw_generation : (0 < vp_generation p ≤ U64_MAX)%Z;
  pw_digest : valid_digest (vp_digest p) = true;
  pw_managers : workloads_wf (vp_cluster_id p) ManagerKind MAX_MANAGERS
                  (projected_enrollments p EngineJobAdminV1);
  pw_proxies : workloads_wf (vp_cluster_id p) ProxyKind MAX_PROXIES
                 (projected_enrollments p ProxyPeerV1);
  pw_revoked : ∀ f, f ∈ vp_revoked_leaf_fingerprints p → valid_digest f = true;
  pw_revoked_cap : (Z.of_nat (size (vp_revoked_leaf_fingerprints p)) ≤ MAX_REVOKED_FINGERPRINTS)%Z;
}.

(** ** Orders *)

#[export] Instance enrollment_ord : Ord enrollment_cmp.
Proof.
  apply (ord_pullback (cmp := pair_cmp str_cmp str_cmp)
    (λ e, (we_principal_uri e, we_workload_id e))).
  intros [] []. cbn. congruence.
Qed.

Lemma sorted_enrollments_strict l :
  NoDup (we_principal_uri <$> l) →
  StronglySorted (λ a b, enrollment_cmp a b = Lt) (sort_by enrollment_cmp l).
Proof. intros Hnd%NoDup_fmap_1. by apply ord_sorted_strict. Qed.

Lemma btree_elements_strict s : StronglySorted (λ a b, str_cmp a b = Lt) (btree_elements s).
Proof. apply ord_sorted_strict, NoDup_elements. Qed.

Lemma elem_of_btree_elements s x : x ∈ btree_elements s ↔ x ∈ s.
Proof. unfold btree_elements. by rewrite sort_by_perm, elem_of_elements. Qed.

Lemma length_btree_elements s : length (btree_elements s) = size s.
Proof. unfold btree_elements. by rewrite sort_by_perm. Qed.

(** ** Timestamps *)

Lemma timestamp_roundtrip t ts :
  timestamp t = Ok ts → timestamp_duration ts = Ok t ∧ (0 ≤ t)%Z.
Proof.
  unfold timestamp, system_duration. destruct (Z.leb_spec 0 t); [|done]. cbn [rbind].
  destruct (_ <=? _)%Z; [|done]. intros [= <-]. split; [|done]. unfold timestamp_duration. cbn.
  pose proof (Z.mod_pos_bound t 1000000000 ltac:(lia)).
  pose proof (Z.div_pos t 1000000000 ltac:(lia) ltac:(lia)).
  rewrite (proj2 (Z.leb_le 0 _)), (proj2 (Z.ltb_lt _ _)), (proj2 (Z.leb_le 0 (t / _))) by lia.
  cbn. f_equal. rewrite (Z.div_mod t 1000000000) at 3 by lia. lia.
Qed.

(** ** Texts *)

Lemma valid_name_ascii n : valid_name n → str_all (byte_in 0 127) n = true.
Proof.
  intros (_ & _ & _ & H). eapply str_all_impl; [|exact H]. intros c Hc.
  unfold name_byte, is_ascii_lowercase, is_ascii_digit in Hc.
  rewrite !orb_true_iff, !byte_in_spec in Hc. apply byte_in_spec.
  destruct Hc as [[?|?]|Hc]; [lia..|]. apply char_eqb_true in Hc as ->. done.
Qed.

Lemma valid_name_utf8 n : valid_name n → utf8_valid n = true.
Proof. intros H. by apply utf8_valid_ascii, valid_name_ascii. Qed.

Lemma principal_utf8 cluster kind uri :
  valid_name cluster → principal_of cluster kind uri → utf8_valid uri = true.
Proof.
  intros Hc (n & Hn & ->). unfold principal_uri_format. cbn [name_str].
  repeat apply utf8_valid_app; try done; [by apply valid_name_utf8|by destruct kind|by apply valid_name_utf8].
Qed.

Lemma str_take_drop n s : str_take n s +:+ str_drop n s = s.
Proof.
  revert s. induction n as [|n IH]; intros [|c s]; try done.
  cbn. by rewrite str_app_cons, IH.
Qed.

Lemma hex_drop_ascii s :
  str_all (λ b, is_ascii_hexdigit b && negb (is_ascii_uppercase b)) s = true →
  str_all (byte_in 0 127) s = true.
Proof.
  intros H. eapply str_all_impl; [|exact H]. intros c [Hc _]%andb_true_iff.
  unfold is_ascii_hexdigit, is_ascii_digit in Hc. rewrite !orb_true_iff, !byte_in_spec in Hc.
  apply byte_in_spec. lia.
Qed.

Lemma valid_digest_utf8 d : valid_digest d = true → utf8_valid d = true.
Proof.
  unfold valid_digest. rewrite !andb_true_iff. intros [[_ Hp] Hh].
  unfold starts_with in Hp. destruct (strip_prefix "sha256:" d) as [r|] eqn:E; [|done].
  apply strip_prefix_Some in E as ->. apply utf8_valid_ascii.
  change (str_drop 7 ("sha256:" +:+ r)) with r in Hh.
  rewrite str_all_app. apply andb_true_iff. split; [done|by apply hex_drop_ascii].
Qed.

Lemma valid_digest_nonempty d : valid_digest d = true → str_cmp "" d = Lt.
Proof. by destruct d. Qed.

(** ** The loops of the decoder *)

Section agree.
Context `{SH : Sha256Lib, SC : SnapshotCodec}.

Lemma check_workload_valid kind id : valid_name id → check_workload kind id = Ok ().
Proof. intros H. destruct kind; cbn; [done|by rewrite name_parse_valid..]. Qed.

Lemma principal_of_parse cluster kind uri :
  valid_name cluster → principal_of cluster kind uri →
  ∃ n, principal_uri_parse uri = Ok (principal_uri_new (Name cluster) kind n).
Proof.
  intros Hc (n & Hn & ->). exists (Name n). apply principal_uri_parse_iff.
  by exists (Name cluster), kind, (Name n).
Qed.

Lemma index_enrollments_sorted kind expected cluster prev index l :
  valid_name cluster →
  StronglySorted (λ a b, enrollment_cmp a b = Lt) (option_list prev ++ l) →
  Forall (λ e, principal_of cluster expected (we_principal_uri e) ∧ valid_name (we_workload_id e)) l →
  ∃ index', index_enrollments kind expected cluster prev index l = Ok index'
    ∧ ∀ k, is_Some (index' !! k) ↔ is_Some (index !! k) ∨ k ∈ we_principal_uri <$> l.
Proof.
  intros Hc. revert prev index. induction l as [|e l IH]; intros prev index Hs Hl.
  { exists index. split; [done|]. intros k. cbn. rewrite elem_of_nil. naive_solver. }
  apply Forall_cons_1 in Hl as [[Hp Hw] Hl].
  assert (match prev with
          | None => true
          | Some p => match enrollment_cmp p e with Lt => true | _ => false end
          end = true) as Hprev.
  { destruct prev as [p|]; [|done]. cbn in Hs. apply StronglySorted_inv in Hs as [_ Hs].
    apply Forall_cons_1 in Hs as [Hs _]. by rewrite Hs. }
  assert (StronglySorted (λ a b, enrollment_cmp a b = Lt) (option_list (Some e) ++ l)) as Hs'.
  { destruct prev; [|done]. cbn in *. by apply StronglySorted_inv in Hs as [Hs _]. }
  destruct (IH (Some e) (<[we_principal_uri e := we_workload_id e]> index) Hs' Hl)
    as (index' & Hi & Hdom).
  exists index'. split.
  - cbn [index_enrollments]. destruct (principal_of_parse _ _ _ Hc Hp) as [n ->]. cbn [lift_snap rbind].
    unfold principal_uri_new. cbn [pu_cluster_id pu_kind name_str].
    rewrite String.eqb_refl, bool_decide_eq_true_2 by done. cbn [andb].
    rewrite check_workload_valid by done. cbn [rbind]. by rewrite Hprev.
  - intros k. rewrite Hdom. cbn [fmap list_fmap]. rewrite elem_of_cons, lookup_insert_is_Some'.
    naive_solver.
Qed.

Lemma index_revocations_sorted prior index l :
  StronglySorted (λ a b, str_cmp a b = Lt) (prior :: l) →
  Forall (λ v, valid_digest v = true) l → (∀ v, v ∈ l → v ∉ index) →
  ∃ index', index_revocations prior index l = Ok index'
    ∧ ∀ v, v ∈ index' ↔ v ∈ index ∨ v ∈ l.
Proof.
  revert prior index. induction l as [|v l IH]; intros prior index Hs Hl Hnew.
  { exists index. split; [done|]. intros w. rewrite elem_of_nil. naive_solver. }
  apply Forall_cons_1 in Hl as [Hv Hl]. apply StronglySorted_inv in Hs as [Hs Hpr].
  apply Forall_cons_1 in Hpr as [Hpr _].
  destruct (IH v ({[v]} ∪ index) Hs Hl) as (index' & Hi & Hdom).
  { intros w Hw. apply StronglySorted_inv in Hs as [_ Hs].
    pose proof (proj1 (Forall_forall _ _) Hs w Hw) as Hvw. cbn in Hvw.
    rewrite elem_of_union, elem_of_singleton. intros [->|Hin].
    - by rewrite (proj2 (str_cmp_eq v v) eq_refl) in Hvw.
    - apply (Hnew w); [by right|done]. }
  exists index'. split.
  - cbn [index_revocations]. rewrite Hv, Hpr, bool_decide_eq_true_2 by (apply Hnew; by left).
    done.
  - intros w. rewrite Hdom, elem_of_union, elem_of_singleton, elem_of_cons. naive_solver.
Qed.

(** ** Digests *)

Lemma projection_digest_set s d : projection_digest (set_projection_digest s d) = projection_digest s.
Proof. done. Qed.

Lemma prefixed_hash_valid body : valid_digest ("sha256:" +:+ sha256_hex body) = true.
Proof.
  unfold valid_digest. rewrite !andb_true_iff. split_and!.
  - unfold str_len. by rewrite str_length_app, sha256_hex_length.
  - unfold starts_with. by rewrite (proj2 (strip_prefix_Some _ _ (sha256_hex body)) eq_refl).
  - change (str_drop 7 ("sha256:" +:+ ?r)) with r.
    eapply str_all_impl; [|apply sha256_hex_digits]. intros c Hc. cbn in Hc.
    unfold is_ascii_digit in Hc. rewrite orb_true_iff, !byte_in_spec in Hc.
    rewrite andb_true_iff, negb_true_iff. split.
    + unfold is_ascii_hexdigit, is_ascii_digit. rewrite !orb_true_iff, !byte_in_spec. lia.
    + unfold is_ascii_uppercase. apply not_true_iff_false. rewrite byte_in_spec. lia.
Qed.

Lemma projection_digest_valid s d : projection_digest s = Ok d → valid_digest d = true.
Proof.
  unfold projection_digest. intros H. inv_ok H. injection H as <-. apply prefixed_hash_valid.
Qed.

(** ** What the producer builds *)

(** The message before its projection digest is set. *)
Definition undigested (p : ValidatedPolicy) (kind : WorkloadProjectionKind) (issued until : Timestamp) :
    WorkloadSnapshotV1 :=
  let enrollments := sort_by enrollment_cmp (projected_enrollments p kind) in
  let revoked := btree_elements (vp_revoked_leaf_fingerprints p) in
  mkSnapshot 1 (kind_number kind) (vp_cluster_id p) (vp_generation p) (vp_digest p) ""
    (Some issued) (Some until) (as_u32 (length enrollments)) (as_u32 (length revoked))
    enrollments revoked.

Lemma build_snapshot_ok p kind now bytes :
  build_snapshot p kind now = Ok bytes →
  kind ≠ Unspecified ∧ ∃ issued until d,
    timestamp now = Ok issued ∧ timestamp (now + SNAPSHOT_VALIDITY) = Ok until
    ∧ projection_digest (undigested p kind issued until) = Ok d
    ∧ bytes = snapshot_encode (set_projection_digest (undigested p kind issued until) d)
    ∧ (str_len bytes ≤ MAX_WORKLOAD_PROJECTION_BYTES)%Z.
Proof.
  unfold build_snapshot. destruct (bool_decide_reflect (kind = Unspecified)); [done|]. cbn [negb].
  intros H. split; [done|].
  apply rbind_ok in H as (issued & Hi & H). apply rbind_ok in H as (until & Hu & H).
  apply rbind_ok in H as (d & Hd & H). exists issued, until, d.
  destruct (Z.leb_spec (str_len (snapshot_encode (set_projection_digest
    (undigested p kind issued until) d))) MAX_WORKLOAD_PROJECTION_BYTES) as [Hle|Hgt].
  - unfold undigested in Hle. rewrite (proj2 (Z.leb_le _ _) Hle) in H. by injection H as <-.
  - unfold undigested in Hgt. by rewrite (proj2 (Z.leb_gt _ _) Hgt) in H.
Qed.

(** The kind's projection is well formed, within the kind's cap. *)
Lemma projection_wf p kind :
  policy_wf p → kind ≠ Unspecified →
  ∃ k, kind_identity kind = Some k
    ∧ workloads_wf (vp_cluster_id p) k (kind_cap kind) (projected_enrollments p kind).
Proof.
  intros Hp Hk. destruct kind; [done|exists ProxyKind|exists ManagerKind];
    (split; [reflexivity|apply Hp]).
Qed.

Lemma kind_cap_u32 kind : (kind_cap kind ≤ U32_MAX)%Z.
Proof. destruct kind; vm_compute; discriminate. Qed.

Lemma as_u32_small n m : (Z.of_nat n ≤ m)%Z → (m ≤ U32_MAX)%Z → as_u32 n = Z.of_nat n.
Proof. intros ? Hm. unfold as_u32. unfold U32_MAX in Hm. apply Z.mod_small. lia. Qed.

Section built.
#[local] Set Default Proof Using "All".
Context (p : ValidatedPolicy) (kind : WorkloadProjectionKind) (k : PrincipalKind).
Context (issued until : Timestamp) (d : string).
Hypothesis Hp : policy_wf p.
Hypothesis Hwf : workloads_wf (vp_cluster_id p) k (kind_cap kind) (projected_enrollments p kind).

Let s := set_projection_digest (undigested p kind issued until) d.

Lemma built_items :
  Forall (λ e, principal_of (vp_cluster_id p) k (we_principal_uri e) ∧ valid_name (we_workload_id e))
    (ws_enrollments s).
Proof. cbn. rewrite sort_by_perm. apply Hwf. Qed.

Lemma built_revoked : Forall (λ v, valid_digest v = true) (ws_revoked_leaf_fingerprints s).
Proof. apply Forall_forall. intros v Hv%elem_of_btree_elements. by apply Hp. Qed.

Lemma built_caps :
  (Z.of_nat (length (ws_enrollments s)) ≤ kind_cap kind)%Z
  ∧ (Z.of_nat (length (ws_revoked_leaf_fingerprints s)) ≤ MAX_REVOKED_FINGERPRINTS)%Z.
Proof.
  cbn [s undigested set_projection_digest ws_enrollments ws_revoked_leaf_fingerprints].
  rewrite length_btree_elements, (Permutation_length (sort_by_perm _ _)).
  split; [apply Hwf|apply Hp].
Qed.

Lemma built_counts :
  ws_enrollment_count s = Z.of_nat (length (ws_enrollments s))
  ∧ ws_revoked_fingerprint_count s = Z.of_nat (length (ws_revoked_leaf_fingerprints s)).
Proof.
  destruct built_caps as [H1 H2]. split.
  - exact (as_u32_small _ _ H1 (kind_cap_u32 kind)).
  - eapply as_u32_small; [exact H2|]. vm_compute. discriminate.
Qed.

Lemma built_ranges : snapshot_ranges s = true.
Proof.
  destruct built_caps as [H1 H2], built_counts as [C1 C2]. pose proof (kind_cap_u32 kind).
  unfold snapshot_ranges. rewrite C1, C2. pose proof (pw_generation p Hp).
  cbn [s undigested set_projection_digest ws_enrollments ws_revoked_leaf_fingerprints
       ws_schema_version ws_projection_kind ws_policy_generation] in *.
  rewrite !andb_true_iff, !Z.leb_le.
  assert (0 ≤ kind_number kind ≤ 2)%Z by (destruct kind; cbn; lia).
  assert (MAX_REVOKED_FINGERPRINTS ≤ U32_MAX)%Z by (vm_compute; discriminate).
  assert (2 ≤ U32_MAX ∧ 2 ≤ I32_MAX)%Z by (vm_compute; split; discriminate).
  lia.
Qed.

Lemma built_texts : valid_digest d = true → forallb utf8_valid (snapshot_texts s) = true.
Proof.
  intros Hd. apply forallb_forall. intros t Ht%list_elem_of_In. unfold snapshot_texts in Ht.
  rewrite !elem_of_app in Ht.
  change [ws_cluster_id s; ws_policy_digest s; ws_projection_digest s]
    with [vp_cluster_id p; vp_digest p; d] in Ht.
  destruct Ht as [Ht|[Ht|[Ht|Ht]]].
  - rewrite !elem_of_cons, elem_of_nil in Ht. destruct Ht as [->|[->|[->|[]]]].
    + apply valid_name_utf8, Hp.
    + apply valid_digest_utf8, Hp.
    + by apply valid_digest_utf8.
  - apply list_elem_of_fmap in Ht as (e & -> & He).
    eapply principal_utf8; [apply Hp|]. exact (proj1 (proj1 (Forall_forall _ _) built_items e He)).
  - apply list_elem_of_fmap in Ht as (e & -> & He).
    apply valid_name_utf8. exact (proj2 (proj1 (Forall_forall _ _) built_items e He)).
  - apply valid_digest_utf8. exact (proj1 (Forall_forall _ _) built_revoked t Ht).
Qed.

(** Both loops of the decoder succeed on the message, and index its projection. *)
Lemma built_indexes :
  (∃ index, index_enrollments kind k (vp_cluster_id p) None ∅ (ws_enrollments s) = Ok index
     ∧ ∀ q, is_Some (index !! q) ↔ q ∈ we_principal_uri <$> projected_enrollments p kind)
  ∧ ∃ revoked, index_revocations "" ∅ (ws_revoked_leaf_fingerprints s) = Ok revoked
     ∧ ∀ f, f ∈ revoked ↔ f ∈ vp_revoked_leaf_fingerprints p.
Proof.
  split.
  - destruct (index_enrollments_sorted kind k (vp_cluster_id p) None ∅ (ws_enrollments s))
      as (index & Hi & Hdom); [apply Hp|apply sorted_enrollments_strict, Hwf|apply built_items|].
    exists index. split; [exact Hi|]. intros q. rewrite Hdom, lookup_empty.
    cbn [s undigested set_projection_digest ws_enrollments]. rewrite sort_by_perm.
    split; [intros [[? [=]]|?]; done|by right].
  - destruct (index_revocations_sorted "" ∅ (ws_revoked_leaf_fingerprints s))
      as (revoked & Hr & Hdom); [|apply built_revoked|set_solver|].
    + apply SSorted_cons; [apply btree_elements_strict|]. eapply Forall_impl; [apply built_revoked|].
      intros [|c v] Hv; [done|reflexivity].
    + exists revoked. split; [exact Hr|]. intros f. rewrite Hdom.
      cbn [s undigested set_projection_digest ws_revoked_leaf_fingerprints].
      rewrite elem_of_btree_elements. set_solver.
Qed.
End built.

Lemma envelope_at_receipt s now issued until wall :
  ws_issued_at s = Some issued → ws_valid_until s = Some until →
  timestamp now = Ok issued → timestamp (now + SNAPSHOT_VALIDITY) = Ok until →
  (now ≤ wall + MAX_FUTURE_SKEW)%Z → (0 ≤ wall)%Z → (wall < now + SNAPSHOT_VALIDITY)%Z →
  check_envelope s wall = Ok ().
Proof.
  intros Hi Hu [Ti _]%timestamp_roundtrip [Tu _]%timestamp_roundtrip H1 H2 H3.
  unfold check_envelope. rewrite Hi, Hu. cbn [require rbind]. rewrite Ti, Tu. cbn [rbind].
  assert (0 ≤ SNAPSHOT_VALIDITY)%Z by (vm_compute; discriminate).
  rewrite (proj2 (Z.leb_le now _)), (proj2 (Z.eqb_eq _ _)) by lia. cbn [andb].
  unfold system_duration. rewrite (proj2 (Z.leb_le 0 wall)) by lia. cbn [rbind].
  by rewrite (proj2 (Z.leb_le now _)), (proj2 (Z.ltb_lt wall _)) by lia.
Qed.

(** A consumer decodes what is built, to an index of exactly the projection. *)
Lemma built_snapshot_agrees p kind now bytes wall :
  policy_wf p → build_snapshot p kind now = Ok bytes →
  (now ≤ wall + MAX_FUTURE_SKEW)%Z → (0 ≤ wall)%Z → (wall < now + SNAPSHOT_VALIDITY)%Z →
  ∃ s, decode_snapshot bytes (vp_cluster_id p) kind wall = Some (Ok s)
    ∧ si_generation (snapshot_identity s) = vp_generation p
    ∧ si_policy_digest (snapshot_identity s) = vp_digest p
    ∧ ∀ principal fingerprint,
        admits s principal fingerprint = true
        ↔ principal ∈ we_principal_uri <$> projected_enrollments p kind
          ∧ fingerprint ∉ vp_revoked_leaf_fingerprints p.
Proof.
  intros Hp Hb H1 H2 H3.
  apply build_snapshot_ok in Hb as (Hk & issued & until & d & Hi & Hu & Hd & -> & Hlen).
  destruct (projection_wf p kind Hp Hk) as (k & Hkind & Hwf).
  pose proof (projection_digest_valid _ _ Hd) as Hdv.
  destruct (built_indexes p kind k issued until d Hp Hwf) as [(index & Hidx & Hin) (revoked & Hrev & Hrin)].
  destruct (built_caps p kind k issued until d Hp Hwf) as [Hc1 Hc2].
  destruct (built_counts p kind k issued until d Hp Hwf) as [Hn1 Hn2].
  pose proof (built_ranges p kind k issued until d Hp Hwf) as Hr.
  pose proof (built_texts p kind k issued until d Hp Hwf Hdv) as Ht.
  rewrite <-(projection_digest_set _ d) in Hd.
  set (s := set_projection_digest (undigested p kind issued until) d) in *.
  exists (mkIndexed s index revoked). split; [|split; [done|split; [done|]]].
  - unfold decode_snapshot, decode_header.
    rewrite (proj2 (Z.leb_le _ _) Hlen), snapshot_decode_encode by done.
    rewrite String.eqb_refl.
    change (ws_schema_version s) with 1%Z. change (ws_policy_generation s) with (vp_generation p).
    rewrite (proj2 (Z.ltb_lt _ _) (proj1 (pw_generation p Hp))).
    change (ws_projection_kind s) with (kind_number kind). change (ws_cluster_id s) with (vp_cluster_id p).
    rewrite Z.eqb_refl, String.eqb_refl. cbn [andb Z.eqb Pos.eqb].
    rewrite name_parse_valid by apply Hp. cbn [lift_snap rbind].
    change (ws_policy_digest s) with (vp_digest p). change (ws_projection_digest s) with d.
    rewrite (pw_digest p Hp), Hdv, Hn1, Hn2, !Z.eqb_refl. cbn [andb].
    rewrite (proj2 (Z.leb_le _ _) Hc1), (proj2 (Z.leb_le _ _) Hc2), Hkind. cbn [andb].
    cbn [mbind option_bind]. unfold decode_body. rewrite Hidx. cbn [rbind]. rewrite Hrev. cbn [rbind]. rewrite Hd. cbn [rbind].
    rewrite String.eqb_refl.
    by rewrite (envelope_at_receipt s now issued until wall).
  - intros q f. unfold admits. cbn [is_enrollments is_revocations].
    rewrite andb_true_iff, negb_true_iff, bool_decide_eq_true, bool_decide_eq_false.
    by rewrite Hin, Hrin.
Qed.
End agree.
