(* ===== verification/Policy.v ===== *)
(** * The authorization policy (wr-common/src/authorization_policy.rs)

    Managers and the fleet tooling load the same TOML document through one validator,
    which canonicalises it, digests it and checks that its snapshots can be built. [toml]
    is a parameter: the document it reads, with the widths of the integers. *)

From S2P Require Import Prelude RustStr Canonical Utf8 Lists Orders Externals Models Identity Http PolicyTypes Snapshot.

(** ** The document *)

Record RawPrincipal : Type := mkRawPrincipal { rp_uri : string; rp_kind : string }.

Record RawScope : Type := mkRawScope {
  rs_namespace_ids : option (list string);
  rs_node_ids : option (list string);
  rs_job_queue_ids : option (list string);
  rs_manager_ids : option (list string);
}.

Record RawAssignment : Type := mkRawAssignment {
  rw_principal : string;
  rw_role : string;
  rw_scope : RawScope;
}.

Record RawManagerEnrollment : Type := mkRawManager {
  rm_principal : string;
  rm_manager_id : string;
  rm_endpoint : string;
}.

Record RawNodeEnrollment : Type := mkRawNode { rn_principal : string; rn_node_id : string }.

Record RawPolicy : Type := mkRawPolicy {
  raw_schema_version : Z;
  raw_generation : Z;
  raw_cluster_id : string;
  raw_principals : list RawPrincipal;
  raw_assignments : list RawAssignment;
  raw_manager_enrollments : list RawManagerEnrollment;
  raw_proxy_enrollments : list RawNodeEnrollment;
  raw_node_agent_enrollments : list RawNodeEnrollment;
  raw_revoked_leaf_fingerprints : list string;
}.

(** [toml::from_str::<RawPolicy>]. *)
Class TomlLib : Type := {
  toml_policy : string → option RawPolicy;
  toml_policy_widths text raw :
    toml_policy text = Some raw →
    (0 ≤ raw_schema_version raw ≤ U32_MAX)%Z ∧ (0 ≤ raw_generation raw ≤ U64_MAX)%Z;
}.

Inductive PolicyError : Type :=
| PolTooLarge
| PolNotUtf8
| PolToml
| PolSchema
| PolGeneration
| PolCluster (e : name_error)
| PolPrincipalCap
| PolAssignmentCap
| PolManagerCap
| PolProxyCap
| PolNodeAgentCap
| PolRevocationCap
| PolPrincipal (e : principal_error)
| PolWrongCluster
| PolKindMismatch
| PolDuplicatePrincipal
| PolUndeclared
| PolWorkloadAssignment
| PolRole
| PolRoleForKind
| PolScopeEmpty (t : name_type)
| PolScopeValue (t : name_type) (e : name_error)
| PolScopeDuplicate (t : name_type)
| PolScopeDimension
| PolScopeCap
| PolScopeOverflow
| PolTotalScopeCap
| PolPerPrincipalCap
| PolDuplicateAssignment
| PolEnrollmentKind
| PolManagerId (e : name_error)
| PolManagerName
| PolEndpoint (e : endpoint_error)
| PolEnrolledTwice
| PolDuplicateManager
| PolDuplicateEndpoint
| PolNodeId (e : name_error)
| PolUnenrolled
| PolFingerprint
| PolDuplicateFingerprint
| PolFieldTooLong
| PolCanonicalTooLarge
| PolTargetIds
| PolSnapshot (e : SnapshotError)
| PolCallerCluster
| PolCallerKind
| PolCallerFingerprint
| PolCallerRevoked
| PolTargets
| PolNoGrant.

Definition lift_pol {E A} (f : E → PolicyError) (r : result E A) : result PolicyError A :=
  match r with Ok a => Ok a | Err e => Err (f e) end.

Definition policy_fingerprint (value : string) : bool :=
  (str_len value =? 71)%Z && starts_with "sha256:" value
  && str_all (λ b, is_ascii_digit b || byte_in 97 102 b) (str_drop 7 value).

(** ** Scopes *)

(** The loop of [checked_set] over the values. *)
Fixpoint checked_values (t : name_type) (acc : gset string) (values : list string) :
    result PolicyError (gset string) :=
  match values with
  | [] => Ok acc
  | v :: values =>
      let? _ := lift_pol (PolScopeValue t) (name_parse t v) in
      ensure? bool_decide (v ∉ acc) else PolScopeDuplicate t in
      checked_values t ({[v]} ∪ acc) values
  end.

Definition checked_set (t : name_type) (values : option (list string)) :
    result PolicyError (option (gset string)) :=
  match values with
  | None => Ok None
  | Some values =>
      ensure? negb (bool_decide (values = [])) else PolScopeEmpty t in
      let? s := checked_values t ∅ values in
      Ok (Some s)
  end.

(** Which of namespaces, nodes, job queues and managers a role may be restricted to. *)
Definition allowed_dimensions (kind : PrincipalKind) (role : PolicyRole) :
    result PolicyError (bool * bool * bool * bool) :=
  match kind, role with
  | Human, RAdmin => Ok (false, false, false, false)
  | Human, RView => Ok (true, true, false, false)
  | Human, RInfra => Ok (false, true, false, true)
  | Human, (RJobView | RJobAdmin) => Ok (false, false, true, false)
  | ServiceAccount, RStatus => Ok (true, true, false, false)
  | ServiceAccount, (RRoute | RSecret | RSchedule) => Ok (true, false, false, false)
  | ServiceAccount, RInfra => Ok (false, true, false, false)
  | ServiceAccount, RDeploy => Ok (false, true, false, true)
  | ServiceAccount, (RJobView | RJobAdmin) => Ok (false, false, true, false)
  | _, _ => Err PolRoleForKind
  end.

Definition dimension_ok (present : option (gset string)) (allowed : bool) : bool :=
  negb (bool_decide (is_Some present)) || allowed.

Definition set_len (s : option (gset string)) : Z :=
  match s with None => 0 | Some s => Z.of_nat (size s) end.

Definition scope_count (s : AssignmentScope) : Z :=
  set_len (sc_namespace_ids s) + set_len (sc_node_ids s) + set_len (sc_job_queue_ids s)
  + set_len (sc_manager_ids s).

(** ** Orders ([derive(Ord)]) *)

Definition role_rank (r : PolicyRole) : Z :=
  match r with
  | RAdmin => 0 | RView => 1 | RInfra => 2 | RJobView => 3 | RJobAdmin => 4
  | RStatus => 5 | RRoute => 6 | RSecret => 7 | RSchedule => 8 | RDeploy => 9
  end.

Definition opt_set_cmp : option (gset string) → option (gset string) → comparison :=
  option_cmp (λ a b, list_cmp str_cmp (btree_elements a) (btree_elements b)).

Definition scope_cmp (a b : AssignmentScope) : comparison :=
  then_cmp (opt_set_cmp (sc_namespace_ids a) (sc_namespace_ids b))
    (then_cmp (opt_set_cmp (sc_node_ids a) (sc_node_ids b))
      (then_cmp (opt_set_cmp (sc_job_queue_ids a) (sc_job_queue_ids b))
        (opt_set_cmp (sc_manager_ids a) (sc_manager_ids b)))).

Definition assignment_cmp (a b : RoleAssignment) : comparison :=
  then_cmp (str_cmp (ra_principal a) (ra_principal b))
    (then_cmp (Z.compare (role_rank (ra_role a)) (role_rank (ra_role b)))
      (scope_cmp (ra_scope a) (ra_scope b))).

Definition node_cmp (a b : NodeEnrollment) : comparison :=
  then_cmp (str_cmp (ne_principal a) (ne_principal b)) (str_cmp (ne_node_id a) (ne_node_id b)).

(** ** The passes of [ValidatedPolicy::load] *)

Section load.
Context `{SH : Sha256Lib, SC : SnapshotCodec, HL : HttpLib, TL : TomlLib}.

(** The declared principals; [insert] must not replace one. *)
Fixpoint load_principals (cluster : ClusterId) (acc : gmap string PrincipalKind)
    (items : list RawPrincipal) : result PolicyError (gmap string PrincipalKind) :=
  match items with
  | [] => Ok acc
  | item :: items =>
      let? uri := lift_pol PolPrincipal (principal_uri_parse (rp_uri item)) in
      let? kind := lift_pol PolPrincipal (principal_kind_from_str (rp_kind item)) in
      ensure? bool_decide (pu_cluster_id uri = cluster) else PolWrongCluster in
      ensure? bool_decide (pu_kind uri = kind) else PolKindMismatch in
      ensure? bool_decide (acc !! pu_value uri = None) else PolDuplicatePrincipal in
      load_principals cluster (<[pu_value uri := kind]> acc) items
  end.

Definition assignable (kind : PrincipalKind) : bool :=
  match kind with Human | ServiceAccount => true | _ => false end.

(** One assignment, up to the check of its scope's dimensions and size. *)
Definition load_assignment (principals : gmap string PrincipalKind) (item : RawAssignment) :
    result PolicyError RoleAssignment :=
  match principals !! rw_principal item with
  | None => Err PolUndeclared
  | Some kind =>
      ensure? assignable kind else PolWorkloadAssignment in
      let? role := match role_from_str (rw_role item) with Some r => Ok r | None => Err PolRole end in
      let? (an, ad, aq, am) := allowed_dimensions kind role in
      let? namespaces := checked_set TNamespace (rs_namespace_ids (rw_scope item)) in
      let? nodes := checked_set TNodeId (rs_node_ids (rw_scope item)) in
      let? queues := checked_set TJobQueueId (rs_job_queue_ids (rw_scope item)) in
      let? managers := checked_set TManagerId (rs_manager_ids (rw_scope item)) in
      let scope := mkScope namespaces nodes queues managers in
      ensure? dimension_ok namespaces an && dimension_ok nodes ad && dimension_ok queues aq
              && dimension_ok managers am else PolScopeDimension in
      ensure? (scope_count scope <=? MAX_SCOPE_VALUES_PER_ASSIGNMENT)%Z else PolScopeCap in
      Ok (mkAssignment (rw_principal item) role scope)
  end.

(** The loop over the assignments: the count of each principal, the scope values so far and
    the assignments in the order read. *)
Fixpoint load_assignments (principals : gmap string PrincipalKind) (counts : gmap string Z)
    (total : Z) (acc : list RoleAssignment) (items : list RawAssignment) :
    result PolicyError (Z * list RoleAssignment) :=
  match items with
  | [] => Ok (total, acc)
  | item :: items =>
      let? a := load_assignment principals item in
      match usize_checked_add total (scope_count (ra_scope a)) with
      | None => Err PolScopeOverflow
      | Some total =>
          ensure? (total <=? MAX_SCOPE_VALUES)%Z else PolTotalScopeCap in
          let count := (default 0 (counts !! ra_principal a) + 1)%Z in
          ensure? (count <=? MAX_ASSIGNMENTS_PER_PRINCIPAL)%Z else PolPerPrincipalCap in
          load_assignments principals (<[ra_principal a := count]> counts) total (acc ++ [a]) items
      end
  end.

(** The sets the enrollment loops fill. *)
Record Enrolled : Type := mkEnrolled {
  en_principals : gset string;
  en_manager_ids : gset string;
  en_endpoints : gset string;
}.

Fixpoint load_managers (principals : gmap string PrincipalKind) (seen : Enrolled)
    (acc : list ManagerEnrollment) (items : list RawManagerEnrollment) :
    result PolicyError (Enrolled * list ManagerEnrollment) :=
  match items with
  | [] => Ok (seen, acc)
  | item :: items =>
      let? uri := lift_pol PolPrincipal (principal_uri_parse (rm_principal item)) in
      ensure? bool_decide (principals !! pu_value uri = Some ManagerKind) else PolEnrollmentKind in
      let? _ := lift_pol PolManagerId (name_parse TManagerId (rm_manager_id item)) in
      ensure? String.eqb (name_str (pu_name uri)) (rm_manager_id item) else PolManagerName in
      let? _ := lift_pol PolEndpoint (endpoint_parse PeerHttpsUrl (rm_endpoint item)) in
      ensure? bool_decide (rm_principal item ∉ en_principals seen) else PolEnrolledTwice in
      ensure? bool_decide (rm_manager_id item ∉ en_manager_ids seen) else PolDuplicateManager in
      ensure? bool_decide (rm_endpoint item ∉ en_endpoints seen) else PolDuplicateEndpoint in
      load_managers principals
        (mkEnrolled ({[rm_principal item]} ∪ en_principals seen)
           ({[rm_manager_id item]} ∪ en_manager_ids seen)
           ({[rm_endpoint item]} ∪ en_endpoints seen))
        (acc ++ [mkManagerEnrollment (rm_principal item) (rm_manager_id item) (rm_endpoint item)])
        items
  end.

(** The loop of the closure [validate_nodes]. *)
Fixpoint load_nodes (principals : gmap string PrincipalKind) (expected : PrincipalKind)
    (enrolled : gset string) (acc : list NodeEnrollment) (items : list RawNodeEnrollment) :
    result PolicyError (gset string * list NodeEnrollment) :=
  match items with
  | [] => Ok (enrolled, acc)
  | item :: items =>
      let? uri := lift_pol PolPrincipal (principal_uri_parse (rn_principal item)) in
      ensure? bool_decide (principals !! pu_value uri = Some expected) else PolEnrollmentKind in
      let? _ := lift_pol PolNodeId (name_parse TNodeId (rn_node_id item)) in
      ensure? bool_decide (rn_principal item ∉ enrolled) else PolEnrolledTwice in
      load_nodes principals expected ({[rn_principal item]} ∪ enrolled)
        (acc ++ [mkNodeEnrollment (rn_principal item) (rn_node_id item)]) items
  end.

Definition validate_nodes (principals : gmap string PrincipalKind) (enrolled : gset string)
    (items : list RawNodeEnrollment) (expected : PrincipalKind) :
    result PolicyError (gset string * list NodeEnrollment) :=
  let? (enrolled, items) := load_nodes principals expected enrolled [] items in
  Ok (enrolled, sort_by node_cmp items).

Definition is_workload (kind : PrincipalKind) : bool :=
  match kind with ManagerKind | ProxyKind | NodeAgent => true | _ => false end.

(** Every workload principal has an enrollment. *)
Definition all_enrolled (principals : gmap string PrincipalKind) (enrolled : gset string) : bool :=
  forallb (λ '(uri, kind), negb (is_workload kind) || bool_decide (uri ∈ enrolled))
    (btree_entries principals).

Definition load_revoked (values : list string) : result PolicyError (gset string) :=
  ensure? forallb policy_fingerprint values else PolFingerprint in
  let revoked : gset string := list_to_set values in
  ensure? (Z.of_nat (size revoked) =? Z.of_nat (length values))%Z else PolDuplicateFingerprint in
  Ok revoked.

(** ** The canonical encoding *)

Definition policy_push_u32 : Z → result PolicyError string := enc_u32 PolFieldTooLong.

Definition policy_push_str : string → result PolicyError string := enc_str PolFieldTooLong.

Definition push_counted {A} : (A → result PolicyError string) → list A → result PolicyError string :=
  enc_counted PolFieldTooLong.

Definition push_opt_set (values : option (gset string)) : result PolicyError string :=
  match values with
  | None => Ok (be_bytes 1 0)
  | Some values =>
      let? items := push_counted policy_push_str (btree_elements values) in
      Ok (be_bytes 1 1 +:+ items)
  end.

Definition push_principal : string * PrincipalKind → result PolicyError string :=
  push_pair policy_push_str (λ k, policy_push_str (principal_kind_as_str k)).

Definition push_assignment (a : RoleAssignment) : result PolicyError string :=
  push_pair policy_push_str
    (push_pair policy_push_str
      (push_pair push_opt_set (push_pair push_opt_set (push_pair push_opt_set push_opt_set))))
    (ra_principal a,
     (role_as_str (ra_role a),
      (sc_namespace_ids (ra_scope a),
       (sc_node_ids (ra_scope a), (sc_job_queue_ids (ra_scope a), sc_manager_ids (ra_scope a)))))).

Definition push_manager (m : ManagerEnrollment) : result PolicyError string :=
  push_pair policy_push_str (push_pair policy_push_str policy_push_str)
    (me_principal m, (me_manager_id m, me_endpoint m)).

Definition push_node (n : NodeEnrollment) : result PolicyError string :=
  push_pair policy_push_str policy_push_str (ne_principal n, ne_node_id n).

Definition DIGEST_DOMAIN : string := "wruntime-authorization-policy-v1".

Definition canonical (schema_version generation : Z) (cluster : string)
    (principals : gmap string PrincipalKind) (assignments : list RoleAssignment)
    (managers : list ManagerEnrollment) (proxies node_agents : list NodeEnrollment)
    (revoked : gset string) : result PolicyError string :=
  let? cluster := policy_push_str cluster in
  let? principals := push_counted push_principal (btree_entries principals) in
  let? assignments := push_counted push_assignment assignments in
  let? managers := push_counted push_manager managers in
  let? proxies := push_counted push_node proxies in
  let? node_agents := push_counted push_node node_agents in
  let? revoked := push_counted policy_push_str (btree_elements revoked) in
  Ok (DIGEST_DOMAIN +:+ be_bytes 4 schema_version +:+ be_bytes 8 generation
      +:+ cluster +:+ principals +:+ assignments +:+ managers +:+ proxies
      +:+ node_agents +:+ revoked).

Definition hash (bytes : string) : string := "sha256:" +:+ sha256_hex bytes.

Definition target_cmp (a b : RolloutTarget) : comparison :=
  str_cmp (rt_manager_id a) (rt_manager_id b).

Definition push_target (t : RolloutTarget) : result PolicyError string :=
  push_pair policy_push_str policy_push_str (rt_manager_id t, rt_endpoint t).

Definition manager_set_hash (targets : list RolloutTarget) : result PolicyError string :=
  let targets := sort_by target_cmp targets in
  ensure? windows2_all (λ a b, negb (String.eqb (rt_manager_id a) (rt_manager_id b))) targets
    else PolTargetIds in
  let? encoded := push_counted push_target targets in
  Ok (hash ("wruntime-manager-set-v1" +:+ encoded)).

Definition rollout_targets (managers : list ManagerEnrollment) : list RolloutTarget :=
  (λ m, mkTarget (me_manager_id m) (me_endpoint m)) <$> managers.

(** ** [ValidatedPolicy::load] *)

Definition manager_cmp (a b : ManagerEnrollment) : comparison :=
  str_cmp (me_manager_id a) (me_manager_id b).

Definition distinct_neighbours (l : list RoleAssignment) : bool :=
  windows2_all (λ a b, negb (bool_decide (a = b))) l.

Definition within (n : nat) (cap : Z) : bool := (Z.of_nat n <=? cap)%Z.

Definition policy_load (bytes : string) : result PolicyError ValidatedPolicy :=
  ensure? (str_len bytes <=? MAX_POLICY_BYTES)%Z else PolTooLarge in
  ensure? utf8_valid bytes else PolNotUtf8 in
  let? raw := match toml_policy bytes with Some raw => Ok raw | None => Err PolToml end in
  ensure? (raw_schema_version raw =? 1)%Z else PolSchema in
  ensure? negb (raw_generation raw =? 0)%Z else PolGeneration in
  let? cluster := lift_pol PolCluster (name_parse TClusterId (raw_cluster_id raw)) in
  ensure? within (length (raw_principals raw)) MAX_PRINCIPALS else PolPrincipalCap in
  ensure? within (length (raw_assignments raw)) MAX_ASSIGNMENTS else PolAssignmentCap in
  ensure? within (length (raw_manager_enrollments raw)) MAX_MANAGERS else PolManagerCap in
  ensure? within (length (raw_proxy_enrollments raw)) MAX_PROXIES else PolProxyCap in
  ensure? within (length (raw_node_agent_enrollments raw)) MAX_NODE_AGENTS else PolNodeAgentCap in
  ensure? within (length (raw_revoked_leaf_fingerprints raw)) MAX_REVOKED_FINGERPRINTS
    else PolRevocationCap in
  let? principals := load_principals cluster ∅ (raw_principals raw) in
  let? (total, assignments) := load_assignments principals ∅ 0 [] (raw_assignments raw) in
  let assignments := sort_by assignment_cmp assignments in
  ensure? distinct_neighbours assignments else PolDuplicateAssignment in
  let? (seen, managers) :=
    load_managers principals (mkEnrolled ∅ ∅ ∅) [] (raw_manager_enrollments raw) in
  let managers := sort_by manager_cmp managers in
  let? (enrolled, proxies) :=
    validate_nodes principals (en_principals seen) (raw_proxy_enrollments raw) ProxyKind in
  let? (enrolled, node_agents) :=
    validate_nodes principals enrolled (raw_node_agent_enrollments raw) NodeAgent in
  ensure? all_enrolled principals enrolled else PolUnenrolled in
  let? revoked := load_revoked (raw_revoked_leaf_fingerprints raw) in
  let? canonical := canonical (raw_schema_version raw) (raw_generation raw) (name_str cluster)
                      principals assignments managers proxies node_agents revoked in
  ensure? (str_len canonical <=? MAX_POLICY_BYTES)%Z else PolCanonicalTooLarge in
  let digest := hash canonical in
  let? set_hash := manager_set_hash (rollout_targets managers) in
  let validated :=
    mkPolicyV (raw_schema_version raw) (raw_generation raw) (name_str cluster) digest principals
      assignments managers proxies node_agents revoked set_hash
      (mkHeadroom (MAX_POLICY_BYTES - str_len bytes) (MAX_POLICY_BYTES - str_len canonical)
         (MAX_PRINCIPALS - Z.of_nat (size principals))
         (MAX_ASSIGNMENTS - Z.of_nat (length assignments))
         (MAX_SCOPE_VALUES - total)
         (MAX_MANAGERS - Z.of_nat (size (en_manager_ids seen)))
         (MAX_PROXIES - Z.of_nat (length proxies))
         (MAX_NODE_AGENTS - Z.of_nat (length node_agents))
         (MAX_REVOKED_FINGERPRINTS - Z.of_nat (length (raw_revoked_leaf_fingerprints raw)))) in
  let? _ := lift_pol PolSnapshot (build_snapshot validated ProxyPeerV1 0) in
  let? _ := lift_pol PolSnapshot (build_snapshot validated EngineJobAdminV1 0) in
  Ok validated.

(** ** Rollouts *)

Definition manager_targets (p : ValidatedPolicy) : list RolloutTarget :=
  rollout_targets (vp_manager_enrollments p).

Definition rollout_role (kind : PrincipalKind) (role : PolicyRole) : bool :=
  match kind, role with
  | Human, (RAdmin | RInfra) => true
  | ServiceAccount, RDeploy => true
  | _, _ => false
  end.

Definition authorizes_rollout (p : ValidatedPolicy) (principal : string)
    (manager_ids : list string) : bool :=
  match vp_principals p !! principal with
  | None => false
  | Some kind =>
      existsb (λ a,
        String.eqb (ra_principal a) principal && rollout_role kind (ra_role a)
        && match sc_manager_ids (ra_scope a) with
           | None => true
           | Some allowed => forallb (λ id, bool_decide (id ∈ allowed)) manager_ids
           end) (vp_assignments p)
  end.

Record RolloutPrevalidation : Type := mkPrevalidation {
  pv_validator_version : Z;
  pv_schema_version : Z;
  pv_generation : Z;
  pv_digest : string;
  pv_cluster_id : string;
  pv_targets : list RolloutTarget;
  pv_target_set_hash : string;
  pv_caller_principal_uri : string;
  pv_caller_leaf_fingerprint : string;
  pv_caller_can_begin : bool;
}.

Definition AUTHORIZATION_POLICY_VALIDATOR_VERSION : Z := 1.

Definition prevalidate_rollout_claims (p : ValidatedPolicy) (caller leaf : string)
    (expected : list RolloutTarget) : result PolicyError RolloutPrevalidation :=
  let? principal := lift_pol PolPrincipal (principal_uri_parse caller) in
  ensure? String.eqb (name_str (pu_cluster_id principal)) (vp_cluster_id p) else PolCallerCluster in
  ensure? assignable (pu_kind principal) else PolCallerKind in
  ensure? policy_fingerprint leaf else PolCallerFingerprint in
  ensure? negb (bool_decide (leaf ∈ vp_revoked_leaf_fingerprints p)) else PolCallerRevoked in
  let targets := sort_by target_cmp expected in
  ensure? bool_decide (targets = manager_targets p) else PolTargets in
  let allowed := authorizes_rollout p (pu_value principal) (rt_manager_id <$> targets) in
  ensure? allowed else PolNoGrant in
  Ok (mkPrevalidation AUTHORIZATION_POLICY_VALIDATOR_VERSION (vp_schema_version p)
        (vp_generation p) (vp_digest p) (vp_cluster_id p) targets (vp_manager_set_hash p)
        (pu_value principal) leaf allowed).
End load.
