(* ===== verification/PolicyFacts.v ===== *)
(** * What a loaded policy guarantees

    The validator establishes the invariants the rest of the system relies on; in
    particular every snapshot projected from a loaded policy is decoded as intended. *)

From S2P Require Import Prelude RustStr Canonical Utf8 Lists Orders Externals Models Identity Http PolicyTypes Snapshot SnapshotAgree Policy.

(** ** The invariant *)

(** The values of a scope dimension: absent, or a non-empty set of valid names, in which
    case the role allows the dimension. *)
Definition dimension_valid (allowed : bool) (values : option (gset string)) : Prop :=
  ∀ s, values = Some s → allowed = true ∧ s ≠ ∅ ∧ ∀ v, v ∈ s → valid_name v.

Definition assignment_valid (principals : gmap string PrincipalKind) (a : RoleAssignment) : Prop :=
  ∃ kind an ad aq am,
    principals !! ra_principal a = Some kind
    ∧ (kind = Human ∨ kind = ServiceAccount)
    ∧ allowed_dimensions kind (ra_role a) = Ok (an, ad, aq, am)
    ∧ dimension_valid an (sc_namespace_ids (ra_scope a))
    ∧ dimension_valid ad (sc_node_ids (ra_scope a))
    ∧ dimension_valid aq (sc_job_queue_ids (ra_scope a))
    ∧ dimension_valid am (sc_manager_ids (ra_scope a))
    ∧ (scope_count (ra_scope a) ≤ MAX_SCOPE_VALUES_PER_ASSIGNMENT)%Z.

(** Every workload enrollment of a policy: its principal, with the kind of its section. *)
Definition enrollments_of (p : ValidatedPolicy) : list (string * PrincipalKind) :=
  ((λ m, (me_principal m, ManagerKind)) <$> vp_manager_enrollments p)
  ++ ((λ n, (ne_principal n, ProxyKind)) <$> vp_proxy_enrollments p)
  ++ ((λ n, (ne_principal n, NodeAgent)) <$> vp_node_agent_enrollments p).

Definition total_scope (l : list RoleAssignment) : Z :=
  foldr Z.add 0%Z ((λ a, scope_count (ra_scope a)) <$> l).

Definition assignments_of (u : string) (l : list RoleAssignment) : nat :=
  length (filter (λ a, ra_principal a = u) l).

Record policy_valid (p : ValidatedPolicy) : Prop := {
  pv_wf : policy_wf p;
  pv_principals : ∀ u k, vp_principals p !! u = Some k → principal_of (vp_cluster_id p) k u;
  pv_assignments : Forall (assignment_valid (vp_principals p)) (vp_assignments p);
  pv_distinct : NoDup (vp_assignments p);
  pv_per_principal : ∀ u,
    (Z.of_nat (assignments_of u (vp_assignments p)) ≤ MAX_ASSIGNMENTS_PER_PRINCIPAL)%Z;
  pv_total_scope : (total_scope (vp_assignments p) ≤ MAX_SCOPE_VALUES)%Z;
  pv_enrolled_once : NoDup (enrollments_of p).*1;
  pv_enrolled : ∀ u k, (u, k) ∈ enrollments_of p ↔
    vp_principals p !! u = Some k ∧ (k = ManagerKind ∨ k = ProxyKind ∨ k = NodeAgent);
  pv_manager_names : Forall (λ m, me_principal m
      = principal_uri_format (Name (vp_cluster_id p)) ManagerKind (Name (me_manager_id m)))
    (vp_manager_enrollments p);
  pv_manager_ids : NoDup (me_manager_id <$> vp_manager_enrollments p);
  pv_endpoints : NoDup (me_endpoint <$> vp_manager_enrollments p);
  pv_node_ids : Forall (λ n, valid_name (ne_node_id n))
    (vp_proxy_enrollments p ++ vp_node_agent_enrollments p);
}.

(** ** The passes *)

Section facts.
Context `{SH : Sha256Lib, SC : SnapshotCodec, HL : HttpLib, TL : TomlLib}.

Lemma lift_pol_ok {E A} (f : E → PolicyError) (r : result E A) a :
  lift_pol f r = Ok a ↔ r = Ok a.
Proof. destruct r; cbn; naive_solver. Qed.

(** [inv_ok], with the lifted parses and the guards read as propositions. *)
Ltac inv_load H :=
  inv_ok H;
  repeat match goal with E : lift_pol _ _ = Ok _ |- _ => apply lift_pol_ok in E end;
  bool_to_prop.

Lemma parsed_principal value uri :
  principal_uri_parse value = Ok uri →
  pu_value uri = value ∧ valid_name (name_str (pu_cluster_id uri))
  ∧ principal_of (name_str (pu_cluster_id uri)) (pu_kind uri) value
  ∧ value = principal_uri_format (pu_cluster_id uri) (pu_kind uri) (pu_name uri).
Proof.
  intros (c & k & n & Hc & Hn & -> & ->)%principal_uri_parse_iff. cbn.
  split_and!; [done..| |done]. exists (name_str n). by destruct c, n.
Qed.

Lemma load_principals_ok cluster acc items m :
  load_principals cluster acc items = Ok m →
  (∀ u k, acc !! u = Some k → principal_of (name_str cluster) k u) →
  (∀ u k, m !! u = Some k → principal_of (name_str cluster) k u)
  ∧ size m = size acc + length items.
Proof.
  revert acc. induction items as [|item items IH]; intros acc H Hacc; cbn [load_principals] in H.
  { injection H as <-. split; [done|cbn; lia]. }
  inv_load H.
  match goal with E : principal_uri_parse _ = Ok _ |- _ =>
    apply parsed_principal in E as (Hv & _ & Hp & _) end.
  apply IH in H as [Hm Hs].
  - split; [done|]. rewrite Hs, map_size_insert_None by done. cbn. lia.
  - intros u k. rewrite lookup_insert. case_decide; [|apply Hacc].
    intros [= <-]. congruence.
Qed.

Lemma checked_values_ok t acc values s :
  checked_values t acc values = Ok s →
  (∀ v, v ∈ acc → valid_name v) →
  s = list_to_set values ∪ acc ∧ ∀ v, v ∈ s → valid_name v.
Proof.
  revert acc. induction values as [|v values IH]; intros acc H Hacc; cbn [checked_values] in H.
  { injection H as <-. split; [set_solver|done]. }
  inv_load H. match goal with E : name_parse _ _ = Ok _ |- _ => apply name_parse_ok in E as [_ Hv] end.
  apply IH in H as [-> Hs]; [|set_solver]. split; [set_solver|exact Hs].
Qed.

Lemma checked_set_ok t values s allowed :
  checked_set t values = Ok s → dimension_ok s allowed = true → dimension_valid allowed s.
Proof.
  unfold checked_set, dimension_ok. intros H Hd s' ->. destruct values as [values|]; [|done].
  inv_load H. injection H as ->.
  match goal with E : checked_values _ _ _ = Ok _ |- _ => apply checked_values_ok in E as [-> Hv] end;
    [|set_solver].
  rewrite bool_decide_eq_true_2 in Hd by eauto. split; [by destruct Hd|]. split; [|done].
  destruct values; [done|set_solver].
Qed.

Lemma load_assignment_ok principals item a :
  load_assignment principals item = Ok a →
  assignment_valid principals a ∧ ra_principal a = rw_principal item.
Proof.
  unfold load_assignment. destruct (principals !! rw_principal item) as [kind|] eqn:Hk; [|done].
  intros H. inv_ok H. repeat match goal with x : _ * _ |- _ => destruct x end. inv_load H.
  destruct (role_from_str _) eqn:?; [|done]. simplify_eq. split; [|done].
  eexists kind, _, _, _, _. cbn.
  split_and!; [done|by destruct kind; auto|done|by eapply checked_set_ok..|done].
Qed.

Lemma assignments_of_snoc u l a :
  assignments_of u (l ++ [a]) = assignments_of u l + if decide (ra_principal a = u) then 1 else 0.
Proof.
  unfold assignments_of. rewrite filter_app, length_app. f_equal. rewrite filter_cons.
  by case_decide.
Qed.

Lemma total_scope_app l k : total_scope (l ++ k) = (total_scope l + total_scope k)%Z.
Proof. unfold total_scope. induction l; cbn in *; lia. Qed.

Lemma total_scope_perm l k : l ≡ₚ k → total_scope l = total_scope k.
Proof. unfold total_scope. induction 1; cbn in *; lia. Qed.

(** What the loop over the assignments maintains. *)
Record assigned (principals : gmap string PrincipalKind) (counts : gmap string Z) (total : Z)
    (l : list RoleAssignment) : Prop := {
  as_valid : Forall (assignment_valid principals) l;
  as_counts : ∀ u, default 0%Z (counts !! u) = Z.of_nat (assignments_of u l);
  as_caps : ∀ u, (Z.of_nat (assignments_of u l) ≤ MAX_ASSIGNMENTS_PER_PRINCIPAL)%Z;
  as_total : total = total_scope l;
  as_total_cap : (total ≤ MAX_SCOPE_VALUES)%Z;
}.

Lemma assigned_snoc principals counts total l a total' :
  assigned principals counts total l → assignment_valid principals a →
  usize_checked_add total (scope_count (ra_scope a)) = Some total' →
  (total' ≤ MAX_SCOPE_VALUES)%Z →
  (default 0 (counts !! ra_principal a) + 1 ≤ MAX_ASSIGNMENTS_PER_PRINCIPAL)%Z →
  assigned principals (<[ra_principal a := default 0 (counts !! ra_principal a) + 1]> counts)%Z
    total' (l ++ [a]).
Proof.
  intros [Hv Hc Hcap Ht Htc] Ha Hadd Ht' Hone. split.
  - apply Forall_app. by repeat constructor.
  - intros u. rewrite lookup_insert, assignments_of_snoc. case_decide; cbn; [subst; rewrite Hc; lia|].
    rewrite Hc. lia.
  - intros u. rewrite assignments_of_snoc. case_decide; [subst; rewrite Hc in Hone; lia|].
    rewrite Nat.add_0_r. apply Hcap.
  - unfold usize_checked_add in Hadd. destruct (_ <=? _)%Z; [|done]. injection Hadd as <-.
    rewrite total_scope_app, Ht. unfold total_scope. cbn. lia.
  - done.
Qed.

Lemma load_assignments_ok principals counts total acc items total' l :
  load_assignments principals counts total acc items = Ok (total', l) →
  assigned principals counts total acc →
  (∃ counts', assigned principals counts' total' l) ∧ length l = length acc + length items.
Proof.
  revert counts total acc. induction items as [|item items IH]; intros counts total acc H Hacc;
    cbn [load_assignments] in H.
  { injection H as <- <-. split; [by eexists|cbn; lia]. }
  inv_ok H. rename x into a. rename H0 into Ha. apply load_assignment_ok in Ha as [Ha _].
  destruct (usize_checked_add _ _) eqn:Hadd; [|done]. inv_load H.
  apply IH in H as [Hc Hl]; [|by eapply assigned_snoc].
  split; [done|]. rewrite Hl, length_app. cbn. lia.
Qed.

(** The loops over enrollments: the set of the principals seen is that of the list. *)
Definition manager_enrolled (principals : gmap string PrincipalKind) (m : ManagerEnrollment) : Prop :=
  principals !! me_principal m = Some ManagerKind ∧ valid_name (me_manager_id m)
  ∧ ∃ uri, principal_uri_parse (me_principal m) = Ok uri ∧ name_str (pu_name uri) = me_manager_id m.

Record managers_seen (principals : gmap string PrincipalKind) (seen : Enrolled)
    (l : list ManagerEnrollment) : Prop := {
  ms_items : Forall (manager_enrolled principals) l;
  ms_principals : ∀ u, u ∈ en_principals seen ↔ u ∈ me_principal <$> l;
  ms_ids : ∀ u, u ∈ en_manager_ids seen ↔ u ∈ me_manager_id <$> l;
  ms_endpoints : ∀ u, u ∈ en_endpoints seen ↔ u ∈ me_endpoint <$> l;
  ms_once : NoDup (me_principal <$> l);
  ms_unique_ids : NoDup (me_manager_id <$> l);
  ms_unique_endpoints : NoDup (me_endpoint <$> l);
}.

Lemma fmap_snoc_NoDup {A} (f : A → string) (s : gset string) l x :
  (∀ u, u ∈ s ↔ u ∈ f <$> l) → f x ∉ s → NoDup (f <$> l) →
  NoDup (f <$> l ++ [x]) ∧ ∀ u, u ∈ {[f x]} ∪ s ↔ u ∈ f <$> l ++ [x].
Proof.
  intros Hs Hx Hnd. rewrite fmap_app. split.
  - apply NoDup_app. split_and!; [done| |apply NoDup_singleton].
    intros y Hy Hyx. apply list_elem_of_singleton in Hyx as ->. by apply Hx, Hs.
  - intros u. rewrite elem_of_union, elem_of_singleton, Hs, elem_of_app. cbn.
    rewrite list_elem_of_singleton. naive_solver.
Qed.

Lemma load_managers_ok principals seen acc items seen' l :
  load_managers principals seen acc items = Ok (seen', l) →
  managers_seen principals seen acc →
  managers_seen principals seen' l ∧ length l = length acc + length items.
Proof.
  revert seen acc. induction items as [|item items IH]; intros seen acc H Hacc;
    cbn [load_managers] in H.
  { injection H as <- <-. split; [done|cbn; lia]. }
  inv_load H.
  match goal with E : principal_uri_parse _ = Ok _ |- _ =>
    pose proof E as Hparse; apply parsed_principal in E as (Hv & _) end.
  match goal with E : name_parse _ _ = Ok _ |- _ => apply name_parse_ok in E as [_ Hid] end.
  match goal with E : String.eqb _ _ = true |- _ => apply String.eqb_eq in E end.
  apply IH in H as [Hl Hn]; [split; [done|]; rewrite Hn, length_app; cbn; lia|].
  set (m := mkManagerEnrollment (rm_principal item) (rm_manager_id item) (rm_endpoint item)).
  destruct Hacc as [Hi Hp Hm He Ho Hu Hue].
  destruct (fmap_snoc_NoDup me_principal (en_principals seen) acc m) as [N1 E1]; [done..|].
  destruct (fmap_snoc_NoDup me_manager_id (en_manager_ids seen) acc m) as [N2 E2]; [done..|].
  destruct (fmap_snoc_NoDup me_endpoint (en_endpoints seen) acc m) as [N3 E3]; [done..|].
  split; [|done..]. apply Forall_app. split; [done|]. constructor; [|constructor].
  rewrite Hv in *. split; [done|]. split; [done|]. by eexists.
Qed.

Record nodes_seen (principals : gmap string PrincipalKind) (expected : PrincipalKind)
    (before enrolled : gset string) (l : list NodeEnrollment) : Prop := {
  ns_items : Forall (λ n, principals !! ne_principal n = Some expected
                          ∧ valid_name (ne_node_id n)) l;
  ns_seen : ∀ u, u ∈ enrolled ↔ u ∈ before ∨ u ∈ ne_principal <$> l;
  ns_once : NoDup (ne_principal <$> l);
  ns_new : ∀ u, u ∈ ne_principal <$> l → u ∉ before;
}.

Lemma load_nodes_ok principals expected before enrolled acc items enrolled' l :
  load_nodes principals expected enrolled acc items = Ok (enrolled', l) →
  nodes_seen principals expected before enrolled acc →
  nodes_seen principals expected before enrolled' l ∧ length l = length acc + length items.
Proof.
  revert enrolled acc. induction items as [|item items IH]; intros enrolled acc H Hacc;
    cbn [load_nodes] in H.
  { injection H as <- <-. split; [done|cbn; lia]. }
  inv_load H.
  match goal with E : principal_uri_parse _ = Ok _ |- _ => apply parsed_principal in E as (Hv & _) end.
  match goal with E : name_parse _ _ = Ok _ |- _ => apply name_parse_ok in E as [_ Hid] end.
  apply IH in H as [Hl Hn]; [split; [done|]; rewrite Hn, length_app; cbn; lia|].
  rewrite Hv in *. destruct Hacc as [Hi Hs Ho Hnew]. split.
  - apply Forall_app. split; [done|]. apply Forall_singleton. done.
  - intros u. rewrite elem_of_union, elem_of_singleton, Hs, fmap_app, elem_of_app. cbn.
    rewrite list_elem_of_singleton. naive_solver.
  - rewrite fmap_app. apply NoDup_app. split_and!; [done| |apply NoDup_singleton].
    intros y Hy Hyx. apply list_elem_of_singleton in Hyx as ->. cbn in *.
    match goal with E : _ ∉ enrolled |- _ => apply E, Hs; by right end.
  - intros u. rewrite fmap_app, elem_of_app. cbn. rewrite list_elem_of_singleton.
    intros [Hu| ->]; [by apply Hnew|]. intros Hb.
    match goal with E : _ ∉ enrolled |- _ => apply E, Hs; by left end.
Qed.

Lemma validate_nodes_ok principals before items expected enrolled l :
  validate_nodes principals before items expected = Ok (enrolled, l) →
  nodes_seen principals expected before enrolled l ∧ length l = length items.
Proof.
  unfold validate_nodes. intros H. inv_ok H. simplify_eq.
  apply (load_nodes_ok _ _ before) in H0 as [[H1 H2 H3 H4] Hl].
  - rewrite (Permutation_length (sort_by_perm _ _)). split; [|exact Hl].
    split; [by rewrite sort_by_perm| |by rewrite sort_by_perm|].
    + intros u. by rewrite H2, sort_by_perm.
    + intros u. rewrite sort_by_perm. apply H4.
  - split; [constructor|set_solver|constructor|set_solver].
Qed.

Lemma elem_of_btree_entries {A} (m : gmap string A) u x : (u, x) ∈ btree_entries m ↔ m !! u = Some x.
Proof. unfold btree_entries. by rewrite sort_by_perm, elem_of_map_to_list. Qed.

Lemma all_enrolled_ok principals enrolled u k :
  all_enrolled principals enrolled = true → principals !! u = Some k → is_workload k = true →
  u ∈ enrolled.
Proof.
  unfold all_enrolled. rewrite forallb_forall. intros H Hu Hk.
  apply elem_of_btree_entries, list_elem_of_In, H in Hu. rewrite Hk in Hu. cbn in Hu.
  by apply bool_decide_eq_true in Hu.
Qed.

Lemma fingerprint_valid_digest v : policy_fingerprint v = valid_digest v.
Proof.
  unfold policy_fingerprint, valid_digest. f_equal. apply eq_true_iff_eq.
  split; apply str_all_impl; intros c; unfold is_ascii_hexdigit, is_ascii_digit, is_ascii_uppercase;
    rewrite ?andb_true_iff, ?negb_true_iff, !orb_true_iff, ?not_true_iff_false, !byte_in_spec.
  - intros Hc. split; [lia|]. apply not_true_iff_false. rewrite byte_in_spec. lia.
  - intros [Hc Hu]. apply not_true_iff_false in Hu. rewrite byte_in_spec in Hu. lia.
Qed.

Lemma load_revoked_ok values s :
  load_revoked values = Ok s →
  (∀ f, f ∈ s ↔ f ∈ values) ∧ (∀ f, f ∈ s → valid_digest f = true) ∧ size s = length values.
Proof.
  unfold load_revoked. intros H. inv_load H. injection H as <-.
  split; [intros f; apply elem_of_list_to_set|]. split; [|lia].
  intros f Hf%elem_of_list_to_set%list_elem_of_In. rewrite <-fingerprint_valid_digest.
  by eapply forallb_forall.
Qed.

Lemma btree_elements_inj s t : btree_elements s = btree_elements t → s = t.
Proof.
  intros E. apply set_eq. intros x. by rewrite <-!elem_of_btree_elements, E.
Qed.

#[local] Instance set_ord : Ord (λ a b, list_cmp str_cmp (btree_elements a) (btree_elements b)).
Proof. apply ord_pullback. intros s t. apply btree_elements_inj. Qed.

#[local] Instance opt_set_ord : Ord opt_set_cmp.
Proof. apply option_ord. Qed.

Lemma role_rank_inj r q : role_rank r = role_rank q → r = q.
Proof. by destruct r, q. Qed.

#[local] Instance scope_ord : Ord scope_cmp.
Proof.
  apply (ord_pullback
    (cmp := pair_cmp opt_set_cmp (pair_cmp opt_set_cmp (pair_cmp opt_set_cmp opt_set_cmp)))
    (λ s, (sc_namespace_ids s, (sc_node_ids s, (sc_job_queue_ids s, sc_manager_ids s))))).
  intros [] []. cbn. congruence.
Qed.

#[local] Instance assignment_ord : Ord assignment_cmp.
Proof.
  apply (ord_pullback
    (cmp := pair_cmp str_cmp (pair_cmp Z.compare scope_cmp))
    (λ a, (ra_principal a, (role_rank (ra_role a), ra_scope a)))).
  intros [] []. cbn. intros [= -> ->%role_rank_inj ->]. done.
Qed.

Lemma distinct_assignments l :
  distinct_neighbours (sort_by assignment_cmp l) = true → NoDup (sort_by assignment_cmp l).
Proof.
  apply (sorted_neighbours_NoDup (cmp := assignment_cmp)); [|apply ord_sorted].
  intros x. by rewrite bool_decide_eq_true_2.
Qed.

(** ** A successful load *)

(** What a successful load went through, pass by pass. *)
Record load_run (raw : RawPolicy) (p : ValidatedPolicy) : Prop := {
  lr_schema : raw_schema_version raw = 1%Z ∧ vp_schema_version p = 1%Z;
  lr_generation : vp_generation p = raw_generation raw ∧ raw_generation raw ≠ 0%Z;
  lr_cluster : valid_name (vp_cluster_id p);
  lr_principals : load_principals (Name (vp_cluster_id p)) ∅ (raw_principals raw)
                  = Ok (vp_principals p);
  lr_assignments : ∃ total l,
    load_assignments (vp_principals p) ∅ 0 [] (raw_assignments raw) = Ok (total, l)
    ∧ vp_assignments p = sort_by assignment_cmp l ∧ distinct_neighbours (vp_assignments p) = true;
  lr_enrolled : ∃ seen l enrolled enrolled',
    load_managers (vp_principals p) (mkEnrolled ∅ ∅ ∅) [] (raw_manager_enrollments raw) = Ok (seen, l)
    ∧ vp_manager_enrollments p = sort_by manager_cmp l
    ∧ validate_nodes (vp_principals p) (en_principals seen) (raw_proxy_enrollments raw) ProxyKind
      = Ok (enrolled, vp_proxy_enrollments p)
    ∧ validate_nodes (vp_principals p) enrolled (raw_node_agent_enrollments raw) NodeAgent
      = Ok (enrolled', vp_node_agent_enrollments p)
    ∧ all_enrolled (vp_principals p) enrolled' = true;
  lr_revoked : load_revoked (raw_revoked_leaf_fingerprints raw) = Ok (vp_revoked_leaf_fingerprints p);
  lr_digest : ∃ bytes,
    canonical (vp_schema_version p) (vp_generation p) (vp_cluster_id p) (vp_principals p)
      (vp_assignments p) (vp_manager_enrollments p) (vp_proxy_enrollments p)
      (vp_node_agent_enrollments p) (vp_revoked_leaf_fingerprints p) = Ok bytes
    ∧ vp_digest p = hash bytes;
  lr_set_hash : manager_set_hash (manager_targets p) = Ok (vp_manager_set_hash p);
  lr_caps : within (length (raw_manager_enrollments raw)) MAX_MANAGERS = true
    ∧ within (length (raw_proxy_enrollments raw)) MAX_PROXIES = true
    ∧ within (length (raw_revoked_leaf_fingerprints raw)) MAX_REVOKED_FINGERPRINTS = true;
}.

Lemma policy_load_run bytes p :
  policy_load bytes = Ok p → ∃ raw, toml_policy bytes = Some raw ∧ load_run raw p.
Proof.
  unfold policy_load. intros H. inv_ok H.
  destruct (toml_policy bytes) as [raw|] eqn:Htoml; [|discriminate]. simplify_eq.
  match goal with E : lift_pol _ (name_parse _ _) = Ok _ |- _ =>
    apply lift_pol_ok, name_parse_ok in E as [-> Hc] end.
  eexists. split; [reflexivity|]. bool_to_prop.
  split; cbn [vp_schema_version vp_generation vp_cluster_id vp_principals vp_assignments
    vp_manager_enrollments vp_proxy_enrollments vp_node_agent_enrollments
    vp_revoked_leaf_fingerprints vp_digest vp_manager_set_hash name_str];
    eauto 10.
Qed.

Lemma no_managers_seen principals : managers_seen principals (mkEnrolled ∅ ∅ ∅) [].
Proof. split; cbn; first [apply NoDup_nil_2|apply Forall_nil_2|set_solver]. Qed.

Lemma enrolled_sound p raw : load_run raw p →
  (∀ u k, (u, k) ∈ enrollments_of p → vp_principals p !! u = Some k ∧ is_workload k = true)
  ∧ (∀ u k, vp_principals p !! u = Some k → is_workload k = true → u ∈ (enrollments_of p).*1)
  ∧ NoDup (enrollments_of p).*1.
Proof.
  intros [_ _ _ _ _ (seen & l & e1 & e2 & Hm & El & Hp & Hn & Hall) _ _ _ _].
  apply load_managers_ok in Hm as [[Mi Mp _ _ Mo _ _] _]; [|apply no_managers_seen].
  apply validate_nodes_ok in Hp as [[Pi Ps Po Pn] _]. apply validate_nodes_ok in Hn as [[Ni Ns No Nn] _].
  assert ((enrollments_of p).*1 = (me_principal <$> vp_manager_enrollments p)
    ++ (ne_principal <$> vp_proxy_enrollments p) ++ (ne_principal <$> vp_node_agent_enrollments p))
    as E1.
  { unfold enrollments_of. rewrite !fmap_app, <-!list_fmap_compose. done. }
  rewrite E1, El. split_and!.
  - intros u k. unfold enrollments_of. rewrite El, sort_by_perm, !elem_of_app, !list_elem_of_fmap.
    rewrite !Forall_forall in *. intros [(x & [= -> ->] & Hx)|[(x & [= -> ->] & Hx)|(x & [= -> ->] & Hx)]].
    + split; [|done]. apply (Mi _ Hx).
    + split; [|done]. apply (Pi _ Hx).
    + split; [|done]. apply (Ni _ Hx).
  - intros u k Hu Hk. rewrite !elem_of_app, sort_by_perm.
    apply (all_enrolled_ok _ _ _ _ Hall Hu), Ns in Hk. rewrite Ps, Mp in Hk. tauto.
  - rewrite sort_by_perm. apply NoDup_app. split_and!; [done| |].
    + intros u Hu. apply Mp in Hu. rewrite elem_of_app. intros [Hq|Hq].
      * by apply Pn in Hq.
      * apply Nn in Hq. apply Hq, Ps. by left.
    + apply NoDup_app. split_and!; [done| |done].
      intros u Hu Hq. apply Nn in Hq. apply Hq, Ps. by right.
Qed.

Lemma within_le n cap : within n cap = true → (Z.of_nat n ≤ cap)%Z.
Proof. apply Z.leb_le. Qed.

Lemma run_principals raw p u k :
  load_run raw p → vp_principals p !! u = Some k → principal_of (vp_cluster_id p) k u.
Proof.
  intros Hr. destruct (load_principals_ok _ _ _ _ (lr_principals _ _ Hr)) as [H _]; [|apply H].
  intros v q. by rewrite lookup_empty.
Qed.

Lemma run_managers raw p :
  load_run raw p →
  Forall (manager_enrolled (vp_principals p)) (vp_manager_enrollments p)
  ∧ NoDup (me_principal <$> vp_manager_enrollments p)
  ∧ NoDup (me_manager_id <$> vp_manager_enrollments p)
  ∧ NoDup (me_endpoint <$> vp_manager_enrollments p)
  ∧ (Z.of_nat (length (vp_manager_enrollments p)) ≤ MAX_MANAGERS)%Z.
Proof.
  intros [_ _ _ _ _ (seen & l & _ & _ & Hm & -> & _) _ _ _ [Hcap _]].
  apply load_managers_ok in Hm as [[Mi _ _ _ Mo Mu Me] Hl]; [|apply no_managers_seen].
  repeat apply conj; [by rewrite sort_by_perm..|].
  rewrite (Permutation_length (sort_by_perm _ _)), Hl. by apply within_le.
Qed.

Lemma run_managers_wf raw p :
  load_run raw p →
  workloads_wf (vp_cluster_id p) ManagerKind MAX_MANAGERS (projected_enrollments p EngineJobAdminV1).
Proof.
  intros Hr. destruct (run_managers _ _ Hr) as (Hi & Ho & _ & _ & Hcap).
  cbn [projected_enrollments]. split.
  - apply Forall_fmap. eapply Forall_impl; [exact Hi|]. intros m (Hp & Hid & _).
    split; [by eapply run_principals|done].
  - by rewrite <-list_fmap_compose.
  - by rewrite length_fmap.
Qed.

Lemma run_proxies_wf raw p :
  load_run raw p →
  workloads_wf (vp_cluster_id p) ProxyKind MAX_PROXIES (projected_enrollments p ProxyPeerV1).
Proof.
  intros Hr. pose proof Hr as [_ _ _ _ _ (seen & l & e & _ & _ & _ & Hn & _) _ _ _ (_ & Hcap & _)].
  apply validate_nodes_ok in Hn as [[Hi _ Ho _] Hl]. cbn [projected_enrollments]. split.
  - apply Forall_fmap. eapply Forall_impl; [exact Hi|]. intros n [Hp Hid].
    split; [by eapply run_principals|done].
  - by rewrite <-list_fmap_compose.
  - rewrite length_fmap, Hl. by apply within_le.
Qed.

Lemma hash_valid bytes : valid_digest (hash bytes) = true.
Proof. apply prefixed_hash_valid. Qed.

Lemma run_wf bytes raw p : toml_policy bytes = Some raw → load_run raw p → policy_wf p.
Proof.
  intros Ht Hr. pose proof (toml_policy_widths _ _ Ht) as [_ Hw].
  pose proof Hr as [_ [Hg Hg0] Hc _ _ _ Hv (b & _ & Hd) _ (_ & _ & Hcap)].
  apply load_revoked_ok in Hv as (_ & Hv & Hs). split.
  - done.
  - rewrite Hg. lia.
  - rewrite Hd. apply hash_valid.
  - by eapply run_managers_wf.
  - by eapply run_proxies_wf.
  - done.
  - rewrite Hs. by apply within_le.
Qed.

Lemma run_assignments raw p :
  load_run raw p → ∃ counts total, assigned (vp_principals p) counts total (vp_assignments p).
Proof.
  intros [_ _ _ _ (total & l & Hl & E & _) _ _ _ _ _].
  apply load_assignments_ok in Hl as [(counts & [Hv Hc Hcap Ht Htc]) _].
  - exists counts, total. rewrite E.
    assert (∀ u, assignments_of u (sort_by assignment_cmp l) = assignments_of u l) as Ea.
    { intros u. unfold assignments_of. by rewrite sort_by_perm. }
    split; [by rewrite sort_by_perm|by setoid_rewrite Ea|by setoid_rewrite Ea| |done].
    rewrite Ht. symmetry. apply total_scope_perm, sort_by_perm.
  - split; [constructor|by intros u; rewrite lookup_empty|by vm_compute|done|by vm_compute].
Qed.

Lemma run_manager_names raw p :
  load_run raw p →
  Forall (λ m, me_principal m
      = principal_uri_format (Name (vp_cluster_id p)) ManagerKind (Name (me_manager_id m)))
    (vp_manager_enrollments p).
Proof.
  intros Hr. destruct (run_managers _ _ Hr) as (Hi & _). eapply Forall_impl; [exact Hi|].
  intros m (Hp & _ & uri & Hu & Hn).
  destruct (run_principals _ _ _ _ Hr Hp) as (n & Hvn & E).
  assert (principal_uri_parse (me_principal m)
    = Ok (principal_uri_new (Name (vp_cluster_id p)) ManagerKind (Name n))) as Hu'.
  { apply principal_uri_parse_iff. exists (Name (vp_cluster_id p)), ManagerKind, (Name n).
    split_and!; [apply (lr_cluster _ _ Hr)|done..]. }
  rewrite Hu in Hu'. injection Hu' as ->. cbn in Hn. by rewrite E, Hn.
Qed.

Lemma run_node_ids raw p :
  load_run raw p →
  Forall (λ n, valid_name (ne_node_id n)) (vp_proxy_enrollments p ++ vp_node_agent_enrollments p).
Proof.
  intros [_ _ _ _ _ (? & ? & ? & ? & _ & _ & Hp & Hn & _) _ _ _ _].
  apply validate_nodes_ok in Hp as [[Hp _ _ _] _]. apply validate_nodes_ok in Hn as [[Hn _ _ _] _].
  apply Forall_app. split; (eapply Forall_impl; [eassumption|]); by intros ? [_ ?].
Qed.

Lemma policy_load_valid bytes p : policy_load bytes = Ok p → policy_valid p.
Proof.
  intros (raw & Ht & Hr)%policy_load_run.
  destruct (enrolled_sound _ _ Hr) as (Hes & Hec & Hno).
  destruct (run_assignments _ _ Hr) as (counts & total & [Hv Hc Hcap Htt Htc]).
  destruct (run_managers _ _ Hr) as (_ & _ & Hids & Heps & _).
  split; [by eapply run_wf|by intros; eapply run_principals|done| |done|lia|done| |
    by eapply run_manager_names|done|done|by eapply run_node_ids].
  - destruct Hr as [_ _ _ _ (? & l & _ & E & Hd) _ _ _ _ _]. rewrite E in Hd |- *.
    by apply distinct_assignments.
  - intros u k. split.
    + intros [Hu Hk]%Hes. split; [done|]. destruct k; try done; auto.
    + intros [Hu Hk]. destruct (proj1 (list_elem_of_fmap _ _ _) (Hec u k Hu
        ltac:(by destruct Hk as [->|[->| ->]]))) as ([u' k'] & -> & Hin).
      destruct (Hes _ _ Hin) as [Hu' _]. cbn in *. congruence.
Qed.

(** C12. A policy the validator accepts satisfies the invariants the system relies on. Its
    principals are well-formed identities of its cluster; only humans and service accounts
    hold roles, each role one its kind may hold, restricted only along the dimensions the
    role allows, to non-empty sets of valid names; no assignment is repeated and the caps
    on assignments and scopes hold. Every manager, proxy and node agent declared is enrolled
    exactly once, in the section of its kind, and nothing else is; manager ids (which name
    the principals) and endpoints are unique, and node ids are valid names. *)
Theorem loaded_policy_valid bytes p : policy_load bytes = Ok p → policy_valid p.
Proof. apply policy_load_valid. Qed.

(** ** The canonical encoding is a prefix code *)

Lemma policy_push_u32_code v w a b r s :
  (0 ≤ v)%Z → (0 ≤ w)%Z → policy_push_u32 v = Ok a → policy_push_u32 w = Ok b →
  a +:+ r = b +:+ s → v = w ∧ r = s.
Proof. apply enc_u32_code. Qed.

Lemma push_str_code : prefix_code policy_push_str.
Proof. apply enc_str_code. Qed.

Lemma push_counted_code {A} (f : A → result PolicyError string) :
  prefix_code f → prefix_code (push_counted f).
Proof. apply enc_counted_code. Qed.

Lemma push_opt_set_code : prefix_code push_opt_set.
Proof.
  intros x y a b r s Ha Hb E. unfold push_opt_set in *.
  destruct x as [x|], y as [y|]; inv_ok Ha; inv_ok Hb; apply ok_inj in Ha as <-; apply ok_inj in Hb as <-; rewrite ?str_app_assoc in E;
    (apply str_app_inj_length in E as [E1 E]; [|done]); try discriminate E1.
  - eapply (prefix_code_pullback (push_counted policy_push_str) btree_elements) in E as [-> ->];
      [done| |intros ?? ; apply btree_elements_inj|done..].
    apply push_counted_code, push_str_code.
  - done.
Qed.

Lemma principal_kind_as_str_inj k q : principal_kind_as_str k = principal_kind_as_str q → k = q.
Proof. by destruct k, q. Qed.

Lemma role_as_str_inj r q : role_as_str r = role_as_str q → r = q.
Proof. by destruct r, q. Qed.

#[local] Hint Resolve push_str_code push_pair_code push_counted_code push_opt_set_code : codes.

Lemma push_principal_code : prefix_code push_principal.
Proof.
  apply push_pair_code; [auto with codes|]. apply prefix_code_pullback; [auto with codes|].
  intros ??. apply principal_kind_as_str_inj.
Qed.

Lemma push_assignment_code : prefix_code push_assignment.
Proof.
  apply (prefix_code_pullback (push_pair policy_push_str (push_pair policy_push_str
    (push_pair push_opt_set (push_pair push_opt_set (push_pair push_opt_set push_opt_set)))))
    (λ a, (ra_principal a, (role_as_str (ra_role a), (sc_namespace_ids (ra_scope a),
      (sc_node_ids (ra_scope a), (sc_job_queue_ids (ra_scope a), sc_manager_ids (ra_scope a)))))))).
  - auto 10 with codes.
  - intros [? ? []] [? ? []]. cbn. intros [= -> ->%role_as_str_inj -> -> -> ->]. done.
Qed.

Lemma push_manager_code : prefix_code push_manager.
Proof.
  apply (prefix_code_pullback (push_pair policy_push_str (push_pair policy_push_str policy_push_str))
    (λ m, (me_principal m, (me_manager_id m, me_endpoint m)))); [auto with codes|].
  intros [] []. cbn. congruence.
Qed.

Lemma push_node_code : prefix_code push_node.
Proof.
  apply (prefix_code_pullback (push_pair policy_push_str policy_push_str)
    (λ n, (ne_principal n, ne_node_id n))); [auto with codes|].
  intros [] []. cbn. congruence.
Qed.
#[local] Hint Resolve push_principal_code push_assignment_code push_manager_code push_node_code : codes.

Definition canonical_of (p : ValidatedPolicy) : result PolicyError string :=
  canonical (vp_schema_version p) (vp_generation p) (vp_cluster_id p) (vp_principals p)
    (vp_assignments p) (vp_manager_enrollments p) (vp_proxy_enrollments p)
    (vp_node_agent_enrollments p) (vp_revoked_leaf_fingerprints p).

(** Everything a policy decides. *)
Definition same_policy (p q : ValidatedPolicy) : Prop :=
  vp_generation p = vp_generation q ∧ vp_cluster_id p = vp_cluster_id q
  ∧ vp_principals p = vp_principals q ∧ vp_assignments p = vp_assignments q
  ∧ vp_manager_enrollments p = vp_manager_enrollments q
  ∧ vp_proxy_enrollments p = vp_proxy_enrollments q
  ∧ vp_node_agent_enrollments p = vp_node_agent_enrollments q
  ∧ vp_revoked_leaf_fingerprints p = vp_revoked_leaf_fingerprints q.

Lemma btree_entries_inj {A} (m k : gmap string A) : btree_entries m = btree_entries k → m = k.
Proof.
  intros E. apply map_eq. intros u. apply option_eq. intros x. by rewrite <-!elem_of_btree_entries, E.
Qed.

Lemma counted_step {A} (f : A → result PolicyError string) l k a b r s :
  push_counted f l = Ok a → push_counted f k = Ok b → a +:+ r = b +:+ s → prefix_code f →
  l = k ∧ r = s.
Proof. intros Ha Hb E Hf. by eapply push_counted_code. Qed.

Lemma canonical_inj p q x :
  (0 ≤ vp_generation p ≤ U64_MAX)%Z → (0 ≤ vp_generation q ≤ U64_MAX)%Z →
  canonical_of p = Ok x → canonical_of q = Ok x → same_policy p q.
Proof.
  unfold canonical_of, canonical. intros Hp Hq Ha Hb. inv_ok Ha. inv_ok Hb.
  apply ok_inj in Ha as <-. apply ok_inj in Hb. rename Hb into E.
  apply str_app_inj_length in E as [_ E]; [|done].
  apply str_app_inj_length in E as [_ E]; [|by rewrite !length_be_bytes].
  apply str_app_inj_length in E as [Eg E]; [|by rewrite !length_be_bytes].
  unfold U64_MAX in *. apply be_bytes_inj in Eg; [|cbn; lia..].
  eapply push_str_code in E as [Ec E]; [|eassumption..].
  eapply counted_step in E as [E1 E]; [|eassumption..|auto with codes].
  eapply counted_step in E as [E2 E]; [|eassumption..|auto with codes].
  eapply counted_step in E as [E3 E]; [|eassumption..|auto with codes].
  eapply counted_step in E as [E4 E]; [|eassumption..|auto with codes].
  eapply counted_step in E as [E5 E]; [|eassumption..|auto with codes].
  rewrite <-(str_app_nil_r x6), <-(str_app_nil_r x13) in E.
  eapply counted_step in E as [E6 _]; [|eassumption..|auto with codes].
  split_and!; try congruence; [by apply btree_entries_inj|by apply btree_elements_inj].
Qed.

(** The digest covers the whole policy. It is the SHA-256 of a canonical encoding, and
    two accepted documents have the same encoding exactly when they decide the same:
    generation, cluster, principals, assignments, enrollments and revocations. *)
Theorem policy_digest_covers_policy bytes1 bytes2 p q :
  policy_load bytes1 = Ok p → policy_load bytes2 = Ok q →
  ∃ x y, canonical_of p = Ok x ∧ canonical_of q = Ok y
    ∧ vp_digest p = "sha256:" +:+ sha256_hex x ∧ vp_digest q = "sha256:" +:+ sha256_hex y
    ∧ (x = y ↔ same_policy p q).
Proof.
  intros (r1 & T1 & R1)%policy_load_run (r2 & T2 & R2)%policy_load_run.
  pose proof (pw_generation _ (run_wf _ _ _ T1 R1)).
  pose proof (pw_generation _ (run_wf _ _ _ T2 R2)).
  pose proof (lr_schema _ _ R1) as [_ S1]. pose proof (lr_schema _ _ R2) as [_ S2].
  destruct (lr_digest _ _ R1) as (x & Hx & Dx). destruct (lr_digest _ _ R2) as (y & Hy & Dy).
  exists x, y. split; [exact Hx|]. split; [exact Hy|]. split; [exact Dx|]. split; [exact Dy|]. split.
  - intros <-. eapply canonical_inj; [lia|lia|exact Hx|exact Hy].
  - intros (E1 & E2 & E3 & E4 & E5 & E6 & E7 & E8). apply (ok_inj (E := PolicyError)).
    rewrite <-Hx, <-Hy. by rewrite S1, S2, E1, E2, E3, E4, E5, E6, E7, E8.
Qed.

(** The policy enrolls a principal for a projection and does not revoke its certificate. *)
Definition enrolled_for (p : ValidatedPolicy) (kind : WorkloadProjectionKind)
    (principal fingerprint : string) : Prop :=
  principal ∈ we_principal_uri <$> projected_enrollments p kind
  ∧ fingerprint ∉ vp_revoked_leaf_fingerprints p.

(** C13. Managers and their consumers agree on who is enrolled. Whatever a manager builds
    from an accepted policy, for proxy peers or for engine job administration, a consumer of
    the cluster decodes at any time of the snapshot's thirty seconds (with up to five
    seconds of clock skew); the result carries the policy's generation and digest, and it
    admits a principal with a leaf certificate exactly when the policy enrolls that
    principal for the projection and does not revoke the certificate. *)
Theorem snapshot_agreement document p kind now bytes wall :
  policy_load document = Ok p → build_snapshot p kind now = Ok bytes →
  (now ≤ wall + MAX_FUTURE_SKEW)%Z → (0 ≤ wall)%Z → (wall < now + SNAPSHOT_VALIDITY)%Z →
  ∃ s, decode_snapshot bytes (vp_cluster_id p) kind wall = Some (Ok s)
    ∧ si_generation (snapshot_identity s) = vp_generation p
    ∧ si_policy_digest (snapshot_identity s) = vp_digest p
    ∧ ∀ principal fingerprint,
        admits s principal fingerprint = true ↔ enrolled_for p kind principal fingerprint.
Proof.
  intros (raw & Ht & Hr)%policy_load_run. apply built_snapshot_agrees. by eapply run_wf.
Qed.

(** ** Rollouts *)

(** One assignment that lets a principal roll out to every enrolled manager. *)
Definition complete_grant (p : ValidatedPolicy) (principal : string) : Prop :=
  ∃ kind a, vp_principals p !! principal = Some kind ∧ a ∈ vp_assignments p
    ∧ ra_principal a = principal
    ∧ (kind = Human ∧ (ra_role a = RAdmin ∨ ra_role a = RInfra)
       ∨ kind = ServiceAccount ∧ ra_role a = RDeploy)
    ∧ ∀ allowed, sc_manager_ids (ra_scope a) = Some allowed →
        ∀ m, m ∈ vp_manager_enrollments p → me_manager_id m ∈ allowed.

Lemma rollout_role_spec kind role :
  rollout_role kind role = true
  ↔ kind = Human ∧ (role = RAdmin ∨ role = RInfra) ∨ kind = ServiceAccount ∧ role = RDeploy.
Proof. destruct kind, role; cbn; naive_solver. Qed.

Lemma authorizes_rollout_spec p principal :
  authorizes_rollout p principal (rt_manager_id <$> manager_targets p) = true
  ↔ complete_grant p principal.
Proof.
  unfold authorizes_rollout, complete_grant.
  destruct (vp_principals p !! principal) as [kind|]; [|naive_solver].
  rewrite existsb_exists.
  replace (rt_manager_id <$> manager_targets p) with (me_manager_id <$> vp_manager_enrollments p)
    by (unfold manager_targets, rollout_targets; by rewrite <-list_fmap_compose).
  split.
  - intros (a & Ha%list_elem_of_In & H). bool_to_prop.
    match goal with E : String.eqb _ _ = true |- _ => apply String.eqb_eq in E end.
    match goal with E : rollout_role _ _ = true |- _ => apply rollout_role_spec in E end.
    exists kind, a. split_and!; [done..|]. intros allowed E m Hm. rewrite E in *.
    match goal with E : forallb _ _ = true |- _ =>
      rewrite forallb_forall in E; specialize (E (me_manager_id m)) end.
    rewrite bool_decide_eq_true, <-list_elem_of_In in *.
    match goal with E : _ → me_manager_id m ∈ allowed |- _ => apply E end.
    by apply (list_elem_of_fmap_2 me_manager_id).
  - intros (k & a & [= <-] & Ha & <- & Hr & Hall). exists a. split; [by apply list_elem_of_In|].
    rewrite !andb_true_iff. split; [split; [apply String.eqb_refl|by apply rollout_role_spec]|].
    destruct (sc_manager_ids _) as [allowed|]; [|done]. apply forallb_forall.
    intros id Hid%list_elem_of_In. apply list_elem_of_fmap in Hid as (m & -> & Hm).
    apply bool_decide_eq_true. by apply Hall.
Qed.

(** Vectors sorted by a key without repetition are determined by their elements. *)
Lemma sorted_by_key_unique {A} (key : A → string) l k :
  NoDup (key <$> l) →
  StronglySorted (λ a b, str_cmp (key a) (key b) ≠ Gt) l →
  StronglySorted (λ a b, str_cmp (key a) (key b) ≠ Gt) k → l ≡ₚ k → l = k.
Proof.
  assert (∀ l : list A, NoDup (key <$> l) → StronglySorted (λ a b, str_cmp (key a) (key b) ≠ Gt) l →
    StronglySorted (λ a b, str_cmp (key a) (key b) = Lt) l) as Hstrict.
  { intros l' Hnd Hs. induction Hs as [|x l' Hs IH Hx]; [constructor|].
    apply NoDup_cons in Hnd as [Hn Hnd]. constructor; [by apply IH|].
    apply Forall_forall. intros y Hy. pose proof (proj1 (Forall_forall _ _) Hx y Hy) as Hle.
    cbn in Hle. destruct (str_cmp (key x) (key y)) eqn:E; [|done..].
    apply str_cmp_eq in E. destruct Hn. rewrite E. by apply list_elem_of_fmap_2. }
  intros Hnd Hl Hk HP. apply (strictly_sorted_unique (λ a b, str_cmp (key a) (key b) = Lt)).
  - intros x y Hxy Hyx. rewrite str_cmp_antisym, Hxy in Hyx. done.
  - by apply Hstrict.
  - apply Hstrict; [by rewrite <-HP|done].
  - done.
Qed.

Lemma sorted_by_key {A} (key : A → string) l :
  StronglySorted (λ a b, str_cmp (key a) (key b) ≠ Gt) (sort_by (λ a b, str_cmp (key a) (key b)) l).
Proof.
  apply sort_by_sorted; [intros x y; apply str_cmp_antisym|].
  intros x y z. apply (ord_le_trans (cmp := str_cmp)).
Qed.

(** Any order of the targets sorts to the enrolled managers. *)
Lemma run_targets raw p expected :
  load_run raw p → sort_by target_cmp expected = manager_targets p ↔ expected ≡ₚ manager_targets p.
Proof.
  intros Hr. split; [intros <-; by rewrite sort_by_perm|]. intros HP.
  destruct (run_managers _ _ Hr) as (_ & _ & Hids & _).
  pose proof Hr as [_ _ _ _ _ (_ & l & _ & _ & _ & El & _) _ _ _ _].
  assert (NoDup (rt_manager_id <$> manager_targets p)) as Hnd.
  { unfold manager_targets, rollout_targets. by rewrite <-list_fmap_compose. }
  symmetry. apply (sorted_by_key_unique rt_manager_id); [done| |apply sorted_by_key|].
  - unfold manager_targets, rollout_targets. rewrite El.
    apply (StronglySorted_fmap_ext (λ a b, str_cmp a b ≠ Gt) me_manager_id rt_manager_id
      (sort_by manager_cmp l)); [by rewrite <-list_fmap_compose|apply (sorted_by_key me_manager_id)].
  - by rewrite sort_by_perm.
Qed.

(** A rollout may begin exactly when its caller holds one complete grant. For an
    accepted policy, prevalidation succeeds if and only if the caller is declared, a single
    assignment of theirs has a rollout role (admin or infra for humans, deploy for service
    accounts) and reaches every enrolled manager, their certificate is well formed and not
    revoked, and the targets are, in any order, the enrolled managers with their
    endpoints. *)
Theorem rollout_needs_one_complete_grant document p caller leaf expected :
  policy_load document = Ok p →
  is_ok (prevalidate_rollout_claims p caller leaf expected) = true
  ↔ complete_grant p caller ∧ valid_digest leaf = true
    ∧ (leaf ∉ vp_revoked_leaf_fingerprints p) ∧ expected ≡ₚ manager_targets p.
Proof.
  intros (raw & Ht & Hr)%policy_load_run. rewrite <-(run_targets _ _ expected Hr).
  rewrite <-authorizes_rollout_spec, <-fingerprint_valid_digest.
  unfold prevalidate_rollout_claims. split.
  - destruct (prevalidate_rollout_claims p caller leaf expected) as [pv|] eqn:E;
      unfold prevalidate_rollout_claims in E; rewrite E; [intros _|done].
    inv_load E.
    match goal with E : principal_uri_parse _ = Ok _ |- _ => apply parsed_principal in E as (<- & _) end.
    match goal with E : sort_by _ _ = _ |- _ => rewrite <-E end. done.
  - intros (Ha & Hf & Hv & Ht').
    assert (∃ kind, vp_principals p !! caller = Some kind ∧ assignable kind = true)
      as (kind & Hk & Has).
    { apply authorizes_rollout_spec in Ha as (kind & a & Hk & _ & _ & Hrole & _). exists kind.
      split; [done|]. by destruct Hrole as [[-> _]|[-> _]]. }
    destruct (run_principals _ _ _ _ Hr Hk) as (n & Hn & ->).
    rewrite (proj2 (principal_uri_parse_iff _
      (principal_uri_new (Name (vp_cluster_id p)) kind (Name n)))).
    2: { exists (Name (vp_cluster_id p)), kind, (Name n).
         split_and!; [apply (lr_cluster _ _ Hr)|done..]. }
    unfold principal_uri_new. cbn [lift_pol rbind pu_cluster_id name_str pu_kind pu_value].
    by rewrite String.eqb_refl, Has, Hf, bool_decide_eq_false_2, bool_decide_eq_true_2, Ht', Ha.
Qed.
End facts.
