(* ===== verification/PolicyDemo.v ===== *)
(** * An example policy

    A document with a human, a service account, a manager and a proxy, and the theorems
    about policies and snapshots at it. *)

From S2P Require Import Prelude RustStr Utf8 Lists Orders Externals Models Identity Http PolicyTypes Snapshot SnapshotAgree Policy PolicyFacts.

Definition demo_leaf : string :=
  "sha256:00112233445566778899aabbccddeeff00112233445566778899aabbccddeeff".
Definition demo_revoked : string :=
  "sha256:ff112233445566778899aabbccddeeff00112233445566778899aabbccddeeff".

Definition demo_human : string := "urn:wruntime:c:human:ada".
Definition demo_manager : string := "urn:wruntime:c:manager:m".
Definition demo_proxy : string := "urn:wruntime:c:proxy:p".

Definition demo_raw : RawPolicy :=
  mkRawPolicy 1 7 "c"
    [mkRawPrincipal demo_human "human"; mkRawPrincipal demo_manager "manager";
     mkRawPrincipal demo_proxy "proxy"]
    [mkRawAssignment demo_human "infra" (mkRawScope None None None (Some ["m"]));
     mkRawAssignment demo_human "job-admin" (mkRawScope None None (Some ["mail"; "bills"]) None)]
    [mkRawManager demo_manager "m" "https://m:9000"]
    [mkRawNode demo_proxy "node-a"] [] [demo_revoked].

Definition demo_toml (text : string) : option RawPolicy :=
  if String.eqb text "demo" then Some demo_raw else None.

Lemma demo_toml_widths text raw :
  demo_toml text = Some raw →
  (0 ≤ raw_schema_version raw ≤ U32_MAX)%Z ∧ (0 ≤ raw_generation raw ≤ U64_MAX)%Z.
Proof.
  unfold demo_toml. destruct (String.eqb text "demo"); [|done]. intros [= <-]. cbn. split; done.
Qed.

Definition toy_toml : TomlLib :=
  {| toml_policy := demo_toml; toml_policy_widths := demo_toml_widths |}.

Section demo.
#[local] Existing Instances toy_sha256 toy_codec toy_http toy_toml.

Definition demo_none : ValidatedPolicy :=
  mkPolicyV 0 0 "" "" ∅ [] [] [] [] ∅ "" (mkHeadroom 0 0 0 0 0 0 0 0 0).

Definition demo_policy : ValidatedPolicy :=
  match policy_load "demo" with Ok p => p | Err _ => demo_none end.

Lemma demo_loads : policy_load "demo" = Ok demo_policy.
Proof. vm_compute. reflexivity. Qed.

Lemma loaded_policy_valid_witness : policy_valid demo_policy.
Proof. exact (loaded_policy_valid "demo" demo_policy demo_loads). Defined.

Lemma policy_digest_covers_policy_witness :
  ∃ x y, canonical_of demo_policy = Ok x ∧ canonical_of demo_policy = Ok y
    ∧ vp_digest demo_policy = "sha256:" +:+ sha256_hex x
    ∧ vp_digest demo_policy = "sha256:" +:+ sha256_hex y
    ∧ (x = y ↔ same_policy demo_policy demo_policy).
Proof.
  exact (policy_digest_covers_policy "demo" "demo" demo_policy demo_policy demo_loads demo_loads).
Defined.

Definition demo_now : Z := from_secs 1700000000.

Definition demo_bytes : string :=
  match build_snapshot demo_policy ProxyPeerV1 demo_now with Ok b => b | Err _ => "" end.

Lemma demo_built : build_snapshot demo_policy ProxyPeerV1 demo_now = Ok demo_bytes.
Proof. vm_compute. reflexivity. Qed.

(** The proxy of the policy is admitted, with a certificate that is not revoked. *)
Lemma snapshot_agreement_witness :
  ∃ s, decode_snapshot demo_bytes "c" ProxyPeerV1 (demo_now + 1) = Some (Ok s)
    ∧ si_generation (snapshot_identity s) = 7%Z
    ∧ admits s demo_proxy demo_leaf = true ∧ admits s demo_proxy demo_revoked = false.
Proof.
  destruct (snapshot_agreement "demo" demo_policy ProxyPeerV1 demo_now demo_bytes (demo_now + 1)
    demo_loads demo_built) as (s & Hs & Hg & _ & Ha).
  - vm_compute. discriminate.
  - vm_compute. discriminate.
  - vm_compute. reflexivity.
  - exists s. split; [exact Hs|]. split; [exact Hg|]. split.
    + apply Ha. split; [apply list_elem_of_here|].
      apply (bool_decide_unpack _). vm_compute. exact I.
    + apply not_true_iff_false. intros [_ H]%Ha. apply H.
      apply (bool_decide_unpack _). vm_compute. exact I.
Defined.

Lemma demo_complete_grant : complete_grant demo_policy demo_human.
Proof. apply authorizes_rollout_spec. vm_compute. reflexivity. Qed.

Lemma rollout_needs_one_complete_grant_witness :
  is_ok (prevalidate_rollout_claims demo_policy demo_human demo_leaf
    [mkTarget "m" "https://m:9000"]) = true.
Proof.
  apply (rollout_needs_one_complete_grant "demo" demo_policy demo_human demo_leaf _ demo_loads).
  split; [exact demo_complete_grant|]. split; [vm_compute; reflexivity|].
  split; [apply (bool_decide_unpack _); vm_compute; exact I|].
  apply Permutation_refl.
Defined.

(** The same policy at an earlier generation. *)
Definition demo_earlier : ValidatedPolicy :=
  mkPolicyV 1 6 (vp_cluster_id demo_policy) (vp_digest demo_policy) (vp_principals demo_policy)
    (vp_assignments demo_policy) (vp_manager_enrollments demo_policy)
    (vp_proxy_enrollments demo_policy) (vp_node_agent_enrollments demo_policy)
    (vp_revoked_leaf_fingerprints demo_policy) (vp_manager_set_hash demo_policy)
    (vp_cap_headroom demo_policy).

Definition demo_earlier_bytes : string :=
  match build_snapshot demo_earlier ProxyPeerV1 demo_now with Ok b => b | Err _ => "" end.

Definition demo_nothing : IndexedSnapshot :=
  mkIndexed (mkSnapshot 0 0 "" 0 "" "" None None 0 0 [] []) ∅ ∅.

Definition demo_indexed (bytes : string) : IndexedSnapshot :=
  match decode_snapshot bytes "c" ProxyPeerV1 demo_now with Some (Ok s) => s | _ => demo_nothing end.

Lemma demo_decoded :
  decode_raw (Ok demo_bytes) "c" ProxyPeerV1 demo_now true = Some (Ok (demo_indexed demo_bytes)).
Proof. vm_compute. reflexivity. Qed.

Lemma demo_earlier_decoded :
  decode_raw (Ok demo_earlier_bytes) "c" ProxyPeerV1 demo_now true
  = Some (Ok (demo_indexed demo_earlier_bytes)).
Proof. vm_compute. reflexivity. Qed.

(** A snapshot, an older one and a look at the clock. *)
Lemma consumer_fails_closed_witness :
  ∃ state, consumer_run "c" ProxyPeerV1 Empty
      [Received (Ok demo_bytes) demo_now 5 true; Looked 6;
       Received (Ok demo_earlier_bytes) demo_now 7 true] = Some state
    ∧ ∃ x, retained state = Some x ∧ supersedes x (demo_indexed demo_bytes).
Proof.
  destruct (consumer_fails_closed "c" ProxyPeerV1
    [Received (Ok demo_bytes) demo_now 5 true; Looked 6;
     Received (Ok demo_earlier_bytes) demo_now 7 true] ltac:(discriminate)
    ltac:(vm_compute; reflexivity)) as (state & Hrun & Hkeep & _).
  exists state. split; [exact Hrun|].
  apply (Hkeep [Received (Ok demo_bytes) demo_now 5 true]
    [Looked 6; Received (Ok demo_earlier_bytes) demo_now 7 true]
    (Fresh (demo_indexed demo_bytes) 5 (5 + SNAPSHOT_VALIDITY)) (demo_indexed demo_bytes) eq_refl);
    vm_compute; reflexivity.
Defined.

Lemma regression_clears_conflict_latch_witness :
  ∃ until, consumer_run "c" ProxyPeerV1
      (Blocked (Some (demo_indexed demo_bytes)) ReasonConflict StrictlyHigherGeneration)
      [Received (Ok demo_earlier_bytes) demo_now 5 true; Received (Ok demo_bytes) demo_now 6 true]
    = Some (Fresh (demo_indexed demo_bytes) 6
        (6 + Z.min SNAPSHOT_VALIDITY (until - demo_now))).
Proof.
  refine (proj2 (regression_clears_conflict_latch "c" ProxyPeerV1 (demo_indexed demo_bytes)
    ReasonConflict _ _ _ _ _ _ 5 6 demo_earlier_decoded demo_decoded eq_refl _ eq_refl)).
  vm_compute. reflexivity.
Defined.
End demo.
