(* ===== verification/Gate.v ===== *)
(** * The admission gate (wr-common/src/lifecycle_service.rs)

    Requests enter a service through a gate of two atomics; on shutdown the service closes
    the gate and waits until no admitted request is in flight. The model interleaves the
    atomic operations of any number of requests with those of the draining task
    ([drain_http_admission] of wr-engine: [close] then [wait_for_idle]). A [Release] store
    may sit in the processor's store buffer; [buffered] says whether it does. *)

From S2P Require Import Prelude.

Definition usize_wrapping_sub (a b : Z) : Z := (a - b) `mod` 18446744073709551616.

(** A request: [try_enter] up to its first and second check of the flag, the guard it
    holds, and the two halves of [leave]. *)
Inductive TaskPc : Type := TIdle | TChecked | TAdded | THolding | TLeaving | TNotifying.

#[global] Instance TaskPc_eq_dec : EqDecision TaskPc.
Proof. solve_decision. Defined.

(** The draining task: [close] (store, read, notify), then the loop of [wait_for_idle]
    (read, create the future, read again, await it), and its results. *)
Inductive DrainPc : Type :=
| DBefore | DCloseCheck | DCloseNotify
| DRead | DListen | DReread | DAwait | DExpired
| DIdle | DBusy (remaining : Z).

#[global] Instance DrainPc_eq_dec : EqDecision DrainPc.
Proof. solve_decision. Defined.

(** The shared state, with the pending store of the draining task and whether the future it
    created was notified. *)
Record Gate : Type := mkGate {
  g_open : bool;
  g_in_flight : Z;
  g_tasks : list TaskPc;
  g_drain : DrainPc;
  g_buffer : option bool;
  g_notified : bool;
}.

(** [AdmissionGate::closed], [open] and a number of requests to come. *)
Definition gate_closed (n : nat) : Gate := mkGate false 0 (replicate n TIdle) DBefore None false.
Definition gate_open (g : Gate) : Gate :=
  mkGate true (g_in_flight g) (g_tasks g) (g_drain g) (g_buffer g) (g_notified g).
Definition gate_new (n : nat) : Gate := gate_open (gate_closed n).

Definition set_task (g : Gate) (i : nat) (pc : TaskPc) : Gate :=
  mkGate (g_open g) (g_in_flight g) (<[i := pc]> (g_tasks g)) (g_drain g) (g_buffer g) (g_notified g).
Definition set_in_flight (g : Gate) (v : Z) : Gate :=
  mkGate (g_open g) v (g_tasks g) (g_drain g) (g_buffer g) (g_notified g).
Definition set_drain (g : Gate) (pc : DrainPc) : Gate :=
  mkGate (g_open g) (g_in_flight g) (g_tasks g) pc (g_buffer g) (g_notified g).
Definition set_notified (g : Gate) (b : bool) : Gate :=
  mkGate (g_open g) (g_in_flight g) (g_tasks g) (g_drain g) (g_buffer g) b.

(** [notify_waiters] reaches a future once it has been created. *)
Definition listening (pc : DrainPc) : bool :=
  match pc with DReread | DAwait => true | _ => false end.
Definition notify_waiters (g : Gate) : Gate :=
  if listening (g_drain g) then set_notified g true else g.

(** The store buffer of the draining task. *)
Definition store_open (buffered : bool) (g : Gate) (b : bool) : Gate :=
  if buffered
  then mkGate (g_open g) (g_in_flight g) (g_tasks g) (g_drain g) (Some b) (g_notified g)
  else mkGate b (g_in_flight g) (g_tasks g) (g_drain g) None (g_notified g).
Definition flush (g : Gate) : Gate :=
  match g_buffer g with
  | Some b => mkGate b (g_in_flight g) (g_tasks g) (g_drain g) None (g_notified g)
  | None => g
  end.

(** The next atomic operation of a request: [try_enter], then dropping the guard. *)
Definition task_step (g : Gate) (i : nat) : option Gate :=
  match g_tasks g !! i with
  | None => None
  | Some TIdle => Some (set_task g i (if g_open g then TChecked else TIdle))
  | Some TChecked => Some (set_task (set_in_flight g (usize_wrapping_add (g_in_flight g) 1)) i TAdded)
  | Some TAdded => Some (set_task g i (if g_open g then THolding else TLeaving))
  | Some THolding => Some (set_task g i TLeaving)
  | Some TLeaving =>
      let old := g_in_flight g in
      Some (set_task (set_in_flight g (usize_wrapping_sub old 1)) i
              (if (old =? 1)%Z then TNotifying else TIdle))
  | Some TNotifying => Some (set_task (notify_waiters g) i TIdle)
  end.

(** The next operation of the draining task; [expired] says that its deadline has passed.
    Notifying takes the lock of [Notify], which drains the store buffer. *)
Definition drain_step (buffered expired : bool) (g : Gate) : option Gate :=
  match g_drain g with
  | DBefore => Some (set_drain (store_open buffered g false) DCloseCheck)
  | DCloseCheck => Some (set_drain g (if (g_in_flight g =? 0)%Z then DCloseNotify else DRead))
  | DCloseNotify => Some (set_drain (flush (notify_waiters g)) DRead)
  | DRead => Some (set_drain g (if (g_in_flight g =? 0)%Z then DIdle else DListen))
  | DListen => Some (set_drain (set_notified g false) DReread)
  | DReread => Some (set_drain g (if (g_in_flight g =? 0)%Z then DIdle else DAwait))
  | DAwait =>
      if g_notified g then Some (set_drain g DRead)
      else if expired then Some (set_drain g DExpired) else None
  | DExpired => Some (set_drain g (DBusy (g_in_flight g)))
  | DIdle | DBusy _ => None
  end.

Inductive GateAction : Type :=
| ATask (i : nat)
| ADrain (expired : bool)
| AFlush.

Definition gate_step (buffered : bool) (g : Gate) (a : GateAction) : option Gate :=
  match a with
  | ATask i => task_step g i
  | ADrain expired => drain_step buffered expired g
  | AFlush => Some (flush g)
  end.

Fixpoint gate_run (buffered : bool) (g : Gate) (acts : list GateAction) : option Gate :=
  match acts with
  | [] => Some g
  | a :: acts => g ← gate_step buffered g a; gate_run buffered g acts
  end.

(** ** The invariant *)

(** Requests the counter counts. *)
Definition counted (pc : TaskPc) : bool :=
  match pc with TAdded | THolding | TLeaving => true | _ => false end.

Fixpoint in_flight_tasks (l : list TaskPc) : nat :=
  match l with [] => 0 | pc :: l => (if counted pc then 1 else 0) + in_flight_tasks l end.

Lemma in_flight_insert l i old pc :
  l !! i = Some old →
  in_flight_tasks (<[i := pc]> l) + (if counted old then 1 else 0)
  = in_flight_tasks l + (if counted pc then 1 else 0).
Proof.
  revert i. induction l as [|x l IH]; intros [|i] H; try done; cbn in H.
  - injection H as ->. cbn. destruct (counted pc), (counted old); lia.
  - apply IH in H. change (<[S i := pc]> (x :: l)) with (x :: <[i := pc]> l).
    cbn [in_flight_tasks]. destruct (counted pc), (counted old), (counted x); lia.
Qed.

Lemma in_flight_le l : in_flight_tasks l ≤ length l.
Proof. induction l as [|x l IH]; cbn; [done|]. destruct (counted x); lia. Qed.

Lemma in_flight_0 l pc : in_flight_tasks l = 0 → pc ∈ l → counted pc = false.
Proof.
  induction l as [|x l IH]; cbn; [by rewrite elem_of_nil|]. intros H. rewrite elem_of_cons.
  intros [->|Hin]; [destruct (counted x); [lia|done]|apply IH; [lia|done]].
Qed.

(** The draining task has stored the flag, and seen no request in flight. *)
Definition has_closed (pc : DrainPc) : bool := match pc with DBefore => false | _ => true end.

Record gate_inv (n : nat) (g : Gate) : Prop := {
  gi_tasks : length (g_tasks g) = n;
  gi_count : g_in_flight g = Z.of_nat (in_flight_tasks (g_tasks g));
  gi_buffer : g_buffer g = None;
  gi_closed : has_closed (g_drain g) = true → g_open g = false;
  gi_drained : g_drain g = DIdle → THolding ∉ g_tasks g;
  gi_wakes : listening (g_drain g) = true → g_notified g = false →
             g_in_flight g ≠ 0%Z ∨ TNotifying ∈ g_tasks g ∨ g_drain g = DReread;
}.

Lemma gate_new_inv n : gate_inv n (gate_new n).
Proof.
  split; cbn; try done; [apply length_replicate|]. by induction n.
Qed.

Section steps.
#[local] Set Default Proof Using "All".
Context (n : nat) (Hn : (Z.of_nat n < 18446744073709551616)%Z).

(** Changing the position of a request, and with it the counter. *)
Lemma set_task_inv g i old pc v :
  gate_inv n g → g_tasks g !! i = Some old →
  v = (g_in_flight g + (if counted pc then 1 else 0) - (if counted old then 1 else 0))%Z →
  (pc = THolding → g_open g = true) →
  (listening (g_drain g) = true → g_notified g = false → v = 0%Z →
     TNotifying ∈ <[i := pc]> (g_tasks g) ∨ g_drain g = DReread) →
  gate_inv n (set_task (set_in_flight g v) i pc).
Proof.
  intros [Hl Hc Hb Ho Hd Hw] Hi Hv Hh Hwake. pose proof (in_flight_insert _ _ _ pc Hi) as Hcount.
  split; cbn [set_task set_in_flight g_tasks g_in_flight g_buffer g_drain g_open g_notified].
  - by rewrite length_insert.
  - rewrite Hv, Hc. destruct (counted pc), (counted old); lia.
  - done.
  - done.
  - intros E Hin. specialize (Hd E). apply list_elem_of_lookup in Hin as [j Hj].
    apply list_lookup_insert_Some in Hj as [(-> & -> & _)|[_ Hj]].
    + specialize (Hh eq_refl). rewrite Ho in Hh by (by rewrite E). done.
    + apply Hd. by eapply list_elem_of_lookup_2.
  - intros Hlis Hnot. destruct (decide (v = 0%Z)); [right; by apply Hwake|by left].
Qed.

Lemma still_notifying (l : list TaskPc) i old pc :
  l !! i = Some old → old ≠ TNotifying → TNotifying ∈ l → TNotifying ∈ <[i := pc]> l.
Proof.
  intros Hi Hold [j Hj]%list_elem_of_lookup. apply list_elem_of_lookup. exists j.
  rewrite list_lookup_insert_ne; [done|]. intros ->. congruence.
Qed.

(** A step that leaves the counter. *)
Lemma keep_count_inv g i old pc :
  gate_inv n g → g_tasks g !! i = Some old → counted pc = counted old → old ≠ TNotifying →
  (pc = THolding → g_open g = true) → gate_inv n (set_task g i pc).
Proof.
  intros Hg Hi Hc Hold Hh.
  apply (set_task_inv g i old pc (g_in_flight g) Hg Hi); [rewrite Hc; lia|done|].
  intros Hl Hn0 Hz. destruct (gi_wakes _ _ Hg Hl Hn0) as [?|[?|?]]; [done| |by right].
  left. by eapply still_notifying.
Qed.

Lemma enter_inv g i :
  gate_inv n g → g_tasks g !! i = Some TChecked →
  gate_inv n (set_task (set_in_flight g (usize_wrapping_add (g_in_flight g) 1)) i TAdded).
Proof.
  intros Hg Hi. pose proof (in_flight_insert _ _ _ TAdded Hi) as Hc. cbn in Hc.
  pose proof (in_flight_le (<[i := TAdded]> (g_tasks g))) as Hle.
  rewrite length_insert, (gi_tasks _ _ Hg) in Hle. pose proof (gi_count _ _ Hg) as Hcount.
  unfold usize_wrapping_add. rewrite Z.mod_small by lia.
  apply (set_task_inv g i TChecked TAdded); [done|done|cbn; lia|done|lia].
Qed.

Lemma leave_inv g i :
  gate_inv n g → g_tasks g !! i = Some TLeaving →
  gate_inv n (set_task (set_in_flight g (usize_wrapping_sub (g_in_flight g) 1)) i
                (if (g_in_flight g =? 1)%Z then TNotifying else TIdle)).
Proof.
  intros Hg Hi. pose proof (in_flight_insert _ _ _ TIdle Hi) as Hc. cbn in Hc.
  pose proof (in_flight_le (g_tasks g)) as Hle. rewrite (gi_tasks _ _ Hg) in Hle.
  pose proof (gi_count _ _ Hg) as Hcount.
  unfold usize_wrapping_sub. rewrite Z.mod_small by lia.
  destruct (Z.eqb_spec (g_in_flight g) 1) as [E|E];
    (apply (set_task_inv g i TLeaving); [done|done|cbn; lia|done|]).
  - intros _ _ _. left. apply list_elem_of_insert. by eapply lookup_lt_Some.
  - intros _ _ Hz. lia.
Qed.

Lemma notify_waiters_inv g : gate_inv n g → gate_inv n (notify_waiters g).
Proof.
  intros Hg. unfold notify_waiters. destruct (listening _) eqn:E; [|done].
  destruct Hg as [Hl Hc Hb Ho Hd Hw]. by split.
Qed.

Lemma task_step_inv g i g' : gate_inv n g → task_step g i = Some g' → gate_inv n g'.
Proof.
  intros Hg. unfold task_step. destruct (g_tasks g !! i) as [pc|] eqn:Hi; [|done].
  destruct pc; intros [= <-].
  - eapply keep_count_inv; [done|done|by destruct (g_open g)|done|by destruct (g_open g)].
  - by apply enter_inv.
  - eapply keep_count_inv; [done|done|by destruct (g_open g)|done|by destruct (g_open g)].
  - by eapply keep_count_inv.
  - by apply leave_inv.
  - pose proof (notify_waiters_inv _ Hg) as Hg'.
    assert (g_tasks (notify_waiters g) !! i = Some TNotifying) as Hi'
      by (unfold notify_waiters; by destruct (listening _)).
    apply (set_task_inv (notify_waiters g) i TNotifying TIdle (g_in_flight (notify_waiters g)) Hg' Hi');
      [cbn; lia|done|].
    unfold notify_waiters. destruct (listening (g_drain g)) eqn:E; cbn; congruence.
Qed.

Lemma set_drain_inv g pc :
  gate_inv n g → has_closed (g_drain g) = true → (pc = DIdle → g_in_flight g = 0%Z) →
  (listening pc = true → g_notified g = false →
     pc = DReread ∨ g_in_flight g ≠ 0%Z ∨ TNotifying ∈ g_tasks g) →
  gate_inv n (set_drain g pc).
Proof.
  intros [Hl Hc Hb Ho Hd Hw] Hcl Hi Hlis.
  split; cbn [set_drain g_tasks g_in_flight g_buffer g_drain g_open g_notified]; [done|done|done| | |].
  - intros _. by apply Ho.
  - intros E Hin. specialize (Hi E). pose proof (in_flight_0 (g_tasks g) THolding ltac:(lia) Hin). done.
  - intros H1 H2. destruct (Hlis H1 H2) as [?|[?|?]]; tauto.
Qed.

Lemma drain_step_inv expired g g' :
  gate_inv n g → drain_step false expired g = Some g' → gate_inv n g'.
Proof.
  intros Hg. unfold drain_step.
  destruct (g_drain g) eqn:E; try done; try (intros [= <-]).
  - destruct Hg as [Hl Hc Hb Ho Hd Hw]. by split.
  - apply set_drain_inv; [done|by rewrite E|by destruct (_ =? _)%Z|by destruct (_ =? _)%Z].
  - replace (notify_waiters g) with g by (unfold notify_waiters; by rewrite E).
    unfold flush. rewrite (gi_buffer _ _ Hg). apply set_drain_inv; [done|by rewrite E|done..].
  - apply set_drain_inv; [done|by rewrite E|by destruct (Z.eqb_spec (g_in_flight g) 0)|by destruct (_ =? _)%Z].
  - destruct Hg as [Hl Hc Hb Ho Hd Hw]. split; cbn; try done; [|by auto]. intros _. apply Ho. by rewrite E.
  - destruct (Z.eqb_spec (g_in_flight g) 0) as [Hz|Hz].
    + by apply set_drain_inv; [|rewrite E| |].
    + apply set_drain_inv; [done|by rewrite E|done|]. by auto.
  - destruct (g_notified g) eqn:En; [|destruct expired; [|done]]; intros [= <-];
      apply set_drain_inv; rewrite ?E; done.
  - apply set_drain_inv; rewrite ?E; done.
Qed.

Lemma gate_run_inv g acts g' : gate_inv n g → gate_run false g acts = Some g' → gate_inv n g'.
Proof.
  revert g. induction acts as [|a acts IH]; intros g Hg H; cbn in H; [by injection H as <-|].
  destruct (gate_step false g a) as [g1|] eqn:E; [|done]. apply (IH g1); [|done].
  destruct a; cbn in E; [by eapply task_step_inv|by eapply drain_step_inv|].
  injection E as <-. unfold flush. by rewrite (gi_buffer _ _ Hg).
Qed.
End steps.

(** ** Progress *)

(** How far a request and the draining task are from their ends. *)
Definition task_weight (pc : TaskPc) : nat :=
  match pc with
  | TIdle => 0 | TNotifying => 1 | TLeaving => 2 | THolding => 3 | TAdded => 4 | TChecked => 5
  end.

Definition drain_weight (notified : bool) (pc : DrainPc) : nat :=
  match pc with
  | DBefore => 9 | DCloseCheck => 8 | DCloseNotify => 7
  | DRead => 6 | DListen => 5
  | DReread => if notified then 9 else 4
  | DAwait => if notified then 8 else 3
  | DExpired => 1
  | DIdle | DBusy _ => 0
  end.

Fixpoint tasks_weight (l : list TaskPc) : nat :=
  match l with [] => 0 | pc :: l => task_weight pc + tasks_weight l end.

Definition gate_weight (g : Gate) : nat :=
  10 * tasks_weight (g_tasks g) + drain_weight (g_notified g) (g_drain g).

(** Steps other than a refused [try_enter] and the expiry of the deadline. *)
Definition advances (g : Gate) (a : GateAction) : bool :=
  match a with
  | ATask i => negb (bool_decide (g_tasks g !! i = Some TIdle))
  | ADrain expired => negb expired
  | AFlush => false
  end.

Definition advance (g : Gate) (a : GateAction) : option Gate :=
  if advances g a then gate_step false g a else None.

Fixpoint advance_run (g : Gate) (acts : list GateAction) : option Gate :=
  match acts with
  | [] => Some g
  | a :: acts => g ← advance g a; advance_run g acts
  end.

Lemma tasks_weight_insert l i old pc :
  l !! i = Some old → tasks_weight (<[i := pc]> l) + task_weight old = tasks_weight l + task_weight pc.
Proof.
  revert i. induction l as [|x l IH]; intros [|i] H; try done; cbn in H.
  - injection H as ->. cbn. lia.
  - apply IH in H. change (<[S i := pc]> (x :: l)) with (x :: <[i := pc]> l). cbn [tasks_weight]. lia.
Qed.

Lemma drain_weight_notified d : drain_weight true d ≤ drain_weight false d + 5.
Proof. destruct d; cbn; lia. Qed.

Lemma task_step_weight g i g' :
  g_open g = false → g_tasks g !! i ≠ Some TIdle → task_step g i = Some g' →
  gate_weight g' < gate_weight g.
Proof.
  intros Ho Hi. unfold task_step. destruct (g_tasks g !! i) as [pc|] eqn:E; [|done].
  assert (∀ v pc', task_weight pc' < task_weight pc →
    gate_weight (set_task (set_in_flight g v) i pc') < gate_weight g) as Hset.
  { intros v pc' Hw. unfold gate_weight. cbn. pose proof (tasks_weight_insert _ _ _ pc' E). lia. }
  rewrite Ho. destruct pc; intros [= <-]; try (apply (Hset (g_in_flight g)); cbn; lia); try done.
  - apply Hset. destruct (_ =? _)%Z; cbn; lia.
  - pose proof (tasks_weight_insert _ _ _ TIdle E) as Hw. cbn in Hw.
    pose proof (drain_weight_notified (g_drain g)).
    unfold notify_waiters, gate_weight. destruct (listening (g_drain g)); cbn; [|lia].
    destruct (g_notified g); lia.
Qed.

Lemma drain_step_weight g g' :
  has_closed (g_drain g) = true → g_buffer g = None → drain_step false false g = Some g' →
  gate_weight g' < gate_weight g.
Proof.
  intros Hc Hb. unfold drain_step, gate_weight.
  destruct (g_drain g) eqn:E; try done; try (intros [= <-]); cbn.
  - destruct (_ =? _)%Z; cbn; lia.
  - unfold notify_waiters, flush. rewrite E. cbn. rewrite Hb. cbn. lia.
  - destruct (_ =? _)%Z; cbn; lia.
  - lia.
  - destruct (_ =? _)%Z, (g_notified g); cbn; lia.
  - destruct (g_notified g) eqn:En; [|done]. intros [= <-]. cbn. lia.
  - lia.
Qed.

(** What a state with nothing left to do has reached. *)
Lemma stuck_drained n g :
  gate_inv n g → has_closed (g_drain g) = true → g_drain g ≠ DExpired →
  (∀ r, g_drain g ≠ DBusy r) → (∀ a, advance g a = None) → g_drain g = DIdle.
Proof.
  intros Hg Hc Hx Hb Hstuck.
  assert (∀ pc, pc ∈ g_tasks g → pc = TIdle) as Hidle.
  { intros pc [i Hi]%list_elem_of_lookup. specialize (Hstuck (ATask i)). unfold advance in Hstuck.
    cbn in Hstuck. unfold task_step in Hstuck. rewrite Hi in Hstuck.
    by destruct pc; cbn in Hstuck. }
  assert (g_in_flight g = 0%Z) as Hz.
  { rewrite (gi_count _ _ Hg). clear -Hidle. induction (g_tasks g) as [|x l IH]; [done|].
    cbn. rewrite (Hidle x) by (by left). apply IH. intros pc Hpc. apply Hidle. by right. }
  specialize (Hstuck (ADrain false)). unfold advance in Hstuck. cbn in Hstuck.
  unfold drain_step in Hstuck. pose proof (gi_wakes _ _ Hg) as Hw.
  destruct (g_drain g); try done; [|by destruct (Hb remaining)].
  destruct (g_notified g); [done|]. destruct (Hw eq_refl eq_refl) as [?|[Hin|?]]; [done| |done].
  by apply Hidle in Hin.
Qed.

Lemma advance_keeps g a g' :
  advance g a = Some g' → has_closed (g_drain g) = true → g_drain g ≠ DExpired →
  (∀ r, g_drain g ≠ DBusy r) →
  has_closed (g_drain g') = true ∧ g_drain g' ≠ DExpired ∧ ∀ r, g_drain g' ≠ DBusy r.
Proof.
  unfold advance. intros H Hc Hx Hb. destruct (advances g a) eqn:Ha; [|done].
  destruct a as [i|[]|]; try done; cbn in H.
  - unfold task_step in H. destruct (g_tasks g !! i) as [[]|]; try done; injection H as <-;
      unfold notify_waiters; cbn; try done. by destruct (listening _).
  - unfold drain_step in H. destruct (g_drain g) eqn:E; try done; try (injection H as <-); cbn;
      try (by destruct (_ =? _)%Z); try done.
    destruct (g_notified g); [|done]. by injection H as <-.
Qed.

Lemma advance_weight n g a g' :
  gate_inv n g → has_closed (g_drain g) = true → advance g a = Some g' →
  gate_weight g' < gate_weight g.
Proof.
  unfold advance. intros Hg Hc. destruct (advances g a) eqn:Ha; [|done].
  destruct a as [i|[]|]; try done; cbn in *.
  - apply negb_true_iff, bool_decide_eq_false in Ha.
    apply task_step_weight; [by apply (gi_closed _ _ Hg)|done].
  - apply drain_step_weight; [done|apply (gi_buffer _ _ Hg)].
Qed.

Lemma advance_inv n g a g' :
  (Z.of_nat n < 18446744073709551616)%Z → gate_inv n g → advance g a = Some g' → gate_inv n g'.
Proof.
  intros Hn Hg H. apply (gate_run_inv n Hn g [a]); [done|]. cbn. unfold advance in H.
  destruct (advances g a); [|done]. by rewrite H.
Qed.

Lemma weight_bound n g : gate_inv n g → gate_weight g ≤ 50 * n + 9.
Proof.
  intros Hg. unfold gate_weight.
  assert (tasks_weight (g_tasks g) ≤ 5 * n).
  { rewrite <-(gi_tasks _ _ Hg). induction (g_tasks g) as [|x l IH]; cbn; [lia|].
    destruct x; cbn; lia. }
  assert (drain_weight (g_notified g) (g_drain g) ≤ 9) by (destruct (g_drain g), (g_notified g); cbn; lia).
  lia.
Qed.

(** Before the deadline: no step has expired. *)
Definition in_time (a : GateAction) : Prop := a ≠ ADrain true.

Lemma in_time_not_expired b g acts g' :
  gate_run b g acts = Some g' → Forall in_time acts → g_drain g ≠ DExpired →
  (∀ r, g_drain g ≠ DBusy r) → g_drain g' ≠ DExpired ∧ ∀ r, g_drain g' ≠ DBusy r.
Proof.
  revert g. induction acts as [|a acts IH]; intros g H Ha Hx Hb; cbn in H; [by injection H as <-|].
  apply Forall_cons_1 in Ha as [Ha Has].
  destruct (gate_step b g a) as [g1|] eqn:E; [|done]. cbn in H.
  assert (g_drain g1 ≠ DExpired ∧ ∀ r, g_drain g1 ≠ DBusy r) as [? ?]; [|by eapply IH].
  destruct a as [i|[]|]; cbn in E; [| |unfold drain_step in E|].
  - unfold task_step in E. destruct (g_tasks g !! i) as [[]|]; try done; injection E as <-;
      unfold notify_waiters; cbn; try done. by destruct (listening _).
  - by destruct Ha.
  - destruct (g_drain g) eqn:Ed; try done; try (injection E as <-); cbn; try (by destruct (_ =? _)%Z);
      try done. destruct (g_notified g); [|done]. by injection E as <-.
  - injection E as <-. unfold flush. by destruct (g_buffer g).
Qed.

Lemma advance_run_spec n g acts g' :
  (Z.of_nat n < 18446744073709551616)%Z → gate_inv n g → has_closed (g_drain g) = true →
  g_drain g ≠ DExpired → (∀ r, g_drain g ≠ DBusy r) → advance_run g acts = Some g' →
  length acts ≤ gate_weight g ∧ gate_inv n g' ∧ has_closed (g_drain g') = true
  ∧ g_drain g' ≠ DExpired ∧ ∀ r, g_drain g' ≠ DBusy r.
Proof.
  intros Hn. revert g. induction acts as [|a acts IH]; intros g Hg Hc Hx Hb H; cbn in H.
  { injection H as <-. split; [cbn; lia|done]. }
  destruct (advance g a) as [g1|] eqn:E; [|done]. cbn in H.
  destruct (advance_keeps _ _ _ E Hc Hx Hb) as (Hc1 & Hx1 & Hb1).
  pose proof (advance_weight _ _ _ _ Hg Hc E). pose proof (advance_inv _ _ _ _ Hn Hg E) as Hg1.
  destruct (IH g1 Hg1 Hc1 Hx1 Hb1 H) as (Hlen & Hrest). split; [cbn [length]; lia|done].
Qed.

(** A drained gate stays empty. In every interleaving of the requests with the draining
    task, once [wait_for_idle] has returned, no request is admitted, then or later: a
    request that passed the first check of the flag before the gate closed is turned away
    by the second. (Stores are visible at once.) *)
Theorem drained_gate_stays_empty n acts g :
  (Z.of_nat n < 18446744073709551616)%Z →
  gate_run false (gate_new n) acts = Some g → g_drain g = DIdle → THolding ∉ g_tasks g.
Proof.
  intros Hn H Hd. exact (gi_drained _ _ (gate_run_inv n Hn _ _ _ (gate_new_inv n) H) Hd).
Qed.

(** One request enters between the checks and is turned away; the gate drains. *)
Definition demo_drain : list GateAction :=
  [ATask 0; ATask 1; ATask 1; ATask 1; ADrain false; ADrain false; ADrain false; ADrain false;
   ADrain false; ATask 1; ATask 1; ATask 1; ADrain false; ADrain false; ATask 0; ATask 0].

Definition demo_drained : Gate :=
  default (gate_new 0) (gate_run false (gate_new 2) demo_drain).

Lemma demo_drain_run : gate_run false (gate_new 2) demo_drain = Some demo_drained.
Proof. vm_compute. reflexivity. Qed.

Lemma drained_gate_stays_empty_witness : g_drain demo_drained = DIdle ∧ THolding ∉ g_tasks demo_drained.
Proof.
  split; [vm_compute; reflexivity|].
  apply (drained_gate_stays_empty 2 demo_drain); [reflexivity|exact demo_drain_run|].
  vm_compute. reflexivity.
Defined.

(** C38. The orderings of the gate do not close the race they are meant to close. [close]
    stores the flag with [Release] and then loads the counter: the store may still be
    buffered when [wait_for_idle] reads zero and returns, and a request then passes both
    checks and is admitted to a service that believes it has drained. *)
Theorem store_buffering_admits_after_drain :
  ∃ acts before g,
    gate_run true (gate_new 2) acts = Some before ∧ g_drain before = DIdle
    ∧ (THolding ∉ g_tasks before)
    ∧ gate_run true before [ATask 1; ATask 1; ATask 1] = Some g
    ∧ g_drain g = DIdle ∧ g_tasks g !! 1 = Some THolding ∧ g_in_flight g = 1%Z.
Proof.
  exists [ATask 0; ATask 0; ATask 0; ADrain false; ADrain false; ATask 0; ATask 0; ATask 0; ADrain false].
  exists (mkGate true 0 [TIdle; TIdle] DIdle (Some false) false).
  exists (mkGate true 1 [TIdle; THolding] DIdle (Some false) false).
  split; [vm_compute; reflexivity|]. split; [reflexivity|]. split.
  { cbn. rewrite !elem_of_cons, elem_of_nil. naive_solver. }
  split; [vm_compute; reflexivity|]. split; [reflexivity|]. split; reflexivity.
Qed.

(** C14. Draining always completes: no wake-up is lost. Suppose that the store that closes the
    gate takes effect at once (it does not wait in a store buffer), that the deadline of the
    drain has not passed, and that there are fewer than 2^64 requests. Once the gate is closed,
    whatever happened before, the requests and the draining task can take only a bounded number
    of steps, refused entries aside; and when none is left, [wait_for_idle] has returned. In
    particular it never waits for a notification that was already sent. *)
Theorem drain_completes n acts g steps g' :
  (Z.of_nat n < 18446744073709551616)%Z →
  gate_run false (gate_new n) acts = Some g → Forall in_time acts →
  has_closed (g_drain g) = true → advance_run g steps = Some g' →
  length steps ≤ 50 * n + 9 ∧ ((∀ a, advance g' a = None) → g_drain g' = DIdle).
Proof.
  intros Hn H Ht Hc Hs. pose proof (gate_run_inv n Hn _ _ _ (gate_new_inv n) H) as Hg.
  destruct (in_time_not_expired _ _ _ _ H Ht) as [Hx Hb]; [done|done|].
  destruct (advance_run_spec _ _ _ _ Hn Hg Hc Hx Hb Hs) as (Hlen & Hg' & Hc' & Hx' & Hb').
  pose proof (weight_bound _ _ Hg). split; [lia|]. by apply (stuck_drained n).
Qed.

(** A request holds its guard when the gate closes; its leaving wakes the draining task. *)
Definition demo_closing : list GateAction := [ATask 0; ATask 0; ATask 0; ADrain false].
Definition demo_finishing : list GateAction :=
  [ADrain false; ADrain false; ADrain false; ADrain false; ATask 0; ATask 0; ATask 0; ADrain false;
   ADrain false].

Definition demo_closed : Gate := mkGate false 1 [THolding] DCloseCheck None false.
Definition demo_finished : Gate := mkGate false 0 [TIdle] DIdle None true.

Lemma drain_completes_witness : length demo_finishing ≤ 50 * 1 + 9 ∧ g_drain demo_finished = DIdle.
Proof.
  destruct (drain_completes 1 demo_closing demo_closed demo_finishing demo_finished) as [H1 H2].
  - reflexivity.
  - vm_compute. reflexivity.
  - repeat constructor; discriminate.
  - reflexivity.
  - vm_compute. reflexivity.
  - split; [exact H1|]. apply H2. intros [[|i]|[]|]; reflexivity.
Defined.
