(* ===== verification/Tls.v ===== *)
(** * Client and server leaf certificates (wr-common/src/tls.rs)

    After the transport has verified the chain, the program applies its own profile to the
    leaf: one extended key usage, and for clients one URI name, the principal. [x509_parser]
    and the reading of PEM files are parameters. *)

From S2P Require Import Prelude RustStr Externals Models Identity.

Record ExtendedKeyUsage : Type := mkEku {
  eku_any : bool;
  eku_server_auth : bool;
  eku_client_auth : bool;
  eku_code_signing : bool;
  eku_email_protection : bool;
  eku_time_stamping : bool;
  eku_ocsp_signing : bool;
  eku_other : list string;
}.

Inductive GeneralName : Type :=
| GnUri (uri : string)
| GnDns (host : string)
| GnIp (bytes : string)
| GnOther.

(** [X509Certificate] with the accessors used, each failing on a malformed extension, and
    [load_certs], the certificates of a PEM file. *)
Class X509Lib : Type := {
  X509 : Type;
  x509_from_der : string → option (string * X509);
  x509_eku : X509 → option (option ExtendedKeyUsage);
  x509_san : X509 → option (option (list GeneralName));
  x509_basic_constraints_ca : X509 → option (option bool);
  x509_key_usage_cert_sign : X509 → option (option bool);
  x509_spki : X509 → string;
  x509_serial : X509 → string;
  load_certs : string → option (list string);
}.

Inductive LeafProfile : Type := ClientProfile | ServerProfile.

(** Addresses are their bytes. *)
Record LeafEvidence : Type := mkEvidence {
  le_profile : LeafProfile;
  le_principal : option PrincipalUri;
  le_dns_names : list string;
  le_ip_addresses : list string;
  le_fingerprint : string;
  le_serial : string;
  le_spki_fingerprint : string;
}.

Inductive LeafError : Type :=
| LeafUnparsed
| LeafTrailing
| LeafEkuMalformed
| LeafEkuMissing
| LeafEku
| LeafSanMalformed
| LeafSanMissing
| LeafIpMalformed
| LeafUriCount
| LeafClientNames
| LeafPrincipal (e : principal_error)
| LeafCluster
| LeafServerNames
| LeafServerEmpty
| LeafNoCertificate
| LeafNotCa
| LeafNoConstraints
| LeafKeyUsage
| LeafShared (existing domain : string).

(** [Option] and [Result] adapters: [.context(..)?] and [.ok_or_else(..)?]. *)
Definition or_err {A} (o : option A) (e : LeafError) : result LeafError A :=
  match o with Some a => Ok a | None => Err e end.

(** The names of a certificate, sorted by kind, and how many were of other kinds. *)
Record SanNames : Type := mkNames {
  sn_uris : list string;
  sn_dns : list string;
  sn_ips : list string;
  sn_unsupported : nat;
}.

Fixpoint collect_names (acc : SanNames) (l : list GeneralName) : result LeafError SanNames :=
  match l with
  | [] => Ok acc
  | GnUri u :: l =>
      collect_names (mkNames (sn_uris acc ++ [u]) (sn_dns acc) (sn_ips acc) (sn_unsupported acc)) l
  | GnDns d :: l =>
      collect_names (mkNames (sn_uris acc) (sn_dns acc ++ [d]) (sn_ips acc) (sn_unsupported acc)) l
  | GnIp b :: l =>
      ensure? bool_decide (String.length b = 4) || bool_decide (String.length b = 16)
        else LeafIpMalformed in
      collect_names (mkNames (sn_uris acc) (sn_dns acc) (sn_ips acc ++ [b]) (sn_unsupported acc)) l
  | GnOther :: l =>
      collect_names (mkNames (sn_uris acc) (sn_dns acc) (sn_ips acc) (S (sn_unsupported acc))) l
  end.

Definition is_nil {A} (l : list A) : bool := match l with [] => true | _ => false end.

Definition no_other_eku (e : ExtendedKeyUsage) : bool :=
  negb (eku_any e) && negb (eku_code_signing e) && negb (eku_email_protection e)
  && negb (eku_time_stamping e) && negb (eku_ocsp_signing e) && is_nil (eku_other e).

Definition eku_matches (profile : LeafProfile) (e : ExtendedKeyUsage) : bool :=
  match profile with
  | ClientProfile => eku_client_auth e && negb (eku_server_auth e) && no_other_eku e
  | ServerProfile => eku_server_auth e && negb (eku_client_auth e) && no_other_eku e
  end.

(** The principal of a client leaf; a server leaf has none. *)
Definition leaf_principal (profile : LeafProfile) (expected_cluster : option ClusterId)
    (names : SanNames) : result LeafError (option PrincipalUri) :=
  match profile with
  | ClientProfile =>
      match sn_uris names with
      | [uri] =>
          ensure? is_nil (sn_dns names) && is_nil (sn_ips names)
                  && bool_decide (sn_unsupported names = 0) else LeafClientNames in
          match principal_uri_parse uri with
          | Err e => Err (LeafPrincipal e)
          | Ok principal =>
              ensure? match expected_cluster with
                      | None => true
                      | Some cluster => bool_decide (pu_cluster_id principal = cluster)
                      end else LeafCluster in
              Ok (Some principal)
          end
      | _ => Err LeafUriCount
      end
  | ServerProfile =>
      ensure? is_nil (sn_uris names) && bool_decide (sn_unsupported names = 0) else LeafServerNames in
      ensure? negb (is_nil (sn_dns names)) || negb (is_nil (sn_ips names)) else LeafServerEmpty in
      Ok None
  end.

Section tls.
Context `{SH : Sha256Lib, XL : X509Lib}.

Definition certificate_fingerprint_sha256 (der : string) : string := "sha256:" +:+ sha256_hex der.

Definition parse_leaf_evidence (der : string) (profile : LeafProfile)
    (expected_cluster : option ClusterId) : result LeafError LeafEvidence :=
  let? (remaining, certificate) := or_err (x509_from_der der) LeafUnparsed in
  ensure? str_is_empty remaining else LeafTrailing in
  let? eku := or_err (x509_eku certificate) LeafEkuMalformed in
  let? eku := or_err eku LeafEkuMissing in
  ensure? eku_matches profile eku else LeafEku in
  let? san := or_err (x509_san certificate) LeafSanMalformed in
  let? san := or_err san LeafSanMissing in
  let? names := collect_names (mkNames [] [] [] 0) san in
  let? principal := leaf_principal profile expected_cluster names in
  Ok (mkEvidence profile principal (sn_dns names) (sn_ips names)
        (certificate_fingerprint_sha256 der) (x509_serial certificate)
        (certificate_fingerprint_sha256 (x509_spki certificate))).

Definition validate_client_leaf (der : string) (expected_cluster : ClusterId) :
    result LeafError LeafEvidence :=
  parse_leaf_evidence der ClientProfile (Some expected_cluster).

Definition load_client_leaf_evidence (path : string) (expected_cluster : option ClusterId) :
    result LeafError LeafEvidence :=
  let? certificates := or_err (load_certs path) LeafUnparsed in
  let? leaf := or_err (head certificates) LeafNoCertificate in
  parse_leaf_evidence leaf ClientProfile expected_cluster.

(** ** Root bundles *)

Definition validate_root (der : string) : result LeafError string :=
  let? (remaining, certificate) := or_err (x509_from_der der) LeafUnparsed in
  ensure? str_is_empty remaining else LeafTrailing in
  let? constraints := or_err (x509_basic_constraints_ca certificate) LeafNoConstraints in
  let? ca := or_err constraints LeafNoConstraints in
  ensure? ca else LeafNotCa in
  let? usage := or_err (x509_key_usage_cert_sign certificate) LeafKeyUsage in
  ensure? match usage with Some sign => sign | None => true end else LeafKeyUsage in
  Ok (certificate_fingerprint_sha256 der).

Fixpoint validate_roots (ders : list string) : result LeafError (list string) :=
  match ders with
  | [] => Ok []
  | der :: ders =>
      let? f := validate_root der in
      let? fs := validate_roots ders in
      Ok (f :: fs)
  end.

Definition validate_root_bundle (path : string) : result LeafError (list string) :=
  let? certificates := or_err (load_certs path) LeafUnparsed in
  ensure? negb (is_nil certificates) else LeafNoCertificate in
  validate_roots certificates.

(** The inner loop: a fingerprint already owned fails. *)
Fixpoint claim_roots (domain : string) (owners : gmap string string) (ders : list string) :
    result LeafError (gmap string string) :=
  match ders with
  | [] => Ok owners
  | der :: ders =>
      let f := certificate_fingerprint_sha256 der in
      match owners !! f with
      | Some existing => Err (LeafShared existing domain)
      | None => claim_roots domain (<[f := domain]> owners) ders
      end
  end.

(** Each domain with the path of its bundle. *)
Fixpoint disjoint_roots (owners : gmap string string) (domains : list (string * string)) :
    result LeafError () :=
  match domains with
  | [] => Ok ()
  | (domain, path) :: domains =>
      let? _ := validate_root_bundle path in
      let? certificates := or_err (load_certs path) LeafUnparsed in
      let? owners := claim_roots domain owners certificates in
      disjoint_roots owners domains
  end.

Definition ensure_disjoint_ca_roots (domains : list (string * string)) : result LeafError () :=
  disjoint_roots ∅ domains.

(** ** Facts *)

Lemma or_err_ok {A} (o : option A) e a : or_err o e = Ok a ↔ o = Some a.
Proof. destruct o; cbn; naive_solver. Qed.

Lemma is_nil_true {A} (l : list A) : is_nil l = true ↔ l = [].
Proof. by destruct l. Qed.

Lemma collect_names_spec acc l names :
  collect_names acc l = Ok names →
  ∃ uris dns ips other, names = mkNames (sn_uris acc ++ uris) (sn_dns acc ++ dns)
      (sn_ips acc ++ ips) (sn_unsupported acc + other)
    ∧ (dns = [] → ips = [] → other = 0 → l = GnUri <$> uris).
Proof.
  revert acc. induction l as [|g l IH]; intros acc H; cbn in H.
  { injection H as <-. exists [], [], [], 0. rewrite !app_nil_r, Nat.add_0_r. by destruct acc. }
  destruct g; [| |destruct (_ || _); [|done]|];
    apply IH in H as (uris & dns & ips & other & -> & Hl); cbn.
  - exists (uri :: uris), dns, ips, other. rewrite <-app_assoc. split; [done|].
    intros H1 H2 H3. cbn. by rewrite Hl.
  - exists uris, (host :: dns), ips, other. by rewrite <-app_assoc.
  - exists uris, dns, (bytes :: ips), other. by rewrite <-app_assoc.
  - exists uris, dns, ips, (S other). by rewrite Nat.add_succ_r.
Qed.

(** The usages of a client leaf: client authentication and no other. *)
Definition client_usage_only (e : ExtendedKeyUsage) : Prop :=
  e = mkEku false false true false false false false [].

Lemma eku_matches_client e : eku_matches ClientProfile e = true ↔ client_usage_only e.
Proof.
  unfold client_usage_only, eku_matches, no_other_eku. destruct e as [a s c g m t o l]. cbn.
  rewrite !andb_true_iff, !negb_true_iff, is_nil_true. split; [|by intros [= -> -> -> -> -> -> -> ->]].
  intros [[-> ->] [[[[[-> ->] ->] ->] ->] ->]]. done.
Qed.

(** A client leaf certificate is accepted exactly when it is one DER certificate for
    client authentication only whose single name is the URI of a principal (of the expected
    cluster, when one is expected). The evidence is that principal, with the fingerprint of
    the whole certificate. *)
Theorem client_leaf_exact der expected e :
  parse_leaf_evidence der ClientProfile expected = Ok e ↔
  ∃ certificate eku uri principal,
    x509_from_der der = Some ("", certificate)
    ∧ x509_eku certificate = Some (Some eku) ∧ client_usage_only eku
    ∧ x509_san certificate = Some (Some [GnUri uri])
    ∧ principal_uri_parse uri = Ok principal
    ∧ (∀ cluster, expected = Some cluster → pu_cluster_id principal = cluster)
    ∧ e = mkEvidence ClientProfile (Some principal) [] [] (certificate_fingerprint_sha256 der)
            (x509_serial certificate) (certificate_fingerprint_sha256 (x509_spki certificate)).
Proof.
  unfold parse_leaf_evidence. split.
  - intros H. inv_ok H. repeat match goal with E : or_err _ _ = Ok _ |- _ => apply or_err_ok in E end.
    match goal with E : collect_names _ _ = Ok _ |- _ =>
      apply collect_names_spec in E as (uris & dns & ips & other & -> & Hl) end.
    match goal with E : leaf_principal _ _ _ = Ok _ |- _ => rename E into Hp end.
    cbn in Hp. destruct uris as [|uri [|]]; try done. inv_ok Hp. bool_to_prop.
    repeat match goal with E : is_nil _ = true |- _ => apply is_nil_true in E end. cbn in *.
    destruct (principal_uri_parse uri) as [principal|] eqn:Hu; [|done]. inv_ok Hp. simplify_eq.
    match goal with E : str_is_empty ?r = true |- _ => destruct r; [|done] end.
    match goal with E : x509_from_der _ = Some (_, ?c) |- _ => rename c into certificate end.
    match goal with E : x509_eku _ = Some ?o |- _ => exists certificate; rename E into Heku end.
    eexists _, uri, principal. split_and!; try done.
    + by apply eku_matches_client.
    + match goal with E : x509_san _ = _ |- _ => rewrite E end. by rewrite Hl.
    + intros cluster ->. by case_bool_decide.
  - intros (certificate & eku & uri & principal & Hd & He & Hc & Hs & Hp & Hcl & ->).
    rewrite Hd. cbn [or_err rbind str_is_empty]. rewrite He. cbn [or_err rbind].
    rewrite (proj2 (eku_matches_client eku) Hc), Hs. cbn. rewrite Hp.
    destruct expected as [cluster|]; cbn; [|done].
    by rewrite !bool_decide_eq_true_2 by first [done|by apply Hcl].
Qed.

Lemma claim_roots_ok domain owners ders owners' :
  claim_roots domain owners ders = Ok owners' →
  NoDup (certificate_fingerprint_sha256 <$> ders)
  ∧ (∀ f, f ∈ certificate_fingerprint_sha256 <$> ders → owners !! f = None)
  ∧ ∀ f, is_Some (owners' !! f) ↔ is_Some (owners !! f) ∨ f ∈ certificate_fingerprint_sha256 <$> ders.
Proof.
  revert owners. induction ders as [|der ders IH]; intros owners H; cbn in H.
  { injection H as <-. split; [constructor|]. split; [by intros f ?%elem_of_nil|].
    intros f. cbn. rewrite elem_of_nil. tauto. }
  destruct (owners !! certificate_fingerprint_sha256 der) eqn:E; [done|].
  apply IH in H as (Hnd & Hnew & Hdom). cbn. split_and!.
  - constructor; [|done]. intros Hin. apply Hnew in Hin. by rewrite lookup_insert_eq in Hin.
  - intros f [->|Hf]%elem_of_cons; [done|]. apply Hnew in Hf.
    destruct (decide (certificate_fingerprint_sha256 der = f)) as [<-|]; [done|].
    by rewrite lookup_insert_ne in Hf.
  - intros f. rewrite Hdom, lookup_insert_is_Some', elem_of_cons. naive_solver.
Qed.

Definition roots_of (path : string) : list string := default [] (load_certs path).

Lemma disjoint_roots_ok owners domains :
  disjoint_roots owners domains = Ok () →
  Forall (λ d, is_ok (validate_root_bundle d.2) = true) domains
  ∧ NoDup (certificate_fingerprint_sha256 <$> (d ← domains; roots_of d.2))
  ∧ ∀ f, f ∈ certificate_fingerprint_sha256 <$> (d ← domains; roots_of d.2) → owners !! f = None.
Proof.
  revert owners. induction domains as [|[domain path] domains IH]; intros owners H; cbn in H.
  { split; [constructor|]. split; [constructor|]. by intros f ?%elem_of_nil. }
  inv_ok H. repeat match goal with E : or_err _ _ = Ok _ |- _ => apply or_err_ok in E end.
  match goal with E : claim_roots _ _ _ = Ok _ |- _ =>
    apply claim_roots_ok in E as (Hnd & Hnew & Hdom) end.
  apply IH in H as (Hv & Hnd' & Hnew'). cbn. unfold roots_of at 1 3.
  match goal with E : load_certs _ = Some _ |- _ => rewrite E end. cbn [default].
  rewrite !fmap_app. split_and!.
  - constructor; [|done]. cbn. match goal with E : validate_root_bundle _ = Ok _ |- _ => by rewrite E end.
  - apply NoDup_app. split_and!; [done| |done]. intros f Hf Hf'.
    apply Hnew' in Hf'. assert (is_Some (x1 !! f)) as [? ?] by (apply Hdom; by right). congruence.
  - intros f [Hf|Hf]%elem_of_app; [by apply Hnew|]. apply Hnew' in Hf.
    destruct (owners !! f) eqn:E; [|done].
    assert (is_Some (x1 !! f)) as [? ?] by (apply Hdom; left; by eexists). congruence.
Qed.

(** Accepted trust domains share no certificate authority, and every bundle holds only
    certificate authorities. *)
Theorem trust_domains_disjoint domains i j d1 d2 der :
  ensure_disjoint_ca_roots domains = Ok () →
  domains !! i = Some d1 → domains !! j = Some d2 → der ∈ roots_of d1.2 → der ∈ roots_of d2.2 → i = j.
Proof.
  intros (_ & Hnd & _)%disjoint_roots_ok Hi Hj H1 H2.
  assert (∀ i j d1 d2, i < j → domains !! i = Some d1 → domains !! j = Some d2 →
    der ∈ roots_of d1.2 → der ∈ roots_of d2.2 → False) as Hlt.
  { clear -Hnd. intros i j d1 d2 Hij Hi Hj H1 H2. revert i j Hij Hi Hj.
    induction domains as [|d ds IH]; intros [|i] [|j] Hij Hi Hj; cbn in *; try done; try lia.
    - injection Hi as ->. rewrite fmap_app in Hnd. apply NoDup_app in Hnd as (_ & Hdis & _).
      apply (Hdis (certificate_fingerprint_sha256 der)); [by apply list_elem_of_fmap_2|].
      apply list_elem_of_fmap_2, list_elem_of_bind. exists d2.
      split; [done|by eapply list_elem_of_lookup_2].
    - rewrite fmap_app in Hnd. apply NoDup_app in Hnd as (_ & _ & Hnd).
      eapply IH; [done| |done|done]. lia. }
  destruct (lt_eq_lt_dec i j) as [[Hlt'|Heq]|Hlt']; [|done|].
  - by destruct (Hlt i j d1 d2).
  - by destruct (Hlt j i d2 d1).
Qed.
End tls.
