(* ===== verification/JobAdminApi.v ===== *)
(** * The job-administration service of engines (wr-engine/src/job_admin.rs)

    Managers administer the jobs of an engine's queue. Every call authenticates the
    manager's leaf certificate against the engine's workload snapshot, then enters the
    admission gate, then runs a query of [JobAdmin]. A call's certificates are those the
    transport verified; [admitted] is what [try_enter] of the gate ([Gate]) returned. *)

From S2P Require Import Prelude RustStr Lists Externals Models Identity Grpc JobQueue JobAdmin PolicyTypes Snapshot Tls.

(** ** The service *)

Record EngineJobAdminApi : Type := mkApi {
  api_queue_id : string;
  api_ready : bool;
  api_policy : SnapshotConsumerState;
}.

(** A call: the peer's certificates, the instants the two clock readings return, and whether
    the gate admitted it. *)
Record Call : Type := mkCall {
  call_peer_certs : option (list string);
  call_expire_at : Z;
  call_fresh_at : Z;
  call_admitted : bool;
}.

Section api.
Context `{SH : Sha256Lib, XL : X509Lib}.

(** The decision on the locked policy state. *)
Definition manager_enrolled_in (state : SnapshotConsumerState) (at_ : Z) (principal : PrincipalUri)
    (fingerprint : string) : bool :=
  is_fresh state at_
  && match retained state with
     | Some snapshot =>
         String.eqb (ws_cluster_id (is_wire snapshot)) (name_str (pu_cluster_id principal))
         && admits snapshot (pu_value principal) fingerprint
     | None => false
     end.

(** The call's verdict and the policy state it leaves: an expired snapshot turns stale. *)
Definition authorize_manager (policy : SnapshotConsumerState) (call : Call) :
    SnapshotConsumerState * result Status () :=
  match (certs ← call_peer_certs call; head certs) with
  | None => (policy, denied "authenticated manager certificate is required")
  | Some cert =>
      match parse_leaf_evidence cert ClientProfile None with
      | Err _ => (policy, denied "invalid manager client identity")
      | Ok evidence =>
          match le_principal evidence with
          | None => (policy, denied "manager principal is required")
          | Some principal =>
              if negb (bool_decide (pu_kind principal = ManagerKind))
              then (policy, denied "caller is not a manager workload")
              else
                let policy := expire policy (call_expire_at call) in
                (policy,
                 if manager_enrolled_in policy (call_fresh_at call) principal (le_fingerprint evidence)
                 then Ok ()
                 else denied "manager is not enrolled in a fresh engine policy snapshot")
          end
      end
  end.

Definition require_queue (api : EngineJobAdminApi) (call : Call) (queue_id : string) :
    result Status () :=
  ensure? String.eqb queue_id (api_queue_id api)
    else rpc_status CInvalidArgument "job_queue_id does not match this engine's configured queue" in
  ensure? api_ready api else rpc_status CUnavailable "job queue migrations are not complete" in
  ensure? call_admitted call else rpc_status CUnavailable "job administration is stopping" in
  Ok ().

(** [authorize_manager] then [require_queue], the prologue of every method. *)
Definition enter (api : EngineJobAdminApi) (call : Call) (queue_id : string) :
    EngineJobAdminApi * result Status () :=
  let '(policy, verdict) := authorize_manager (api_policy api) call in
  let api := mkApi (api_queue_id api) (api_ready api) policy in
  (api, let? _ := verdict in require_queue api call queue_id).

(** ** Conversions *)

Definition WIRE_PENDING : Z := 1.
Definition WIRE_RUNNING : Z := 2.
Definition WIRE_COMPLETE : Z := 3.
Definition WIRE_DEAD : Z := 4.

Definition domain_state (value : Z) : result Status JobState :=
  if (value =? WIRE_PENDING)%Z then Ok Pending
  else if (value =? WIRE_RUNNING)%Z then Ok Running
  else if (value =? WIRE_COMPLETE)%Z then Ok Complete
  else if (value =? WIRE_DEAD)%Z then Ok Dead
  else Err (rpc_status CInvalidArgument "unsupported job status").

Definition wire_state (value : JobState) : Z :=
  match value with
  | Pending => WIRE_PENDING | Running => WIRE_RUNNING | Complete => WIRE_COMPLETE | Dead => WIRE_DEAD
  end.
End api.

(** [chrono]: instants representable as [DateTime<Utc>], in nanoseconds. *)
Class ChronoLib : Type := {
  chrono_representable : Z → bool;
}.

Section conversions.
Context `{CH : ChronoLib}.

Definition from_timestamp (value : Timestamp) (field : string) : result Status Z :=
  ensure? (0 <=? ts_nanos value)%Z && (ts_nanos value <? 1000000000)%Z
    else rpc_status CInvalidArgument (field +:+ " is malformed") in
  let t := (ts_seconds value * 1000000000 + ts_nanos value)%Z in
  ensure? chrono_representable t else rpc_status CInvalidArgument (field +:+ " is out of range") in
  Ok t.

(** [timestamp] and [timestamp_subsec_nanos]. *)
Definition to_timestamp (value : Z) : Timestamp :=
  mkTimestamp (value / 1000000000) (value mod 1000000000).

(** The message [JobFilter]: empty texts leave a field out. *)
Record WireFilter : Type := mkWireFilter {
  wf_worker_namespace : string;
  wf_worker_name : string;
  wf_worker_version : string;
  wf_job_type : string;
  wf_source_namespace : string;
  wf_source_module : string;
  wf_created_at_from : option Timestamp;
  wf_created_at_before : option Timestamp;
}.

Definition wire_filter_default : WireFilter := mkWireFilter "" "" "" "" "" "" None None.

Definition nonempty (value : string) : option string :=
  if str_is_empty value then None else Some value.

Definition convert_filter (filter : option WireFilter) : result Status JobFilter :=
  let filter := default wire_filter_default filter in
  let? from := transpose (wf_created_at_from filter) (λ v, from_timestamp v "created_at_from") in
  let? before := transpose (wf_created_at_before filter) (λ v, from_timestamp v "created_at_before") in
  Ok (mkFilter (nonempty (wf_worker_namespace filter)) (nonempty (wf_worker_name filter))
        (nonempty (wf_worker_version filter)) (nonempty (wf_job_type filter))
        (nonempty (wf_source_namespace filter)) (nonempty (wf_source_module filter)) from before).

Definition map_error (error : JobAdminError) : Status :=
  match error with
  | Invalid message => rpc_status CInvalidArgument message
  | NotFound => rpc_status CNotFound "job not found"
  | FailedPrecondition message => rpc_status CFailedPrecondition message
  | AdminDatabase _ => rpc_status CInternal "job queue database operation failed"
  end.

Definition lift_admin {A} (r : result JobAdminError A) : result Status A :=
  match r with Ok a => Ok a | Err e => Err (map_error e) end.

Record WireSummary : Type := mkWireSummary {
  wj_job_id : string;
  wj_worker_namespace : string;
  wj_worker_name : string;
  wj_worker_version : string;
  wj_job_type : string;
  wj_status : Z;
  wj_attempt : Z;
  wj_max_attempts : Z;
  wj_source_namespace : string;
  wj_source_module : string;
  wj_created_at : Timestamp;
  wj_updated_at : Timestamp;
}.

Definition job_summary (v : JobListItem) : WireSummary :=
  mkWireSummary (li_job_id v) (li_worker_namespace v) (li_worker_name v) (li_worker_version v)
    (li_job_type v) (wire_state (li_status v)) (li_attempt v) (li_max_attempts v)
    (li_source_namespace v) (li_source_module v) (to_timestamp (li_created_at v))
    (to_timestamp (li_updated_at v)).

(** The message [JobDetail], as its summary fields and the rest. *)
Record WireDetail : Type := mkWireDetail {
  wd_summary : WireSummary;
  wd_payload : string;
  wd_result : string;
  wd_last_error : string;
  wd_timeout_secs : Z;
  wd_claimed_at : option Timestamp;
  wd_lease_expires_at : option Timestamp;
  wd_completed_at : option Timestamp;
  wd_claimed_by : string;
}.

Definition job_detail (v : JobDetail) : WireDetail :=
  mkWireDetail (job_summary (jd_summary v)) (jd_payload v) (jd_result v) (jd_last_error v)
    (jd_timeout v) (to_timestamp <$> jd_claimed_at v) (to_timestamp <$> jd_lease_expires_at v)
    (to_timestamp <$> jd_completed_at v) (jd_claimed_by v).
End conversions.

(** ** The methods *)

Record WireListRequest : Type := mkListRequest {
  lq_job_queue_id : string;
  lq_filter : option WireFilter;
  lq_status : option Z;
  lq_page_size : Z;
  lq_cursor : string;
}.

Record WireListResponse : Type := mkListResponse {
  lp_jobs : list WireSummary;
  lp_next_cursor : string;
}.

Record WireQueueSummary : Type := mkWireQueueSummary {
  wq_observed_at : Timestamp;
  wq_pending : Z;
  wq_running : Z;
  wq_complete : Z;
  wq_dead : Z;
  wq_total : Z;
  wq_depth : Z;
  wq_oldest_pending_at : option Timestamp;
}.

Section methods.
Context `{SH : Sha256Lib, XL : X509Lib, CH : ChronoLib, CL : CollationLib, CU : CursorLib}.

Definition check_job_queue (api : EngineJobAdminApi) (call : Call) (queue_id : string) :
    EngineJobAdminApi * result Status bool :=
  let '(api, entered) := enter api call queue_id in
  (api, let? _ := entered in Ok true).

Definition list_jobs_rpc (api : EngineJobAdminApi) (call : Call) (request : WireListRequest) (db : Db) :
    EngineJobAdminApi * result Status WireListResponse :=
  let '(api, entered) := enter api call (lq_job_queue_id request) in
  (api,
   let? _ := entered in
   let? filter := convert_filter (lq_filter request) in
   let? status := transpose (lq_status request) domain_state in
   let? page := lift_admin (list_jobs filter status (lq_page_size request) (lq_cursor request) db) in
   Ok (mkListResponse (job_summary <$> page_jobs page) (default "" (page_next page)))).

Definition get_job_queue_summary (api : EngineJobAdminApi) (call : Call) (queue_id : string)
    (filter : option WireFilter) (now : Z) (db : Db) :
    EngineJobAdminApi * result Status WireQueueSummary :=
  let '(api, entered) := enter api call queue_id in
  (api,
   let? _ := entered in
   let? filter := convert_filter filter in
   let? s := lift_admin (summarize_jobs now filter db) in
   Ok (mkWireQueueSummary (to_timestamp (observed_at s)) (s_pending s) (s_running s) (s_complete s)
         (s_dead s) (s_total s) (s_pending s) (to_timestamp <$> oldest_pending_at s))).

Definition get_job_rpc (api : EngineJobAdminApi) (call : Call) (queue_id job_id : string) (db : Db) :
    EngineJobAdminApi * result Status WireDetail :=
  let '(api, entered) := enter api call queue_id in
  (api,
   let? _ := entered in
   let? job := lift_admin (get_job job_id db) in
   Ok (job_detail job)).

(** The only method that changes the table. *)
Definition retry_job (api : EngineJobAdminApi) (call : Call) (queue_id job_id : string) (now : Z)
    (db : Db) : EngineJobAdminApi * result Status (WireDetail * Db) :=
  let '(api, entered) := enter api call queue_id in
  (api,
   let? _ := entered in
   let? (job, db) := lift_admin (retry_dead_job now job_id db) in
   Ok (job_detail job, db)).

(** The dispatch of [EngineJobAdminService]. *)
Inductive AdminRequest : Type :=
| CheckJobQueue (queue_id : string)
| ListJobs (request : WireListRequest)
| GetJobQueueSummary (queue_id : string) (filter : option WireFilter)
| GetJob (queue_id job_id : string)
| RetryJob (queue_id job_id : string).

Inductive AdminResponse : Type :=
| QueueChecked (ready : bool)
| JobsListed (response : WireListResponse)
| QueueSummarized (summary : WireQueueSummary)
| JobFound (job : WireDetail)
| JobRetried (job : WireDetail).

Definition result_map {E A B} (f : A → B) (r : result E A) : result E B :=
  match r with Ok a => Ok (f a) | Err e => Err e end.

Definition serve (api : EngineJobAdminApi) (call : Call) (request : AdminRequest) (now : Z) (db : Db) :
    EngineJobAdminApi * result Status AdminResponse * Db :=
  match request with
  | CheckJobQueue q =>
      let '(api, r) := check_job_queue api call q in (api, result_map QueueChecked r, db)
  | ListJobs q => let '(api, r) := list_jobs_rpc api call q db in (api, result_map JobsListed r, db)
  | GetJobQueueSummary q f =>
      let '(api, r) := get_job_queue_summary api call q f now db in
      (api, result_map QueueSummarized r, db)
  | GetJob q id => let '(api, r) := get_job_rpc api call q id db in (api, result_map JobFound r, db)
  | RetryJob q id =>
      let '(api, r) := retry_job api call q id now db in
      match r with
      | Ok (job, db) => (api, Ok (JobRetried job), db)
      | Err e => (api, Err e, db)
      end
  end.
End methods.

Definition request_queue (r : AdminRequest) : string :=
  match r with
  | CheckJobQueue q | GetJobQueueSummary q _ | GetJob q _ | RetryJob q _ => q
  | ListJobs r => lq_job_queue_id r
  end.

Section facts.
Context `{SH : Sha256Lib, XL : X509Lib, CH : ChronoLib, CL : CollationLib, CU : CursorLib}.

Lemma lift_admin_not_denied {A} (r : result JobAdminError A) : is_denied (lift_admin r) = false.
Proof. by destruct r as [|[]]. Qed.

(** A call the service does not admit gets the verdict of [enter] and leaves the table. *)
Lemma serve_refused api call request now db s :
  (enter api call (request_queue request)).2 = Err s →
  ∃ api', serve api call request now db = (api', Err s, db).
Proof.
  intros H. exists (enter api call (request_queue request)).1. unfold serve.
  destruct request; cbn in *;
    unfold check_job_queue, list_jobs_rpc, get_job_queue_summary, get_job_rpc, retry_job;
    destruct (enter _ _ _) as [api' r]; cbn in *; by rewrite H.
Qed.

(** Once entered, only a retry that succeeds changes the table. *)
Lemma serve_changes api call request now db api' r db' :
  serve api call request now db = (api', r, db') → db' ≠ db →
  ∃ q id job, request = RetryJob q id ∧ r = Ok (JobRetried job).
Proof.
  unfold serve. destruct request.
  - destruct (check_job_queue _ _ _). by intros [= _ _ <-].
  - destruct (list_jobs_rpc _ _ _ _). by intros [= _ _ <-].
  - destruct (get_job_queue_summary _ _ _ _ _ _). by intros [= _ _ <-].
  - destruct (get_job_rpc _ _ _ _ _). by intros [= _ _ <-].
  - destruct (retry_job _ _ _ _ _ _) as [? [[job d]|e]]; intros [= _ <- <-] Hne; [|done].
    by exists queue_id, job_id, job.
Qed.

(** What lets a call past [authorize_manager]. *)
Lemma authorize_manager_ok policy call policy' :
  authorize_manager policy call = (policy', Ok ()) →
  ∃ cert rest evidence principal x,
    call_peer_certs call = Some (cert :: rest)
    ∧ parse_leaf_evidence cert ClientProfile None = Ok evidence
    ∧ le_principal evidence = Some principal ∧ pu_kind principal = ManagerKind
    ∧ policy' = expire policy (call_expire_at call)
    ∧ is_fresh policy' (call_fresh_at call) = true ∧ retained policy' = Some x
    ∧ ws_cluster_id (is_wire x) = name_str (pu_cluster_id principal)
    ∧ admits x (pu_value principal) (le_fingerprint evidence) = true.
Proof.
  unfold authorize_manager. destruct (call_peer_certs call) as [[|cert rest]|]; [done| |done]. cbn.
  destruct (parse_leaf_evidence cert ClientProfile None) as [evidence|] eqn:He; [|done].
  destruct (le_principal evidence) as [principal|] eqn:Hp; [|done].
  case_bool_decide as Hk; [|done]. cbn. intros [= <- H]. unfold manager_enrolled_in in H.
  destruct (is_fresh _ _) eqn:Hf; [|done]. cbn in H.
  destruct (retained _) as [x|] eqn:Hr; [|done]. destruct (_ && _) eqn:E; [|done].
  apply andb_true_iff in E as [E1%String.eqb_eq E2].
  exists cert, rest, evidence, principal, x. done.
Qed.

Lemma enter_not_denied api call q :
  is_denied (enter api call q).2 = false → (authorize_manager (api_policy api) call).2 = Ok ().
Proof.
  unfold enter. destruct (authorize_manager (api_policy api) call) as [policy [[]|s]] eqn:E; [done|].
  cbn. intros H. exfalso. revert E. unfold authorize_manager. intros E.
  repeat (case_match; simplify_eq/=; try done).
Qed.

Lemma serve_not_denied api call request now db :
  is_denied (serve api call request now db).1.2 = false →
  (authorize_manager (api_policy api) call).2 = Ok ().
Proof.
  intros H. apply (enter_not_denied _ _ (request_queue request)).
  destruct (enter api call (request_queue request)).2 as [|s] eqn:E; [done|].
  destruct (serve_refused _ _ _ now db _ E) as [api' E']. by rewrite E' in H.
Qed.
End facts.
