(* ===== verification/Access.v ===== *)
(** * Who may call an engine and a proxy

    The pieces put together: a policy a manager loaded, the snapshots it serves, the consumer
    that keeps the last one, and the two listeners that decide from it, an engine's
    job-administration service and a proxy's peer listener (wr-proxy/src/main.rs). *)

From S2P Require Import Prelude RustStr Lists Externals Models Identity Grpc Http JobQueue JobAdmin PolicyTypes Snapshot SnapshotAgree Policy PolicyFacts PolicyDemo Tls JobAdminApi.

Section access.
Context `{SH : Sha256Lib, SC : SnapshotCodec, HL : HttpLib, TL : TomlLib, XL : X509Lib}.

(** The check a proxy makes for every request of a peer connection: [evidence] was parsed
    from the connection's certificate. *)
Definition peer_authorized (cluster_id : string) (policy : SnapshotConsumerState)
    (certs : option (list string)) (expire_at fresh_at : Z) : SnapshotConsumerState * bool :=
  match (certs ← certs; cert ← head certs; ok (parse_leaf_evidence cert ClientProfile None)) with
  | None => (policy, false)
  | Some evidence =>
      match le_principal evidence with
      | None => (policy, false)
      | Some principal =>
          if negb (String.eqb (name_str (pu_cluster_id principal)) cluster_id) then (policy, false)
          else
            let policy := expire policy expire_at in
            (policy,
             match retained policy with
             | None => false
             | Some snapshot =>
                 is_fresh policy fresh_at && admits snapshot (pu_value principal) (le_fingerprint evidence)
             end)
      end
  end.

(** Decoding what was built from a loaded policy. *)
Lemma decoded_from_policy document p kind issued bytes cluster wall x :
  policy_load document = Ok p → build_snapshot p kind issued = Ok bytes →
  decode_snapshot bytes cluster kind wall = Some (Ok x) →
  cluster = vp_cluster_id p
  ∧ ∀ principal fingerprint,
      admits x principal fingerprint = true ↔ enrolled_for p kind principal fingerprint.
Proof.
  intros (raw & Ht & Hr)%policy_load_run Hb Hd. pose proof (run_wf _ _ _ Ht Hr) as Hp.
  pose proof Hb as (Hk & ti & tu & d & Hi & Hu & Hdig & Ebytes & _)%build_snapshot_ok.
  destruct (projection_wf p kind Hp Hk) as (k & _ & Hwf).
  pose proof Hd as (_ & _ & Hdec & _ & _ & Hcl & _ & _ & Henv)%decode_snapshot_ok.
  pose proof (built_ranges p kind k ti tu d Hp Hwf) as Hranges.
  pose proof (built_texts p kind k ti tu d Hp Hwf (projection_digest_valid _ _ Hdig)) as Htexts.
  rewrite Ebytes, snapshot_decode_encode in Hdec by done. injection Hdec as Hw.
  assert (cluster = vp_cluster_id p) as -> by (rewrite <-Hcl, <-Hw; done).
  split; [done|]. rewrite <-Hw in Henv.
  apply check_envelope_ok in Henv as (t1 & t2 & ts1 & ts2 & E1 & D1 & E2 & D2 & -> & H0 & H1 & H2).
  injection E1 as <-. apply timestamp_roundtrip in Hi as [Hi _]. rewrite Hi in D1. injection D1 as <-.
  destruct (built_snapshot_agrees p kind issued bytes wall Hp Hb H1 H0 H2) as (y & Hy & _ & _ & Ha).
  rewrite Hd in Hy. injection Hy as <-. exact Ha.
Qed.

(** What an admission from a fresh state rests on. *)
Definition admitted_by (cluster : string) (kind : WorkloadProjectionKind) (inputs : list consumer_input)
    (at_ : Z) (principal fingerprint : string) : Prop :=
  ∃ pre bytes wall received post,
    inputs = pre ++ Received (Ok bytes) wall received true :: post
    ∧ Forall (λ i, ∃ n, i = Looked n) post
    ∧ (at_ < received + SNAPSHOT_VALIDITY)%Z
    ∧ ∀ document p issued, policy_load document = Ok p → build_snapshot p kind issued = Ok bytes →
        cluster = vp_cluster_id p ∧ enrolled_for p kind principal fingerprint.

Lemma fresh_admission cluster kind inputs state t1 t2 x principal fingerprint :
  consumer_run cluster kind Empty inputs = Some state →
  is_fresh (expire state t1) t2 = true → retained (expire state t1) = Some x →
  admits x principal fingerprint = true →
  admitted_by cluster kind inputs t2 principal fingerprint.
Proof.
  intros Hrun Hf Hret Ha.
  assert (is_fresh state t2 = true ∧ retained state = Some x) as [Hf' Hret'].
  { destruct state; cbn in *; try done. by destruct (_ <=? _)%Z. }
  destruct (consumer_fresh_cause _ _ _ _ _ Hrun Hf')
    as (pre & bytes & wall & now & post & y & until & -> & Hpost & Hdec & Hy & _ & Ht & _).
  rewrite Hret' in Hy. injection Hy as <-.
  exists pre, bytes, wall, now, post. split_and!; [done..|].
  intros document p issued Hp Hb. destruct (decoded_from_policy _ _ _ _ _ _ _ _ Hp Hb Hdec) as [Hc Hadm].
  split; [done|]. by apply Hadm.
Qed.

(** C7. Only enrolled managers administer an engine's jobs. Whatever the engine received so
    far, a call that is not denied presents a client certificate of a manager, and rests on
    the last snapshot the engine received, less than thirty seconds before; if that snapshot
    was built from a policy, the policy enrolls that manager and does not revoke that
    certificate. Only a successful retry changes the job table. *)
Theorem job_admin_requires_enrolled_manager `{CH : ChronoLib, CL : CollationLib, CU : CursorLib}
    cluster inputs queue ready state call request now db api r db' :
  consumer_run cluster EngineJobAdminV1 Empty inputs = Some state →
  serve (mkApi queue ready state) call request now db = (api, r, db') →
  (is_denied r = false →
     ∃ cert rest evidence principal,
       call_peer_certs call = Some (cert :: rest)
       ∧ parse_leaf_evidence cert ClientProfile None = Ok evidence
       ∧ le_principal evidence = Some principal ∧ pu_kind principal = ManagerKind
       ∧ admitted_by cluster EngineJobAdminV1 inputs (call_fresh_at call) (pu_value principal)
           (le_fingerprint evidence))
  ∧ (db' ≠ db → ∃ q id job, request = RetryJob q id ∧ r = Ok (JobRetried job) ∧ q = queue).
Proof.
  intros Hrun Hs. split.
  - intros Hd.
    assert (is_denied (serve (mkApi queue ready state) call request now db).1.2 = false) as Hd'
      by (by rewrite Hs).
    apply serve_not_denied in Hd'.
    destruct (authorize_manager _ call) as [policy v] eqn:E. cbn in Hd'. subst v.
    apply authorize_manager_ok in E
      as (cert & rest & evidence & principal & x & Hc & He & Hp & Hk & -> & Hf & Hr & _ & Ha).
    exists cert, rest, evidence, principal. split_and!; [done..|]. by eapply fresh_admission.
  - intros Hne. destruct (serve_changes _ _ _ _ _ _ _ _ Hs Hne) as (q & id & job & -> & ->).
    exists q, id, job. split_and!; [done..|].
    destruct (enter (mkApi queue ready state) call q).2 as [|s] eqn:E.
    + unfold enter in E. destruct (authorize_manager _ call) as [policy [[]|]]; [|done].
      cbn [snd rbind] in E. unfold require_queue in E. cbn [api_queue_id] in E.
      by destruct (String.eqb_spec q queue).
    + by destruct (serve_refused _ _ (RetryJob q id) now db _ E) as [? E']; rewrite E' in Hs.
Qed.

(** Only enrolled proxies reach a proxy's peer listener. *)
Theorem peer_requires_enrolled_proxy cluster inputs state certs t1 t2 state' :
  consumer_run cluster ProxyPeerV1 Empty inputs = Some state →
  peer_authorized cluster state certs t1 t2 = (state', true) →
  ∃ cert rest evidence principal,
    certs = Some (cert :: rest) ∧ parse_leaf_evidence cert ClientProfile None = Ok evidence
    ∧ le_principal evidence = Some principal ∧ name_str (pu_cluster_id principal) = cluster
    ∧ admitted_by cluster ProxyPeerV1 inputs t2 (pu_value principal) (le_fingerprint evidence).
Proof.
  intros Hrun H. unfold peer_authorized in H. destruct certs as [[|cert rest]|]; [done| |done]. cbn in H.
  destruct (parse_leaf_evidence cert ClientProfile None) as [evidence|] eqn:He; [|done]. cbn in H.
  destruct (le_principal evidence) as [principal|] eqn:Hp; [|done].
  destruct (String.eqb_spec (name_str (pu_cluster_id principal)) cluster) as [Hc|]; [|done]. cbn in H.
  injection H as _ H. destruct (retained _) as [x|] eqn:Hr; [|done].
  apply andb_true_iff in H as [Hf Ha].
  exists cert, rest, evidence, principal. split_and!; [done..|]. by eapply fresh_admission.
Qed.
End access.

(** ** The theorems at the example policy *)

(** Certificates of the example are the URI of their holder, marked. *)
Definition demo_from_der (der : string) : option (string * string) :=
  uri ← strip_prefix "leaf:" der; Some ("", uri).

Definition toy_x509 : X509Lib :=
  {| X509 := string; x509_from_der := demo_from_der;
     x509_eku _ := Some (Some (mkEku false false true false false false false []));
     x509_san uri := Some (Some [GnUri uri]);
     x509_basic_constraints_ca _ := Some (Some true);
     x509_key_usage_cert_sign _ := Some None;
     x509_spki uri := uri; x509_serial _ := "01"; load_certs _ := None |}.

Definition toy_chrono : ChronoLib := {| chrono_representable _ := true |}.

Section demo.
#[local] Existing Instances toy_sha256 toy_codec toy_http toy_toml toy_x509 toy_chrono toy_cursor toy_collation.

Definition demo_admin_bytes : string :=
  match build_snapshot demo_policy EngineJobAdminV1 demo_now with Ok b => b | Err _ => "" end.

Definition demo_inputs : list consumer_input := [Received (Ok demo_admin_bytes) demo_now 100 true].

Definition demo_state : SnapshotConsumerState :=
  default Empty (consumer_run "c" EngineJobAdminV1 Empty demo_inputs).

Definition demo_no_jobs : Db := mkDb ∅ [].

Definition demo_call : Call := mkCall (Some ["leaf:urn:wruntime:c:manager:m"]) 200 201 true.

Lemma demo_consumed : consumer_run "c" EngineJobAdminV1 Empty demo_inputs = Some demo_state.
Proof. vm_compute. reflexivity. Qed.

Lemma demo_served :
  (serve (mkApi "mail" true demo_state) demo_call (CheckJobQueue "mail") 0 demo_no_jobs).1.2
  = Ok (QueueChecked true).
Proof. vm_compute. reflexivity. Qed.

Lemma job_admin_requires_enrolled_manager_witness :
  ∃ cert rest evidence principal,
    call_peer_certs demo_call = Some (cert :: rest)
    ∧ parse_leaf_evidence cert ClientProfile None = Ok evidence
    ∧ le_principal evidence = Some principal ∧ pu_kind principal = ManagerKind
    ∧ admitted_by "c" EngineJobAdminV1 demo_inputs 201 (pu_value principal)
        (le_fingerprint evidence).
Proof.
  destruct (serve (mkApi "mail" true demo_state) demo_call (CheckJobQueue "mail") 0 demo_no_jobs)
    as [[api r] db'] eqn:E.
  apply (proj1 (job_admin_requires_enrolled_manager "c" demo_inputs "mail" true demo_state demo_call
    (CheckJobQueue "mail") 0 demo_no_jobs api r db' demo_consumed E)).
  pose proof demo_served as H. rewrite E in H. cbn in H. rewrite H. reflexivity.
Defined.
End demo.
