(* ===== verification/Lifecycle.v ===== *)
(** * The lifecycle of a process (wr-common/src/process_lifecycle.rs, lifecycle_observation.rs,
    lifecycle_service.rs)

    A process moves from starting to ready to stopping; its owner publishes one snapshot at
    a time, the lifecycle service reports it, and clients classify what they observe against
    the state they wait for. *)

From S2P Require Import Prelude RustStr Snapshot.

Definition MAX_TRANSITION_DETAIL_BYTES : Z := 1024.

Inductive ProcessState : Type := PStarting | PReady | PStopping.

Inductive ServiceKind : Type := SManager | SProxy | SEngine.

Inductive TransitionReason : Type :=
| ProcessStarted | StartupComplete | SignalInterrupt | SignalTerminate | ShutdownOrchestration
| TaskFailure.

#[global] Instance ProcessState_eq_dec : EqDecision ProcessState.
Proof. solve_decision. Defined.
#[global] Instance ServiceKind_eq_dec : EqDecision ServiceKind.
Proof. solve_decision. Defined.
#[global] Instance TransitionReason_eq_dec : EqDecision TransitionReason.
Proof. solve_decision. Defined.

Record LifecycleSnapshot : Type := mkLifecycle {
  lc_state : ProcessState;
  lc_service_kind : ServiceKind;
  lc_process_instance_id : string;
  lc_transitioned_at : Z;
  lc_reason : TransitionReason;
  lc_detail : string;
}.

Inductive TransitionError : Type :=
| Backwards (current requested : ProcessState)
| InvalidReason (state : ProcessState) (reason : TransitionReason)
| DetailTooLong (actual : Z).

(** ** The owner *)

Definition owner_new (kind : ServiceKind) (instance : string) (now : Z) : LifecycleSnapshot :=
  mkLifecycle PStarting kind instance now ProcessStarted "".

Definition reason_is_valid (requested : ProcessState) (reason : TransitionReason) : bool :=
  match requested, reason with
  | PReady, StartupComplete => true
  | PStopping, (SignalInterrupt | SignalTerminate | ShutdownOrchestration | TaskFailure) => true
  | _, _ => false
  end.

(** The snapshot published is the one returned, or the current one on an error. *)
Definition transition (current : LifecycleSnapshot) (requested : ProcessState)
    (reason : TransitionReason) (detail : string) (now : Z) :
    result TransitionError LifecycleSnapshot :=
  ensure? reason_is_valid requested reason else InvalidReason requested reason in
  ensure? (str_len detail <=? MAX_TRANSITION_DETAIL_BYTES)%Z else DetailTooLong (str_len detail) in
  ensure? negb (bool_decide (requested = PReady) && bool_decide (lc_state current = PStopping))
    else Backwards (lc_state current) requested in
  if bool_decide (requested = lc_state current) then Ok current
  else Ok (mkLifecycle requested (lc_service_kind current) (lc_process_instance_id current) now
             reason detail).

Definition mark_ready (current : LifecycleSnapshot) (detail : string) (now : Z) :
    result TransitionError LifecycleSnapshot :=
  transition current PReady StartupComplete detail now.

Definition request_stop (current : LifecycleSnapshot) (reason : TransitionReason) (detail : string)
    (now : Z) : result TransitionError LifecycleSnapshot :=
  transition current PStopping reason detail now.

(** What the watch slot holds after a call. *)
Definition published (current : LifecycleSnapshot) (r : result TransitionError LifecycleSnapshot) :
    LifecycleSnapshot :=
  match r with Ok next => next | Err _ => current end.

Inductive OwnerCall : Type :=
| MarkReady (detail : string) (now : Z)
| RequestStop (reason : TransitionReason) (detail : string) (now : Z).

Definition owner_call (current : LifecycleSnapshot) (c : OwnerCall) : LifecycleSnapshot :=
  match c with
  | MarkReady detail now => published current (mark_ready current detail now)
  | RequestStop reason detail now => published current (request_stop current reason detail now)
  end.

(** ** The wire *)

Definition wire_process_state (s : ProcessState) : Z :=
  match s with PStarting => 1 | PReady => 2 | PStopping => 3 end.

Definition wire_service_kind (k : ServiceKind) : Z :=
  match k with SManager => 1 | SProxy => 2 | SEngine => 3 end.

Definition wire_reason (r : TransitionReason) : Z :=
  match r with
  | ProcessStarted => 1 | StartupComplete => 2 | SignalInterrupt => 3 | SignalTerminate => 4
  | ShutdownOrchestration => 5 | TaskFailure => 6
  end.

Record LifecycleStatus : Type := mkLifecycleStatus {
  ls_state : Z;
  ls_service_kind : Z;
  ls_process_instance_id : string;
  ls_transitioned_at : option Timestamp;
  ls_reason : Z;
  ls_detail : string;
  ls_manager_id : string;
  ls_process_ready : bool;
  ls_policy_generation : Z;
  ls_policy_digest : string;
  ls_privileged_admission : Z;
  ls_rollout_operation_id : string;
  ls_rollout_phase : Z;
  ls_rollout_expected_set_hash : string;
}.

(** [From<SystemTime> for Timestamp]. *)
Definition wire_time (t : Z) : Timestamp := mkTimestamp (t / 1000000000) (t mod 1000000000).

Definition status_of (s : LifecycleSnapshot) : LifecycleStatus :=
  mkLifecycleStatus (wire_process_state (lc_state s)) (wire_service_kind (lc_service_kind s))
    (lc_process_instance_id s) (Some (wire_time (lc_transitioned_at s))) (wire_reason (lc_reason s))
    (lc_detail s) "" false 0 "" 0 "" 0 "".

(** ** The service *)

Record ManagerRolloutObservation : Type := mkObservation {
  ob_admission : Z;
  ob_rollout_operation_id : string;
  ob_rollout_phase : Z;
  ob_rollout_expected_set_hash : string;
}.

Inductive PrivilegedAdmission : Type :=
| AdmUnspecified | AdmOpen | AdmClosedStartup | AdmClosedRollout | AdmClosedMismatch.

Definition admission_number (a : PrivilegedAdmission) : Z :=
  match a with
  | AdmUnspecified => 0 | AdmOpen => 1 | AdmClosedStartup => 2 | AdmClosedRollout => 3
  | AdmClosedMismatch => 4
  end.

Definition admission_try_from (v : Z) : option PrivilegedAdmission :=
  if (v =? 0)%Z then Some AdmUnspecified
  else if (v =? 1)%Z then Some AdmOpen
  else if (v =? 2)%Z then Some AdmClosedStartup
  else if (v =? 3)%Z then Some AdmClosedRollout
  else if (v =? 4)%Z then Some AdmClosedMismatch
  else None.

(** [ManagerLifecycleState]: the default, [admission] and [update]. *)
Definition observation_default : ManagerRolloutObservation := mkObservation 0 "" 0 "".

Definition observed_admission (o : ManagerRolloutObservation) : PrivilegedAdmission :=
  default AdmClosedMismatch (admission_try_from (ob_admission o)).

Definition observation_update (a : PrivilegedAdmission) (operation : string) (phase : Z)
    (set_hash : string) : ManagerRolloutObservation :=
  mkObservation (admission_number a) operation phase set_hash.

Record ManagerMetadata : Type := mkManagerMetadata {
  mm_manager_id : string;
  mm_policy_generation : Z;
  mm_policy_digest : string;
  mm_rollout : ManagerRolloutObservation;
}.

(** [LifecycleServiceAdapter::get_status]. *)
Definition get_status (s : LifecycleSnapshot) (manager : option ManagerMetadata) : LifecycleStatus :=
  let st := status_of s in
  match manager with
  | None => st
  | Some m =>
      mkLifecycleStatus (ls_state st) (ls_service_kind st) (ls_process_instance_id st)
        (ls_transitioned_at st) (ls_reason st) (ls_detail st)
        (mm_manager_id m) (ls_state st =? wire_process_state PReady)%Z (mm_policy_generation m)
        (mm_policy_digest m) (ob_admission (mm_rollout m)) (ob_rollout_operation_id (mm_rollout m))
        (ob_rollout_phase (mm_rollout m)) (ob_rollout_expected_set_hash (mm_rollout m))
  end.

(** ** Observing a process *)

(** The generated enums: a specified value, or [None] for [Unspecified]. [try_from] fails
    on other numbers. *)
Definition process_state_try_from (v : Z) : option (option ProcessState) :=
  if (v =? 0)%Z then Some None
  else if (v =? 1)%Z then Some (Some PStarting)
  else if (v =? 2)%Z then Some (Some PReady)
  else if (v =? 3)%Z then Some (Some PStopping)
  else None.

Definition service_kind_try_from (v : Z) : option (option ServiceKind) :=
  if (v =? 0)%Z then Some None
  else if (v =? 1)%Z then Some (Some SManager)
  else if (v =? 2)%Z then Some (Some SProxy)
  else if (v =? 3)%Z then Some (Some SEngine)
  else None.

Inductive StatusValidationError : Type :=
| UnknownState (v : Z)
| UnspecifiedState
| UnknownServiceKind (v : Z)
| UnspecifiedServiceKind
| EmptyProcessInstance.

Record ValidatedStatus : Type := mkValidated {
  vs_state : ProcessState;
  vs_service_kind : ServiceKind;
  vs_process_instance_id : string;
}.

Definition validate_lifecycle_status (s : LifecycleStatus) :
    result StatusValidationError ValidatedStatus :=
  match process_state_try_from (ls_state s) with
  | None => Err (UnknownState (ls_state s))
  | Some None => Err UnspecifiedState
  | Some (Some state) =>
      match service_kind_try_from (ls_service_kind s) with
      | None => Err (UnknownServiceKind (ls_service_kind s))
      | Some None => Err UnspecifiedServiceKind
      | Some (Some kind) =>
          ensure? negb (str_is_empty (ls_process_instance_id s)) else EmptyProcessInstance in
          Ok (mkValidated state kind (ls_process_instance_id s))
      end
  end.

Inductive Classification : Type := Matched | StillPending | Terminal.

Inductive ClassificationError : Type := UnspecifiedExpected | UnspecifiedObserved.

Definition classify_lifecycle_state (observed expected : option ProcessState) :
    result ClassificationError Classification :=
  match expected, observed with
  | None, _ => Err UnspecifiedExpected
  | _, None => Err UnspecifiedObserved
  | Some expected, Some observed =>
      if bool_decide (observed = expected) then Ok Matched
      else match expected, observed with
           | PReady, PStarting | PStopping, (PStarting | PReady) => Ok StillPending
           | _, _ => Ok Terminal
           end
  end.

Inductive ReadyError : Type :=
| StatusOmitted
| StatusInvalid (e : StatusValidationError)
| NotReady
| KindMismatch.

Definition validate_ready_status (status : option LifecycleStatus) (expected : option ServiceKind) :
    result ReadyError LifecycleStatus :=
  match status with
  | None => Err StatusOmitted
  | Some status =>
      match validate_lifecycle_status status with
      | Err e => Err (StatusInvalid e)
      | Ok v =>
          ensure? bool_decide (vs_state v = PReady) else NotReady in
          ensure? bool_decide (Some (vs_service_kind v) = expected) else KindMismatch in
          Ok status
      end
  end.

(** ** Facts *)

Definition state_rank (s : ProcessState) : nat :=
  match s with PStarting => 0 | PReady => 1 | PStopping => 2 end.

(** A process in one state may later be in another. *)
Definition reaches (s t : ProcessState) : Prop :=
  ∀ c, lc_state c = s → ∃ calls, lc_state (foldl owner_call c calls) = t.

Lemma owner_call_cases c call :
  owner_call c call = c
  ∨ state_rank (lc_state c) < state_rank (lc_state (owner_call c call))
    ∧ lc_service_kind (owner_call c call) = lc_service_kind c
    ∧ lc_process_instance_id (owner_call c call) = lc_process_instance_id c
    ∧ (str_len (lc_detail (owner_call c call)) ≤ MAX_TRANSITION_DETAIL_BYTES)%Z
    ∧ reason_is_valid (lc_state (owner_call c call)) (lc_reason (owner_call c call)) = true.
Proof.
  assert (∀ requested reason detail now,
    let c' := published c (transition c requested reason detail now) in
    c' = c ∨ state_rank (lc_state c) < state_rank (lc_state c')
      ∧ lc_service_kind c' = lc_service_kind c
      ∧ lc_process_instance_id c' = lc_process_instance_id c
      ∧ (str_len (lc_detail c') ≤ MAX_TRANSITION_DETAIL_BYTES)%Z
      ∧ reason_is_valid (lc_state c') (lc_reason c') = true) as H.
  { intros requested reason detail now. unfold transition.
    destruct (reason_is_valid requested reason) eqn:Er; [|by left].
    destruct (Z.leb_spec (str_len detail) MAX_TRANSITION_DETAIL_BYTES) as [Hl|]; [|by left].
    destruct requested, (lc_state c) eqn:Es; try discriminate; repeat case_bool_decide; try done;
      cbn [negb andb published]; auto; right; rewrite ?Es; (split; [cbn; lia|split_and!; done]). }
  destruct call; apply H.
Qed.

Lemma owner_run_cases c calls :
  foldl owner_call c calls = c
  ∨ state_rank (lc_state c) < state_rank (lc_state (foldl owner_call c calls)).
Proof.
  revert c. induction calls as [|call calls IH]; intros c; [by left|]. cbn [foldl].
  destruct (owner_call_cases c call) as [->|(Hr & _)]; [apply IH|].
  destruct (IH (owner_call c call)) as [->|?]; right; lia.
Qed.

Lemma reaches_spec s t : reaches s t ↔ state_rank s ≤ state_rank t.
Proof.
  split.
  - intros H. destruct (H (mkLifecycle s SProxy "" 0 ProcessStarted "") eq_refl) as [calls <-].
    destruct (owner_run_cases (mkLifecycle s SProxy "" 0 ProcessStarted "") calls) as [->|Hr];
      [done|cbn [lc_state] in Hr; lia].
  - intros Hle c Hc.
    exists (match t with
            | PStarting => []
            | PReady => [MarkReady "" 0]
            | PStopping => [RequestStop TaskFailure "" 0]
            end).
    destruct t; cbn; unfold mark_ready, request_stop, transition; cbn; rewrite Hc;
      destruct s; cbn in Hle; try lia; repeat case_bool_decide; done.
Qed.

#[global] Instance reaches_dec s t : Decision (reaches s t).
Proof. refine (cast_if (decide (state_rank s ≤ state_rank t))); by rewrite reaches_spec. Defined.

(** A process is one instance for its lifetime and only moves forward: whatever is asked of
    its owner, a published snapshot is replaced only by one of a later state with the same
    identity, a reason of that state and a bounded detail; stopping is final. *)
Theorem lifecycle_moves_forward kind instance now calls call :
  let c := foldl owner_call (owner_new kind instance now) calls in
  let c' := owner_call c call in
  lc_service_kind c' = kind ∧ lc_process_instance_id c' = instance
  ∧ (c' = c ∨ state_rank (lc_state c) < state_rank (lc_state c')
              ∧ reason_is_valid (lc_state c') (lc_reason c') = true)
  ∧ (str_len (lc_detail c') ≤ MAX_TRANSITION_DETAIL_BYTES)%Z
  ∧ (lc_state c = PStopping → c' = c).
Proof.
  cbv zeta.
  assert (∀ calls, let c := foldl owner_call (owner_new kind instance now) calls in
    lc_service_kind c = kind ∧ lc_process_instance_id c = instance
    ∧ (str_len (lc_detail c) ≤ MAX_TRANSITION_DETAIL_BYTES)%Z) as Hinv.
  { intros l. induction l as [|x l IH] using rev_ind; [by split_and!|]. cbv zeta in *.
    rewrite foldl_app. cbn [foldl].
    destruct (owner_call_cases (foldl owner_call (owner_new kind instance now) l) x)
      as [->|(_ & E1 & E2 & E3 & _)]; [done|]. destruct IH as (? & ? & _). split_and!; congruence || done. }
  pose proof (Hinv (calls ++ [call])) as Hc. cbv zeta in Hc. rewrite foldl_app in Hc. cbn [foldl] in Hc.
  destruct Hc as (H1 & H2 & H3). split_and!; [done|done| |done|].
  - destruct (owner_call_cases (foldl owner_call (owner_new kind instance now) calls) call)
      as [?|(Hr & _ & _ & _ & Hv)]; [by left|by right].
  - intros Hs. destruct (owner_call_cases (foldl owner_call (owner_new kind instance now) calls) call)
      as [?|(Hr & _)]; [done|]. rewrite Hs in Hr.
    cbn [state_rank] in Hr. destruct (lc_state (owner_call _ _)); cbn [state_rank] in Hr; lia.
Qed.

(** Waiting for a process is decided exactly. Against a specified state, an observation
    is matched when it is that state, pending when the process can still reach it, and
    terminal when it never will: a client never gives up on a process that may still arrive,
    and never waits for one that cannot. *)
Theorem classification_decides_reachability observed expected :
  classify_lifecycle_state (Some observed) (Some expected)
  = Ok (if decide (observed = expected) then Matched
        else if decide (reaches observed expected) then StillPending else Terminal).
Proof.
  unfold classify_lifecycle_state. destruct (decide (reaches observed expected)) as [H|H];
    rewrite reaches_spec in H; destruct observed, expected; cbn in H; try lia;
    repeat case_bool_decide; repeat case_decide; done.
Qed.
