(* ===== verification/AuthTable.v ===== *)
(** * The authorization table of managers (wr-manager/src/auth.rs)

    One row per RPC of the manager listener: the roles that may call it, as text, and how
    workloads are bound to it; then the tables the code decides with, from methods to
    handler bindings and from rows to roles. *)

From S2P Require Import Prelude RustStr Identity PolicyTypes.

Definition MANAGER_SERVICE_SET : list string :=
  ["wruntime.ClusterService"; "wruntime.InfrastructureService"; "wruntime.NodeService";
   "wruntime.JobService"; "wruntime.PolicyService"; "wruntime.LifecycleService"].

Inductive WorkloadBinding : Type :=
| NotApplicable | ProxyBound | NodeAgentBound | EnrolledGlobal | ProxyEnrolledGlobal.

#[global] Instance WorkloadBinding_eq_dec : EqDecision WorkloadBinding.
Proof. solve_decision. Defined.

Inductive ControlProfile : Type :=
| SmallRead | LargeRead | ConfigWrite | Heartbeat | Operation | Job | SnapshotProfile | RolloutControl.

Record RpcAuthorizationRow : Type := mkAuthRow {
  row_service : string;
  row_method : string;
  row_capability_and_policy : string;
  row_extract_and_lookup : string;
  row_response_filter : string;
  row_workload : WorkloadBinding;
  row_control : ControlProfile;
}.

(** The macro [row!]. *)
Definition row (service method cap extract filter : string) (w : WorkloadBinding)
    (c : ControlProfile) : RpcAuthorizationRow :=
  mkAuthRow ("wruntime." +:+ service) method cap extract filter w c.

Definition MANAGER_RPC_ROWS : list RpcAuthorizationRow :=
  [ row "ClusterService" "ListEngines"
      "cluster.engines.read; H:view/admin, S:status"
      "node/namespace selectors; engine registry"
      "rows/count/page by matching tuples" NotApplicable LargeRead
  ; row "ClusterService" "GetRoutingTable"
      "cluster.routes.read; H:view/admin, S:status, W:proxy"
      "namespace selector; routing repository"
      "scoped human/SA; complete cluster routing for proxy" ProxyEnrolledGlobal LargeRead
  ; row "ClusterService" "UpsertRoutingRule"
      "cluster.routes.write; H:admin, S:route"
      "namespace/rule; routing repository"
      "n/a" NotApplicable ConfigWrite
  ; row "ClusterService" "DeleteRoutingRule"
      "cluster.routes.write; H:admin, S:route"
      "namespace/rule; routing repository"
      "n/a" NotApplicable ConfigWrite
  ; row "ClusterService" "ListManagers"
      "cluster.managers.read; H:view/admin, S:status, W:proxy"
      "manager lease repository"
      "bounded complete status" ProxyEnrolledGlobal SmallRead
  ; row "ClusterService" "GetClusterStatus"
      "cluster.status.read; H:view/admin, S:status"
      "selectors; composed status owner"
      "components/aggregates by tuples" NotApplicable LargeRead
  ; row "ClusterService" "GetSchema"
      "cluster.schema.read; H:view/admin, S:status, W:proxy"
      "namespace/module; schema repository"
      "requested schema" ProxyEnrolledGlobal LargeRead
  ; row "ClusterService" "SetSecret"
      "cluster.secrets.write; H:admin, S:secret"
      "namespace/key; secret repository"
      "n/a" NotApplicable ConfigWrite
  ; row "ClusterService" "DeleteSecret"
      "cluster.secrets.write; H:admin, S:secret"
      "namespace/key; secret repository"
      "n/a" NotApplicable ConfigWrite
  ; row "ClusterService" "ListSecrets"
      "cluster.secrets.read; H:admin, S:secret"
      "namespace/all; secret metadata repository"
      "metadata/count/page by tuples; never values" NotApplicable LargeRead
  ; row "ClusterService" "UpsertSchedule"
      "cluster.schedules.write; H:admin, S:schedule"
      "namespace/schedule; schedule repository"
      "n/a" NotApplicable ConfigWrite
  ; row "ClusterService" "DeleteSchedule"
      "cluster.schedules.write; H:admin, S:schedule"
      "namespace/schedule; schedule repository"
      "n/a" NotApplicable ConfigWrite
  ; row "ClusterService" "ListSchedules"
      "cluster.schedules.read; H:view/admin, S:status/schedule"
      "namespace/all; schedule repository"
      "rows/count/page by tuples" NotApplicable LargeRead
  ; row "InfrastructureService" "GetStatus"
      "infrastructure.status.read; H:view/infra/admin, S:status/infra"
      "node selectors; status owner"
      "nodes/operations/counts by tuples" NotApplicable LargeRead
  ; row "InfrastructureService" "SubmitOperation"
      "infrastructure.operations.write; H:infra/admin, S:infra"
      "request token plus node/target; operation repository"
      "n/a" NotApplicable Operation
  ; row "InfrastructureService" "GetOperation"
      "infrastructure.operations.read; H:view/infra/admin, S:status/infra"
      "operation ID; repository resolves node first"
      "one operation after node match" NotApplicable SmallRead
  ; row "InfrastructureService" "ListOperations"
      "infrastructure.operations.read; H:view/infra/admin, S:status/infra"
      "node/status selectors; operation repository"
      "rows/count/page by resolved node" NotApplicable LargeRead
  ; row "InfrastructureService" "ResumeOperation"
      "infrastructure.operations.write; H:infra/admin, S:infra"
      "operation ID; locked node/state lookup"
      "n/a" NotApplicable Operation
  ; row "InfrastructureService" "CancelOperation"
      "infrastructure.operations.write; H:infra/admin, S:infra"
      "operation ID; locked node/state lookup"
      "n/a" NotApplicable Operation
  ; row "InfrastructureService" "BeginDeployment"
      "infrastructure.deployments.write; H:infra/admin, S:deploy"
      "request token plus node/deployment/revision; deployment repository"
      "n/a" NotApplicable Operation
  ; row "InfrastructureService" "VerifyDeployment"
      "infrastructure.deployments.write; H:infra/admin, S:deploy"
      "deployment operation ID; node/revision lookup"
      "n/a" NotApplicable Operation
  ; row "InfrastructureService" "FinalizeDeployment"
      "infrastructure.deployments.write; H:infra/admin, S:deploy"
      "node/revision/state; locked deployment lookup"
      "n/a" NotApplicable Operation
  ; row "InfrastructureService" "AbandonDeployment"
      "infrastructure.deployments.write; H:infra/admin, S:deploy"
      "request token plus node; locked deployment and evidence lookup"
      "n/a" NotApplicable Operation
  ; row "InfrastructureService" "BeginRollback"
      "infrastructure.deployments.write; H:infra/admin, S:deploy"
      "request token plus deployment/target revision; authority lookup"
      "n/a" NotApplicable Operation
  ; row "InfrastructureService" "BeginManagerRollout"
      "infrastructure.manager-rollout.write; H:infra/admin, S:deploy; bootstrap/recovery exceptions"
      "caller UUID plus canonical target generation/digest/expected set and one-use recovery permit; rollout repository"
      "original rollout ID/state on exact token replay" NotApplicable RolloutControl
  ; row "InfrastructureService" "ResetFailedManagerRollout"
      "infrastructure.manager-rollout.write; while closed only recorded deployment principal"
      "exact failed rollout and stopped uniform-policy evidence; rollout guard CAS"
      "stable reset receipt" NotApplicable RolloutControl
  ; row "InfrastructureService" "AdvanceManagerRollout"
      "infrastructure.manager-rollout.write; while closed only recorded deployment principal"
      "rollout ID, expected phase/member outcomes; rollout CAS"
      "committed phase/members" NotApplicable RolloutControl
  ; row "InfrastructureService" "GetManagerRollout"
      "rollout read roles while open; recorded principal while closed"
      "rollout ID; rollout repository"
      "bounded phase/member status" NotApplicable RolloutControl
  ; row "InfrastructureService" "PutNodeAgentPolicy"
      "infrastructure.node-agent-policy.write; H:infra/admin, S:deploy"
      "bound node; policy repository"
      "n/a" NotApplicable ConfigWrite
  ; row "InfrastructureService" "GetNodeCleanupStatus"
      "infrastructure.cleanup.read; H:view/infra/admin, S:status/infra"
      "bound node; cleanup repository"
      "one bounded summary" NotApplicable SmallRead
  ; row "InfrastructureService" "RetryNodeCleanup"
      "infrastructure.cleanup.write; H:infra/admin, S:infra"
      "bound node/generation; cleanup repository"
      "queued generation" NotApplicable Operation
  ; row "NodeService" "RegisterProxy"
      "node.proxies.register; W:proxy"
      "authenticated proxy principal + bound node + process; inventory repository"
      "accepted exact tuple" ProxyBound Operation
  ; row "NodeService" "ReportProxyInventory"
      "node.proxies.report; W:proxy"
      "authenticated proxy principal + bound node + process; inventory repository"
      "manager receipt identity/time" ProxyBound Heartbeat
  ; row "NodeService" "DeregisterProxy"
      "node.proxies.deregister; W:proxy"
      "authenticated proxy principal + bound node + exact process; inventory repository"
      "clean tombstone" ProxyBound Operation
  ; row "NodeService" "RegisterEngine"
      "node.engines.register; W:proxy"
      "node + operation/revision/slot/activation; desired deployment/owner lookup"
      "credentials/current policy/fence for owner" ProxyBound Operation
  ; row "NodeService" "DeregisterEngine"
      "node.engines.deregister; W:proxy"
      "complete ownership fence; locked owner lookup"
      "n/a" ProxyBound Operation
  ; row "NodeService" "Heartbeat"
      "node.engines.heartbeat; W:proxy"
      "complete ownership fence; owner lookup"
      "matching complete engine snapshot" ProxyBound Heartbeat
  ; row "NodeService" "BeginEngineDrain"
      "node.engines.drain; W:proxy"
      "complete ownership fence; locked owner lookup"
      "n/a" ProxyBound Operation
  ; row "NodeService" "Attest"
      "node.attestations.write; W:node-agent"
      "bound node; agent policy lookup"
      "attestation decision and conditions" NodeAgentBound Heartbeat
  ; row "NodeService" "ClaimOperation"
      "node.operations.claim; W:node-agent"
      "bound node; queue selects that node"
      "returned operation matches node" NodeAgentBound Operation
  ; row "NodeService" "RenewOperationLease"
      "node.operations.renew; W:node-agent"
      "operation/lease epoch; owner/node lookup"
      "n/a" NodeAgentBound Heartbeat
  ; row "NodeService" "ClaimNodeCleanup"
      "node.cleanup.claim; W:node-agent"
      "bound node/generation; cleanup repository"
      "exact authority" NodeAgentBound Operation
  ; row "NodeService" "RenewNodeCleanupLease"
      "node.cleanup.renew; W:node-agent"
      "bound node/generation/claim; cleanup repository"
      "lease or superseded" NodeAgentBound Heartbeat
  ; row "NodeService" "ReportNodeCleanupResult"
      "node.cleanup.report; W:node-agent"
      "bound node/generation/claim; cleanup repository"
      "accepted or superseded" NodeAgentBound Operation
  ; row "NodeService" "ReportObservation"
      "node.observations.write; W:node-agent"
      "operation/node; node lookup"
      "n/a" NodeAgentBound Operation
  ; row "NodeService" "ReportStepResult"
      "node.steps.write; W:node-agent"
      "operation/step/lease; owner/node lookup"
      "n/a" NodeAgentBound Operation
  ; row "JobService" "ListJobQueues"
      "jobs.read; H:job-view/job-admin/admin, S:job-view/job-admin"
      "queue catalog"
      "rows/counts by whole-grant union" NotApplicable LargeRead
  ; row "JobService" "ListJobs"
      "jobs.read; H:job-view/job-admin/admin, S:job-view/job-admin"
      "queue/page; delegate lookup"
      "authorized queue" NotApplicable Job
  ; row "JobService" "GetJobQueueSummary"
      "jobs.read; H:job-view/job-admin/admin, S:job-view/job-admin"
      "queue; delegate lookup"
      "authorized queue summary" NotApplicable Job
  ; row "JobService" "GetJob"
      "jobs.read; H:job-view/job-admin/admin, S:job-view/job-admin"
      "queue/job; delegate lookup"
      "authorized queue/job" NotApplicable Job
  ; row "JobService" "RetryJob"
      "jobs.retry; H:job-admin/admin, S:job-admin"
      "queue/job; deterministic delegate then locked engine queue lookup"
      "mutation result" NotApplicable Job
  ; row "PolicyService" "GetPolicyStatus"
      "policy.status.read; H:view/admin, S:status, W:manager/proxy/node-agent"
      "immutable policy/admission snapshot"
      "bounded summary only" EnrolledGlobal SmallRead
  ; row "PolicyService" "GetWorkloadSnapshot"
      "policy.workload.read; W:proxy"
      "authenticated proxy; precomputed projection"
      "complete peer enrollments/revocations" ProxyEnrolledGlobal SnapshotProfile
  ; row "LifecycleService" "GetStatus"
      "lifecycle status roles and all enrolled workloads"
      "internal lifecycle/rollout observation"
      "bounded readiness/generation/digest/admission/rollout" EnrolledGlobal SmallRead ].

(** ** Workloads *)

Inductive WorkloadKind : Type := WkManager | WkProxy | WkNodeAgent.

#[global] Instance WorkloadKind_eq_dec : EqDecision WorkloadKind.
Proof. solve_decision. Defined.

Record EnrolledWorkload : Type := mkWorkload { ew_kind : WorkloadKind; ew_node_id : option string }.

(** The enrollment is of a kind, bound to a node, and that node is the one requested. *)
Definition bound_to (kind : WorkloadKind) (requested : option string) (w : EnrolledWorkload) : bool :=
  bool_decide (ew_kind w = kind) && bool_decide (is_Some (ew_node_id w))
  && bool_decide (ew_node_id w = requested).

Definition workload_binding_matches (binding : WorkloadBinding) (enrollment : option EnrolledWorkload)
    (requested : option string) : bool :=
  match binding with
  | NotApplicable => true
  | ProxyBound => is_some_and enrollment (bound_to WkProxy requested)
  | NodeAgentBound => is_some_and enrollment (bound_to WkNodeAgent requested)
  | EnrolledGlobal => bool_decide (is_Some enrollment)
  | ProxyEnrolledGlobal => is_some_and enrollment (λ w, bool_decide (ew_kind w = WkProxy))
  end.

(** ** Bindings of handlers *)

Inductive RequestExtractorClass : Type :=
| ExNone | ExNamespace | ExNode | ExAttestationNode | ExJobQueue | ExManagerSet | ExEngineOwnership
| ExOperationId | ExRoutingRule.

Inductive AuthoritativeLookupClass : Type :=
| LkNone | LkEngineRegistry | LkRoutingRepository | LkManagerLease | LkStatusRepository
| LkSchemaRepository | LkSecretRepository | LkScheduleRepository | LkOperationRepository
| LkDeploymentRepository | LkRolloutRepository | LkDesiredDeployment | LkJobDelegate.

Inductive ResponseFilterClass : Type :=
| RfNone | RfNamespaceTuple | RfNodeTuple | RfJobQueueTuple | RfBoundedStatus | RfWorkloadSnapshot.

Record HandlerAdapterBinding : Type := mkBinding {
  hb_extractor : RequestExtractorClass;
  hb_lookup : AuthoritativeLookupClass;
  hb_filter : ResponseFilterClass;
  hb_workload : WorkloadBinding;
}.

Definition one_of (s : string) (l : list string) : bool := existsb (String.eqb s) l.

(** The arms of the first [match], service by service; the first that applies. *)
Definition binding_arms : list (string * list string * (RequestExtractorClass
    * AuthoritativeLookupClass * ResponseFilterClass)) :=
  [ ("wruntime.ClusterService", ["ListEngines"], (ExNone, LkEngineRegistry, RfNodeTuple));
    ("wruntime.ClusterService", ["GetRoutingTable"], (ExNone, LkRoutingRepository, RfNamespaceTuple));
    ("wruntime.ClusterService", ["UpsertRoutingRule"], (ExRoutingRule, LkRoutingRepository, RfNone));
    ("wruntime.ClusterService", ["DeleteRoutingRule"], (ExOperationId, LkRoutingRepository, RfNone));
    ("wruntime.ClusterService", ["ListManagers"], (ExNone, LkManagerLease, RfBoundedStatus));
    ("wruntime.ClusterService", ["GetClusterStatus"], (ExNone, LkStatusRepository, RfNodeTuple));
    ("wruntime.ClusterService", ["GetSchema"], (ExNamespace, LkSchemaRepository, RfNamespaceTuple));
    ("wruntime.ClusterService", ["SetSecret"; "DeleteSecret"], (ExNamespace, LkSecretRepository, RfNone));
    ("wruntime.ClusterService", ["ListSecrets"], (ExNamespace, LkSecretRepository, RfNamespaceTuple));
    ("wruntime.ClusterService", ["UpsertSchedule"; "DeleteSchedule"],
       (ExNamespace, LkScheduleRepository, RfNone));
    ("wruntime.ClusterService", ["ListSchedules"], (ExNamespace, LkScheduleRepository, RfNamespaceTuple));
    ("wruntime.InfrastructureService", ["GetStatus"], (ExNode, LkStatusRepository, RfNodeTuple));
    ("wruntime.InfrastructureService", ["SubmitOperation"], (ExNode, LkOperationRepository, RfNone));
    ("wruntime.InfrastructureService", ["GetOperation"; "ResumeOperation"; "CancelOperation"],
       (ExOperationId, LkOperationRepository, RfNone));
    ("wruntime.InfrastructureService", ["ListOperations"], (ExNode, LkOperationRepository, RfNodeTuple));
    ("wruntime.InfrastructureService", ["BeginDeployment"], (ExNode, LkDeploymentRepository, RfNone));
    ("wruntime.InfrastructureService",
       ["VerifyDeployment"; "FinalizeDeployment"; "AbandonDeployment"; "BeginRollback"],
       (ExNode, LkDeploymentRepository, RfNone));
    ("wruntime.InfrastructureService",
       ["PutNodeAgentPolicy"; "GetNodeCleanupStatus"; "RetryNodeCleanup"],
       (ExNode, LkOperationRepository, RfNone));
    ("wruntime.InfrastructureService", ["BeginManagerRollout"],
       (ExManagerSet, LkRolloutRepository, RfBoundedStatus));
    ("wruntime.InfrastructureService",
       ["ResetFailedManagerRollout"; "AdvanceManagerRollout"; "GetManagerRollout"],
       (ExOperationId, LkRolloutRepository, RfBoundedStatus));
    ("wruntime.NodeService", ["RegisterProxy"; "ReportProxyInventory"; "DeregisterProxy"],
       (ExNode, LkStatusRepository, RfNone));
    ("wruntime.NodeService", ["RegisterEngine"],
       (ExEngineOwnership, LkDesiredDeployment, RfWorkloadSnapshot));
    ("wruntime.NodeService", ["DeregisterEngine"; "Heartbeat"; "BeginEngineDrain"],
       (ExEngineOwnership, LkEngineRegistry, RfNone));
    ("wruntime.NodeService", ["Attest"], (ExAttestationNode, LkOperationRepository, RfNodeTuple));
    ("wruntime.NodeService", ["ClaimOperation"; "ClaimNodeCleanup"],
       (ExNode, LkOperationRepository, RfNodeTuple));
    ("wruntime.NodeService",
       ["RenewOperationLease"; "ReportObservation"; "ReportStepResult"; "RenewNodeCleanupLease";
        "ReportNodeCleanupResult"],
       (ExOperationId, LkOperationRepository, RfNone));
    ("wruntime.JobService", ["ListJobQueues"], (ExNone, LkJobDelegate, RfJobQueueTuple));
    ("wruntime.JobService", ["ListJobs"; "GetJobQueueSummary"; "GetJob"; "RetryJob"],
       (ExJobQueue, LkJobDelegate, RfJobQueueTuple));
    ("wruntime.PolicyService", ["GetPolicyStatus"], (ExNone, LkNone, RfBoundedStatus));
    ("wruntime.PolicyService", ["GetWorkloadSnapshot"], (ExNone, LkNone, RfWorkloadSnapshot));
    ("wruntime.LifecycleService", ["GetStatus"], (ExNone, LkNone, RfBoundedStatus)) ].

Definition row_is (service method : string) (r : RpcAuthorizationRow) : bool :=
  String.eqb (row_service r) service && String.eqb (row_method r) method.

(** [iter().find(..)]. *)
Definition find_row (service method : string) : option RpcAuthorizationRow :=
  List.find (row_is service method) MANAGER_RPC_ROWS.

Definition handler_adapter_binding (service method : string) : option HandlerAdapterBinding :=
  '(_, _, (e, l, f)) ← List.find (λ '(s, ms, _), String.eqb service s && one_of method ms) binding_arms;
  r ← find_row service method;
  Some (mkBinding e l f (row_workload r)).

(** ** Roles *)

Definition rollout_and_deploy_methods : list string :=
  ["BeginDeployment"; "VerifyDeployment"; "FinalizeDeployment"; "AbandonDeployment";
   "PutNodeAgentPolicy"; "BeginRollback"; "BeginManagerRollout"; "ResetFailedManagerRollout";
   "AdvanceManagerRollout"].

Definition operation_methods : list string :=
  ["SubmitOperation"; "ResumeOperation"; "CancelOperation"; "RetryNodeCleanup"].

Definition roles_for_row (r : RpcAuthorizationRow) (kind : PrincipalKind) : list PolicyRole :=
  let s := row_service r in
  let m := row_method r in
  match kind with
  | Human =>
      if String.eqb s "wruntime.ClusterService" then
        if one_of m ["UpsertRoutingRule"; "DeleteRoutingRule"] then [RAdmin]
        else if one_of m ["SetSecret"; "DeleteSecret"; "ListSecrets"] then [RAdmin]
        else if one_of m ["UpsertSchedule"; "DeleteSchedule"] then [RAdmin]
        else if String.eqb m "ListSchedules" then [RAdmin; RView]
        else [RAdmin; RView]
      else if String.eqb s "wruntime.InfrastructureService" then
        if one_of m operation_methods then [RAdmin; RInfra]
        else if one_of m rollout_and_deploy_methods then [RAdmin; RInfra]
        else [RAdmin; RInfra; RView]
      else if String.eqb s "wruntime.JobService" then
        if String.eqb m "RetryJob" then [RAdmin; RJobAdmin] else [RAdmin; RJobAdmin; RJobView]
      else if String.eqb s "wruntime.PolicyService" then [RAdmin; RView]
      else if String.eqb s "wruntime.LifecycleService" then [RAdmin; RView; RInfra]
      else []
  | ServiceAccount =>
      if String.eqb s "wruntime.ClusterService" then
        if one_of m ["UpsertRoutingRule"; "DeleteRoutingRule"] then [RRoute]
        else if one_of m ["SetSecret"; "DeleteSecret"; "ListSecrets"] then [RSecret]
        else if one_of m ["UpsertSchedule"; "DeleteSchedule"] then [RSchedule]
        else if String.eqb m "ListSchedules" then [RStatus; RSchedule]
        else [RStatus]
      else if String.eqb s "wruntime.InfrastructureService" then
        if one_of m operation_methods then [RInfra]
        else if one_of m rollout_and_deploy_methods then [RDeploy]
        else if String.eqb m "GetManagerRollout" then [RDeploy; RInfra; RStatus]
        else [RInfra; RStatus]
      else if String.eqb s "wruntime.JobService" then
        if String.eqb m "RetryJob" then [RJobAdmin] else [RJobAdmin; RJobView]
      else if String.eqb s "wruntime.PolicyService" then [RStatus]
      else if String.eqb s "wruntime.LifecycleService" then [RStatus; RInfra; RDeploy]
      else []
  | _ => []
  end.
