(* ===== verification/Auth.v ===== *)
(** * The authorizer of managers (wr-manager/src/auth.rs)

    Every RPC of the manager listener is authorized from the client's leaf certificate and
    the validated policy: workloads by their enrollment and the binding of the RPC's row,
    humans and service accounts by one role assignment that covers the whole resource. The
    request's extensions carry the principal and the authorized call to the handlers. *)

From S2P Require Import Prelude RustStr Lists Orders Externals Models Identity Grpc Http PolicyTypes Snapshot SnapshotAgree Policy PolicyFacts PolicyDemo Tls Access AuthTable.

(** ** Assignments as tuples of dimensions *)

(** [None] leaves a dimension unscoped. *)
Definition ResourceAssignment : Type := gmap string (option (gset string)).

Definition scoped (a : ResourceAssignment) (dimension : string) (values : list string) :
    ResourceAssignment := <[dimension := Some (list_to_set values)]> a.

Definition unscoped (a : ResourceAssignment) (dimension : string) : ResourceAssignment :=
  <[dimension := None]> a.

Definition covers (a : ResourceAssignment) (resource : gmap string string) : bool :=
  forallb (λ '(dimension, value),
    match a !! dimension with
    | Some None => true
    | Some (Some values) => bool_decide (value ∈ values)
    | None => false
    end) (btree_entries resource).

Definition assignment_union_covers (assignments : list ResourceAssignment)
    (resource : gmap string string) : bool :=
  existsb (λ a, covers a resource) assignments.

Definition filter_authorized {T} (rows : list T) (assignments : list ResourceAssignment)
    (resource : T → gmap string string) : list T :=
  List.filter (λ row, assignment_union_covers assignments (resource row)) rows.

(** ** Calls *)

Record AuthorizedPrincipal : Type := mkPrincipal {
  ap_name : string;
  ap_kind : PrincipalKind;
  ap_node_id : option string;
  ap_fingerprint : string;
}.

Record AuthorizationResource : Type := mkResource {
  ar_namespace_id : option string;
  ar_node_id : option string;
  ar_job_queue_id : option string;
  ar_manager_ids : list string;
}.

(** [OwnedAuthorizationResource]: the resource with the union of the granted values in each
    dimension, absent when some grant leaves the dimension unrestricted. *)
Record OwnedResource : Type := mkOwned {
  or_resource : AuthorizationResource;
  or_namespace_filter : option (gset string);
  or_node_filter : option (gset string);
  or_job_queue_filter : option (gset string);
  or_manager_filter : option (gset string);
}.

Record AuthorizedCall : Type := mkAuthorizedCall {
  ac_service : string;
  ac_method : string;
  ac_principal : AuthorizedPrincipal;
  ac_resource : OwnedResource;
  ac_assignments : list RoleAssignment;
}.

(** The parts of a [tonic::Request] the authorizer reads and writes. *)
Record RpcRequest : Type := mkAuthRequest {
  rq_peer_certs : option (list string);
  rq_principal : option AuthorizedPrincipal;
  rq_call : option AuthorizedCall;
}.

Definition insert_principal (r : RpcRequest) (p : AuthorizedPrincipal) : RpcRequest :=
  mkAuthRequest (rq_peer_certs r) (Some p) (rq_call r).

Definition insert_call (r : RpcRequest) (c : AuthorizedCall) : RpcRequest :=
  mkAuthRequest (rq_peer_certs r) (rq_principal r) (Some c).

(** [allowed.as_ref().is_none_or(|allowed| allowed.contains(value))]. *)
Definition permits (allowed : option (gset string)) (value : string) : bool :=
  match allowed with None => true | Some s => bool_decide (value ∈ s) end.

(** The same of an optional value. *)
Definition permits_opt (allowed : option (gset string)) (value : option string) : bool :=
  match value with None => true | Some v => permits allowed v end.

Definition allows_collection_item (c : AuthorizedCall)
    (namespace_id node_id job_queue_id manager_id : option string) : bool :=
  bool_decide (ac_assignments c = [])
  || existsb (λ a,
       permits_opt (sc_namespace_ids (ra_scope a)) namespace_id
       && permits_opt (sc_node_ids (ra_scope a)) node_id
       && permits_opt (sc_job_queue_ids (ra_scope a)) job_queue_id
       && permits_opt (sc_manager_ids (ra_scope a)) manager_id) (ac_assignments c).

Definition principal_node_id (c : AuthorizedCall) : option string := ap_node_id (ac_principal c).

Definition job_queue_filter (c : AuthorizedCall) : option (gset string) :=
  or_job_queue_filter (ac_resource c).

Definition verify (c : AuthorizedCall) (service method : string) : result Status () :=
  if negb (String.eqb (ac_service c) service) || negb (String.eqb (ac_method c) method)
  then denied "authorized caller context does not match the invoked RPC"
  else Ok ().

(** ** The policy of principals *)

Record PrincipalPolicy : Type := mkPrincipalPolicy {
  pp_snapshot : ValidatedPolicy;
  pp_cluster : ClusterId;
}.

(** Panics on an invalid cluster id. *)
Definition principal_policy_new (snapshot : ValidatedPolicy) : option PrincipalPolicy :=
  cluster ← ok (name_parse TClusterId (vp_cluster_id snapshot));
  Some (mkPrincipalPolicy snapshot cluster).

(** [iter().find(|e| e.principal == uri).map(|e| e.node_id)]. *)
Definition enrolled_node (l : list NodeEnrollment) (principal : string) : option string :=
  ne_node_id <$> List.find (λ e, String.eqb (ne_principal e) principal) l.

Definition manager_is_enrolled (p : ValidatedPolicy) (principal : string) : bool :=
  existsb (λ e, String.eqb (me_principal e) principal) (vp_manager_enrollments p).

Definition has_one_of (roles : list PolicyRole) (role : PolicyRole) : bool :=
  bool_decide (role ∈ roles).

(** The assignments of a principal with one of the roles. *)
Definition holds (principal : string) (roles : list PolicyRole) (a : RoleAssignment) : bool :=
  String.eqb (ra_principal a) principal && has_one_of roles (ra_role a).

Definition has_role (p : PrincipalPolicy) (principal : AuthorizedPrincipal)
    (roles : list PolicyRole) : bool :=
  existsb (holds (ap_name principal) roles) (vp_assignments (pp_snapshot p)).

Definition has_node_grant (p : PrincipalPolicy) (principal : AuthorizedPrincipal)
    (human_roles service_roles : list PolicyRole) (node_id : option string) : bool :=
  match ap_kind principal with
  | Human => existsb (λ a, holds (ap_name principal) human_roles a
                           && permits_opt (sc_node_ids (ra_scope a)) node_id)
               (vp_assignments (pp_snapshot p))
  | ServiceAccount => existsb (λ a, holds (ap_name principal) service_roles a
                           && permits_opt (sc_node_ids (ra_scope a)) node_id)
               (vp_assignments (pp_snapshot p))
  | _ => false
  end.

(** A scope covers a complete resource. *)
Definition scope_covers (s : AssignmentScope) (r : AuthorizationResource) : bool :=
  permits_opt (sc_namespace_ids s) (ar_namespace_id r)
  && permits_opt (sc_node_ids s) (ar_node_id r)
  && permits_opt (sc_job_queue_ids s) (ar_job_queue_id r)
  && match sc_manager_ids s with
     | None => true
     | Some allowed => forallb (λ v, bool_decide (v ∈ allowed)) (ar_manager_ids r)
     end.

Definition workload_kind (k : PrincipalKind) : option WorkloadKind :=
  match k with
  | ManagerKind => Some WkManager
  | ProxyKind => Some WkProxy
  | NodeAgent => Some WkNodeAgent
  | _ => None
  end.

(** The enrollment of a principal; a manager's is the empty node id. *)
Definition row_node (p : ValidatedPolicy) (kind : PrincipalKind) (uri : string) : option string :=
  match kind with
  | ProxyKind => enrolled_node (vp_proxy_enrollments p) uri
  | NodeAgent => enrolled_node (vp_node_agent_enrollments p) uri
  | ManagerKind => if manager_is_enrolled p uri then Some "" else None
  | _ => None
  end.

Definition non_empty (node : option string) : option string :=
  n ← node; if str_is_empty n then None else Some n.

Definition unauthenticated {A} (message : string) : result Status A :=
  Err (rpc_status CUnauthenticated message).

Definition authorize_row_evidence (pp : PrincipalPolicy) (service method : string)
    (evidence : LeafEvidence) (resource : AuthorizationResource) :
    result Status AuthorizedPrincipal :=
  let p := pp_snapshot pp in
  match le_profile evidence, le_principal evidence with
  | ServerProfile, _ => unauthenticated "authenticated leaf is not a client profile"
  | ClientProfile, None => unauthenticated "client certificate principal is unavailable"
  | ClientProfile, Some uri =>
    if negb (bool_decide (pu_cluster_id uri = pp_cluster pp))
    then denied "client principal belongs to the wrong cluster"
    else if bool_decide (le_fingerprint evidence ∈ vp_revoked_leaf_fingerprints p)
    then denied "client certificate leaf is revoked"
    else match vp_principals p !! pu_value uri with
    | None => denied "client principal is not declared by policy"
    | Some kind =>
      if negb (bool_decide (kind = pu_kind uri))
      then denied "client principal is not declared by policy"
      else let node_id := row_node p kind (pu_value uri) in
      if bool_decide (is_Some (workload_kind kind)) && bool_decide (node_id = None)
      then denied "workload principal is not enrolled"
      else match find_row service method with
      | None => denied "RPC has no authorization row"
      | Some row =>
        match handler_adapter_binding service method with
        | None => denied "RPC has no handler adapter binding"
        | Some _ =>
          let principal := mkPrincipal (pu_value uri) kind (non_empty node_id) (le_fingerprint evidence) in
          match workload_kind kind with
          | Some wk =>
              if negb (bool_decide (row_workload row = NotApplicable))
                 && workload_binding_matches (row_workload row)
                      (Some (mkWorkload wk (ap_node_id principal))) (ar_node_id resource)
              then Ok principal
              else denied "workload binding does not authorize this RPC"
          | None =>
              if existsb (λ a, holds (ap_name principal) (roles_for_row row kind) a
                               && scope_covers (ra_scope a) resource) (vp_assignments p)
              then Ok principal
              else denied "role scope does not cover the complete resource tuple"
          end
        end
      end
    end
  end.

Section auth.
Context `{SH : Sha256Lib, XL : X509Lib}.
(** [error.to_string()] of a rejected certificate. *)
Context (leaf_error_text : LeafError → string).

Definition peer_evidence (pp : PrincipalPolicy) (request : RpcRequest) : result Status LeafEvidence :=
  match rq_peer_certs request with
  | Some (certificate :: _) =>
      match validate_client_leaf certificate (pp_cluster pp) with
      | Ok evidence => Ok evidence
      | Err e => unauthenticated (leaf_error_text e)
      end
  | _ => unauthenticated "client certificate identity is unavailable"
  end.

(** [None] is the panic of [expect] on evidence without a principal. *)
Definition peer (pp : PrincipalPolicy) (request : RpcRequest) :
    option (result Status AuthorizedPrincipal) :=
  let p := pp_snapshot pp in
  match rq_principal request with
  | Some principal => Some (Ok principal)
  | None =>
    match peer_evidence pp request with
    | Err e => Some (Err e)
    | Ok evidence =>
      if bool_decide (le_fingerprint evidence ∈ vp_revoked_leaf_fingerprints p)
      then Some (denied "client certificate leaf is revoked")
      else uri ← le_principal evidence;
      Some (match vp_principals p !! pu_value uri with
      | None => denied "client principal is not declared by policy"
      | Some kind =>
        let found node := Ok (mkPrincipal (pu_value uri) kind node (le_fingerprint evidence)) in
        match kind with
        | ProxyKind => found (enrolled_node (vp_proxy_enrollments p) (pu_value uri))
        | NodeAgent => found (enrolled_node (vp_node_agent_enrollments p) (pu_value uri))
        | ManagerKind =>
            if manager_is_enrolled p (pu_value uri) then found None
            else denied "manager principal is not enrolled"
        | _ => found None
        end
      end)
    end
  end.

Definition allowed_while_closed (service method : string) : bool :=
  String.eqb service "wruntime.LifecycleService"
  || (String.eqb service "wruntime.InfrastructureService"
      && one_of method ["BeginManagerRollout"; "ResetFailedManagerRollout";
                        "AdvanceManagerRollout"; "GetManagerRollout"]).

(** The closure [collect_scope]. *)
Definition collect_scope (assignments : list RoleAssignment)
    (select : AssignmentScope → option (gset string)) : option (gset string) :=
  if existsb (λ a, bool_decide (select (ra_scope a) = None)) assignments then None
  else Some (⋃ omap (λ a, select (ra_scope a)) assignments).

(** The node of the request, or the one its principal is enrolled for. *)
Definition effective_resource (pp : PrincipalPolicy) (evidence : LeafEvidence)
    (resource : AuthorizationResource) : AuthorizationResource :=
  let p := pp_snapshot pp in
  let node := match ar_node_id resource with
    | Some node => Some node
    | None => uri ← le_principal evidence;
        enrolled_node (vp_proxy_enrollments p ++ vp_node_agent_enrollments p) (pu_value uri)
    end in
  mkResource (ar_namespace_id resource) node (ar_job_queue_id resource) (ar_manager_ids resource).

(** [ManagerAuthorizer::authorize]; [open] is what [admission.is_open()] returned, and
    [None] the panic of [expect] on a missing row. *)
Definition authorize (pp : PrincipalPolicy) (open : bool) (request : RpcRequest)
    (service method : string) (resource : AuthorizationResource) :
    option (RpcRequest * result Status AuthorizedCall) :=
  let fail r := Some (request, r) in
  if negb (bool_decide (length (List.filter (row_is service method) MANAGER_RPC_ROWS) = 1))
     || bool_decide (handler_adapter_binding service method = None)
  then fail (denied "RPC authorization metadata is missing or ambiguous")
  else match peer_evidence pp request with
  | Err e => fail (Err e)
  | Ok evidence =>
    let effective := effective_resource pp evidence resource in
    match authorize_row_evidence pp service method evidence effective with
    | Err e => fail (Err e)
    | Ok principal =>
      if negb open && negb (allowed_while_closed service method)
      then fail (Err (rpc_status CUnavailable "privileged manager admission is closed"))
      else row ← find_row service method;
      let roles := roles_for_row row (ap_kind principal) in
      let assignments := List.filter (holds (ap_name principal) roles)
                           (vp_assignments (pp_snapshot pp)) in
      let call := mkAuthorizedCall service method principal
        (mkOwned effective
           (collect_scope assignments sc_namespace_ids) (collect_scope assignments sc_node_ids)
           (collect_scope assignments sc_job_queue_ids) (collect_scope assignments sc_manager_ids))
        assignments in
      Some (insert_call (insert_principal request principal) call, Ok call)
    end
  end.

(** ** The checks of handlers *)

(** A peer that passes a test is recorded in the request. *)
Definition require_peer (pp : PrincipalPolicy) (request : RpcRequest)
    (test : AuthorizedPrincipal → bool) (message : string) :
    option (RpcRequest * result Status AuthorizedPrincipal) :=
  r ← peer pp request;
  Some (match r with
        | Err e => (request, Err e)
        | Ok principal =>
            if test principal then (insert_principal request principal, Ok principal)
            else (request, denied message)
        end).

Definition allows_infrastructure_read (pp : PrincipalPolicy) (principal : AuthorizedPrincipal)
    (node_id : string) : bool :=
  has_node_grant pp principal [RAdmin; RView; RInfra] [RStatus; RInfra] (Some node_id).

Definition authorize_infrastructure_read pp request (node_id : option string) :=
  require_peer pp request
    (λ principal, has_node_grant pp principal [RAdmin; RView; RInfra] [RStatus; RInfra] node_id)
    "infrastructure read scope does not cover the requested node".

Definition authorize_infrastructure_write pp request (node_id : string) :=
  require_peer pp request
    (λ principal, has_node_grant pp principal [RAdmin; RInfra] [RInfra] (Some node_id))
    "infrastructure write scope does not cover the requested node".

Definition authorize_read pp request :=
  require_peer pp request
    (λ principal, has_role pp principal [RAdmin; RView; RInfra; RStatus; RDeploy])
    "read role is required".

Definition authorize_operator pp request :=
  require_peer pp request (λ principal, has_role pp principal [RAdmin; RInfra; RDeploy])
    "infrastructure write role is required".

Definition authorize_enrolled pp request :=
  require_peer pp request
    (λ principal,
      (bool_decide (ap_kind principal = Human) || bool_decide (ap_kind principal = ServiceAccount))
        && has_role pp principal [RAdmin; RView; RInfra; RStatus; RDeploy]
      || bool_decide (is_Some (workload_kind (ap_kind principal))))
    "policy status role or workload enrollment is required".

Definition authorize_proxy pp request :=
  require_peer pp request
    (λ principal, bool_decide (ap_kind principal = ProxyKind) && bool_decide (is_Some (ap_node_id principal)))
    "enrolled proxy identity is required".

Definition authorize_agent pp request (requested_node_id : string) :=
  require_peer pp request
    (λ principal, bool_decide (ap_kind principal = NodeAgent)
                  && bool_decide (ap_node_id principal = Some requested_node_id))
    "node-agent principal is not bound to the requested node".

(** ** The table *)

(** Every row is the only one of its RPC, has a handler binding and is of a service of the
    listener. *)
Definition row_complete (r : RpcAuthorizationRow) : bool :=
  bool_decide (length (List.filter (row_is (row_service r) (row_method r)) MANAGER_RPC_ROWS) = 1)
  && negb (bool_decide (handler_adapter_binding (row_service r) (row_method r) = None))
  && one_of (row_service r) MANAGER_SERVICE_SET.

Lemma table_complete : forallb row_complete MANAGER_RPC_ROWS = true.
Proof. vm_compute. reflexivity. Qed.

#[local] Opaque MANAGER_RPC_ROWS binding_arms MANAGER_SERVICE_SET.

Lemma find_row_Some service method row :
  find_row service method = Some row →
  row_service row = service ∧ row_method row = method ∧ row_complete row = true.
Proof.
  intros [Hin Hr]%List.find_some. unfold row_is in Hr. bool_to_prop.
  split_and!; [by apply String.eqb_eq..|].
  pose proof table_complete as Ht. rewrite forallb_forall in Ht. by apply Ht.
Qed.

(** The guard of [authorize] on its metadata passes exactly on the rows. *)
Lemma metadata_present service method :
  negb (bool_decide (length (List.filter (row_is service method) MANAGER_RPC_ROWS) = 1))
    || bool_decide (handler_adapter_binding service method = None) = false
  ↔ is_Some (find_row service method).
Proof.
  split.
  - intros H. bool_to_prop. destruct (find_row service method) eqn:Hf; [done|].
    destruct (List.filter (row_is service method) MANAGER_RPC_ROWS) as [|r l] eqn:E; [done|].
    assert (In r (r :: l)) as Hr by by left. rewrite <-E in Hr.
    apply List.filter_In in Hr as [Hin Hr]. pose proof (List.find_none _ _ Hf r Hin). congruence.
  - intros [row (<- & <- & Hc)%find_row_Some]. unfold row_complete in Hc. bool_to_prop.
    rewrite bool_decide_true, bool_decide_false by done. done.
Qed.

Lemma row_bound service method row :
  find_row service method = Some row → is_Some (handler_adapter_binding service method).
Proof.
  intros (<- & <- & Hc)%find_row_Some. unfold row_complete in Hc. bool_to_prop.
  by apply not_eq_None_Some.
Qed.

(** ** Enrollments of a valid policy *)

Lemma enrolled_node_Some l u n :
  NoDup (ne_principal <$> l) → enrolled_node l u = Some n ↔ mkNodeEnrollment u n ∈ l.
Proof.
  unfold enrolled_node. intros Hd. induction l as [|[u' n'] l IH]; cbn.
  { split; [done|]. intros H. by apply elem_of_nil in H. }
  apply NoDup_cons in Hd as [Hu Hd]. destruct (String.eqb_spec u' u) as [->|Hn]; cbn.
  - rewrite elem_of_cons. split; [intros [= ->]; by left|]. intros [[= ->]|Hin]; [done|].
    destruct Hu. apply list_elem_of_fmap. by eexists (mkNodeEnrollment u n).
  - rewrite IH, elem_of_cons by done. split; [by right|]. by intros [[= -> _]|?].
Qed.

Definition node_enrollments (p : ValidatedPolicy) (k : PrincipalKind) : list NodeEnrollment :=
  match k with
  | ProxyKind => vp_proxy_enrollments p
  | NodeAgent => vp_node_agent_enrollments p
  | _ => []
  end.

Section valid.
Context (p : ValidatedPolicy) (Hp : policy_valid p).

Lemma nodes_NoDup :
  NoDup (ne_principal <$> (vp_proxy_enrollments p ++ vp_node_agent_enrollments p)).
Proof using Hp.
  pose proof (pv_enrolled_once _ Hp) as H. unfold enrollments_of in H.
  rewrite !fmap_app, <-!list_fmap_compose in H. apply NoDup_app in H as (_ & _ & H).
  by rewrite fmap_app.
Qed.

Lemma nodes_NoDup_kind k : NoDup (ne_principal <$> node_enrollments p k).
Proof using Hp.
  pose proof nodes_NoDup as H. rewrite fmap_app in H. apply NoDup_app in H as (H1 & _ & H2).
  destruct k; cbn; try done; apply NoDup_nil_2.
Qed.

Lemma enrolled_as u n k :
  mkNodeEnrollment u n ∈ node_enrollments p k → vp_principals p !! u = Some k.
Proof using Hp.
  intros H. apply (pv_enrolled _ Hp). unfold enrollments_of. rewrite !elem_of_app.
  destruct k; cbn in H; try by apply elem_of_nil in H.
  - right; left. apply list_elem_of_fmap. by exists (mkNodeEnrollment u n).
  - right; right. apply list_elem_of_fmap. by exists (mkNodeEnrollment u n).
Qed.

(** The search over proxies and node agents finds the enrollment in the principal's section. *)
Lemma enrolled_anywhere u k n :
  vp_principals p !! u = Some k →
  enrolled_node (vp_proxy_enrollments p ++ vp_node_agent_enrollments p) u = Some n
  ↔ mkNodeEnrollment u n ∈ node_enrollments p k.
Proof using Hp.
  intros Hu. rewrite enrolled_node_Some by apply nodes_NoDup. rewrite elem_of_app. split.
  - intros [H|H]; pose proof H as H'.
    + apply (enrolled_as u n ProxyKind) in H'. by simplify_eq.
    + apply (enrolled_as u n NodeAgent) in H'. by simplify_eq.
  - intros H. destruct k; cbn in H; try by apply elem_of_nil in H.
    + by left.
    + by right.
Qed.

Lemma enrolled_node_name u n k :
  mkNodeEnrollment u n ∈ node_enrollments p k → non_empty (Some n) = Some n.
Proof using Hp.
  intros H. pose proof (pv_node_ids _ Hp) as Hv. rewrite Forall_forall in Hv.
  assert (valid_name n) as Hn.
  { apply (Hv (mkNodeEnrollment u n)). rewrite elem_of_app.
    destruct k; cbn in H; first [by apply elem_of_nil in H|auto]. }
  destruct n; [|done]. destruct Hn as [Hn _]. cbn in Hn. lia.
Qed.
End valid.

(** ** What the authorizer decides *)

(** An RPC with a row of this binding accepts a workload of this kind, enrolled for [node],
    that asks for [requested] (its own node when it names none). *)
Definition binding_accepts (b : WorkloadBinding) (k : PrincipalKind) (node : string)
    (requested : option string) : Prop :=
  match b with
  | NotApplicable => False
  | EnrolledGlobal => True
  | ProxyEnrolledGlobal => k = ProxyKind
  | ProxyBound => k = ProxyKind ∧ (requested = None ∨ requested = Some node)
  | NodeAgentBound => k = NodeAgent ∧ (requested = None ∨ requested = Some node)
  end.

Definition granted_by (row : RpcAuthorizationRow) (u : PrincipalUri) (a : RoleAssignment) : Prop :=
  ra_principal a = pu_value u ∧ ra_role a ∈ roles_for_row row (pu_kind u).

(** A set of a scope permits a value of the resource. *)
Definition within_scope (allowed : option (gset string)) (value : option string) : Prop :=
  ∀ s v, allowed = Some s → value = Some v → v ∈ s.

(** Every coordinate of the resource lies within the scope. *)
Definition scope_reaches (s : AssignmentScope) (r : AuthorizationResource) : Prop :=
  within_scope (sc_namespace_ids s) (ar_namespace_id r)
  ∧ within_scope (sc_node_ids s) (ar_node_id r)
  ∧ within_scope (sc_job_queue_ids s) (ar_job_queue_id r)
  ∧ ∀ m, m ∈ ar_manager_ids r → within_scope (sc_manager_ids s) (Some m).

Lemma permits_opt_spec allowed value : permits_opt allowed value = true ↔ within_scope allowed value.
Proof.
  unfold permits_opt, permits, within_scope. destruct value as [v|], allowed as [s|]; try by split.
  rewrite bool_decide_eq_true. split; [by intros ? ? ? [= <-] [= <-]|by intros H; apply H].
Qed.

Lemma scope_covers_spec s r : scope_covers s r = true ↔ scope_reaches s r.
Proof.
  assert (match sc_manager_ids s with
          | None => true
          | Some allowed => forallb (λ v, bool_decide (v ∈ allowed)) (ar_manager_ids r)
          end = true ↔ ∀ m, m ∈ ar_manager_ids r → within_scope (sc_manager_ids s) (Some m)) as Hm.
  { destruct (sc_manager_ids s) as [allowed|]; [|by split].
    rewrite forallb_forall. apply forall_proper. intros m.
    rewrite <-list_elem_of_In, bool_decide_eq_true, <-permits_opt_spec. cbn.
    by rewrite bool_decide_eq_true. }
  unfold scope_covers, scope_reaches. rewrite !andb_true_iff, !permits_opt_spec, Hm. tauto.
Qed.

(** What entitles a declared principal to an RPC on a resource. *)
Definition entitled (p : ValidatedPolicy) (row : RpcAuthorizationRow) (u : PrincipalUri)
    (r : AuthorizationResource) : Prop :=
  match pu_kind u with
  | Human | ServiceAccount =>
      ∃ a, a ∈ vp_assignments p ∧ granted_by row u a ∧ scope_reaches (ra_scope a) r
  | ManagerKind => row_workload row = EnrolledGlobal
  | ProxyKind | NodeAgent =>
      ∃ node, mkNodeEnrollment (pu_value u) node ∈ node_enrollments p (pu_kind u)
        ∧ binding_accepts (row_workload row) (pu_kind u) node (ar_node_id r)
  | PostgresClient => False
  end.

Lemma holds_spec u row a :
  holds (pu_value u) (roles_for_row row (pu_kind u)) a = true ↔ granted_by row u a.
Proof.
  unfold holds, has_one_of, granted_by. by rewrite andb_true_iff, String.eqb_eq, bool_decide_eq_true.
Qed.

(** The last decision of [authorize_row_evidence]. *)
Definition row_decides (p : ValidatedPolicy) (row : RpcAuthorizationRow) (u : PrincipalUri)
    (r : AuthorizationResource) : bool :=
  match workload_kind (pu_kind u) with
  | Some wk =>
      bool_decide (is_Some (row_node p (pu_kind u) (pu_value u)))
      && (negb (bool_decide (row_workload row = NotApplicable))
          && workload_binding_matches (row_workload row)
               (Some (mkWorkload wk (non_empty (row_node p (pu_kind u) (pu_value u))))) (ar_node_id r))
  | None => existsb (λ a, holds (pu_value u) (roles_for_row row (pu_kind u)) a
                          && scope_covers (ra_scope a) r) (vp_assignments p)
  end.

Definition principal_of_leaf (p : ValidatedPolicy) (u : PrincipalUri) (e : LeafEvidence) :
    AuthorizedPrincipal :=
  mkPrincipal (pu_value u) (pu_kind u) (non_empty (row_node p (pu_kind u) (pu_value u))) (le_fingerprint e).

Lemma row_evidence_ok pp service method e r principal :
  authorize_row_evidence pp service method e r = Ok principal ↔
  ∃ u row, le_profile e = ClientProfile ∧ le_principal e = Some u
    ∧ pu_cluster_id u = pp_cluster pp
    ∧ (le_fingerprint e ∉ vp_revoked_leaf_fingerprints (pp_snapshot pp))
    ∧ vp_principals (pp_snapshot pp) !! pu_value u = Some (pu_kind u)
    ∧ find_row service method = Some row ∧ row_decides (pp_snapshot pp) row u r = true
    ∧ principal = principal_of_leaf (pp_snapshot pp) u e.
Proof.
  unfold authorize_row_evidence, row_decides, principal_of_leaf. split.
  - destruct (le_profile e); [|done]. destruct (le_principal e) as [u|]; [|done]. cbv zeta.
    case_bool_decide as Hc; [|done]. cbn [negb]. case_bool_decide as Hr; [done|].
    destruct (vp_principals _ !! _) as [k|] eqn:Hk; [|done].
    case_bool_decide as Hkk; [|done]. cbn [negb]. subst k. cbn [ap_name ap_node_id].
    destruct (bool_decide (is_Some _) && _) eqn:Hw; [done|].
    destruct (find_row service method) as [row|] eqn:Hrow; [|done].
    destruct (handler_adapter_binding service method); [|done].
    intros H. exists u, row. split_and!; try done.
    + destruct (workload_kind (pu_kind u)); [|by destruct (existsb _ _)].
      rewrite andb_false_iff, !bool_decide_eq_false in Hw.
      rewrite bool_decide_true; [by destruct (negb _ && _)|].
      destruct Hw as [Hw|Hw]; [by destruct Hw|by apply not_eq_None_Some].
    + destruct (workload_kind (pu_kind u)); [destruct (negb _ && _)|destruct (existsb _ _)];
        first [discriminate H|by apply ok_inj in H].
  - intros (u & row & -> & -> & Hc & Hr & Hk & Hrow & Hd & ->). cbv zeta.
    rewrite (bool_decide_true (pu_cluster_id u = _)) by done. cbn [negb].
    rewrite (bool_decide_false (_ ∈ _)), Hk, (bool_decide_true (pu_kind u = _)) by done. cbn [negb ap_name ap_node_id].
    destruct (row_bound _ _ _ Hrow) as [b Hb]. rewrite Hrow, Hb.
    destruct (workload_kind (pu_kind u)) eqn:Hwk.
    + apply andb_true_iff in Hd as [Hn Hd]. rewrite Hd.
      apply bool_decide_eq_true in Hn as [n Hn]. rewrite Hn.
      rewrite (bool_decide_false (Some n = None)), andb_false_r by done. done.
    + rewrite Hd, (bool_decide_false (is_Some None)) by (by intros []). done.
Qed.

Section decision.
Context (p : ValidatedPolicy) (cluster : ClusterId) (Hp : policy_valid p).
Context (e : LeafEvidence) (u : PrincipalUri) (r : AuthorizationResource).
Context (Hu : le_principal e = Some u) (Hk : vp_principals p !! pu_value u = Some (pu_kind u)).

Let effective := effective_resource (mkPrincipalPolicy p cluster) e r.

Lemma effective_node_unenrolled :
  node_enrollments p (pu_kind u) = [] → effective = r.
Proof using Hp Hu Hk.
  intros Hn. unfold effective, effective_resource. rewrite Hu. cbn [mbind option_bind pp_snapshot].
  destruct (enrolled_node _ (pu_value u)) as [n|] eqn:E.
  - apply (enrolled_anywhere p Hp _ _ _ Hk) in E. rewrite Hn in E. by apply elem_of_nil in E.
  - destruct r as [? [?|] ? ?]; done.
Qed.

Lemma effective_node_enrolled n node :
  mkNodeEnrollment (pu_value u) n ∈ node_enrollments p (pu_kind u) →
  ar_node_id effective = Some node
  ↔ ar_node_id r = Some node ∨ (ar_node_id r = None ∧ node = n).
Proof using Hp Hu Hk.
  intros Hn. unfold effective, effective_resource. rewrite Hu. cbn [mbind option_bind pp_snapshot ar_node_id].
  apply (enrolled_anywhere p Hp _ _ _ Hk) in Hn. rewrite Hn.
  destruct (ar_node_id r); split; intuition congruence.
Qed.

Lemma manager_row_node : pu_kind u = ManagerKind → row_node p ManagerKind (pu_value u) = Some "".
Proof using Hp Hk.
  intros Hm. unfold row_node. enough (manager_is_enrolled p (pu_value u) = true) as -> by done.
  rewrite Hm in Hk. assert ((pu_value u, ManagerKind) ∈ enrollments_of p) as H
    by (apply (pv_enrolled _ Hp); auto).
  unfold enrollments_of in H. rewrite !elem_of_app, !list_elem_of_fmap in H.
  destruct H as [(m & [= E] & Hin)|[(? & ? & ?)|(? & ? & ?)]]; [|done..].
  apply existsb_exists. exists m. split; [by apply list_elem_of_In|]. by apply String.eqb_eq.
Qed.

Lemma node_row_node n :
  (pu_kind u = ProxyKind ∨ pu_kind u = NodeAgent) →
  row_node p (pu_kind u) (pu_value u) = Some n
  ↔ mkNodeEnrollment (pu_value u) n ∈ node_enrollments p (pu_kind u).
Proof using Hp.
  intros H. rewrite <-enrolled_node_Some by by apply nodes_NoDup_kind. by destruct H as [-> | ->].
Qed.

Lemma node_workload_decides row wk :
  (pu_kind u = ProxyKind ∧ wk = WkProxy ∨ pu_kind u = NodeAgent ∧ wk = WkNodeAgent) →
  row_decides p row u effective = true
  ↔ ∃ n, mkNodeEnrollment (pu_value u) n ∈ node_enrollments p (pu_kind u)
      ∧ binding_accepts (row_workload row) (pu_kind u) n (ar_node_id r).
Proof using Hp Hu Hk.
  intros Hw. assert (workload_kind (pu_kind u) = Some wk) as Hwk by by destruct Hw as [[-> ->]|[-> ->]].
  unfold row_decides. rewrite Hwk. rewrite !andb_true_iff, negb_true_iff, bool_decide_eq_true, bool_decide_eq_false.
  assert (∀ n, mkNodeEnrollment (pu_value u) n ∈ node_enrollments p (pu_kind u) →
    (row_workload row ≠ NotApplicable
     ∧ workload_binding_matches (row_workload row) (Some (mkWorkload wk (Some n))) (ar_node_id effective) = true)
    ↔ binding_accepts (row_workload row) (pu_kind u) n (ar_node_id r)) as Hacc.
  { intros n Hn.
    assert (Some n = ar_node_id effective ↔ ar_node_id r = None ∨ ar_node_id r = Some n) as Heff.
    { rewrite (symmetry_iff (=)), (effective_node_enrolled n n Hn). intuition done. }
    unfold workload_binding_matches, binding_accepts, is_some_and, bound_to.
    destruct (row_workload row); rewrite ?andb_true_iff, ?bool_decide_eq_true;
      cbn [ew_kind ew_node_id]; rewrite ?Heff; destruct Hw as [[Ek ->]|[Ek ->]]; rewrite ?Ek;
      intuition (try done). }
  split.
  - intros ([n Hn] & Hm). rewrite Hn in Hm. apply node_row_node in Hn; [|naive_solver].
    rewrite (enrolled_node_name p Hp _ _ _ Hn) in Hm. exists n. split; [done|]. by apply Hacc.
  - intros (n & Hn & Hb). apply (Hacc n Hn) in Hb. pose proof Hn as Hr.
    apply node_row_node in Hr; [|naive_solver]. rewrite Hr, (enrolled_node_name p Hp _ _ _ Hn). naive_solver.
Qed.

(** With the effective node the row decides as specified. *)
Lemma row_decides_entitled row : row_decides p row u effective = true ↔ entitled p row u r.
Proof using Hp Hu Hk.
  assert (∀ k, k = Human ∨ k = ServiceAccount ∨ k = PostgresClient → pu_kind u = k →
    row_decides p row u effective = true
    ↔ ∃ a, a ∈ vp_assignments p ∧ granted_by row u a ∧ scope_reaches (ra_scope a) r) as Hrole.
  { intros k Hkind E.
    assert (node_enrollments p (pu_kind u) = [] ∧ workload_kind (pu_kind u) = None) as [Hn Hw]
      by (rewrite E; by destruct Hkind as [->|[->| ->]]).
    rewrite (effective_node_unenrolled Hn). unfold row_decides. rewrite Hw.
    rewrite existsb_exists. apply exist_proper. intros a.
    by rewrite andb_true_iff, holds_spec, scope_covers_spec, <-list_elem_of_In. }
  unfold entitled. assert (∃ k, pu_kind u = k) as [k E] by eauto. rewrite E. destruct k.
  - by apply (Hrole Human); auto.
  - by apply (Hrole ServiceAccount); auto.
  - assert (node_enrollments p (pu_kind u) = []) as Hn by by rewrite E.
    rewrite (effective_node_unenrolled Hn). unfold row_decides. rewrite E.
    cbn [workload_kind]. rewrite (manager_row_node E). cbn.
    destruct (row_workload row); naive_solver.
  - rewrite <-E. apply (node_workload_decides row WkProxy). auto.
  - rewrite <-E. apply (node_workload_decides row WkNodeAgent). auto.
  - rewrite (Hrole PostgresClient) by auto. split; [|done]. intros (a & _ & [_ Hr] & _).
    rewrite E in Hr. by apply elem_of_nil in Hr.
Qed.
End decision.

(** The client presents a certificate that a declared, unrevoked principal of the cluster
    holds. *)
Definition presents (pp : PrincipalPolicy) (request : RpcRequest) (e : LeafEvidence)
    (u : PrincipalUri) : Prop :=
  (∃ certificate rest, rq_peer_certs request = Some (certificate :: rest)
    ∧ validate_client_leaf certificate (pp_cluster pp) = Ok e)
  ∧ le_profile e = ClientProfile ∧ le_principal e = Some u ∧ pu_cluster_id u = pp_cluster pp
  ∧ (le_fingerprint e ∉ vp_revoked_leaf_fingerprints (pp_snapshot pp))
  ∧ vp_principals (pp_snapshot pp) !! pu_value u = Some (pu_kind u).

(** The call a row produces for a principal. *)
Definition call_for (pp : PrincipalPolicy) (service method : string) (row : RpcAuthorizationRow)
    (e : LeafEvidence) (u : PrincipalUri) (r : AuthorizationResource) : AuthorizedCall :=
  let assignments := List.filter (holds (pu_value u) (roles_for_row row (pu_kind u)))
                       (vp_assignments (pp_snapshot pp)) in
  mkAuthorizedCall service method (principal_of_leaf (pp_snapshot pp) u e)
    (mkOwned (effective_resource pp e r)
       (collect_scope assignments sc_namespace_ids) (collect_scope assignments sc_node_ids)
       (collect_scope assignments sc_job_queue_ids) (collect_scope assignments sc_manager_ids))
    assignments.

Definition admissible (open : bool) (service method : string) : Prop :=
  open = true ∨ allowed_while_closed service method = true.

Lemma peer_evidence_ok pp request e :
  peer_evidence pp request = Ok e ↔
  ∃ certificate rest, rq_peer_certs request = Some (certificate :: rest)
    ∧ validate_client_leaf certificate (pp_cluster pp) = Ok e.
Proof.
  unfold peer_evidence. destruct (rq_peer_certs request) as [[|c l]|];
    [split; [done|by intros (? & ? & [=] & _)]| |split; [done|by intros (? & ? & [=] & _)]].
  split.
  - destruct (validate_client_leaf c (pp_cluster pp)) eqn:E; [|done].
    intros <-%ok_inj. by exists c, l.
  - intros (? & ? & [= <- <-] & Hv). by rewrite Hv.
Qed.

(** [authorize] returns; it succeeds exactly with the call of an entitled principal. *)
Lemma authorize_run pp open request service method r :
  policy_valid (pp_snapshot pp) →
  ∃ request' result, authorize pp open request service method r = Some (request', result)
    ∧ (is_ok result = false → request' = request)
    ∧ ∀ call, result = Ok call ↔
        ∃ row e u, find_row service method = Some row ∧ presents pp request e u
          ∧ entitled (pp_snapshot pp) row u r ∧ admissible open service method
          ∧ call = call_for pp service method row e u r.
Proof.
  intros Hp. unfold authorize. cbv zeta. destruct (_ || _) eqn:Hm.
  { eexists _, _. split; [done|]. split; [done|]. intros call. split; [done|].
    intros (row & e & u & Hrow & _). apply mk_is_Some, metadata_present in Hrow. congruence. }
  apply metadata_present in Hm as [row Hrow]. unfold presents. setoid_rewrite <-peer_evidence_ok.
  destruct (peer_evidence pp request) as [e|] eqn:He.
  2: { eexists _, _. split; [done|]. split; [done|]. naive_solver. }
  destruct (authorize_row_evidence _ _ _ _ _) as [pr|err] eqn:Ha.
  2: { eexists _, _. split; [done|]. split; [done|]. intros call. split; [done|].
    intros (row' & e' & u & Hrow' & ([= <-] & Hc & Hl & Hcl & Hrev & Hk) & Hent & _).
    enough (authorize_row_evidence pp service method e (effective_resource pp e r)
      = Ok (principal_of_leaf (pp_snapshot pp) u e)) by congruence.
    apply row_evidence_ok. exists u, row'. split_and!; try done. destruct pp as [p c].
    by apply row_decides_entitled. }
  apply row_evidence_ok in Ha as (u & row' & Hc & Hl & Hcl & Hrev & Hk & Hrow' & Hd & ->).
  simplify_eq. assert (entitled (pp_snapshot pp) row u r) as Hent.
  { destruct pp as [p c]. by eapply row_decides_entitled. }
  unfold admissible. destruct (negb open && _) eqn:Ho.
  { eexists _, _. split; [done|]. split; [done|]. destruct open; [done|].
    destruct (allowed_while_closed service method); naive_solver. }
  rewrite Hrow. cbn [mbind option_bind]. eexists _, _. split; [done|]. split; [done|].
  intros call. split.
  - intros <-%ok_inj. exists row, e, u. split_and!; try done.
    destruct open; [by left|right]. by destruct (allowed_while_closed service method).
  - intros (row' & e' & u' & Hrow' & ([= <-] & _ & Hl' & _) & _ & _ & ->). by simplify_eq.
Qed.

Context `{SC : SnapshotCodec, HL : HttpLib, TL : TomlLib}.

(** The manager's constructor does not panic on an accepted policy. *)
Lemma principal_policy_of_loaded p :
  policy_valid p → ∃ cluster, principal_policy_new p = Some (mkPrincipalPolicy p cluster).
Proof.
  intros Hp. unfold principal_policy_new.
  rewrite (name_parse_valid _ _ (pw_cluster _ (pv_wf _ Hp))). by eexists.
Qed.

Lemma principal_policy_snapshot p pp : principal_policy_new p = Some pp → pp_snapshot pp = p.
Proof. unfold principal_policy_new. intros (? & _ & [= <-])%bind_Some. done. Qed.

(** C8. The authorizer of managers never panics and decides exactly by the policy. On an
    accepted policy a call is authorized if and only if its RPC has a row, the client's
    certificate is that of a declared and unrevoked principal of the cluster, admission is
    open (or the RPC is one of those served while it is closed), and the principal is
    entitled: a human or service account by one assignment with a role of the row whose
    scope covers the complete resource, a proxy or node agent by a binding of the row that
    accepts its kind and the node it is enrolled for, a manager only on rows open to every
    enrolled workload, a database client never. A refusal leaves the request as it was. *)
Theorem authorizer_exact document p pp open request service method r :
  policy_load document = Ok p → principal_policy_new p = Some pp →
  ∃ request' result, authorize pp open request service method r = Some (request', result)
    ∧ (is_ok result = false → request' = request)
    ∧ ∀ call, result = Ok call ↔
        ∃ row e u, find_row service method = Some row ∧ presents pp request e u
          ∧ entitled p row u r ∧ admissible open service method
          ∧ call = call_for pp service method row e u r.
Proof.
  intros Hl%policy_load_valid <-%principal_policy_snapshot. by apply authorize_run.
Qed.

(** ** What an authorized call may see *)

Definition item_granted (a : RoleAssignment) (ns node queue manager : option string) : Prop :=
  within_scope (sc_namespace_ids (ra_scope a)) ns
  ∧ within_scope (sc_node_ids (ra_scope a)) node
  ∧ within_scope (sc_job_queue_ids (ra_scope a)) queue
  ∧ within_scope (sc_manager_ids (ra_scope a)) manager.

Lemma existsb_granted l ns node queue manager :
  existsb (λ a, permits_opt (sc_namespace_ids (ra_scope a)) ns
       && permits_opt (sc_node_ids (ra_scope a)) node
       && permits_opt (sc_job_queue_ids (ra_scope a)) queue
       && permits_opt (sc_manager_ids (ra_scope a)) manager) l = true
  ↔ ∃ a, a ∈ l ∧ item_granted a ns node queue manager.
Proof.
  rewrite existsb_exists. apply exist_proper. intros a. unfold item_granted.
  rewrite !andb_true_iff, !permits_opt_spec, <-list_elem_of_In. tauto.
Qed.

(** A dimension's filter permits what some of the assignments permit. *)
Lemma collect_scope_permits l select v :
  permits (collect_scope l select) v = true
  ↔ ∃ a, a ∈ l ∧ permits (select (ra_scope a)) v = true.
Proof.
  unfold collect_scope. destruct (existsb _ l) eqn:E.
  - split; [|done]. intros _. apply existsb_exists in E as (a & Ha%list_elem_of_In & Hn).
    exists a. split; [done|]. apply bool_decide_eq_true in Hn. by rewrite Hn.
  - cbn. rewrite bool_decide_eq_true, elem_of_union_list. split.
    + intros (s & Hs & Hv). apply list_elem_of_omap in Hs as (a & Ha & Hs).
      exists a. split; [done|]. rewrite Hs. by apply bool_decide_eq_true.
    + intros (a & Ha & Hv). destruct (select (ra_scope a)) as [s|] eqn:Hs.
      * exists s. split; [apply list_elem_of_omap; eauto|]. by apply bool_decide_eq_true in Hv.
      * assert (existsb (λ a, bool_decide (select (ra_scope a) = None)) l = true); [|congruence].
        apply existsb_exists. exists a. split; [by apply list_elem_of_In|]. by apply bool_decide_eq_true.
Qed.

Lemma workload_holds_nothing row k : is_Some (workload_kind k) → roles_for_row row k = [].
Proof. destruct k; cbn; try done; by intros []. Qed.

Lemma filter_holds row u a l :
  a ∈ List.filter (holds (pu_value u) (roles_for_row row (pu_kind u))) l
  ↔ a ∈ l ∧ granted_by row u a.
Proof. by rewrite !list_elem_of_In, List.filter_In, holds_spec, <-list_elem_of_In. Qed.

(** Listings are filtered by whole assignments. For an authorized call of a human or a
    service account, an item passes the filter exactly when a single assignment of theirs,
    with a role of the RPC, permits all of its coordinates; values granted by different
    assignments are never combined. The list of assignments is then never empty, so the
    rule that admits every item of a call without assignments applies to workloads only.
    The set of job queues handed to the queries permits exactly the queues the filter does. *)
Theorem listings_follow_whole_grants document p pp open request request' service method r call :
  policy_load document = Ok p → principal_policy_new p = Some pp →
  authorize pp open request service method r = Some (request', Ok call) →
  ∃ row u, find_row service method = Some row
    ∧ ap_name (ac_principal call) = pu_value u ∧ ap_kind (ac_principal call) = pu_kind u
    ∧ (is_Some (workload_kind (pu_kind u)) →
        ∀ ns node queue manager, allows_collection_item call ns node queue manager = true)
    ∧ (workload_kind (pu_kind u) = None →
        (∀ ns node queue manager,
          allows_collection_item call ns node queue manager = true
          ↔ ∃ a, a ∈ vp_assignments p ∧ granted_by row u a ∧ item_granted a ns node queue manager)
        ∧ ∀ queue, permits (job_queue_filter call) queue
                   = allows_collection_item call None None (Some queue) None).
Proof.
  intros Hl%policy_load_valid <-%principal_policy_snapshot Ha.
  destruct (authorize_run pp open request service method r Hl) as (q & res & E & _ & Hspec).
  rewrite E in Ha. injection Ha as <- ->.
  destruct (proj1 (Hspec call) eq_refl) as (row & e & u & Hrow & _ & Hent & _ & ->).
  exists row, u. split_and!; try done.
  - intros Hw ns node queue manager. unfold allows_collection_item, call_for. cbn [ac_assignments].
    rewrite (workload_holds_nothing _ _ Hw). rewrite bool_decide_true; [done|].
    induction (vp_assignments (pp_snapshot pp)) as [|a l IH]; [done|]. cbn.
    unfold holds at 1, has_one_of. rewrite bool_decide_false by apply not_elem_of_nil.
    by rewrite andb_false_r.
  - intros Hw. assert (∃ a, a ∈ ac_assignments (call_for pp service method row e u r)) as [a Hin].
    { cbn. setoid_rewrite filter_holds. unfold entitled in Hent.
      destruct (pu_kind u); try done; destruct Hent as (a & ? & ? & _); eauto. }
    assert (∀ ns node queue manager,
      allows_collection_item (call_for pp service method row e u r) ns node queue manager = true
      ↔ ∃ a, a ∈ ac_assignments (call_for pp service method row e u r)
          ∧ item_granted a ns node queue manager) as Hitem.
    { intros. unfold allows_collection_item. rewrite bool_decide_false, orb_false_l.
      - apply existsb_granted.
      - intros Hn. rewrite Hn in Hin. by apply elem_of_nil in Hin. }
    split.
    + intros. rewrite Hitem. cbn [ac_assignments call_for]. setoid_rewrite filter_holds.
      split; intros (? & ?); naive_solver.
    + intros queue. apply eq_true_iff_eq. rewrite Hitem. cbn [job_queue_filter ac_resource or_job_queue_filter call_for].
      rewrite collect_scope_permits. apply exist_proper. intros b. unfold item_granted.
      rewrite <-!permits_opt_spec. cbn. tauto.
Qed.
End auth.

(** ** The theorems at the example policy *)

Section demo.
#[local] Existing Instances toy_sha256 toy_codec toy_http toy_toml toy_x509.

Definition demo_text (_ : LeafError) : string := "rejected".

Definition demo_auth : PrincipalPolicy := mkPrincipalPolicy demo_policy (Name "c").

Definition demo_caller (uri : string) : RpcRequest := mkAuthRequest (Some ["leaf:" +:+ uri]) None None.

Definition demo_authorize (uri service method : string) (r : AuthorizationResource) :
    option AuthorizedCall :=
  '(_, res) ← authorize demo_text demo_auth true (demo_caller uri) service method r; ok res.

Definition demo_queue (q : string) : AuthorizationResource := mkResource None None (Some q) [].
Definition demo_node (n : string) : AuthorizationResource := mkResource None (Some n) None [].

Lemma demo_auth_new : principal_policy_new demo_policy = Some demo_auth.
Proof. vm_compute. reflexivity. Qed.

(** The human reads the queue the grant names and no other, and cannot act for a node; the
    proxy registers for its node and no other. *)
Lemma demo_decisions :
  map (λ o, bool_decide (is_Some o))
    [demo_authorize demo_human "wruntime.JobService" "ListJobs" (demo_queue "mail");
     demo_authorize demo_human "wruntime.JobService" "ListJobs" (demo_queue "other");
     demo_authorize demo_human "wruntime.NodeService" "RegisterProxy" (demo_node "node-a");
     demo_authorize demo_proxy "wruntime.NodeService" "RegisterProxy" (demo_node "node-a");
     demo_authorize demo_proxy "wruntime.NodeService" "RegisterProxy" (demo_node "node-b");
     demo_authorize demo_proxy "wruntime.JobService" "ListJobs" (demo_queue "mail")]
  = [true; false; false; true; false; false].
Proof. vm_compute. reflexivity. Qed.

Definition demo_none_call : RpcRequest * AuthorizedCall :=
  (demo_caller "", mkAuthorizedCall "" "" (mkPrincipal "" Human None "")
     (mkOwned (demo_queue "") None None None None) []).

Definition demo_authorized : RpcRequest * AuthorizedCall :=
  match authorize demo_text demo_auth true (demo_caller demo_human) "wruntime.JobService" "ListJobs"
          (demo_queue "mail") with
  | Some (request, Ok call) => (request, call)
  | _ => demo_none_call
  end.

Lemma demo_authorized_eq :
  authorize demo_text demo_auth true (demo_caller demo_human) "wruntime.JobService" "ListJobs"
    (demo_queue "mail") = Some (demo_authorized.1, Ok demo_authorized.2).
Proof. vm_compute. reflexivity. Qed.

Lemma some_pair_snd {A B} (a c : A) (b d : B) : Some (a, b) = Some (c, d) → b = d.
Proof. by injection 1. Qed.

Lemma authorizer_exact_witness :
  ∃ row e u, find_row "wruntime.JobService" "ListJobs" = Some row
    ∧ presents demo_auth (demo_caller demo_human) e u ∧ entitled demo_policy row u (demo_queue "mail").
Proof.
  destruct (authorizer_exact demo_text "demo" demo_policy demo_auth true (demo_caller demo_human)
    "wruntime.JobService" "ListJobs" (demo_queue "mail") demo_loads demo_auth_new)
    as (request & res & E & _ & H).
  pose proof (some_pair_snd _ _ _ _ (eq_trans (eq_sym E) demo_authorized_eq)) as Hcall.
  destruct (proj1 (H demo_authorized.2) Hcall) as (row & e & u & Hrow & Hu & Hent & _).
  exists row, e, u. exact (conj Hrow (conj Hu Hent)).
Defined.

Lemma demo_sees :
  map (λ q, allows_collection_item demo_authorized.2 None None (Some q) None) ["mail"; "bills"; "x"]
  = [true; true; false].
Proof. vm_compute. reflexivity. Qed.

Lemma listings_follow_whole_grants_witness :
  ∃ row u, find_row "wruntime.JobService" "ListJobs" = Some row
    ∧ ap_name (ac_principal demo_authorized.2) = pu_value u.
Proof.
  destruct (listings_follow_whole_grants demo_text "demo" demo_policy demo_auth true
    (demo_caller demo_human) demo_authorized.1 "wruntime.JobService" "ListJobs" (demo_queue "mail")
    demo_authorized.2 demo_loads demo_auth_new demo_authorized_eq) as (row & u & Hrow & Hn & _).
  exists row, u. exact (conj Hrow Hn).
Defined.
End demo.
