(* ===== verification/Rollout.v ===== *)
(** * Manager rollouts: tables and transactions (wr-manager/src/db.rs and its migration)

    A rollout replaces the managers of a cluster, and with them the authorization policy,
    under one guard row: a phase that only its owner advances, one row per declared source
    and target manager, and barriers that read what the managers acknowledged. Each
    transaction is an atomic function of the tables; [Err] rolls it back. *)

From S2P Require Import Prelude RustStr Utf8 Lists Orders Externals Models Grpc Identity Http PolicyTypes Snapshot Policy Lifecycle.

(** ** Panics of fallible code *)

(** [None] is a panic. *)
Definition obind {E A B} (r : option (result E A)) (k : A → option (result E B)) :
    option (result E B) :=
  match r with None => None | Some (Err e) => Some (Err e) | Some (Ok a) => k a end.

Lemma obind_ok {E A B} (r : option (result E A)) (k : A → option (result E B)) b :
  obind r k = Some (Ok b) → ∃ a, r = Some (Ok a) ∧ k a = Some (Ok b).
Proof. destruct r as [[a|]|]; naive_solver. Qed.

Notation "'let!' x ':=' r 'in' k" := (obind r (λ x, k))
  (at level 10, x pattern, r at level 100, k at level 200)
  : rust_scope.

(** ** Integers and SQL *)

(** [u64 as i64], [i64 as u64] and [u32 as i32]. *)
Definition as_i64 (v : Z) : Z :=
  (if v <? 9223372036854775808 then v else v - 18446744073709551616)%Z.
Definition as_u64 (v : Z) : Z := v `mod` 18446744073709551616.
Definition as_i32 (v : Z) : Z := (if v <? 2147483648 then v else v - 4294967296)%Z.

(** Comparison and disjunction of nullable values: SQL's three truth values. *)
Definition sql_ne {A} `{EqDecision A} (a b : option A) : option bool :=
  match a, b with Some a, Some b => Some (negb (bool_decide (a = b))) | _, _ => None end.

Definition sql_or (a b : option bool) : option bool :=
  match a, b with
  | Some true, _ | _, Some true => Some true
  | Some false, Some false => Some false
  | _, _ => None
  end.

(** A row satisfies a [WHERE] clause when the clause is true, not when it is unknown. *)
Definition sql_holds (c : option bool) : bool := match c with Some true => true | _ => false end.

(** ** Messages of the protocol (proto/wruntime.proto) *)

Inductive ManagerRolloutPhase : Type :=
| Unspecified | Prepared | Staging | ClosingOld | OldClosed | StartingTarget | TargetReadyClosed
| ActivatingTarget | Completed | FailedPreClose | FailedClosed.

#[global] Instance ManagerRolloutPhase_eq_dec : EqDecision ManagerRolloutPhase.
Proof. solve_decision. Defined.

Definition phase_i32 (p : ManagerRolloutPhase) : Z :=
  match p with
  | Unspecified => 0 | Prepared => 1 | Staging => 2 | ClosingOld => 3 | OldClosed => 4
  | StartingTarget => 5 | TargetReadyClosed => 6 | ActivatingTarget => 7 | Completed => 8
  | FailedPreClose => 9 | FailedClosed => 10
  end.

Definition phase_try_from (v : Z) : option ManagerRolloutPhase :=
  match v with
  | 0 => Some Unspecified | 1 => Some Prepared | 2 => Some Staging | 3 => Some ClosingOld
  | 4 => Some OldClosed | 5 => Some StartingTarget | 6 => Some TargetReadyClosed
  | 7 => Some ActivatingTarget | 8 => Some Completed | 9 => Some FailedPreClose
  | 10 => Some FailedClosed | _ => None
  end%Z.

Record ManagerRolloutSource : Type := mkSource {
  src_manager_id : string;
  src_endpoint : string;
  src_host_digest : string;
  src_selector_digest : string;
}.

Record ManagerRolloutTarget : Type := mkRolloutTarget {
  tgt_manager_id : string;
  tgt_endpoint : string;
  tgt_host_digest : string;
  tgt_config_digest : string;
  tgt_executable_digest : string;
  tgt_credential_digest : string;
  tgt_old_selector_digest : string;
  tgt_new_selector_digest : string;
  tgt_systemd_unit_digest : string;
}.

Record BeginManagerRolloutRequest : Type := mkBegin {
  bq_client_operation_id : string;
  bq_cluster_id : string;
  bq_target_generation : Z;
  bq_target_policy_digest : string;
  bq_expected_targets : list ManagerRolloutTarget;
  bq_target_policy_validator_version : Z;
  bq_target_deployment_principal_uri : string;
  bq_target_deployment_leaf_fingerprint : string;
  bq_source_managers : list ManagerRolloutSource;
  bq_manifest_digest : string;
  bq_deployment_certificate : string;
}.

Record ManagerRollout : Type := mkRollout {
  mro_rollout_id : string;
  mro_deployment_principal_uri : string;
  mro_client_operation_id : string;
  mro_request_digest : string;
  mro_cluster_id : string;
  mro_target_generation : Z;
  mro_target_policy_digest : string;
  mro_expected_targets : list ManagerRolloutTarget;
  mro_phase : Z;
  mro_target_policy_validator_version : Z;
  mro_target_deployment_principal_uri : string;
  mro_target_deployment_leaf_fingerprint : string;
  mro_expected_target_set_hash : string;
  mro_failure : string;
  mro_source_managers : list ManagerRolloutSource;
  mro_manifest_digest : string;
  mro_deployment_certificate : string;
}.

Record MemberOutcome : Type := mkOutcome {
  oc_manager_id : string;
  oc_member_role : string;
  oc_host_action_outcome : string;
  oc_error : string;
}.

Record FailedEvidence : Type := mkEvidence {
  fe_member_role : string;
  fe_manager_id : string;
  fe_process_state : string;
  fe_policy_generation : Z;
  fe_policy_digest : string;
}.

Record ResetRequest : Type := mkReset {
  rs_rollout_id : string;
  rs_original_request_digest : string;
  rs_evidence : list FailedEvidence;
}.

Record ResetResponse : Type := mkResetResponse {
  rr_rollout_id : string;
  rr_original_request_digest : string;
  rr_reset_request_digest : string;
  rr_evidence_digest : string;
  rr_observed_policy_generation : Z;
  rr_observed_policy_digest : string;
}.

(** The texts and the integers of a request that its wire form can carry. *)
Definition source_texts (s : ManagerRolloutSource) : list string :=
  [src_manager_id s; src_endpoint s; src_host_digest s; src_selector_digest s].

Definition target_texts (t : ManagerRolloutTarget) : list string :=
  [tgt_manager_id t; tgt_endpoint t; tgt_host_digest t; tgt_config_digest t;
   tgt_executable_digest t; tgt_credential_digest t; tgt_old_selector_digest t;
   tgt_new_selector_digest t; tgt_systemd_unit_digest t].

Definition begin_texts (r : BeginManagerRolloutRequest) : list string :=
  [bq_client_operation_id r; bq_cluster_id r; bq_target_policy_digest r;
   bq_target_deployment_principal_uri r; bq_target_deployment_leaf_fingerprint r;
   bq_manifest_digest r; bq_deployment_certificate r]
  ++ (s ← bq_source_managers r; source_texts s) ++ (t ← bq_expected_targets r; target_texts t).

Definition begin_wire_ok (r : BeginManagerRolloutRequest) : bool :=
  forallb utf8_valid (begin_texts r)
  && (0 <=? bq_target_generation r)%Z && (bq_target_generation r <=? U64_MAX)%Z
  && (0 <=? bq_target_policy_validator_version r)%Z
  && (bq_target_policy_validator_version r <=? U32_MAX)%Z.

(** [prost]: a message decodes to what was encoded. [uuid]: an identifier is 128 bits and
    parses back from its text. *)
Class RolloutCodec : Type := {
  begin_encode : BeginManagerRolloutRequest → string;
  begin_decode : string → option BeginManagerRolloutRequest;
  reset_encode : ResetRequest → string;
  begin_decode_encode r : begin_wire_ok r = true → begin_decode (begin_encode r) = Some r;
}.

Abbreviation Uuid := Z (only parsing).

Class UuidLib : Type := {
  uuid_parse_str : string → option Uuid;
  uuid_to_string : Uuid → string;
  uuid_parse_to_string u : (0 ≤ u < 2 ^ 128)%Z → uuid_parse_str (uuid_to_string u) = Some u;
  uuid_parse_range s u : uuid_parse_str s = Some u → (0 ≤ u < 2 ^ 128)%Z;
}.

(** ** Tables *)

(** [wr_manager_rollout_guard], a single row. *)
Record Guard : Type := mkGuard {
  g_accepted_generation : option Z;
  g_accepted_digest : option string;
  g_active_rollout_id : option Uuid;
  g_recovery_permit_principal_uri : option string;
}.

(** [wr_manager_rollouts], keyed by [rollout_id]; its time stamps are not modelled. *)
Record RolloutRow : Type := mkRow {
  ro_deployment_principal_uri : string;
  ro_client_operation_id : Uuid;
  ro_canonical_request_digest : string;
  ro_canonical_request : string;
  ro_phase : Z;
  ro_target_policy_validator_version : Z;
  ro_target_deployment_principal_uri : string;
  ro_target_deployment_leaf_fingerprint : string;
  ro_expected_target_set_hash : string;
  ro_cluster_id : string;
  ro_target_generation : Z;
  ro_target_policy_digest : string;
  ro_failure : option string;
  ro_reset_request_digest : option string;
  ro_reset_evidence_digest : option string;
  ro_reset_policy_generation : option Z;
  ro_reset_policy_digest : option string;
}.

(** [wr_manager_rollout_members], keyed by rollout, role and manager. *)
Record MemberRow : Type := mkMember {
  mb_observed_policy_generation : option Z;
  mb_observed_policy_digest : option string;
  mb_process_state : option string;
  mb_admission_state : option string;
  mb_last_acknowledged_at : option Z;
  mb_host_action_outcome : option string;
  mb_error : option string;
}.

(** [wr_managers], keyed by [manager_id]. *)
Record ManagerRow : Type := mkManager {
  mg_grpc_address : string;
  mg_last_heartbeat : Z;
  mg_policy_generation : option Z;
  mg_policy_digest : option string;
  mg_admission_state : string;
  mg_rollout_id : option Uuid;
  mg_rollout_phase : option Z;
}.

(** [wr_manager_rollout_events], in the order of its sequence. *)
Record RolloutEvent : Type := mkEvent {
  ev_rollout_id : Uuid;
  ev_event_type : string;
  ev_phase : Z;
  ev_detail : string;
}.

Abbreviation MemberKey := (Uuid * string * string)%type (only parsing).

Record Db : Type := mkDb {
  guard : Guard;
  rollouts : gmap Uuid RolloutRow;
  members : gmap MemberKey MemberRow;
  managers : gmap string ManagerRow;
  events : list RolloutEvent;
}.

(** The database after its migration. *)
Definition fresh_db : Db := mkDb (mkGuard None None None None) ∅ ∅ ∅ [].

Definition set_guard (db : Db) (g : Guard) : Db :=
  mkDb g (rollouts db) (members db) (managers db) (events db).
Definition set_rollouts (db : Db) (m : gmap Uuid RolloutRow) : Db :=
  mkDb (guard db) m (members db) (managers db) (events db).
Definition set_members (db : Db) (m : gmap MemberKey MemberRow) : Db :=
  mkDb (guard db) (rollouts db) m (managers db) (events db).
Definition set_managers (db : Db) (m : gmap string ManagerRow) : Db :=
  mkDb (guard db) (rollouts db) (members db) m (events db).
Definition add_event (db : Db) (id : Uuid) (kind : string) (phase : Z) (detail : string) : Db :=
  mkDb (guard db) (rollouts db) (members db) (managers db)
    (events db ++ [mkEvent id kind phase detail]).

(** Statuses of this file: PostgreSQL's errors (their text abridged) and the others. *)
Definition db_error : Status := rpc_status CInternal "db error".
Definition invalid_argument (m : string) : Status := rpc_status CInvalidArgument m.
Definition failed_precondition (m : string) : Status := rpc_status CFailedPrecondition m.
Definition already_exists (m : string) : Status := rpc_status CAlreadyExists m.
Definition permission_denied (m : string) : Status := rpc_status CPermissionDenied m.
Definition not_found (m : string) : Status := rpc_status CNotFound m.
Definition internal (m : string) : Status := rpc_status CInternal m.

(** ** The register of managers *)

Definition register_manager (now : Z) (manager_id grpc_address : string) (db : Db) : Db :=
  set_managers db
    (<[manager_id :=
         match managers db !! manager_id with
         | None => mkManager grpc_address now None None "CLOSED_STARTUP" None None
         | Some m => mkManager grpc_address now (mg_policy_generation m) (mg_policy_digest m)
                       (mg_admission_state m) (mg_rollout_id m) (mg_rollout_phase m)
         end]> (managers db)).

Definition deregister_manager (manager_id : string) (db : Db) : Db :=
  set_managers db (delete manager_id (managers db)).

Definition heartbeat (now : Z) (m : ManagerRow) : ManagerRow :=
  mkManager (mg_grpc_address m) now (mg_policy_generation m) (mg_policy_digest m)
    (mg_admission_state m) (mg_rollout_id m) (mg_rollout_phase m).

Definition heartbeat_manager (now : Z) (manager_id : string) (db : Db) : Db :=
  set_managers db (alter (heartbeat now) manager_id (managers db)).

Definition cleanup_stale_managers (now stale_threshold_secs : Z) (db : Db) : Db :=
  set_managers db
    (filter (λ kv, ¬ (mg_last_heartbeat kv.2 < now - from_secs stale_threshold_secs)%Z)
       (managers db)).

(** [last_heartbeat > NOW() - threshold]. *)
Definition live (now threshold_secs : Z) (m : ManagerRow) : bool :=
  (now - from_secs threshold_secs <? mg_last_heartbeat m)%Z.

Definition list_managers `{CollationLib} (now liveness_threshold_secs : Z) (db : Db) :
    list (string * string) :=
  sort_by (λ a b, text_cmp a.1 b.1)
    ((λ kv, (kv.1, mg_grpc_address kv.2))
     <$> filter (λ kv, live now liveness_threshold_secs kv.2 = true) (map_to_list (managers db))).

(** ** Accepted policy *)

(** Only a pristine control plane takes its first policy here; the [CHECK] constraint
    refuses a generation that is not positive as an [i64]. *)
Definition bootstrap_initial_manager_policy_state (generation : Z) (digest : string) (db : Db) :
    result Status Db :=
  match guard db with
  | mkGuard None None None permit =>
      if bool_decide (rollouts db = ∅) then
        ensure? (0 <? as_i64 generation)%Z else db_error in
        Ok (set_guard db (mkGuard (Some (as_i64 generation)) (Some digest) None permit))
      else Ok db
  | _ => Ok db
  end.

Definition manager_rollout_recovery_permitted (principal : string) (db : Db) : bool :=
  bool_decide (g_recovery_permit_principal_uri (guard db) = Some principal).

(** What a starting manager reads of the guard: whether it opens, and the state it stores. *)
Definition startup_decision (generation : Z) (digest : string) (g : Guard) : string * bool :=
  if match g_accepted_generation g with
     | Some accepted => (generation <? as_u64 accepted)%Z
     | None => false
     end
     || (bool_decide (g_accepted_generation g = Some (as_i64 generation))
         && negb (bool_decide (g_accepted_digest g = Some digest)))
  then ("CLOSED_MISMATCH", false)
  else
    let open := bool_decide (g_active_rollout_id g = None)
                && bool_decide (g_recovery_permit_principal_uri g = None)
                && bool_decide (g_accepted_generation g = Some (as_i64 generation))
                && bool_decide (g_accepted_digest g = Some digest) in
    (if open then "OPEN" else "CLOSED_STARTUP", open).

Definition store_policy_state (manager_id : string) (generation : Z) (digest state : string)
    (db : Db) : Db :=
  set_managers db
    (alter (λ m, mkManager (mg_grpc_address m) (mg_last_heartbeat m) (Some (as_i64 generation))
                   (Some digest) state (mg_rollout_id m) (mg_rollout_phase m))
       manager_id (managers db)).

Definition initialize_manager_policy_state (manager_id : string) (generation : Z)
    (digest : string) (db : Db) : bool * Db :=
  let '(state, open) := startup_decision generation digest (guard db) in
  (open, store_policy_state manager_id generation digest state db).

Section rollouts.
Context `{Sha256Lib, HttpLib, RolloutCodec, UuidLib, CollationLib}.

(** ** The observer of a manager *)

(** The row that [observe_manager_rollout] reads: the guard, joined with the active rollout
    and with the member row of this manager. *)
Record Observed : Type := mkObserved {
  od_accepted_generation : option Z;
  od_accepted_digest : option string;
  od_recovery_permit : option string;
  od_rollout : option (Uuid * RolloutRow * option string);
}.

(** The role a manager acts in is decided by the policy it runs. *)
Definition acting_role (generation : Z) (digest : string) (r : RolloutRow) : string :=
  if bool_decide (ro_target_generation r = as_i64 generation)
     && bool_decide (ro_target_policy_digest r = digest)
  then "target" else "source".

Definition observe_read (manager_id : string) (generation : Z) (digest : string) (db : Db) :
    Observed :=
  mkObserved (g_accepted_generation (guard db)) (g_accepted_digest (guard db))
    (g_recovery_permit_principal_uri (guard db))
    (id ← g_active_rollout_id (guard db);
     r ← rollouts db !! id;
     let role := acting_role generation digest r in
     Some (id, r, match members db !! (id, role, manager_id) with
                  | Some _ => Some role
                  | None => None
                  end)).

Definition target_of (t : ManagerRolloutTarget) : RolloutTarget :=
  mkTarget (tgt_manager_id t) (tgt_endpoint t).

Definition receipt_matches (policy : ValidatedPolicy) (generation : Z) (digest : string)
    (r : RolloutRow) (request : BeginManagerRolloutRequest) : bool :=
  match prevalidate_rollout_claims policy (ro_target_deployment_principal_uri r)
          (ro_target_deployment_leaf_fingerprint r) (target_of <$> bq_expected_targets request) with
  | Err _ => false
  | Ok receipt =>
      (ro_target_policy_validator_version r =? as_i32 (pv_validator_version receipt))%Z
      && (generation =? pv_generation receipt)%Z
      && String.eqb digest (pv_digest receipt)
      && String.eqb (ro_cluster_id r) (pv_cluster_id receipt)
      && String.eqb (ro_expected_target_set_hash r) (pv_target_set_hash receipt)
  end.

(** What an observation decides: the stored text, the state reported by the lifecycle
    service, whether admission opens, and the rollout to acknowledge. *)
Record ObserverDecision : Type := mkDecision {
  dc_state : string;
  dc_wire_state : PrivilegedAdmission;
  dc_open : bool;
  dc_rollout : option (Uuid * Z * string);
  dc_role : option string;
  dc_process_state : string;
}.

Definition decide_idle (generation : Z) (digest : string) (o : Observed) : ObserverDecision :=
  let accepted := bool_decide (od_recovery_permit o = None)
                  && bool_decide (od_accepted_generation o = Some (as_i64 generation))
                  && bool_decide (od_accepted_digest o = Some digest) in
  let mismatch :=
    match od_accepted_generation o with
    | None => false
    | Some accepted_generation =>
        (generation <? as_u64 accepted_generation)%Z
        || ((generation =? as_u64 accepted_generation)%Z
            && negb (bool_decide (od_accepted_digest o = Some digest)))
    end in
  if accepted then mkDecision "OPEN" AdmOpen true None None ""
  else if mismatch then mkDecision "CLOSED_MISMATCH" AdmClosedMismatch false None None ""
  else mkDecision "CLOSED_STARTUP" AdmClosedStartup false None None "".

(** The states of a member by phase, role and agreement with the target. *)
Definition member_state (phase : option ManagerRolloutPhase) (role : option string)
    (target_matches : bool) : string * PrivilegedAdmission * bool :=
  let phase_in l := match phase with Some p => bool_decide (p ∈ l) | None => false end in
  let acts r := bool_decide (role = Some r) in
  if phase_in [Prepared; Staging] && acts "source" then ("OPEN", AdmOpen, true)
  else if phase_in [ActivatingTarget; Completed] && acts "target" && target_matches
  then ("OPEN", AdmOpen, true)
  else if acts "target" && negb target_matches then ("CLOSED_MISMATCH", AdmClosedMismatch, false)
  else ("CLOSED_ROLLOUT", AdmClosedRollout, false).

Definition observe_decide (policy : ValidatedPolicy) (generation : Z) (digest : string)
    (o : Observed) : result Status ObserverDecision :=
  match od_rollout o with
  | None => Ok (decide_idle generation digest o)
  | Some (id, r, role) =>
      match begin_decode (ro_canonical_request r) with
      | None => Err (internal "stored manager rollout request is corrupt")
      | Some request =>
          let target_matches :=
            (generation =? as_u64 (ro_target_generation r))%Z
            && String.eqb digest (ro_target_policy_digest r)
            && receipt_matches policy generation digest r request in
          let '(state, wire_state, should_open) :=
            member_state (phase_try_from (ro_phase r)) role target_matches in
          Ok (mkDecision state wire_state should_open
                (Some (id, ro_phase r, ro_expected_target_set_hash r)) role
                (if target_matches || bool_decide (role = Some "source")
                 then "READY" else "MISMATCH"))
      end
  end.

Definition decision_observation (d : ObserverDecision) : ManagerRolloutObservation :=
  match dc_rollout d with
  | None => observation_update (dc_wire_state d) "" (phase_i32 Unspecified) ""
  | Some (id, phase, set_hash) =>
      observation_update (dc_wire_state d) (uuid_to_string id) phase set_hash
  end.

(** The update of [wr_managers]. *)
Definition observe_store (now : Z) (manager_id : string) (generation : Z) (digest : string)
    (d : ObserverDecision) (db : Db) : Db :=
  set_managers db
    (alter (λ m, mkManager (mg_grpc_address m) now (Some (as_i64 generation)) (Some digest)
                   (dc_state d) (fst ∘ fst <$> dc_rollout d) (snd ∘ fst <$> dc_rollout d))
       manager_id (managers db)).

(** The acknowledgement in [wr_manager_rollout_members]; a null role matches no row. *)
Definition observe_acknowledge (now : Z) (manager_id : string) (generation : Z)
    (digest : string) (d : ObserverDecision) (db : Db) : Db :=
  match dc_rollout d, dc_role d with
  | Some (id, _, _), Some role =>
      set_members db
        (alter (λ m, mkMember (Some (as_i64 generation)) (Some digest) (Some (dc_process_state d))
                       (Some (dc_state d)) (Some now) (mb_host_action_outcome m) (mb_error m))
           (id, role, manager_id) (members db))
  | _, _ => db
  end.

(** The whole observation when nothing runs between its statements: the gate, what the
    lifecycle service reports, and the tables. *)
Definition observe_manager_rollout (now : Z) (manager_id : string) (generation : Z)
    (digest : string) (policy : ValidatedPolicy) (db : Db) :
    result Status (bool * ManagerRolloutObservation * Db) :=
  let? d := observe_decide policy generation digest (observe_read manager_id generation digest db) in
  let db := observe_store now manager_id generation digest d db in
  Ok (dc_open d, decision_observation d, observe_acknowledge now manager_id generation digest d db).

(** ** Reading a rollout *)

Definition manager_target_set_hash (targets : list ManagerRolloutTarget) : option string :=
  ok (manager_set_hash (target_of <$> targets)).

Definition manager_rollout_from_row (rollout_id : Uuid) (principal : string)
    (request : BeginManagerRolloutRequest) (request_digest : string) (phase : Z) :
    option ManagerRollout :=
  set_hash ← manager_target_set_hash (bq_expected_targets request);
  Some (mkRollout (uuid_to_string rollout_id) principal (bq_client_operation_id request)
          request_digest (bq_cluster_id request) (bq_target_generation request)
          (bq_target_policy_digest request) (bq_expected_targets request) phase
          (bq_target_policy_validator_version request)
          (bq_target_deployment_principal_uri request)
          (bq_target_deployment_leaf_fingerprint request) set_hash ""
          (bq_source_managers request) (bq_manifest_digest request)
          (bq_deployment_certificate request)).

Definition with_failure (failure set_hash : string) (r : ManagerRollout) : ManagerRollout :=
  mkRollout (mro_rollout_id r) (mro_deployment_principal_uri r) (mro_client_operation_id r)
    (mro_request_digest r) (mro_cluster_id r) (mro_target_generation r)
    (mro_target_policy_digest r) (mro_expected_targets r) (mro_phase r)
    (mro_target_policy_validator_version r) (mro_target_deployment_principal_uri r)
    (mro_target_deployment_leaf_fingerprint r) set_hash failure (mro_source_managers r)
    (mro_manifest_digest r) (mro_deployment_certificate r).

Definition get_manager_rollout (rollout_id : string) (db : Db) :
    option (result Status ManagerRollout) :=
  match uuid_parse_str rollout_id with
  | None => Some (Err (invalid_argument "rollout_id must be a UUID"))
  | Some id =>
      match rollouts db !! id with
      | None => Some (Err (not_found "manager rollout was not found"))
      | Some row =>
          match begin_decode (ro_canonical_request row) with
          | None => Some (Err (internal "stored manager rollout request is corrupt"))
          | Some request =>
              r ← manager_rollout_from_row id (ro_deployment_principal_uri row) request
                    (ro_canonical_request_digest row) (ro_phase row);
              Some (Ok (with_failure (default "" (ro_failure row))
                          (ro_expected_target_set_hash row) r))
          end
      end
  end.

(** ** Begin *)

(** Managers whose row says open and that sent a heartbeat within 30 seconds. *)
Definition open_source (now : Z) (kv : string * ManagerRow) : Prop :=
  mg_admission_state kv.2 = "OPEN" ∧ live now 30 kv.2 = true.

#[global] Instance open_source_dec now kv : Decision (open_source now kv).
Proof. unfold open_source. apply _. Defined.

Definition live_sources (now : Z) (db : Db) : list (string * string) :=
  sort_by (λ a b, text_cmp a.1 b.1)
    ((λ kv, (kv.1, mg_grpc_address kv.2)) <$> filter (open_source now) (map_to_list (managers db))).

Definition sources_match (declared observed : list (string * string)) : bool :=
  (length declared =? length observed)
  && negb (existsb (λ p, negb (String.eqb p.1.1 p.2.1) || negb (String.eqb p.1.2 p.2.2))
             (zip declared observed)).

(** [INSERT .. SELECT .. ON CONFLICT DO NOTHING] of the source members. *)
Definition source_members (now : Z) (id : Uuid) (db : Db) : gmap MemberKey MemberRow :=
  list_to_map
    ((λ kv, ((id, "source", kv.1),
             mkMember (mg_policy_generation kv.2) (mg_policy_digest kv.2) None
               (Some (mg_admission_state kv.2)) None None None))
     <$> filter (open_source now) (map_to_list (managers db))).

Fixpoint insert_targets (id : Uuid) (targets : list ManagerRolloutTarget)
    (m : gmap MemberKey MemberRow) : result Status (gmap MemberKey MemberRow) :=
  match targets with
  | [] => Ok m
  | t :: targets =>
      let k := (id, "target", tgt_manager_id t) in
      ensure? bool_decide (m !! k = None) else db_error in
      insert_targets id targets (<[k := mkMember None None None None None None None]> m)
  end.

(** The rollout that a caller created under an operation identifier. *)
Definition same_operation (principal : string) (operation : Uuid) (kv : Uuid * RolloutRow) : bool :=
  String.eqb (ro_deployment_principal_uri kv.2) principal
  && (ro_client_operation_id kv.2 =? operation)%Z.

Definition find_operation (principal : string) (operation : Uuid) (db : Db) :
    option (Uuid * RolloutRow) :=
  List.find (same_operation principal operation) (map_to_list (rollouts db)).

(** Every check of a fresh rollout; whether it consumes a recovery permit. *)
Definition begin_admitted (now : Z) (principal : string) (request : BeginManagerRolloutRequest)
    (privileged_admission_open : bool) (db : Db) : result Status bool :=
  let g := guard db in
  let? (accepted_generation, accepted_digest) :=
    match g_accepted_generation g, g_accepted_digest g with
    | Some generation, Some digest => Ok (generation, digest)
    | _, _ => Err (failed_precondition
                     "manager rollout creation requires initialized accepted policy")
    end in
  ensure? bool_decide (g_active_rollout_id g = None)
    else failed_precondition "another manager rollout is active" in
  let? _ :=
    match g_recovery_permit_principal_uri g with
    | Some owner =>
        ensure? String.eqb owner principal
          else permission_denied "manager rollout recovery permit belongs to another principal" in
        Ok ()
    | None =>
        ensure? privileged_admission_open
          else failed_precondition
                 "closed privileged admission requires an explicit recovery permit" in
        Ok ()
    end in
  ensure? sources_match ((λ s, (src_manager_id s, src_endpoint s)) <$> bq_source_managers request)
            (live_sources now db)
    else failed_precondition
           "manifest source manager set does not match the complete live source set" in
  ensure? negb (bq_target_generation request <? as_u64 accepted_generation)%Z
    else failed_precondition "target policy generation must be strictly newer" in
  ensure? negb ((accepted_generation =? as_i64 (bq_target_generation request))%Z
                && negb (String.eqb accepted_digest (bq_target_policy_digest request)))
    else failed_precondition "same policy generation has a different digest" in
  Ok (bool_decide (is_Some (g_recovery_permit_principal_uri g))).

(** The rows of a new rollout. The primary key and the [CHECK] of a positive generation
    are PostgreSQL's. *)
Definition create_rollout (now : Z) (rollout_id : Uuid) (principal : string) (operation : Uuid)
    (request : BeginManagerRolloutRequest) (digest set_hash : string) (consuming_permit : bool)
    (db : Db) : result Status Db :=
  ensure? bool_decide (rollouts db !! rollout_id = None)
          && (0 <? as_i64 (bq_target_generation request))%Z else db_error in
  let row :=
    mkRow principal operation digest (begin_encode request) (phase_i32 Prepared)
      (as_i32 (bq_target_policy_validator_version request))
      (bq_target_deployment_principal_uri request)
      (bq_target_deployment_leaf_fingerprint request) set_hash (bq_cluster_id request)
      (as_i64 (bq_target_generation request)) (bq_target_policy_digest request)
      None None None None None in
  let db := set_rollouts db (<[rollout_id := row]> (rollouts db)) in
  let g := guard db in
  let db :=
    set_guard db (mkGuard (g_accepted_generation g) (g_accepted_digest g) (Some rollout_id)
                    (if consuming_permit then None else g_recovery_permit_principal_uri g)) in
  let db := set_members db (members db ∪ source_members now rollout_id db) in
  let? m := insert_targets rollout_id (bq_expected_targets request) (members db) in
  Ok (add_event (set_members db m) rollout_id "created" (phase_i32 Prepared) "").

(** [rollout_id] is the fresh [Uuid::new_v4()]. *)
Definition begin_manager_rollout (now : Z) (rollout_id : Uuid) (principal : string)
    (request : BeginManagerRolloutRequest) (digest : string) (privileged_admission_open : bool)
    (db : Db) : option (result Status (ManagerRollout * Db)) :=
  match uuid_parse_str (bq_client_operation_id request) with
  | None => Some (Err (invalid_argument "client_operation_id must be a UUID"))
  | Some operation =>
      match find_operation principal operation db with
      | Some (id, row) =>
          if negb (String.eqb (ro_canonical_request_digest row) digest)
          then Some (Err (already_exists
                            "client_operation_id was already used with different rollout content"))
          else
            match begin_decode (ro_canonical_request row) with
            | None => Some (Err (internal "stored manager rollout request is corrupt"))
            | Some stored =>
                r ← manager_rollout_from_row id principal stored
                      (ro_canonical_request_digest row) (phase_i32 Prepared);
                Some (Ok (r, db))
            end
      | None =>
          match begin_admitted now principal request privileged_admission_open db with
          | Err e => Some (Err e)
          | Ok consuming_permit =>
              set_hash ← manager_target_set_hash (bq_expected_targets request);
              match create_rollout now rollout_id principal operation request digest set_hash
                      consuming_permit db with
              | Err e => Some (Err e)
              | Ok db' =>
                  r ← manager_rollout_from_row rollout_id principal request digest
                        (phase_i32 Prepared);
                  Some (Ok (r, db'))
              end
          end
      end
  end.

(** ** Advance *)

Definition legal (expected next : ManagerRolloutPhase) : bool :=
  match expected, next with
  | Prepared, (Staging | FailedPreClose)
  | Staging, (ClosingOld | FailedPreClose)
  | ClosingOld, (OldClosed | FailedClosed)
  | OldClosed, (StartingTarget | FailedClosed)
  | StartingTarget, (TargetReadyClosed | FailedClosed)
  | TargetReadyClosed, (ActivatingTarget | FailedClosed)
  | ActivatingTarget, (Completed | FailedClosed) => true
  | _, _ => false
  end.

(** [ManagerId::parse(..).map_err(|error| Status::invalid_argument(error.to_string()))]. *)
Definition name_error_text (e : name_error) : string :=
  match e with
  | NameRequired kind => kind +:+ " is required"
  | NameTooLong kind => kind +:+ " must be at most 24 characters"
  | NameBadStart kind => kind +:+ " must start with a lowercase ASCII letter or digit"
  | NameBadEnd kind => kind +:+ " must end with a lowercase ASCII letter or digit"
  | NameBadByte kind => kind +:+ " may contain only lowercase ASCII letters, digits, and '-'"
  end.

Definition parse_name (t : name_type) (value : string) : result Status () :=
  match name_parse t value with
  | Ok _ => Ok ()
  | Err e => Err (invalid_argument (name_error_text e))
  end.

Definition admission_override (o : MemberOutcome) : option string :=
  if String.eqb (oc_member_role o) "source"
     && (String.eqb (oc_host_action_outcome o) "STOPPED"
         || String.eqb (oc_host_action_outcome o) "UNREACHABLE")
  then Some (oc_host_action_outcome o) else None.

Definition record_outcome (now : Z) (o : MemberOutcome) (m : MemberRow) : MemberRow :=
  mkMember (mb_observed_policy_generation m) (mb_observed_policy_digest m) (mb_process_state m)
    (match admission_override o with Some s => Some s | None => mb_admission_state m end)
    (Some now) (Some (oc_host_action_outcome o))
    (if str_is_empty (oc_error o) then None else Some (oc_error o)).

(** The loop over the reported outcomes; [replay] is [current == next_phase]. *)
Fixpoint apply_outcomes (now : Z) (id : Uuid) (replay : bool) (seen : list (string * string))
    (outcomes : list MemberOutcome) (ms : gmap MemberKey MemberRow) :
    result Status (gmap MemberKey MemberRow) :=
  match outcomes with
  | [] => Ok ms
  | o :: outcomes =>
      let? _ := parse_name TManagerId (oc_manager_id o) in
      let key := (oc_member_role o, oc_manager_id o) in
      ensure? (String.eqb (oc_member_role o) "source" || String.eqb (oc_member_role o) "target")
              && negb (str_is_empty (oc_host_action_outcome o))
              && (str_len (oc_host_action_outcome o) <=? 64)%Z
              && (str_len (oc_error o) <=? 1024)%Z
              && negb (bool_decide (key ∈ seen))
        else invalid_argument "manager rollout member outcome is invalid or duplicated" in
      let? ms :=
        match ms !! (id, oc_member_role o, oc_manager_id o) with
        | None => Err (invalid_argument "manager rollout outcome names an unexpected member")
        | Some m =>
            match mb_host_action_outcome m with
            | Some stored =>
                ensure? String.eqb stored (oc_host_action_outcome o)
                        && String.eqb (default "" (mb_error m)) (oc_error o)
                  else already_exists "conflicting manager rollout member outcome replay" in
                Ok ms
            | None =>
                ensure? negb replay
                  else already_exists "phase replay adds an uncommitted member outcome" in
                ensure? pg_text (oc_host_action_outcome o) && pg_text (oc_error o) else db_error in
                Ok (<[(id, oc_member_role o, oc_manager_id o) := record_outcome now o m]> ms)
            end
        end in
      apply_outcomes now id replay (key :: seen) outcomes ms
  end.

(** [SELECT COUNT( * )] of the members of a rollout in a role that satisfy a clause. *)
Definition count_members (id : Uuid) (role : string) (clause : MemberRow → option bool)
    (db : Db) : nat :=
  length (filter (λ kv, kv.1.1 = (id, role) ∧ sql_holds (clause kv.2) = true)
            (map_to_list (members db))).

Definition count_managers (clause : string * ManagerRow → bool) (db : Db) : nat :=
  length (filter (λ kv, clause kv = true) (map_to_list (managers db))).

(** The rows that keep a phase from being entered. *)
Definition barrier (now threshold_secs : Z) (id : Uuid) (r : RolloutRow)
    (next : ManagerRolloutPhase) (db : Db) : nat :=
  match next with
  | OldClosed =>
      count_members id "source"
        (λ m, sql_ne (Some (default "" (mb_admission_state m))) (Some "CLOSED_ROLLOUT")) db
  | TargetReadyClosed =>
      count_members id "target"
        (λ m, sql_or (sql_ne (mb_process_state m) (Some "READY"))
             (sql_or (sql_ne (mb_admission_state m) (Some "CLOSED_ROLLOUT"))
             (sql_or (sql_ne (mb_observed_policy_generation m) (Some (ro_target_generation r)))
             (sql_or (sql_ne (mb_observed_policy_digest m) (Some (ro_target_policy_digest r)))
                     (sql_ne (Some (default "" (mb_host_action_outcome m)))
                        (Some "READY_CLOSED")))))) db
      + count_members id "source"
          (λ m, sql_ne (Some (default "" (mb_host_action_outcome m))) (Some "STOPPED")) db
      + count_managers
          (λ kv, live now threshold_secs kv.2 && String.eqb (mg_admission_state kv.2) "OPEN") db
  | Completed =>
      count_members id "target" (λ m, sql_ne (mb_admission_state m) (Some "OPEN")) db
      + count_managers
          (λ kv, live now threshold_secs kv.2
                 && negb (bool_decide (is_Some (members db !! (id, "target", kv.1))))) db
  | _ => 0
  end.

Definition terminal_failure (next : ManagerRolloutPhase) : option string :=
  match next with
  | FailedPreClose => Some "manager rollout failed before privileged admission closed"
  | FailedClosed => Some "manager rollout failed after privileged admission closed"
  | _ => None
  end.

Definition set_phase (next : ManagerRolloutPhase) (r : RolloutRow) : RolloutRow :=
  mkRow (ro_deployment_principal_uri r) (ro_client_operation_id r) (ro_canonical_request_digest r)
    (ro_canonical_request r) (phase_i32 next) (ro_target_policy_validator_version r)
    (ro_target_deployment_principal_uri r) (ro_target_deployment_leaf_fingerprint r)
    (ro_expected_target_set_hash r) (ro_cluster_id r) (ro_target_generation r)
    (ro_target_policy_digest r)
    (match terminal_failure next with Some f => Some f | None => ro_failure r end)
    (ro_reset_request_digest r) (ro_reset_evidence_digest r) (ro_reset_policy_generation r)
    (ro_reset_policy_digest r).

(** What a phase does to the guard, if this rollout still holds it. *)
Definition release_guard (id : Uuid) (r : RolloutRow) (next : ManagerRolloutPhase) (g : Guard) :
    Guard :=
  if bool_decide (g_active_rollout_id g = Some id) then
    match next with
    | Completed => mkGuard (Some (ro_target_generation r)) (Some (ro_target_policy_digest r)) None
                     (g_recovery_permit_principal_uri g)
    | FailedPreClose => mkGuard (g_accepted_generation g) (g_accepted_digest g) None
                          (g_recovery_permit_principal_uri g)
    | _ => g
    end
  else g.

(** The transaction; [get_manager_rollout] reads the answer after it. *)
Definition advance_transaction (now : Z) (rollout_id principal : string)
    (expected_phase next_phase : Z) (outcomes : list MemberOutcome) (threshold_secs : Z)
    (db : Db) : result Status Db :=
  let? id := match uuid_parse_str rollout_id with
             | Some id => Ok id
             | None => Err (invalid_argument "rollout_id must be a UUID")
             end in
  let? expected := match phase_try_from expected_phase with
                   | Some p => Ok p
                   | None => Err (invalid_argument "expected rollout phase is invalid")
                   end in
  let? next := match phase_try_from next_phase with
               | Some p => Ok p
               | None => Err (invalid_argument "next rollout phase is invalid")
               end in
  ensure? legal expected next else failed_precondition "illegal manager rollout phase transition" in
  let? row := match rollouts db !! id with
              | Some row => Ok row
              | None => Err (not_found "manager rollout was not found")
              end in
  let current := ro_phase row in
  ensure? String.eqb (ro_deployment_principal_uri row) principal
    else permission_denied "rollout control requires its immutable owner principal" in
  ensure? (current =? expected_phase)%Z || (current =? next_phase)%Z
    else failed_precondition "rollout phase no longer matches" in
  let replay := (current =? next_phase)%Z in
  let? ms := apply_outcomes now id replay [] outcomes (members db) in
  let db := set_members db ms in
  if replay then Ok db
  else
    ensure? (barrier now threshold_secs id row next db =? 0)
      else failed_precondition "manager rollout barrier is not satisfied" in
    let db := set_rollouts db (<[id := set_phase next row]> (rollouts db)) in
    let db := add_event db id "phase-advanced" next_phase "" in
    Ok (set_guard db (release_guard id row next (guard db))).

Definition advance_manager_rollout (now : Z) (rollout_id principal : string)
    (expected_phase next_phase : Z) (outcomes : list MemberOutcome) (threshold_secs : Z)
    (db : Db) : option (result Status ManagerRollout) * Db :=
  match advance_transaction now rollout_id principal expected_phase next_phase outcomes
          threshold_secs db with
  | Err e => (Some (Err e), db)
  | Ok db' =>
      (* the identifier is printed back from the parsed one *)
      (match uuid_parse_str rollout_id with
       | Some id => get_manager_rollout (uuid_to_string id) db'
       | None => None
       end, db')
  end.

(** ** Reset *)

(** The members of a rollout, [ORDER BY member_role, manager_id]. *)
Definition stored_members (id : Uuid) (db : Db) : list (string * string) :=
  sort_by (pair_cmp text_cmp text_cmp)
    ((λ kv, (kv.1.1.2, kv.1.2)) <$> filter (λ kv, kv.1.1.1 = id) (map_to_list (members db))).

Definition set_reset (request_digest evidence_digest : string) (generation : Z)
    (digest : string) (r : RolloutRow) : RolloutRow :=
  mkRow (ro_deployment_principal_uri r) (ro_client_operation_id r) (ro_canonical_request_digest r)
    (ro_canonical_request r) (ro_phase r) (ro_target_policy_validator_version r)
    (ro_target_deployment_principal_uri r) (ro_target_deployment_leaf_fingerprint r)
    (ro_expected_target_set_hash r) (ro_cluster_id r) (ro_target_generation r)
    (ro_target_policy_digest r) (ro_failure r) (Some request_digest) (Some evidence_digest)
    (Some (as_i64 generation)) (Some digest).

(** The answer to a reset that was already recorded. *)
Definition reset_receipt (request : ResetRequest) (row : RolloutRow) (stored : string)
    (reset_request_digest evidence_digest : string) : result Status ResetResponse :=
  ensure? String.eqb stored reset_request_digest
          && bool_decide (ro_reset_evidence_digest row = Some evidence_digest)
    else already_exists "manager rollout was reset with different evidence" in
  match ro_reset_policy_generation row, ro_reset_policy_digest row with
  | Some generation, Some digest =>
      Ok (mkResetResponse (rs_rollout_id request) (ro_canonical_request_digest row) stored
            evidence_digest (as_u64 generation) digest)
  | _, _ => Err (internal "stored reset receipt is incomplete")
  end.

Definition stopped_uniformly (first item : FailedEvidence) : bool :=
  String.eqb (fe_process_state item) "STOPPED"
  && (fe_policy_generation item =? fe_policy_generation first)%Z
  && String.eqb (fe_policy_digest item) (fe_policy_digest first).

Definition reset_failed_manager_rollout (principal : string) (request : ResetRequest)
    (reset_request_digest evidence_digest : string) (db : Db) :
    result Status (ResetResponse * Db) :=
  let? id := match uuid_parse_str (rs_rollout_id request) with
             | Some id => Ok id
             | None => Err (invalid_argument "rollout_id must be a UUID")
             end in
  let? row := match rollouts db !! id with
              | Some row => Ok row
              | None => Err (not_found "manager rollout was not found")
              end in
  ensure? String.eqb (ro_deployment_principal_uri row) principal
    else permission_denied "reset requires the immutable rollout owner principal" in
  let original := ro_canonical_request_digest row in
  ensure? String.eqb original (rs_original_request_digest request)
    else failed_precondition "original Begin request digest does not match" in
  match ro_reset_request_digest row with
  | Some stored =>
      let? receipt := reset_receipt request row stored reset_request_digest evidence_digest in
      Ok (receipt, db)
  | None =>
      ensure? (ro_phase row =? phase_i32 FailedClosed)%Z
        else failed_precondition "only FAILED_CLOSED rollout can be reset" in
      ensure? bool_decide (g_active_rollout_id (guard db) = Some id)
        else failed_precondition "failed rollout is not the active guard" in
      let supplied := (λ e, (fe_member_role e, fe_manager_id e)) <$> rs_evidence request in
      ensure? bool_decide (supplied = stored_members id db)
        else failed_precondition "reset evidence must exactly cover stored rollout members" in
      let? first := match rs_evidence request with
                    | first :: _ => Ok first
                    | [] => Err (invalid_argument "reset evidence must not be empty")
                    end in
      ensure? String.eqb (fe_process_state first) "STOPPED"
              && negb (fe_policy_generation first =? 0)%Z
              && forallb (stopped_uniformly first) (rs_evidence request)
        else failed_precondition
               "reset evidence must report every member stopped with one uniform nonzero policy" in
      (* the [CHECK] of a positive generation *)
      ensure? (0 <? as_i64 (fe_policy_generation first))%Z else db_error in
      let db :=
        set_rollouts db
          (<[id := set_reset reset_request_digest evidence_digest (fe_policy_generation first)
                     (fe_policy_digest first) row]> (rollouts db)) in
      let db := add_event db id "failed-closed-reset" (phase_i32 FailedClosed) evidence_digest in
      let g := guard db in
      let db := set_guard db (mkGuard (g_accepted_generation g) (g_accepted_digest g) None
                                (Some principal)) in
      Ok (mkResetResponse (rs_rollout_id request) original reset_request_digest evidence_digest
            (fe_policy_generation first) (fe_policy_digest first), db)
  end.
End rollouts.
