(* ===== verification/RolloutApi.v ===== *)
(** * Manager rollouts: the handlers (wr-manager/src/service.rs, [InfrastructureApi])

    Requests are brought into a canonical form whose digest identifies them, the caller is
    compared with the leaf or with the recorded owner, and the transactions of [Rollout]
    follow. What [admission.is_open()] returned is an argument of each handler, once per
    call. *)

From S2P Require Import Prelude RustStr Utf8 Lists Orders Externals Models Grpc Identity Http PolicyTypes Snapshot Policy Tls AuthTable Auth Rollout.

(** ** Canonical requests *)

Definition valid_deployment_token (value : string) : bool :=
  negb (str_is_empty value)
  && (str_len value <=? 128)%Z
  && str_all (λ c, is_ascii_alphanumeric c || char_eqb c "-" || char_eqb c "_" || char_eqb c ".")
       value.

Definition valid_bundle_digest (value : string) : bool :=
  (str_len value =? 71)%Z
  && starts_with "sha256:" value
  && str_all (λ c, is_ascii_hexdigit c && negb (is_ascii_uppercase c)) (str_drop 7 value).

Definition principal_error_text (e : principal_error) : string :=
  match e with
  | PrincipalBadScheme => "principal URI must start with urn:wruntime:"
  | PrincipalMissingCluster => "principal URI is missing cluster id"
  | PrincipalMissingKind => "principal URI is missing kind"
  | PrincipalMissingName => "principal URI is missing name"
  | PrincipalTrailing => "principal URI has trailing segments"
  | PrincipalBadName e => name_error_text e
  | PrincipalUnsupportedKind => "unsupported principal kind"
  | PrincipalNotCanonical => "principal URI is not byte-exact canonical form"
  end.

Section api.
Context `{SH : Sha256Lib, HL : HttpLib, RC : RolloutCodec, UL : UuidLib, CL : CollationLib}.

Definition source_canonical (s : ManagerRolloutSource) : bool :=
  is_ok (endpoint_parse PeerHttpsUrl (src_endpoint s))
  && valid_bundle_digest (src_host_digest s) && valid_bundle_digest (src_selector_digest s).

Definition target_canonical (t : ManagerRolloutTarget) : bool :=
  is_ok (endpoint_parse PeerHttpsUrl (tgt_endpoint t))
  && valid_bundle_digest (tgt_host_digest t) && valid_bundle_digest (tgt_config_digest t)
  && valid_bundle_digest (tgt_executable_digest t)
  && valid_bundle_digest (tgt_systemd_unit_digest t)
  && valid_bundle_digest (tgt_credential_digest t)
  && valid_bundle_digest (tgt_old_selector_digest t)
  && valid_bundle_digest (tgt_new_selector_digest t).

(** The loops over the sorted members, with the identifiers seen so far. *)
Fixpoint check_sources (seen : list string) (l : list ManagerRolloutSource) : result Status () :=
  match l with
  | [] => Ok ()
  | s :: l =>
      let? _ := parse_name TManagerId (src_manager_id s) in
      ensure? negb (bool_decide (src_manager_id s ∈ seen)) && source_canonical s
        else invalid_argument
               "source managers require unique IDs and canonical endpoint/host/selector digests" in
      check_sources (src_manager_id s :: seen) l
  end.

Fixpoint check_targets (seen : list string) (l : list ManagerRolloutTarget) : result Status () :=
  match l with
  | [] => Ok ()
  | t :: l =>
      let? _ := parse_name TManagerId (tgt_manager_id t) in
      ensure? negb (bool_decide (tgt_manager_id t ∈ seen))
        else invalid_argument "expected target manager IDs must be unique" in
      ensure? target_canonical t
        else invalid_argument
               "target endpoint and canonical Systemd artifact/selector digests are required" in
      check_targets (tgt_manager_id t :: seen) l
  end.

Definition sort_sources (l : list ManagerRolloutSource) : list ManagerRolloutSource :=
  sort_by (λ a b, str_cmp (src_manager_id a) (src_manager_id b)) l.

Definition sort_targets (l : list ManagerRolloutTarget) : list ManagerRolloutTarget :=
  sort_by (λ a b, str_cmp (tgt_manager_id a) (tgt_manager_id b)) l.

(** The request with its members sorted, and its digest. *)
Definition canonical_rollout_request (r : BeginManagerRolloutRequest) :
    result Status (BeginManagerRolloutRequest * string) :=
  ensure? valid_deployment_token (bq_client_operation_id r)
    else invalid_argument "client_operation_id must satisfy the bounded operation-token grammar" in
  ensure? bool_decide (is_Some (uuid_parse_str (bq_client_operation_id r)))
    else invalid_argument "client_operation_id must be a UUID" in
  let? _ := parse_name TClusterId (bq_cluster_id r) in
  ensure? negb (bq_target_generation r =? 0)%Z && valid_bundle_digest (bq_target_policy_digest r)
    else invalid_argument "target generation and sha256 policy digest are required" in
  ensure? (bq_target_policy_validator_version r =? AUTHORIZATION_POLICY_VALIDATOR_VERSION)%Z
    else invalid_argument "target policy validator version 1 is required" in
  let? _ := match principal_uri_parse (bq_target_deployment_principal_uri r) with
            | Ok _ => Ok ()
            | Err e => Err (invalid_argument (principal_error_text e))
            end in
  ensure? valid_bundle_digest (bq_target_deployment_leaf_fingerprint r)
    else invalid_argument "target deployment leaf fingerprint must be sha256:<lowercase hex>" in
  ensure? negb (bool_decide (bq_expected_targets r = []))
    else invalid_argument "expected target manager set must not be empty" in
  let sources := sort_sources (bq_source_managers r) in
  let? _ := check_sources [] sources in
  ensure? valid_bundle_digest (bq_manifest_digest r)
          && negb (str_is_empty (bq_deployment_certificate r))
          && (str_len (bq_deployment_certificate r) <=? 128)%Z
          && negb (str_contains "/" (bq_deployment_certificate r))
    else invalid_argument "manifest digest and deployment certificate name are required" in
  let targets := sort_targets (bq_expected_targets r) in
  let? _ := check_targets [] targets in
  let r := mkBegin (bq_client_operation_id r) (bq_cluster_id r) (bq_target_generation r)
             (bq_target_policy_digest r) targets (bq_target_policy_validator_version r)
             (bq_target_deployment_principal_uri r) (bq_target_deployment_leaf_fingerprint r)
             sources (bq_manifest_digest r) (bq_deployment_certificate r) in
  Ok (r, "sha256:" +:+ sha256_hex (begin_encode r)).

Definition evidence_valid (seen : list (string * string)) (e : FailedEvidence) : bool :=
  (String.eqb (fe_member_role e) "source" || String.eqb (fe_member_role e) "target")
  && negb (bool_decide ((fe_member_role e, fe_manager_id e) ∈ seen))
  && String.eqb (fe_process_state e) "STOPPED"
  && negb (fe_policy_generation e =? 0)%Z
  && valid_bundle_digest (fe_policy_digest e).

Fixpoint check_evidence (seen : list (string * string)) (l : list FailedEvidence) :
    result Status () :=
  match l with
  | [] => Ok ()
  | e :: l =>
      let? _ := parse_name TManagerId (fe_manager_id e) in
      ensure? evidence_valid seen e
        else invalid_argument "reset evidence is invalid or duplicated" in
      check_evidence ((fe_member_role e, fe_manager_id e) :: seen) l
  end.

Definition evidence_cmp (a b : FailedEvidence) : comparison :=
  pair_cmp str_cmp str_cmp (fe_member_role a, fe_manager_id a) (fe_member_role b, fe_manager_id b).

(** The sorted request, its digest and the digest of its evidence; [None] is the panic of
    indexing an empty list. *)
Definition canonical_reset_request (r : ResetRequest) :
    option (result Status (ResetRequest * string * string)) :=
  let! _ := Some
    (ensure? bool_decide (is_Some (uuid_parse_str (rs_rollout_id r)))
       else invalid_argument "rollout_id must be a UUID" in
     ensure? valid_bundle_digest (rs_original_request_digest r)
             && negb (bool_decide (rs_evidence r = []))
       else invalid_argument "original request digest and reset evidence are required" in
     check_evidence [] (rs_evidence r)) in
  let evidence := sort_by evidence_cmp (rs_evidence r) in
  first ← head evidence;
  if existsb (λ e, negb (fe_policy_generation e =? fe_policy_generation first)%Z
                   || negb (String.eqb (fe_policy_digest e) (fe_policy_digest first))) evidence
  then Some (Err (failed_precondition "reset evidence must report one uniform policy"))
  else
    let r := mkReset (rs_rollout_id r) (rs_original_request_digest r) evidence in
    Some (Ok (r, "sha256:" +:+ sha256_hex (reset_encode r),
              "sha256:" +:+ sha256_hex (reset_encode (mkReset "" "" evidence)))).

(** ** Handlers *)

Definition missing_caller : Status := permission_denied "authorized caller context is missing".

Definition authorize_rollout_controller (request : RpcRequest) (rollout : ManagerRollout) :
    result Status () :=
  match rq_principal request with
  | None => Err missing_caller
  | Some principal =>
      ensure? String.eqb (ap_name principal) (mro_deployment_principal_uri rollout)
        else permission_denied "rollout control requires its recorded deployment identity" in
      Ok ()
  end.

Definition validate_closed_startup_rollout_policy (receipt : RolloutPrevalidation)
    (r : BeginManagerRolloutRequest) (recovery_permitted : bool) : result Status () :=
  if negb (String.eqb (pv_cluster_id receipt) (bq_cluster_id r))
     || negb (pv_validator_version receipt =? bq_target_policy_validator_version r)%Z
     || (negb recovery_permitted
         && (negb (pv_generation receipt =? bq_target_generation r)%Z
             || negb (String.eqb (pv_digest receipt) (bq_target_policy_digest r))))
  then Err (failed_precondition "closed-startup rollout does not match the loaded target policy")
  else Ok ().

Context (policy_error_text : PolicyError → string).

(** The policy that authorizes a new rollout: the running one while admission is open, the
    target's claims while it is closed. *)
Definition authorize_begin (policy : ValidatedPolicy) (open : bool)
    (principal : AuthorizedPrincipal) (r : BeginManagerRolloutRequest) (db : Db) :
    result Status () :=
  if open then
    ensure? authorizes_rollout policy (ap_name principal)
              (tgt_manager_id <$> bq_expected_targets r)
      else permission_denied "source policy does not authorize the complete rollout target set" in
    Ok ()
  else
    let? receipt :=
      match prevalidate_rollout_claims policy (ap_name principal) (ap_fingerprint principal)
              (target_of <$> bq_expected_targets r) with
      | Ok receipt => Ok receipt
      | Err e => Err (permission_denied ("closed-startup target validation failed: "
                                           +:+ policy_error_text e))
      end in
    validate_closed_startup_rollout_policy receipt r
      (manager_rollout_recovery_permitted (ap_name principal) db).

Definition begin_manager_rollout_inner (now : Z) (fresh : Uuid) (policy : ValidatedPolicy)
    (open open' : bool) (request : RpcRequest) (r : BeginManagerRolloutRequest) (db : Db) :
    option (result Status (ManagerRollout * Db)) :=
  let! (principal, r, digest) := Some
    (let? principal := match rq_principal request with
                       | Some p => Ok p
                       | None => Err missing_caller
                       end in
     ensure? match ap_kind principal with Human | ServiceAccount => true | _ => false end
       else permission_denied "manager rollout creation requires a deployment principal" in
     ensure? String.eqb (bq_target_deployment_principal_uri r) (ap_name principal)
             && String.eqb (bq_target_deployment_leaf_fingerprint r) (ap_fingerprint principal)
       else permission_denied
              "target prevalidation claims do not match the authenticated leaf" in
     let? _ := authorize_begin policy open principal r db in
     let? (r, digest) := canonical_rollout_request r in
     Ok (principal, r, digest)) in
  begin_manager_rollout now fresh (ap_name principal) r digest open' db.

(** The owner as the handlers of a recorded rollout establish it. *)
Definition rollout_owner (request : RpcRequest) (rollout_id : string) (db : Db) :
    option (result Status string) :=
  let! current := get_manager_rollout rollout_id db in
  Some (let? _ := authorize_rollout_controller request current in
        match rq_principal request with
        | Some p => Ok (ap_name p)
        | None => Err missing_caller
        end).

Definition reset_handler (request : RpcRequest) (r : ResetRequest) (db : Db) :
    option (result Status (ResetResponse * Db)) :=
  let! principal := rollout_owner request (rs_rollout_id r) db in
  let! (r, request_digest, evidence_digest) := canonical_reset_request r in
  Some (reset_failed_manager_rollout principal r request_digest evidence_digest db).

Definition advance_handler (now threshold_secs : Z) (request : RpcRequest)
    (rollout_id : string) (expected_phase next_phase : Z) (outcomes : list MemberOutcome)
    (db : Db) : option (result Status ManagerRollout) * Db :=
  match rollout_owner request rollout_id db with
  | None => (None, db)
  | Some (Err e) => (Some (Err e), db)
  | Some (Ok principal) =>
      advance_manager_rollout now rollout_id principal expected_phase next_phase outcomes
        threshold_secs db
  end.

Definition get_handler (open : bool) (request : RpcRequest) (rollout_id : string) (db : Db) :
    option (result Status ManagerRollout) :=
  let! rollout := get_manager_rollout rollout_id db in
  Some
    (let? call := match rq_call request with Some c => Ok c | None => Err missing_caller end in
     ensure? forallb (λ t, allows_collection_item call None None None (Some (tgt_manager_id t)))
               (mro_expected_targets rollout)
       else permission_denied "role scope does not cover the rollout manager set" in
     let? _ := if open then Ok () else authorize_rollout_controller request rollout in
     Ok rollout).
End api.
