(* ===== verification/RolloutFacts.v ===== *)
(** * Manager rollouts: invariants of the tables

    Every sequence of transactions keeps one rollout at a time under the guard, and the
    accepted policy only moves forward. *)

From S2P Require Import Prelude RustStr Utf8 Lists Orders Externals Models Grpc Identity Http PolicyTypes Snapshot Policy Lifecycle Rollout.

(** ** Phases *)

Lemma phase_try_from_i32 p : phase_try_from (phase_i32 p) = Some p.
Proof. by destruct p. Qed.

Lemma phase_try_from_Some v p : phase_try_from v = Some p ↔ v = phase_i32 p.
Proof.
  split; [|intros ->; apply phase_try_from_i32].
  unfold phase_try_from. intros H.
  repeat match type of H with (match ?x with _ => _ end) = _ => destruct x; try discriminate H end;
    by injection H as <-.
Qed.

Lemma phase_i32_inj p q : phase_i32 p = phase_i32 q → p = q.
Proof. intros H. apply (inj Some). by rewrite <-!phase_try_from_i32, H. Qed.

Lemma legal_distinct p q : legal p q = true → p ≠ q.
Proof. intros H ->. by destruct q. Qed.

(** Phases of a rollout that holds the guard, and those of one that gave it up. *)
Definition in_progress (p : ManagerRolloutPhase) : bool :=
  match p with
  | Prepared | Staging | ClosingOld | OldClosed | StartingTarget | TargetReadyClosed
  | ActivatingTarget | FailedClosed => true
  | _ => false
  end.

Definition never_reset (r : RolloutRow) : Prop :=
  ro_reset_request_digest r = None ∧ ro_reset_evidence_digest r = None
  ∧ ro_reset_policy_generation r = None ∧ ro_reset_policy_digest r = None.

Definition was_reset (r : RolloutRow) : Prop :=
  is_Some (ro_reset_request_digest r) ∧ is_Some (ro_reset_evidence_digest r)
  ∧ (∃ g, ro_reset_policy_generation r = Some g ∧ (0 < g)%Z) ∧ is_Some (ro_reset_policy_digest r).

Definition holds_guard (r : RolloutRow) : Prop :=
  ∃ p, ro_phase r = phase_i32 p ∧ in_progress p = true ∧ never_reset r.

Definition gave_up_guard (r : RolloutRow) : Prop :=
  (ro_phase r = phase_i32 Completed ∧ never_reset r)
  ∨ (ro_phase r = phase_i32 FailedPreClose ∧ never_reset r)
  ∨ (ro_phase r = phase_i32 FailedClosed ∧ was_reset r).

(** [a] is accepted no earlier than [b]: a later generation, or the same policy. *)
Definition not_before (a b : Z * string) : Prop := (b.1 < a.1)%Z ∨ a = b.

Definition target_policy (r : RolloutRow) : Z * string :=
  (ro_target_generation r, ro_target_policy_digest r).

Definition accepted_policy (db : Db) : option (Z * string) :=
  g ← g_accepted_generation (guard db); d ← g_accepted_digest (guard db); Some (g, d).

#[global] Instance not_before_preorder : PreOrder not_before.
Proof.
  split; [by right|]. intros a b c [Hab|Hab] [Hbc|Hbc]; subst; [left; lia|by left..|by right].
Qed.

(** ** The invariant *)

Record tables_ok (db : Db) : Prop := {
  ok_accepted : is_Some (g_accepted_generation (guard db)) ↔ is_Some (g_accepted_digest (guard db));
  ok_generation g : g_accepted_generation (guard db) = Some g → (0 < g < 2 ^ 63)%Z;
  ok_permit : g_active_rollout_id (guard db) = None
              ∨ g_recovery_permit_principal_uri (guard db) = None;
  ok_active id :
    g_active_rollout_id (guard db) = Some id →
    ∃ r a, rollouts db !! id = Some r ∧ holds_guard r ∧ accepted_policy db = Some a
           ∧ not_before (target_policy r) a;
  ok_idle id r :
    rollouts db !! id = Some r → g_active_rollout_id (guard db) ≠ Some id → gave_up_guard r;
  ok_target id r : rollouts db !! id = Some r → (0 < ro_target_generation r < 2 ^ 63)%Z;
  ok_operations id1 id2 r1 r2 :
    rollouts db !! id1 = Some r1 → rollouts db !! id2 = Some r2 →
    ro_deployment_principal_uri r1 = ro_deployment_principal_uri r2 →
    ro_client_operation_id r1 = ro_client_operation_id r2 → id1 = id2;
  ok_members k : is_Some (members db !! k) →
    is_Some (rollouts db !! k.1.1) ∧ (k.1.2 = "source" ∨ k.1.2 = "target");
}.

Lemma fresh_db_ok : tables_ok fresh_db.
Proof.
  split; cbn; intros; try done; try (by rewrite lookup_empty in * ).
  - by left.
  - match goal with H : is_Some _ |- _ => rewrite lookup_empty in H; by destruct H end.
Qed.

(** ** Transactions *)

Section facts.
Context `{SH : Sha256Lib, HL : HttpLib, RC : RolloutCodec, UL : UuidLib, CL : CollationLib}.

Inductive Transaction : Type :=
| TRegister (now : Z) (manager_id address : string)
| TDeregister (manager_id : string)
| THeartbeat (now : Z) (manager_id : string)
| TCleanup (now threshold_secs : Z)
| TBootstrap (generation : Z) (digest : string)
| TInitialize (manager_id : string) (generation : Z) (digest state : string)
| TObserve (now : Z) (manager_id : string) (generation : Z) (digest : string)
    (d : ObserverDecision)
| TAcknowledge (now : Z) (manager_id : string) (generation : Z) (digest : string)
    (d : ObserverDecision)
| TBegin (now : Z) (fresh : Uuid) (principal : string) (request : BeginManagerRolloutRequest)
    (digest : string) (privileged_admission_open : bool)
| TAdvance (now : Z) (rollout_id principal : string) (expected next : Z)
    (outcomes : list MemberOutcome) (threshold_secs : Z)
| TReset (principal : string) (request : ResetRequest) (request_digest evidence_digest : string).

Definition committed {A} (db : Db) (r : option (result Status (A * Db))) : Db :=
  match r with Some (Ok (_, db')) => db' | _ => db end.

Definition run_transaction (db : Db) (t : Transaction) : Db :=
  match t with
  | TRegister now id address => register_manager now id address db
  | TDeregister id => deregister_manager id db
  | THeartbeat now id => heartbeat_manager now id db
  | TCleanup now secs => cleanup_stale_managers now secs db
  | TBootstrap generation digest =>
      match bootstrap_initial_manager_policy_state generation digest db with
      | Ok db' => db' | Err _ => db
      end
  | TInitialize id generation digest state => store_policy_state id generation digest state db
  | TObserve now id generation digest d => observe_store now id generation digest d db
  | TAcknowledge now id generation digest d => observe_acknowledge now id generation digest d db
  | TBegin now fresh principal request digest open =>
      committed db (begin_manager_rollout now fresh principal request digest open db)
  | TAdvance now id principal expected next outcomes secs =>
      (advance_manager_rollout now id principal expected next outcomes secs db).2
  | TReset principal request rd ed =>
      committed db (Some (reset_failed_manager_rollout principal request rd ed db))
  end.

(** The integers of a call are [u64]s. *)
Definition well_typed (t : Transaction) : Prop :=
  match t with
  | TBootstrap generation _ => (0 ≤ generation ≤ U64_MAX)%Z
  | TBegin _ _ _ request _ _ => (0 ≤ bq_target_generation request ≤ U64_MAX)%Z
  | TReset _ request _ _ =>
      Forall (λ e, 0 ≤ fe_policy_generation e ≤ U64_MAX)%Z (rs_evidence request)
  | _ => True
  end.

Lemma as_i64_positive v : (0 ≤ v ≤ U64_MAX)%Z → (0 < as_i64 v)%Z → as_i64 v = v ∧ (0 < v < 2 ^ 63)%Z.
Proof. unfold as_i64, U64_MAX. destruct (_ <? _)%Z eqn:E; bool_to_prop; lia. Qed.

Lemma as_u64_small v : (0 ≤ v < 2 ^ 63)%Z → as_u64 v = v.
Proof. intros ?. apply Z.mod_small. lia. Qed.

(** The invariant does not read the register of managers, nor the columns of members. *)
Lemma tables_ok_ext db db' :
  guard db' = guard db → rollouts db' = rollouts db →
  (∀ k, is_Some (members db' !! k) → is_Some (members db !! k)) → tables_ok db → tables_ok db'.
Proof.
  intros Hg Hr Hm [H1 H2 H3 H4 H5 H6 H7 H8].
  assert (accepted_policy db' = accepted_policy db) as Ha by (unfold accepted_policy; by rewrite Hg).
  split; rewrite ?Hg, ?Hr, ?Ha; eauto.
Qed.

(** *** The parts of a successful call *)

Lemma insert_targets_keys id targets m m' :
  insert_targets id targets m = Ok m' →
  ∀ k, is_Some (m' !! k) → is_Some (m !! k) ∨ k.1 = (id, "target").
Proof.
  revert m. induction targets as [|t ts IH]; intros m E k; cbn in E; [simplify_eq; by left|].
  inv_ok E. intros Hk. destruct (IH _ E k Hk) as [Hk'|]; [|by right].
  rewrite lookup_insert_is_Some' in Hk'. destruct Hk' as [<-|?]; [by right|by left].
Qed.

Lemma source_members_keys now id db k :
  is_Some (source_members now id db !! k) → k.1 = (id, "source").
Proof.
  intros [m Hm]. apply elem_of_list_to_map_2, list_elem_of_fmap in Hm as ([x y] & Heq & _).
  by injection Heq as -> _.
Qed.

Lemma apply_outcomes_keys now id replay seen outs ms ms' :
  apply_outcomes now id replay seen outs ms = Ok ms' →
  ∀ k, is_Some (ms' !! k) → is_Some (ms !! k).
Proof.
  revert seen ms. induction outs as [|o outs IH]; intros seen ms E k; cbn in E; [by simplify_eq|].
  inv_ok E. intros Hk. specialize (IH _ _ E k Hk).
  destruct (ms !! _) as [m|] eqn:Em; [|done].
  destruct (mb_host_action_outcome m); split_cases; [done|].
  rewrite lookup_insert_is_Some' in IH. destruct IH as [<-|?]; [by rewrite Em|done].
Qed.

Record advanced (now : Z) (id : Uuid) (principal : string) (expected next : ManagerRolloutPhase)
    (outcomes : list MemberOutcome) (secs : Z) (db db' : Db) (r : RolloutRow) : Prop := {
  adv_legal : legal expected next = true;
  adv_row : rollouts db !! id = Some r;
  adv_owner : ro_deployment_principal_uri r = principal;
  adv_members : apply_outcomes now id (ro_phase r =? phase_i32 next)%Z [] outcomes (members db)
                = Ok (members db');
  adv_managers : managers db' = managers db;
  adv_step :
    (ro_phase r = phase_i32 next ∧ guard db' = guard db ∧ rollouts db' = rollouts db
     ∧ events db' = events db)
    ∨ (ro_phase r = phase_i32 expected
       ∧ barrier now secs id r next (set_members db (members db')) = 0
       ∧ rollouts db' = <[id := set_phase next r]> (rollouts db)
       ∧ guard db' = release_guard id r next (guard db)
       ∧ events db' = events db ++ [mkEvent id "phase-advanced" (phase_i32 next) ""]);
}.

Lemma advance_transaction_ok now rid principal e n outcomes secs db db' :
  advance_transaction now rid principal e n outcomes secs db = Ok db' →
  ∃ id expected next r, uuid_parse_str rid = Some id ∧ e = phase_i32 expected
    ∧ n = phase_i32 next ∧ advanced now id principal expected next outcomes secs db db' r.
Proof.
  unfold advance_transaction. intros H. inv_ok H.
  repeat match goal with
  | H : match ?x with Some _ => Ok _ | None => _ end = Ok _ |- _ =>
      destruct x eqn:?; [apply ok_inj in H; subst|discriminate H]
  end.
  rewrite phase_try_from_Some in *. subst. bool_to_prop.
  match goal with H : String.eqb _ _ = true |- _ => apply String.eqb_eq in H end.
  eexists _, _, _, _. split_and!; [done..|].
  destruct (_ =? phase_i32 _)%Z eqn:Er in H.
  - apply ok_inj in H. subst. split; cbn; try done. left. by bool_to_prop.
  - inv_ok H. apply ok_inj in H. subst. split; cbn; try done. right. bool_to_prop.
    split_and!; [|done..].
    match goal with H : _ ∨ _ |- _ => destruct H; bool_to_prop; congruence end.
Qed.

(** A new row is in [PREPARED]. *)
Definition new_row (principal : string) (operation : Uuid) (request : BeginManagerRolloutRequest)
    (digest set_hash : string) : RolloutRow :=
  mkRow principal operation digest (begin_encode request) (phase_i32 Prepared)
    (as_i32 (bq_target_policy_validator_version request))
    (bq_target_deployment_principal_uri request)
    (bq_target_deployment_leaf_fingerprint request) set_hash (bq_cluster_id request)
    (as_i64 (bq_target_generation request)) (bq_target_policy_digest request)
    None None None None None.

Record created (now : Z) (fresh : Uuid) (principal : string) (operation : Uuid)
    (request : BeginManagerRolloutRequest) (digest set_hash : string) (db db' : Db) : Prop := {
  cr_generation : (0 < as_i64 (bq_target_generation request))%Z;
  cr_fresh : rollouts db !! fresh = None;
  cr_rollouts : rollouts db' = <[fresh := new_row principal operation request digest set_hash]>
                                 (rollouts db);
  cr_guard : guard db' = mkGuard (g_accepted_generation (guard db)) (g_accepted_digest (guard db))
                           (Some fresh) None;
  cr_members : insert_targets fresh (bq_expected_targets request)
                 (members db ∪ source_members now fresh db) = Ok (members db');
  cr_managers : managers db' = managers db;
  cr_events : events db' = events db ++ [mkEvent fresh "created" (phase_i32 Prepared) ""];
}.

Record admitted (now : Z) (principal : string) (request : BeginManagerRolloutRequest)
    (open : bool) (db : Db) (a : Z * string) : Prop := {
  ad_accepted : accepted_policy db = Some a;
  ad_inactive : g_active_rollout_id (guard db) = None;
  ad_permit : match g_recovery_permit_principal_uri (guard db) with
              | Some owner => owner = principal
              | None => open = true
              end;
  ad_sources : (λ s, (src_manager_id s, src_endpoint s)) <$> bq_source_managers request
               = live_sources now db;
  ad_newer : (as_u64 a.1 ≤ bq_target_generation request)%Z;
  ad_same : a.1 = as_i64 (bq_target_generation request) → a.2 = bq_target_policy_digest request;
}.

Lemma sources_match_eq declared observed : sources_match declared observed = true ↔ declared = observed.
Proof.
  unfold sources_match. revert observed.
  induction declared as [|[a b] l IH]; intros [|[c d] k]; cbn; try done.
  destruct (String.eqb_spec a c), (String.eqb_spec b d); cbn;
    [subst|rewrite andb_false_r; split; [done|intros [=]; done]..].
  rewrite IH. split; [by intros ->|by intros [=]].
Qed.

Lemma begin_admitted_ok now principal request open db permit :
  begin_admitted now principal request open db = Ok permit →
  permit = bool_decide (is_Some (g_recovery_permit_principal_uri (guard db)))
  ∧ ∃ a, admitted now principal request open db a.
Proof.
  unfold begin_admitted. intros Hb. inv_ok Hb. apply ok_inj in Hb. subst. split; [done|].
  destruct (g_accepted_generation (guard db)) as [g|] eqn:Eg; [|done].
  destruct (g_accepted_digest (guard db)) as [d|] eqn:Ed; [|done].
  apply ok_inj in H. injection H as <- <-. exists (g, d). bool_to_prop.
  split; cbn.
  - unfold accepted_policy. by rewrite Eg, Ed.
  - done.
  - destruct (g_recovery_permit_principal_uri _); inv_ok H0; [by apply String.eqb_eq|done].
  - by apply sources_match_eq.
  - lia.
  - intros Heq. match goal with H : _ ∨ _ |- _ => destruct H as [H|H]; bool_to_prop; [done|] end.
    by apply String.eqb_eq.
Qed.

Lemma create_rollout_ok now fresh principal operation request digest set_hash permit db db' :
  permit = bool_decide (is_Some (g_recovery_permit_principal_uri (guard db))) →
  create_rollout now fresh principal operation request digest set_hash permit db = Ok db' →
  created now fresh principal operation request digest set_hash db db'.
Proof.
  intros -> Hc. unfold create_rollout in Hc. inv_ok Hc. apply ok_inj in Hc. subst.
  bool_to_prop. split; cbn; try done.
  f_equal. case_bool_decide as Hs; [done|]. by apply eq_None_not_Some.
Qed.

(** A call that succeeds either replays a stored rollout or creates one. *)
Lemma begin_ok now fresh principal request digest open db r db' :
  begin_manager_rollout now fresh principal request digest open db = Some (Ok (r, db')) →
  ∃ operation, uuid_parse_str (bq_client_operation_id request) = Some operation ∧
  ((db' = db ∧ ∃ id row stored, find_operation principal operation db = Some (id, row)
      ∧ ro_canonical_request_digest row = digest
      ∧ begin_decode (ro_canonical_request row) = Some stored
      ∧ manager_rollout_from_row id principal stored digest (phase_i32 Prepared) = Some r)
   ∨ (find_operation principal operation db = None ∧ ∃ a set_hash,
      admitted now principal request open db a
      ∧ manager_target_set_hash (bq_expected_targets request) = Some set_hash
      ∧ created now fresh principal operation request digest set_hash db db'
      ∧ manager_rollout_from_row fresh principal request digest (phase_i32 Prepared) = Some r)).
Proof.
  unfold begin_manager_rollout. destruct (uuid_parse_str _) as [operation|]; [|done].
  intros Hb. exists operation. split; [done|].
  destruct (find_operation principal operation db) as [[id row]|].
  - left. destruct (String.eqb_spec (ro_canonical_request_digest row) digest) as [<-|]; [|done].
    cbn [negb] in Hb. destruct (begin_decode _) as [stored|] eqn:Ed; [|done].
    destruct (manager_rollout_from_row _ _ _ _ _) as [r'|] eqn:Er; [|done].
    cbn in Hb. injection Hb as -> ->. split; [done|]. by exists id, row, stored.
  - right. split; [done|].
    destruct (begin_admitted _ _ _ _ _) as [permit|] eqn:Ea; [|done].
    apply begin_admitted_ok in Ea as [Hp [a Ha]].
    destruct (manager_target_set_hash _) as [set_hash|] eqn:Eh; [|done]. cbn in Hb.
    destruct (create_rollout _ _ _ _ _ _ _ _ _) as [db1|] eqn:Ec; [|done].
    apply create_rollout_ok in Ec; [|done].
    destruct (manager_rollout_from_row _ _ _ _ _) as [r'|] eqn:Er; [|done].
    cbn in Hb. injection Hb as -> ->. by exists a, set_hash.
Qed.

Record was_reset_by (principal : string) (request : ResetRequest) (rd ed : string)
    (db db' : Db) (id : Uuid) (r : RolloutRow) (first : FailedEvidence) : Prop := {
  rb_unreset : ro_reset_request_digest r = None;
  rb_phase : ro_phase r = phase_i32 FailedClosed;
  rb_active : g_active_rollout_id (guard db) = Some id;
  rb_cover : (λ e, (fe_member_role e, fe_manager_id e)) <$> rs_evidence request
             = stored_members id db;
  rb_first : head (rs_evidence request) = Some first;
  rb_stopped : Forall (λ e, fe_process_state e = "STOPPED"
                            ∧ fe_policy_generation e = fe_policy_generation first
                            ∧ fe_policy_digest e = fe_policy_digest first) (rs_evidence request);
  rb_generation : (0 < as_i64 (fe_policy_generation first))%Z;
  rb_tables : db' = mkDb (mkGuard (g_accepted_generation (guard db)) (g_accepted_digest (guard db))
                            None (Some principal))
                     (<[id := set_reset rd ed (fe_policy_generation first)
                                (fe_policy_digest first) r]> (rollouts db))
                     (members db) (managers db)
                     (events db ++ [mkEvent id "failed-closed-reset" (phase_i32 FailedClosed) ed]);
}.

Lemma reset_ok principal request rd ed db response db' :
  reset_failed_manager_rollout principal request rd ed db = Ok (response, db') →
  ∃ id r, uuid_parse_str (rs_rollout_id request) = Some id ∧ rollouts db !! id = Some r
    ∧ ro_deployment_principal_uri r = principal
    ∧ ro_canonical_request_digest r = rs_original_request_digest request
    ∧ ((db' = db ∧ ∃ stored, ro_reset_request_digest r = Some stored
          ∧ reset_receipt request r stored rd ed = Ok response)
       ∨ ∃ first, was_reset_by principal request rd ed db db' id r first).
Proof.
  unfold reset_failed_manager_rollout. intros Hr. inv_ok Hr.
  repeat match goal with
  | H : match ?x with Some _ => Ok _ | None => _ end = Ok _ |- _ =>
      destruct x eqn:?; [apply ok_inj in H; subst|discriminate H]
  end.
  repeat match goal with H : String.eqb _ _ = true |- _ => apply String.eqb_eq in H end.
  eexists _, _. split_and!; [done..|].
  destruct (ro_reset_request_digest _) as [stored|] eqn:Es.
  - left. inv_ok Hr. apply ok_inj in Hr. injection Hr as -> ->. eauto.
  - right. inv_ok Hr. apply ok_inj in Hr. injection Hr as _ <-.
    destruct (rs_evidence request) as [|first rest] eqn:Ev; [done|].
    match goal with H : Ok first = Ok ?y |- _ => apply ok_inj in H; subst y end.
    exists first. bool_to_prop. split; cbn; rewrite ?Ev; try done.
    match goal with H : forallb _ _ = true |- _ => apply Is_true_true_2, forallb_True in H end.
    eapply Forall_impl; [done|]. intros e He. apply Is_true_true_1 in He.
    unfold stopped_uniformly in He. bool_to_prop. by rewrite !String.eqb_eq in *.
Qed.

(** ** Preservation *)

Lemma legal_in_progress p q : legal p q = true → in_progress p = true ∧ p ≠ FailedClosed.
Proof. by destruct p, q. Qed.

Lemma legal_next p q :
  legal p q = true → q ≠ Prepared ∧ (in_progress q = true ∨ q = Completed ∨ q = FailedPreClose).
Proof. destruct p, q; try done; intros _; split; try done; auto. Qed.

(** A rollout whose phase can still change holds the guard. *)
Lemma legal_holds_guard db id r p q :
  tables_ok db → rollouts db !! id = Some r → ro_phase r = phase_i32 p → legal p q = true →
  g_active_rollout_id (guard db) = Some id ∧ never_reset r
  ∧ ∃ a, accepted_policy db = Some a ∧ not_before (target_policy r) a.
Proof.
  intros Hok Hr Hp Hl. apply legal_in_progress in Hl as [Hi Hf].
  destruct (decide (g_active_rollout_id (guard db) = Some id)) as [Ha|Ha].
  - split; [done|]. destruct (ok_active _ Hok _ Ha) as (r' & a & Hr' & (p' & Hp' & _ & Hn) & Hacc & Hnb).
    rewrite Hr in Hr'. injection Hr' as <-. eauto.
  - destruct (ok_idle _ Hok _ _ Hr Ha) as [[E _]|[[E _]|[E _]]]; rewrite Hp in E;
      apply phase_i32_inj in E; by subst.
Qed.

(** Replacing the row of the rollout that holds the guard. *)
Lemma update_row_ok db id r r' g :
  tables_ok db → rollouts db !! id = Some r → g_active_rollout_id (guard db) = Some id →
  target_policy r' = target_policy r →
  ro_deployment_principal_uri r' = ro_deployment_principal_uri r →
  ro_client_operation_id r' = ro_client_operation_id r →
  (is_Some (g_accepted_generation g) ↔ is_Some (g_accepted_digest g)) →
  (∀ v, g_accepted_generation g = Some v → (0 < v < 2 ^ 63)%Z) →
  (g_active_rollout_id g = None ∧ gave_up_guard r'
   ∨ g_active_rollout_id g = Some id ∧ g_recovery_permit_principal_uri g = None ∧ holds_guard r'
     ∧ ∃ a d, g_accepted_generation g = Some a ∧ g_accepted_digest g = Some d
              ∧ not_before (target_policy r) (a, d)) →
  tables_ok (mkDb g (<[id := r']> (rollouts db)) (members db) (managers db) (events db)).
Proof.
  intros Hok Hr Hact Ht Ho Hc Hacc Hgen Hcase.
  assert (∀ i x, <[id := r']> (rollouts db) !! i = Some x → ∃ y, rollouts db !! i = Some y
    ∧ ro_target_generation x = ro_target_generation y
    ∧ ro_deployment_principal_uri x = ro_deployment_principal_uri y
    ∧ ro_client_operation_id x = ro_client_operation_id y) as Hrows.
  { intros i x. rewrite lookup_insert. case_decide; [|by eauto].
    subst. injection 1 as <-. exists r. injection Ht as ? ?. eauto. }
  split; cbn.
  - done.
  - done.
  - destruct Hcase as [[? _]|(_ & ? & _)]; [by left|by right].
  - intros i Hi. destruct Hcase as [[E _]|(E & _ & Hh & a & d & Ea & Ed & Hn)]; [congruence|].
    rewrite E in Hi. injection Hi as <-. exists r', (a, d). rewrite lookup_insert_eq, Ht.
    split_and!; [done..| |done]. unfold accepted_policy. cbn. by rewrite Ea, Ed.
  - intros i x. rewrite lookup_insert. case_decide; [subst|].
    + injection 1 as <-. destruct Hcase as [[_ ?]|[E _]]; [done|congruence].
    + intros Hx _. apply (ok_idle _ Hok i x Hx). rewrite Hact. congruence.
  - intros i x (y & Hy & -> & _)%Hrows. by eapply ok_target.
  - intros i1 i2 x1 x2 (y1 & Hy1 & _ & -> & ->)%Hrows (y2 & Hy2 & _ & -> & ->)%Hrows.
    by eapply ok_operations.
  - intros k [Hk Hrole]%(ok_members _ Hok). split; [|done].
    rewrite lookup_insert_is_Some'. by right.
Qed.

Lemma accepted_policy_Some db a :
  accepted_policy db = Some a →
  g_accepted_generation (guard db) = Some a.1 ∧ g_accepted_digest (guard db) = Some a.2.
Proof.
  unfold accepted_policy. destruct (g_accepted_generation _), (g_accepted_digest _); cbn; try done.
  by injection 1 as <-.
Qed.

Lemma set_members_ok db ms :
  (∀ k, is_Some (ms !! k) → is_Some (members db !! k)) → tables_ok db → tables_ok (set_members db ms).
Proof. intros Hk. by apply tables_ok_ext. Qed.

Lemma advance_ok now rid principal e n outcomes secs db db' :
  advance_transaction now rid principal e n outcomes secs db = Ok db' →
  tables_ok db → tables_ok db'.
Proof.
  intros (id & p & q & r & _ & _ & _ & Hadv)%advance_transaction_ok Hok.
  destruct Hadv as [Hl Hr _ Hms Hmg Hs].
  pose proof (apply_outcomes_keys _ _ _ _ _ _ _ Hms) as Hk.
  destruct Hs as [(_ & Hg & Hro & _)|(Hp & _ & Hro & Hg & Hev)]; [by eapply tables_ok_ext|].
  destruct (legal_holds_guard _ _ _ _ _ Hok Hr Hp Hl) as (Hact & Hn & a & Ha & Hnb).
  pose proof (accepted_policy_Some _ _ Ha) as [Hag Had].
  destruct (ok_permit _ Hok) as [?|Hperm]; [congruence|].
  pose proof (ok_target _ Hok _ _ Hr) as Ht.
  apply (tables_ok_ext (mkDb (release_guard id r q (guard db)) (<[id := set_phase q r]> (rollouts db))
           (members db) (managers db) (events db))); [done..|].
  unfold release_guard. rewrite bool_decide_eq_true_2 by done.
  apply (update_row_ok db id r); try done.
  - destruct q; cbn; rewrite ?Hag, ?Had; done.
  - destruct q; cbn; intros v Hv; try (by eapply ok_generation). by injection Hv as <-.
  - apply legal_next in Hl as [_ Hq]. destruct Hq as [Hq|[->| ->]]; cbn;
      [right|left; split; [done|by left]|left; split; [done|by right; left]].
    assert (match q with Completed | FailedPreClose => False | _ => True end) by by destruct q.
    split_and!.
    + by destruct q.
    + by destruct q.
    + by exists q.
    + exists a.1, a.2. destruct a; by destruct q.
Qed.

Lemma reset_preserves principal request rd ed db response db' :
  Forall (λ e, 0 ≤ fe_policy_generation e ≤ U64_MAX)%Z (rs_evidence request) →
  reset_failed_manager_rollout principal request rd ed db = Ok (response, db') →
  tables_ok db → tables_ok db'.
Proof.
  intros Hty (id & r & _ & Hr & Ho & _ & [[-> _]|[first Hb]])%reset_ok Hok; [done|].
  destruct Hb as [_ Hp Hact _ Hf _ Hgen ->].
  apply (tables_ok_ext (mkDb (mkGuard (g_accepted_generation (guard db))
    (g_accepted_digest (guard db)) None (Some principal))
    (<[id := set_reset rd ed (fe_policy_generation first) (fe_policy_digest first) r]> (rollouts db))
    (members db) (managers db) (events db))); [done..|].
  apply (update_row_ok db id r); try done; cbn.
  - apply Hok.
  - intros v. apply Hok.
  - left. split; [done|]. right; right. split; [done|]. unfold was_reset. cbn. eauto 10.
Qed.

Lemma find_operation_None principal operation db id r :
  find_operation principal operation db = None → rollouts db !! id = Some r →
  ro_deployment_principal_uri r = principal → ro_client_operation_id r ≠ operation.
Proof.
  intros Hf Hr Hp Ho. apply elem_of_map_to_list in Hr.
  apply list_elem_of_In in Hr. eapply find_none in Hf; [|exact Hr]. unfold same_operation in Hf. cbn in Hf.
  by rewrite Hp, Ho, String.eqb_refl, Z.eqb_refl in Hf.
Qed.

Lemma created_ok now fresh principal operation request digest set_hash open a db db' :
  (0 ≤ bq_target_generation request ≤ U64_MAX)%Z →
  find_operation principal operation db = None →
  admitted now principal request open db a →
  created now fresh principal operation request digest set_hash db db' →
  tables_ok db → tables_ok db'.
Proof.
  intros Hty Hf Had Hcr Hok. destruct Hcr as [Hg Hfr Hro Hgd Hms Hmg Hev].
  destruct Had as [Hacc Hina _ _ Hnew Hsame].
  destruct (as_i64_positive _ Hty Hg) as [Hi Hrange].
  pose proof (accepted_policy_Some _ _ Hacc) as [Ha1 Ha2].
  pose proof (ok_generation _ Hok _ Ha1) as Hra. rewrite as_u64_small in Hnew by lia.
  assert (accepted_policy db' = Some a) as Hacc'.
  { unfold accepted_policy in *. by rewrite Hgd. }
  split; rewrite ?Hgd, ?Hro; cbn.
  - apply Hok.
  - intros v. apply Hok.
  - by right.
  - intros i [= <-]. eexists _, a. rewrite lookup_insert_eq. split_and!; [done| |done|].
    + exists Prepared. by split_and!.
    + unfold target_policy, not_before. cbn. rewrite Hi.
      destruct (decide (a.1 = bq_target_generation request)) as [E|E]; [|left; lia].
      right. destruct a as [ag ad]. cbn in *. rewrite E in Hsame. rewrite Hsame, E; [done|congruence].
  - intros i x. rewrite lookup_insert. case_decide as Hd; [by subst|]. intros Hx _.
    apply (ok_idle _ Hok i x Hx). by rewrite Hina.
  - intros i x. rewrite lookup_insert. case_decide as Hd; [|by eapply ok_target].
    injection 1 as <-. cbn. lia.
  - intros i1 i2 x1 x2. rewrite !lookup_insert. do 2 case_decide; subst.
    + done.
    + intros [= <-] Hx Hp Ho. by destruct (find_operation_None _ _ _ _ _ Hf Hx).
    + intros Hx [= <-] Hp Ho. by destruct (find_operation_None _ _ _ _ _ Hf Hx).
    + by eapply ok_operations.
  - intros k Hk. destruct (insert_targets_keys _ _ _ _ Hms k Hk) as [Hk'|Hk'].
    + rewrite lookup_insert_is_Some'. rewrite lookup_union_is_Some in Hk'.
      destruct Hk' as [Hk'|Hk'%source_members_keys].
      * apply (ok_members _ Hok) in Hk' as [? ?]. eauto.
      * destruct k as [[i ro] m]. cbn in *. injection Hk' as -> ->. eauto.
    + destruct k as [[i ro] m]. cbn in *. injection Hk' as -> ->.
      rewrite lookup_insert_is_Some'. eauto.
Qed.

Lemma bootstrap_ok generation digest db db' :
  (0 ≤ generation ≤ U64_MAX)%Z →
  bootstrap_initial_manager_policy_state generation digest db = Ok db' →
  db' = db ∨ (accepted_policy db = None ∧ rollouts db = ∅ ∧ g_active_rollout_id (guard db) = None
    ∧ (0 < generation < 2 ^ 63)%Z
    ∧ db' = set_guard db (mkGuard (Some generation) (Some digest) None
                            (g_recovery_permit_principal_uri (guard db)))).
Proof.
  intros Hty. unfold bootstrap_initial_manager_policy_state.
  destruct (guard db) as [[|] [|] [|] permit] eqn:Eg; try (injection 1 as <-; by left).
  case_bool_decide as Hr; [|injection 1 as <-; by left].
  intros Hb. inv_ok Hb. apply ok_inj in Hb. subst. bool_to_prop. right.
  destruct (as_i64_positive _ Hty ltac:(done)) as [-> ?].
  split; [unfold accepted_policy; by rewrite Eg|done].
Qed.

Lemma bootstrap_preserves generation digest db db' :
  (0 ≤ generation ≤ U64_MAX)%Z →
  bootstrap_initial_manager_policy_state generation digest db = Ok db' → tables_ok db → tables_ok db'.
Proof.
  intros Hty [->|(Hacc & Hr & Hina & Hg & ->)]%bootstrap_ok Hok; [done| |done].
  destruct Hok as [H1 H2 H3 H4 H5 H6 H7 H8].
  split; cbn; try done; [intros v [= <-]; done|by left|].
  intros i x Hx. by rewrite Hr, lookup_empty in Hx.
Qed.

Lemma acknowledge_keys now id generation digest d db k :
  is_Some (members (observe_acknowledge now id generation digest d db) !! k) →
  is_Some (members db !! k).
Proof.
  unfold observe_acknowledge. destruct (dc_rollout d) as [[[rid ?] ?]|]; [|done].
  destruct (dc_role d); [|done]. cbn. by rewrite lookup_alter_is_Some.
Qed.

Lemma acknowledge_tables now id generation digest d db :
  guard (observe_acknowledge now id generation digest d db) = guard db
  ∧ rollouts (observe_acknowledge now id generation digest d db) = rollouts db.
Proof.
  unfold observe_acknowledge. destruct (dc_rollout d) as [[[rid ?] ?]|]; [|done].
  by destruct (dc_role d).
Qed.

Lemma advance_manager_rollout_db now rid principal e n outcomes secs db :
  (advance_manager_rollout now rid principal e n outcomes secs db).2
  = default db (ok (advance_transaction now rid principal e n outcomes secs db)).
Proof. unfold advance_manager_rollout. by destruct (advance_transaction _ _ _ _ _ _ _ _). Qed.

Lemma run_transaction_ok db t : well_typed t → tables_ok db → tables_ok (run_transaction db t).
Proof.
  intros Hty Hok. destruct t; cbn [run_transaction well_typed] in *;
    try (by apply (tables_ok_ext db)).
  - destruct (bootstrap_initial_manager_policy_state generation digest db) as [db'|] eqn:E; [|done].
    by eapply bootstrap_preserves.
  - destruct (acknowledge_tables now manager_id generation digest d db).
    apply (tables_ok_ext db); [done..| |done]. apply acknowledge_keys.
  - unfold committed. destruct (begin_manager_rollout _ _ _ _ _ _ _) as [[[r db']|]|] eqn:E; try done.
    apply begin_ok in E as (op & _ & [[-> _]|(Hf & a & h & Had & _ & Hc & _)]); [done|].
    by eapply created_ok.
  - rewrite advance_manager_rollout_db.
    destruct (advance_transaction _ _ _ _ _ _ _ _) as [db'|] eqn:E; [|done]. by eapply advance_ok.
  - unfold committed. destruct (reset_failed_manager_rollout _ _ _ _ _) as [[resp db']|] eqn:E; [|done].
    by eapply reset_preserves.
Qed.

Definition run_transactions (db : Db) (ts : list Transaction) : Db := foldl run_transaction db ts.

Lemma run_transactions_ok db ts :
  Forall well_typed ts → tables_ok db → tables_ok (run_transactions db ts).
Proof.
  intros Hty. revert db. induction Hty as [|t ts Ht _ IH]; intros db Hok; [done|].
  apply IH. by apply run_transaction_ok.
Qed.

(** C22. Whatever transactions run, in whatever order, the rollout tables satisfy their
    constraints: at most one rollout holds the guard, it is in a phase that is not final and
    targets no older policy than the accepted one; every other rollout is completed, failed
    before closing, or failed closed and reset with a complete receipt; a recovery permit
    never coexists with an active rollout; an operation identifier of a caller names one
    rollout; members belong to rollouts and have one of the two roles. *)
Theorem rollout_tables_hold ts :
  Forall well_typed ts → tables_ok (run_transactions fresh_db ts).
Proof. intros Hty. apply run_transactions_ok; [done|apply fresh_db_ok]. Qed.

(** ** The accepted policy *)

Definition completes (db : Db) (t : Transaction) (a' : Z * string) : Prop :=
  ∃ now rid principal outcomes secs id r db',
    t = TAdvance now rid principal (phase_i32 ActivatingTarget) (phase_i32 Completed) outcomes secs
    ∧ uuid_parse_str rid = Some id ∧ g_active_rollout_id (guard db) = Some id
    ∧ advanced now id principal ActivatingTarget Completed outcomes secs db db' r
    ∧ ro_phase r = phase_i32 ActivatingTarget ∧ target_policy r = a'.

Lemma accepted_policy_guard db db' :
  g_accepted_generation (guard db') = g_accepted_generation (guard db) →
  g_accepted_digest (guard db') = g_accepted_digest (guard db) →
  accepted_policy db' = accepted_policy db.
Proof. intros E1 E2. unfold accepted_policy. by rewrite E1, E2. Qed.

Lemma advance_accepted now rid principal e n outcomes secs db db' a :
  tables_ok db → advance_transaction now rid principal e n outcomes secs db = Ok db' →
  accepted_policy db = Some a →
  accepted_policy db' = Some a
  ∨ ∃ a', accepted_policy db' = Some a' ∧ not_before a' a
      ∧ completes db (TAdvance now rid principal e n outcomes secs) a'.
Proof.
  intros Hok E Ha. apply advance_transaction_ok in E as (id & p & q & r & Hid & -> & -> & Hadv).
  pose proof Hadv as [Hl Hr Ho Hms Hmg Hs].
  destruct Hs as [(_ & Hg & _)|(Hp & _ & _ & Hg & _)];
    [left; rewrite <-Ha; apply accepted_policy_guard; by rewrite Hg|].
  destruct (legal_holds_guard _ _ _ _ _ Hok Hr Hp Hl) as (Hact & _ & a0 & Ha0 & Hnb).
  rewrite Ha in Ha0. injection Ha0 as <-.
  unfold release_guard in Hg. rewrite bool_decide_eq_true_2 in Hg by done.
  destruct (decide (q = Completed)) as [->|Hq].
  - right. exists (target_policy r). split_and!.
    + unfold accepted_policy. by rewrite Hg.
    + done.
    + assert (p = ActivatingTarget) as -> by by destruct p.
      exists now, rid, principal, outcomes, secs, id, r, db'. by split_and!.
  - left. rewrite <-Ha. apply accepted_policy_guard; rewrite Hg; by destruct q.
Qed.

Lemma accepted_step db t a :
  tables_ok db → well_typed t → accepted_policy db = Some a →
  accepted_policy (run_transaction db t) = Some a
  ∨ ∃ a', accepted_policy (run_transaction db t) = Some a' ∧ not_before a' a ∧ completes db t a'.
Proof.
  intros Hok Hty Ha. destruct t; cbn [run_transaction well_typed] in *; try (by left).
  - left. destruct (bootstrap_initial_manager_policy_state generation digest db) as [db'|] eqn:E; [|done].
    apply bootstrap_ok in E as [->|(Hacc & _)]; [done|congruence|done].
  - left. rewrite <-Ha. apply accepted_policy_guard;
      by rewrite (proj1 (acknowledge_tables now manager_id generation digest d db)).
  - left. unfold committed.
    destruct (begin_manager_rollout _ _ _ _ _ _ _) as [[[r db']|]|] eqn:E; try done.
    apply begin_ok in E as (op & _ & [[-> _]|(_ & a0 & h & _ & _ & Hc & _)]); [done|].
    rewrite <-Ha. apply accepted_policy_guard; by rewrite (cr_guard _ _ _ _ _ _ _ _ _ Hc).
  - rewrite advance_manager_rollout_db.
    destruct (advance_transaction _ _ _ _ _ _ _ _) as [db'|] eqn:E; [|by left].
    by eapply advance_accepted.
  - left. unfold committed.
    destruct (reset_failed_manager_rollout _ _ _ _ _) as [[resp db']|] eqn:E; [|done].
    apply reset_ok in E as (id & r & _ & _ & _ & _ & [[-> _]|[first Hb]]); [done|].
    rewrite (rb_tables _ _ _ _ _ _ _ _ _ Hb), <-Ha. by apply accepted_policy_guard.
Qed.

Lemma accepted_forward db ts a :
  tables_ok db → Forall well_typed ts → accepted_policy db = Some a →
  ∃ a', accepted_policy (run_transactions db ts) = Some a' ∧ not_before a' a.
Proof.
  intros Hok Hty. revert db a Hok. induction Hty as [|t ts Ht _ IH]; intros db a Hok Ha.
  { by exists a. }
  assert (∃ a1, accepted_policy (run_transaction db t) = Some a1 ∧ not_before a1 a)
    as (a1 & Ha1 & H1).
  { destruct (accepted_step db t a) as [?|(a1 & ? & ? & _)]; [done..|by exists a|by exists a1]. }
  destruct (IH (run_transaction db t) a1) as (a2 & Ha2 & H2); [by apply run_transaction_ok|done|].
  exists a2. split; [done|]. by etrans.
Qed.

(** C10. The accepted policy only moves forward, and only a rollout moves it. Over any
    history its generation never decreases and no generation is accepted with two digests.
    A transaction that changes it is the step from [ACTIVATING_TARGET] to [COMPLETED] of the
    active rollout, taken by the rollout's owner past its barrier, and what is accepted is
    the rollout's target. *)
Theorem accepted_policy_moves_forward ts us t a :
  Forall well_typed (ts ++ us ++ [t]) →
  accepted_policy (run_transactions fresh_db ts) = Some a →
  ∃ b, accepted_policy (run_transactions fresh_db (ts ++ us)) = Some b ∧ not_before b a ∧
  (accepted_policy (run_transactions fresh_db (ts ++ us ++ [t])) = Some b
   ∨ ∃ c, accepted_policy (run_transactions fresh_db (ts ++ us ++ [t])) = Some c
       ∧ not_before c b ∧ completes (run_transactions fresh_db (ts ++ us)) t c).
Proof.
  rewrite !Forall_app, Forall_singleton. intros (Hts & Hus & Ht) Ha.
  pose proof (run_transactions_ok fresh_db ts Hts fresh_db_ok) as Hok.
  rewrite app_assoc. unfold run_transactions. rewrite !foldl_app. cbn [foldl].
  destruct (accepted_forward _ us a Hok Hus Ha) as (b & Hb & Hba). exists b.
  split_and!; [done..|]. apply accepted_step; [|done..]. by apply run_transactions_ok.
Qed.

(** ** Replays *)

(** What a row keeps for ever. *)
Definition same_rollout (r r' : RolloutRow) : Prop :=
  ro_deployment_principal_uri r' = ro_deployment_principal_uri r
  ∧ ro_client_operation_id r' = ro_client_operation_id r
  ∧ ro_canonical_request_digest r' = ro_canonical_request_digest r
  ∧ ro_canonical_request r' = ro_canonical_request r
  ∧ target_policy r' = target_policy r
  ∧ (is_Some (ro_reset_request_digest r) →
     ro_reset_request_digest r' = ro_reset_request_digest r
     ∧ ro_reset_evidence_digest r' = ro_reset_evidence_digest r
     ∧ ro_reset_policy_generation r' = ro_reset_policy_generation r
     ∧ ro_reset_policy_digest r' = ro_reset_policy_digest r).

#[global] Instance same_rollout_preorder : PreOrder same_rollout.
Proof.
  split; [by intros r; split_and!|]. unfold same_rollout.
  intros r1 r2 r3 (E1 & E2 & E3 & E4 & E5 & E6) (F1 & F2 & F3 & F4 & F5 & F6).
  split_and!; try congruence. intros Hs. specialize (E6 Hs). destruct E6 as (G1 & G2 & G3 & G4).
  rewrite <-G1 in Hs. specialize (F6 Hs). destruct F6 as (? & ? & ? & ?). split_and!; congruence.
Qed.

Lemma insert_same_rollout (m : gmap Uuid RolloutRow) i r r' id x :
  m !! i = Some r → same_rollout r r' → m !! id = Some x →
  ∃ y, <[i := r']> m !! id = Some y ∧ same_rollout x y.
Proof.
  intros Hr Hs Hx. rewrite lookup_insert. case_decide as Hd; [|by exists x].
  subst. rewrite Hr in Hx. injection Hx as <-. by exists r'.
Qed.

Lemma rows_stable_step db t id r :
  rollouts db !! id = Some r →
  ∃ r', rollouts (run_transaction db t) !! id = Some r' ∧ same_rollout r r'.
Proof.
  intros Hr. destruct t; cbn [run_transaction]; try (by exists r).
  - unfold bootstrap_initial_manager_policy_state.
    destruct (guard db) as [[|] [|] [|] permit]; try (by exists r).
    case_bool_decide; [|by exists r]. destruct (0 <? _)%Z; by exists r.
  - rewrite (proj2 (acknowledge_tables now manager_id generation digest d db)). by exists r.
  - unfold committed. destruct (begin_manager_rollout _ _ _ _ _ _ _) as [[[x db']|]|] eqn:E;
      try (by exists r).
    apply begin_ok in E as (op & _ & [[-> _]|(_ & a & h & _ & _ & Hc & _)]); [by exists r|].
    cbn match. rewrite (cr_rollouts _ _ _ _ _ _ _ _ _ Hc). exists r. split; [|done].
    rewrite lookup_insert_ne; [done|]. intros E. rewrite <-E in Hr.
    by rewrite (cr_fresh _ _ _ _ _ _ _ _ _ Hc) in Hr.
  - rewrite advance_manager_rollout_db.
    destruct (advance_transaction _ _ _ _ _ _ _ _) as [db'|] eqn:E; [|by exists r].
    apply advance_transaction_ok in E as (i & p & q & x & _ & _ & _ & Hadv).
    cbn. destruct Hadv as [_ Hx _ _ _ [(_ & _ & -> & _)|(_ & _ & -> & _)]]; [by exists r|].
    by eapply insert_same_rollout.
  - unfold committed. destruct (reset_failed_manager_rollout _ _ _ _ _) as [[resp db']|] eqn:E;
      [|by exists r].
    apply reset_ok in E as (i & x & _ & Hx & _ & _ & [[-> _]|[first Hb]]); [by exists r|].
    destruct Hb as [Hn _ _ _ _ _ _ ->]. eapply insert_same_rollout; [done| |done].
    split_and!; try done. rewrite Hn. by intros [].
Qed.

Lemma rows_stable db ts id r :
  rollouts db !! id = Some r →
  ∃ r', rollouts (run_transactions db ts) !! id = Some r' ∧ same_rollout r r'.
Proof.
  revert db r. induction ts as [|t ts IH]; intros db r Hr; [by exists r|].
  destruct (rows_stable_step db t id r Hr) as (r1 & Hr1 & H1).
  destruct (IH _ _ Hr1) as (r2 & Hr2 & H2). exists r2. split; [done|]. by etrans.
Qed.

Lemma find_operation_Some db id r :
  tables_ok db → rollouts db !! id = Some r →
  find_operation (ro_deployment_principal_uri r) (ro_client_operation_id r) db = Some (id, r).
Proof.
  intros Hok Hr. unfold find_operation.
  destruct (List.find _ _) as [[i x]|] eqn:Ef.
  - apply find_some in Ef as [Hin Hs]. apply list_elem_of_In, elem_of_map_to_list in Hin.
    unfold same_operation in Hs. cbn in Hs. bool_to_prop.
    match goal with H : String.eqb _ _ = true |- _ => apply String.eqb_eq in H end.
    assert (i = id) as -> by by eapply (ok_operations _ Hok). by rewrite Hin in Hr; simplify_eq.
  - by destruct (find_operation_None _ _ _ _ _ Ef Hr).
Qed.

(** The answer to a begin that succeeded: a row that stores its request. *)
Lemma begin_ok_row now fresh principal request digest open db r db' :
  tables_ok db → begin_wire_ok request = true →
  begin_manager_rollout now fresh principal request digest open db = Some (Ok (r, db')) →
  ∃ operation id row stored, uuid_parse_str (bq_client_operation_id request) = Some operation
    ∧ rollouts db' !! id = Some row ∧ ro_deployment_principal_uri row = principal
    ∧ ro_client_operation_id row = operation ∧ ro_canonical_request_digest row = digest
    ∧ begin_decode (ro_canonical_request row) = Some stored
    ∧ manager_rollout_from_row id principal stored digest (phase_i32 Prepared) = Some r.
Proof.
  intros Hok Hw (op & Hop & [(-> & id & row & stored & Hf & Hd & Hdec & Hr)
    |(Hf & a & h & _ & _ & Hc & Hr)])%begin_ok; exists op.
  - unfold find_operation in Hf. apply find_some in Hf as [Hin Hs].
    apply list_elem_of_In, elem_of_map_to_list in Hin. unfold same_operation in Hs. cbn in Hs.
    bool_to_prop. match goal with H : String.eqb _ _ = true |- _ => apply String.eqb_eq in H end.
    by exists id, row, stored.
  - eexists fresh, _, request. rewrite (cr_rollouts _ _ _ _ _ _ _ _ _ Hc), lookup_insert_eq.
    split_and!; try done. by apply begin_decode_encode.
Qed.

(** An exact replay of a begin returns the original receipt, in [PREPARED], and changes
    nothing, however far the rollout or later rollouts have advanced in the meantime and
    whether or not admission is open by then. *)
Theorem begin_replay_stable ts us now fresh principal request digest open r db'
    now' fresh' open' :
  Forall well_typed (ts ++ us) → (0 ≤ bq_target_generation request ≤ U64_MAX)%Z →
  begin_wire_ok request = true →
  begin_manager_rollout now fresh principal request digest open (run_transactions fresh_db ts)
    = Some (Ok (r, db')) →
  mro_phase r = phase_i32 Prepared ∧
  begin_manager_rollout now' fresh' principal request digest open' (run_transactions db' us)
    = Some (Ok (r, run_transactions db' us)).
Proof.
  rewrite Forall_app. intros [Hts Hus] Hty Hw Hb.
  pose proof (run_transactions_ok _ _ Hts fresh_db_ok) as Hok.
  assert (tables_ok db') as Hok'.
  { pose proof (run_transaction_ok _ (TBegin now fresh principal request digest open) Hty Hok) as Hx.
    cbn [run_transaction] in Hx. by rewrite Hb in Hx. }
  destruct (begin_ok_row _ _ _ _ _ _ _ _ _ Hok Hw Hb)
    as (op & id & row & stored & Hop & Hr & Hp & Ho & Hd & Hdec & Hres).
  destruct (rows_stable db' us id row Hr) as (row' & Hr' & E1 & E2 & E3 & E4 & _).
  split.
  { unfold manager_rollout_from_row in Hres. destruct (manager_target_set_hash _); [|done].
    by injection Hres as <-. }
  pose proof (find_operation_Some _ _ _ (run_transactions_ok _ _ Hus Hok') Hr') as Hf.
  rewrite E1, E2, Hp, Ho in Hf. unfold begin_manager_rollout.
  rewrite Hop, Hf, E3, Hd, String.eqb_refl, E4, Hdec. cbn [negb]. by rewrite Hres.
Qed.

(** A reported outcome that is already stored. *)
Definition outcome_stored (ms : gmap MemberKey MemberRow) (id : Uuid) (o : MemberOutcome) : Prop :=
  ∃ m, ms !! (id, oc_member_role o, oc_manager_id o) = Some m
    ∧ mb_host_action_outcome m = Some (oc_host_action_outcome o)
    ∧ default "" (mb_error m) = oc_error o.

Lemma apply_outcomes_other now id replay seen outs ms ms' key :
  apply_outcomes now id replay seen outs ms = Ok ms' → key ∈ seen →
  ms' !! (id, key.1, key.2) = ms !! (id, key.1, key.2).
Proof.
  revert seen ms. induction outs as [|o outs IH]; intros seen ms E Hk; cbn in E; [by simplify_eq|].
  inv_ok E. rewrite (IH _ _ E) by (by right). clear IH E. bool_to_prop.
  destruct (ms !! _) as [m|] eqn:Em; [|done].
  destruct (mb_host_action_outcome m); split_cases; [done|].
  apply lookup_insert_ne. intros [= E1 E2]. destruct key; cbn in *; by subst.
Qed.

Lemma apply_outcomes_stored now id replay seen outs ms ms' :
  apply_outcomes now id replay seen outs ms = Ok ms' → Forall (outcome_stored ms' id) outs.
Proof.
  revert seen ms. induction outs as [|o outs IH]; intros seen ms E; cbn in E; [done|].
  inv_ok E. constructor; [|by eapply IH]. unfold outcome_stored.
  pose proof (apply_outcomes_other _ _ _ _ _ _ _ _ E (list_elem_of_here _ _)) as Hl. cbn in Hl.
  rewrite Hl. clear IH E Hl.
  destruct (ms !! _) as [m|] eqn:Em; [|done].
  destruct (mb_host_action_outcome m) as [stored|] eqn:Eo.
  - inv_ok H0. apply ok_inj in H0. subst. bool_to_prop.
    rewrite !String.eqb_eq in *. subst. by exists m.
  - inv_ok H0. apply ok_inj in H0. subst. rewrite lookup_insert_eq.
    eexists. split_and!; [done..|]. cbn. by destruct (oc_error o).
Qed.

Lemma apply_outcomes_replay now now' id replay replay' seen outs ms ms' :
  apply_outcomes now id replay seen outs ms = Ok ms' →
  apply_outcomes now' id replay' seen outs ms' = Ok ms'.
Proof.
  intros E. pose proof (apply_outcomes_stored _ _ _ _ _ _ _ E) as Hs.
  revert seen ms E. induction Hs as [|o outs Ho _ IH]; intros seen ms E; cbn in E |- *; [done|].
  inv_ok E. rewrite H. cbn [rbind]. destruct Ho as (m & Hm & Hout & Herr).
  rewrite Hm, Hout, Herr, !String.eqb_refl. cbn. by eapply IH.
Qed.

(** A phase change can be repeated: the second call changes nothing. *)
Lemma advance_replay_idempotent now rid principal e n outcomes secs db db' now' secs' :
  advance_transaction now rid principal e n outcomes secs db = Ok db' →
  advance_transaction now' rid principal e n outcomes secs' db' = Ok db'.
Proof.
  intros (id & p & q & r & Hid & -> & -> & Hadv)%advance_transaction_ok.
  destruct Hadv as [Hl Hr Ho Hms _ Hs].
  assert (∃ r', rollouts db' !! id = Some r' ∧ ro_deployment_principal_uri r' = principal
    ∧ ro_phase r' = phase_i32 q) as (r' & Hr' & Ho' & Hp').
  { destruct Hs as [(Hp & _ & -> & _)|(_ & _ & -> & _)]; [by exists r|].
    rewrite lookup_insert_eq. by eexists. }
  unfold advance_transaction. rewrite Hid, !phase_try_from_i32. cbn [rbind].
  rewrite Hl, Hr'. cbn [rbind]. rewrite Ho', String.eqb_refl, Hp', Z.eqb_refl, orb_true_r.
  rewrite (apply_outcomes_replay _ now' _ _ true _ _ _ _ Hms). cbn. by destruct db'.
Qed.

(** A reset can be repeated, however much later: the second call returns the same receipt
    and changes nothing. *)
Lemma reset_replay_stable principal request rd ed db response db' us :
  Forall (λ e, 0 ≤ fe_policy_generation e ≤ U64_MAX)%Z (rs_evidence request) →
  reset_failed_manager_rollout principal request rd ed db = Ok (response, db') →
  reset_failed_manager_rollout principal request rd ed (run_transactions db' us)
    = Ok (response, run_transactions db' us).
Proof.
  intros Hty H. unfold reset_failed_manager_rollout at 1.
  pose proof (reset_ok _ _ _ _ _ _ _ H) as (id & r & Hid & Hr & Ho & Hd & Hcase).
  assert (∃ r1 stored, rollouts db' !! id = Some r1 ∧ ro_deployment_principal_uri r1 = principal
    ∧ ro_canonical_request_digest r1 = rs_original_request_digest request
    ∧ ro_reset_request_digest r1 = Some stored
    ∧ reset_receipt request r1 stored rd ed = Ok response)
    as (r1 & stored & Hr1 & Ho1 & Hd1 & Hs1 & Hre).
  { destruct Hcase as [(-> & stored & Hs & Hre)|[first Hb]]; [by exists r, stored|].
    destruct Hb as [Hn Hp Hact Hcov Hf Hst Hgen ->]. unfold reset_failed_manager_rollout in H.
    rewrite Hid in H. cbn [rbind] in H. rewrite Hr in H. cbn [rbind] in H. rewrite Hn in H. inv_ok H.
    destruct (rs_evidence request) as [|e rest] eqn:Ev; [done|]. injection Hf as ->.
    inversion Hty as [|? ? Hge _]; subst. destruct (as_i64_positive _ Hge Hgen) as [Hi Hrange].
    eexists _, rd. cbn [rollouts]. rewrite lookup_insert_eq. split_and!; [done..|].
    unfold reset_receipt. cbn. rewrite String.eqb_refl, bool_decide_eq_true_2 by done. cbn.
    rewrite Hi, as_u64_small by lia. apply ok_inj in H. simplify_eq. done. }
  destruct (rows_stable db' us id r1 Hr1) as (r2 & Hr2 & E1 & E2 & E3 & E4 & _ & E5).
  rewrite Hs1 in E5. destruct (E5 ltac:(by eexists)) as (F1 & F2 & F3 & F4).
  rewrite Hid. cbn [rbind]. rewrite Hr2. cbn [rbind]. rewrite E1, Ho1, String.eqb_refl, E3, Hd1, String.eqb_refl, F1.
  assert (reset_receipt request r2 stored rd ed = Ok response) as ->; [|done].
  unfold reset_receipt in *. by rewrite F2, F3, F4, E3.
Qed.
End facts.
