(* ===== verification/RolloutRun.v ===== *)
(** * Manager rollouts: processes and interleavings (wr-manager/src/main.rs, db.rs)

    A manager process starts (registers, bootstraps, reads the guard, stores its state, opens
    if it may), observes rollouts in a loop, and shuts down; each statement of these threads
    is a step, so processes, their threads and the transactions of rollouts interleave
    freely. A manager identifier runs at most one process at a time. *)

From S2P Require Import Prelude RustStr Utf8 Lists Orders Externals Models Grpc Identity Http PolicyTypes Snapshot Policy Lifecycle Rollout RolloutFacts.

Section run.
Context `{SH : Sha256Lib, HL : HttpLib, RC : RolloutCodec, UL : UuidLib, CL : CollationLib}.

(** ** Processes *)

(** Where the main thread of a manager is: before each statement of its start, running
    ([MRunning]), after closing admission ([MDraining]), after deregistering ([MDeregistered]). *)
Inductive MainPc : Type :=
| MRegister
| MBootstrap
| MReadGuard
| MStoreState (state : string) (open_at_startup : bool)
| MOpen (open_at_startup : bool)
| MRunning
| MDraining
| MDeregistered.

(** The observer: waiting for its tick, or before the gate, the update of its manager row,
    or the acknowledgement that a decision leads to. A failed observer stays failed. *)
Inductive ObserverPc : Type :=
| OIdle
| OGate (d : ObserverDecision)
| OStore (d : ObserverDecision)
| OAcknowledge (d : ObserverDecision)
| OFailed.

Record Proc : Type := mkProc {
  pr_policy : ValidatedPolicy;
  pr_main : MainPc;
  pr_observer : ObserverPc;
  pr_gate : bool;
}.

Record Sys : Type := mkSys { sys_db : Db; sys_procs : gmap string Proc }.

Definition sys_init : Sys := mkSys fresh_db ∅.

Definition set_main (p : Proc) (pc : MainPc) : Proc :=
  mkProc (pr_policy p) pc (pr_observer p) (pr_gate p).
Definition set_observer (p : Proc) (pc : ObserverPc) : Proc :=
  mkProc (pr_policy p) (pr_main p) pc (pr_gate p).
Definition set_gate (p : Proc) (b : bool) : Proc :=
  mkProc (pr_policy p) (pr_main p) (pr_observer p) b.

Definition generation_of (p : Proc) : Z := vp_generation (pr_policy p).
Definition digest_of (p : Proc) : string := vp_digest (pr_policy p).

(** The next statement of the main thread; a database error ends the process. *)
Definition main_step (now : Z) (address manager_id : string) (p : Proc) (db : Db) :
    option (option Proc * Db) :=
  match pr_main p with
  | MRegister => Some (Some (set_main p MBootstrap), register_manager now manager_id address db)
  | MBootstrap =>
      Some (match bootstrap_initial_manager_policy_state (generation_of p) (digest_of p) db with
            | Ok db' => (Some (set_main p MReadGuard), db')
            | Err _ => (None, db)
            end)
  | MReadGuard =>
      let '(state, open) := startup_decision (generation_of p) (digest_of p) (guard db) in
      Some (Some (set_main p (MStoreState state open)), db)
  | MStoreState state open =>
      Some (Some (set_main p (MOpen open)),
            store_policy_state manager_id (generation_of p) (digest_of p) state db)
  | MOpen open => Some (Some (set_gate (set_main p MRunning) (open || pr_gate p)), db)
  | MRunning => None
  | MDraining => Some (Some (set_main p MDeregistered), deregister_manager manager_id db)
  | MDeregistered => Some (None, db)
  end.

(** The tasks of a manager are spawned before it opens and run until they are cancelled. *)
Definition tasks_running (pc : MainPc) : bool :=
  match pc with MOpen _ | MRunning | MDraining | MDeregistered => true | _ => false end.

Definition observer_step (now : Z) (manager_id : string) (p : Proc) (db : Db) : option (Proc * Db) :=
  let generation := generation_of p in
  let digest := digest_of p in
  match pr_observer p with
  | OIdle =>
      Some (match observe_decide (pr_policy p) generation digest
                    (observe_read manager_id generation digest db) with
            | Ok d => (set_observer p (OGate d), db)
            | Err _ => (set_observer p OFailed, db)
            end)
  | OGate d => Some (set_gate (set_observer p (OStore d)) (dc_open d), db)
  | OStore d =>
      Some (set_observer p (match dc_rollout d with Some _ => OAcknowledge d | None => OIdle end),
            observe_store now manager_id generation digest d db)
  | OAcknowledge d =>
      Some (set_observer p OIdle, observe_acknowledge now manager_id generation digest d db)
  | OFailed => None
  end.

(** ** Steps of the cluster *)

Inductive Action : Type :=
| AStart (manager_id : string) (policy : ValidatedPolicy)
| AMain (now : Z) (address manager_id : string)
| AObserver (now : Z) (manager_id : string)
| AHeartbeat (now : Z) (manager_id : string)
| AShutdown (manager_id : string)
| ACrash (manager_id : string)
| AReap (now threshold_secs : Z)
| ABegin (now : Z) (fresh : Uuid) (principal : string) (request : BeginManagerRolloutRequest)
    (digest : string) (privileged_admission_open : bool)
| AAdvance (now : Z) (rollout_id principal : string) (expected next : Z)
    (outcomes : list MemberOutcome) (threshold_secs : Z)
| AReset (principal : string) (request : ResetRequest) (request_digest evidence_digest : string).

Definition set_proc (s : Sys) (m : string) (p : option Proc) (db : Db) : Sys :=
  mkSys db (partial_alter (λ _, p) m (sys_procs s)).

(** The main thread is about to open while a rollout holds the guard. *)
Definition opens_late (p : Proc) (db : Db) : bool :=
  match pr_main p with
  | MOpen true => bool_decide (is_Some (g_active_rollout_id (guard db)))
  | _ => false
  end.

(** [late] allows the main thread to open after a rollout began, as the code does. *)
Definition sys_step (late : bool) (s : Sys) (a : Action) : option Sys :=
  let db := sys_db s in
  match a with
  | AStart m policy =>
      match sys_procs s !! m with
      | Some _ => None
      | None => Some (set_proc s m (Some (mkProc policy MRegister OIdle false)) db)
      end
  | AMain now address m =>
      p ← sys_procs s !! m;
      if negb late && opens_late p db then None
      else '(p', db') ← main_step now address m p db;
           Some (set_proc s m p' db')
  | AObserver now m =>
      p ← sys_procs s !! m;
      if tasks_running (pr_main p) then
        '(p', db') ← observer_step now m p db;
        Some (set_proc s m (Some p') db')
      else None
  | AHeartbeat now m =>
      p ← sys_procs s !! m;
      if tasks_running (pr_main p) then Some (mkSys (heartbeat_manager now m db) (sys_procs s))
      else None
  | AShutdown m =>
      p ← sys_procs s !! m;
      match pr_main p with
      | MOpen _ | MRunning => Some (set_proc s m (Some (set_gate (set_main p MDraining) false)) db)
      | _ => None
      end
  | ACrash m => Some (set_proc s m None db)
  | AReap now secs => Some (mkSys (cleanup_stale_managers now secs db) (sys_procs s))
  | ABegin now fresh principal request digest open =>
      Some (mkSys (run_transaction db (TBegin now fresh principal request digest open))
              (sys_procs s))
  | AAdvance now id principal e n outcomes secs =>
      Some (mkSys (run_transaction db (TAdvance now id principal e n outcomes secs)) (sys_procs s))
  | AReset principal request rd ed =>
      Some (mkSys (run_transaction db (TReset principal request rd ed)) (sys_procs s))
  end.

Fixpoint sys_run (late : bool) (s : Sys) (acts : list Action) : option Sys :=
  match acts with
  | [] => Some s
  | a :: acts => s' ← sys_step late s a; sys_run late s' acts
  end.

Lemma sys_run_app late s s' acts acts' :
  sys_run late s acts = Some s' → sys_run late s (acts ++ acts') = sys_run late s' acts'.
Proof.
  revert s. induction acts as [|a acts IH]; intros s Hs; cbn in *; [by injection Hs as ->|].
  destruct (sys_step late s a); [|done]. by apply IH.
Qed.

(** Policies were loaded, so their generation is a [u64]; so are those of calls. *)
Definition action_typed (a : Action) : Prop :=
  match a with
  | AStart _ policy => (0 ≤ vp_generation policy ≤ U64_MAX)%Z
  | ABegin now fresh principal request digest open =>
      well_typed (TBegin now fresh principal request digest open)
  | AReset principal request rd ed => well_typed (TReset principal request rd ed)
  | _ => True
  end.

(** ** The invariant *)

Definition acts_as_source (p : Proc) (r : RolloutRow) : Prop :=
  acting_role (generation_of p) (digest_of p) r = "source".

(** A gate that is closed and that no pending decision opens. *)
Definition stays_closed (p : Proc) : Prop :=
  pr_gate p = false ∧ ∀ d, pr_observer p = OGate d → dc_open d = false.

Definition before_closing (v : Z) : Prop := v = phase_i32 Prepared ∨ v = phase_i32 Staging.

Definition sources_closed_phase (v : Z) : Prop :=
  v = phase_i32 OldClosed ∨ v = phase_i32 StartingTarget ∨ v = phase_i32 TargetReadyClosed
  ∨ v = phase_i32 ActivatingTarget.

(** A source that acknowledged, or any source once the old managers are closed. *)
Definition must_be_closed (db : Db) (id : Uuid) (r : RolloutRow) (m : string) : Prop :=
  ∃ mb, members db !! (id, "source", m) = Some mb ∧
    (ro_phase r = phase_i32 ClosingOld ∧ mb_admission_state mb = Some "CLOSED_ROLLOUT"
     ∨ sources_closed_phase (ro_phase r)).

Definition pending (p : Proc) (d : ObserverDecision) : Prop :=
  pr_observer p = OGate d ∨ pr_observer p = OStore d ∨ pr_observer p = OAcknowledge d.

(** A decision to acknowledge the closure of a source was read after closing began, and the
    gate is closed by the time it is acknowledged. *)
Definition pending_ok (db : Db) (p : Proc) (d : ObserverDecision) : Prop :=
  ∀ id ph h, dc_rollout d = Some (id, ph, h) → ∃ r, rollouts db !! id = Some r ∧
    (g_active_rollout_id (guard db) = Some id → dc_role d = Some "source" →
     dc_state d = "CLOSED_ROLLOUT" →
     ¬ before_closing (ro_phase r) ∧ dc_open d = false
     ∧ (pr_observer p = OGate d ∨ pr_gate p = false)).

Record proc_ok (db : Db) (m : string) (p : Proc) : Prop := {
  po_typed : (0 ≤ generation_of p ≤ U64_MAX)%Z;
  po_pending d : pending p d → pending_ok db p d;
  po_closed id r :
    g_active_rollout_id (guard db) = Some id → rollouts db !! id = Some r →
    must_be_closed db id r m → acts_as_source p r → stays_closed p;
}.

(** No source row says closed before closing begins. *)
Definition sources_unclosed (db : Db) : Prop :=
  ∀ id r m mb, g_active_rollout_id (guard db) = Some id → rollouts db !! id = Some r →
    before_closing (ro_phase r) → members db !! (id, "source", m) = Some mb →
    mb_admission_state mb ≠ Some "CLOSED_ROLLOUT".

Record sys_ok (s : Sys) : Prop := {
  so_tables : tables_ok (sys_db s);
  so_sources : sources_unclosed (sys_db s);
  so_procs m p : sys_procs s !! m = Some p → proc_ok (sys_db s) m p;
}.

(** *** Decisions *)

Lemma member_state_source phase role tm :
  role ≠ Some "target" →
  member_state phase role tm
  = if match phase with Some (Prepared | Staging) => bool_decide (role = Some "source") | _ => false end
    then ("OPEN", AdmOpen, true) else ("CLOSED_ROLLOUT", AdmClosedRollout, false).
Proof.
  intros Hr. unfold member_state. rewrite (bool_decide_eq_false_2 (role = Some "target")) by done.
  rewrite !andb_false_r. cbn [andb]. by destruct phase as [[]|].
Qed.

Lemma observe_read_active m g d db id r :
  g_active_rollout_id (guard db) = Some id → rollouts db !! id = Some r →
  ∃ role, od_rollout (observe_read m g d db) = Some (id, r, role)
    ∧ (role = Some (acting_role g d r) ∨ role = None).
Proof.
  intros Ha Hr. unfold observe_read. cbn. rewrite Ha. cbn. rewrite Hr. cbn.
  eexists. split; [done|]. destruct (members db !! _); auto.
Qed.

Lemma acting_role_cases g d r : acting_role g d r = "source" ∨ acting_role g d r = "target".
Proof. unfold acting_role. destruct (_ && _); auto. Qed.

(** What an observation under an active rollout decides for a process that is no target. *)
Lemma decide_source policy g d db m id r dec :
  g_active_rollout_id (guard db) = Some id → rollouts db !! id = Some r →
  observe_decide policy g d (observe_read m g d db) = Ok dec →
  (∃ h, dc_rollout dec = Some (id, ro_phase r, h))
  ∧ (acting_role g d r = "source" ∨ dc_role dec = Some "source" →
     (dc_state dec = "CLOSED_ROLLOUT" → dc_open dec = false
        ∧ (dc_role dec = Some "source" → ¬ before_closing (ro_phase r)))
     ∧ (¬ before_closing (ro_phase r) → dc_open dec = false)).
Proof.
  intros Ha Hr. destruct (observe_read_active m g d db id r Ha Hr) as (role & Ho & Hrole).
  unfold observe_decide. rewrite Ho. destruct (begin_decode _) as [req|]; [|done].
  destruct (member_state _ role _) as [[st w] op] eqn:Em. intros [= <-]. cbn. split; [by eexists|].
  intros Hsrc. rewrite member_state_source in Em.
  2: { destruct Hsrc as [Hs|Hs]; [|by rewrite Hs].
       destruct Hrole as [->| ->]; [rewrite Hs|]; by intros [=]. }
  unfold before_closing. rewrite <-!phase_try_from_Some.
  destruct (phase_try_from (ro_phase r)) as [[]|]; try (injection Em as <- <- <-; naive_solver);
    (case_bool_decide; injection Em as <- <- <-; [naive_solver|]; split; [|done];
     split; [done|]; naive_solver).
Qed.

(** *** Changes of the tables under fixed processes *)

Lemma proc_ok_tables db db' m p :
  g_active_rollout_id (guard db') = g_active_rollout_id (guard db) → rollouts db' = rollouts db → members db' = members db →
  proc_ok db m p → proc_ok db' m p.
Proof.
  intros Hg Hr Hm [H1 H2 H3]. split; [done|..].
  - intros d Hd id ph h. rewrite Hr, Hg. by apply H2.
  - intros id r. rewrite Hg, Hr. intros Ha Hrow (mb & Hmb & Hc). apply (H3 id r Ha Hrow).
    exists mb. by rewrite <-Hm.
Qed.

Lemma sources_unclosed_tables db db' :
  g_active_rollout_id (guard db') = g_active_rollout_id (guard db) → rollouts db' = rollouts db → members db' = members db →
  sources_unclosed db → sources_unclosed db'.
Proof. intros Hg Hr Hm H id r m mb. rewrite Hg, Hr, Hm. apply H. Qed.

(** Nothing is demanded of sources when no rollout is active. *)
Lemma proc_ok_inactive db db' m p :
  g_active_rollout_id (guard db') = None →
  (∀ id r, rollouts db !! id = Some r → is_Some (rollouts db' !! id)) →
  proc_ok db m p → proc_ok db' m p.
Proof.
  intros Ha Hr [H1 H2 H3]. split; [done|..].
  - intros d Hd id ph h Hrol. destruct (H2 d Hd id ph h Hrol) as (r & Hrow & _).
    destruct (Hr _ _ Hrow) as [r' Hr']. exists r'. split; [done|]. by rewrite Ha.
  - by rewrite Ha.
Qed.

Lemma apply_outcomes_admission now id replay seen outs ms ms' k mb' :
  apply_outcomes now id replay seen outs ms = Ok ms' → ms' !! k = Some mb' →
  mb_admission_state mb' = Some "CLOSED_ROLLOUT" →
  ∃ mb, ms !! k = Some mb ∧ mb_admission_state mb = Some "CLOSED_ROLLOUT".
Proof.
  revert seen ms. induction outs as [|o outs IH]; intros seen ms E Hk Hc; cbn in E;
    [injection E as ->; by exists mb'|].
  inv_ok E. destruct (IH _ _ E Hk Hc) as (mb & Hmb & Hcl). clear IH E Hk.
  destruct (ms !! (id, oc_member_role o, oc_manager_id o)) as [row|] eqn:Ex; [|done].
  destruct (mb_host_action_outcome row); inv_ok H0; apply ok_inj in H0; subst; [by exists mb|].
  rewrite lookup_insert in Hmb. case_decide as Hd; [|by exists mb].
  subst. injection Hmb as <-. exists row. split; [done|]. cbn in Hcl. unfold admission_override in Hcl.
  destruct (String.eqb (oc_member_role o) "source"); [|done].
  cbn [andb] in Hcl. destruct (String.eqb_spec (oc_host_action_outcome o) "STOPPED") as [Es|_];
    [cbn in Hcl; by rewrite Es in Hcl|].
  destruct (String.eqb_spec (oc_host_action_outcome o) "UNREACHABLE") as [Es|_];
    [cbn in Hcl; by rewrite Es in Hcl|done].
Qed.

Lemma count_members_zero id role clause db m mb :
  count_members id role clause db = 0 → members db !! (id, role, m) = Some mb →
  sql_holds (clause mb) = false.
Proof.
  intros Hc Hm. apply nil_length_inv in Hc. destruct (sql_holds (clause mb)) eqn:E; [|done].
  exfalso. apply elem_of_map_to_list in Hm.
  assert ((id, role, m, mb) ∈ filter (λ kv : MemberKey * MemberRow, kv.1.1 = (id, role)
    ∧ sql_holds (clause kv.2) = true) (map_to_list (members db))) as Hin
    by by apply list_elem_of_filter.
  rewrite Hc in Hin. by apply not_elem_of_nil in Hin.
Qed.

Lemma old_closed_barrier now secs id r db m mb :
  barrier now secs id r OldClosed db = 0 → members db !! (id, "source", m) = Some mb →
  mb_admission_state mb = Some "CLOSED_ROLLOUT".
Proof.
  intros Hb Hm. pose proof (count_members_zero _ _ _ _ _ _ Hb Hm) as Hf. cbn in Hf.
  destruct (bool_decide _) eqn:E in Hf; [|done]. bool_to_prop.
  destruct (mb_admission_state mb); cbn in E; [by subst|done].
Qed.

Lemma legal_before_closing p q : legal p q = true → before_closing (phase_i32 q) → p = Prepared.
Proof. unfold before_closing. by destruct p, q; cbn; intros ? [[=]|[=]]. Qed.

(** The source rows that must be closed after a phase change had to be closed before it. *)
Lemma must_be_closed_before now id principal p q outs secs db db' r m :
  sources_unclosed db → advanced now id principal p q outs secs db db' r →
  ro_phase r = phase_i32 p → g_active_rollout_id (guard db) = Some id →
  barrier now secs id r q (set_members db (members db')) = 0 →
  must_be_closed db' id (set_phase q r) m → must_be_closed db id r m.
Proof.
  intros Hun [Hl Hr _ Hms _ _] Hp Ha Hb (mb' & Hmb' & Hc). cbn in Hc.
  destruct (apply_outcomes_keys _ _ _ _ _ _ _ Hms _ ltac:(by eexists)) as [mb Hmb].
  assert (mb_admission_state mb' = Some "CLOSED_ROLLOUT" →
    mb_admission_state mb = Some "CLOSED_ROLLOUT") as Hadm.
  { intros Hcl. destruct (apply_outcomes_admission _ _ _ _ _ _ _ _ _ Hms Hmb' Hcl) as (x & Hx & ?).
    rewrite Hmb in Hx. by injection Hx as <-. }
  exists mb. split; [done|]. rewrite Hp. unfold sources_closed_phase in *.
  destruct p, q; try done; cbn in *; try (right; lia).
  - destruct Hc as [[_ Hcl]|Hc]; [|lia].
    destruct (Hun id r m mb); [done..|by right|done|by apply Hadm].
  - left. split; [done|]. apply Hadm.
    by apply (old_closed_barrier now secs id r (set_members db (members db')) m).
Qed.

Lemma advance_keeps_sources now rid principal e n outs secs db db' :
  tables_ok db → sources_unclosed db →
  advance_transaction now rid principal e n outs secs db = Ok db' →
  sources_unclosed db' ∧ ∀ m p, proc_ok db m p → proc_ok db' m p.
Proof.
  intros Hok Hun (id & p & q & r & _ & _ & _ & Hadv)%advance_transaction_ok.
  pose proof Hadv as [Hl Hr _ Hms _ Hs].
  destruct Hs as [(_ & Hg & Hro & _)|(Hp & Hb & Hro & Hg & _)].
  { split.
    - intros i x m mb. rewrite Hg, Hro. intros Ha Hx Hbc Hmb Hcl.
      destruct (apply_outcomes_admission _ _ _ _ _ _ _ _ _ Hms Hmb Hcl) as (mb0 & Hmb0 & Hcl0).
      by eapply Hun.
    - intros m pr [H1 H2 H3]. split; [done|..].
      + intros d Hd i ph h. rewrite Hg, Hro. by apply H2.
      + intros i x. rewrite Hg, Hro. intros Ha Hx (mb & Hmb & Hc). apply (H3 i x Ha Hx).
        destruct (apply_outcomes_keys _ _ _ _ _ _ _ Hms _ ltac:(by eexists)) as [mb0 Hmb0].
        exists mb0. split; [done|]. destruct Hc as [[Hph Hcl]|Hc]; [left; split; [done|]|by right].
        destruct (apply_outcomes_admission _ _ _ _ _ _ _ _ _ Hms Hmb Hcl) as (mb1 & Hmb1 & Hcl1).
        rewrite Hmb0 in Hmb1. by injection Hmb1 as <-. }
  destruct (legal_holds_guard _ _ _ _ _ Hok Hr Hp Hl) as (Hact & _).
  assert (g_active_rollout_id (guard db') = Some id ∨ g_active_rollout_id (guard db') = None) as Hact'.
  { rewrite Hg. unfold release_guard. rewrite bool_decide_eq_true_2 by done. destruct q; auto. }
  split.
  - intros i x m mb Ha Hx Hbc Hmb Hcl. destruct Hact' as [E|E]; [|congruence].
    rewrite E in Ha. injection Ha as <-. rewrite Hro, lookup_insert_eq in Hx. injection Hx as <-.
    destruct (apply_outcomes_admission _ _ _ _ _ _ _ _ _ Hms Hmb Hcl) as (mb0 & Hmb0 & Hcl0).
    apply (Hun id r m mb0); [done..| |done|done]. left. rewrite Hp.
    by rewrite (legal_before_closing _ _ Hl Hbc).
  - intros m pr Hpr. destruct Hact' as [E|E].
    2: { apply (proc_ok_inactive db); [done| |done]. intros i x Hx. rewrite Hro.
         rewrite lookup_insert_is_Some'. by right. }
    destruct Hpr as [H1 H2 H3]. split; [done|..].
    + intros d Hd i ph h Hrol. destruct (H2 d Hd i ph h Hrol) as (x & Hx & Himp).
      rewrite Hro, lookup_insert. case_decide as Hi; [|exists x; split; [done|]; congruence].
      subst i. rewrite Hr in Hx. injection Hx as <-. exists (set_phase q r). split; [done|].
      intros _ Hrole Hst. destruct (Himp Hact Hrole Hst) as (Hnb & ? & ?). split; [|done].
      intros Hbc. apply Hnb. left. rewrite Hp. by rewrite (legal_before_closing _ _ Hl Hbc).
    + intros i x Ha Hx Hm Hsrc. rewrite E in Ha. injection Ha as <-.
      rewrite Hro, lookup_insert_eq in Hx. injection Hx as <-.
      apply (H3 id r Hact Hr); [|exact Hsrc].
      by eapply must_be_closed_before.
Qed.

Lemma insert_targets_source id targets ms ms' i m :
  insert_targets id targets ms = Ok ms' → ms' !! (i, "source", m) = ms !! (i, "source", m).
Proof.
  revert ms. induction targets as [|t ts IH]; intros ms E; cbn in E; [by injection E as ->|].
  inv_ok E. rewrite (IH _ E). apply lookup_insert_ne. by intros [=].
Qed.

(** A new rollout copies sources whose row says open. *)
Lemma begin_keeps_sources now fresh principal request digest open db r db' :
  tables_ok db → sources_unclosed db →
  begin_manager_rollout now fresh principal request digest open db = Some (Ok (r, db')) →
  sources_unclosed db' ∧ ∀ m p, proc_ok db m p → proc_ok db' m p.
Proof.
  intros Hok Hun (op & _ & [[-> _]|(_ & a & h & _ & _ & Hc & _)])%begin_ok; [done|].
  destruct Hc as [_ Hfr Hro Hg Hms _ _].
  assert (∀ m mb, members db' !! (fresh, "source", m) = Some mb → mb_admission_state mb = Some "OPEN")
    as Hopen.
  { intros m mb Hmb. rewrite (insert_targets_source _ _ _ _ _ _ Hms) in Hmb.
    apply lookup_union_Some_raw in Hmb as [Hmb|[_ Hmb]].
    - destruct (ok_members _ Hok _ ltac:(by eexists)) as [Hx _]. cbn in Hx. rewrite Hfr in Hx. by destruct Hx.
    - apply elem_of_list_to_map_2, list_elem_of_fmap in Hmb as ([x y] & Heq & Hin).
      apply list_elem_of_filter in Hin as [[Ho _] _]. cbn in *. injection Heq as _ ->. by rewrite <-Ho. }
  split.
  - intros i x m mb. rewrite Hg. cbn. intros [= <-] _ _ Hmb. by rewrite (Hopen _ _ Hmb).
  - intros m p [H1 H2 H3]. split; [done|..].
    + intros d Hd i ph hh Hrol. destruct (H2 d Hd i ph hh Hrol) as (x & Hx & _).
      assert (fresh ≠ i) as Hne by congruence.
      exists x. rewrite Hro, lookup_insert_ne by done. split; [done|]. rewrite Hg. cbn. congruence.
    + intros i x. rewrite Hg. cbn. intros [= <-]. rewrite Hro, lookup_insert_eq. intros [= <-].
      intros (mb & Hmb & Hcl) _. cbn in Hcl. destruct Hcl as [[? _]|Hcl]; [done|].
      unfold sources_closed_phase in Hcl. cbn in Hcl. lia.
Qed.

Lemma reset_keeps_sources principal request rd ed db resp db' :
  sources_unclosed db →
  reset_failed_manager_rollout principal request rd ed db = Ok (resp, db') →
  sources_unclosed db' ∧ ∀ m p, proc_ok db m p → proc_ok db' m p.
Proof.
  intros Hun (id & r & _ & _ & _ & _ & [[-> _]|[first Hb]])%reset_ok; [done|].
  rewrite (rb_tables _ _ _ _ _ _ _ _ _ Hb). split; [done|]. intros m p.
  apply proc_ok_inactive; [done|]. intros i x Hx. cbn. rewrite lookup_insert_is_Some'. by right.
Qed.

(** *** Steps of one process *)

Lemma sys_ok_proc s m p p' db' :
  sys_ok s → sys_procs s !! m = Some p → tables_ok db' →
  g_active_rollout_id (guard db') = g_active_rollout_id (guard (sys_db s)) →
  rollouts db' = rollouts (sys_db s) →
  members db' = members (sys_db s) →
  (proc_ok (sys_db s) m p → match p' with Some q => proc_ok (sys_db s) m q | None => True end) →
  sys_ok (set_proc s m p' db').
Proof.
  intros [H1 H2 H3] Hp Hok Hg Hr Hm Hpq. split; cbn.
  - done.
  - by apply (sources_unclosed_tables (sys_db s)).
  - intros i x Hx. apply (proc_ok_tables (sys_db s)); [done..|].
    destruct (decide (i = m)) as [->|Hne].
    + rewrite lookup_partial_alter_eq in Hx. subst p'. by apply Hpq, H3.
    + rewrite lookup_partial_alter_ne in Hx by done. by apply H3.
Qed.

(** A step of the main thread that does not touch the gate. *)
Lemma proc_ok_main db m p pc : proc_ok db m p → proc_ok db m (set_main p pc).
Proof. intros [H1 H2 H3]. split; [done|exact H2|exact H3]. Qed.

Lemma proc_ok_close db m p : proc_ok db m p → proc_ok db m (set_gate p false).
Proof.
  intros [H1 H2 H3]. split; [done|..].
  - intros d Hd id ph h Hrol. destruct (H2 d Hd id ph h Hrol) as (r & Hr & Himp).
    exists r. split; [done|]. intros Ha Hro Hst. destruct (Himp Ha Hro Hst) as (? & ? & _).
    split_and!; [done..|by right].
  - intros id r Ha Hr Hm Hsrc. split; [done|]. apply (H3 id r Ha Hr Hm Hsrc).
Qed.

Lemma main_step_ok now address m p s p' db' :
  sys_ok s → sys_procs s !! m = Some p → opens_late p (sys_db s) = false →
  main_step now address m p (sys_db s) = Some (p', db') →
  sys_ok (set_proc s m p' db').
Proof.
  intros Hs Hp Hlate Hstep. pose proof (so_tables _ Hs) as Hok.
  pose proof (so_procs _ Hs _ _ Hp) as Hpo. unfold main_step in Hstep.
  destruct (pr_main p) as [| | |st o|o| | |] eqn:Epc.
  - injection Hstep as <- <-. eapply sys_ok_proc; try done; [by apply (tables_ok_ext (sys_db s))|].
    apply proc_ok_main.
  - destruct (bootstrap_initial_manager_policy_state _ _ _) as [db1|] eqn:E;
      injection Hstep as <- <-; [|by eapply sys_ok_proc].
    pose proof (bootstrap_preserves _ _ _ _ (po_typed _ _ _ Hpo) E Hok) as Hok'.
    apply bootstrap_ok in E as [->|(_ & _ & Hina & _ & ->)]; [| |apply Hpo];
      (eapply sys_ok_proc; [done..|]; apply proc_ok_main).
  - destruct (startup_decision _ _ _) as [st o]. injection Hstep as <- <-.
    eapply sys_ok_proc; try done. apply proc_ok_main.
  - injection Hstep as <- <-. eapply sys_ok_proc; try done; [by apply (tables_ok_ext (sys_db s))|].
    apply proc_ok_main.
  - injection Hstep as <- <-. eapply sys_ok_proc; try done. intros Hpo'.
    apply (proc_ok_main _ _ _ MRunning) in Hpo'. unfold opens_late in Hlate. rewrite Epc in Hlate.
    destruct o; cbn [orb]; [|by destruct p]. apply bool_decide_eq_false in Hlate.
    apply eq_None_not_Some in Hlate. destruct Hpo' as [H1 H2 H3]. split; [done|..].
    + intros d Hd id ph h Hrol. destruct (H2 d Hd id ph h Hrol) as (r & Hr & _).
      exists r. split; [done|]. by rewrite Hlate.
    + by rewrite Hlate.
  - done.
  - injection Hstep as <- <-. eapply sys_ok_proc; try done; [by apply (tables_ok_ext (sys_db s))|].
    apply proc_ok_main.
  - injection Hstep as <- <-. by eapply sys_ok_proc.
Qed.

Lemma decide_idle_rollout g d o : dc_rollout (decide_idle g d o) = None.
Proof. unfold decide_idle. cbv zeta. by repeat (case_match; try done). Qed.

(** A new decision. *)
Lemma decided_ok s m p d :
  sys_ok s → sys_procs s !! m = Some p →
  observe_decide (pr_policy p) (generation_of p) (digest_of p)
    (observe_read m (generation_of p) (digest_of p) (sys_db s)) = Ok d →
  proc_ok (sys_db s) m (set_observer p (OGate d)).
Proof.
  intros Hs Hp Hd. destruct (so_procs _ Hs _ _ Hp) as [H1 H2 H3]. split; [done|..].
  - intros d' [Hpd|[Hpd|Hpd]]; cbn in Hpd; try done. injection Hpd as <-.
    intros id ph h Hrol.
    destruct (g_active_rollout_id (guard (sys_db s))) as [act|] eqn:Ea.
    + destruct (ok_active _ (so_tables _ Hs) _ Ea) as (r & _ & Hr & _).
      destruct (decide_source _ _ _ _ _ _ _ _ Ea Hr Hd) as [[h' Hrol'] Hsrc].
      rewrite Hrol in Hrol'. injection Hrol' as -> -> ->. exists r. split; [done|].
      intros _ Hrole Hst. destruct (Hsrc (or_intror Hrole)) as [Hc _].
      destruct (Hc Hst) as [? ?]. split_and!; [by auto|done|by left].
    + exfalso. unfold observe_decide, observe_read in Hd. cbn in Hd. rewrite Ea in Hd. cbn in Hd.
      injection Hd as <-. by rewrite decide_idle_rollout in Hrol.
  - intros id r Ha Hr Hm Hsrc. destruct (H3 id r Ha Hr Hm Hsrc) as [Hg _]. split; [done|].
    intros d' [= <-]. destruct (decide_source _ _ _ _ _ _ _ _ Ha Hr Hd) as [_ Hdec].
    apply (Hdec (or_introl Hsrc)). destruct Hm as (mb & _ & Hm).
    unfold before_closing, sources_closed_phase in *. cbn in *. lia.
Qed.

Lemma pending_ok_observer db p d pc :
  (pr_observer p ≠ OGate d) → pending_ok db p d → pending_ok db (set_observer p pc) d.
Proof.
  intros Hne Hp id ph h Hrol. destruct (Hp id ph h Hrol) as (r & Hr & Himp).
  exists r. split; [done|]. intros Ha Hro Hst. destruct (Himp Ha Hro Hst) as (? & ? & [?|?]); [done|].
  split_and!; [done..|by right].
Qed.

(** The gate takes the value that was decided. *)
Lemma gated_ok db m p d :
  pr_observer p = OGate d → proc_ok db m p →
  proc_ok db m (set_gate (set_observer p (OStore d)) (dc_open d)).
Proof.
  intros Hpc [H1 H2 H3]. split; [done|..].
  - intros d' [Hd|[Hd|Hd]]; cbn in Hd; try done. injection Hd as <-.
    intros id ph h Hrol. destruct (H2 d (or_introl Hpc) id ph h Hrol) as (r & Hr & Himp).
    exists r. split; [done|]. intros Ha Hro Hst. destruct (Himp Ha Hro Hst) as (? & ? & _).
    split_and!; [done..|by right].
  - intros id r Ha Hr Hm Hsrc. destruct (H3 id r Ha Hr Hm Hsrc) as [_ Hg]. split; [|done].
    cbn. by apply Hg.
Qed.

Lemma stored_ok db m p d :
  pr_observer p = OStore d → proc_ok db m p →
  proc_ok db m (set_observer p (match dc_rollout d with Some _ => OAcknowledge d | None => OIdle end)).
Proof.
  intros Hpc [H1 H2 H3]. split; [done|..].
  - intros d' Hd. assert (d' = d) as ->.
    { destruct Hd as [Hd|[Hd|Hd]]; cbn in Hd; destruct (dc_rollout d); try done. by injection Hd. }
    apply pending_ok_observer; [by rewrite Hpc|]. apply H2. right; by left.
  - intros id r Ha Hr Hm Hsrc. destruct (H3 id r Ha Hr Hm Hsrc) as [Hg _]. split; [done|].
    intros d'. cbn. by destruct (dc_rollout d).
Qed.

(** The row a process acknowledges is its own. *)
Lemma acknowledge_lookup now m g dg d db k mb' :
  members (observe_acknowledge now m g dg d db) !! k = Some mb' →
  ∃ mb, members db !! k = Some mb ∧
    (mb' = mb ∨ ∃ id ph h role, dc_rollout d = Some (id, ph, h) ∧ dc_role d = Some role
       ∧ k = (id, role, m) ∧ mb_admission_state mb' = Some (dc_state d)).
Proof.
  unfold observe_acknowledge. destruct (dc_rollout d) as [[[id ph] h]|]; [|eauto].
  destruct (dc_role d) as [role|]; [|eauto]. cbn. rewrite lookup_alter. case_decide; [|eauto].
  subst. intros (mb & Hmb & ->)%fmap_Some. exists mb. split; [done|]. right. eauto 10.
Qed.

Lemma acknowledged_ok now m p d s :
  sys_ok s → sys_procs s !! m = Some p → pr_observer p = OAcknowledge d →
  sys_ok (set_proc s m (Some (set_observer p OIdle))
            (observe_acknowledge now m (generation_of p) (digest_of p) d (sys_db s))).
Proof.
  intros Hs Hp Hpc. set (db' := observe_acknowledge _ _ _ _ _ _).
  destruct (acknowledge_tables now m (generation_of p) (digest_of p) d (sys_db s)) as [Hg Hr].
  fold db' in Hg, Hr. pose proof (so_procs _ Hs _ _ Hp) as [H1 H2 H3].
  assert (∀ id r k mb', g_active_rollout_id (guard (sys_db s)) = Some id →
    rollouts (sys_db s) !! id = Some r → members db' !! (id, "source", k) = Some mb' →
    mb_admission_state mb' = Some "CLOSED_ROLLOUT" →
    (∃ mb, members (sys_db s) !! (id, "source", k) = Some mb
       ∧ mb_admission_state mb = Some "CLOSED_ROLLOUT")
    ∨ (k = m ∧ ¬ before_closing (ro_phase r) ∧ pr_gate p = false)) as Hack.
  { intros id r k mb' Ha Hrow Hmb' Hc.
    destruct (acknowledge_lookup _ _ _ _ _ _ _ _ Hmb')
      as (mb & Hmb & [->|(i & ph & h & role & Hrol & Hro & Hk & Hst)]); [left; eauto|].
    right. injection Hk as <- <- ->. rewrite Hc in Hst. injection Hst as Hst.
    destruct (H2 d (or_intror (or_intror Hpc)) _ _ _ Hrol) as (r' & Hr' & Himp).
    rewrite Hrow in Hr'. injection Hr' as <-. destruct (Himp Ha Hro (eq_sym Hst)) as (? & _ & [?|?]);
      [congruence|done]. }
  split; cbn.
  - apply (tables_ok_ext (sys_db s)); [done..| |apply Hs]. apply acknowledge_keys.
  - intros id r k mb' Ha Hrow Hbc Hmb' Hc. rewrite Hg in Ha. rewrite Hr in Hrow.
    destruct (Hack id r k mb' Ha Hrow Hmb' Hc) as [(mb & Hmb & Hcl)|(_ & Hnb & _)]; [|done].
    by eapply (so_sources _ Hs).
  - intros i x Hx.
    assert (∀ y, sys_procs s !! i = Some y → pr_gate y = pr_gate x →
      (∀ d', pr_observer x = OGate d' → pr_observer y = OGate d') → pr_policy y = pr_policy x →
      ∀ id r, g_active_rollout_id (guard db') = Some id → rollouts db' !! id = Some r →
      must_be_closed db' id r i → acts_as_source x r → stays_closed x) as Hclosed.
    { intros y Hy Hgate Hobs Hpol id r Ha Hrow (mb' & Hmb' & Hm) Hsrc. rewrite Hg in Ha.
      rewrite Hr in Hrow. unfold acts_as_source, generation_of, digest_of in Hsrc.
      rewrite <-Hpol in Hsrc. pose proof (so_procs _ Hs _ _ Hy) as Hyok.
      assert (must_be_closed (sys_db s) id r i → stays_closed x) as Hdone.
      { intros Hm'. destruct (po_closed _ _ _ Hyok id r Ha Hrow Hm' Hsrc) as [Hgy Hoy].
        split; [congruence|]. intros d' Hd'. by apply Hoy, Hobs. }
      destruct (acknowledge_lookup _ _ _ _ _ _ _ _ Hmb') as (mb & Hmb & _).
      destruct Hm as [[Hph Hc]|Hm]; [|apply Hdone; exists mb; auto].
      destruct (Hack id r i mb' Ha Hrow Hmb' Hc) as [(mb0 & Hmb0 & Hc0)|(-> & _ & Hgp)].
      - apply Hdone. exists mb0. auto.
      - rewrite lookup_partial_alter_eq in Hx. injection Hx as <-. by split. }
    destruct (decide (i = m)) as [->|Hne].
    + pose proof Hx as Hx'. rewrite lookup_partial_alter_eq in Hx'. injection Hx' as <-. split; [done| |].
      * by intros d' [?|[?|?]].
      * apply (Hclosed p Hp); [done|done|done].
    + pose proof Hx as Hx'. rewrite lookup_partial_alter_ne in Hx' by done.
      destruct (so_procs _ Hs _ _ Hx') as [G1 G2 G3]. split; [done| |by apply (Hclosed x)].
      intros d' Hd' id ph h. rewrite Hr, Hg. by apply G2.
Qed.

Lemma observer_step_ok now m p s p' db' :
  sys_ok s → sys_procs s !! m = Some p → observer_step now m p (sys_db s) = Some (p', db') →
  sys_ok (set_proc s m (Some p') db').
Proof.
  intros Hs Hp Hstep. unfold observer_step in Hstep. pose proof (so_tables _ Hs) as Hok.
  destruct (pr_observer p) as [|d|d|d|] eqn:Epc.
  - destruct (observe_decide _ _ _ _) as [d|] eqn:Ed; injection Hstep as <- <-;
      (eapply sys_ok_proc; try done; intros Hpo); [by eapply decided_ok|].
    destruct Hpo as [H1 H2 H3]. split; [done|by intros d [?|[?|?]]|].
    intros id r Ha Hr Hm Hsrc. split; [|done]. apply (H3 id r Ha Hr Hm Hsrc).
  - injection Hstep as <- <-. eapply sys_ok_proc; try done. by apply gated_ok.
  - injection Hstep as <- <-. eapply sys_ok_proc; try done; [by apply (tables_ok_ext (sys_db s))|].
    by apply stored_ok.
  - injection Hstep as <- <-. by apply acknowledged_ok.
  - done.
Qed.

(** A process that starts demands nothing of the tables. *)
Lemma started_ok db m policy :
  (0 ≤ vp_generation policy ≤ U64_MAX)%Z → proc_ok db m (mkProc policy MRegister OIdle false).
Proof. intros ?. split; [done|by intros d [?|[?|?]]|done]. Qed.

Lemma sys_ok_db s db' :
  sys_ok s → tables_ok db' →
  (sources_unclosed db' ∧ ∀ m p, proc_ok (sys_db s) m p → proc_ok db' m p) →
  sys_ok (mkSys db' (sys_procs s)).
Proof. intros [_ _ H] Hok [Hun Hpo]. split; [done..|]. cbn. intros m p Hp. by apply Hpo, H. Qed.

Lemma sys_ok_managers s db' :
  sys_ok s → guard db' = guard (sys_db s) → rollouts db' = rollouts (sys_db s) →
  members db' = members (sys_db s) → sys_ok (mkSys db' (sys_procs s)).
Proof.
  intros Hs Hg Hr Hm. apply sys_ok_db; [done|..].
  - apply (tables_ok_ext (sys_db s)); [done..| |apply Hs]. by rewrite Hm.
  - split; [apply (sources_unclosed_tables (sys_db s)); [by rewrite Hg|done..|apply Hs]|].
    intros m p. apply proc_ok_tables; [by rewrite Hg|done..].
Qed.

Lemma sys_step_ok s a s' :
  sys_ok s → action_typed a → sys_step false s a = Some s' → sys_ok s'.
Proof.
  intros Hs Hty Hstep. pose proof (so_tables _ Hs) as Hok. destruct a; cbn [sys_step action_typed] in *.
  - destruct (sys_procs s !! manager_id) eqn:Em; [done|]. injection Hstep as <-.
    split; [apply Hs..|]. cbn. intros i x. destruct (decide (i = manager_id)) as [->|Hne].
    + rewrite lookup_partial_alter_eq. intros [= <-]. by apply started_ok.
    + rewrite lookup_partial_alter_ne by done. apply Hs.
  - destruct (sys_procs s !! manager_id) as [p|] eqn:Em; [|done]. cbn in Hstep.
    destruct (opens_late p (sys_db s)) eqn:El; [done|]. cbn in Hstep.
    destruct (main_step _ _ _ _ _) as [[p' db']|] eqn:E; [|done]. injection Hstep as <-.
    by eapply main_step_ok.
  - destruct (sys_procs s !! manager_id) as [p|] eqn:Em; [|done]. cbn in Hstep.
    destruct (tasks_running _); [|done].
    destruct (observer_step _ _ _ _) as [[p' db']|] eqn:E; [|done]. injection Hstep as <-.
    by eapply observer_step_ok.
  - destruct (sys_procs s !! manager_id) as [p|] eqn:Em; [|done]. cbn in Hstep.
    destruct (tasks_running _); [|done]. injection Hstep as <-. by apply sys_ok_managers.
  - destruct (sys_procs s !! manager_id) as [p|] eqn:Em; [|done]. cbn in Hstep.
    assert (s' = set_proc s manager_id (Some (set_gate (set_main p MDraining) false)) (sys_db s)) as ->
      by (destruct (pr_main p); by simplify_eq).
    eapply sys_ok_proc; try done. intros Hpo. by apply proc_ok_close, proc_ok_main.
  - injection Hstep as <-. split; [apply Hs..|]. cbn. intros i x.
    destruct (decide (i = manager_id)) as [->|Hne]; [by rewrite lookup_partial_alter_eq|].
    rewrite lookup_partial_alter_ne by done. apply Hs.
  - injection Hstep as <-. by apply sys_ok_managers.
  - injection Hstep as <-. apply sys_ok_db; [done|..].
    { exact (run_transaction_ok _ (TBegin now fresh principal request digest privileged_admission_open) Hty Hok). }
    cbn. unfold committed. destruct (begin_manager_rollout _ _ _ _ _ _ _) as [[[r db']|]|] eqn:E;
      try (by split; [apply Hs|]).
    eapply begin_keeps_sources; [done|apply Hs|done].
  - injection Hstep as <-. apply sys_ok_db; [done|..].
    { exact (run_transaction_ok _ (TAdvance now rollout_id principal expected next outcomes threshold_secs) I Hok). }
    cbn [run_transaction]. rewrite advance_manager_rollout_db.
    destruct (advance_transaction _ _ _ _ _ _ _ _) as [db'|] eqn:E; cbn; [|by split; [apply Hs|]].
    eapply advance_keeps_sources; [done|apply Hs|done].
  - injection Hstep as <-. apply sys_ok_db; [done|..].
    { exact (run_transaction_ok _ (TReset principal request request_digest evidence_digest) Hty Hok). }
    cbn. unfold committed. destruct (reset_failed_manager_rollout _ _ _ _ _) as [[r db']|] eqn:E;
      [|by split; [apply Hs|]].
    eapply reset_keeps_sources; [apply Hs|done].
Qed.

Lemma sys_init_ok : sys_ok sys_init.
Proof. split; [apply fresh_db_ok|by intros ????|by intros ??]. Qed.

Lemma sys_run_ok s acts s' :
  sys_ok s → Forall action_typed acts → sys_run false s acts = Some s' → sys_ok s'.
Proof.
  intros Hs Hty. revert s Hs. induction Hty as [|a acts Ha _ IH]; intros s Hs Hrun; cbn in Hrun.
  { by injection Hrun as <-. }
  destruct (sys_step false s a) as [s1|] eqn:E; [|done]. cbn in Hrun.
  eapply IH; [|done]. by eapply sys_step_ok.
Qed.

(** C5. Declared sources are closed before targets open: in every state that the processes,
    their threads and the rollout transactions reach by interleaving, once the active rollout
    has recorded its old managers as closed ([OLD_CLOSED] to [ACTIVATING_TARGET], the only
    phases from which targets open), no declared source manager that does not run the
    target policy has its privileged admission open, or a decision in flight that opens it.
    The schedules are those in which no process finishes its start, and opens on what it read
    then, while a rollout is active. *)
Theorem sources_closed_before_targets_open acts s id r m mb p :
  Forall action_typed acts → sys_run false sys_init acts = Some s →
  g_active_rollout_id (guard (sys_db s)) = Some id → rollouts (sys_db s) !! id = Some r →
  sources_closed_phase (ro_phase r) → members (sys_db s) !! (id, "source", m) = Some mb →
  sys_procs s !! m = Some p →
  (as_i64 (vp_generation (pr_policy p)), vp_digest (pr_policy p)) ≠ target_policy r →
  pr_gate p = false ∧ ∀ d, pr_observer p = OGate d → dc_open d = false.
Proof.
  intros Hty Hrun Ha Hr Hph Hmb Hp Hne.
  pose proof (sys_run_ok _ _ _ sys_init_ok Hty Hrun) as Hs.
  apply (po_closed _ _ _ (so_procs _ Hs _ _ Hp) id r Ha Hr); [by exists mb; auto|].
  unfold acts_as_source, acting_role. rewrite <-bool_decide_and, bool_decide_eq_false_2; [done|].
  intros [E1 E2]. apply Hne. unfold target_policy. by rewrite E1, E2.
Qed.
End run.
