(* ===== verification/RolloutLimits.v ===== *)
(** * Manager rollouts: when admission opens, and what the barriers do not see

    The exact conditions under which an observation opens a manager, and where the protocol
    departs from its intent: barriers that skip rows with null columns, a source that opens
    under a policy that was never accepted, and a rollout onto the accepted policy that cannot
    close its own sources. *)

From S2P Require Import Prelude RustStr Utf8 Lists Orders Externals Models Grpc Identity Http PolicyTypes Snapshot Policy Lifecycle Rollout RolloutFacts RolloutRun.

Section limits.
Context `{SH : Sha256Lib, HL : HttpLib, RC : RolloutCodec, UL : UuidLib, CL : CollationLib}.

(** ** When an observation opens *)

Definition receipt_for (policy : ValidatedPolicy) (r : RolloutRow)
    (request : BeginManagerRolloutRequest) (receipt : RolloutPrevalidation) : Prop :=
  prevalidate_rollout_claims policy (ro_target_deployment_principal_uri r)
    (ro_target_deployment_leaf_fingerprint r) (target_of <$> bq_expected_targets request) = Ok receipt
  ∧ as_i32 (pv_validator_version receipt) = ro_target_policy_validator_version r
  ∧ pv_generation receipt = vp_generation policy ∧ pv_digest receipt = vp_digest policy
  ∧ pv_cluster_id receipt = ro_cluster_id r
  ∧ pv_target_set_hash receipt = ro_expected_target_set_hash r.

Lemma receipt_matches_spec policy r request :
  receipt_matches policy (vp_generation policy) (vp_digest policy) r request = true
  ↔ ∃ receipt, receipt_for policy r request receipt.
Proof.
  unfold receipt_matches, receipt_for.
  destruct (prevalidate_rollout_claims _ _ _ _) as [x|]; [|naive_solver].
  rewrite !andb_true_iff, !Z.eqb_eq, !String.eqb_eq. naive_solver.
Qed.

(** A process without a rollout opens exactly under the accepted policy and without an
    outstanding permit. *)
Lemma decide_idle_opens m g d db :
  dc_open (decide_idle g d (observe_read m g d db)) = true
  ↔ g_recovery_permit_principal_uri (guard db) = None ∧ accepted_policy db = Some (as_i64 g, d).
Proof.
  unfold decide_idle. cbn [od_recovery_permit od_accepted_generation od_accepted_digest observe_read].
  rewrite <-!bool_decide_and. case_bool_decide as Hb; cbn [dc_open].
  - split; [|done]. intros _. destruct Hb as [[? Hg] Hd]. split; [done|].
    unfold accepted_policy. by rewrite Hg, Hd.
  - split; [by case_match|]. intros [Hp [Hg Hd]%accepted_policy_Some]. by destruct Hb.
Qed.

Lemma phase_in_progress db id r :
  tables_ok db → g_active_rollout_id (guard db) = Some id → rollouts db !! id = Some r →
  ∃ p, phase_try_from (ro_phase r) = Some p ∧ in_progress p = true.
Proof.
  intros Hok Ha Hr. destruct (ok_active _ Hok _ Ha) as (r' & _ & Hr' & (p & Hp & Hi & _) & _).
  rewrite Hr in Hr'. injection Hr' as <-. exists p. by rewrite phase_try_from_Some.
Qed.

(** The policy of a process is the target's, in the two ways the code compares them. *)
Lemma runs_target_policy g d r :
  (0 ≤ g ≤ U64_MAX)%Z → (0 < ro_target_generation r < 2 ^ 63)%Z →
  ((g =? as_u64 (ro_target_generation r))%Z && String.eqb d (ro_target_policy_digest r)) = true
  ↔ (as_i64 g, d) = target_policy r.
Proof.
  intros Hg Hr. rewrite andb_true_iff, Z.eqb_eq, String.eqb_eq, as_u64_small by lia.
  unfold target_policy, as_i64, U64_MAX in *. split.
  - intros [-> ->]. f_equal. destruct (_ <? _)%Z eqn:E; bool_to_prop; lia.
  - intros [= Hi ->]. split; [|done]. destruct (_ <? _)%Z eqn:E in Hi; bool_to_prop; lia.
Qed.

Lemma acting_role_spec g d r :
  acting_role g d r = if bool_decide ((as_i64 g, d) = target_policy r) then "target" else "source".
Proof.
  unfold acting_role, target_policy. rewrite <-bool_decide_and.
  case_bool_decide as H1; case_bool_decide as H2; try done; exfalso.
  - apply H2. by destruct H1 as [-> ->].
  - apply H1. by injection H2 as -> ->.
Qed.

(** What an observation decides, as a condition on the tables. *)
Definition opens_as_source (db : Db) (policy : ValidatedPolicy) (m : string) (id : Uuid)
    (r : RolloutRow) : Prop :=
  before_closing (ro_phase r) ∧ is_Some (members db !! (id, "source", m))
  ∧ (as_i64 (vp_generation policy), vp_digest policy) ≠ target_policy r.

Definition opens_as_target (db : Db) (policy : ValidatedPolicy) (m : string) (id : Uuid)
    (r : RolloutRow) : Prop :=
  ro_phase r = phase_i32 ActivatingTarget ∧ is_Some (members db !! (id, "target", m))
  ∧ (as_i64 (vp_generation policy), vp_digest policy) = target_policy r
  ∧ ∃ request receipt, begin_decode (ro_canonical_request r) = Some request
      ∧ receipt_for policy r request receipt.

Lemma member_state_opens p role tm :
  in_progress p = true →
  (member_state (Some p) role tm).2 = true
  ↔ ((p = Prepared ∨ p = Staging) ∧ role = Some "source")
    ∨ (p = ActivatingTarget ∧ role = Some "target" ∧ tm = true).
Proof.
  intros Hp. unfold member_state.
  destruct (bool_decide (role = Some "source")) eqn:Es; bool_to_prop.
  - subst role. destruct p; try done; cbn; naive_solver.
  - rewrite andb_false_r. destruct (bool_decide (role = Some "target")) eqn:Et; bool_to_prop.
    + subst role. destruct p, tm; try done; cbn; naive_solver.
    + rewrite !andb_false_r. cbn. naive_solver.
Qed.

Lemma active_opens db policy m id r request now open obs db' :
  tables_ok db → (0 ≤ vp_generation policy ≤ U64_MAX)%Z →
  g_active_rollout_id (guard db) = Some id → rollouts db !! id = Some r →
  begin_decode (ro_canonical_request r) = Some request →
  observe_manager_rollout now m (vp_generation policy) (vp_digest policy) policy db
    = Ok (open, obs, db') →
  open = true ↔ opens_as_source db policy m id r ∨ opens_as_target db policy m id r.
Proof.
  intros Hok Hg Ha Hr Hreq. destruct (phase_in_progress _ _ _ Hok Ha Hr) as (p & Hp & Hi).
  unfold observe_manager_rollout, observe_decide, observe_read. cbn [od_rollout]. rewrite Ha. cbn [mbind option_bind].
  rewrite Hr. cbn [mbind option_bind]. rewrite Hreq, Hp.
  rewrite (acting_role_spec (vp_generation policy)).
  pose proof (runs_target_policy _ (vp_digest policy) r Hg (ok_target _ Hok _ _ Hr)) as Hrt.
  set (tp := _ && String.eqb _ _) in Hrt |- *.
  set (role := match _ with Some _ => _ | None => _ end).
  set (tm := tp && receipt_matches _ _ _ _ _).
  pose proof (member_state_opens p role tm Hi) as Hms.
  destruct (member_state (Some p) role tm) as [[st w] op]. cbn in Hms |- *. intros [= <- _ _].
  rewrite Hms. unfold opens_as_source, opens_as_target, before_closing.
  rewrite <-!phase_try_from_Some, Hp. subst role.
  case_bool_decide as Ht.
  - rewrite <-Hrt in Ht. assert (tp = true) as Etp by done. subst tm. rewrite Etp. cbn [andb].
    rewrite receipt_matches_spec. destruct (members db !! _) as [mb|]; [|naive_solver].
    split; [|naive_solver]. intros [[_ ?]|(-> & _ & x & Hx)]; [done|]. right. 
    split_and!; [done|by eexists|by apply Hrt|by exists request, x].
  - destruct (members db !! _) as [mb|]; naive_solver.
Qed.

(** A manager opens privileged admission on exactly three grounds: no rollout is active,
    no recovery permit is outstanding and it runs the accepted policy; or it is a declared
    source of the active rollout, runs another policy than the target's, and closing has not
    begun; or it is a declared target, the rollout is in [ACTIVATING_TARGET], it runs exactly
    the target policy, and that policy authorizes the recorded caller, leaf and target set. *)
Theorem observation_opens_exactly ts now m policy open obs db' :
  Forall well_typed ts → (0 ≤ vp_generation policy ≤ U64_MAX)%Z →
  let db := run_transactions fresh_db ts in
  observe_manager_rollout now m (vp_generation policy) (vp_digest policy) policy db
    = Ok (open, obs, db') →
  open = true ↔
    (g_active_rollout_id (guard db) = None ∧ g_recovery_permit_principal_uri (guard db) = None
     ∧ accepted_policy db = Some (as_i64 (vp_generation policy), vp_digest policy))
    ∨ ∃ id r, g_active_rollout_id (guard db) = Some id ∧ rollouts db !! id = Some r
        ∧ (opens_as_source db policy m id r ∨ opens_as_target db policy m id r).
Proof.
  intros Hty Hg db Ho. pose proof (run_transactions_ok _ _ Hty fresh_db_ok) as Hok. fold db in Hok.
  destruct (g_active_rollout_id (guard db)) as [id|] eqn:Ha.
  - destruct (ok_active _ Hok _ Ha) as (r & _ & Hr & _).
    destruct (begin_decode (ro_canonical_request r)) as [request|] eqn:Hreq.
    + rewrite (active_opens _ _ _ _ _ _ _ _ _ _ Hok Hg Ha Hr Hreq Ho). split.
      * intros Hor. right. by exists id, r.
      * intros [[? _]|(i & x & Hi & Hx & Hor)]; [done|]. by simplify_eq.
    + unfold observe_manager_rollout, observe_decide, observe_read in Ho. cbn in Ho.
      rewrite Ha in Ho. cbn in Ho. rewrite Hr in Ho. cbn in Ho. by rewrite Hreq in Ho.
  - pose proof (decide_idle_opens m (vp_generation policy) (vp_digest policy) db) as Hd.
    unfold observe_manager_rollout, observe_decide in Ho. cbn in Ho. rewrite Ha in Ho. cbn in Ho.
    injection Ho as <- _ _. unfold decide_idle in *. cbn in Hd |- *. rewrite Hd. naive_solver.
Qed.

(** ** A source with a policy that was never accepted *)

(** While a rollout is prepared or staged, a declared source opens under any policy but the
    target's: it is neither the accepted one nor has it been accepted before, and the same
    process would stay closed if no rollout were active. *)
Theorem staged_source_opens_under_any_policy ts now m policy id r request :
  Forall well_typed ts → (0 ≤ vp_generation policy ≤ U64_MAX)%Z →
  let db := run_transactions fresh_db ts in
  let own := (as_i64 (vp_generation policy), vp_digest policy) in
  g_active_rollout_id (guard db) = Some id → rollouts db !! id = Some r →
  before_closing (ro_phase r) → is_Some (members db !! (id, "source", m)) →
  begin_decode (ro_canonical_request r) = Some request →
  own ≠ target_policy r → accepted_policy db ≠ Some own →
  (∃ obs db', observe_manager_rollout now m (vp_generation policy) (vp_digest policy) policy db
              = Ok (true, obs, db'))
  ∧ dc_open (decide_idle (vp_generation policy) (vp_digest policy)
               (observe_read m (vp_generation policy) (vp_digest policy) db)) = false.
Proof.
  intros Hty Hg db own Ha Hr Hbc Hm Hreq Hne Hacc.
  pose proof (run_transactions_ok _ _ Hty fresh_db_ok) as Hok. fold db in Hok. split.
  - destruct (observe_manager_rollout now m (vp_generation policy) (vp_digest policy) policy db)
      as [[[open obs] db']|] eqn:Ho.
    + assert (open = true) as ->; [|by eexists _, _].
      apply (active_opens _ _ _ _ _ _ _ _ _ _ Hok Hg Ha Hr Hreq Ho). by left.
    + exfalso. unfold observe_manager_rollout, observe_decide, observe_read in Ho. cbn in Ho.
      rewrite Ha in Ho. cbn in Ho. rewrite Hr in Ho. cbn in Ho. rewrite Hreq in Ho.
      by destruct (member_state _ _ _) as [[? ?] ?].
  - pose proof (decide_idle_opens m (vp_generation policy) (vp_digest policy) db) as Hd.
    apply not_true_iff_false. intros Ht. apply Hacc. by apply Hd.
Qed.

(** ** Barriers and null columns *)

Lemma filter_length_zero {A} (P : A → Prop) `{∀ x, Decision (P x)} l :
  (∀ x, x ∈ l → ¬ P x) → length (filter P l) = 0.
Proof.
  intros Hall. destruct (filter P l) as [|x k] eqn:E; [done|].
  assert (x ∈ filter P l) as [Hp Hin]%list_elem_of_filter by (rewrite E; apply list_elem_of_here).
  by destruct (Hall x Hin).
Qed.

Lemma count_members_none id role clause db :
  (∀ m mb, members db !! (id, role, m) = Some mb → sql_holds (clause mb) = false) →
  count_members id role clause db = 0.
Proof.
  intros Hall. apply filter_length_zero. intros [[[i ro] m] mb] Hin [Hk Hc]. cbn in *.
  injection Hk as -> ->. apply elem_of_map_to_list in Hin. by rewrite (Hall _ _ Hin) in Hc.
Qed.

Lemma count_managers_none clause db :
  (∀ m row, managers db !! m = Some row → clause (m, row) = false) → count_managers clause db = 0.
Proof.
  intros Hall. apply filter_length_zero. intros [m row] Hin Hc. apply elem_of_map_to_list in Hin.
  by rewrite (Hall _ _ Hin) in Hc.
Qed.

(** A target that was inserted and never acknowledged. *)
Definition never_acknowledged (mb : MemberRow) : Prop :=
  mb_process_state mb = None ∧ mb_admission_state mb = None
  ∧ mb_observed_policy_generation mb = None ∧ mb_observed_policy_digest mb = None.

(** C39. The barriers in front of [TARGET_READY_CLOSED] and [COMPLETED] compare nullable columns
    of the target rows with [!=], which is unknown for a null: when the owner reports every
    source stopped and every target ready and no manager sends heartbeats, targets
    that never acknowledged anything, and need not exist, do not hold the rollout back, although each of them is meant to be
    observed ready and closed, and then open, under the target policy. *)
Theorem unacknowledged_targets_pass_barriers now secs id r db :
  (∀ m mb, members db !! (id, "target", m) = Some mb →
     never_acknowledged mb ∧ mb_host_action_outcome mb = Some "READY_CLOSED") →
  (∀ m mb, members db !! (id, "source", m) = Some mb →
     mb_host_action_outcome mb = Some "STOPPED") →
  (∀ m row, managers db !! m = Some row → live now secs row = false) →
  barrier now secs id r TargetReadyClosed db = 0 ∧ barrier now secs id r Completed db = 0.
Proof.
  intros Ht Hs Hl. unfold barrier.
  rewrite !count_managers_none by (intros m row Hm; cbn; by rewrite (Hl _ _ Hm)).
  rewrite !count_members_none; [done|..].
  - intros m mb Hm. destruct (Ht m mb Hm) as [(_ & -> & _) _]. done.
  - intros m mb Hm. by rewrite (Hs m mb Hm).
  - intros m mb Hm. destruct (Ht m mb Hm) as [(-> & -> & -> & ->) ->]. done.
Qed.

(** ** Shutting down *)

(** Shutting down closes privileged admission and then waits for the admitted calls, while
    the rollout observer runs on: under the accepted policy its next observation opens
    admission again, in a manager that is draining. *)
Theorem observer_reopens_draining_manager late s m p now :
  sys_procs s !! m = Some p → pr_main p = MDraining → pr_observer p = OIdle →
  g_active_rollout_id (guard (sys_db s)) = None →
  g_recovery_permit_principal_uri (guard (sys_db s)) = None →
  accepted_policy (sys_db s)
    = Some (as_i64 (vp_generation (pr_policy p)), vp_digest (pr_policy p)) →
  ∃ s' p', sys_run late s [AObserver now m; AObserver now m] = Some s'
    ∧ sys_procs s' !! m = Some p' ∧ pr_main p' = MDraining ∧ pr_gate p' = true.
Proof.
  intros Hp Hmain Hobs Ha Hperm Hacc.
  pose proof (proj2 (decide_idle_opens m (generation_of p) (digest_of p) (sys_db s))
    (conj Hperm Hacc)) as Hopen.
  set (d := decide_idle _ _ _) in Hopen.
  assert (observer_step now m p (sys_db s) = Some (set_observer p (OGate d), sys_db s)) as Hstep.
  { unfold observer_step, observe_decide. rewrite Hobs. unfold d, observe_read. cbn. by rewrite Ha. }
  set (p' := set_gate (set_observer (set_observer p (OGate d)) (OStore d)) (dc_open d)).
  exists (set_proc (set_proc s m (Some (set_observer p (OGate d))) (sys_db s)) m (Some p') (sys_db s)), p'.
  split_and!; [|cbn; by rewrite lookup_partial_alter_eq|exact Hmain|exact Hopen].
  cbn [sys_run sys_step]. rewrite Hp. cbn [mbind option_bind]. rewrite Hmain. cbn [tasks_running].
  rewrite Hstep. cbn [mbind option_bind sys_procs set_proc]. rewrite lookup_partial_alter_eq.
  cbn [mbind option_bind]. cbn. rewrite Hmain. done.
Qed.

(** ** A rollout onto the policy that the sources already run *)

Definition runs_policy (tp : Z * string) (p : Proc) : Prop :=
  (as_i64 (generation_of p), digest_of p) = tp.

(** The source row of [m] is not closed and no one is about to close it. *)
Record stuck (id : Uuid) (tp : Z * string) (m : string) (s : Sys) : Prop := {
  sk_row : ∃ r, rollouts (sys_db s) !! id = Some r ∧ target_policy r = tp
             ∧ ¬ sources_closed_phase (ro_phase r) ∧ ro_phase r ≠ phase_i32 Completed;
  sk_member : ∃ mb, members (sys_db s) !! (id, "source", m) = Some mb
                ∧ mb_admission_state mb ≠ Some "CLOSED_ROLLOUT";
  sk_proc p : sys_procs s !! m = Some p → runs_policy tp p
    ∧ ∀ d ph h, pending p d → dc_rollout d = Some (id, ph, h) → dc_role d ≠ Some "source";
}.

Lemma decide_role policy g dg m db d id ph h :
  observe_decide policy g dg (observe_read m g dg db) = Ok d → dc_rollout d = Some (id, ph, h) →
  ∃ r, rollouts db !! id = Some r ∧ (dc_role d = Some (acting_role g dg r) ∨ dc_role d = None).
Proof.
  intros Hd Hrol. unfold observe_decide, observe_read in Hd. cbn in Hd.
  destruct (g_active_rollout_id (guard db)) as [act|] eqn:Ha; cbn in Hd.
  2: { injection Hd as <-. by rewrite decide_idle_rollout in Hrol. }
  destruct (rollouts db !! act) as [r|] eqn:Hr; cbn in Hd.
  2: { injection Hd as <-. by rewrite decide_idle_rollout in Hrol. }
  destruct (begin_decode _); [|done]. destruct (member_state _ _ _) as [[? ?] ?].
  injection Hd as <-. cbn in *. injection Hrol as -> _ _. exists r. split; [done|].
  destruct (members db !! _); auto.
Qed.

Lemma apply_outcomes_keep now id replay seen outs ms ms' k :
  apply_outcomes now id replay seen outs ms = Ok ms' → is_Some (ms !! k) → is_Some (ms' !! k).
Proof.
  revert seen ms. induction outs as [|o outs IH]; intros seen ms E Hk; cbn in E; [by simplify_eq|].
  inv_ok E. apply (IH _ _ E). clear IH E. destruct (ms !! (id, _, _)) as [row|] eqn:Er; [|done].
  destruct (mb_host_action_outcome row); inv_ok H0; apply ok_inj in H0; subst; [done|].
  rewrite lookup_insert_is_Some'. by right.
Qed.

Lemma stuck_member_outcomes now i replay seen outs ms ms' k :
  apply_outcomes now i replay seen outs ms = Ok ms' →
  (∃ mb, ms !! k = Some mb ∧ mb_admission_state mb ≠ Some "CLOSED_ROLLOUT") →
  ∃ mb, ms' !! k = Some mb ∧ mb_admission_state mb ≠ Some "CLOSED_ROLLOUT".
Proof.
  intros E (mb & Hmb & Hc). destruct (apply_outcomes_keep _ _ _ _ _ _ _ k E) as [mb' Hmb'];
    [by eexists|].
  exists mb'. split; [done|]. intros Hc'.
  destruct (apply_outcomes_admission _ _ _ _ _ _ _ _ _ E Hmb' Hc') as (x & Hx & Hcx).
  by simplify_eq.
Qed.

Lemma stuck_advance now rid principal e n outs secs id tp m s db' :
  stuck id tp m s → advance_transaction now rid principal e n outs secs (sys_db s) = Ok db' →
  stuck id tp m (mkSys db' (sys_procs s)).
Proof.
  intros [(r & Hr & Htp & Hnc & Hnd) Hmb Hpr] E.
  apply advance_transaction_ok in E as (i & p & q & x & _ & _ & _ & Hadv).
  destruct Hadv as [Hl Hx _ Hms _ Hs]. split; cbn.
  - destruct Hs as [(_ & _ & -> & _)|(Hp & Hb & -> & _)]; [by exists r|].
    rewrite lookup_insert. case_decide as Hi; [|by exists r]. subst i. simplify_eq.
    exists (set_phase q r). do 2 (split; [done|]). cbn. rewrite Hp in Hnc, Hnd.
    destruct (stuck_member_outcomes _ _ _ _ _ _ _ _ Hms Hmb) as (mb' & Hmb' & Hc).
    unfold sources_closed_phase in *. destruct p, q; try done; cbn in *; try (split; lia).
    exfalso. apply Hc. by apply (old_closed_barrier now secs id r (set_members (sys_db s) (members db')) m).
  - by eapply stuck_member_outcomes.
  - done.
Qed.

Lemma stuck_begin now fresh principal request digest open id tp m s r' db' :
  stuck id tp m s →
  begin_manager_rollout now fresh principal request digest open (sys_db s) = Some (Ok (r', db')) →
  stuck id tp m (mkSys db' (sys_procs s)).
Proof.
  intros Hst (op & _ & [[-> _]|(_ & a & h & _ & _ & Hc & _)])%begin_ok; [by destruct s|].
  destruct Hst as [(r & Hr & Hrest) (mb & Hmb & Hcl) Hpr]. destruct Hc as [_ Hfr Hro _ Hms _ _].
  split; cbn; [..|done].
  - exists r. rewrite Hro, lookup_insert_ne by congruence. done.
  - exists mb. rewrite (insert_targets_source _ _ _ _ _ _ Hms). split; [|done].
    by apply lookup_union_Some_l.
Qed.

Lemma stuck_reset principal request rd ed id tp m s resp db' :
  stuck id tp m s → reset_failed_manager_rollout principal request rd ed (sys_db s) = Ok (resp, db') →
  stuck id tp m (mkSys db' (sys_procs s)).
Proof.
  intros Hst (i & x & _ & Hx & _ & _ & [[-> _]|[first Hb]])%reset_ok; [by destruct s|].
  destruct Hst as [(r & Hr & Htp & Hnc & Hnd) Hmb Hpr].
  rewrite (rb_tables _ _ _ _ _ _ _ _ _ Hb). split; cbn; [|done..].
  rewrite lookup_insert. case_decide as Hi; [|by exists r]. subst i. simplify_eq.
  eexists. split_and!; [done..| |]; cbn; done.
Qed.

(** A step of one process that leaves rollouts and the source row alone. *)
Lemma stuck_proc id tp m s i p' db' :
  stuck id tp m s → rollouts db' = rollouts (sys_db s) →
  members db' !! (id, "source", m) = members (sys_db s) !! (id, "source", m) →
  (i = m → ∀ q, p' = Some q → runs_policy tp q
    ∧ ∀ d ph h, pending q d → dc_rollout d = Some (id, ph, h) → dc_role d ≠ Some "source") →
  stuck id tp m (set_proc s i p' db').
Proof.
  intros [Hr Hm Hp] Er Em Hq. split; cbn; rewrite ?Er, ?Em; [done..|]. intros q Hlook.
  destruct (decide (i = m)) as [->|Hne].
  - rewrite lookup_partial_alter_eq in Hlook. by apply Hq.
  - rewrite lookup_partial_alter_ne in Hlook by done. by apply Hp.
Qed.

Lemma stuck_main now address id tp m s i p p' db' :
  stuck id tp m s → sys_procs s !! i = Some p →
  main_step now address i p (sys_db s) = Some (p', db') → stuck id tp m (set_proc s i p' db').
Proof.
  intros Hst Hp Hstep.
  assert (rollouts db' = rollouts (sys_db s) ∧ members db' = members (sys_db s)
    ∧ ∀ q, p' = Some q → pr_policy q = pr_policy p ∧ pr_observer q = pr_observer p) as (Er & Em & Hq).
  { unfold main_step in Hstep. destruct (pr_main p) eqn:Epc; try done;
      try (injection Hstep as <- <-; split_and!; [done..|]; intros q Hq; by simplify_eq).
    - unfold bootstrap_initial_manager_policy_state in Hstep.
      destruct (guard (sys_db s)) as [[|] [|] [|] permit];
        try (injection Hstep as <- <-; split_and!; [done..|]; intros q Hq; by simplify_eq).
      destruct (bool_decide _); [destruct (0 <? _)%Z|]; injection Hstep as <- <-;
        (split_and!; [done..|]; intros q Hq; by simplify_eq).
    - destruct (startup_decision _ _ _). injection Hstep as <- <-. split_and!; [done..|].
      intros q Hq. by simplify_eq. }
  apply stuck_proc; [done..|by rewrite Em|]. intros -> q Hpq. destruct (Hq q Hpq) as [E1 E2].
  destruct (sk_proc _ _ _ _ Hst p Hp) as [Hrun Hpend]. unfold runs_policy, generation_of, digest_of in *.
  rewrite E1. split; [done|]. intros d ph h Hd. apply Hpend. unfold pending in *. by rewrite <-E2.
Qed.

Lemma stuck_observer now id tp m s i p p' db' :
  stuck id tp m s → sys_procs s !! i = Some p →
  observer_step now i p (sys_db s) = Some (p', db') → stuck id tp m (set_proc s i (Some p') db').
Proof.
  intros Hst Hp Hstep.
  assert (∀ d, pending p d → i = m → ∀ ph h, dc_rollout d = Some (id, ph, h) →
    dc_role d ≠ Some "source") as Hpend.
  { intros d Hd -> ph h. destruct (sk_proc _ _ _ _ Hst p Hp) as [_ H]. by eapply H. }
  assert (i = m → runs_policy tp p) as Hrun.
  { intros ->. by apply (sk_proc _ _ _ _ Hst p Hp). }
  unfold observer_step in Hstep. destruct (pr_observer p) as [|d|d|d|] eqn:Epc; [..|done].
  - destruct (observe_decide _ _ _ _) as [d|] eqn:Ed; injection Hstep as <- <-;
      (apply stuck_proc; [done..|]; intros Hi q [= <-]; split; [by apply Hrun|]);
      [|by intros d ph h [?|[?|?]]].
    intros d' ph h Hd Hrol. assert (d' = d) as -> by (by destruct Hd as [Hd|[Hd|Hd]]; simplify_eq/=).
    destruct (decide_role _ _ _ _ _ _ _ _ _ Ed Hrol) as (x & Hx & Hro).
    destruct (sk_row _ _ _ _ Hst) as (r & Hr & Htp & _). simplify_eq.
    assert (acting_role (generation_of p) (digest_of p) x = "target") as Et.
    { rewrite acting_role_spec, bool_decide_eq_true_2; [done|]. by apply Hrun. }
    rewrite Et in Hro. destruct Hro as [->| ->]; by intros [=].
  - injection Hstep as <- <-. apply stuck_proc; [done..|]. intros Hi q [= <-].
    split; [by apply Hrun|]. intros d' ph h Hd. apply Hpend; [|done].
    destruct Hd as [Hd|[Hd|Hd]]; simplify_eq/=. by left.
  - injection Hstep as <- <-. apply stuck_proc; [done..|]. intros Hi q [= <-].
    split; [by apply Hrun|]. intros d' ph h Hd. apply Hpend; [|done].
    destruct Hd as [Hd|[Hd|Hd]]; cbn in Hd; destruct (dc_rollout d); simplify_eq. right; by left.
  - injection Hstep as <- <-. apply stuck_proc; [done|apply acknowledge_tables| |].
    + unfold observe_acknowledge. destruct (dc_rollout d) as [[[rid ph] h]|] eqn:Hrol; [|done].
      destruct (dc_role d) as [role|] eqn:Hro; [|done]. apply lookup_alter_ne. intros [= -> -> ->].
      by apply (Hpend d (or_intror (or_intror Epc)) eq_refl _ _ Hrol).
    + intros Hi q [= <-]. split; [by apply Hrun|]. by intros d' ph h [?|[?|?]].
Qed.

(** Every process that runs for [m] runs the policy [tp]. *)
Definition starts_policy (tp : Z * string) (m : string) (a : Action) : Prop :=
  match a with
  | AStart i policy => i = m → (as_i64 (vp_generation policy), vp_digest policy) = tp
  | _ => True
  end.

Lemma stuck_step late id tp m s a s' :
  stuck id tp m s → starts_policy tp m a → sys_step late s a = Some s' → stuck id tp m s'.
Proof.
  intros Hst Hty Hstep. destruct a; cbn [sys_step starts_policy] in *.
  - destruct (sys_procs s !! manager_id); [done|]. injection Hstep as <-.
    apply stuck_proc; [done..|]. intros Hi q [= <-]. split; [by apply Hty|by intros d ph h [?|[?|?]]].
  - destruct (sys_procs s !! manager_id) as [p|] eqn:Em; [|done]. cbn in Hstep.
    destruct (negb late && _); [done|].
    destruct (main_step _ _ _ _ _) as [[p' db']|] eqn:E; [|done]. injection Hstep as <-.
    by eapply stuck_main.
  - destruct (sys_procs s !! manager_id) as [p|] eqn:Em; [|done]. cbn in Hstep.
    destruct (tasks_running _); [|done].
    destruct (observer_step _ _ _ _) as [[p' db']|] eqn:E; [|done]. injection Hstep as <-.
    by eapply stuck_observer.
  - destruct (sys_procs s !! manager_id) as [p|] eqn:Em; [|done]. cbn in Hstep.
    destruct (tasks_running _); [|done]. injection Hstep as <-. by destruct Hst.
  - destruct (sys_procs s !! manager_id) as [p|] eqn:Em; [|done]. cbn in Hstep.
    assert (s' = set_proc s manager_id (Some (set_gate (set_main p MDraining) false)) (sys_db s)) as ->
      by (destruct (pr_main p); by simplify_eq).
    apply stuck_proc; [done..|]. intros -> q [= <-]. apply (sk_proc _ _ _ _ Hst p Em).
  - injection Hstep as <-. by apply stuck_proc.
  - injection Hstep as <-. by destruct Hst.
  - injection Hstep as <-. cbn. unfold committed.
    destruct (begin_manager_rollout _ _ _ _ _ _ _) as [[[r db']|]|] eqn:E; try (by destruct s).
    by eapply stuck_begin.
  - injection Hstep as <-. cbn [run_transaction]. rewrite advance_manager_rollout_db.
    destruct (advance_transaction _ _ _ _ _ _ _ _) as [db'|] eqn:E; cbn; [|by destruct s].
    by eapply stuck_advance.
  - injection Hstep as <-. cbn. unfold committed.
    destruct (reset_failed_manager_rollout _ _ _ _ _) as [[r db']|] eqn:E; [|by destruct s].
    by eapply stuck_reset.
Qed.

Lemma stuck_run late id tp m s acts s' :
  stuck id tp m s → Forall (starts_policy tp m) acts → sys_run late s acts = Some s' →
  stuck id tp m s'.
Proof.
  intros Hst Hty. revert s Hst. induction Hty as [|a acts Ha _ IH]; intros s Hst Hrun; cbn in Hrun.
  { by injection Hrun as <-. }
  destruct (sys_step late s a) as [s1|] eqn:E; [|done]. cbn in Hrun.
  eapply IH; [|done]. by eapply stuck_step.
Qed.

(** Begin accepts a rollout onto the policy that is already accepted, but such a rollout
    cannot succeed while a source is open: a manager acts in the role of the policy it runs,
    so a source that runs the target policy never acknowledges its source row. Whatever the
    processes of that manager, which all run the policy, and the owner do, the rollout never
    reaches [OLD_CLOSED] or any phase after it but [FAILED_CLOSED]. *)
Theorem same_policy_rollout_never_closes late s acts s' id r m p :
  rollouts (sys_db s) !! id = Some r → ro_phase r = phase_i32 Prepared →
  (∃ mb, members (sys_db s) !! (id, "source", m) = Some mb ∧ mb_admission_state mb = Some "OPEN") →
  sys_procs s !! m = Some p → runs_policy (target_policy r) p → pr_observer p = OIdle →
  Forall (starts_policy (target_policy r) m) acts → sys_run late s acts = Some s' →
  ∃ r', rollouts (sys_db s') !! id = Some r' ∧ ¬ sources_closed_phase (ro_phase r')
    ∧ ro_phase r' ≠ phase_i32 Completed.
Proof.
  intros Hr Hph (mb & Hmb & Hopen) Hp Hrun Hidle Hacts Hs.
  assert (stuck id (target_policy r) m s) as Hst.
  { split.
    - exists r. rewrite Hph. unfold sources_closed_phase. cbn. split_and!; [done..|lia|lia].
    - exists mb. by rewrite Hopen.
    - intros q Hq. simplify_eq. split; [done|]. intros d ph h [Hd|[Hd|Hd]]; congruence. }
  destruct (sk_row _ _ _ _ (stuck_run _ _ _ _ _ _ _ Hst Hacts Hs)) as (r' & Hr' & _ & Hc & Hd).
  by exists r'.
Qed.
End limits.
