(* ===== verification/RolloutDemo.v ===== *)
(** * Manager rollouts: example runs

    Instances of the codec and of the identifiers, a rollout of one manager from the policy of
    generation 6 to generation 7, and runs that reach the states the theorems speak about. *)

From S2P Require Import Prelude RustStr Utf8 Lists Orders Externals Models Grpc Identity Http PolicyTypes Snapshot Policy PolicyFacts PolicyDemo Lifecycle Rollout RolloutFacts RolloutRun RolloutLimits.

(** ** Instances *)

Definition source_code (s : ManagerRolloutSource) : string := texts_encode (source_texts s).

Definition source_parse (t : string) : option ManagerRolloutSource :=
  l ← texts_decode t; match l with [a; b; c; d] => Some (mkSource a b c d) | _ => None end.

Definition target_code (t : ManagerRolloutTarget) : string := texts_encode (target_texts t).

Definition target_parse (t : string) : option ManagerRolloutTarget :=
  l ← texts_decode t;
  match l with
  | [a; b; c; d; e; f; g; h; i] => Some (mkRolloutTarget a b c d e f g h i)
  | _ => None
  end.

Definition toy_begin_encode (r : BeginManagerRolloutRequest) : string :=
  texts_encode
    [bq_client_operation_id r; bq_cluster_id r; coded (bq_target_generation r);
     bq_target_policy_digest r; texts_encode (target_code <$> bq_expected_targets r);
     coded (bq_target_policy_validator_version r); bq_target_deployment_principal_uri r;
     bq_target_deployment_leaf_fingerprint r; texts_encode (source_code <$> bq_source_managers r);
     bq_manifest_digest r; bq_deployment_certificate r].

Definition toy_begin_decode (t : string) : option BeginManagerRolloutRequest :=
  l ← texts_decode t;
  match l with
  | [a; b; c; d; e; f; g; h; i; j; k] =>
      c ← decoded c; e ← texts_decode e ≫= mapM target_parse; f ← decoded f;
      i ← texts_decode i ≫= mapM source_parse;
      Some (mkBegin a b c d e f g h i j k)
  | _ => None
  end.

Lemma sources_parse_code l : mapM source_parse (source_code <$> l) = Some l.
Proof.
  rewrite mapM_fmap_Some; [done|]. intros [a b c d]. unfold source_parse, source_code.
  by rewrite texts_decode_encode.
Qed.

Lemma targets_parse_code l : mapM target_parse (target_code <$> l) = Some l.
Proof.
  rewrite mapM_fmap_Some; [done|]. intros []. unfold target_parse, target_code.
  by rewrite texts_decode_encode.
Qed.

Lemma toy_begin_roundtrip r :
  begin_wire_ok r = true → toy_begin_decode (toy_begin_encode r) = Some r.
Proof.
  intros _. unfold toy_begin_decode, toy_begin_encode. rewrite texts_decode_encode.
  cbn [mbind option_bind]. rewrite !decoded_coded. cbn [mbind option_bind].
  rewrite !texts_decode_encode. cbn [mbind option_bind].
  rewrite sources_parse_code, targets_parse_code. by destruct r.
Qed.

Definition evidence_code (e : FailedEvidence) : string :=
  texts_encode [fe_member_role e; fe_manager_id e; fe_process_state e;
                coded (fe_policy_generation e); fe_policy_digest e].

Definition toy_rollout_codec : RolloutCodec :=
  {| begin_encode := toy_begin_encode;
     begin_decode := toy_begin_decode;
     reset_encode r := texts_encode [rs_rollout_id r; rs_original_request_digest r;
                                     texts_encode (evidence_code <$> rs_evidence r)];
     begin_decode_encode := toy_begin_roundtrip |}.

(** Identifiers are the codes of numbers of 128 bits; any text with hyphens reads as one
    fixed identifier. *)
Definition toy_uuid_parse (s : string) : option Uuid :=
  if str_contains "-" s then Some 7%Z
  else u ← decoded s; if decide (0 ≤ u < 2 ^ 128)%Z then Some u else None.

Lemma bits_of_no_hyphen p : str_contains "-" (bits_of p) = false.
Proof. unfold str_contains. induction p as [p IH|p IH|]; [by cbn in *..|done]. Qed.

Lemma toy_uuid_roundtrip u : (0 ≤ u < 2 ^ 128)%Z → toy_uuid_parse (coded u) = Some u.
Proof.
  intros Hu. unfold toy_uuid_parse. rewrite decoded_coded.
  unfold coded. rewrite bits_of_no_hyphen.
  cbn [mbind option_bind]. by rewrite decide_True.
Qed.

Lemma toy_uuid_range s u : toy_uuid_parse s = Some u → (0 ≤ u < 2 ^ 128)%Z.
Proof.
  unfold toy_uuid_parse. destruct (str_contains _ _); [by intros [= <-]|].
  destruct (decoded s); [|done]. cbn. case_decide; [|done]. by intros [= <-].
Qed.

Definition toy_uuid : UuidLib :=
  {| uuid_parse_str := toy_uuid_parse; uuid_to_string := coded;
     uuid_parse_to_string := toy_uuid_roundtrip; uuid_parse_range := toy_uuid_range |}.

Section demo.
#[local] Existing Instances toy_sha256 toy_http toy_rollout_codec toy_uuid toy_collation.

(** ** The rollout *)

Definition demo_digest : string := vp_digest demo_policy.

Definition demo_request (generation : Z) : BeginManagerRolloutRequest :=
  mkBegin (coded 11%Z) "c" generation (vp_digest demo_policy)
    [mkRolloutTarget "m" "https://m:9000" demo_leaf demo_leaf demo_leaf demo_leaf demo_leaf demo_leaf
       demo_leaf] 1 demo_human demo_leaf
    [mkSource "m" "https://m:9000" demo_leaf demo_leaf] demo_leaf "deployer".

Definition demo_id : Uuid := 5.
Definition rid : string := coded demo_id.

(** The main thread of the manager up to its store, and then its opening. *)
Definition demo_start (policy : ValidatedPolicy) : list Action :=
  [AStart "m" policy; AMain 0 "https://m:9000" "m"; AMain 0 "https://m:9000" "m";
   AMain 0 "https://m:9000" "m"; AMain 0 "https://m:9000" "m"].

Definition demo_main : Action := AMain 0 "https://m:9000" "m".
Definition demo_observe : list Action := replicate 4 (AObserver 1 "m").
Definition demo_begin (generation : Z) : Action :=
  ABegin 1 demo_id demo_human (demo_request generation) demo_leaf true.
Definition demo_advance (p q : ManagerRolloutPhase) (outcomes : list MemberOutcome) : Action :=
  AAdvance 2 rid demo_human (phase_i32 p) (phase_i32 q) outcomes 30.

Definition demo_closing : list Action :=
  [demo_begin 7; demo_advance Prepared Staging []; demo_advance Staging ClosingOld []].

Definition demo_reported : list MemberOutcome :=
  [mkOutcome "m" "source" "STOPPED" ""; mkOutcome "m" "target" "READY_CLOSED" ""].

(** The manager closes, is replaced in place, reports closed, and is activated. *)
Definition demo_rollout : list Action :=
  demo_start demo_earlier ++ [demo_main] ++ demo_closing ++ demo_observe
  ++ [demo_advance ClosingOld OldClosed []].

Definition demo_activation : list Action :=
  [ACrash "m"; demo_advance OldClosed StartingTarget []]
  ++ demo_start demo_policy ++ [demo_main] ++ demo_observe
  ++ [demo_advance StartingTarget TargetReadyClosed demo_reported;
      demo_advance TargetReadyClosed ActivatingTarget []]
  ++ demo_observe ++ [demo_advance ActivatingTarget Completed []].

Definition run_demo (late : bool) (acts : list Action) : Sys :=
  default sys_init (sys_run late sys_init acts).

Definition proc_of (s : Sys) : Proc :=
  default (mkProc demo_none MRegister OIdle false) (sys_procs s !! "m").
Definition row_of (s : Sys) : RolloutRow :=
  default (new_row "" 0 (demo_request 0) "" "") (rollouts (sys_db s) !! demo_id).
Definition phase_of (s : Sys) : option Z := ro_phase <$> rollouts (sys_db s) !! demo_id.
Definition gate_of (s : Sys) : option bool := pr_gate <$> sys_procs s !! "m".

(** The rollout runs to completion: the target serves and its policy is accepted. *)
Example demo_completes :
  let s := run_demo false (demo_rollout ++ demo_activation) in
  phase_of s = Some (phase_i32 Completed) ∧ gate_of s = Some true
  ∧ accepted_policy (sys_db s) = Some (7%Z, vp_digest demo_policy).
Proof. vm_compute. done. Qed.

(** Without any process of the target: the owner reports, the barriers see nothing, and the
    cluster ends with an accepted policy that no manager runs. *)
Example completes_without_target_process :
  let s := run_demo false
    (demo_rollout ++ [ACrash "m"; demo_advance OldClosed StartingTarget [];
       demo_advance StartingTarget TargetReadyClosed demo_reported;
       demo_advance TargetReadyClosed ActivatingTarget [];
       demo_advance ActivatingTarget Completed []]) in
  phase_of s = Some (phase_i32 Completed) ∧ map_to_list (sys_procs s) = []
  ∧ accepted_policy (sys_db s) = Some (7%Z, vp_digest demo_policy).
Proof. vm_compute. done. Qed.

(** ** Starting late *)

(** The manager read the guard before the rollout began; its observer acknowledges the
    closure, the old managers count as closed, and then the main thread opens. *)
Definition demo_late : list Action :=
  demo_start demo_earlier ++ demo_closing ++ demo_observe
  ++ [demo_advance ClosingOld OldClosed []; demo_main].

(** C40. A manager computes at its start whether it may open, spawns the observer, and only
    then opens, without reading the guard again. If a rollout begins and reaches
    [CLOSING_OLD] in between, the observer closes admission and acknowledges it, the rollout
    records the old managers as closed, and the start then opens the source again. *)
Theorem late_start_opens_closed_source :
  ∃ s r mb p, Forall action_typed demo_late ∧ sys_run true sys_init demo_late = Some s
    ∧ g_active_rollout_id (guard (sys_db s)) = Some demo_id
    ∧ rollouts (sys_db s) !! demo_id = Some r ∧ ro_phase r = phase_i32 OldClosed
    ∧ members (sys_db s) !! (demo_id, "source", "m") = Some mb
    ∧ mb_admission_state mb = Some "CLOSED_ROLLOUT"
    ∧ sys_procs s !! "m" = Some p ∧ vp_generation (pr_policy p) ≠ ro_target_generation r
    ∧ pr_gate p = true.
Proof.
  exists (run_demo true demo_late), (row_of (run_demo true demo_late)),
    (mkMember (Some 6%Z) (Some demo_digest) (Some "READY") (Some "CLOSED_ROLLOUT") (Some 1%Z) None None),
    (proc_of (run_demo true demo_late)).
  split; [repeat constructor; vm_compute; done|].
  split; [apply default_found; vm_compute; reflexivity|]. split; [vm_compute; reflexivity|].
  split; [apply default_found; vm_compute; reflexivity|]. split; [vm_compute; reflexivity|].
  split; [vm_compute; reflexivity|]. split; [reflexivity|].
  split; [apply default_found; vm_compute; reflexivity|].
  split; [by vm_compute|vm_compute; reflexivity].
Qed.

(** ** The theorems at the examples *)

Ltac evaluate := vm_compute; reflexivity.

Lemma sources_closed_before_targets_open_witness :
  sys_run false sys_init demo_rollout = Some (run_demo false demo_rollout)
  ∧ pr_gate (proc_of (run_demo false demo_rollout)) = false.
Proof.
  assert (sys_run false sys_init demo_rollout = Some (run_demo false demo_rollout)) as Hrun
    by (apply default_found; evaluate).
  split; [exact Hrun|].
  refine (proj1 (sources_closed_before_targets_open demo_rollout (run_demo false demo_rollout) demo_id
    (row_of (run_demo false demo_rollout)) "m" (mkMember (Some 6%Z) (Some demo_digest) (Some "READY")
      (Some "CLOSED_ROLLOUT") (Some 1%Z) None None)
    (proc_of (run_demo false demo_rollout)) _ Hrun _ _ _ _ _ _)).
  - repeat constructor; vm_compute; done.
  - evaluate.
  - apply default_found. evaluate.
  - left. evaluate.
  - evaluate.
  - apply default_found. evaluate.
  - vm_compute. discriminate.
Defined.

(** The manager is the source of a rollout that it leaves again, as transactions. *)
Definition demo_opened : list Transaction :=
  [TRegister 0 "m" "https://m:9000"; TBootstrap 6 demo_digest; TInitialize "m" 6 demo_digest "OPEN"].

Definition demo_staged : list Transaction :=
  demo_opened ++ [TBegin 1 demo_id demo_human (demo_request 7) demo_leaf true;
                  TAdvance 2 rid demo_human 1 2 [] 30].

Definition demo_role (role : string) (state : string) : Transaction :=
  TAcknowledge 3 "m" (if String.eqb role "source" then 6 else 7) demo_digest
    (mkDecision state AdmClosedRollout false (Some (demo_id, 0%Z, "")) (Some role) "READY").

Definition demo_before_completion : list Transaction :=
  [TAdvance 2 rid demo_human 2 3 [] 30; demo_role "source" "CLOSED_ROLLOUT";
   TObserve 3 "m" 6 demo_digest
     (mkDecision "CLOSED_ROLLOUT" AdmClosedRollout false (Some (demo_id, 3%Z, "")) (Some "source")
        "READY");
   TAdvance 4 rid demo_human 3 4 [] 30; TAdvance 5 rid demo_human 4 5 [] 30;
   demo_role "target" "CLOSED_ROLLOUT"; TAdvance 6 rid demo_human 5 6 demo_reported 30;
   TAdvance 7 rid demo_human 6 7 [] 30; demo_role "target" "OPEN"].

Definition demo_completion : Transaction := TAdvance 8 rid demo_human 7 8 [] 30.

Lemma demo_typed :
  Forall well_typed (demo_staged ++ demo_before_completion ++ [demo_completion]).
Proof. repeat constructor; vm_compute; discriminate. Qed.

Lemma rollout_tables_hold_witness :
  tables_ok (run_transactions fresh_db
    (demo_staged ++ demo_before_completion ++ [demo_completion])).
Proof. exact (rollout_tables_hold _ demo_typed). Defined.

(** The last transaction moves the accepted policy from generation 6 to generation 7. *)
Lemma accepted_policy_moves_forward_witness :
  accepted_policy (run_transactions fresh_db demo_staged) = Some (6%Z, demo_digest)
  ∧ ∃ c, accepted_policy (run_transactions fresh_db
             (demo_staged ++ demo_before_completion ++ [demo_completion])) = Some c
      ∧ c = (7%Z, demo_digest)
      ∧ completes (run_transactions fresh_db (demo_staged ++ demo_before_completion))
          demo_completion c.
Proof.
  assert (accepted_policy (run_transactions fresh_db demo_staged) = Some (6%Z, demo_digest)) as Ha
    by evaluate.
  split; [exact Ha|].
  destruct (accepted_policy_moves_forward demo_staged demo_before_completion demo_completion
    (6%Z, demo_digest) demo_typed Ha) as (b & Hb & _ & Hc).
  assert (accepted_policy (run_transactions fresh_db (demo_staged ++ demo_before_completion))
    = Some (6%Z, demo_digest)) as Hb' by evaluate.
  assert (accepted_policy (run_transactions fresh_db
    (demo_staged ++ demo_before_completion ++ [demo_completion])) = Some (7%Z, demo_digest)) as Hc'
    by evaluate.
  rewrite Hb' in Hb. injection Hb as <-. destruct Hc as [Hc|(c & Hc & _ & Hcomp)].
  - rewrite Hc' in Hc. discriminate Hc.
  - exists c. split; [exact Hc|]. split; [|exact Hcomp]. rewrite Hc' in Hc. by injection Hc.
Defined.

Definition demo_receipt : ManagerRollout * Db :=
  match begin_manager_rollout 1 demo_id demo_human (demo_request 7) demo_leaf true
          (run_transactions fresh_db demo_opened) with
  | Some (Ok x) => x
  | _ => (mkRollout "" "" "" "" "" 0 "" [] 0 0 "" "" "" "" [] "" "", fresh_db)
  end.

Definition demo_after : list Transaction :=
  TAdvance 2 rid demo_human 1 2 [] 30 :: demo_before_completion ++ [demo_completion].

(** Replayed after its completion, with admission closed by then. *)
Lemma begin_replay_stable_witness :
  ∃ r db', begin_manager_rollout 1 demo_id demo_human (demo_request 7) demo_leaf true
             (run_transactions fresh_db demo_opened) = Some (Ok (r, db'))
    ∧ begin_manager_rollout 9 6 demo_human (demo_request 7) demo_leaf false
        (run_transactions db' demo_after) = Some (Ok (r, run_transactions db' demo_after)).
Proof.
  exists demo_receipt.1, demo_receipt.2.
  assert (begin_manager_rollout 1 demo_id demo_human (demo_request 7) demo_leaf true
    (run_transactions fresh_db demo_opened) = Some (Ok (demo_receipt.1, demo_receipt.2))) as Hb
    by evaluate.
  split; [exact Hb|].
  refine (proj2 (begin_replay_stable demo_opened demo_after 1 demo_id demo_human (demo_request 7)
    demo_leaf true demo_receipt.1 demo_receipt.2 9 6 false _ _ _ Hb)).
  - repeat constructor; vm_compute; discriminate.
  - vm_compute. split; discriminate.
  - evaluate.
Defined.

Definition observed_or (o : result Status (bool * ManagerRolloutObservation * Db)) :
    bool * ManagerRolloutObservation * Db :=
  match o with Ok x => x | Err _ => (false, observation_default, fresh_db) end.

(** The source keeps serving while the rollout is staged. *)
Lemma observation_opens_exactly_witness :
  opens_as_source (run_transactions fresh_db demo_staged) demo_earlier "m" demo_id
    (default (new_row "" 0 (demo_request 0) "" "")
       (rollouts (run_transactions fresh_db demo_staged) !! demo_id)).
Proof.
  set (db := run_transactions fresh_db demo_staged).
  set (x := observed_or (observe_manager_rollout 3 "m" (vp_generation demo_earlier)
    (vp_digest demo_earlier) demo_earlier db)).
  assert (observe_manager_rollout 3 "m" (vp_generation demo_earlier) (vp_digest demo_earlier)
    demo_earlier db = Ok (true, x.1.2, x.2)) as Ho by evaluate.
  destruct (proj1 (observation_opens_exactly demo_staged 3 "m" demo_earlier true x.1.2 x.2
    ltac:(repeat constructor; vm_compute; discriminate) ltac:(vm_compute; split; discriminate) Ho)
    eq_refl) as [[H _]|(id & r & Ha & Hr & [Hs|[H _]])].
  - vm_compute in H. discriminate H.
  - assert (g_active_rollout_id (guard db) = Some demo_id) as Ha' by evaluate.
    fold db in Ha, Hr. rewrite Ha' in Ha. injection Ha as <-. rewrite Hr. exact Hs.
  - fold db in Ha, Hr. assert (g_active_rollout_id (guard db) = Some demo_id) as Ha' by evaluate.
    rewrite Ha' in Ha. injection Ha as <-.
    assert (ro_phase <$> rollouts db !! demo_id = Some 2%Z) as Hp by evaluate.
    rewrite Hr in Hp. cbn in Hp. injection Hp as Hp. rewrite Hp in H. discriminate H.
Defined.

(** A manager restarted with the policy of generation 3, older than the accepted one. *)
Definition demo_stale : ValidatedPolicy :=
  mkPolicyV 1 3 (vp_cluster_id demo_policy) (vp_digest demo_policy) (vp_principals demo_policy)
    (vp_assignments demo_policy) (vp_manager_enrollments demo_policy)
    (vp_proxy_enrollments demo_policy) (vp_node_agent_enrollments demo_policy)
    (vp_revoked_leaf_fingerprints demo_policy) (vp_manager_set_hash demo_policy)
    (vp_cap_headroom demo_policy).

Lemma staged_source_opens_under_any_policy_witness :
  ∃ obs db', observe_manager_rollout 3 "m" 3 demo_digest demo_stale
               (run_transactions fresh_db demo_staged) = Ok (true, obs, db').
Proof.
  refine (proj1 (staged_source_opens_under_any_policy demo_staged 3 "m" demo_stale demo_id _
    (demo_request 7) _ _ _ _ _ _ _ _ _)).
  - repeat constructor; vm_compute; discriminate.
  - vm_compute. split; discriminate.
  - evaluate.
  - evaluate.
  - right. evaluate.
  - vm_compute. eexists. reflexivity.
  - evaluate.
  - vm_compute. discriminate.
  - vm_compute. discriminate.
Defined.

(** A target that reported nothing itself, and a source whose manager is gone. *)
Definition demo_reported_db : Db :=
  mkDb (mkGuard (Some 6%Z) (Some demo_digest) (Some demo_id) None)
    {[demo_id := new_row demo_human 11 (demo_request 7) demo_leaf ""]}
    {[(demo_id, "target", "m") := mkMember None None None None (Some 6%Z) (Some "READY_CLOSED") None;
      (demo_id, "source", "m") := mkMember (Some 6%Z) (Some demo_digest) (Some "READY")
                                    (Some "STOPPED") (Some 6%Z) (Some "STOPPED") None]} ∅ [].

Lemma unacknowledged_targets_pass_barriers_witness :
  barrier 7 30 demo_id (new_row demo_human 11 (demo_request 7) demo_leaf "") TargetReadyClosed
    demo_reported_db = 0.
Proof.
  refine (proj1 (unacknowledged_targets_pass_barriers 7 30 demo_id _ demo_reported_db _ _ _)).
  - intros m mb Hm. cbn in Hm. apply lookup_insert_Some in Hm as [[_ <-]|[_ Hm]]; [done|].
    apply lookup_singleton_Some in Hm as [Hk _]. discriminate Hk.
  - intros m mb Hm. cbn in Hm. apply lookup_insert_Some in Hm as [[Hk _]|[_ Hm]]; [discriminate Hk|].
    by apply lookup_singleton_Some in Hm as [_ <-].
  - intros m row Hm. cbn in Hm. by apply lookup_empty_Some in Hm.
Defined.

Definition demo_draining : list Action := demo_start demo_earlier ++ [demo_main; AShutdown "m"].

Lemma observer_reopens_draining_manager_witness :
  ∃ s' p', sys_run false (run_demo false demo_draining) [AObserver 5 "m"; AObserver 5 "m"] = Some s'
    ∧ sys_procs s' !! "m" = Some p' ∧ pr_main p' = MDraining ∧ pr_gate p' = true.
Proof.
  refine (observer_reopens_draining_manager false (run_demo false demo_draining) "m"
    (proc_of (run_demo false demo_draining)) 5 _ _ _ _ _ _); [apply default_found|..]; evaluate.
Defined.

(** A rollout onto generation 6, which the manager runs and which is accepted. *)
Definition demo_same : list Action := demo_start demo_earlier ++ [demo_main; demo_begin 6].

Definition demo_same_closing : list Action :=
  [demo_advance Prepared Staging []; demo_advance Staging ClosingOld []] ++ demo_observe
  ++ [demo_advance ClosingOld OldClosed []].

Lemma same_policy_rollout_never_closes_witness :
  ∃ r', rollouts (sys_db (run_demo false (demo_same ++ demo_same_closing))) !! demo_id = Some r'
    ∧ ¬ sources_closed_phase (ro_phase r') ∧ ro_phase r' ≠ phase_i32 Completed.
Proof.
  assert (sys_run false sys_init (demo_same ++ demo_same_closing)
    = sys_run false (run_demo false demo_same) demo_same_closing) as Hsplit.
  { apply sys_run_app, default_found. evaluate. }
  refine (same_policy_rollout_never_closes false (run_demo false demo_same) demo_same_closing _ demo_id
    (row_of (run_demo false demo_same)) "m" (proc_of (run_demo false demo_same)) _ _ _ _ _ _ _ _).
  - apply default_found. evaluate.
  - evaluate.
  - eexists. split; [apply (default_found (mkMember None None None None None None None)); evaluate|].
    evaluate.
  - apply default_found. evaluate.
  - evaluate.
  - evaluate.
  - repeat constructor.
  - rewrite <-Hsplit. apply default_found. evaluate.
Defined.
End demo.
