(* ===== verification/RolloutApiFacts.v ===== *)
(** * Manager rollouts: what the RPCs accept

    Who may begin a rollout and against which source set, and which evidence resets a failed
    one. Both compare a list that the manager sorts by bytes with one that PostgreSQL sorts by
    its collation. *)

From S2P Require Import Prelude RustStr Utf8 Lists Orders Externals Models Grpc Identity Http PolicyTypes Snapshot Policy PolicyFacts PolicyDemo Tls AuthTable Auth Lifecycle Rollout RolloutApi RolloutFacts RolloutRun RolloutLimits RolloutDemo.

Section api.
Context `{SH : Sha256Lib, HL : HttpLib, RC : RolloutCodec, UL : UuidLib, CL : CollationLib}.

(** The database compares texts by their bytes (the collation "C"). *)
Definition bytewise : Prop := ∀ a b, text_cmp a b = str_cmp a b.

(** ** Reset *)

Definition evidence_key (e : FailedEvidence) : string * string := (fe_member_role e, fe_manager_id e).

Lemma member_keys_spec id db role m :
  (role, m) ∈ ((λ kv : MemberKey * MemberRow, (kv.1.1.2, kv.1.2))
     <$> filter (λ kv, kv.1.1.1 = id) (map_to_list (members db)))
  ↔ is_Some (members db !! (id, role, m)).
Proof.
  rewrite list_elem_of_fmap. split.
  - intros ([[[i ro] mm] mb] & Heq & Hin). cbn in Heq. injection Heq as -> ->.
    apply list_elem_of_filter in Hin as [Hi Hin]. cbn in Hi. subst.
    apply elem_of_map_to_list in Hin. by eexists.
  - intros [mb Hmb]. exists (id, role, m, mb). split; [done|]. apply list_elem_of_filter.
    split; [done|]. by apply elem_of_map_to_list.
Qed.

Lemma member_keys_NoDup id db :
  NoDup ((λ kv : MemberKey * MemberRow, (kv.1.1.2, kv.1.2))
     <$> filter (λ kv, kv.1.1.1 = id) (map_to_list (members db))).
Proof.
  pose proof (NoDup_fst_map_to_list (members db)) as Hnd.
  apply (NoDup_fmap_filter fst (λ kv, kv.1.1.1 = id)) in Hnd.
  set (l := filter _ _) in *.
  assert (∀ kv, kv ∈ l → kv.1.1.1 = id) as Hid by (intros kv Hin; by apply list_elem_of_filter in Hin as [? _]).
  clearbody l. induction l as [|[[[i ro] m] mb] l IH]; [constructor|].
  cbn in Hnd |- *. apply NoDup_cons in Hnd as [Hn Hnd]. constructor.
  - intros Hin. apply list_elem_of_fmap in Hin as ([[[i' ro'] m'] mb'] & Heq & Hin).
    cbn in Heq. injection Heq as -> ->. apply Hn.
    assert (i = id) as -> by (apply (Hid (i, ro', m', mb)); by left).
    assert (i' = id) as -> by (apply (Hid (i', ro', m', mb')); by right).
    by apply (list_elem_of_fmap_2 fst _ (id, ro', m', mb')).
  - apply IH; [done|]. intros kv Hkv. apply Hid. by right.
Qed.

(** The stored members, sorted by bytes, are the sorted keys of evidence that covers them. *)
Lemma stored_members_keys id db (keys : list (string * string)) :
  bytewise → NoDup keys →
  (sort_by (pair_cmp str_cmp str_cmp) keys = stored_members id db
   ↔ ∀ role m, (role, m) ∈ keys ↔ is_Some (members db !! (id, role, m))).
Proof.
  intros Hb Hnd. unfold stored_members.
  rewrite (sort_by_ext (pair_cmp text_cmp text_cmp) (pair_cmp str_cmp str_cmp)).
  2: { intros [a b] [c d]. unfold pair_cmp. cbn. by rewrite !Hb. }
  set (stored := _ <$> _). split.
  - intros E role m. rewrite <-member_keys_spec. fold stored.
    rewrite <-(sort_by_perm (pair_cmp str_cmp str_cmp) keys), E. by rewrite sort_by_perm.
  - intros Hiff. apply sort_by_Permutation; [done|].
    apply NoDup_Permutation; [done|apply member_keys_NoDup|].
    intros [role m]. by rewrite Hiff, <-member_keys_spec.
Qed.

(** Evidence that each listed process is stopped under one policy. *)
Definition evidence_stopped (g : Z) (d : string) (e : FailedEvidence) : Prop :=
  (fe_member_role e = "source" ∨ fe_member_role e = "target")
  ∧ fe_process_state e = "STOPPED" ∧ fe_policy_generation e = g ∧ fe_policy_digest e = d
  ∧ valid_name (fe_manager_id e).

Lemma parse_name_ok t v x : parse_name t v = Ok x ↔ valid_name v.
Proof.
  unfold parse_name. destruct (name_parse t v) as [n|] eqn:E.
  - apply name_parse_ok in E as [_ Hv]. destruct x. split; [by intros _|done].
  - split; [done|]. intros Hv. by rewrite (name_parse_valid t v Hv) in E.
Qed.

Lemma check_evidence_ok seen l :
  check_evidence seen l = Ok () ↔
  NoDup (evidence_key <$> l) ∧ (∀ e, e ∈ l → evidence_key e ∉ seen)
  ∧ Forall (λ e, (fe_member_role e = "source" ∨ fe_member_role e = "target")
                 ∧ fe_process_state e = "STOPPED" ∧ fe_policy_generation e ≠ 0%Z
                 ∧ valid_bundle_digest (fe_policy_digest e) = true ∧ valid_name (fe_manager_id e)) l.
Proof.
  revert seen. induction l as [|e l IH]; intros seen; cbn [check_evidence fmap list_fmap].
  { split; [|done]. intros _. split_and!; [constructor| |constructor]. by intros e ?%not_elem_of_nil. }
  split.
  - intros H. inv_ok H. unfold evidence_valid in *. bool_to_prop. rewrite !String.eqb_eq in *.
    apply parse_name_ok in H0. apply IH in H as (Hnd & Hs & Hf). split_and!.
    + constructor; [|done]. intros (y & Hy & Hin)%list_elem_of_fmap. apply (Hs y Hin). rewrite <-Hy. by left.
    + intros y [->|Hin]%elem_of_cons; [done|]. specialize (Hs y Hin). set_solver.
    + constructor; [|done]. by split_and!.
  - intros (Hnd & Hs & Hf). apply NoDup_cons in Hnd as [Hn Hnd]. apply Forall_cons in Hf as [He Hf].
    destruct He as (Hr & Hst & Hg & Hd & Hv).
    rewrite (proj2 (parse_name_ok TManagerId (fe_manager_id e) ()) Hv). cbn [rbind].
    assert (evidence_valid seen e = true) as ->.
    { unfold evidence_valid. rewrite !andb_true_iff, orb_true_iff, !String.eqb_eq, !negb_true_iff, Z.eqb_neq.
      rewrite bool_decide_eq_false. split_and!; try done. apply (Hs e). by left. }
    apply IH. split_and!; [done| |done]. intros x Hin [Hx|Hx]%elem_of_cons.
    + apply Hn. change (evidence_key x = evidence_key e) in Hx. rewrite <-Hx. by apply list_elem_of_fmap_2.
    + apply (Hs x); [by right|done].
Qed.

Lemma elem_of_sorted_evidence e l : e ∈ sort_by evidence_cmp l ↔ e ∈ l.
Proof. by rewrite (sort_by_perm evidence_cmp l). Qed.

(** What the handler passes on: the evidence, sorted, of stopped processes with one policy. *)
Lemma canonical_reset_request_ok r :
  (∃ r' rd ed, canonical_reset_request r = Some (Ok (r', rd, ed))
     ∧ r' = mkReset (rs_rollout_id r) (rs_original_request_digest r)
              (sort_by evidence_cmp (rs_evidence r)))
  ↔ is_Some (uuid_parse_str (rs_rollout_id r))
    ∧ valid_bundle_digest (rs_original_request_digest r) = true ∧ rs_evidence r ≠ []
    ∧ NoDup (evidence_key <$> rs_evidence r)
    ∧ ∃ g d, g ≠ 0%Z ∧ valid_bundle_digest d = true ∧ Forall (evidence_stopped g d) (rs_evidence r).
Proof.
  unfold canonical_reset_request. set (sorted := sort_by evidence_cmp (rs_evidence r)). split.
  - intros (r' & rd & ed & Hc & ->).
    destruct (bool_decide (is_Some _)) eqn:Eu; [|done]. cbn [obind] in Hc.
    destruct (_ && _) eqn:Eb in Hc; [|done].
    destruct (check_evidence [] (rs_evidence r)) as [[]|] eqn:Ec; [|done].
    apply check_evidence_ok in Ec as (Hnd & _ & Hf). bool_to_prop. cbn [obind] in Hc.
    destruct (head sorted) as [first|] eqn:Eh; [|done]. cbn [mbind option_bind] in Hc.
    destruct (existsb _ sorted) eqn:Ex; [done|]. split_and!; [done..|].
    assert (first ∈ rs_evidence r) as Hfirst.
    { apply elem_of_sorted_evidence. fold sorted. destruct sorted; [done|]. injection Eh as ->. by left. }
    pose proof (proj1 (Forall_forall _ _) Hf _ Hfirst) as (_ & _ & Hg & Hd & _).
    exists (fe_policy_generation first), (fe_policy_digest first). do 2 (split; [done|]).
    apply Forall_forall. intros e He. pose proof (proj1 (Forall_forall _ _) Hf _ He) as (? & ? & _ & _ & ?).
    apply elem_of_sorted_evidence in He. fold sorted in He. apply not_true_iff_false in Ex.
    destruct (decide (fe_policy_generation e = fe_policy_generation first
      ∧ fe_policy_digest e = fe_policy_digest first)) as [[? ?]|Hne]; [by split_and!|].
    destruct Ex. apply existsb_exists. exists e. split; [by apply list_elem_of_In|].
    apply orb_true_iff. rewrite !negb_true_iff, Z.eqb_neq. apply not_and_l in Hne as [?|?]; [by left|right].
    by apply String.eqb_neq.
  - intros (Hu & Hd & Hne & Hnd & g & d & Hg & Hdg & Hf).
    rewrite bool_decide_eq_true_2, Hd, bool_decide_eq_false_2 by done. cbn [negb andb].
    assert (check_evidence [] (rs_evidence r) = Ok ()) as ->.
    { apply check_evidence_ok. split_and!; [done|by intros e _ ?%not_elem_of_nil|].
      eapply Forall_impl; [exact Hf|]. intros e (? & ? & -> & -> & ?). by split_and!. }
    cbn [obind]. assert (∃ first, head sorted = Some first ∧ first ∈ rs_evidence r) as (first & Hh & Hin).
    { destruct sorted as [|first rest] eqn:Es.
      - exfalso. apply Hne. apply Permutation_nil_r. rewrite <-(sort_by_perm evidence_cmp). fold sorted.
        by rewrite Es.
      - exists first. split; [done|]. apply elem_of_sorted_evidence. fold sorted. rewrite Es. by left. }
    rewrite Hh. cbn [mbind option_bind].
    pose proof (proj1 (Forall_forall _ _) Hf _ Hin) as (_ & _ & Eg & Ed & _).
    assert (existsb (λ e, negb (fe_policy_generation e =? fe_policy_generation first)%Z
      || negb (String.eqb (fe_policy_digest e) (fe_policy_digest first))) sorted = false) as ->; [|eauto 10].
    apply not_true_iff_false. intros (e & He & Hx)%existsb_exists.
    apply list_elem_of_In, (proj1 (elem_of_sorted_evidence e (rs_evidence r))) in He.
    pose proof (proj1 (Forall_forall _ _) Hf _ He) as (_ & _ & E1 & E2 & _).
    by rewrite E1, E2, Eg, Ed, Z.eqb_refl, String.eqb_refl in Hx.
Qed.

(** A reset of a rollout that was not reset before, on a canonical request. *)
Lemma reset_fresh_iff principal r rd ed db id row :
  uuid_parse_str (rs_rollout_id r) = Some id → rollouts db !! id = Some row →
  ro_reset_request_digest row = None →
  is_ok (reset_failed_manager_rollout principal r rd ed db) = true
  ↔ ro_deployment_principal_uri row = principal
    ∧ ro_canonical_request_digest row = rs_original_request_digest r
    ∧ ro_phase row = phase_i32 FailedClosed ∧ g_active_rollout_id (guard db) = Some id
    ∧ evidence_key <$> rs_evidence r = stored_members id db
    ∧ ∃ first rest, rs_evidence r = first :: rest ∧ fe_process_state first = "STOPPED"
        ∧ fe_policy_generation first ≠ 0%Z
        ∧ forallb (stopped_uniformly first) (rs_evidence r) = true
        ∧ (0 < as_i64 (fe_policy_generation first))%Z.
Proof.
  intros Hid Hrow Hn. unfold reset_failed_manager_rollout. rewrite Hid. cbn [rbind]. rewrite Hrow.
  cbn [rbind]. destruct (String.eqb_spec (ro_deployment_principal_uri row) principal); [|naive_solver].
  destruct (String.eqb_spec (ro_canonical_request_digest row) (rs_original_request_digest r));
    [|naive_solver].
  rewrite Hn. destruct (Z.eqb_spec (ro_phase row) (phase_i32 FailedClosed)); [|naive_solver].
  case_bool_decide; [|naive_solver]. fold evidence_key. case_bool_decide; [|naive_solver].
  destruct (rs_evidence r) as [|first rest] eqn:Ev; [naive_solver|]. cbn [rbind].
  destruct (String.eqb_spec (fe_process_state first) "STOPPED"); [|naive_solver].
  destruct (Z.eqb_spec (fe_policy_generation first) 0); [naive_solver|]. cbn [andb negb].
  destruct (forallb _ _) eqn:Ef; [|naive_solver].
  destruct (0 <? _)%Z eqn:Eg; bool_to_prop; [|split; [done|naive_solver lia]].
  split; [|done]. intros _. split_and!; [done..|]. exists first, rest. by split_and!.
Qed.

(** A failed rollout that was not reset holds the guard. *)
Lemma failed_holds_guard db id row :
  tables_ok db → rollouts db !! id = Some row → ro_phase row = phase_i32 FailedClosed →
  ro_reset_request_digest row = None → g_active_rollout_id (guard db) = Some id.
Proof.
  intros Hok Hr Hp Hn. destruct (decide (g_active_rollout_id (guard db) = Some id)) as [?|Ha]; [done|].
  destruct (ok_idle _ Hok _ _ Hr Ha) as [[E _]|[[E _]|[_ ([x Hx] & _)]]].
  - rewrite Hp in E. discriminate E.
  - rewrite Hp in E. discriminate E.
  - rewrite Hn in Hx. discriminate Hx.
Qed.

Lemma stopped_uniformly_spec g d first l :
  fe_policy_generation first = g → fe_policy_digest first = d →
  forallb (stopped_uniformly first) l = true ↔
  Forall (λ e, fe_process_state e = "STOPPED" ∧ fe_policy_generation e = g ∧ fe_policy_digest e = d) l.
Proof.
  intros <- <-. rewrite forallb_forall, Forall_forall. unfold stopped_uniformly.
  setoid_rewrite andb_true_iff. setoid_rewrite andb_true_iff. setoid_rewrite String.eqb_eq.
  setoid_rewrite Z.eqb_eq. setoid_rewrite list_elem_of_In. naive_solver.
Qed.

(** With texts compared by bytes, a failed rollout is reset exactly by its owner, for the
    digest of its original request, in [FAILED_CLOSED], with evidence that lists every declared
    source and target once and nothing else, each stopped, all under one policy with a
    generation that a row can store. *)
Theorem reset_accepts_exactly_complete_evidence ts principal r id row :
  bytewise → Forall well_typed ts →
  let db := run_transactions fresh_db ts in
  uuid_parse_str (rs_rollout_id r) = Some id → rollouts db !! id = Some row →
  ro_reset_request_digest row = None →
  (∃ r' rd ed, canonical_reset_request r = Some (Ok (r', rd, ed))
     ∧ is_ok (reset_failed_manager_rollout principal r' rd ed db) = true)
  ↔ ro_deployment_principal_uri row = principal
    ∧ ro_canonical_request_digest row = rs_original_request_digest r
    ∧ valid_bundle_digest (rs_original_request_digest r) = true
    ∧ ro_phase row = phase_i32 FailedClosed ∧ rs_evidence r ≠ []
    ∧ NoDup (evidence_key <$> rs_evidence r)
    ∧ (∀ role m, (role, m) ∈ evidence_key <$> rs_evidence r ↔ is_Some (members db !! (id, role, m)))
    ∧ ∃ g d, (0 < as_i64 g)%Z ∧ g ≠ 0%Z ∧ valid_bundle_digest d = true
        ∧ Forall (evidence_stopped g d) (rs_evidence r).
Proof.
  intros Hb Hty db Hid Hrow Hn. pose proof (run_transactions_ok _ _ Hty fresh_db_ok) as Hok.
  fold db in Hok. set (canonical := mkReset (rs_rollout_id r) (rs_original_request_digest r)
                              (sort_by evidence_cmp (rs_evidence r))).
  assert (evidence_key <$> rs_evidence canonical
          = sort_by (pair_cmp str_cmp str_cmp) (evidence_key <$> rs_evidence r)) as Hkeys
    by apply (fmap_sort_by evidence_key).
  assert (∀ r' rd ed, canonical_reset_request r = Some (Ok (r', rd, ed)) → r' = canonical) as Hcanon.
  { intros r' rd ed Hc. unfold canonical_reset_request in Hc.
    destruct (obind_ok _ _ _ Hc) as ([] & _ & Hc'). destruct (head _) as [first|]; [|done].
    cbn in Hc'. destruct (existsb _ _); [done|]. by injection Hc' as <- _ _. }
  pose proof (canonical_reset_request_ok r) as Hreq. fold canonical in Hreq. split.
  - intros (r' & rd & ed & Hc & Hres). pose proof (Hcanon _ _ _ Hc) as ->.
    destruct (proj1 Hreq) as (_ & Hv & Hne & Hnd & g & d & Hg & Hd & Hf); [by exists canonical, rd, ed|].
    apply (reset_fresh_iff _ canonical rd ed db id row) in Hres
      as (Ho & Hdig & Hp & Ha & Hk & first & rest & Hev & _ & _ & _ & Hpos); [|done..].
    rewrite Hkeys in Hk. split_and!; try done.
    + by apply stored_members_keys.
    + exists g, d. split_and!; try done.
      assert (first ∈ rs_evidence r) as Hin.
      { apply elem_of_sorted_evidence. change (first ∈ rs_evidence canonical). rewrite Hev. by left. }
      pose proof (proj1 (Forall_forall _ _) Hf _ Hin) as (_ & _ & <- & _). done.
  - intros (Ho & Hdig & Hv & Hp & Hne & Hnd & Hcov & g & d & Hpos & Hg & Hd & Hf).
    destruct (proj2 Hreq) as (r' & rd & ed & Hc & ->).
    { split_and!; [by eexists|done..|]. by exists g, d. }
    exists canonical, rd, ed. split; [done|]. apply (reset_fresh_iff _ canonical rd ed db id row); [done..|].
    split_and!; [done..|by eapply failed_holds_guard| |].
    + rewrite Hkeys. by apply stored_members_keys.
    + destruct (rs_evidence canonical) as [|first rest] eqn:Ev.
      { exfalso. apply Hne, Permutation_nil_r. rewrite <-(sort_by_perm evidence_cmp (rs_evidence r)).
        change (rs_evidence canonical ≡ₚ []). by rewrite Ev. }
      assert (Forall (evidence_stopped g d) (first :: rest)) as Hf'.
      { rewrite <-Ev. cbn. by rewrite (sort_by_perm evidence_cmp). }
      pose proof (Forall_inv Hf') as (_ & Hst & Eg & Ed & _). exists first, rest. rewrite Eg.
      split_and!; try done. apply (stopped_uniformly_spec g d); [done..|].
      eapply Forall_impl; [exact Hf'|]. intros e (_ & ? & ? & ? & _). done.
Qed.

(** ** Begin *)

Lemma live_sources_spec now db m e :
  (m, e) ∈ live_sources now db ↔
  ∃ row, managers db !! m = Some row ∧ mg_admission_state row = "OPEN" ∧ live now 30 row = true
    ∧ mg_grpc_address row = e.
Proof.
  unfold live_sources. rewrite (sort_by_perm (λ a b, text_cmp a.1 b.1)), list_elem_of_fmap. split.
  - intros ([i row] & Heq & Hin). cbn in Heq. injection Heq as -> ->.
    apply list_elem_of_filter in Hin as [[Ho Hl] Hin]. apply elem_of_map_to_list in Hin. eauto.
  - intros (row & Hrow & Ho & Hl & <-). exists (m, row). split; [done|]. apply list_elem_of_filter.
    split; [done|]. by apply elem_of_map_to_list.
Qed.

(** The grounds on which the handler lets a caller begin. *)
Definition may_begin (policy : ValidatedPolicy) (open : bool) (principal : AuthorizedPrincipal)
    (r : BeginManagerRolloutRequest) (db : Db) : Prop :=
  if open
  then authorizes_rollout policy (ap_name principal) (tgt_manager_id <$> bq_expected_targets r) = true
  else ∃ receipt,
    prevalidate_rollout_claims policy (ap_name principal) (ap_fingerprint principal)
      (target_of <$> bq_expected_targets r) = Ok receipt
    ∧ pv_cluster_id receipt = bq_cluster_id r
    ∧ pv_validator_version receipt = bq_target_policy_validator_version r
    ∧ (g_recovery_permit_principal_uri (guard db) = Some (ap_name principal)
       ∨ (pv_generation receipt = bq_target_generation r
          ∧ pv_digest receipt = bq_target_policy_digest r)).

Lemma authorize_begin_ok text policy open principal r db :
  authorize_begin text policy open principal r db = Ok () ↔ may_begin policy open principal r db.
Proof.
  unfold authorize_begin, may_begin. destruct open.
  { destruct (authorizes_rollout _ _ _); naive_solver. }
  destruct (prevalidate_rollout_claims _ _ _ _) as [x|e]; cbn [rbind]; [|naive_solver].
  unfold validate_closed_startup_rollout_policy, manager_rollout_recovery_permitted.
  destruct (String.eqb_spec (pv_cluster_id x) (bq_cluster_id r)); [|naive_solver].
  destruct (Z.eqb_spec (pv_validator_version x) (bq_target_policy_validator_version r)); [|naive_solver].
  cbn [negb orb]. case_bool_decide; cbn [negb andb]; [naive_solver|].
  destruct (Z.eqb_spec (pv_generation x) (bq_target_generation r)); [|naive_solver].
  destruct (String.eqb_spec (pv_digest x) (bq_target_policy_digest r)); naive_solver.
Qed.

Definition deployment_kind (k : PrincipalKind) : Prop := k = Human ∨ k = ServiceAccount.

Lemma canonical_rollout_request_ok r r' digest :
  canonical_rollout_request r = Ok (r', digest) →
  bq_source_managers r' = sort_sources (bq_source_managers r)
  ∧ bq_expected_targets r' = sort_targets (bq_expected_targets r)
  ∧ bq_target_generation r' = bq_target_generation r
  ∧ bq_target_policy_digest r' = bq_target_policy_digest r
  ∧ digest = "sha256:" +:+ sha256_hex (begin_encode r').
Proof.
  unfold canonical_rollout_request. intros Hc. inv_ok Hc. apply ok_inj in Hc. by injection Hc as <- <-.
Qed.

(** A begin that changes the tables is the creation of a rollout, by an authenticated human
    or service account whose own leaf the request names: one grant of the running policy
    covers every target while admission is open, and otherwise the policy of the closed
    manager admits the caller for exactly its enrolled managers and either is the target
    policy or the caller holds the recovery permit. No rollout was active, an outstanding
    permit was the caller's and is consumed, the declared sources are exactly the live open
    managers at their addresses, and the target is no older than the accepted policy. *)
Theorem begin_creates_only_authorized text ts now fresh policy open open' request r receipt db' :
  Forall well_typed ts → (0 ≤ bq_target_generation r ≤ U64_MAX)%Z →
  let db := run_transactions fresh_db ts in
  begin_manager_rollout_inner text now fresh policy open open' request r db
    = Some (Ok (receipt, db')) →
  db' = db ∨
  ∃ principal a row, rq_principal request = Some principal ∧ deployment_kind (ap_kind principal)
    ∧ bq_target_deployment_principal_uri r = ap_name principal
    ∧ bq_target_deployment_leaf_fingerprint r = ap_fingerprint principal
    ∧ may_begin policy open principal r db
    ∧ g_active_rollout_id (guard db) = None
    ∧ (g_recovery_permit_principal_uri (guard db) = Some (ap_name principal)
       ∨ g_recovery_permit_principal_uri (guard db) = None ∧ open' = true)
    ∧ (∀ m e, (m, e) ∈ ((λ s, (src_manager_id s, src_endpoint s)) <$> bq_source_managers r)
         ↔ ∃ x, managers db !! m = Some x ∧ mg_admission_state x = "OPEN"
             ∧ live now 30 x = true ∧ mg_grpc_address x = e)
    ∧ accepted_policy db = Some a ∧ not_before (target_policy row) a
    ∧ rollouts db' = <[fresh := row]> (rollouts db) ∧ ro_phase row = phase_i32 Prepared
    ∧ target_policy row = (bq_target_generation r, bq_target_policy_digest r)
    ∧ guard db' = mkGuard (Some a.1) (Some a.2) (Some fresh) None.
Proof.
  intros Hty Hg db Hb. pose proof (run_transactions_ok _ _ Hty fresh_db_ok) as Hok. fold db in Hok.
  unfold begin_manager_rollout_inner in Hb.
  destruct (obind_ok _ _ _ Hb) as ([[principal r'] digest] & Hchk & Hbegin). injection Hchk as Hchk.
  inv_ok Hchk. apply ok_inj in Hchk. injection Hchk as -> -> ->. cbv beta iota in Hbegin.
  match goal with H : canonical_rollout_request r = _ |- _ =>
    apply canonical_rollout_request_ok in H as (Hsrc & Htgt & Hgen & Hdig & _) end.
  match goal with H : authorize_begin _ _ _ _ _ _ = Ok ?u |- _ =>
    destruct u; apply authorize_begin_ok in H as Hmay end.
  destruct (rq_principal request) as [pr|] eqn:Ep; [|done]. simplify_eq. bool_to_prop.
  rewrite !String.eqb_eq in *.
  apply begin_ok in Hbegin as (op & _ & [[-> _]|(Hf & a & h & Had & _ & Hc & _)]); [by left|].
  right. assert (tables_ok db') as Hok' by (eapply created_ok; [|done..]; by rewrite Hgen).
  destruct Hc as [Hpos Hfr Hro Hgd _ _ _]. destruct Had as [Hacc Hina Hperm Hlive _ _].
  destruct (as_i64_positive (bq_target_generation r') ltac:(by rewrite Hgen) Hpos) as [Hi _].
  pose proof (accepted_policy_Some _ _ Hacc) as [Ha1 Ha2].
  eexists principal, a, _. split_and!; try done.
  - unfold deployment_kind. destruct (ap_kind principal); auto; discriminate.
  - destruct (g_recovery_permit_principal_uri (guard db)); [left; by subst|by right].
  - intros m e. rewrite <-live_sources_spec, <-Hlive, Hsrc. unfold sort_sources.
    by rewrite (sort_by_perm _ (bq_source_managers r)).
  - destruct (ok_active _ Hok' fresh) as (x & b & Hx & _ & Hb' & Hnb); [by rewrite Hgd|].
    rewrite Hro, lookup_insert_eq in Hx. injection Hx as <-.
    assert (accepted_policy db' = accepted_policy db) as E by (apply accepted_policy_guard; by rewrite Hgd).
    rewrite E, Hacc in Hb'. by injection Hb' as <-.
  - unfold target_policy. cbn. by rewrite Hi, Hgen, Hdig.
  - by rewrite Hgd, Ha1, Ha2.
Qed.
End api.

(** ** A dictionary collation *)

(** The usual collations of natural languages compare letters first and punctuation only
    between texts that are otherwise alike. *)
Fixpoint unhyphened (s : string) : string :=
  match s with
  | EmptyString => ""
  | String c s => if char_eqb c "-" then unhyphened s else String c (unhyphened s)
  end.

Definition dictionary_cmp (a b : string) : comparison :=
  then_cmp (str_cmp (unhyphened a) (unhyphened b)) (str_cmp a b).

Lemma dictionary_cmp_eq a b : dictionary_cmp a b = Eq ↔ a = b.
Proof.
  unfold dictionary_cmp. rewrite then_cmp_eq, !str_cmp_eq. split; [by intros [_ ?]|by intros ->].
Qed.

Lemma dictionary_cmp_antisym a b : dictionary_cmp b a = CompOpp (dictionary_cmp a b).
Proof.
  unfold dictionary_cmp. rewrite then_cmp_opp. by rewrite <-!str_cmp_antisym.
Qed.

Lemma dictionary_cmp_trans a b c :
  dictionary_cmp a b = Lt → dictionary_cmp b c = Lt → dictionary_cmp a c = Lt.
Proof.
  unfold dictionary_cmp. rewrite !then_cmp_lt. intros [H1|[H1 H1']] [H2|[H2 H2']].
  - left. by eapply str_cmp_trans.
  - left. apply str_cmp_eq in H2. by rewrite <-H2.
  - left. apply str_cmp_eq in H1. by rewrite H1.
  - right. apply str_cmp_eq in H1, H2. rewrite H1, H2. split; [by apply str_cmp_eq|].
    by eapply str_cmp_trans.
Qed.

Definition dictionary_collation : CollationLib :=
  {| text_cmp := dictionary_cmp; text_cmp_eq := dictionary_cmp_eq;
     text_cmp_antisym := dictionary_cmp_antisym; text_cmp_trans := dictionary_cmp_trans |}.

Section demo.
#[local] Existing Instances toy_sha256 toy_http toy_rollout_codec toy_uuid.

Definition demo_text (e : PolicyError) : string := "".

Definition demo_caller : RpcRequest :=
  mkAuthRequest None (Some (mkPrincipal demo_human Human None demo_leaf)) None.

Definition two_sources : list ManagerRolloutSource :=
  [mkSource "aa" "https://aa:9000" demo_leaf demo_leaf; mkSource "a-b" "https://ab:9000" demo_leaf demo_leaf].

Definition two_request (sources : list ManagerRolloutSource) : BeginManagerRolloutRequest :=
  mkBegin (bq_client_operation_id (demo_request 7)) "c" 7 demo_digest
    (bq_expected_targets (demo_request 7)) 1 demo_human demo_leaf sources demo_leaf "deployer".

Definition two_managers : list Transaction :=
  [TBootstrap 6 demo_digest; TRegister 0 "aa" "https://aa:9000"; TRegister 0 "a-b" "https://ab:9000";
   TInitialize "aa" 6 demo_digest "OPEN"; TInitialize "a-b" 6 demo_digest "OPEN"].

Definition two_begin (C : CollationLib) (sources : list ManagerRolloutSource) :
    option (result Status (ManagerRollout * Db)) :=
  begin_manager_rollout_inner demo_text 1 demo_id demo_policy true true demo_caller
    (two_request sources) (run_transactions fresh_db two_managers).

Definition refused_sources : Status :=
  failed_precondition "manifest source manager set does not match the complete live source set".

(** Begin sorts the declared sources by bytes and compares them with the rows in the order
    of the database's collation. Under a dictionary collation the complete source set of two
    live managers is refused in whichever order the manifest lists it; under the collation
    that compares bytes the same request begins the rollout. *)
Theorem dictionary_collation_refuses_complete_sources :
  two_begin dictionary_collation two_sources = Some (Err refused_sources)
  ∧ two_begin dictionary_collation (reverse two_sources) = Some (Err refused_sources)
  ∧ (∃ x, two_begin toy_collation two_sources = Some (Ok x))
  ∧ ∃ x, two_begin toy_collation (reverse two_sources) = Some (Ok x).
Proof.
  split; [vm_compute; reflexivity|]. split; [vm_compute; reflexivity|].
  split; vm_compute; eexists; reflexivity.
Qed.

#[local] Existing Instance toy_collation.

Lemma toy_bytewise : bytewise.
Proof. by intros a b. Qed.

Definition demo_failed : list Transaction :=
  demo_staged ++ [TAdvance 2 rid demo_human 2 3 [] 30; TAdvance 2 rid demo_human 3 10 [] 30].

Definition demo_evidence (role : string) : FailedEvidence :=
  mkEvidence role "m" "STOPPED" 6 demo_digest.

Definition demo_reset : ResetRequest :=
  mkReset rid demo_leaf [demo_evidence "target"; demo_evidence "source"].

Lemma demo_failed_members :
  (map_to_list (members (run_transactions fresh_db demo_failed))).*1
  ≡ₚ [(demo_id, "target", "m"); (demo_id, "source", "m")].
Proof. apply (bool_decide_unpack _). vm_compute. exact I. Qed.

Lemma demo_evidence_covers role m :
  (role, m) ∈ [("target", "m"); ("source", "m")]
  ↔ is_Some (members (run_transactions fresh_db demo_failed) !! (demo_id, role, m)).
Proof.
  rewrite <-elem_of_dom, <-(list_to_map_to_list (members _)), dom_list_to_map_L, elem_of_list_to_set.
  rewrite demo_failed_members, !elem_of_cons, !elem_of_nil. naive_solver.
Qed.

Lemma demo_evidence_stopped role :
  role = "source" ∨ role = "target" → evidence_stopped 6 demo_digest (demo_evidence role).
Proof.
  intros Hr. split; [exact Hr|]. do 3 (split; [reflexivity|]). cbn [fe_manager_id demo_evidence].
  repeat split; vm_compute; lia.
Qed.

Lemma reset_accepts_exactly_complete_evidence_witness :
  ∃ r' rd ed, canonical_reset_request demo_reset = Some (Ok (r', rd, ed))
    ∧ is_ok (reset_failed_manager_rollout demo_human r' rd ed
               (run_transactions fresh_db demo_failed)) = true.
Proof.
  refine (proj2 (reset_accepts_exactly_complete_evidence demo_failed demo_human demo_reset demo_id
    (default (new_row "" 0 (demo_request 0) "" "")
       (rollouts (run_transactions fresh_db demo_failed) !! demo_id)) toy_bytewise _ _ _ _) _).
  - repeat constructor; vm_compute; discriminate.
  - vm_compute. reflexivity.
  - apply default_found. vm_compute. reflexivity.
  - vm_compute. reflexivity.
  - split; [vm_compute; reflexivity|]. split; [vm_compute; reflexivity|].
    split; [vm_compute; reflexivity|]. split; [vm_compute; reflexivity|]. split; [discriminate|].
    split; [apply (bool_decide_unpack _); vm_compute; exact I|].
    split; [exact demo_evidence_covers|].
    exists 6%Z, demo_digest. split; [reflexivity|]. split; [discriminate|].
    split; [vm_compute; reflexivity|].
    constructor; [apply demo_evidence_stopped; by right|].
    constructor; [apply demo_evidence_stopped; by left|constructor].
Defined.

Definition demo_begun : ManagerRollout * Db :=
  match begin_manager_rollout_inner demo_text 1 demo_id demo_policy true true demo_caller
          (demo_request 7) (run_transactions fresh_db demo_opened) with
  | Some (Ok x) => x
  | _ => demo_receipt
  end.

(** The human of the policy begins a rollout of the one manager, from generation 6. *)
Lemma begin_creates_only_authorized_witness :
  ∃ principal, rq_principal demo_caller = Some principal
    ∧ may_begin demo_policy true principal (demo_request 7) (run_transactions fresh_db demo_opened)
    ∧ g_active_rollout_id (guard demo_begun.2) = Some demo_id.
Proof.
  assert (begin_manager_rollout_inner demo_text 1 demo_id demo_policy true true demo_caller
    (demo_request 7) (run_transactions fresh_db demo_opened) = Some (Ok (demo_begun.1, demo_begun.2)))
    as Hb by (vm_compute; reflexivity).
  assert (g_active_rollout_id (guard demo_begun.2) = Some demo_id) as Ha by (vm_compute; reflexivity).
  assert (g_active_rollout_id (guard (run_transactions fresh_db demo_opened)) = None) as Hn
    by (vm_compute; reflexivity).
  destruct (begin_creates_only_authorized demo_text demo_opened 1 demo_id demo_policy true true
    demo_caller (demo_request 7) demo_begun.1 demo_begun.2
    ltac:(repeat constructor; vm_compute; discriminate) ltac:(vm_compute; split; discriminate) Hb)
    as [E|(principal & a & row & Hp & _ & _ & _ & Hm & _)].
  - rewrite E in Ha. rewrite Hn in Ha. discriminate Ha.
  - exists principal. split; [exact Hp|]. split; [exact Hm|exact Ha].
Defined.
End demo.
