(* ===== verification/Schedule.v ===== *)
(** * Schedules of the manager (wr-manager/src/scheduler.rs, the schedules of db.rs)

    A schedule is a row with the next instant it fires at. Managers claim due rows for a
    lease, submit a job for each through the local proxy, and finalize the row under the
    claim's identifier, which fences off attempts another manager took over. Statements are
    atomic; any statements of other managers run between those of a tick. *)

From S2P Require Import Prelude RustStr Utf8 Lists Orders Externals Models Grpc Identity Naming Http Rollout JobQueue WorkerHttp.

(** ** The table *)

(** [wr_schedules], keyed by [schedule_id]; the columns for people, [created_at] and
    [updated_at], are left out. *)
Record ScheduleRow : Type := mkSchedule {
  sd_worker_namespace : string;
  sd_worker_name : string;
  sd_worker_version : string;
  sd_job_type : string;
  sd_interval_secs : Z;
  sd_immediate : bool;
  sd_payload : string;
  sd_timeout_secs : Z;
  sd_max_attempts : Z;
  sd_enabled : bool;
  sd_last_fired_at : option Z;
  sd_next_fire_at : option Z;
  sd_claimed_by : option string;
  sd_claimed_until : option Z;
  sd_claim_id : option string;
  sd_last_attempt_at : option Z;
  sd_last_error : option string;
  sd_consecutive_failures : Z;
}.

Abbreviation Schedules := (gmap string ScheduleRow).

Record UpsertScheduleRequest : Type := mkUpsert {
  us_worker_namespace : string;
  us_worker_name : string;
  us_worker_version : string;
  us_job_type : string;
  us_interval_secs : Z;
  us_immediate : bool;
  us_payload : string;
  us_timeout_secs : Z;
  us_max_attempts : Z;
}.

(** The natural key, [UNIQUE] in the table. *)
Record ScheduleKey : Type := mkKey {
  sk_worker_namespace : string;
  sk_worker_name : string;
  sk_worker_version : string;
  sk_job_type : string;
}.

#[global] Instance ScheduleKey_eq_dec : EqDecision ScheduleKey.
Proof. solve_decision. Defined.

Definition request_key (q : UpsertScheduleRequest) : ScheduleKey :=
  mkKey (us_worker_namespace q) (us_worker_name q) (us_worker_version q) (us_job_type q).

Definition row_key (r : ScheduleRow) : ScheduleKey :=
  mkKey (sd_worker_namespace r) (sd_worker_name r) (sd_worker_version r) (sd_job_type r).

Definition key_text (k : ScheduleKey) : bool :=
  pg_text (sk_worker_namespace k) && pg_text (sk_worker_name k)
  && pg_text (sk_worker_version k) && pg_text (sk_job_type k).

Definition find_key (k : ScheduleKey) (t : Schedules) : option (string * ScheduleRow) :=
  List.find (λ kv, bool_decide (row_key kv.2 = k)) (map_to_list t).

(** ** Statements (db.rs) *)

(** The CASE of [next_fire_at]; an inserted row has never fired. *)
Definition next_after_upsert (now : Z) (q : UpsertScheduleRequest) (last_fired_at : option Z) : Z :=
  match last_fired_at with
  | None => if us_immediate q then now else (now + from_secs (us_interval_secs q))%Z
  | Some fired => (fired + from_secs (us_interval_secs q))%Z
  end.

Definition inserted_row (now : Z) (q : UpsertScheduleRequest) : ScheduleRow :=
  mkSchedule (us_worker_namespace q) (us_worker_name q) (us_worker_version q) (us_job_type q)
    (us_interval_secs q) (us_immediate q) (us_payload q) (us_timeout_secs q) (us_max_attempts q)
    true None (Some (next_after_upsert now q None)) None None None None None 0.

Definition updated_row (now : Z) (q : UpsertScheduleRequest) (r : ScheduleRow) : ScheduleRow :=
  mkSchedule (sd_worker_namespace r) (sd_worker_name r) (sd_worker_version r) (sd_job_type r)
    (us_interval_secs q) (us_immediate q) (us_payload q) (us_timeout_secs q) (us_max_attempts q)
    true (sd_last_fired_at r) (Some (next_after_upsert now q (sd_last_fired_at r)))
    None None None (sd_last_attempt_at r) (sd_last_error r) (sd_consecutive_failures r).

(** The CHECK constraints an upsert can break. *)
Definition positive_columns (q : UpsertScheduleRequest) : bool :=
  (0 <? us_interval_secs q)%Z && (0 <? us_timeout_secs q)%Z && (0 <? us_max_attempts q)%Z.

(** [new_id] is the identifier the column's default generates. *)
Definition upsert_schedule (now : Z) (new_id : string) (q : UpsertScheduleRequest) (t : Schedules) :
    result Status (string * Schedules) :=
  ensure? (us_interval_secs q <=? I32_MAX)%Z
    else invalid_argument "interval_secs exceeds PostgreSQL INT" in
  ensure? (us_timeout_secs q <=? I32_MAX)%Z
    else invalid_argument "timeout_secs exceeds PostgreSQL INT" in
  ensure? (us_max_attempts q <=? I32_MAX)%Z
    else invalid_argument "max_attempts exceeds PostgreSQL INT" in
  ensure? key_text (request_key q) && positive_columns q else db_error in
  match find_key (request_key q) t with
  | Some (id, r) => Ok (id, <[id := updated_row now q r]> t)
  | None =>
      ensure? is_null (t !! new_id) else db_error in
      Ok (new_id, <[new_id := inserted_row now q]> t)
  end.

Definition delete_schedule (k : ScheduleKey) (t : Schedules) : result Status (bool * Schedules) :=
  ensure? key_text k else db_error in
  Ok (match find_key k t with
      | Some (id, _) => (true, delete id t)
      | None => (false, t)
      end).

(** [ORDER BY] of the two queries, under the database's collation. *)
Definition schedule_module_cmp `{CollationLib} (a b : string * ScheduleRow) : comparison :=
  then_cmp (text_cmp (sd_worker_name a.2) (sd_worker_name b.2))
    (text_cmp (sd_job_type a.2) (sd_job_type b.2)).

Definition namespace_module_cmp `{CollationLib} (a b : string * ScheduleRow) : comparison :=
  then_cmp (text_cmp (sd_worker_namespace a.2) (sd_worker_namespace b.2)) (schedule_module_cmp a b).

Definition list_schedules `{CollationLib} (f : NamespaceFilter) (t : Schedules) :
    list (string * ScheduleRow) :=
  match f with
  | FilterAll => sort_by namespace_module_cmp (map_to_list t)
  | FilterOne _ =>
      sort_by schedule_module_cmp
        (filter (λ kv, sd_worker_namespace kv.2 = namespace_filter_as_db_value f) (map_to_list t))
  end.

(** PostgreSQL's last instant, 294276-12-31, and the sums it refuses. *)
Definition PG_TIMESTAMP_END : Z := from_secs 9224318016000.
Definition pg_instant (t : Z) : bool := (t <? PG_TIMESTAMP_END)%Z.

(** Rows that are due and that no lease covers. *)
Definition schedule_claimable (now : Z) (r : ScheduleRow) : bool :=
  sd_enabled r
  && match sd_next_fire_at r with Some next => (next <=? now)%Z | None => false end
  && match sd_claimed_until r with Some until => (until <? now)%Z | None => true end.

Definition claimed_row (now : Z) (claimer : string) (lease_secs : Z) (claim_id : string)
    (r : ScheduleRow) : ScheduleRow :=
  mkSchedule (sd_worker_namespace r) (sd_worker_name r) (sd_worker_version r) (sd_job_type r)
    (sd_interval_secs r) (sd_immediate r) (sd_payload r) (sd_timeout_secs r) (sd_max_attempts r)
    (sd_enabled r) (sd_last_fired_at r) (sd_next_fire_at r)
    (Some claimer) (Some (now + from_secs lease_secs)%Z) (Some claim_id) (Some now)
    (sd_last_error r) (sd_consecutive_failures r).

(** [locked] are the rows [SKIP LOCKED] passes over, and [claim_ids] what [gen_random_uuid]
    returns for each row. The first table is the rows the statement returns. *)
Definition claim_due_schedules (now : Z) (claimer : string) (lease_secs : Z)
    (locked : gset string) (claim_ids : string → string) (t : Schedules) :
    result Status (Schedules * Schedules) :=
  let claimed := map_imap (λ id r,
    if schedule_claimable now r && negb (bool_decide (id ∈ locked))
    then Some (claimed_row now claimer lease_secs (claim_ids id) r) else None) t in
  ensure? pg_text claimer
          && (bool_decide (claimed = ∅) || pg_instant (now + from_secs lease_secs)) else db_error in
  Ok (claimed, claimed ∪ t).

Definition succeeded_row (now : Z) (r : ScheduleRow) : ScheduleRow :=
  mkSchedule (sd_worker_namespace r) (sd_worker_name r) (sd_worker_version r) (sd_job_type r)
    (sd_interval_secs r) (sd_immediate r) (sd_payload r) (sd_timeout_secs r) (sd_max_attempts r)
    (sd_enabled r) (Some now) (Some (now + from_secs (sd_interval_secs r))%Z)
    None None None (sd_last_attempt_at r) None 0.

Definition failed_row (now : Z) (error : string) (backoff_secs : Z) (r : ScheduleRow) : ScheduleRow :=
  mkSchedule (sd_worker_namespace r) (sd_worker_name r) (sd_worker_version r) (sd_job_type r)
    (sd_interval_secs r) (sd_immediate r) (sd_payload r) (sd_timeout_secs r) (sd_max_attempts r)
    (sd_enabled r) (sd_last_fired_at r) (Some (now + from_secs backoff_secs)%Z)
    None None None (sd_last_attempt_at r) (Some error) (sd_consecutive_failures r + 1).

(** [WHERE schedule_id = $1 AND claim_id::text = $2]. *)
Definition fenced (id claim_id : string) (t : Schedules) : option ScheduleRow :=
  r ← t !! id;
  if bool_decide (sd_claim_id r = Some claim_id) then Some r else None.

Definition mark_schedule_succeeded (now : Z) (id claim_id : string) (t : Schedules) : Z * Schedules :=
  match fenced id claim_id t with
  | Some r => (1%Z, <[id := succeeded_row now r]> t)
  | None => (0%Z, t)
  end.

(** The error is a text parameter and the counter an [INT]. *)
Definition mark_schedule_failed (now : Z) (id claim_id error : string) (backoff_secs : Z)
    (t : Schedules) : result Status (Z * Schedules) :=
  ensure? pg_text error else db_error in
  match fenced id claim_id t with
  | Some r =>
      ensure? (sd_consecutive_failures r <? I32_MAX)%Z
              && pg_instant (now + from_secs backoff_secs) else db_error in
      Ok (1%Z, <[id := failed_row now error backoff_secs r]> t)
  | None => Ok (0%Z, t)
  end.

(** ** The scheduler (scheduler.rs) *)

Record SchedulerConfig : Type := mkScheduler {
  scheduler_lease_secs : Z;
  scheduler_retry_base_secs : Z;
  scheduler_retry_cap_secs : Z;
}.

(** [(retry_base_secs * 2f64.powi(failures)).min(retry_cap_secs)]. Scaling by a power of two is
    exact in floating point, or infinite and thus capped, so the value is this one for bounds
    below 2^53 seconds. *)
Definition backoff_secs (cfg : SchedulerConfig) (failures : Z) : Z :=
  Z.min (scheduler_retry_base_secs cfg * 2 ^ failures) (scheduler_retry_cap_secs cfg).

Definition SCHEDULED_JOB_PATH : string := "/wruntime.WorkerService/SubmitJob".

(** The request to the local proxy: the message in its body, and its headers. *)
Record Submission : Type := mkSubmission {
  sn_body : SubmitJobRequest;
  sn_uri : string;
  sn_headers : list (string * string);
}.

Definition TRY_FROM_INT_ERROR : string := "out of range integral type conversion attempted".

Definition submission (r : ScheduleRow) : result string Submission :=
  match u32_try_from (sd_timeout_secs r), u32_try_from (sd_max_attempts r) with
  | Some timeout_secs, Some max_attempts =>
      Ok (mkSubmission
            (mkSubmit (sd_worker_namespace r) (sd_worker_name r) (sd_worker_version r)
               (sd_job_type r) (sd_payload r) timeout_secs max_attempts)
            SCHEDULED_JOB_PATH
            [("content-type", "application/x-protobuf");
             ("x-wr-destination", "http://" +:+ sd_worker_namespace r +:+ "." +:+ sd_worker_name r
                                    +:+ SCHEDULED_JOB_PATH);
             ("x-wr-version", sd_worker_version r);
             ("x-wr-source", "wr-manager-scheduler")])
  | _, _ => Err TRY_FROM_INT_ERROR
  end.

(** How a submission ends: it cannot be sent or its answer not read ([Unsent]), or the proxy
    replies with a status, which prints as [shown], and a body. [connection] is how the task
    that drives the connection ended. *)
Inductive Reply : Type :=
| Unsent (error : string)
| Replied (status : Z) (shown body : string).

Inductive Exchange : Type :=
| NoConnection (error : string)
| Exchanged (reply : Reply) (connection : result string ())
| SubmitTimedOut.

Definition reply_result (reply : Reply) : result string string :=
  match reply with
  | Unsent error => Err error
  | Replied status shown body =>
      if is_success status then Ok body
      else Err ("proxy returned " +:+ shown +:+ ": " +:+ from_utf8_lossy body)
  end.

Definition submit_job (exchange : Submission → Exchange) (r : ScheduleRow) : result string string :=
  let? s := submission r in
  match exchange s with
  | NoConnection error => Err error
  | Exchanged reply connection => let? _ := connection in reply_result reply
  | SubmitTimedOut => Err "submission timed out after 10s"
  end.

(** ** Statements as values, and ticks *)

Inductive Statement : Type :=
| SUpsert (now : Z) (new_id : string) (q : UpsertScheduleRequest)
| SDelete (k : ScheduleKey)
| SClaim (now : Z) (claimer : string) (lease_secs : Z) (locked : gset string)
    (claim_ids : string → string)
| SSucceed (now : Z) (id claim_id : string)
| SFail (now : Z) (id claim_id error : string) (backoff : Z).

(** A statement that fails leaves the table as it was. *)
Definition run_statement (s : Statement) (t : Schedules) : Schedules :=
  match s with
  | SUpsert now new_id q => match upsert_schedule now new_id q t with Ok (_, t) => t | Err _ => t end
  | SDelete k => match delete_schedule k t with Ok (_, t) => t | Err _ => t end
  | SClaim now claimer lease locked ids =>
      match claim_due_schedules now claimer lease locked ids t with Ok (_, t) => t | Err _ => t end
  | SSucceed now id claim_id => (mark_schedule_succeeded now id claim_id t).2
  | SFail now id claim_id error backoff =>
      match mark_schedule_failed now id claim_id error backoff t with Ok (_, t) => t | Err _ => t end
  end.

Definition run_statements (l : list Statement) (t : Schedules) : Schedules :=
  foldl (λ t s, run_statement s t) t l.

(** What one claimed row meets: how its submission goes, the statements other managers run
    until it is finalized, whether the database then answers, and the clock. *)
Record Attempt : Type := mkAttempt {
  at_exchange : Submission → Exchange;
  at_meanwhile : list Statement;
  at_db_up : bool;
  at_now : Z;
}.

(** The loop of [evaluate_schedules] over the claimed rows. It returns how it ended, the
    schedules it submitted with the rows each finalization changed ([None] where the database
    failed), and the table. The first error of the database ends it. *)
Fixpoint submit_due (cfg : SchedulerConfig) (env : string → Attempt)
    (due : list (string * ScheduleRow)) (t : Schedules) :
    result Status () * list (string * option Z) * Schedules :=
  match due with
  | [] => (Ok (), [], t)
  | (id, r) :: due =>
      match sd_claim_id r with
      | None => submit_due cfg env due t
      | Some claim_id =>
          let a := env id in
          let t := run_statements (at_meanwhile a) t in
          let finalized :=
            ensure? at_db_up a else db_error in
            match submit_job (at_exchange a) r with
            | Ok _ => Ok (mark_schedule_succeeded (at_now a) id claim_id t)
            | Err e =>
                mark_schedule_failed (at_now a) id claim_id e
                  (backoff_secs cfg (sd_consecutive_failures r)) t
            end in
          match finalized with
          | Err e => (Err e, [(id, None)], t)
          | Ok (n, t) =>
              let '(res, tried, t) := submit_due cfg env due t in
              (res, (id, Some n) :: tried, t)
          end
      end
  end.

(** What a tick of [run_scheduler] meets: the gate, the claim transaction (whether it commits,
    its clock, the rows locked by others, the identifiers generated) and the order in which the
    claimed rows are returned. *)
Record Tick : Type := mkTick {
  tk_open : bool;
  tk_db_up : bool;
  tk_now : Z;
  tk_locked : gset string;
  tk_claim_ids : string → string;
  tk_order : Schedules → list (string * ScheduleRow);
  tk_env : string → Attempt;
}.

Definition scheduler_tick (cfg : SchedulerConfig) (manager_id : string) (k : Tick) (t : Schedules) :
    result Status () * list (string * option Z) * Schedules :=
  if negb (tk_open k) then (Ok (), [], t)
  else if negb (tk_db_up k) then (Err db_error, [], t)
  else
    match claim_due_schedules (tk_now k) manager_id (scheduler_lease_secs cfg) (tk_locked k)
            (tk_claim_ids k) t with
    | Err e => (Err e, [], t)
    | Ok (claimed, t) => submit_due cfg (tk_env k) (tk_order k claimed) t
    end.
