(* ===== verification/ScheduleFacts.v ===== *)
(** * What the schedules of the manager guarantee

    The table's invariant under any statements, who gets a claim, that the fence finalizes a
    claim at most once, what a tick does to the rows it claims, and that a stored schedule
    makes a job the engine accepts. *)

From S2P Require Import Prelude RustStr Utf8 Lists Orders Externals Models Grpc Identity Naming Http Rollout JobQueue JobLifecycle WorkerHttp Schedule.

(** ** The invariant of the table *)

(** A column of a positive [INT]. *)
Definition positive_int (v : Z) : Prop := (0 < v ≤ I32_MAX)%Z.

Record row_ok (r : ScheduleRow) : Prop := {
  row_key_text : key_text (row_key r) = true;
  row_interval : positive_int (sd_interval_secs r);
  row_timeout : positive_int (sd_timeout_secs r);
  row_attempts : positive_int (sd_max_attempts r);
  row_failures : (0 ≤ sd_consecutive_failures r ≤ I32_MAX)%Z;
  row_enabled : sd_enabled r = true;
  row_next : is_Some (sd_next_fire_at r);
  row_error : from_option pg_text true (sd_last_error r) = true;
  row_claim : (sd_claim_id r = None ∧ sd_claimed_by r = None ∧ sd_claimed_until r = None)
    ∨ (is_Some (sd_claim_id r) ∧ is_Some (sd_claimed_by r) ∧ is_Some (sd_claimed_until r)
       ∧ is_Some (sd_last_attempt_at r));
}.

(** Every row satisfies the constraints, and no two share the natural key. *)
Record schedules_ok (t : Schedules) : Prop := {
  rows_ok : map_Forall (λ _, row_ok) t;
  keys_unique i j r s : t !! i = Some r → t !! j = Some s → row_key r = row_key s → i = j;
}.

Lemma find_key_Some k t id r : find_key k t = Some (id, r) → t !! id = Some r ∧ row_key r = k.
Proof.
  intros [Hin Hk]%List.find_some. apply bool_decide_eq_true in Hk.
  by apply list_elem_of_In, elem_of_map_to_list in Hin.
Qed.

Lemma find_key_None k t id r : find_key k t = None → t !! id = Some r → row_key r ≠ k.
Proof.
  intros Hf Hi Hk. apply elem_of_map_to_list, list_elem_of_In in Hi.
  pose proof (List.find_none _ _ Hf _ Hi) as H. by apply bool_decide_eq_false in H.
Qed.

(** Replacing a row by one of the same key. *)
Lemma schedules_ok_update t id r r' :
  schedules_ok t → t !! id = Some r → row_key r' = row_key r → row_ok r' →
  schedules_ok (<[id := r']> t).
Proof.
  intros [Hrows Hkeys] Hi Hk Hr. split; [by apply map_Forall_insert_2|].
  assert (∀ j s, <[id := r']> t !! j = Some s → ∃ s', t !! j = Some s' ∧ row_key s' = row_key s) as Hold.
  { intros j s [[<- <-]|[? ?]]%lookup_insert_Some; eauto. }
  intros i j s1 s2 (u1 & H1 & E1)%Hold (u2 & H2 & E2)%Hold E. eapply Hkeys; [done..|congruence].
Qed.

Lemma upsert_spec now new_id q t id t' :
  upsert_schedule now new_id q t = Ok (id, t') →
  positive_int (us_interval_secs q) ∧ positive_int (us_timeout_secs q)
  ∧ positive_int (us_max_attempts q) ∧ key_text (request_key q) = true
  ∧ ((∃ r, t !! id = Some r ∧ row_key r = request_key q ∧ t' = <[id := updated_row now q r]> t)
     ∨ (id = new_id ∧ t !! id = None ∧ find_key (request_key q) t = None
        ∧ t' = <[id := inserted_row now q]> t)).
Proof.
  unfold upsert_schedule, positive_columns, positive_int. intros E.
  destruct (_ <=? _)%Z eqn:H1 in E; [|done]. destruct (_ <=? _)%Z eqn:H2 in E; [|done].
  destruct (_ <=? _)%Z eqn:H3 in E; [|done]. destruct (_ && _) eqn:H4 in E; [|done].
  bool_to_prop. destruct_and?. bool_to_prop.
  split_and!; try lia; [done|].
  destruct (find_key _ _) as [[i r]|] eqn:Hf.
  - apply ok_inj in E. injection E as <- <-. left. apply find_key_Some in Hf as [? ?]. eauto.
  - destruct (t !! new_id) as [?|] eqn:Hn; [done|]. apply ok_inj in E. injection E as <- <-. by right.
Qed.

Lemma fenced_Some id c t r : fenced id c t = Some r ↔ t !! id = Some r ∧ sd_claim_id r = Some c.
Proof.
  unfold fenced. destruct (t !! id) as [r'|]; cbn; [|naive_solver].
  case_bool_decide; naive_solver.
Qed.

Lemma mark_failed_spec now id c e b t n t' :
  mark_schedule_failed now id c e b t = Ok (n, t') →
  pg_text e = true
  ∧ ((n = 0%Z ∧ t' = t ∧ fenced id c t = None)
     ∨ ∃ r, n = 1%Z ∧ fenced id c t = Some r ∧ (sd_consecutive_failures r < I32_MAX)%Z
        ∧ t' = <[id := failed_row now e b r]> t).
Proof.
  unfold mark_schedule_failed. intros E. destruct (pg_text e); [|done]. split; [done|].
  destruct (fenced id c t) as [r|]; [|apply ok_inj in E; injection E as <- <-; by left].
  destruct (_ && _) eqn:H in E; [|done]. apply ok_inj in E. injection E as <- <-.
  right. exists r. bool_to_prop. destruct_and?. bool_to_prop. done.
Qed.

(** The rows a claim returns are the due rows no lease covers and nobody locks. *)
Lemma claim_lookup now m lease locked ids t claimed t' :
  claim_due_schedules now m lease locked ids t = Ok (claimed, t') →
  (∀ id r', claimed !! id = Some r' ↔ ∃ r, t !! id = Some r ∧ schedule_claimable now r = true
     ∧ (id ∉ locked) ∧ r' = claimed_row now m lease (ids id) r)
  ∧ (∀ id, t' !! id = (match claimed !! id with Some r => Some r | None => t !! id end)).
Proof.
  unfold claim_due_schedules. intros E. destruct (_ && _) in E; [|done].
  apply ok_inj in E. injection E as <- <-. split.
  - intros id r'. rewrite map_lookup_imap. destruct (t !! id) as [r|]; cbn; [|naive_solver].
    destruct (schedule_claimable now r) eqn:Hc; cbn; [|naive_solver congruence].
    case_bool_decide; cbn; naive_solver.
  - intros id. rewrite lookup_union. by destruct (map_imap _ _ !! id), (t !! id).
Qed.

Lemma row_ok_updated now q r :
  row_ok r → positive_int (us_interval_secs q) → positive_int (us_timeout_secs q) →
  positive_int (us_max_attempts q) → row_ok (updated_row now q r).
Proof. intros []. split; cbn; eauto. Qed.

Lemma row_ok_inserted now q :
  key_text (request_key q) = true → positive_int (us_interval_secs q) →
  positive_int (us_timeout_secs q) → positive_int (us_max_attempts q) → row_ok (inserted_row now q).
Proof. split; cbn; eauto; unfold I32_MAX; lia. Qed.

Lemma row_ok_claimed now m lease c r : row_ok r → row_ok (claimed_row now m lease c r).
Proof. intros []. split; cbn; eauto 10. Qed.

Lemma row_ok_succeeded now r : row_ok r → row_ok (succeeded_row now r).
Proof. intros []. split; cbn; eauto; unfold I32_MAX; lia. Qed.

Lemma row_ok_failed now e b r :
  row_ok r → pg_text e = true → (sd_consecutive_failures r < I32_MAX)%Z → row_ok (failed_row now e b r).
Proof. intros []. split; cbn; eauto. lia. Qed.

Lemma schedules_ok_claim now m lease locked ids t claimed t' :
  schedules_ok t → claim_due_schedules now m lease locked ids t = Ok (claimed, t') → schedules_ok t'.
Proof.
  intros [Hrows Hkeys] [Hc Ht]%claim_lookup.
  assert (∀ id r', t' !! id = Some r' → ∃ r, t !! id = Some r ∧ row_key r' = row_key r ∧ row_ok r') as H.
  { intros id r'. rewrite Ht. destruct (claimed !! id) as [x|] eqn:E.
    - intros [= <-]. apply Hc in E as (r & Hr & _ & _ & ->). exists r. split_and!; [done..|].
      apply row_ok_claimed, (Hrows _ _ Hr).
    - intros Hr. exists r'. split_and!; [done..|]. apply (Hrows _ _ Hr). }
  split.
  - intros id r' (r & _ & _ & ?)%H. done.
  - intros i j r s (? & ? & ? & _)%H (? & ? & ? & _)%H E. eapply Hkeys; [done..|congruence].
Qed.

Lemma run_statement_ok s t : schedules_ok t → schedules_ok (run_statement s t).
Proof.
  intros Ht. destruct s as [now new_id q|k|now m lease locked ids|now id c|now id c e b]; cbn.
  - destruct (upsert_schedule now new_id q t) as [[id t']|] eqn:E; [|done].
    apply upsert_spec in E as (? & ? & ? & ? & [(r & Hr & Hk & ->)|(-> & Hn & Hf & ->)]).
    + eapply schedules_ok_update; [done..|]. apply row_ok_updated; [|done..]. by eapply rows_ok.
    + split; [apply map_Forall_insert_2; [by apply row_ok_inserted|apply Ht]|].
      intros i j r s [[<- <-]|[? Hi]]%lookup_insert_Some [[<- <-]|[? Hj]]%lookup_insert_Some E;
        [done| | |by eapply keys_unique].
      * by destruct (find_key_None _ _ _ _ Hf Hj).
      * by destruct (find_key_None _ _ _ _ Hf Hi).
  - unfold delete_schedule. destruct (key_text k); [|done].
    destruct (find_key k t) as [[id r]|]; [|done]. destruct Ht as [Hrows Hkeys]. split.
    + by apply map_Forall_delete.
    + intros i j r1 r2 [? ?]%lookup_delete_Some [? ?]%lookup_delete_Some. eauto.
  - destruct (claim_due_schedules _ _ _ _ _ _) as [[cl t']|] eqn:E; [|done].
    by eapply schedules_ok_claim.
  - unfold mark_schedule_succeeded. destruct (fenced id c t) as [r|] eqn:E; [|done].
    apply fenced_Some in E as [Hr _]. eapply schedules_ok_update; [done..|].
    apply row_ok_succeeded. by eapply rows_ok.
  - destruct (mark_schedule_failed _ _ _ _ _ _) as [[n t']|] eqn:E; [|done].
    apply mark_failed_spec in E as (? & [(_ & -> & _)|(r & _ & [Hr _]%fenced_Some & ? & ->)]); [done|].
    eapply schedules_ok_update; [done..|]. apply row_ok_failed; [|done..]. by eapply rows_ok.
Qed.

Lemma run_statements_ok l t : schedules_ok t → schedules_ok (run_statements l t).
Proof. revert t. induction l as [|s l IH]; intros t Ht; [done|]. apply IH, run_statement_ok, Ht. Qed.

Lemma schedules_ok_empty : schedules_ok ∅.
Proof. split; [apply map_Forall_empty|]. intros ???? H. by rewrite lookup_empty in H. Qed.

(** ** Histories of claims *)

(** Schedules with the claims on them that a statement issues, and that it finalizes. *)
Definition issues (s : Statement) (t : Schedules) : list (string * string) :=
  match s with
  | SClaim now m lease locked ids =>
      match claim_due_schedules now m lease locked ids t with
      | Ok (claimed, _) => (λ kv, (kv.1, ids kv.1)) <$> map_to_list claimed
      | Err _ => []
      end
  | _ => []
  end.

Definition finalizes (s : Statement) (t : Schedules) : list (string * string) :=
  match s with
  | SSucceed now id c => if (mark_schedule_succeeded now id c t).1 is 1%Z then [(id, c)] else []
  | SFail now id c e b => if mark_schedule_failed now id c e b t is Ok (1%Z, _) then [(id, c)] else []
  | _ => []
  end.

Record History : Type := mkHistory {
  hi_issued : list (string * string);
  hi_finalized : list (string * string);
  hi_table : Schedules;
}.

Definition history_step (h : History) (s : Statement) : History :=
  mkHistory (hi_issued h ++ issues s (hi_table h)) (hi_finalized h ++ finalizes s (hi_table h))
    (run_statement s (hi_table h)).

Definition history (l : list Statement) : History := foldl history_step (mkHistory [] [] ∅) l.

(** Claims in the table were issued and are not finalized. *)
Record history_ok (h : History) : Prop := {
  held_issued id r c : hi_table h !! id = Some r → sd_claim_id r = Some c → (id, c) ∈ hi_issued h;
  held_open id r c : hi_table h !! id = Some r → sd_claim_id r = Some c → (id, c) ∉ hi_finalized h;
  finalized_issued p : p ∈ hi_finalized h → p ∈ hi_issued h;
  finalized_once : NoDup (hi_finalized h);
}.

(** A statement that finalizes nothing and whose claims are old, or new and issued by it. *)
Lemma history_keeps h s :
  history_ok h → NoDup (hi_issued h ++ issues s (hi_table h)).*2 → finalizes s (hi_table h) = [] →
  (∀ id r c, run_statement s (hi_table h) !! id = Some r → sd_claim_id r = Some c →
     (∃ r0, hi_table h !! id = Some r0 ∧ sd_claim_id r0 = Some c) ∨ (id, c) ∈ issues s (hi_table h)) →
  history_ok (history_step h s).
Proof.
  intros [Hi Ho Hf Hn] Hnd Hfin Hrun.
  assert (∀ p, p ∈ issues s (hi_table h) → p ∉ hi_finalized h) as Hnew.
  { intros p Hp Hp2%Hf. rewrite fmap_app, NoDup_app in Hnd. destruct Hnd as (_ & Hnd & _).
    apply (Hnd p.2); by apply list_elem_of_fmap_2. }
  unfold history_step. rewrite Hfin, app_nil_r. split; cbn [hi_table hi_issued hi_finalized].
  - intros id r c Hr Hc. rewrite elem_of_app.
    destruct (Hrun id r c Hr Hc) as [(r0 & ? & ?)|?]; [left; by eapply Hi|by right].
  - intros id r c Hr Hc. destruct (Hrun id r c Hr Hc) as [(r0 & ? & ?)|?]; [by eapply Ho|by apply Hnew].
  - intros p Hp. rewrite elem_of_app. left. by apply Hf.
  - done.
Qed.

(** A finalization of a held claim clears it. *)
Lemma history_finalizes h s id c r r' :
  history_ok h → hi_table h !! id = Some r → sd_claim_id r = Some c → issues s (hi_table h) = [] →
  finalizes s (hi_table h) = [(id, c)] → run_statement s (hi_table h) = <[id := r']> (hi_table h) →
  sd_claim_id r' = None → NoDup (hi_issued h).*2 →
  history_ok (history_step h s).
Proof.
  intros [Hi Ho Hf Hn] Hr Hc Hiss Hfin Hrun Hr' Hnd. unfold history_step.
  rewrite Hiss, Hfin, Hrun, app_nil_r. split; cbn [hi_table hi_issued hi_finalized].
  - intros j s' d [[<- <-]|[? ?]]%lookup_insert_Some Hd; [congruence|]. by eapply Hi.
  - intros j s' d [[<- <-]|[Hne ?]]%lookup_insert_Some Hd; [congruence|].
    rewrite elem_of_app, list_elem_of_singleton. intros [Hin|[= -> ->]]; [by eapply Ho|done].
  - intros p. rewrite elem_of_app, list_elem_of_singleton. intros [?| ->]; [by apply Hf|by eapply Hi].
  - apply NoDup_app. split_and!; [done| |apply NoDup_singleton].
    intros p Hp ->%list_elem_of_singleton. by eapply Ho.
Qed.

Lemma claims_kept_by_update h id r r0 :
  hi_table h !! id = Some r0 → sd_claim_id r = None ∨ sd_claim_id r = sd_claim_id r0 →
  ∀ j s c, <[id := r]> (hi_table h) !! j = Some s → sd_claim_id s = Some c →
    ∃ s0, hi_table h !! j = Some s0 ∧ sd_claim_id s0 = Some c.
Proof.
  intros Hr0 Hr j s c [[<- <-]|[? ?]]%lookup_insert_Some Hc; [|eauto].
  exists r0. split; [done|]. by destruct Hr; congruence.
Qed.

Lemma history_step_ok h s :
  history_ok h → NoDup (hi_issued (history_step h s)).*2 → history_ok (history_step h s).
Proof.
  intros Hh Hnd. cbn in Hnd.
  assert (NoDup (hi_issued h).*2) as Hnd0
    by (rewrite fmap_app in Hnd; by apply NoDup_app in Hnd as [? _]).
  destruct s as [now new_id q|k|now m lease locked ids|now id c|now id c e b].
  - apply history_keeps; [done..|]. cbn. intros j s c Hs Hc. left.
    destruct (upsert_schedule now new_id q (hi_table h)) as [[id t']|] eqn:E; [|by eauto].
    apply upsert_spec in E as (_ & _ & _ & _ & [(r & Hr & _ & ->)|(_ & _ & _ & ->)]).
    + eapply claims_kept_by_update; [exact Hr| |done..]. by left.
    + apply lookup_insert_Some in Hs as [[_ <-]|[_ ?]]; [done|eauto].
  - apply history_keeps; [done..|]. cbn. intros j s c Hs Hc. left.
    unfold delete_schedule in Hs. destruct (key_text k); [|by eauto].
    destruct (find_key k _) as [[id r]|]; [|by eauto]. apply lookup_delete_Some in Hs as [_ ?]. eauto.
  - apply history_keeps; [done..|]. cbn. intros j s c Hs Hc.
    destruct (claim_due_schedules _ _ _ _ _ _) as [[cl t']|] eqn:E; [|left; by eauto].
    apply claim_lookup in E as [Hcl Ht]. rewrite Ht in Hs.
    destruct (cl !! j) as [x|] eqn:Hj; [|left; by eauto]. injection Hs as ->. right.
    pose proof (proj1 (Hcl _ _) Hj) as (r & _ & _ & _ & ->). injection Hc as <-.
    apply list_elem_of_fmap. eexists (j, _). split; [done|]. by apply elem_of_map_to_list.
  - cbn. destruct (fenced id c (hi_table h)) as [r|] eqn:E.
    + destruct (proj1 (fenced_Some _ _ _ _) E) as [Hr Hc].
      apply (history_finalizes h _ id c r (succeeded_row now r)); try done;
        cbn; unfold mark_schedule_succeeded; by rewrite E.
    + apply history_keeps; [done..| |]; cbn; unfold mark_schedule_succeeded; rewrite E; [done|eauto].
  - destruct (mark_schedule_failed now id c e b (hi_table h)) as [[n t']|] eqn:E.
    2: { apply history_keeps; [done..| |]; cbn; rewrite E; [done|eauto]. }
    pose proof (mark_failed_spec _ _ _ _ _ _ _ _ E) as (_ & [(-> & -> & _)|(r & -> & Hf & _ & ->)]).
    + apply history_keeps; [done..| |]; cbn; rewrite E; [done|eauto].
    + apply fenced_Some in Hf as [Hr Hc].
      apply (history_finalizes h _ id c r (failed_row now e b r)); try done; cbn; by rewrite E.
Qed.

Lemma history_snoc l s : history (l ++ [s]) = history_step (history l) s.
Proof. unfold history. by rewrite foldl_app. Qed.

Lemma history_table l : hi_table (history l) = run_statements l ∅.
Proof.
  induction l as [|s l IH] using rev_ind; [done|].
  rewrite history_snoc. unfold run_statements in *. rewrite foldl_app. cbn. by rewrite IH.
Qed.

Lemma history_holds l : NoDup (hi_issued (history l)).*2 → history_ok (history l).
Proof.
  induction l as [|s l IH] using rev_ind; intros Hnd.
  - split; cbn; [|set_solver..|apply NoDup_nil_2].
    intros id r c H. by rewrite lookup_empty in H.
  - rewrite history_snoc in *. apply history_step_ok; [|done]. apply IH.
    cbn in Hnd. rewrite fmap_app in Hnd. by apply NoDup_app in Hnd as [? _].
Qed.

(** C16. A claim on a schedule is finalized at most once. In any interleaving of upserts,
    deletions, claims and finalizations of any managers from an empty table, where no two
    claims get the same random identifier, every finalization that changes a row carries a
    claim that was issued for that very schedule, and no claim is finalized twice, neither as
    a success and a failure nor by two managers. *)
Theorem schedule_claims_finalize_once l :
  NoDup (hi_issued (history l)).*2 →
  NoDup (hi_finalized (history l)).*2
  ∧ ∀ id c, (id, c) ∈ hi_finalized (history l) → (id, c) ∈ hi_issued (history l).
Proof.
  intros Hnd. destruct (history_holds l Hnd) as [_ _ Hf Hn]. split; [|by auto].
  apply NoDup_fmap_2_strong; [|done].
  intros [i c] [j d] Hi%Hf Hj%Hf E. cbn in E. subst d.
  apply list_elem_of_lookup in Hi as [n Hi], Hj as [m Hj].
  assert (n = m) as ->; [|congruence].
  eapply NoDup_lookup; [exact Hnd| |]; rewrite list_lookup_fmap; [by rewrite Hi|by rewrite Hj].
Qed.

(** The table of schedules keeps its constraints. Under any statements of any managers,
    every stored schedule has a unique natural key, positive limits that fit the columns, a
    failure count in range, a next firing, and the claim's identifier, holder and lease end
    are set or cleared together. *)
Theorem schedule_table_holds l : schedules_ok (run_statements l ∅).
Proof. apply run_statements_ok, schedules_ok_empty. Qed.

(** A claim takes exactly the rows that are due and not leased. A claim that answers
    returns a schedule exactly when its next firing has come, it is enabled, its lease is over
    or absent and no other transaction has it locked; it leases exactly the returned rows
    under the identifiers generated for them, and leaves every other row as it was. *)
Theorem claim_takes_due_unleased now m lease locked ids t claimed t' :
  claim_due_schedules now m lease locked ids t = Ok (claimed, t') →
  ∀ id,
    (is_Some (claimed !! id) ↔ ∃ r, t !! id = Some r ∧ sd_enabled r = true ∧ (id ∉ locked)
       ∧ (∃ next, sd_next_fire_at r = Some next ∧ (next ≤ now)%Z)
       ∧ (∀ until, sd_claimed_until r = Some until → (until < now)%Z))
    ∧ (∀ r', claimed !! id = Some r' → t' !! id = Some r' ∧ sd_claim_id r' = Some (ids id)
         ∧ sd_claimed_by r' = Some m ∧ sd_claimed_until r' = Some (now + from_secs lease)%Z)
    ∧ (claimed !! id = None → t' !! id = t !! id).
Proof.
  intros [Hc Ht]%claim_lookup id. rewrite Ht. split_and!.
  - split.
    + intros [r' (r & Hr & Hcl & Hl & _)%Hc]. exists r. unfold schedule_claimable in Hcl.
      bool_to_prop. destruct_and?. split_and!; [done..| |].
      * destruct (sd_next_fire_at r) as [next|]; [|done]. bool_to_prop. eauto.
      * intros u E. rewrite E in *. by bool_to_prop.
    + intros (r & Hr & He & Hl & (next & Hn & ?) & Hu). eexists. apply Hc. exists r.
      split_and!; [done| |done..]. unfold schedule_claimable. rewrite He, Hn. cbn.
      rewrite (proj2 (Z.leb_le _ _)) by done. destruct (sd_claimed_until r) as [u|]; [|done].
      apply Z.ltb_lt. by apply Hu.
  - intros r' E. rewrite E. apply Hc in E as (r & _ & _ & _ & ->). done.
  - by intros ->.
Qed.

(** ** Ticks *)

(** What other managers do to claimed rows while the lease runs: they claim, and finalize
    claims of their own. *)
Definition peer_statement (until : Z) (own : string → Prop) (s : Statement) : Prop :=
  match s with
  | SUpsert _ _ _ | SDelete _ => False
  | SClaim now _ _ _ _ => (now ≤ until)%Z
  | SSucceed _ _ c | SFail _ _ c _ _ => ¬ own c
  end.

Lemma peer_statement_keeps until own s t id r c :
  peer_statement until own s → t !! id = Some r → sd_claim_id r = Some c → own c →
  sd_claimed_until r = Some until → run_statement s t !! id = Some r.
Proof.
  intros Hp Hr Hc Ho Hu. destruct s as [| |now m lease locked ids|now i d|now i d e b]; cbn in *;
    [done..| | |].
  - destruct (claim_due_schedules _ _ _ _ _ _) as [[cl t']|] eqn:E; [|done].
    apply claim_lookup in E as [Hcl Ht]. rewrite Ht. destruct (cl !! id) as [x|] eqn:Hx; [|done].
    apply Hcl in Hx as (r0 & Hr0 & Hcb & _). rewrite Hr in Hr0. injection Hr0 as <-.
    unfold schedule_claimable in Hcb. rewrite Hu in Hcb. bool_to_prop. destruct_and?. bool_to_prop. lia.
  - unfold mark_schedule_succeeded. destruct (fenced i d t) as [x|] eqn:E; [|done].
    apply fenced_Some in E as [Hx Hd]. cbn. rewrite lookup_insert_ne; [done|]. intros ->. congruence.
  - destruct (mark_schedule_failed _ _ _ _ _ _) as [[n t']|] eqn:E; [|done].
    apply mark_failed_spec in E as (_ & [(_ & -> & _)|(x & _ & [Hx Hd]%fenced_Some & _ & ->)]); [done|].
    cbn. rewrite lookup_insert_ne; [done|]. intros ->. congruence.
Qed.

Lemma peer_statements_keep until own l t id r c :
  Forall (peer_statement until own) l → t !! id = Some r → sd_claim_id r = Some c → own c →
  sd_claimed_until r = Some until → run_statements l t !! id = Some r.
Proof.
  intros Hl. revert t. induction Hl as [|s l Hs Hl IH]; intros t Hr Hc Ho Hu; [done|].
  apply IH; [|done..]. by eapply peer_statement_keeps.
Qed.

(** The row a finalization leaves. *)
Definition settled (cfg : SchedulerConfig) (a : Attempt) (r : ScheduleRow) : ScheduleRow :=
  match submit_job (at_exchange a) r with
  | Ok _ => succeeded_row (at_now a) r
  | Err e => failed_row (at_now a) e (backoff_secs cfg (sd_consecutive_failures r)) r
  end.

(** The database answers and can store the outcome. *)
Definition storable (cfg : SchedulerConfig) (a : Attempt) (r : ScheduleRow) : Prop :=
  at_db_up a = true
  ∧ match submit_job (at_exchange a) r with
    | Ok _ => True
    | Err e => pg_text e = true ∧ (sd_consecutive_failures r < I32_MAX)%Z
        ∧ pg_instant (at_now a + from_secs (backoff_secs cfg (sd_consecutive_failures r))) = true
    end.

Lemma submit_due_cons cfg env id r c due t :
  sd_claim_id r = Some c → run_statements (at_meanwhile (env id)) t !! id = Some r →
  storable cfg (env id) r →
  submit_due cfg env ((id, r) :: due) t
  = (let '(res, tried, t) := submit_due cfg env due
       (<[id := settled cfg (env id) r]> (run_statements (at_meanwhile (env id)) t)) in
     (res, (id, Some 1%Z) :: tried, t)).
Proof.
  intros Hc Hr [Hup Hst]. cbn [submit_due]. rewrite Hc. cbv zeta.
  assert (fenced id c (run_statements (at_meanwhile (env id)) t) = Some r) as Hf by by apply fenced_Some.
  rewrite Hup. unfold settled. destruct (submit_job _ r) as [b|e].
  - unfold mark_schedule_succeeded. by rewrite Hf.
  - destruct Hst as (He & Hn & Hi). unfold mark_schedule_failed. rewrite He, Hf, Hi.
    by rewrite (proj2 (Z.ltb_lt _ _)) by done.
Qed.

Section tick.
Context (cfg : SchedulerConfig) (env : string → Attempt) (until : Z) (own : string → Prop).

(** A row as the tick claimed it. *)
Definition claimed_here (t : Schedules) (kv : string * ScheduleRow) : Prop :=
  t !! kv.1 = Some kv.2 ∧ sd_claimed_until kv.2 = Some until
  ∧ ∃ c, sd_claim_id kv.2 = Some c ∧ own c.

Lemma claimed_here_after t kv l :
  Forall (peer_statement until own) l → claimed_here t kv → claimed_here (run_statements l t) kv.
Proof. intros Hl (Hr & Hu & c & Hc & Ho). split; [by eapply peer_statements_keep|eauto]. Qed.

Lemma submit_due_finalizes due t :
  NoDup due.*1 → Forall (claimed_here t) due → Forall (λ kv, storable cfg (env kv.1) kv.2) due →
  Forall (λ kv, Forall (peer_statement until own) (at_meanwhile (env kv.1))) due →
  ∃ t', submit_due cfg env due t = (Ok (), (λ kv, (kv.1, Some 1%Z)) <$> due, t')
    ∧ (Forall (λ kv, at_meanwhile (env kv.1) = []) due →
       ∀ id, t' !! id = match List.find (λ kv, String.eqb kv.1 id) due with
                        | Some kv => Some (settled cfg (env id) kv.2)
                        | None => t !! id
                        end).
Proof.
  revert t. induction due as [|[id r] due IH]; intros t Hnd Hcl Hst Hpeer; [by exists t|].
  apply NoDup_cons in Hnd as [Hni Hnd]. apply Forall_cons in Hcl as [Hh Hcl], Hst as [Hs Hst],
    Hpeer as [Hp Hpeer]. cbn in Hni, Hs, Hp.
  apply (claimed_here_after _ _ _ Hp) in Hh as (Hr & _ & c & Hc & _). cbn in Hr, Hc.
  edestruct (IH (<[id := settled cfg (env id) r]> (run_statements (at_meanwhile (env id)) t)))
    as (t' & E & Ht'); [done| |done..|].
  { eapply list.Forall_impl; [apply Forall_and; split; [exact Hcl|apply Forall_forall]|].
    2: { intros kv [Hk Hne]. eapply claimed_here_after in Hk as (Hk & ? & ?); [|exact Hp].
         split; [|done]. rewrite lookup_insert_ne; [exact Hk|exact Hne]. }
    intros kv Hin Heq. apply Hni. rewrite Heq. by apply list_elem_of_fmap_2. }
  exists t'. rewrite (submit_due_cons _ _ _ _ c) by done. rewrite E. split; [done|].
  intros [Hm Hms]%Forall_cons j. cbn in Hm. rewrite (Ht' Hms), Hm. cbn.
  destruct (String.eqb_spec id j) as [<-|Hne]; [|by rewrite lookup_insert_ne].
  rewrite lookup_insert_eq. destruct (List.find _ due) as [kv|] eqn:Hf; [|done].
  apply List.find_some in Hf as [Hin Heq]. apply String.eqb_eq in Heq.
  destruct Hni. rewrite <-Heq. by apply list_elem_of_fmap_2, list_elem_of_In.
Qed.
End tick.

(** The rows of a claim, as the tick goes through them. *)
Lemma claimed_rows now m lease locked ids t claimed t1 :
  claim_due_schedules now m lease locked ids t = Ok (claimed, t1) →
  Forall (claimed_here (now + from_secs lease) (λ c, ∃ id, is_Some (claimed !! id) ∧ c = ids id) t1)
    (map_to_list claimed).
Proof.
  intros [Hc Ht]%claim_lookup. apply Forall_forall. intros [id r'] Hin%elem_of_map_to_list.
  unfold claimed_here. cbn. rewrite Ht, Hin. split; [done|].
  pose proof (proj1 (Hc _ _) Hin) as (r & _ & _ & _ & ->). split; [done|].
  exists (ids id). split; [done|]. exists id. by rewrite Hin.
Qed.

Lemma find_order id (claimed : Schedules) due :
  due ≡ₚ map_to_list claimed →
  (snd <$> List.find (λ kv, String.eqb kv.1 id) due) = claimed !! id.
Proof.
  intros Hp. destruct (List.find _ due) as [[i r]|] eqn:Hf; cbn.
  - apply List.find_some in Hf as [Hin%list_elem_of_In Heq%String.eqb_eq]. cbn in Heq. subst i.
    rewrite Hp in Hin. symmetry. by apply elem_of_map_to_list.
  - destruct (claimed !! id) as [r|] eqn:Hr; [|done]. apply elem_of_map_to_list in Hr.
    rewrite <-Hp in Hr. apply list_elem_of_In in Hr. pose proof (List.find_none _ _ Hf _ Hr) as H.
    cbn in H. by rewrite String.eqb_refl in H.
Qed.

(** What the outcome of a submission makes of its row. *)
Definition settles (cfg : SchedulerConfig) (a : Attempt) (r r' : ScheduleRow) : Prop :=
  row_key r' = row_key r
  ∧ sd_claim_id r' = None ∧ sd_claimed_by r' = None ∧ sd_claimed_until r' = None
  ∧ match submit_job (at_exchange a) r with
    | Ok _ =>
        sd_last_fired_at r' = Some (at_now a)
        ∧ sd_next_fire_at r' = Some (at_now a + from_secs (sd_interval_secs r))%Z
        ∧ sd_last_error r' = None ∧ sd_consecutive_failures r' = 0%Z
    | Err e =>
        sd_last_fired_at r' = sd_last_fired_at r
        ∧ sd_next_fire_at r' = Some (at_now a + from_secs
            (Z.min (scheduler_retry_base_secs cfg * 2 ^ sd_consecutive_failures r)
               (scheduler_retry_cap_secs cfg)))%Z
        ∧ sd_last_error r' = Some e
        ∧ sd_consecutive_failures r' = (sd_consecutive_failures r + 1)%Z
    end.

Lemma settled_settles cfg a r : settles cfg a r (settled cfg a r).
Proof. unfold settles, settled. by destruct (submit_job _ r). Qed.

(** C30. A tick settles every schedule it claims. Assume that admission is open, that the database
    answers and can store the outcomes (a failure's text has no NUL, its count stays below
    2^31-1, its next due time is in range), and that meanwhile other managers only claim before
    the lease ends and finalize claims of their own; no schedule is upserted or deleted. Then
    a tick submits each claimed schedule exactly once and no finalization
    is fenced off. If nobody else writes meanwhile, a schedule whose submission was accepted
    next fires one interval later with its failures cleared, a failed one after the capped
    exponential backoff with its failures counted and the error recorded, each without a
    claim, and the rows that were not claimed are as they were. *)
Theorem tick_settles_claims cfg m k t claimed t1 :
  tk_open k = true → tk_db_up k = true →
  claim_due_schedules (tk_now k) m (scheduler_lease_secs cfg) (tk_locked k) (tk_claim_ids k) t
  = Ok (claimed, t1) →
  tk_order k claimed ≡ₚ map_to_list claimed →
  map_Forall (λ id r, storable cfg (tk_env k id) r
    ∧ Forall (peer_statement (tk_now k + from_secs (scheduler_lease_secs cfg))
        (λ c, ∃ i, is_Some (claimed !! i) ∧ c = tk_claim_ids k i)) (at_meanwhile (tk_env k id))) claimed →
  ∃ tried t', scheduler_tick cfg m k t = (Ok (), tried, t')
    ∧ tried ≡ₚ (λ kv, (kv.1, Some 1%Z)) <$> map_to_list claimed
    ∧ (map_Forall (λ id _, at_meanwhile (tk_env k id) = []) claimed → ∀ id,
         match claimed !! id with
         | Some r => ∃ r', t' !! id = Some r' ∧ settles cfg (tk_env k id) r r'
         | None => t' !! id = t !! id
         end).
Proof.
  intros Hopen Hup Hcl Hord Hall. unfold scheduler_tick. rewrite Hopen, Hup, Hcl. cbn [negb].
  assert (∀ P : string → ScheduleRow → Prop, map_Forall P claimed →
    Forall (λ kv, P kv.1 kv.2) (tk_order k claimed)) as Hlift.
  { intros P HP. rewrite Hord. apply Forall_forall. intros [i r] ?%elem_of_map_to_list. by apply HP. }
  destruct (submit_due_finalizes cfg (tk_env k) (tk_now k + from_secs (scheduler_lease_secs cfg))
    (λ c, ∃ i, is_Some (claimed !! i) ∧ c = tk_claim_ids k i) (tk_order k claimed) t1)
    as (t' & E & Ht').
  - rewrite Hord. apply NoDup_fst_map_to_list.
  - rewrite Hord. by eapply claimed_rows.
  - apply (Hlift (λ id r, storable cfg (tk_env k id) r)). intros i r ?. by apply Hall.
  - eapply (Hlift (λ id r, Forall _ (at_meanwhile (tk_env k id)))). intros i r Hi.
    by apply (Hall _ _ Hi).
  - eexists _, t'. split; [exact E|]. split; [by rewrite Hord|].
    intros Hm id. specialize (Ht' (Hlift _ Hm) id). rewrite Ht', <-(find_order id claimed _ Hord).
    destruct (List.find _ _) as [[i r]|] eqn:Hf; cbn.
    + eexists. split; [done|]. apply settled_settles.
    + apply claim_lookup in Hcl as [_ Hl]. rewrite Hl.
      pose proof (find_order id claimed _ Hord) as Hn. rewrite Hf in Hn. cbn in Hn. by rewrite <-Hn.
Qed.

(** A reply with a NUL byte abandons the batch. If the proxy answers the first claimed
    schedule with an error whose body is text with a NUL byte, PostgreSQL refuses the error
    text: the tick fails, the later schedules are not submitted, the failure is neither
    counted nor backed off, and every claimed schedule stays leased. *)
Theorem nul_reply_abandons_tick cfg m k t claimed t1 id r rest status shown body :
  tk_open k = true → tk_db_up k = true →
  claim_due_schedules (tk_now k) m (scheduler_lease_secs cfg) (tk_locked k) (tk_claim_ids k) t
  = Ok (claimed, t1) →
  tk_order k claimed = (id, r) :: rest → claimed !! id = Some r → row_ok r →
  at_db_up (tk_env k id) = true → at_meanwhile (tk_env k id) = [] →
  (∀ s, at_exchange (tk_env k id) s = Exchanged (Replied status shown body) (Ok ())) →
  is_success status = false → utf8_valid body = true → str_contains NUL body = true →
  scheduler_tick cfg m k t = (Err db_error, [(id, None)], t1)
  ∧ map_Forall (λ i x, t1 !! i = Some x ∧ sd_claim_id x = Some (tk_claim_ids k i)) claimed.
Proof.
  intros Hopen Hup Hcl Hord Hin Hok Hdb Hm Hex Hs Hv Hnul.
  pose proof (claim_lookup _ _ _ _ _ _ _ _ Hcl) as [Hc Ht]. split.
  - unfold scheduler_tick. rewrite Hopen, Hup, Hcl, Hord. cbn [negb submit_due].
    pose proof (proj1 (Hc _ _) Hin) as (r0 & _ & _ & _ & Hr). rewrite Hr at 1. cbn [sd_claim_id claimed_row].
    rewrite Hdb, Hm. cbn [run_statements foldl]. unfold submit_job, submission, u32_try_from.
    destruct Hok as [_ _ [Ht0 _] [Ha0 _] _ _ _ _ _].
    rewrite !(proj2 (Z.leb_le _ _)) by lia. cbn [rbind]. rewrite Hex. cbn [rbind reply_result]. rewrite Hs.
    rewrite (from_utf8_lossy_id _ Hv). unfold mark_schedule_failed, pg_text.
    by rewrite !str_contains_app, Hnul, !orb_true_r.
  - intros i x Hx. rewrite Ht, Hx. split; [done|].
    by apply Hc in Hx as (r0 & _ & _ & _ & ->).
Qed.
