(* ===== verification/ScheduleApi.v ===== *)
(** * Schedules: the RPCs (wr-manager/src/service.rs) and the jobs they lead to

    The handlers of [Manager] and their wrappers in [AuthorizedClusterService]. [admitted] is
    what [try_enter] of the gate returned, [open] what [is_open] did, and [version_error] how
    the semver library words a version it refuses. A panic is [None]. *)

From S2P Require Import Prelude RustStr Utf8 Lists Orders Externals Models Grpc Identity Naming Http PolicyTypes Snapshot Policy PolicyFacts Tls AuthTable Auth Rollout JobQueue JobLifecycle WorkerHttp Schedule ScheduleFacts.

(** The message of [ListSchedulesResponse]. *)
Record ScheduleMessage : Type := mkScheduleMessage {
  sm_schedule_id : string;
  sm_worker_namespace : string;
  sm_worker_name : string;
  sm_worker_version : string;
  sm_job_type : string;
  sm_interval_secs : Z;
  sm_immediate : bool;
  sm_payload : string;
  sm_timeout_secs : Z;
  sm_max_attempts : Z;
  sm_enabled : bool;
  sm_last_fired_at : option Timestamp;
  sm_next_fire_at : option Timestamp;
  sm_last_error : string;
  sm_consecutive_failures : Z;
}.

Definition proto_timestamp (value : Z) : Timestamp :=
  mkTimestamp (value / 1000000000) (value mod 1000000000).

Definition schedule_message (kv : string * ScheduleRow) : option ScheduleMessage :=
  let '(id, r) := kv in
  interval_secs ← u32_try_from (sd_interval_secs r);
  timeout_secs ← u32_try_from (sd_timeout_secs r);
  max_attempts ← u32_try_from (sd_max_attempts r);
  failures ← u32_try_from (sd_consecutive_failures r);
  Some (mkScheduleMessage id (sd_worker_namespace r) (sd_worker_name r) (sd_worker_version r)
          (sd_job_type r) interval_secs (sd_immediate r) (sd_payload r) timeout_secs max_attempts
          (sd_enabled r) (proto_timestamp <$> sd_last_fired_at r)
          (proto_timestamp <$> sd_next_fire_at r) (default "" (sd_last_error r)) failures).

Section handlers.
Context `{SH : Sha256Lib, XL : X509Lib, SL : SemverLib, CL : CollationLib}.
Context (leaf_error_text : LeafError → string) (version_error : string).

Definition require_admission (admitted : bool) : result Status () :=
  ensure? admitted else rpc_status CUnavailable "manager is draining" in Ok ().

Definition module_id_error_text (e : module_id_error) : string :=
  match e with
  | ModuleIdName e => name_error_text e
  | ModuleIdTooLong => "module identity is too long for a collision-safe PostgreSQL schema name"
  | ModuleIdVersion => version_error
  end.

(** The checks shared by the two handlers that write. *)
Definition check_key (k : ScheduleKey) : result Status () :=
  match module_id_parse (sk_worker_namespace k) (sk_worker_name k) (sk_worker_version k) with
  | Err e => Err (invalid_argument (module_id_error_text e))
  | Ok _ =>
      ensure? negb (str_is_empty (sk_job_type k)) else invalid_argument "job_type is required" in
      Ok ()
  end.

Definition check_limits (q : UpsertScheduleRequest) : result Status () :=
  match (let? _ := schedule_interval_secs_new (us_interval_secs q) in
         let? _ := job_timeout_secs_new (us_timeout_secs q) in
         max_attempts_new (us_max_attempts q)) with
  | Ok _ => Ok ()
  | Err e => Err (invalid_argument e)
  end.

Definition upsert_handler (admitted : bool) (now : Z) (new_id : string) (q : UpsertScheduleRequest)
    (t : Schedules) : result Status (string * Schedules) :=
  let? _ := require_admission admitted in
  let? _ := check_key (request_key q) in
  let? _ := check_limits q in
  upsert_schedule now new_id q t.

Definition delete_handler (admitted : bool) (k : ScheduleKey) (t : Schedules) :
    result Status Schedules :=
  let? _ := require_admission admitted in
  let? _ := check_key k in
  let? deleted := delete_schedule k t in
  Ok deleted.2.

Definition list_handler (worker_namespace : string) (t : Schedules) :
    option (result Status (list ScheduleMessage)) :=
  match namespace_filter_from_wire worker_namespace with
  | Err e => Some (Err (invalid_argument (name_error_text e)))
  | Ok f => l ← mapM schedule_message (list_schedules f t); Some (Ok l)
  end.

(** ** The authorized service *)

Definition CLUSTER_SERVICE : string := "wruntime.ClusterService".

Definition namespace_resource (namespace : string) : AuthorizationResource :=
  mkResource (Some namespace) None None [].

(** [authorize(..)?.verify(..)?]. *)
Definition authorize_cluster (pp : PrincipalPolicy) (open : bool) (request : RpcRequest)
    (method : string) (resource : AuthorizationResource) : option (result Status AuthorizedCall) :=
  '(_, res) ← authorize leaf_error_text pp open request CLUSTER_SERVICE method resource;
  Some (let? call := res in
        let? _ := verify call CLUSTER_SERVICE method in
        Ok call).

Definition authorized_upsert (pp : PrincipalPolicy) (open admitted : bool) (request : RpcRequest)
    (now : Z) (new_id : string) (q : UpsertScheduleRequest) (t : Schedules) :
    option (result Status (string * Schedules)) :=
  res ← authorize_cluster pp open request "UpsertSchedule" (namespace_resource (us_worker_namespace q));
  Some (let? _ := res in upsert_handler admitted now new_id q t).

Definition authorized_delete (pp : PrincipalPolicy) (open admitted : bool) (request : RpcRequest)
    (k : ScheduleKey) (t : Schedules) : option (result Status Schedules) :=
  res ← authorize_cluster pp open request "DeleteSchedule" (namespace_resource (sk_worker_namespace k));
  Some (let? _ := res in delete_handler admitted k t).

Definition authorized_list (pp : PrincipalPolicy) (open : bool) (request : RpcRequest)
    (worker_namespace : string) (t : Schedules) : option (result Status (list ScheduleMessage)) :=
  let resource := mkResource
    (if str_is_empty worker_namespace then None else Some worker_namespace) None None [] in
  res ← authorize_cluster pp open request "ListSchedules" resource;
  match res with
  | Err e => Some (Err e)
  | Ok call =>
      listed ← list_handler worker_namespace t;
      Some (let? schedules := listed in
            Ok (List.filter (λ s,
              allows_collection_item call (Some (sm_worker_namespace s)) None None None) schedules))
  end.

(** ** What the RPCs do *)

Context `{SC : SnapshotCodec, HL : HttpLib, TL : TomlLib}.

Lemma authorize_cluster_ok document p pp open request method r res :
  policy_load document = Ok p → principal_policy_new p = Some pp →
  authorize_cluster pp open request method r = Some (Ok res) →
  ∃ row e u, find_row CLUSTER_SERVICE method = Some row ∧ presents pp request e u
    ∧ entitled p row u r ∧ admissible open CLUSTER_SERVICE method
    ∧ res = call_for pp CLUSTER_SERVICE method row e u r.
Proof.
  intros Hl%policy_load_valid <-%principal_policy_snapshot. unfold authorize_cluster.
  destruct (authorize_run leaf_error_text pp open request CLUSTER_SERVICE method r Hl)
    as (rq & rs & E & _ & Hspec). rewrite E. cbn [mbind option_bind].
  intros [= H]. destruct rs as [call|]; [|done]. cbn [rbind] in H.
  destruct (verify _ _ _); [|done]. injection H as <-. by apply Hspec.
Qed.

Lemma check_limits_ok q :
  check_limits q = Ok () → us_interval_secs q ≠ 0%Z ∧ us_timeout_secs q ≠ 0%Z ∧ us_max_attempts q ≠ 0%Z.
Proof.
  unfold check_limits, schedule_interval_secs_new, job_timeout_secs_new, max_attempts_new,
    positive_u32_new.
  destruct (Z.eqb_spec (us_interval_secs q) 0), (Z.eqb_spec (us_timeout_secs q) 0),
    (Z.eqb_spec (us_max_attempts q) 0); done.
Qed.

(** An upsert is authorized for its namespace and touches one schedule. On an accepted
    policy, an upsert succeeds only while the gate admits it, for a principal entitled to the
    RPC on the namespace of the schedule; it then writes exactly the row of the natural key of
    the request, enabled, with the limits of the request and no claim, so that attempts under
    way are fenced off, and keeps when that schedule last fired, its last error and its
    failures. *)
Theorem upsert_writes_own_schedule document p pp open admitted request now new_id q t id t' :
  policy_load document = Ok p → principal_policy_new p = Some pp →
  authorized_upsert pp open admitted request now new_id q t = Some (Ok (id, t')) →
  admitted = true
  ∧ (∃ row e u, find_row CLUSTER_SERVICE "UpsertSchedule" = Some row ∧ presents pp request e u
       ∧ entitled p row u (namespace_resource (us_worker_namespace q))
       ∧ admissible open CLUSTER_SERVICE "UpsertSchedule")
  ∧ (∀ j, j ≠ id → t' !! j = t !! j)
  ∧ ∃ r', t' !! id = Some r' ∧ row_key r' = request_key q ∧ sd_enabled r' = true
    ∧ sd_interval_secs r' = us_interval_secs q ∧ sd_timeout_secs r' = us_timeout_secs q
    ∧ sd_max_attempts r' = us_max_attempts q ∧ sd_payload r' = us_payload q
    ∧ sd_claim_id r' = None ∧ sd_claimed_by r' = None ∧ sd_claimed_until r' = None
    ∧ match t !! id with
      | None => id = new_id ∧ sd_last_fired_at r' = None ∧ sd_consecutive_failures r' = 0%Z
      | Some r => row_key r = request_key q ∧ sd_last_fired_at r' = sd_last_fired_at r
          ∧ sd_last_error r' = sd_last_error r
          ∧ sd_consecutive_failures r' = sd_consecutive_failures r
      end
    ∧ sd_next_fire_at r' = Some (match t !! id ≫= sd_last_fired_at with
        | Some fired => fired + from_secs (us_interval_secs q)
        | None => if us_immediate q then now else now + from_secs (us_interval_secs q)
        end)%Z.
Proof.
  intros Hl Hpp. unfold authorized_upsert. intros (res & Ha & [= H])%bind_Some.
  destruct res as [call|]; [|done]. cbn [rbind] in H. unfold upsert_handler, require_admission in H.
  destruct admitted; [|done]. cbn [rbind] in H. destruct (check_key _); [|done]. cbn [rbind] in H.
  destruct (check_limits q) as [[]|]; [|done]. cbn [rbind] in H.
  split; [done|]. split.
  { destruct (authorize_cluster_ok _ _ _ _ _ _ _ _ Hl Hpp Ha) as (row & e & u & ? & ? & ? & ? & _).
    eauto 10. }
  apply upsert_spec in H as (_ & _ & _ & _ & [(r & Hr & Hk & ->)|(-> & Hn & _ & ->)]);
    (split; [intros j Hj; by rewrite lookup_insert_ne|]); eexists; rewrite lookup_insert_eq.
  - rewrite Hr. cbn. by split_and!.
  - rewrite Hn. cbn. by split_and!.
Qed.

Lemma schedule_message_total id r : row_ok r → is_Some (schedule_message (id, r)).
Proof.
  intros [_ [? _] [? _] [? _] [? _] _ _ _ _]. unfold schedule_message, u32_try_from.
  rewrite !(proj2 (Z.leb_le _ _)) by lia. by eexists.
Qed.

Lemma schedule_message_of kv s :
  schedule_message kv = Some s → sm_schedule_id s = kv.1 ∧ sm_worker_namespace s = sd_worker_namespace kv.2.
Proof.
  destruct kv as [id r]. unfold schedule_message.
  intros (? & _ & (? & _ & (? & _ & (? & _ & [= <-])%bind_Some)%bind_Some)%bind_Some)%bind_Some.
  done.
Qed.

Lemma list_schedules_elem f t id r :
  (id, r) ∈ list_schedules f t
  ↔ t !! id = Some r ∧ match f with FilterAll => True | FilterOne n => sd_worker_namespace r = name_str n end.
Proof.
  unfold list_schedules. destruct f as [|n]; rewrite sort_by_perm.
  - rewrite elem_of_map_to_list. tauto.
  - rewrite list_elem_of_filter, elem_of_map_to_list. cbn. tauto.
Qed.

Lemma list_schedules_NoDup f t : NoDup (list_schedules f t).*1.
Proof.
  unfold list_schedules. destruct f as [|n]; rewrite sort_by_perm.
  - apply NoDup_fst_map_to_list.
  - apply NoDup_fmap_filter, NoDup_fst_map_to_list.
Qed.

Lemma list_handler_total ns t f :
  schedules_ok t → namespace_filter_from_wire ns = Ok f →
  ∃ l, list_handler ns t = Some (Ok l) ∧ Forall2 (λ kv s, schedule_message kv = Some s) (list_schedules f t) l.
Proof.
  intros Ht Hf. unfold list_handler. rewrite Hf.
  assert (is_Some (mapM schedule_message (list_schedules f t))) as [l Hl].
  { apply mapM_is_Some. apply Forall_forall. intros [id r] [Hr _]%list_schedules_elem.
    apply schedule_message_total. by eapply rows_ok. }
  exists l. rewrite Hl. split; [done|]. by apply mapM_Some.
Qed.

(** A listing shows exactly the schedules the caller may see. On a table that keeps its
    constraints, an authorized listing never panics; where the namespace it asks for is empty
    or a valid name, the answer lists a schedule, once, exactly when it is stored, lies in the
    namespace asked for (if any), and the grants of the call permit its namespace. *)
Theorem schedule_listing_exact pp open request ns f t call :
  schedules_ok t →
  namespace_filter_from_wire ns = Ok f →
  authorize_cluster pp open request "ListSchedules"
    (mkResource (if str_is_empty ns then None else Some ns) None None []) = Some (Ok call) →
  ∃ l, authorized_list pp open request ns t = Some (Ok l)
    ∧ NoDup (sm_schedule_id <$> l)
    ∧ ∀ id, id ∈ sm_schedule_id <$> l ↔ ∃ r, t !! id = Some r
        ∧ (ns = "" ∨ sd_worker_namespace r = ns)
        ∧ allows_collection_item call (Some (sd_worker_namespace r)) None None None = true.
Proof.
  intros Ht Hf Ha. destruct (list_handler_total ns t f Ht Hf) as (l & El & Hl).
  unfold authorized_list. rewrite Ha. cbn [mbind option_bind]. rewrite El. cbn [mbind option_bind rbind].
  eexists. split; [done|].
  assert (∀ id r, (id, r) ∈ list_schedules f t ↔ t !! id = Some r ∧ (ns = "" ∨ sd_worker_namespace r = ns)) as Hin.
  { intros id r. rewrite list_schedules_elem. unfold namespace_filter_from_wire in Hf.
    destruct ns as [|c s]; cbn in Hf; [injection Hf as <-; naive_solver|].
    destruct (name_parse TNamespace _) as [n|] eqn:En; [|done]. injection Hf as <-.
    assert (name_str n = String c s) as -> by (by eapply name_parse_str).
    naive_solver. }
  assert (sm_schedule_id <$> l = (list_schedules f t).*1) as Hids.
  { clear -Hl. induction Hl as [|kv s ks l Hk Hl IH]; [done|].
    apply schedule_message_of in Hk as [Hk _]. cbn. by rewrite Hk, IH. }
  split.
  - rewrite (list_filter_bool (λ s, allows_collection_item call (Some (sm_worker_namespace s)) None None None)).
    apply NoDup_fmap_filter. rewrite Hids. apply list_schedules_NoDup.
  - intros id. rewrite list_elem_of_fmap. split.
    + intros (s & -> & Hs). rewrite list_filter_bool, list_elem_of_filter in Hs. destruct Hs as [Hal Hs].
      apply list_elem_of_lookup in Hs as [i Hs]. 
      destruct (Forall2_lookup_r _ _ _ _ _ Hl Hs) as ([j r] & Hj & Hm).
      apply schedule_message_of in Hm as [-> Hns]. cbn in Hns. rewrite Hns in Hal.
      apply list_elem_of_lookup_2, Hin in Hj as [? ?]. eauto.
    + intros (r & Hr & Hns & Hal). 
      destruct (proj1 (list_elem_of_lookup _ _) (proj2 (Hin id r) (conj Hr Hns))) as [i Hi].
      destruct (Forall2_lookup_l _ _ _ _ _ Hl Hi) as (s & Hs & Hm).
      apply schedule_message_of in Hm as [Hid Hn]. cbn in Hid, Hn. exists s. split; [done|].
      rewrite list_filter_bool, list_elem_of_filter, Hn. split; [done|].
      by eapply list_elem_of_lookup_2.
Qed.
End handlers.

(** ** The job a schedule leads to *)

(** An admitted submission with a new identifier and storable text is inserted. *)
Lemma insert_job_stores now new_id ns name version ty body timeout max db :
  (str_len body ≤ MAX_JOB_BLOB_BYTES)%Z →
  (total_length [ns; name; version; ty; ""; ""] ≤ MAX_JOB_METADATA_BYTES)%Z →
  positive_int timeout → positive_int max →
  forallb pg_text [new_id; ns; name; version; ty] = true → db_jobs db !! new_id = None →
  let job := mkRow (mkSpec new_id ns name version ty body max timeout now "" "")
               "pending" None None 0 now None None None None None in
  insert_job now new_id ns name version ty body timeout max "" "" db
  = Ok (new_id, notify_new_job job (mkDb (<[new_id := job]> (db_jobs db)) (db_notices db))).
Proof.
  intros Hb Hm [Ht0 Ht] [Ha0 Ha] Htext Hnew job. unfold insert_job.
  rewrite (proj2 (Z.leb_le _ _) Hb).
  pose proof (lengths_total_le [ns; name; version; ty; ""; ""] MAX_JOB_METADATA_BYTES ltac:(done)) as Hl.
  rewrite (proj2 (Z.leb_le _ _) Hm) in Hl. destruct (lengths_total _) as [n|]; [|done]. rewrite Hl.
  unfold job_timeout_secs_new, max_attempts_new, i32_try_from.
  rewrite !(proj2 (Z.eqb_neq _ 0)), !positive_u32_new_ok by lia.
  rewrite !(proj2 (Z.leb_le _ I32_MAX)) by done. cbv zeta. unfold sql_insert. fold job.
  cbn [forallb] in Htext. rewrite !andb_true_iff in Htext. destruct Htext as (H1 & H2 & H3 & H4 & H5 & _).
  cbn [job_id worker_namespace worker_name worker_version job_type source_namespace source_module].
  rewrite H1, H2, H3, H4, H5, Hnew. cbn [andb is_null pg_text str_contains negb].
  unfold db_store. assert (jobs_constraints job = true) as Hc.
  { unfold jobs_constraints. cbn. rewrite !(proj2 (Z.ltb_lt _ _)), (proj2 (Z.leb_le _ _)) by lia. done. }
  change (attempt _) with 0%Z at 1. rewrite Hc. done.
Qed.

(** A schedule within the limits that the engine's queue puts on a job. *)
Definition fits_queue (r : ScheduleRow) : Prop :=
  (str_len (sd_payload r) ≤ MAX_JOB_BLOB_BYTES)%Z
  ∧ (total_length [sd_worker_namespace r; sd_worker_name r; sd_worker_version r; sd_job_type r]
       ≤ MAX_JOB_METADATA_BYTES)%Z.

Section jobs.
Context `{SH : Sha256Lib, SL : SemverLib}.
Context (submit_decode : string → result string SubmitJobRequest).

(** A stored schedule makes a job the engine accepts. The request the scheduler builds
    from a stored schedule, arriving at the engine under the route of its module, is inserted
    as a pending job with the type, payload, timeout and attempts of the schedule, whatever
    the engine's defaults, provided the metadata and payload fit the queue's limits and the
    generated job identifier is new. *)
Theorem scheduled_job_accepted r s body now new_id defaults db :
  row_ok r → submission r = Ok s → submit_decode body = Ok (sn_body s) → fits_queue r →
  pg_text new_id = true → db_jobs db !! new_id = None →
  ∃ db' job, handle_submit_job submit_decode now new_id body (Some (sd_worker_namespace r))
      (Some (sd_worker_name r)) (Some (sd_worker_version r)) defaults db
    = (SubmitJobResponse new_id, db')
    ∧ db_jobs db' = <[new_id := job]> (db_jobs db)
    ∧ status job = "pending" ∧ attempt job = 0%Z
    ∧ job_type (spec job) = sd_job_type r ∧ payload (spec job) = sd_payload r
    ∧ worker_version (spec job) = sd_worker_version r
    ∧ timeout_secs (spec job) = sd_timeout_secs r ∧ max_attempts (spec job) = sd_max_attempts r.
Proof.
  intros [Hk _ Ht Ha _ _ _ _ _] Hs Hd [Hp Hm] Hid Hnew. pose proof (proj1 Ht). pose proof (proj1 Ha).
  unfold submission, u32_try_from in Hs. rewrite !(proj2 (Z.leb_le _ _)) in Hs by lia.
  apply ok_inj in Hs. subst s. cbn [sn_body] in Hd. unfold handle_submit_job. rewrite Hd.
  cbn [sr_worker_namespace sr_worker_name sr_worker_version sr_timeout_secs sr_max_attempts
    sr_job_type sr_payload].
  rewrite !String.eqb_refl. cbn [negb orb]. rewrite andb_false_r. cbv zeta.
  rewrite !(proj2 (Z.ltb_lt _ _)) by done.
  unfold key_text in Hk. cbn in Hk. rewrite !andb_true_iff in Hk. destruct Hk as [[[K1 K2] K3] K4].
  rewrite insert_job_stores; [|done|exact Hm|done..| |done].
  - eexists _, _. by split_and!.
  - cbn [forallb]. by rewrite Hid, K1, K2, K3, K4.
Qed.
End jobs.
