(* ===== verification/ScheduleDemo.v ===== *)
(** * Schedules: examples

    A service account that may schedule in one namespace upserts a schedule; a manager claims
    and submits it. The theorems about schedules at these runs. *)

From S2P Require Import Prelude RustStr Utf8 Lists Orders Externals Models Grpc Identity Naming Http PolicyTypes Snapshot Policy PolicyFacts PolicyDemo Tls Access AuthTable Auth Rollout JobQueue JobLifecycle WorkerHttp Schedule ScheduleFacts ScheduleApi.

(** A policy with the account. *)
Definition planner : string := "urn:wruntime:c:service-account:planner".

Definition planner_raw : RawPolicy :=
  mkRawPolicy 1 7 "c" [mkRawPrincipal planner "service-account"; mkRawPrincipal demo_manager "manager"]
    [mkRawAssignment planner "schedule" (mkRawScope (Some ["shop"]) None None None)]
    [mkRawManager demo_manager "m" "https://m:9000"] [] [] [].

Definition planner_toml_policy (text : string) : option RawPolicy :=
  if String.eqb text "planner" then Some planner_raw else None.

Lemma planner_toml_widths text raw :
  planner_toml_policy text = Some raw →
  (0 ≤ raw_schema_version raw ≤ U32_MAX)%Z ∧ (0 ≤ raw_generation raw ≤ U64_MAX)%Z.
Proof.
  unfold planner_toml_policy. destruct (String.eqb text "planner"); [|done]. intros [= <-]. done.
Qed.

Definition planner_toml : TomlLib :=
  {| toml_policy := planner_toml_policy; toml_policy_widths := planner_toml_widths |}.

Section demo.
#[local] Existing Instances toy_sha256 toy_codec toy_http planner_toml toy_x509 toy_semver toy_collation.

Definition planner_policy : ValidatedPolicy :=
  match policy_load "planner" with Ok p => p | Err _ => demo_none end.

Lemma planner_loads : policy_load "planner" = Ok planner_policy.
Proof. vm_compute. reflexivity. Qed.

Definition planner_auth : PrincipalPolicy := mkPrincipalPolicy planner_policy (Name "c").

Lemma planner_auth_new : principal_policy_new planner_policy = Some planner_auth.
Proof. vm_compute. reflexivity. Qed.

Definition nightly (namespace : string) (immediate : bool) : UpsertScheduleRequest :=
  mkUpsert namespace "mailer" "1.0.0" "/send" 3600 immediate "hi" 60 5.

Definition upserted (namespace : string) : option (result Status (string * Schedules)) :=
  authorized_upsert demo_text "bad version" planner_auth true true (demo_caller planner) (from_secs 1)
    "s1" (nightly namespace true) ∅.

(** The account schedules in its own namespace and in no other. *)
Lemma planner_scope :
  (λ ns, match upserted ns with Some r => is_ok r | None => false end) <$> ["shop"; "bank"]
  = [true; false].
Proof. vm_compute. reflexivity. Qed.

Definition one_schedule : Schedules := run_statements [SUpsert (from_secs 1) "s1" (nightly "shop" true)] ∅.

Lemma upsert_writes_own_schedule_witness :
  ∃ r', one_schedule !! "s1" = Some r' ∧ sd_next_fire_at r' = Some (from_secs 1).
Proof.
  destruct (upsert_writes_own_schedule demo_text "bad version" "planner" planner_policy planner_auth
    true true (demo_caller planner) (from_secs 1) "s1" (nightly "shop" true) ∅ "s1" one_schedule
    planner_loads planner_auth_new) as (_ & _ & _ & r' & Hr & _ & _ & _ & _ & _ & _ & _ & _ & _ & _ & Hn).
  - vm_compute. reflexivity.
  - exists r'. exact (conj Hr Hn).
Defined.

Lemma one_schedule_ok : schedules_ok one_schedule.
Proof. apply run_statements_ok, schedules_ok_empty. Qed.

Definition planner_listing : AuthorizedCall :=
  match authorize_cluster demo_text planner_auth true (demo_caller planner) "ListSchedules"
          (namespace_resource "shop") with
  | Some (Ok call) => call
  | _ => demo_none_call.2
  end.

Lemma schedule_listing_exact_witness :
  ∃ l, authorized_list demo_text planner_auth true (demo_caller planner) "shop" one_schedule = Some (Ok l)
    ∧ "s1" ∈ sm_schedule_id <$> l.
Proof.
  destruct (schedule_listing_exact demo_text planner_auth true (demo_caller planner) "shop"
    (FilterOne (Name "shop")) one_schedule planner_listing one_schedule_ok) as (l & E & _ & H).
  - vm_compute. reflexivity.
  - vm_compute. reflexivity.
  - exists l. split; [exact E|]. apply H.
    exists (inserted_row (from_secs 1) (nightly "shop" true)).
    split; [vm_compute; reflexivity|]. split; [right; reflexivity|vm_compute; reflexivity].
Defined.

(** ** Claims *)

Definition claim_of (manager claim : string) (at_secs : Z) : Statement :=
  SClaim (from_secs at_secs) manager 30 ∅ (λ _, claim).

(** Manager [a] stalls past its lease, [b] takes the schedule over and finishes it, and the
    late finalizations of [a] change nothing. *)
Definition takeover : list Statement :=
  [SUpsert (from_secs 1) "s1" (nightly "shop" true); claim_of "a" "c1" 2; claim_of "b" "c2" 33;
   SSucceed (from_secs 34) "s1" "c1"; SSucceed (from_secs 35) "s1" "c2";
   SFail (from_secs 36) "s1" "c1" "late" 5; SFail (from_secs 36) "s1" "c2" "twice" 5].

Lemma takeover_history :
  hi_issued (history takeover) = [("s1", "c1"); ("s1", "c2")]
  ∧ hi_finalized (history takeover) = [("s1", "c2")].
Proof. split; vm_compute; reflexivity. Qed.

Lemma schedule_claims_finalize_once_witness :
  NoDup (hi_finalized (history takeover)).*2 ∧ ("s1", "c2") ∈ hi_issued (history takeover).
Proof.
  destruct (schedule_claims_finalize_once takeover) as [Hn Hi].
  - rewrite (proj1 takeover_history). apply (bool_decide_unpack _). vm_compute. exact I.
  - split; [exact Hn|]. apply Hi. rewrite (proj2 takeover_history). apply list_elem_of_here.
Defined.

Definition demo_claim : Schedules * Schedules :=
  match claim_due_schedules (from_secs 2) "a" 30 ∅ (λ _, "c1") one_schedule with
  | Ok x => x
  | Err _ => (∅, ∅)
  end.

Lemma demo_claim_eq :
  claim_due_schedules (from_secs 2) "a" 30 ∅ (λ _, "c1") one_schedule = Ok (demo_claim.1, demo_claim.2).
Proof. vm_compute. reflexivity. Qed.

Lemma claim_takes_due_unleased_witness : is_Some (demo_claim.1 !! "s1").
Proof.
  apply (claim_takes_due_unleased (from_secs 2) "a" 30 ∅ (λ _, "c1") one_schedule demo_claim.1
    demo_claim.2 demo_claim_eq "s1").
  exists (inserted_row (from_secs 1) (nightly "shop" true)).
  split; [vm_compute; reflexivity|]. split; [reflexivity|].
  split; [apply not_elem_of_empty|]. split.
  - exists (from_secs 1). split; [reflexivity|vm_compute; discriminate].
  - intros u Hu. discriminate Hu.
Defined.

(** ** Ticks *)

Definition demo_scheduler : SchedulerConfig := mkScheduler 30 5 300.

Definition reply_of (r : Reply) : Attempt := mkAttempt (λ _, Exchanged r (Ok ())) [] true (from_secs 3).

Definition tick_of (a : Attempt) : Tick :=
  mkTick true true (from_secs 2) ∅ (λ _, "c1") map_to_list (λ _, a).

Definition demo_claimed_row : ScheduleRow :=
  claimed_row (from_secs 2) "a" 30 "c1" (inserted_row (from_secs 1) (nightly "shop" true)).

Lemma demo_claimed : map_to_list demo_claim.1 = [("s1", demo_claimed_row)].
Proof. vm_compute. reflexivity. Qed.

Lemma demo_claimed_forall (P : string → ScheduleRow → Prop) :
  P "s1" demo_claimed_row → map_Forall P demo_claim.1.
Proof.
  intros HP i x Hx. apply elem_of_map_to_list in Hx. rewrite demo_claimed in Hx.
  apply list_elem_of_singleton in Hx as [= -> ->]. exact HP.
Qed.

Lemma demo_claimed_lookup : demo_claim.1 !! "s1" = Some demo_claimed_row.
Proof. apply elem_of_map_to_list. rewrite demo_claimed. apply list_elem_of_here. Qed.

(** A refused submission is retried after the base delay of five seconds. *)
Lemma tick_settles_claims_witness :
  ∃ tried t' r', scheduler_tick demo_scheduler "a" (tick_of (reply_of (Replied 503 "503" "busy")))
      one_schedule = (Ok (), tried, t')
    ∧ t' !! "s1" = Some r' ∧ sd_next_fire_at r' = Some (from_secs 8)
    ∧ sd_consecutive_failures r' = 1%Z.
Proof.
  destruct (tick_settles_claims demo_scheduler "a" (tick_of (reply_of (Replied 503 "503" "busy")))
    one_schedule demo_claim.1 demo_claim.2 eq_refl eq_refl demo_claim_eq (Permutation_refl _))
    as (tried & t' & E & _ & H).
  - apply demo_claimed_forall. split; [|constructor]. split; [reflexivity|].
    split; [vm_compute; reflexivity|]. split; vm_compute; reflexivity.
  - specialize (H (demo_claimed_forall _ eq_refl) "s1"). rewrite demo_claimed_lookup in H.
    destruct H as (r' & Hr & _ & _ & _ & _ & _ & Hn & _ & Hf).
    exists tried, t', r'. exact (conj E (conj Hr (conj Hn Hf))).
Defined.

Lemma nul_reply_abandons_tick_witness :
  scheduler_tick demo_scheduler "a" (tick_of (reply_of (Replied 502 "502" (String NUL ""))))
    one_schedule = (Err db_error, [("s1", None)], demo_claim.2).
Proof.
  apply (nul_reply_abandons_tick demo_scheduler "a"
    (tick_of (reply_of (Replied 502 "502" (String NUL "")))) one_schedule demo_claim.1 demo_claim.2
    "s1" demo_claimed_row [] 502 "502" (String NUL "")); try reflexivity.
  apply row_ok_claimed, row_ok_inserted; [vm_compute; reflexivity|split; vm_compute; done..].
Defined.

(** ** The job *)

Definition a_job_id : string := "00000000-0000-0000-0000-000000000001".

Definition demo_body (_ : string) : result string SubmitJobRequest :=
  Ok (mkSubmit "shop" "mailer" "1.0.0" "/send" "hi" 60 5).

Lemma scheduled_job_accepted_witness :
  ∃ db' job, handle_submit_job demo_body (from_secs 3) a_job_id "" (Some "shop") (Some "mailer")
      (Some "1.0.0") [] (mkDb ∅ []) = (SubmitJobResponse a_job_id, db')
    ∧ db_jobs db' = <[a_job_id := job]> ∅ ∧ timeout_secs (spec job) = 60%Z.
Proof.
  destruct (scheduled_job_accepted demo_body demo_claimed_row
    (match submission demo_claimed_row with
     | Ok s => s
     | Err _ => mkSubmission (mkSubmit "" "" "" "" "" 0 0) "" []
     end) "" (from_secs 3) a_job_id [] (mkDb ∅ []))
    as (db' & job & E & Hdb & _ & _ & _ & _ & _ & Ht & _).
  - apply row_ok_claimed, row_ok_inserted; [vm_compute; reflexivity|split; vm_compute; done..].
  - reflexivity.
  - reflexivity.
  - split; vm_compute; discriminate.
  - vm_compute. reflexivity.
  - reflexivity.
  - exists db', job. exact (conj E (conj Hdb Ht)).
Defined.
End demo.
