(* ===== verification/Operations.v ===== *)
(** * Node operations: messages, names and transitions (wr-manager/src/operations.rs)

    An operation deploys, rolls back or restarts what runs on one node. It has one target for
    the node's proxy and one per engine slot; every target passes through steps that an agent
    on the node executes and reports. This file holds the messages, the texts under which the
    tables store their enumerations, and the choice of a slot's steps.

    An enumeration of protobuf is an [i32]: a field of a request is a [Z] that [try_from]
    reads, a field of a message that the manager builds is the enumeration itself. A column
    that holds an encoded message is that message, because [prost] decodes what it encoded.
    Numbers that the tables check to be nonnegative are not wrapped by [as u64]. *)

From S2P Require Import Prelude RustStr Grpc Lifecycle Rollout.

(** ** Enumerations (proto/wruntime.proto) *)

Inductive NodeOperationAction : Type := ActUnspecified | ActRestart | ActRollback | ActDeployment.

Inductive NodeOperationState : Type :=
| OpUnspecified | OpQueued | OpRunning | OpPaused | OpSucceeded | OpFailed | OpCancelled.

Inductive NodeOperationPhase : Type :=
| PhUnspecified | PhForward | PhRestoringSource | PhCommitting | PhComplete.

Inductive StepKind : Type :=
| StUnspecified | VerifyReleaseMetadata | VerifyProxy | StopBackend | SelectRelease | StartBackend
| VerifyTarget | SwitchAuthority | VerifyServing | RestoreSource | InspectBackend.

Inductive InstructionTargetKind : Type := TkUnspecified | TkProxy | TkEngineSlot | TkReleaseCleanup.

Inductive BackendProcessState : Type := BpUnspecified | BpRunning | BpExited | BpQueryError.

Inductive BackendStopDisposition : Type := DispUnknown | DispGraceful | DispForced.

Inductive DerivedTransition : Type := Addition | Replacement | Unchanged | Removal | Restart.

#[global] Instance NodeOperationAction_eq_dec : EqDecision NodeOperationAction.
Proof. solve_decision. Defined.
#[global] Instance NodeOperationState_eq_dec : EqDecision NodeOperationState.
Proof. solve_decision. Defined.
#[global] Instance NodeOperationPhase_eq_dec : EqDecision NodeOperationPhase.
Proof. solve_decision. Defined.
#[global] Instance StepKind_eq_dec : EqDecision StepKind.
Proof. solve_decision. Defined.
#[global] Instance InstructionTargetKind_eq_dec : EqDecision InstructionTargetKind.
Proof. solve_decision. Defined.
#[global] Instance BackendProcessState_eq_dec : EqDecision BackendProcessState.
Proof. solve_decision. Defined.
#[global] Instance BackendStopDisposition_eq_dec : EqDecision BackendStopDisposition.
Proof. solve_decision. Defined.
#[global] Instance DerivedTransition_eq_dec : EqDecision DerivedTransition.
Proof. solve_decision. Defined.

Definition action_try_from (v : Z) : option NodeOperationAction :=
  match v with
  | 0 => Some ActUnspecified | 3 => Some ActRestart | 6 => Some ActRollback
  | 7 => Some ActDeployment | _ => None
  end%Z.

Definition step_try_from (v : Z) : option StepKind :=
  match v with
  | 0 => Some StUnspecified | 1 => Some VerifyReleaseMetadata | 2 => Some VerifyProxy
  | 3 => Some StopBackend | 4 => Some SelectRelease | 5 => Some StartBackend
  | 6 => Some VerifyTarget | 7 => Some SwitchAuthority | 8 => Some VerifyServing
  | 9 => Some RestoreSource | 11 => Some InspectBackend | _ => None
  end%Z.

Definition step_i32 (s : StepKind) : Z :=
  match s with
  | StUnspecified => 0 | VerifyReleaseMetadata => 1 | VerifyProxy => 2 | StopBackend => 3
  | SelectRelease => 4 | StartBackend => 5 | VerifyTarget => 6 | SwitchAuthority => 7
  | VerifyServing => 8 | RestoreSource => 9 | InspectBackend => 11
  end.

Definition target_kind_try_from (v : Z) : option InstructionTargetKind :=
  match v with
  | 0 => Some TkUnspecified | 1 => Some TkProxy | 2 => Some TkEngineSlot
  | 3 => Some TkReleaseCleanup | _ => None
  end%Z.

Definition target_kind_i32 (k : InstructionTargetKind) : Z :=
  match k with TkUnspecified => 0 | TkProxy => 1 | TkEngineSlot => 2 | TkReleaseCleanup => 3 end.

Definition backend_try_from (v : Z) : option BackendProcessState :=
  match v with
  | 0 => Some BpUnspecified | 1 => Some BpRunning | 2 => Some BpExited | 3 => Some BpQueryError
  | _ => None
  end%Z.

Definition disposition_try_from (v : Z) : option BackendStopDisposition :=
  match v with 0 => Some DispUnknown | 1 => Some DispGraceful | 2 => Some DispForced | _ => None end%Z.

(** ** Messages *)

(** The revision, the bundle digest and the resolved digest that the columns and messages
    carry together. *)
Record Release : Type := mkRelease {
  rel_revision : Z;
  rel_digest : string;
  rel_resolved : string;
}.

Definition no_release : Release := mkRelease 0 "" "".

#[global] Instance Release_eq_dec : EqDecision Release.
Proof. solve_decision. Defined.

Inductive TargetIdentity : Type := ProxyIdentity | EngineSlotIdentity (engine_slot : string).

#[global] Instance TargetIdentity_eq_dec : EqDecision TargetIdentity.
Proof. solve_decision. Defined.

Record InstructionTarget : Type := mkInstructionTarget {
  it_kind : Z;
  it_release : Release;
  it_identity : option TargetIdentity;
}.

#[global] Instance InstructionTarget_eq_dec : EqDecision InstructionTarget.
Proof. solve_decision. Defined.

Record RolloutPolicy : Type := mkRolloutPolicy {
  rp_max_unavailable : Z;
  rp_allow_downtime : bool;
  rp_deadline_seconds : Z;
}.

#[global] Instance RolloutPolicy_eq_dec : EqDecision RolloutPolicy.
Proof. solve_decision. Defined.

Record BackendTerminationEvidence : Type := mkTermination {
  te_backend_instance_id : string;
  te_process_instance_id : string;
  te_graceful_termination_requested : bool;
  te_kill_escalated : bool;
  te_disposition : Z;
  te_terminal_result : string;
  te_exit_code : option Z;
  te_signal : option Z;
}.

#[global] Instance BackendTerminationEvidence_eq_dec : EqDecision BackendTerminationEvidence.
Proof. solve_decision. Defined.

Record SubmitOperationRequest : Type := mkSubmit {
  so_node_id : string;
  so_request_token : string;
  so_action : Z;
  so_target_revision : Z;
  so_bundle_digest : string;
  so_policy : option RolloutPolicy;
  so_resolved_release_digest : string;
  so_engine_slot : string;
}.

#[global] Instance SubmitOperationRequest_eq_dec : EqDecision SubmitOperationRequest.
Proof. solve_decision. Defined.

Record ReportStepResultRequest : Type := mkStepResult {
  sr_node_id : string;
  sr_operation_id : string;
  sr_lease_epoch : Z;
  sr_step : Z;
  sr_condition_code : string;
  sr_detail : string;
  sr_agent_instance_id : string;
  sr_observed : Release;
  sr_backend_instance_id : string;
  sr_process_instance_id : string;
  sr_backend_query_error : string;
  sr_target : option InstructionTarget;
  sr_termination_evidence : option BackendTerminationEvidence;
}.

#[global] Instance ReportStepResultRequest_eq_dec : EqDecision ReportStepResultRequest.
Proof. solve_decision. Defined.

(** [observed_at] of the request is not read: freshness is the manager's time. *)
Record ReportNodeObservationRequest : Type := mkNodeObservation {
  no_node_id : string;
  no_engine_slot : string;
  no_lifecycle : option LifecycleStatus;
  no_backend_state : Z;
  no_backend_instance_id : string;
  no_observed : Release;
  no_backend_query_error : string;
  no_operation_id : string;
  no_agent_instance_id : string;
  no_lease_epoch : Z;
}.

Record DeploymentCondition : Type := mkCondition { dc_code : string; dc_detail : string }.

Record EngineTargetDetails : Type := mkEngineDetails {
  etd_rollout_order : Z;
  etd_authoritative_revision : Z;
  etd_authority_switched : bool;
  etd_serving_converged : bool;
}.

Inductive TargetDetails : Type := ProxyDetails | EngineDetails (d : EngineTargetDetails).

(** The columns [effect_*]: what was delivered to the agent and what it reported of it. *)
Record Effect : Type := mkEffect {
  ef_delivered_at : option Z;
  ef_reported : bool;
  ef_observed : Release;
  ef_backend_instance_id : string;
  ef_process_instance_id : string;
  ef_condition_code : string;
  ef_detail : string;
  ef_ambiguous : bool;
  ef_termination_evidence : option BackendTerminationEvidence;
}.

Definition no_effect : Effect := mkEffect None false no_release "" "" "" "" false None.

Record OperationTargetProgress : Type := mkProgress {
  tp_kind : InstructionTargetKind;
  tp_identity : option TargetIdentity;
  tp_next_step : StepKind;
  tp_completed_steps : Z;
  tp_complete : bool;
  tp_conditions : list DeploymentCondition;
  tp_source : Release;
  tp_target : Release;
  tp_pinned_backend_instance_id : string;
  tp_pinned_process_instance_id : string;
  tp_changed : bool;
  tp_effect : Effect;
  tp_details : option TargetDetails;
  tp_transition : option DerivedTransition;
}.

Record NodeOperation : Type := mkOperation {
  op_operation_id : string;
  op_node_id : string;
  op_request_token : string;
  op_actor : string;
  op_action : NodeOperationAction;
  op_state : NodeOperationState;
  op_policy : option RolloutPolicy;
  op_source_revision : Z;
  op_target : Release;
  op_revision_digest : string;
  op_targets : list OperationTargetProgress;
  op_committed : bool;
  op_lease_epoch : Z;
  op_lease_expires_at : option Z;
  op_created_at : Z;
  op_conditions : list DeploymentCondition;
  op_phase : NodeOperationPhase;
  op_forward_deadline : Z;
  op_forward_fenced : bool;
  op_restoration_requested : bool;
  op_agent_instance_id : string;
  op_restoration_terminal_state : NodeOperationState;
}.

Record SlotObservation : Type := mkSlotObservation {
  so_obs_node_id : string;
  so_obs_engine_slot : string;
  so_obs_lifecycle : option LifecycleStatus;
  so_obs_backend_state : BackendProcessState;
  so_obs_backend_instance_id : string;
  so_obs_observed : Release;
  so_obs_observed_at : Z;
  so_obs_backend_query_error : string;
  so_obs_operation_id : string;
  so_obs_agent_instance_id : string;
  so_obs_lease_epoch : Z;
  so_obs_termination_evidence : option BackendTerminationEvidence;
}.

Record AgentInstruction : Type := mkInstruction {
  ai_operation_id : string;
  ai_node_id : string;
  ai_lease_epoch : Z;
  ai_step : StepKind;
  ai_operation_deadline : option Z;
  ai_agent_instance_id : string;
  ai_target : InstructionTarget;
  ai_pinned_backend_instance_id : string;
  ai_pinned_process_instance_id : string;
  ai_restoration : bool;
  ai_revision_digest : string;
}.

Definition LEASE_SECONDS : Z := 15.
Definition EVIDENCE_FRESH_SECONDS : Z := 15.

(** PostgreSQL's errors, their text abridged. *)
Definition database_error : Status := rpc_status CInternal "database operation failed".
Definition aborted (m : string) : Status := rpc_status CAborted m.
Definition deadline_exceeded (m : string) : Status := rpc_status CDeadlineExceeded m.

Definition operation_condition (code detail : string) : DeploymentCondition := mkCondition code detail.

(** ** Stored names *)

Definition action_name (a : NodeOperationAction) : string :=
  match a with
  | ActDeployment => "deployment" | ActRestart => "restart" | ActRollback => "rollback"
  | ActUnspecified => "unspecified"
  end.

Definition parse_action (value : string) : result Status NodeOperationAction :=
  if String.eqb value "deployment" then Ok ActDeployment
  else if String.eqb value "restart" then Ok ActRestart
  else if String.eqb value "rollback" then Ok ActRollback
  else Err (internal "stored operation has an invalid action").

Definition parse_state (value : string) : result Status NodeOperationState :=
  if String.eqb value "queued" then Ok OpQueued
  else if String.eqb value "running" then Ok OpRunning
  else if String.eqb value "paused" then Ok OpPaused
  else if String.eqb value "succeeded" then Ok OpSucceeded
  else if String.eqb value "failed" then Ok OpFailed
  else if String.eqb value "cancelled" then Ok OpCancelled
  else Err (internal "stored operation has an invalid state").

Definition parse_phase (value : string) : result Status NodeOperationPhase :=
  if String.eqb value "forward" then Ok PhForward
  else if String.eqb value "restoring_source" then Ok PhRestoringSource
  else if String.eqb value "committing" then Ok PhCommitting
  else if String.eqb value "complete" then Ok PhComplete
  else Err (internal "stored operation has an invalid phase").

Definition step_name (s : StepKind) : string :=
  match s with
  | VerifyReleaseMetadata => "verify_release_metadata"
  | VerifyProxy => "verify_proxy"
  | StopBackend => "stop_backend"
  | SelectRelease => "select_release"
  | StartBackend => "start_backend"
  | VerifyTarget => "verify_target"
  | SwitchAuthority => "switch_authority"
  | VerifyServing => "verify_serving"
  | RestoreSource => "restore_source"
  | InspectBackend => "inspect_backend"
  | StUnspecified => "complete"
  end.

Definition parse_step (value : string) : result Status StepKind :=
  if String.eqb value "verify_release_metadata" then Ok VerifyReleaseMetadata
  else if String.eqb value "verify_proxy" then Ok VerifyProxy
  else if String.eqb value "stop_backend" then Ok StopBackend
  else if String.eqb value "select_release" then Ok SelectRelease
  else if String.eqb value "start_backend" then Ok StartBackend
  else if String.eqb value "verify_target" then Ok VerifyTarget
  else if String.eqb value "switch_authority" then Ok SwitchAuthority
  else if String.eqb value "verify_serving" then Ok VerifyServing
  else if String.eqb value "restore_source" then Ok RestoreSource
  else if String.eqb value "inspect_backend" then Ok InspectBackend
  else if String.eqb value "complete" then Ok StUnspecified
  else Err (internal "stored operation has an invalid step").

(** [DerivedTransition::name]. *)
Definition transition_name (t : DerivedTransition) : string :=
  match t with
  | Addition => "addition" | Replacement => "replacement" | Unchanged => "unchanged"
  | Removal => "removal" | Restart => "restart"
  end.

Definition parse_transition (value : string) : result Status DerivedTransition :=
  if String.eqb value "addition" then Ok Addition
  else if String.eqb value "replacement" then Ok Replacement
  else if String.eqb value "unchanged" then Ok Unchanged
  else if String.eqb value "removal" then Ok Removal
  else if String.eqb value "restart" then Ok Restart
  else Err (internal "stored operation target has an invalid transition kind").

(** ** Targets and their steps *)

Definition target_step_compatible (kind : InstructionTargetKind) (step : StepKind) : bool :=
  match kind with
  | TkProxy =>
      match step with
      | InspectBackend | VerifyTarget | VerifyProxy | StopBackend | SelectRelease | StartBackend
      | RestoreSource | StUnspecified => true
      | _ => false
      end
  | TkEngineSlot =>
      match step with
      | VerifyReleaseMetadata | InspectBackend | StopBackend | SelectRelease | StartBackend
      | VerifyTarget | SwitchAuthority | VerifyServing | RestoreSource | StUnspecified => true
      | _ => false
      end
  | TkUnspecified | TkReleaseCleanup => false
  end.

Definition stop_evidence_condition (request : ReportStepResultRequest) (step : StepKind)
    (pinned_backend pinned_process : string) : option (string * string) :=
  if negb (bool_decide (step = StopBackend)) then None
  else if str_is_empty pinned_backend || str_is_empty pinned_process
       || negb (String.eqb (sr_backend_instance_id request) pinned_backend)
       || negb (String.eqb (sr_process_instance_id request) pinned_process) then
    Some ("STOP_IDENTITY_MISMATCH",
          "stop result must identify the exact pinned backend and process instances")
  else
    match sr_termination_evidence request with
    | None =>
        Some ("TERMINATION_EVIDENCE_MISSING",
              "successful stop result requires typed termination evidence")
    | Some evidence =>
        if negb (String.eqb (te_backend_instance_id evidence) (sr_backend_instance_id request))
           || negb (String.eqb (te_process_instance_id evidence) (sr_process_instance_id request)) then
          Some ("TERMINATION_EVIDENCE_MISMATCH",
                "termination evidence must identify the reported backend and process instances")
        else if negb (te_graceful_termination_requested evidence) || te_kill_escalated evidence
                || negb (bool_decide
                     (default DispUnknown (disposition_try_from (te_disposition evidence)) = DispGraceful)) then
          Some ("TERMINATION_NOT_GRACEFUL",
                "stop result does not prove graceful termination without escalation")
        else None
    end.

Definition instruction_target_key (target : InstructionTarget) : result Status (string * string) :=
  match default TkUnspecified (target_kind_try_from (it_kind target)), it_identity target with
  | TkProxy, Some ProxyIdentity => Ok ("proxy", "proxy")
  | TkEngineSlot, Some (EngineSlotIdentity slot) =>
      if negb (str_is_empty slot) && negb (String.eqb slot "proxy") then Ok ("engine_slot", slot)
      else Err (invalid_argument "target kind and identity mismatch")
  | _, _ => Err (invalid_argument "target kind and identity mismatch")
  end.

Definition target_key (target : OperationTargetProgress) : result Status (string * string) :=
  match tp_kind target, tp_identity target, tp_details target with
  | TkProxy, Some ProxyIdentity, Some ProxyDetails => Ok ("proxy", "proxy")
  | TkEngineSlot, Some (EngineSlotIdentity slot), Some (EngineDetails _) =>
      if negb (str_is_empty slot) then Ok ("engine_slot", slot)
      else Err (internal "operation target kind, identity, and details mismatch")
  | _, _, _ => Err (internal "operation target kind, identity, and details mismatch")
  end.

Definition engine_slot (target : OperationTargetProgress) : result Status string :=
  let? (kind, key) := target_key target in
  ensure? String.eqb kind "engine_slot" else internal "expected an engine operation target" in
  Ok key.

Definition engine_details (target : OperationTargetProgress) : result Status EngineTargetDetails :=
  match tp_details target with
  | Some (EngineDetails d) => Ok d
  | _ => Err (internal "engine target detail is missing")
  end.

Definition proxy_target (operation : NodeOperation) : result Status OperationTargetProgress :=
  match List.find (λ t, bool_decide (tp_kind t = TkProxy)) (op_targets operation) with
  | Some t => Ok t
  | None => Err (internal "operation proxy target is missing")
  end.

Definition restore_engine_slots_before_proxy (operation : NodeOperation) : bool :=
  bool_decide (op_phase operation = PhRestoringSource) && (op_source_revision operation =? 0)%Z.

(** ** Slots of an operation *)

Record OperationSlotProgress : Type := mkSlot {
  sl_engine_slot : string;
  sl_transition : DerivedTransition;
  sl_authoritative_revision : Z;
  sl_next_step : StepKind;
  sl_complete : bool;
  sl_source : Release;
  sl_target : Release;
  sl_pinned_backend_instance_id : string;
  sl_pinned_process_instance_id : string;
  sl_effect : Effect;
  sl_rollout_order : Z;
}.

Definition slot_of_target (target : OperationTargetProgress) : result Status OperationSlotProgress :=
  let? details := engine_details target in
  let? slot := engine_slot target in
  match tp_transition target with
  | None => Err (internal "engine target transition is missing")
  | Some transition =>
      Ok (mkSlot slot transition (etd_authoritative_revision details) (tp_next_step target)
            (tp_complete target) (tp_source target) (tp_target target)
            (tp_pinned_backend_instance_id target) (tp_pinned_process_instance_id target)
            (tp_effect target) (etd_rollout_order details))
  end.

(** [map(..).collect::<Result<Vec<_>, _>>()]. *)
Fixpoint collect_results {E A B} (f : A → result E B) (l : list A) : result E (list B) :=
  match l with
  | [] => Ok []
  | x :: l => let? y := f x in let? rest := collect_results f l in Ok (y :: rest)
  end.

Definition operation_slots (operation : NodeOperation) : result Status (list OperationSlotProgress) :=
  collect_results slot_of_target
    (List.filter (λ t, bool_decide (tp_kind t = TkEngineSlot)) (op_targets operation)).

(** ** Transitions *)

Definition derive_transition (source target : Release) : DerivedTransition :=
  match (0 <? rel_revision source)%Z, (0 <? rel_revision target)%Z with
  | false, true => Addition
  | true, false => Removal
  | true, true => if bool_decide (source = target) then Unchanged else Replacement
  | false, false => Unchanged
  end.

Definition validate_stored_transition (action : NodeOperationAction) (stored : DerivedTransition)
    (target : OperationTargetProgress) : result Status () :=
  let? expected :=
    match action with
    | ActRestart =>
        if (rel_revision (tp_source target) <=? 0)%Z
           || negb (bool_decide (tp_source target = tp_target target)) then
          Err (internal "stored restart transition changes immutable desired identity")
        else Ok Restart
    | ActDeployment | ActRollback => Ok (derive_transition (tp_source target) (tp_target target))
    | ActUnspecified => Err (internal "stored operation has an invalid action")
    end in
  ensure? bool_decide (stored = expected)
    else internal "stored operation transition conflicts with immutable target snapshots" in
  Ok ().

Definition first_forward_step (transition : DerivedTransition) : option StepKind :=
  match transition with
  | Addition | Replacement => Some VerifyReleaseMetadata
  | Removal | Restart => Some VerifyTarget
  | Unchanged => None
  end.

Definition next_forward_step (transition : DerivedTransition) (step : StepKind) : option StepKind :=
  match transition, step with
  | Addition, VerifyReleaseMetadata => Some SelectRelease
  | Replacement, VerifyReleaseMetadata => Some VerifyTarget
  | Removal, StopBackend => Some SwitchAuthority
  | Restart, StopBackend => Some StartBackend
  | Replacement, StopBackend => Some SelectRelease
  | (Addition | Replacement), SelectRelease => Some StartBackend
  | (Addition | Replacement), StartBackend | Restart, StartBackend => Some VerifyTarget
  | (Addition | Replacement), SwitchAuthority => Some VerifyServing
  | _, _ => None
  end.
