(* ===== verification/NodeStatus.v ===== *)
(** * Evidence about a node (wr-manager/src/db.rs, operations.rs)

    One transaction captures what the tables say of deployments, registrations, heartbeats,
    routes, slot authorities, operations and observations; everything an operation decides is
    a function of that snapshot. Of the snapshot's records and of the messages in them only
    what is read here is kept. *)

From stdpp Require Import pretty.
From S2P Require Import Prelude RustStr Lists Orders Grpc Lifecycle IndexedRouting Deployment Rollout Operations.

Record DeploymentRecord : Type := mkDeploymentRecord {
  dr_node_id : string;
  dr_revision : Z;
  dr_bundle_digest : string;
  dr_inventory : option DeploymentInventoryV1;
  dr_revision_digest : string;
  dr_operation_id : string;
}.

Record StatusDeploymentRecord : Type := mkStatusDeployment {
  sd_record : DeploymentRecord;
  sd_current_revision : Z;
  sd_target_revision : option Z;
}.

Record DeploymentMetadata : Type := mkMetadata {
  md_node_id : string;
  md_revision : Z;
  md_bundle_digest : string;
  md_engine_slot : string;
}.

Record EngineRegistration : Type := mkRegistration {
  er_engine_id : string;
  er_modules : list ModuleIdentity;
  er_deployment : option DeploymentMetadata;
}.

Record StatusEngineRecord : Type := mkStatusEngine {
  se_registration : EngineRegistration;
  se_last_heartbeat : Z;
}.

Record StatusModuleHeartbeat : Type := mkModuleHeartbeat {
  mh_engine_id : string;
  mh_module : ModuleIdentity;
  mh_last_healthy : Z;
}.

Record StatusSlotAuthority : Type := mkSlotAuthority {
  sa_node_id : string;
  sa_engine_slot : string;
  sa_revision : Z;
}.

Record ClusterStatusSnapshot : Type := mkSnapshot {
  cs_observed_at : Z;
  cs_deployments : list StatusDeploymentRecord;
  cs_engines : list StatusEngineRecord;
  cs_module_heartbeats : list StatusModuleHeartbeat;
  cs_routes : list RoutingRule;
  cs_slot_authorities : list StatusSlotAuthority;
  cs_active_operations : list NodeOperation;
  cs_observations : list SlotObservation;
}.

#[global] Instance ModuleIdentity_eq_dec : EqDecision ModuleIdentity.
Proof. solve_decision. Defined.

(** ** Conditions of a deployment *)

(** [Duration::num_milliseconds] truncates towards zero. *)
Definition fresh (observed_at timestamp timeout_millis : Z) : bool :=
  (Z.quot (observed_at - timestamp) 1000000 <=? timeout_millis)%Z.

(** A registration of the node's slot, and one of exactly this deployment. *)
Definition in_slot (node slot : string) (e : StatusEngineRecord) : bool :=
  match er_deployment (se_registration e) with
  | None => false
  | Some m => String.eqb (md_node_id m) node && String.eqb (md_engine_slot m) slot
  end.

Definition of_revision (revision : Z) (digest : string) (e : StatusEngineRecord) : bool :=
  match er_deployment (se_registration e) with
  | None => false
  | Some m => (md_revision m =? revision)%Z && String.eqb (md_bundle_digest m) digest
  end.

Definition other_revision (revision : Z) (e : StatusEngineRecord) : bool :=
  match er_deployment (se_registration e) with
  | None => false
  | Some m => negb (md_revision m =? revision)%Z
  end.

Definition slot_module (slot : string) (m : ModuleIdentity) : string :=
  "engine slot '" +:+ slot +:+ "' module " +:+ mid_namespace m +:+ "." +:+ mid_name m +:+ "@"
  +:+ mid_version m.

Definition module_condition (snapshot : ClusterStatusSnapshot) (module_timeout_millis : Z)
    (slot : string) (engine : EngineRegistration) (expected : ExpectedModule) :
    list (string * string) :=
  match em_identity expected with
  | None => [("INVALID_INVENTORY", "expected module identity is missing")]
  | Some m =>
      if negb (existsb (λ a, bool_decide (a = m)) (er_modules engine)) then
        [("MISSING_MODULE",
          "engine slot '" +:+ slot +:+ "' does not advertise " +:+ mid_namespace m +:+ "."
          +:+ mid_name m +:+ "@" +:+ mid_version m)]
      else
        match List.find (λ h, String.eqb (mh_engine_id h) (er_engine_id engine)
                              && bool_decide (mh_module h = m)) (cs_module_heartbeats snapshot) with
        | None => [("MISSING_MODULE_HEARTBEAT", slot_module slot m +:+ " has no heartbeat")]
        | Some h =>
            if negb (fresh (cs_observed_at snapshot) (mh_last_healthy h) module_timeout_millis) then
              [("STALE_MODULE_HEARTBEAT", slot_module slot m +:+ " is not fresh")]
            else
              let default_rule := er_engine_id engine +:+ "/" +:+ mid_namespace m +:+ "/"
                                  +:+ mid_name m +:+ "/" +:+ mid_version m in
              match List.find (λ r, String.eqb (rule_id r) default_rule
                                    && String.eqb (engine_id r) (er_engine_id engine)
                                    && String.eqb (destination_namespace r) (mid_namespace m)
                                    && String.eqb (destination_module r) (mid_name m)
                                    && String.eqb (destination_version r) (mid_version m))
                      (cs_routes snapshot) with
              | None => [("MISSING_ROUTE", slot_module slot m +:+ " has no default route")]
              | Some r =>
                  if healthy r then []
                  else [("UNHEALTHY_ROUTE", slot_module slot m +:+ " default route is unhealthy")]
              end
        end
  end.

Definition engine_conditions (snapshot : ClusterStatusSnapshot) (deployment : DeploymentRecord)
    (engine_timeout_millis module_timeout_millis : Z) (expected : ExpectedEngine) :
    list (string * string) :=
  let slot := ee_engine_slot expected in
  let same_slot := List.filter (in_slot (dr_node_id deployment) slot) (cs_engines snapshot) in
  let exact :=
    List.filter (of_revision (dr_revision deployment) (dr_bundle_digest deployment)) same_slot in
  match exact with
  | [] =>
      [(match same_slot with
        | [] => "MISSING_ENGINE"
        | _ => if existsb (other_revision (dr_revision deployment)) same_slot
               then "REVISION_MISMATCH" else "DIGEST_MISMATCH"
        end,
        "engine slot '" +:+ slot +:+ "' has no matching activated registration")]
  | _ =>
      match List.filter (λ e, fresh (cs_observed_at snapshot) (se_last_heartbeat e)
                                engine_timeout_millis) exact with
      | [] =>
          [("STALE_ENGINE_HEARTBEAT",
            "engine slot '" +:+ slot +:+ "' has no fresh matching registration")]
      | [engine] =>
          m ← ee_modules expected;
          module_condition snapshot module_timeout_millis slot (se_registration engine) m
      | fresh_engines =>
          [("DUPLICATE_ENGINE_SLOT",
            "engine slot '" +:+ slot +:+ "' has " +:+ pretty (length fresh_engines)
            +:+ " fresh matching registrations")]
      end
  end.

(** [{:?}] of an [Option<u64>]. *)
Definition debug_option (v : option Z) : string :=
  match v with None => "None" | Some v => "Some(" +:+ pretty v +:+ ")" end.

Definition deployment_conditions_from_snapshot (snapshot : ClusterStatusSnapshot)
    (deployment : DeploymentRecord) (engine_timeout_millis module_timeout_millis : Z) :
    result Status (list (string * string)) :=
  match List.find (λ c, String.eqb (dr_node_id (sd_record c)) (dr_node_id deployment))
          (cs_deployments snapshot) with
  | None => Err (not_found ("node '" +:+ dr_node_id deployment +:+ "' not found"))
  | Some c =>
      if negb (sd_current_revision c =? dr_revision deployment)%Z
         && negb (bool_decide (sd_target_revision c = Some (dr_revision deployment))) then
        Ok [("NON_AUTHORITATIVE_REVISION",
             "revision " +:+ pretty (dr_revision deployment) +:+ " is neither committed revision "
             +:+ pretty (sd_current_revision c) +:+ " nor staged target "
             +:+ debug_option (sd_target_revision c))]
      else
        let expected_engines :=
          match dr_inventory deployment with Some i => di_engines i | None => [] end in
        Ok (sort_by (pair_cmp str_cmp str_cmp)
              (e ← expected_engines;
               engine_conditions snapshot deployment engine_timeout_millis module_timeout_millis e))
  end.

(** ** Observations and registrations *)

Definition observation_is_fresh (snapshot : ClusterStatusSnapshot) (o : SlotObservation) : bool :=
  (cs_observed_at snapshot - so_obs_observed_at o <=? from_secs EVIDENCE_FRESH_SECONDS)%Z.

Definition observation_after_delivery (o : SlotObservation) (delivered_at : option Z) : bool :=
  match delivered_at with None => false | Some d => (d <? so_obs_observed_at o)%Z end.

Definition matching_observation (snapshot : ClusterStatusSnapshot) (operation : NodeOperation)
    (slot : string) : option SlotObservation :=
  List.find (λ o, String.eqb (so_obs_node_id o) (op_node_id operation)
                  && String.eqb (so_obs_engine_slot o) slot
                  && String.eqb (so_obs_operation_id o) (op_operation_id operation)
                  && String.eqb (so_obs_agent_instance_id o) (op_agent_instance_id operation)
                  && (so_obs_lease_epoch o =? op_lease_epoch operation)%Z
                  && observation_is_fresh snapshot o)
    (cs_observations snapshot).

Record ReadyExpectation : Type := mkReady {
  re_service_kind : ServiceKind;
  re_revision : Z;
  re_digest : string;
  re_previous_backend : string;
  re_previous_process : string;
  re_reported_backend : string;
  re_reported_process : string;
}.

Definition observation_ready (snapshot : ClusterStatusSnapshot) (o : SlotObservation)
    (expected : ReadyExpectation) : bool :=
  if negb (observation_is_fresh snapshot o)
     || negb (bool_decide (so_obs_backend_state o = BpRunning))
     || str_is_empty (so_obs_backend_instance_id o)
     || negb (str_is_empty (so_obs_backend_query_error o))
     || negb (rel_revision (so_obs_observed o) =? re_revision expected)%Z
     || negb (String.eqb (rel_digest (so_obs_observed o)) (re_digest expected))
     || (negb (str_is_empty (re_previous_backend expected))
         && String.eqb (so_obs_backend_instance_id o) (re_previous_backend expected))
     || (negb (str_is_empty (re_reported_backend expected))
         && negb (String.eqb (so_obs_backend_instance_id o) (re_reported_backend expected)))
  then false
  else
    match so_obs_lifecycle o with
    | None => false
    | Some status =>
        (ls_state status =? wire_process_state PReady)%Z
        && (ls_service_kind status =? wire_service_kind (re_service_kind expected))%Z
        && negb (str_is_empty (ls_process_instance_id status))
        && (str_is_empty (re_previous_process expected)
            || negb (String.eqb (ls_process_instance_id status) (re_previous_process expected)))
        && (str_is_empty (re_reported_process expected)
            || String.eqb (ls_process_instance_id status) (re_reported_process expected))
    end.

Definition exact_registration_count (snapshot : ClusterStatusSnapshot) (node slot : string)
    (revision : Z) (digest : string) : nat :=
  length (List.filter
    (λ e, in_slot node slot e && of_revision revision digest e
          && (cs_observed_at snapshot - se_last_heartbeat e <=? from_secs EVIDENCE_FRESH_SECONDS)%Z)
    (cs_engines snapshot)).

(** A registration of the node's slot at the revision, whatever its digest and age. *)
Definition registered_at (node slot : string) (revision : Z) (e : StatusEngineRecord) : bool :=
  match er_deployment (se_registration e) with
  | None => false
  | Some m =>
      String.eqb (md_node_id m) node && String.eqb (md_engine_slot m) slot
      && (md_revision m =? revision)%Z
  end.

Definition exact_registration_absent (snapshot : ClusterStatusSnapshot) (node slot : string)
    (revision : Z) : bool :=
  negb (existsb (registered_at node slot revision) (cs_engines snapshot)).

(** ** Routes *)

Definition slot_routes_healthy (snapshot : ClusterStatusSnapshot) (node slot : string)
    (revision : Z) (digest : string) : result Status bool :=
  match List.find (λ c, String.eqb (dr_node_id (sd_record c)) node
                        && (dr_revision (sd_record c) =? revision)%Z
                        && String.eqb (dr_bundle_digest (sd_record c)) digest)
          (cs_deployments snapshot) with
  | None => Ok false
  | Some candidate =>
      let d := sd_record candidate in
      match dr_inventory d with
      | None => Ok false
      | Some inventory =>
          let kept := List.filter (λ e, String.eqb (ee_engine_slot e) slot) (di_engines inventory) in
          if negb (length kept =? 1)%nat then Ok false
          else
            let selected :=
              List.find (λ a, String.eqb (sa_node_id a) node && String.eqb (sa_engine_slot a) slot)
                (cs_slot_authorities snapshot) in
            if match selected with Some a => negb (sa_revision a =? revision)%Z | None => false end
            then Ok false
            else
              let deployment :=
                mkDeploymentRecord (dr_node_id d) (dr_revision d) (dr_bundle_digest d)
                  (Some (mkInventory (di_schema_version inventory) kept)) (dr_revision_digest d)
                  (dr_operation_id d) in
              let? conditions :=
                deployment_conditions_from_snapshot snapshot deployment
                  (EVIDENCE_FRESH_SECONDS * 1000) (EVIDENCE_FRESH_SECONDS * 1000) in
              Ok (match conditions with [] => true | _ => false end)
      end
  end.

Definition old_routes_non_serving (snapshot : ClusterStatusSnapshot) (node slot : string)
    (revision : Z) : bool :=
  let old_engine_ids :=
    er_engine_id ∘ se_registration <$> List.filter (registered_at node slot revision) (cs_engines snapshot) in
  forallb (λ r, negb (healthy r))
    (List.filter (λ r, bool_decide (engine_id r ∈ old_engine_ids)) (cs_routes snapshot)).

(** ** Availability *)

(** The slots of the node with the release that each should serve: the committed inventory,
    overridden by what the operation has made authoritative. *)
Definition committed_slots (snapshot : ClusterStatusSnapshot) (node : string) :
    gmap string (Z * string) :=
  match List.find (λ d, String.eqb (dr_node_id (sd_record d)) node
                        && (dr_revision (sd_record d) =? sd_current_revision d)%Z)
          (cs_deployments snapshot) with
  | None => ∅
  | Some current =>
      let r := sd_record current in
      foldl (λ m e, <[ee_engine_slot e := (dr_revision r, dr_bundle_digest r)]> m) ∅
        (match dr_inventory r with Some i => di_engines i | None => [] end)
  end.

Definition override_slot (m : gmap string (Z * string)) (s : OperationSlotProgress) :
    gmap string (Z * string) :=
  if (sl_authoritative_revision s =? 0)%Z then delete (sl_engine_slot s) m
  else
    let digest := if (sl_authoritative_revision s =? rel_revision (sl_source s))%Z
                  then rel_digest (sl_source s) else rel_digest (sl_target s) in
    <[sl_engine_slot s := (sl_authoritative_revision s, digest)]> m.

(** Counts the healthy slots, and finds whether [slot] is one of them; [BTreeMap] iterates in
    the order of the keys, so the first error is that of the least slot. *)
Fixpoint count_healthy (snapshot : ClusterStatusSnapshot) (node slot : string)
    (l : list (string * (Z * string))) : result Status (Z * bool) :=
  match l with
  | [] => Ok (0%Z, false)
  | (candidate, (revision, digest)) :: rest =>
      let? slot_healthy := slot_routes_healthy snapshot node candidate revision digest in
      let? (healthy, selected) := count_healthy snapshot node slot rest in
      Ok ((Z.b2z slot_healthy + healthy)%Z,
          if String.eqb candidate slot then slot_healthy else selected)
  end.

Definition stop_preserves_availability (snapshot : ClusterStatusSnapshot) (operation : NodeOperation)
    (slot : string) (policy : RolloutPolicy) : result Status bool :=
  let? slots := operation_slots operation in
  let authoritative := foldl override_slot (committed_slots snapshot (op_node_id operation)) slots in
  let desired := Z.of_nat (size authoritative) in
  let? (healthy, selected_slot_healthy) :=
    count_healthy snapshot (op_node_id operation) slot
      (sort_by (λ a b, str_cmp a.1 b.1) (map_to_list authoritative)) in
  let projected_healthy := (healthy - Z.b2z selected_slot_healthy)%Z in
  let unavailable := (desired - projected_healthy)%Z in
  Ok ((rp_allow_downtime policy || (0 <? projected_healthy)%Z)
      && (unavailable <=? rp_max_unavailable policy)%Z).

(** ** The proxy that status reports expect *)

Record ProxyDeploymentMetadata : Type := mkProxyMetadata {
  pm_node_id : string;
  pm_revision : Z;
  pm_bundle_digest : string;
  pm_operation_id : string;
  pm_revision_digest : string;
}.

Record ExpectedProxyProjection : Type := mkProjection {
  pp_deployment : option ProxyDeploymentMetadata;
  pp_pinned_process_instance_id : string;
  pp_ambiguous : bool;
}.

Definition proxy_deployment_metadata (d : DeploymentRecord) : ProxyDeploymentMetadata :=
  mkProxyMetadata (dr_node_id d) (dr_revision d) (dr_bundle_digest d) (dr_operation_id d)
    (dr_revision_digest d).

Definition projects_source (operation : NodeOperation) (target : OperationTargetProgress) : bool :=
  bool_decide (op_phase operation = PhRestoringSource)
  || (negb (tp_complete target)
      && match tp_next_step target with
         | VerifyReleaseMetadata | VerifyTarget | InspectBackend | StopBackend | SelectRelease => true
         | _ => false
         end).

Definition expected_proxy_projection (deployments : list DeploymentRecord)
    (committed : option DeploymentRecord) (operation : option NodeOperation) :
    result Status ExpectedProxyProjection :=
  match operation with
  | None => Ok (mkProjection (proxy_deployment_metadata <$> committed) "" false)
  | Some operation =>
      let? target := proxy_target operation in
      let revision := rel_revision (if projects_source operation target then tp_source target
                                    else tp_target target) in
      let deployment :=
        proxy_deployment_metadata <$>
          List.find (λ d, String.eqb (dr_node_id d) (op_node_id operation)
                          && (dr_revision d =? revision)%Z) deployments in
      let paused := bool_decide (op_state operation = OpPaused) in
      let e := tp_effect target in
      let pinned :=
        if (rel_revision (ef_observed e) =? revision)%Z && negb (str_is_empty (ef_process_instance_id e))
        then ef_process_instance_id e else "" in
      Ok (mkProjection deployment pinned (paused && ef_ambiguous e))
  end.
