(* ===== verification/NodeTables.v ===== *)
(** * Node operations: tables and transactions (wr-manager/migrations/V1__initial.sql)

    A table is the list of its rows; [UPDATE] maps it, [INSERT] appends, [ORDER BY] sorts.
    The statements of one transaction are chained by a monad of fallible state functions; an
    error rolls the transaction back. A statement that would break a [CHECK] or a unique index
    of [wr_node_operations] or [wr_node_operation_targets] fails. Foreign keys are not written out:
    no row they refer to is ever deleted. [now] is the transaction's [NOW()]. *)

From S2P Require Import Prelude RustStr Utf8 Lists Orders Externals Grpc Lifecycle IndexedRouting Deployment Rollout Schedule Operations NodeStatus.

(** ** Rows *)

Record NodeRow : Type := mkNodeRow {
  nr_node_id : string;
  nr_current_revision : Z;
  nr_target_revision : option Z;
}.

Record DeploymentRow : Type := mkDeploymentRow {
  dp_node_id : string;
  dp_revision : Z;
  dp_attempt_token : string;
  dp_bundle_digest : string;
  dp_inventory : DeploymentInventoryV1;
  dp_state : string;
  dp_allocation_actor : option string;
  dp_abandoned_at : option Z;
  dp_operation_id : option Uuid;
  dp_resolved_release_digest : string;
  dp_finalized_at : option Z;
  dp_allocated_by : string;
  dp_revision_digest : string;
  dp_source_revision : Z;
}.

(** [lease_expires_at], [claimed_by] and [agent_instance_id]. *)
Record Lease : Type := mkLease {
  le_expires_at : option Z;
  le_claimed_by : option string;
  le_agent_instance_id : option string;
}.

Definition no_lease : Lease := mkLease None None None.

(** [wr_node_operations], without [updated_at]; [request_payload] is the request. *)
Record OperationRow : Type := mkOperationRow {
  or_operation_id : Uuid;
  or_node_id : string;
  or_request_token : string;
  or_actor : string;
  or_action : string;
  or_state : string;
  or_phase : string;
  or_request : SubmitOperationRequest;
  or_policy : RolloutPolicy;
  or_source_revision : Z;
  or_target : Release;
  or_target_revision_digest : option string;
  or_committed_at : option Z;
  or_committed : bool;
  or_lease_epoch : Z;
  or_lease : Lease;
  or_failure : string * string;
  or_created_at : Z;
  or_forward_deadline : Z;
  or_forward_fenced : bool;
  or_restoration_requested : bool;
  or_restoration_terminal_state : option string;
}.

(** [wr_node_operation_engine_target_details]. *)
Record EngineDetailRow : Type := mkDetailRow {
  ed_rollout_order : Z;
  ed_authoritative_revision : Z;
  ed_authority_switched : bool;
  ed_serving_converged : bool;
  ed_transition_kind : string;
}.

(** [wr_node_operation_targets] with the detail row that a trigger requires of every engine
    target. *)
Record TargetRow : Type := mkTargetRow {
  tr_operation_id : Uuid;
  tr_node_id : string;
  tr_kind : string;
  tr_key : string;
  tr_next_step : string;
  tr_completed_steps : Z;
  tr_complete : bool;
  tr_condition : string * string;
  tr_source : Release;
  tr_target : Release;
  tr_pinned_backend_instance_id : string;
  tr_pinned_process_instance_id : string;
  tr_changed : bool;
  tr_effect : Effect;
  tr_detail : option EngineDetailRow;
}.

Record OperationEvent : Type := mkOperationEvent {
  oe_operation_id : Uuid;
  oe_actor : string;
  oe_code : string;
  oe_detail : string;
  oe_lease_epoch : Z;
}.

(** [wr_node_operation_result_receipts]: its primary key is all but the last two columns. *)
Record ReceiptKey : Type := mkReceiptKey {
  rk_operation_id : Uuid;
  rk_node_id : string;
  rk_agent_instance_id : string;
  rk_lease_epoch : Z;
  rk_step : Z;
  rk_target_kind : string;
  rk_target_key : string;
}.

Record ReceiptRow : Type := mkReceipt {
  rc_key : ReceiptKey;
  rc_authenticated_principal : string;
  rc_result : ReportStepResultRequest;
}.

#[global] Instance ReceiptKey_eq_dec : EqDecision ReceiptKey.
Proof. solve_decision. Defined.

Record AuthorityRow : Type := mkAuthority {
  au_node_id : string;
  au_engine_slot : string;
  au_revision : Z;
  au_authoritative : bool;
  au_resolved_release_digest : string;
}.

Record ObservationRow : Type := mkObservationRow {
  ob_node_id : string;
  ob_engine_slot : string;
  ob_lifecycle : option LifecycleStatus;
  ob_backend_state : string;
  ob_backend_instance_id : string;
  ob_observed : Release;
  ob_observed_at : Z;
  ob_backend_query_error : string;
  ob_operation_id : option Uuid;
  ob_agent_instance_id : string;
  ob_lease_epoch : Z;
}.

(** [wr_node_agent_policies] and [wr_node_agent_attestations]. *)
Record AgentPolicyRow : Type := mkAgentPolicy {
  ap_node_id : string;
  ap_protocol_version : string;
  ap_retention_count : Z;
  ap_actor : string;
  ap_binary_digest : string;
  ap_capabilities : list string;
}.

Record AttestationRow : Type := mkAttestation {
  at_node_id : string;
  at_agent_instance_id : string;
  at_authenticated_principal : string;
  at_protocol_version : string;
  at_binary_digest : string;
  at_capabilities : list string;
  at_observed_at : Z;
}.

(** [wr_engines]: the registration and the columns that repeat its deployment. *)
Record EngineRow : Type := mkEngineRow {
  en_registration : EngineRegistration;
  en_last_heartbeat : Z;
  en_deployment_node_id : option string;
  en_deployment_engine_slot : option string;
  en_deployment_revision : option Z;
}.

(** [NodeCleanupAuthority]: what an agent may delete, of what it is known to hold. *)
Record CleanupAuthority : Type := mkCleanupAuthority {
  ca_delete_releases : list Release;
  ca_known_inventory : list Release;
}.

(** [wr_node_release_cleanup], without [delivered_at] and [last_attempt_at], which no
    statement reads; of [known_inventory] the releases are kept. *)
Record CleanupRow : Type := mkCleanup {
  cl_node_id : string;
  cl_generation : Z;
  cl_state : string;
  cl_protection_fingerprint : string;
  cl_authority : option CleanupAuthority;
  cl_payload_digest : string;
  cl_known_inventory : option (list Release);
  cl_candidate_count : Z;
  cl_lease : Lease;
  cl_claim_instance : option Uuid;
  cl_lease_epoch : Z;
  cl_last_reconciled_at : option Z;
  cl_next_reconcile_at : option Z;
  cl_diagnostic : string * string;
}.

(** [wr_node_release_cleanup_generations]. *)
Record GenerationRow : Type := mkGeneration {
  cg_node_id : string;
  cg_generation : Z;
  cg_protection_fingerprint : string;
  cg_authority : CleanupAuthority;
  cg_payload_digest : string;
  cg_known_inventory : option (list Release);
  cg_outcome : string;
}.

Record ReportCleanupRequest : Type := mkCleanupReport {
  rr_node_id : string;
  rr_agent_instance_id : string;
  rr_generation : Z;
  rr_lease_epoch : Z;
  rr_claim_instance : string;
  rr_payload_digest : string;
  rr_deleted_releases : list Release;
  rr_resulting_inventory : list Release;
  rr_condition_code : string;
  rr_detail : string;
}.

#[global] Instance ReportCleanupRequest_eq_dec : EqDecision ReportCleanupRequest.
Proof. solve_decision. Defined.

(** [wr_node_release_cleanup_result_receipts] and [wr_node_release_deletions]. *)
Record CleanupReceiptRow : Type := mkCleanupReceipt {
  cr_node_id : string;
  cr_generation : Z;
  cr_agent_instance_id : string;
  cr_lease_epoch : Z;
  cr_claim_instance : Uuid;
  cr_authenticated_principal : string;
  cr_result : ReportCleanupRequest;
}.

Record DeletionRow : Type := mkDeletion {
  de_node_id : string;
  de_release : Release;
  de_cleanup_generation : Z;
}.

Record CleanupTables : Type := mkCleanupTables {
  cleanups : list CleanupRow;
  generations : list GenerationRow;
  cleanup_events : list (string * Z * (string * string));
  cleanup_receipts : list CleanupReceiptRow;
  deletions : list DeletionRow;
}.

Record NodeDb : Type := mkNodeDb {
  nodes : list NodeRow;
  deployments : list DeploymentRow;
  operations : list OperationRow;
  targets : list TargetRow;
  operation_events : list OperationEvent;
  receipts : list ReceiptRow;
  authorities : list AuthorityRow;
  observations : list ObservationRow;
  policies : list AgentPolicyRow;
  attestations : list AttestationRow;
  engines : list EngineRow;
  heartbeats : list StatusModuleHeartbeat;
  routes : list RoutingRule;
  routing_version : Z;
  cleanup : CleanupTables;
}.

Definition set_nodes (v : list NodeRow) (db : NodeDb) : NodeDb :=
    mkNodeDb v (deployments db) (operations db) (targets db) (operation_events db) (receipts db)
    (authorities db) (observations db) (policies db) (attestations db) (engines db) (heartbeats
    db) (routes db) (routing_version db) (cleanup db).

Definition set_deployments (v : list DeploymentRow) (db : NodeDb) : NodeDb :=
    mkNodeDb (nodes db) v (operations db) (targets db) (operation_events db) (receipts db)
    (authorities db) (observations db) (policies db) (attestations db) (engines db) (heartbeats
    db) (routes db) (routing_version db) (cleanup db).

Definition set_operations (v : list OperationRow) (db : NodeDb) : NodeDb :=
    mkNodeDb (nodes db) (deployments db) v (targets db) (operation_events db) (receipts db)
    (authorities db) (observations db) (policies db) (attestations db) (engines db) (heartbeats
    db) (routes db) (routing_version db) (cleanup db).

Definition set_targets (v : list TargetRow) (db : NodeDb) : NodeDb :=
    mkNodeDb (nodes db) (deployments db) (operations db) v (operation_events db) (receipts db)
    (authorities db) (observations db) (policies db) (attestations db) (engines db) (heartbeats
    db) (routes db) (routing_version db) (cleanup db).

Definition set_operation_events (v : list OperationEvent) (db : NodeDb) : NodeDb :=
    mkNodeDb (nodes db) (deployments db) (operations db) (targets db) v (receipts db)
    (authorities db) (observations db) (policies db) (attestations db) (engines db) (heartbeats
    db) (routes db) (routing_version db) (cleanup db).

Definition set_receipts (v : list ReceiptRow) (db : NodeDb) : NodeDb :=
    mkNodeDb (nodes db) (deployments db) (operations db) (targets db) (operation_events db) v
    (authorities db) (observations db) (policies db) (attestations db) (engines db) (heartbeats
    db) (routes db) (routing_version db) (cleanup db).

Definition set_authorities (v : list AuthorityRow) (db : NodeDb) : NodeDb :=
    mkNodeDb (nodes db) (deployments db) (operations db) (targets db) (operation_events db)
    (receipts db) v (observations db) (policies db) (attestations db) (engines db) (heartbeats
    db) (routes db) (routing_version db) (cleanup db).

Definition set_observations (v : list ObservationRow) (db : NodeDb) : NodeDb :=
    mkNodeDb (nodes db) (deployments db) (operations db) (targets db) (operation_events db)
    (receipts db) (authorities db) v (policies db) (attestations db) (engines db) (heartbeats
    db) (routes db) (routing_version db) (cleanup db).

Definition set_policies (v : list AgentPolicyRow) (db : NodeDb) : NodeDb :=
    mkNodeDb (nodes db) (deployments db) (operations db) (targets db) (operation_events db)
    (receipts db) (authorities db) (observations db) v (attestations db) (engines db)
    (heartbeats db) (routes db) (routing_version db) (cleanup db).

Definition set_attestations (v : list AttestationRow) (db : NodeDb) : NodeDb :=
    mkNodeDb (nodes db) (deployments db) (operations db) (targets db) (operation_events db)
    (receipts db) (authorities db) (observations db) (policies db) v (engines db) (heartbeats
    db) (routes db) (routing_version db) (cleanup db).

Definition set_routes (v : list RoutingRule) (db : NodeDb) : NodeDb :=
    mkNodeDb (nodes db) (deployments db) (operations db) (targets db) (operation_events db)
    (receipts db) (authorities db) (observations db) (policies db) (attestations db) (engines
    db) (heartbeats db) v (routing_version db) (cleanup db).

Definition set_routing_version (v : Z) (db : NodeDb) : NodeDb :=
    mkNodeDb (nodes db) (deployments db) (operations db) (targets db) (operation_events db)
    (receipts db) (authorities db) (observations db) (policies db) (attestations db) (engines
    db) (heartbeats db) (routes db) v (cleanup db).

Definition set_cleanup (v : CleanupTables) (db : NodeDb) : NodeDb :=
    mkNodeDb (nodes db) (deployments db) (operations db) (targets db) (operation_events db)
    (receipts db) (authorities db) (observations db) (policies db) (attestations db) (engines
    db) (heartbeats db) (routes db) (routing_version db) v.

(** ** Constraints *)

Definition one_of_texts (v : string) (l : list string) : bool := existsb (String.eqb v) l.

Definition is_none {A} (o : option A) : bool := match o with None => true | Some _ => false end.

Definition active_state (state : string) : bool := one_of_texts state ["queued"; "running"; "paused"].

Definition lease_owner_check (l : Lease) : bool :=
  match l with
  | mkLease None None None => true
  | mkLease (Some _) (Some _) (Some agent) => negb (str_is_empty agent)
  | _ => false
  end.

Definition operation_row_ok (r : OperationRow) : bool :=
  one_of_texts (or_action r) ["deployment"; "rollback"; "restart"]
  && (if or_committed r then negb (is_none (or_committed_at r)) && String.eqb (or_phase r) "complete"
      else is_none (or_committed_at r))
  && (or_created_at r <=? or_forward_deadline r)%Z
  && (0 <=? or_lease_epoch r)%Z
  && lease_owner_check (or_lease r)
  && ((String.eqb (or_phase r) "complete"
       && one_of_texts (or_state r) ["succeeded"; "failed"; "cancelled"])
      || (one_of_texts (or_phase r) ["forward"; "restoring_source"; "committing"]
          && active_state (or_state r)))
  && (negb (String.eqb (or_phase r) "restoring_source")
      || (or_restoration_requested r && or_forward_fenced r
          && negb (is_none (or_restoration_terminal_state r))))
  && match or_restoration_terminal_state r with
     | None => true
     | Some s => one_of_texts s ["failed"; "cancelled"]
     end
  && (0 <=? or_source_revision r)%Z
  && (0 <=? rel_revision (or_target r))%Z
  && ((rel_revision (or_target r) =? 0)%Z || negb (is_none (or_target_revision_digest r))).

Definition is_active (r : OperationRow) : bool := active_state (or_state r).

(** The primary key, [(actor, request_token)], and one active operation per node. *)
Definition operations_unique (l : list OperationRow) : bool :=
  bool_decide (NoDup (or_operation_id <$> l))
  && bool_decide (NoDup ((λ r, (or_actor r, or_request_token r)) <$> l))
  && bool_decide (NoDup (or_node_id <$> List.filter is_active l)).

Definition PROXY_STEPS : list string :=
  ["inspect_backend"; "verify_target"; "verify_proxy"; "stop_backend"; "select_release";
   "start_backend"; "restore_source"; "complete"].

Definition ENGINE_STEPS : list string :=
  ["verify_release_metadata"; "stop_backend"; "select_release"; "start_backend"; "verify_target";
   "switch_authority"; "verify_serving"; "restore_source"; "complete"].

Definition detail_row_ok (d : EngineDetailRow) : bool :=
  (0 <=? ed_authoritative_revision d)%Z && (0 <=? ed_rollout_order d)%Z
  && one_of_texts (ed_transition_kind d)
       ["addition"; "replacement"; "unchanged"; "removal"; "restart"].

Definition target_row_ok (t : TargetRow) : bool :=
  ((String.eqb (tr_kind t) "proxy" && String.eqb (tr_key t) "proxy"
    && one_of_texts (tr_next_step t) PROXY_STEPS)
   || (String.eqb (tr_kind t) "engine_slot" && negb (str_is_empty (tr_key t))
       && negb (String.eqb (tr_key t) "proxy")
       && one_of_texts (tr_next_step t) ENGINE_STEPS
       && match tr_detail t with Some d => detail_row_ok d | None => false end))
  && Bool.eqb (String.eqb (tr_next_step t) "complete") (tr_complete t)
  && (0 <=? tr_completed_steps t)%Z
  && (0 <=? rel_revision (ef_observed (tr_effect t)))%Z
  && (0 <=? rel_revision (tr_source t))%Z
  && (0 <=? rel_revision (tr_target t))%Z.

(** The primary keys of targets, one proxy target, and the order of the slots. *)
Definition targets_unique (l : list TargetRow) : bool :=
  bool_decide (NoDup ((λ t, (tr_operation_id t, tr_kind t, tr_key t)) <$> l))
  && bool_decide (NoDup (tr_operation_id <$> List.filter (λ t, String.eqb (tr_kind t) "proxy") l))
  && bool_decide (NoDup (omap (λ t, d ← tr_detail t; Some (tr_operation_id t, ed_rollout_order d)) l)).

(** ** Transactions *)

Definition Tx (A : Type) : Type := NodeDb → result Status (A * NodeDb).

#[global] Instance tx_ret : MRet Tx := λ A a db, Ok (a, db).

#[global] Instance tx_bind : MBind Tx := λ A B k t db,
  match t db with Ok (a, db') => k a db' | Err e => Err e end.

Definition get : Tx NodeDb := λ db, Ok (db, db).
Definition modify (f : NodeDb → NodeDb) : Tx () := λ db, Ok ((), f db).
Definition fail {A} (e : Status) : Tx A := λ _, Err e.
Definition lift {A} (r : result Status A) : Tx A := λ db, let? a := r in Ok (a, db).
Definition guard_tx (b : bool) (e : Status) : Tx () := if b then mret () else fail e.

(** PostgreSQL refuses a text with a NUL byte. *)
Definition bind_texts (l : list string) : Tx () := guard_tx (forallb pg_text l) database_error.

(** A transaction that commits an outcome, or rolls back on an error. *)
Definition transact {A} (t : Tx (result Status A)) (db : NodeDb) : result Status A * NodeDb :=
  match t db with Ok (r, db') => (r, db') | Err e => (Err e, db) end.

(** [UPDATE .. SET .. WHERE ..]. *)
Definition update_where {A} (p : A → bool) (f : A → A) (l : list A) : list A :=
  (λ x, if p x then f x else x) <$> l.

Definition put_operations (on_unique : Status) (l : list OperationRow) : Tx () :=
  guard_tx (forallb operation_row_ok l) database_error ;;
  guard_tx (operations_unique l) on_unique ;;
  modify (set_operations l).

(** The rows that [RETURNING] gives. *)
Definition update_operations (p : OperationRow → bool) (f : OperationRow → OperationRow) :
    Tx (list OperationRow) :=
  db ← get;
  put_operations database_error (update_where p f (operations db)) ;;
  mret (f <$> List.filter p (operations db)).

Definition put_targets (l : list TargetRow) : Tx () :=
  guard_tx (forallb target_row_ok l && targets_unique l) database_error ;;
  modify (set_targets l).

Definition update_targets (p : TargetRow → bool) (f : TargetRow → TargetRow) : Tx () :=
  db ← get; put_targets (update_where p f (targets db)).

Definition of_operation (id : Uuid) (r : OperationRow) : bool := (or_operation_id r =? id)%Z.
Definition target_of_operation (id : Uuid) (t : TargetRow) : bool := (tr_operation_id t =? id)%Z.

Definition is_proxy_row (id : Uuid) (t : TargetRow) : bool :=
  target_of_operation id t && String.eqb (tr_kind t) "proxy".

Definition is_slot_row (id : Uuid) (slot : string) (t : TargetRow) : bool :=
  target_of_operation id t && String.eqb (tr_kind t) "engine_slot" && String.eqb (tr_key t) slot.

Definition find_operation_row (id : Uuid) (db : NodeDb) : option OperationRow :=
  List.find (of_operation id) (operations db).

Definition append_event (id : Uuid) (actor code detail : string) (epoch : Z) : Tx () :=
  bind_texts [actor; code; detail] ;;
  modify (λ db, set_operation_events
                  (operation_events db ++ [mkOperationEvent id actor code detail epoch]) db).
