(* ===== verification/NodeStore.v ===== *)
(** * Node operations: reading and changing the tables (wr-manager/src/operations.rs, db.rs)

    How an operation is read back as a message, the snapshot of everything a decision needs,
    and the updates that the transactions of an operation are made of. *)

From S2P Require Import Prelude RustStr Utf8 Lists Orders Externals Grpc Lifecycle IndexedRouting Deployment Rollout Schedule Operations NodeStatus NodeTables.

(** ** Updates of a row *)

Definition set_or_state (v : string) (r : OperationRow) : OperationRow :=
  mkOperationRow (or_operation_id r) (or_node_id r) (or_request_token r) (or_actor r) (or_action r) v
    (or_phase r) (or_request r) (or_policy r) (or_source_revision r) (or_target r)
    (or_target_revision_digest r) (or_committed_at r) (or_committed r) (or_lease_epoch r) (or_lease r)
    (or_failure r) (or_created_at r) (or_forward_deadline r) (or_forward_fenced r)
    (or_restoration_requested r) (or_restoration_terminal_state r).

Definition set_or_phase (v : string) (r : OperationRow) : OperationRow :=
  mkOperationRow (or_operation_id r) (or_node_id r) (or_request_token r) (or_actor r) (or_action r)
    (or_state r) v (or_request r) (or_policy r) (or_source_revision r) (or_target r)
    (or_target_revision_digest r) (or_committed_at r) (or_committed r) (or_lease_epoch r) (or_lease r)
    (or_failure r) (or_created_at r) (or_forward_deadline r) (or_forward_fenced r)
    (or_restoration_requested r) (or_restoration_terminal_state r).

Definition set_or_lease (epoch : Z) (v : Lease) (r : OperationRow) : OperationRow :=
  mkOperationRow (or_operation_id r) (or_node_id r) (or_request_token r) (or_actor r) (or_action r)
    (or_state r) (or_phase r) (or_request r) (or_policy r) (or_source_revision r) (or_target r)
    (or_target_revision_digest r) (or_committed_at r) (or_committed r) epoch v
    (or_failure r) (or_created_at r) (or_forward_deadline r) (or_forward_fenced r)
    (or_restoration_requested r) (or_restoration_terminal_state r).

Definition set_or_failure (v : string * string) (r : OperationRow) : OperationRow :=
  mkOperationRow (or_operation_id r) (or_node_id r) (or_request_token r) (or_actor r) (or_action r)
    (or_state r) (or_phase r) (or_request r) (or_policy r) (or_source_revision r) (or_target r)
    (or_target_revision_digest r) (or_committed_at r) (or_committed r) (or_lease_epoch r) (or_lease r)
    v (or_created_at r) (or_forward_deadline r) (or_forward_fenced r)
    (or_restoration_requested r) (or_restoration_terminal_state r).

Definition set_or_committed (at_ : Z) (r : OperationRow) : OperationRow :=
  mkOperationRow (or_operation_id r) (or_node_id r) (or_request_token r) (or_actor r) (or_action r)
    (or_state r) (or_phase r) (or_request r) (or_policy r) (or_source_revision r) (or_target r)
    (or_target_revision_digest r) (Some at_) true (or_lease_epoch r) (or_lease r)
    (or_failure r) (or_created_at r) (or_forward_deadline r) (or_forward_fenced r)
    (or_restoration_requested r) (or_restoration_terminal_state r).

Definition set_or_fenced (terminal : string) (r : OperationRow) : OperationRow :=
  mkOperationRow (or_operation_id r) (or_node_id r) (or_request_token r) (or_actor r) (or_action r)
    (or_state r) (or_phase r) (or_request r) (or_policy r) (or_source_revision r) (or_target r)
    (or_target_revision_digest r) (or_committed_at r) (or_committed r) (or_lease_epoch r) (or_lease r)
    (or_failure r) (or_created_at r) (or_forward_deadline r) true true (Some terminal).

(** [lease_expires_at = NULL, claimed_by = NULL, agent_instance_id = NULL]. *)
Definition release_lease (r : OperationRow) : OperationRow := set_or_lease (or_lease_epoch r) no_lease r.

Definition set_tr_step (step : string) (completed : Z) (complete : bool) (t : TargetRow) : TargetRow :=
  mkTargetRow (tr_operation_id t) (tr_node_id t) (tr_kind t) (tr_key t) step completed complete
    (tr_condition t) (tr_source t) (tr_target t) (tr_pinned_backend_instance_id t)
    (tr_pinned_process_instance_id t) (tr_changed t) (tr_effect t) (tr_detail t).

Definition set_tr_condition (code detail : string) (t : TargetRow) : TargetRow :=
  mkTargetRow (tr_operation_id t) (tr_node_id t) (tr_kind t) (tr_key t) (tr_next_step t)
    (tr_completed_steps t) (tr_complete t) (code, detail) (tr_source t) (tr_target t)
    (tr_pinned_backend_instance_id t) (tr_pinned_process_instance_id t) (tr_changed t) (tr_effect t)
    (tr_detail t).

Definition set_tr_pins (backend process : string) (t : TargetRow) : TargetRow :=
  mkTargetRow (tr_operation_id t) (tr_node_id t) (tr_kind t) (tr_key t) (tr_next_step t)
    (tr_completed_steps t) (tr_complete t) (tr_condition t) (tr_source t) (tr_target t)
    backend process (tr_changed t) (tr_effect t) (tr_detail t).

Definition set_tr_changed (v : bool) (t : TargetRow) : TargetRow :=
  mkTargetRow (tr_operation_id t) (tr_node_id t) (tr_kind t) (tr_key t) (tr_next_step t)
    (tr_completed_steps t) (tr_complete t) (tr_condition t) (tr_source t) (tr_target t)
    (tr_pinned_backend_instance_id t) (tr_pinned_process_instance_id t) v (tr_effect t) (tr_detail t).

Definition set_tr_effect (v : Effect) (t : TargetRow) : TargetRow :=
  mkTargetRow (tr_operation_id t) (tr_node_id t) (tr_kind t) (tr_key t) (tr_next_step t)
    (tr_completed_steps t) (tr_complete t) (tr_condition t) (tr_source t) (tr_target t)
    (tr_pinned_backend_instance_id t) (tr_pinned_process_instance_id t) (tr_changed t) v (tr_detail t).

Definition alter_detail (f : EngineDetailRow → EngineDetailRow) (t : TargetRow) : TargetRow :=
  mkTargetRow (tr_operation_id t) (tr_node_id t) (tr_kind t) (tr_key t) (tr_next_step t)
    (tr_completed_steps t) (tr_complete t) (tr_condition t) (tr_source t) (tr_target t)
    (tr_pinned_backend_instance_id t) (tr_pinned_process_instance_id t) (tr_changed t) (tr_effect t)
    (f <$> tr_detail t).

(** [effect_delivered_at] and [effect_ambiguous]. *)
Definition set_delivery (delivered_at : option Z) (ambiguous : bool) (e : Effect) : Effect :=
  mkEffect delivered_at (ef_reported e) (ef_observed e) (ef_backend_instance_id e)
    (ef_process_instance_id e) (ef_condition_code e) (ef_detail e) ambiguous
    (ef_termination_evidence e).

(** ** Operations as messages *)

Section store.
Context `{CL : CollationLib, UL : UuidLib, SH : Sha256Lib}.

Definition condition_list (c : string * string) : list DeploymentCondition :=
  if str_is_empty c.1 then [] else [operation_condition c.1 c.2].

Definition target_from_row (t : TargetRow) : result Status OperationTargetProgress :=
  let? (kind, identity, details, transition) :=
    if String.eqb (tr_kind t) "proxy" && String.eqb (tr_key t) "proxy" then
      Ok (TkProxy, ProxyIdentity, ProxyDetails, None)
    else if String.eqb (tr_kind t) "engine_slot" && negb (str_is_empty (tr_key t))
            && negb (String.eqb (tr_key t) "proxy") then
      match tr_detail t with
      | None => Err (internal "engine target detail is missing")
      | Some d =>
          let? transition := parse_transition (ed_transition_kind d) in
          Ok (TkEngineSlot, EngineSlotIdentity (tr_key t),
              EngineDetails (mkEngineDetails (ed_rollout_order d) (ed_authoritative_revision d)
                               (ed_authority_switched d) (ed_serving_converged d)),
              Some transition)
      end
    else Err (internal "stored operation target identity is invalid") in
  let? next_step := parse_step (tr_next_step t) in
  Ok (mkProgress kind (Some identity) next_step (tr_completed_steps t) (tr_complete t)
        (condition_list (tr_condition t)) (tr_source t) (tr_target t)
        (tr_pinned_backend_instance_id t) (tr_pinned_process_instance_id t) (tr_changed t)
        (tr_effect t) (Some details) transition).

Definition validate_target (action : NodeOperationAction) (target : OperationTargetProgress) :
    result Status () :=
  match tp_transition target with
  | None => Err (internal "engine target transition is missing")
  | Some stored => validate_stored_transition action stored target
  end.

Definition operation_from_row (r : OperationRow) (rows : list TargetRow) : result Status NodeOperation :=
  let? action := parse_action (or_action r) in
  let? targets := collect_results target_from_row rows in
  let? _ := collect_results (validate_target action)
              (List.filter (λ t, bool_decide (tp_kind t = TkEngineSlot)) targets) in
  let? state := parse_state (or_state r) in
  let? phase := parse_phase (or_phase r) in
  let? terminal := transpose (or_restoration_terminal_state r) parse_state in
  Ok (mkOperation (uuid_to_string (or_operation_id r)) (or_node_id r) (or_request_token r)
        (or_actor r) action state (Some (or_policy r)) (or_source_revision r) (or_target r)
        (default "" (or_target_revision_digest r)) targets (or_committed r) (or_lease_epoch r)
        (le_expires_at (or_lease r)) (or_created_at r) (condition_list (or_failure r)) phase
        (or_forward_deadline r) (or_forward_fenced r) (or_restoration_requested r)
        (default "" (le_agent_instance_id (or_lease r))) (default OpUnspecified terminal)).

(** The proxy first, then the slots in their order. *)
Definition target_row_cmp (a b : TargetRow) : comparison :=
  then_cmp (Z.compare (Z.b2z (negb (String.eqb (tr_kind a) "proxy")))
                      (Z.b2z (negb (String.eqb (tr_kind b) "proxy"))))
    (then_cmp (option_cmp Z.compare (ed_rollout_order <$> tr_detail a) (ed_rollout_order <$> tr_detail b))
       (text_cmp (tr_key a) (tr_key b))).

Definition load_row (r : OperationRow) (db : NodeDb) : result Status NodeOperation :=
  operation_from_row r
    (sort_by target_row_cmp (List.filter (target_of_operation (or_operation_id r)) (targets db))).

Definition load_operation (id : Uuid) (db : NodeDb) : result Status NodeOperation :=
  match find_operation_row id db with
  | None => Err (not_found "operation not found")
  | Some r => load_row r db
  end.

(** [ORDER BY created_at DESC, operation_id]. *)
Definition operation_history_cmp (a b : OperationRow) : comparison :=
  then_cmp (Z.compare (or_created_at b) (or_created_at a))
    (Z.compare (or_operation_id a) (or_operation_id b)).

Definition list_from_client (node_id : string) (include_terminal : bool) (db : NodeDb) :
    result Status (list NodeOperation) :=
  collect_results (λ r, load_operation (or_operation_id r) db)
    (sort_by operation_history_cmp
       (List.filter (λ r, (str_is_empty node_id || String.eqb (or_node_id r) node_id)
                          && (include_terminal || is_active r)) (operations db))).

(** ** The snapshot *)

Definition parse_backend_state (value : string) : BackendProcessState :=
  if String.eqb value "running" then BpRunning
  else if String.eqb value "exited" then BpExited
  else if String.eqb value "query_error" then BpQueryError
  else BpUnspecified.

(** [clock] is the manager's reading of [Utc::now()]; [num_seconds] truncates. *)
Definition observation_from_row (clock : Z) (db : NodeDb) (o : ObservationRow) : SlotObservation :=
  let stale := (EVIDENCE_FRESH_SECONDS <? Z.quot (clock - ob_observed_at o) 1000000000)%Z in
  let evidence :=
    match ob_operation_id o with
    | None => None
    | Some id =>
        match List.find (is_slot_row id (ob_engine_slot o)) (targets db) with
        | Some t => ef_termination_evidence (tr_effect t)
        | None => None
        end
    end in
  mkSlotObservation (ob_node_id o) (ob_engine_slot o) (if stale then None else ob_lifecycle o)
    (if stale then BpUnspecified else parse_backend_state (ob_backend_state o))
    (ob_backend_instance_id o) (ob_observed o) (ob_observed_at o) (ob_backend_query_error o)
    (match ob_operation_id o with Some id => uuid_to_string id | None => "" end)
    (ob_agent_instance_id o) (ob_lease_epoch o) evidence.

Definition observation_cmp (a b : ObservationRow) : comparison :=
  then_cmp (text_cmp (ob_node_id a) (ob_node_id b)) (text_cmp (ob_engine_slot a) (ob_engine_slot b)).

Definition observations_from_client (clock : Z) (node_id engine_slot : string) (db : NodeDb) :
    list SlotObservation :=
  observation_from_row clock db <$>
    sort_by observation_cmp
      (List.filter (λ o, (str_is_empty node_id || String.eqb (ob_node_id o) node_id)
                         && (str_is_empty engine_slot || String.eqb (ob_engine_slot o) engine_slot))
         (observations db)).

Definition find_node (node_id : string) (db : NodeDb) : option NodeRow :=
  List.find (λ n, String.eqb (nr_node_id n) node_id) (nodes db).

Definition find_deployment (node_id : string) (revision : Z) (db : NodeDb) : option DeploymentRow :=
  List.find (λ d, String.eqb (dp_node_id d) node_id && (dp_revision d =? revision)%Z) (deployments db).

Definition deployment_row (d : DeploymentRow) : result Status DeploymentRecord :=
  match deployment_operation_id (dp_revision_digest d) with
  | Err _ => Err (internal "stored deployment revision digest is invalid")
  | Ok operation_id =>
      Ok (mkDeploymentRecord (dp_node_id d) (dp_revision d) (dp_bundle_digest d) (Some (dp_inventory d))
            (dp_revision_digest d) operation_id)
  end.

Definition deployment_cmp (a b : DeploymentRow) : comparison :=
  then_cmp (text_cmp (dp_node_id a) (dp_node_id b)) (Z.compare (dp_revision b) (dp_revision a)).

(** The join of the deployments with their nodes. *)
Definition status_deployments (db : NodeDb) : result Status (list StatusDeploymentRecord) :=
  collect_results
    (λ dn : DeploymentRow * NodeRow,
       let? record := deployment_row dn.1 in
       Ok (mkStatusDeployment record (nr_current_revision dn.2) (nr_target_revision dn.2)))
    (omap (λ d, n ← find_node (dp_node_id d) db; Some (d, n)) (sort_by deployment_cmp (deployments db))).

Definition engine_cmp (a b : EngineRow) : comparison :=
  text_cmp (er_engine_id (en_registration a)) (er_engine_id (en_registration b)).

Definition heartbeat_cmp (a b : StatusModuleHeartbeat) : comparison :=
  then_cmp (text_cmp (mh_engine_id a) (mh_engine_id b))
    (then_cmp (text_cmp (mid_namespace (mh_module a)) (mid_namespace (mh_module b)))
       (then_cmp (text_cmp (mid_name (mh_module a)) (mid_name (mh_module b)))
          (text_cmp (mid_version (mh_module a)) (mid_version (mh_module b))))).

Definition authority_cmp (a b : AuthorityRow) : comparison :=
  then_cmp (text_cmp (au_node_id a) (au_node_id b)) (text_cmp (au_engine_slot a) (au_engine_slot b)).

Definition status_authorities (db : NodeDb) : list StatusSlotAuthority :=
  (λ a, mkSlotAuthority (au_node_id a) (au_engine_slot a) (au_revision a)) <$>
    sort_by authority_cmp
      (List.filter (λ a, au_authoritative a
                         && negb (is_none (find_deployment (au_node_id a) (au_revision a) db)))
         (authorities db)).

Definition capture_cluster_status_snapshot (now clock : Z) (db : NodeDb) :
    result Status ClusterStatusSnapshot :=
  let? deployments := status_deployments db in
  let? active_operations := list_from_client "" false db in
  Ok (mkSnapshot now deployments
        ((λ e, mkStatusEngine (en_registration e) (en_last_heartbeat e)) <$> sort_by engine_cmp (engines db))
        (sort_by heartbeat_cmp (heartbeats db))
        (sort_by (λ a b, text_cmp (rule_id a) (rule_id b)) (routes db))
        (status_authorities db) active_operations (observations_from_client clock "" "" db)).

(** ** Fencing of cleanup authority *)

Definition alter_cleanup (f : CleanupTables → CleanupTables) : Tx () :=
  modify (λ db, set_cleanup (f (cleanup db)) db).

(** The update that withdraws whatever an agent was authorized to delete. *)
Definition fenced_cleanup (now : Z) (c : CleanupRow) : CleanupRow :=
  mkCleanup (cl_node_id c) (cl_generation c + 1) "needs_reconcile" (cl_protection_fingerprint c) None ""
    (cl_known_inventory c) 0 no_lease None (cl_lease_epoch c) (cl_last_reconciled_at c) (Some now)
    ("", "").

Definition set_outcome (v : string) (g : GenerationRow) : GenerationRow :=
  mkGeneration (cg_node_id g) (cg_generation g) (cg_protection_fingerprint g) (cg_authority g)
    (cg_payload_digest g) (cg_known_inventory g) v.

Definition is_cleanup_of (node_id : string) (c : CleanupRow) : bool := String.eqb (cl_node_id c) node_id.

Definition is_generation (node_id : string) (generation : Z) (outcomes : list string)
    (g : GenerationRow) : bool :=
  String.eqb (cg_node_id g) node_id && (cg_generation g =? generation)%Z
  && one_of_texts (cg_outcome g) outcomes.

Definition fence_cleanup_authority (now : Z) (node_id reason : string) : Tx bool :=
  db ← get;
  match List.find (is_cleanup_of node_id) (cleanups (cleanup db)) with
  | None => mret false
  | Some old =>
      alter_cleanup (λ t,
        mkCleanupTables (update_where (is_cleanup_of node_id) (fenced_cleanup now) (cleanups t))
          (update_where (is_generation node_id (cl_generation old) ["materialized"])
             (set_outcome "superseded") (generations t))
          (cleanup_events t ++ [(node_id, cl_generation old + 1, ("AUTHORITY_FENCED", reason))%Z])
          (cleanup_receipts t) (deletions t)) ;;
      mret true
  end.

(** ** Restoration, pauses and conditions *)

Definition restoring_row (terminal code detail : string) (r : OperationRow) : OperationRow :=
  set_or_state "queued"
    (set_or_phase "restoring_source"
       (set_or_failure (code, detail) (set_or_fenced terminal (release_lease r)))).

Definition restoring_target (t : TargetRow) : TargetRow :=
  let touched := tr_changed t || ef_ambiguous (tr_effect t) in
  let e := tr_effect t in
  set_tr_condition (if touched then "SOURCE_RESTORATION_REQUIRED" else "")
    (if touched then "source restoration is required before terminal completion" else "")
    (set_tr_effect
       (mkEffect None false (mkRelease 0 "" (rel_resolved (ef_observed e))) "" "" "" "" (ef_ambiguous e)
          (ef_termination_evidence e))
       (set_tr_step (if touched then "restore_source" else "complete") (tr_completed_steps t)
          (negb touched) t)).

Definition enter_restoration (id : Uuid) (actor terminal code detail : string) : Tx () :=
  bind_texts [terminal; code; detail] ;;
  rows ← update_operations (λ r, of_operation id r && negb (or_committed r) && is_active r)
           (restoring_row terminal code detail);
  match rows with
  | [] => fail (failed_precondition "only an active uncommitted operation can enter restoration")
  | row :: _ =>
      update_targets (target_of_operation id) restoring_target ;;
      append_event id actor code detail (or_lease_epoch row)
  end.

Definition deadline_expired (now : Z) (id : Uuid) : Tx bool :=
  db ← get;
  match find_operation_row id db with
  | None => fail database_error
  | Some r =>
      mret ((String.eqb (or_phase r) "forward" && (or_forward_deadline r <=? now)%Z) || or_forward_fenced r)
  end.

Definition set_slot_condition (id : Uuid) (slot code detail : string) : Tx () :=
  bind_texts [slot; code; detail] ;;
  update_targets (is_slot_row id slot) (set_tr_condition code detail).

Definition clear_slot_condition (id : Uuid) (slot : string) : Tx () := set_slot_condition id slot "" "".

Definition paused_row (code detail : string) (r : OperationRow) : OperationRow :=
  set_or_state "paused" (set_or_failure (code, detail) (release_lease r)).

Definition pause_with_condition (id : Uuid) (slot code detail : string) : Tx () :=
  set_slot_condition id slot code detail ;;
  update_operations (λ r, of_operation id r && one_of_texts (or_state r) ["queued"; "running"])
    (paused_row code detail) ;;
  mret ().

(** ** Authority over a slot *)

Definition in_authority (node_id slot : string) (a : AuthorityRow) : bool :=
  String.eqb (au_node_id a) node_id && String.eqb (au_engine_slot a) slot.

Definition set_authoritative (v : bool) (a : AuthorityRow) : AuthorityRow :=
  mkAuthority (au_node_id a) (au_engine_slot a) (au_revision a) v (au_resolved_release_digest a).

(** [INSERT .. SELECT .. ON CONFLICT (node_id, engine_slot, revision) DO UPDATE]. *)
Definition grant_authority (node_id slot : string) (revision : Z) (db : NodeDb)
    (l : list AuthorityRow) : list AuthorityRow :=
  match find_deployment node_id revision db with
  | None => l
  | Some d =>
      let granted := mkAuthority node_id slot revision true (dp_resolved_release_digest d) in
      let same a := in_authority node_id slot a && (au_revision a =? revision)%Z in
      if existsb same l then update_where same (λ _, granted) l else l ++ [granted]
  end.

(** The routes of engines that another revision registered for the slot. *)
Definition withdrawn_engines (node_id slot : string) (revision : Z) (db : NodeDb) : list string :=
  er_engine_id ∘ en_registration <$>
    List.filter (λ e, bool_decide (en_deployment_node_id e = Some node_id)
                      && bool_decide (en_deployment_engine_slot e = Some slot)
                      && sql_holds (sql_ne (en_deployment_revision e) (Some revision))) (engines db).

Definition unhealthy (r : RoutingRule) : RoutingRule :=
  mkRoutingRule (rule_id r) (source_module r) (destination_module r) (engine_id r) (engine_address r)
    (destination_version r) false (source_namespace r) (destination_namespace r) (peer_address r).

Definition switch_authority (now : Z) (node_id slot : string) (revision : Z) : Tx () :=
  db ← get;
  let authority_changed :=
    negb (existsb (λ a, in_authority node_id slot a && au_authoritative a
                        && (au_revision a =? revision)%Z) (authorities db)) in
  let revoked :=
    update_where (λ a, in_authority node_id slot a && au_authoritative a) (set_authoritative false)
      (authorities db) in
  modify (set_authorities (if (0 <? revision)%Z then grant_authority node_id slot revision db revoked
                           else revoked)) ;;
  let serving r := healthy r && bool_decide (engine_id r ∈ withdrawn_engines node_id slot revision db) in
  modify (set_routes (update_where serving unhealthy (routes db))) ;;
  (if existsb serving (routes db) then modify (set_routing_version (routing_version db + 1))
   else mret ()) ;;
  (if authority_changed then fence_cleanup_authority now node_id "SLOT_AUTHORITY_CHANGED" ;; mret ()
   else mret ()).

(** ** Advancing a slot *)

Definition advanced_effect (e : Effect) : Effect :=
  mkEffect None false no_release "" "" (ef_condition_code e) (ef_detail e) false
    (ef_termination_evidence e).

Definition advanced_target (next : option StepKind) (t : TargetRow) : TargetRow :=
  set_tr_condition "" ""
    (set_tr_effect (advanced_effect (tr_effect t))
       (set_tr_step (match next with Some s => step_name s | None => "complete" end)
          (tr_completed_steps t + 1) (match next with Some _ => false | None => true end) t)).

Definition set_authoritative_revision (revision : Z) (d : EngineDetailRow) : EngineDetailRow :=
  mkDetailRow (ed_rollout_order d) revision (ed_authority_switched d) (ed_serving_converged d)
    (ed_transition_kind d).

Definition advance_slot (id : Uuid) (slot : string) (next : option StepKind) (revision : Z) : Tx () :=
  update_targets (is_slot_row id slot) (advanced_target next) ;;
  update_targets (is_slot_row id slot) (alter_detail (set_authoritative_revision revision)).

End store.
