(* ===== verification/NodeSubmit.v ===== *)
(** * Submitting a node operation (wr-manager/src/operations.rs)

    A submission is accepted once per actor and token. It compares the committed inventory of
    the node with the finalized one, derives what happens to every slot, and stores one target
    per slot, additions first and removals last, behind the target of the proxy. *)

From stdpp Require Import pretty.
From S2P Require Import Prelude RustStr Utf8 Lists Orders Externals Grpc Lifecycle IndexedRouting Deployment Rollout Schedule Operations NodeStatus NodeTables NodeStore.

Section submit.
Context `{CL : CollationLib, UL : UuidLib, SH : Sha256Lib}.

(** [i64::try_from] of a [u64]. *)
Definition i64_try_from (v : Z) : option Z := if (v <=? 9223372036854775807)%Z then Some v else None.

Definition ensure_node (node_id : string) (db : NodeDb) : NodeDb :=
  if is_none (find_node node_id db) then set_nodes (nodes db ++ [mkNodeRow node_id 0 None]) db else db.

(** The release of a revision and the slots of its inventory. *)
Definition deployment_inventory (node_id : string) (revision : Z) : Tx (Release * list string) :=
  if (revision =? 0)%Z then mret (no_release, [])
  else
    db ← get;
    match find_deployment node_id revision db with
    | None => fail (failed_precondition "deployment snapshot is missing")
    | Some d =>
        mret (mkRelease revision (dp_bundle_digest d) (dp_resolved_release_digest d),
              ee_engine_slot <$> di_engines (dp_inventory d))
    end.

(** [sort] and [dedup]. *)
Fixpoint dedup (l : list string) : list string :=
  match l with
  | [] => []
  | x :: rest =>
      match rest with
      | y :: _ => if String.eqb x y then dedup rest else x :: dedup rest
      | [] => [x]
      end
  end.

Definition sorted_slots (l : list string) : list string := dedup (sort_by str_cmp l).

(** The release that the slot has on one side. *)
Definition release_in (slots : list string) (r : Release) (slot : string) : Release :=
  if bool_decide (slot ∈ slots) then r else no_release.

(** What a submission has established before it writes. *)
Record SubmitPlan : Type := mkPlan {
  sp_action : NodeOperationAction;
  sp_policy : RolloutPolicy;
  sp_deadline_seconds : Z;
  sp_source : Release;
  sp_source_slots : list string;
  sp_target : Release;
  sp_target_slots : list string;
}.

Definition is_deployment_action (a : NodeOperationAction) : bool :=
  match a with ActDeployment | ActRollback => true | _ => false end.

Definition slot_transition (p : SubmitPlan) (slot : string) : DerivedTransition :=
  if bool_decide (sp_action p = ActRestart) then Restart
  else derive_transition (release_in (sp_source_slots p) (sp_source p) slot)
         (release_in (sp_target_slots p) (sp_target p) slot).

Definition transition_group (t : DerivedTransition) : Z :=
  match t with Addition => 0 | Replacement | Unchanged | Restart => 1 | Removal => 2 end.

Definition rollout_cmp (p : SubmitPlan) (a b : string) : comparison :=
  then_cmp (Z.compare (transition_group (slot_transition p a)) (transition_group (slot_transition p b)))
    (str_cmp a b).

(** The slots of the operation in the order of its rollout, and the checks on them. *)
Definition plan_slots (p : SubmitPlan) (engine_slot : string) : result Status (list string) :=
  ensure? negb (bool_decide (sp_action p = ActRestart)
                && (bool_decide (sp_source_slots p = [])
                    || negb (bool_decide (engine_slot ∈ sp_source_slots p))))
    else failed_precondition "restart requires a slot from the committed deployment" in
  let deployment := is_deployment_action (sp_action p) in
  let withdraws_last_source :=
    if deployment then negb (bool_decide (sp_source_slots p = [])) && bool_decide (sp_target_slots p = [])
    else (length (sp_source_slots p) =? 1)%nat in
  ensure? negb (withdraws_last_source && negb (rp_allow_downtime (sp_policy p)))
    else failed_precondition "withdrawing the last healthy source slot requires allow_downtime" in
  let slots := sorted_slots (if deployment then sp_source_slots p ++ sp_target_slots p
                             else [engine_slot]) in
  ensure? negb (bool_decide (slots = []) && negb deployment)
    else invalid_argument "operation has no affected slots" in
  let affected :=
    if bool_decide (sp_action p = ActRestart) then length slots
    else length (List.filter (λ s, negb (bool_decide (slot_transition p s = Unchanged))) slots) in
  ensure? negb ((0 <? affected)%nat && (Z.of_nat affected <? rp_max_unavailable (sp_policy p))%Z)
    else invalid_argument "max_unavailable exceeds the number of affected slots" in
  Ok (sort_by (rollout_cmp p) slots).

(** ** Rows *)

Definition new_operation (now : Z) (id : Uuid) (actor : string) (request : SubmitOperationRequest)
    (p : SubmitPlan) (revision_digest : option string) : OperationRow :=
  mkOperationRow id (so_node_id request) (so_request_token request) actor (action_name (sp_action p))
    "queued" "forward" request (sp_policy p) (rel_revision (sp_source p))
    (mkRelease (rel_revision (sp_target p)) (so_bundle_digest request) (so_resolved_release_digest request))
    revision_digest None false 0 no_lease ("", "") now
    (now + from_secs (sp_deadline_seconds p)) false false None.

Definition new_proxy_target (id : Uuid) (request : SubmitOperationRequest) (p : SubmitPlan) : TargetRow :=
  let first :=
    if is_deployment_action (sp_action p) then
      if (0 <? rel_revision (sp_source p))%Z then "verify_target" else "select_release"
    else "complete" in
  mkTargetRow id (so_node_id request) "proxy" "proxy" first 0 (String.eqb first "complete") ("", "")
    (sp_source p)
    (mkRelease (rel_revision (sp_target p)) (so_bundle_digest request) (so_resolved_release_digest request))
    "" "" false no_effect None.

(** A release whose digests are kept only for a revision that exists. *)
Definition release_if_positive (revision : Z) (r : Release) : Release :=
  if (0 <? revision)%Z then mkRelease revision (rel_digest r) (rel_resolved r) else mkRelease revision "" "".

Definition new_engine_target (id : Uuid) (request : SubmitOperationRequest) (p : SubmitPlan)
    (rollout_order : nat) (slot : string) : TargetRow :=
  let source := if bool_decide (slot ∈ sp_source_slots p) then rel_revision (sp_source p) else 0%Z in
  let target := if is_deployment_action (sp_action p) then
                  if bool_decide (slot ∈ sp_target_slots p) then rel_revision (sp_target p) else 0%Z
                else rel_revision (sp_source p) in
  let from := release_if_positive source (sp_source p) in
  let to := release_if_positive target (sp_target p) in
  let transition := if bool_decide (sp_action p = ActRestart) then Restart else derive_transition from to in
  let first := first_forward_step transition in
  mkTargetRow id (so_node_id request) "engine_slot" slot
    (match first with Some s => step_name s | None => "complete" end) 0 (is_none first) ("", "") from to
    "" "" false no_effect
    (Some (mkDetailRow (Z.of_nat rollout_order) source false (is_none first) (transition_name transition))).

Definition transition_detail (p : SubmitPlan) (engine_slot : string) : string :=
  if is_deployment_action (sp_action p) then
    let transitions := slot_transition p <$> sorted_slots (sp_source_slots p ++ sp_target_slots p) in
    let count t := pretty (length (List.filter (λ x, bool_decide (x = t)) transitions)) in
    "desired transitions: additions=" +:+ count Addition +:+ ", replacements=" +:+ count Replacement
    +:+ ", unchanged=" +:+ count Unchanged +:+ ", removals=" +:+ count Removal
  else "restart transition: slot=" +:+ engine_slot.

(** ** The committed revision again *)

Definition no_effect_operation (now : Z) (id : Uuid) (actor : string) (request : SubmitOperationRequest)
    (p : SubmitPlan) (revision_digest : string) : OperationRow :=
  mkOperationRow id (so_node_id request) (so_request_token request) actor (action_name (sp_action p))
    "succeeded" "complete" request (sp_policy p) (rel_revision (sp_source p)) (sp_source p)
    (Some revision_digest) (Some now) true 0 no_lease ("", "") now
    (now + from_secs (sp_deadline_seconds p)) false false None.

Definition no_effect_engine_target (id : Uuid) (node_id : string) (source : Release)
    (rollout_order : nat) (slot : string) : TargetRow :=
  mkTargetRow id node_id "engine_slot" slot "complete" 0 true ("", "") source source "" "" false no_effect
    (Some (mkDetailRow (Z.of_nat rollout_order) (rel_revision source) false true "unchanged")).

Definition submit_no_effect (now : Z) (fresh_id : Uuid) (actor : string)
    (request : SubmitOperationRequest) (p : SubmitPlan) : Tx NodeOperation :=
  db ← get;
  match find_deployment (so_node_id request) (rel_revision (sp_source p)) db with
  | Some d =>
      guard_tx (String.eqb (dp_state d) "succeeded")
        (failed_precondition "committed deployment snapshot is missing") ;;
      guard_tx (String.eqb (so_bundle_digest request) (dp_bundle_digest d)
                && String.eqb (so_resolved_release_digest request) (dp_resolved_release_digest d)
                && String.eqb (rel_digest (sp_source p)) (dp_bundle_digest d)
                && String.eqb (rel_resolved (sp_source p)) (dp_resolved_release_digest d))
        (failed_precondition "operation digest does not match the committed deployment") ;;
      guard_tx (pg_instant (now + from_secs (sp_deadline_seconds p))) database_error ;;
      put_operations database_error
        (operations db ++ [no_effect_operation now fresh_id actor request p (dp_revision_digest d)]) ;;
      put_targets
        (targets db
         ++ mkTargetRow fresh_id (so_node_id request) "proxy" "proxy" "complete" 0 true ("", "")
              (sp_source p) (sp_source p) "" "" false no_effect None
         :: imap (no_effect_engine_target fresh_id (so_node_id request) (sp_source p))
              (sorted_slots (sp_source_slots p))) ;;
      append_event fresh_id actor "OPERATION_NO_EFFECT"
        ("exact committed revision " +:+ pretty (rel_revision (sp_source p)) +:+ " is already converged") 0 ;;
      db ← get; lift (load_operation fresh_id db)
  | None => fail (failed_precondition "committed deployment snapshot is missing")
  end.

(** ** The staged deployment *)

(** The finalized deployment that the request names: the identifier of its operation, the
    digest of its revision, and its release with the slots. *)
Definition staged_target (actor : string) (request : SubmitOperationRequest) (revision : Z) :
    Tx (Uuid * string * (Release * list string)) :=
  inventory ← deployment_inventory (so_node_id request) revision;
  db ← get;
  match find_deployment (so_node_id request) revision db with
  | None => fail database_error
  | Some d =>
      guard_tx (one_of_texts (dp_state d) ["pending"; "active"]) database_error ;;
      guard_tx (is_none (dp_abandoned_at d)) (failed_precondition "staged allocation was abandoned") ;;
      guard_tx (String.eqb (dp_allocated_by d) actor)
        (permission_denied "staged allocation belongs to a different authenticated actor") ;;
      guard_tx (String.eqb (dp_attempt_token d) (so_request_token request))
        (failed_precondition "operation request_token must match the staged allocation token") ;;
      guard_tx (negb (is_none (dp_finalized_at d)) && negb (str_is_empty (dp_resolved_release_digest d)))
        (failed_precondition "staged deployment must be finalized before submission") ;;
      id ← match deployment_operation_id (dp_revision_digest d) with
           | Err _ => fail database_error
           | Ok text => match uuid_parse_str text with None => fail database_error | Some id => mret id end
           end;
      guard_tx (String.eqb (dp_bundle_digest d) (so_bundle_digest request)
                && String.eqb (rel_digest inventory.1) (so_bundle_digest request)
                && String.eqb (dp_resolved_release_digest d) (so_resolved_release_digest request)
                && String.eqb (rel_resolved inventory.1) (so_resolved_release_digest request))
        (failed_precondition
           "operation source or resolved digest does not match the finalized deployment") ;;
      mret (id, dp_revision_digest d, inventory)
  end.

Definition assign_deployment (actor : string) (id : Uuid) (d : DeploymentRow) : DeploymentRow :=
  mkDeploymentRow (dp_node_id d) (dp_revision d) (dp_attempt_token d) (dp_bundle_digest d)
    (dp_inventory d) (dp_state d) (Some actor) (dp_abandoned_at d) (Some id)
    (dp_resolved_release_digest d) (dp_finalized_at d) (dp_allocated_by d) (dp_revision_digest d)
    (dp_source_revision d).

Definition is_node (node_id : string) (n : NodeRow) : bool := String.eqb (nr_node_id n) node_id.

Definition is_deployment (node_id : string) (revision : Z) (d : DeploymentRow) : bool :=
  String.eqb (dp_node_id d) node_id && (dp_revision d =? revision)%Z.

(** The writes of an accepted submission. *)
Definition store_operation (now : Z) (id : Uuid) (actor : string) (request : SubmitOperationRequest)
    (p : SubmitPlan) (revision_digest : option string) (slots : list string) : Tx NodeOperation :=
  let deployment := is_deployment_action (sp_action p) in
  (if deployment then
     modify (λ db, set_nodes
       (update_where (is_node (so_node_id request))
          (λ n, mkNodeRow (nr_node_id n) (nr_current_revision n) (Some (rel_revision (sp_target p))))
          (nodes db)) db)
   else mret ()) ;;
  bind_texts (so_bundle_digest request :: so_resolved_release_digest request :: slots) ;;
  guard_tx (pg_instant (now + from_secs (sp_deadline_seconds p))) database_error ;;
  db ← get;
  put_operations (failed_precondition "node already has an active operation")
    (operations db ++ [new_operation now id actor request p revision_digest]) ;;
  (if deployment then
     modify (λ db, set_deployments
       (update_where (is_deployment (so_node_id request) (rel_revision (sp_target p)))
          (assign_deployment actor id) (deployments db)) db)
   else mret ()) ;;
  put_targets
    (targets db ++ new_proxy_target id request p :: imap (new_engine_target id request p) slots) ;;
  append_event id actor "OPERATION_SUBMITTED" (transition_detail p (so_engine_slot request)) 0 ;;
  fence_cleanup_authority now (so_node_id request) "OPERATION_SUBMITTED" ;;
  db ← get; lift (load_operation id db).

Definition default_policy (action : NodeOperationAction) : RolloutPolicy :=
  mkRolloutPolicy 1 false (if bool_decide (action = ActRestart) then 300 else 1800).

(** A request that its actor has not made before. *)
Definition submit_new (now : Z) (fresh_id : Uuid) (actor : string) (request : SubmitOperationRequest)
    (source_revision : Z) : Tx NodeOperation :=
  let action := default ActUnspecified (action_try_from (so_action request)) in
  guard_tx (negb (bool_decide (action = ActUnspecified)))
    (invalid_argument "operation action is required") ;;
  let policy := default (default_policy action) (so_policy request) in
  target_revision ← match i64_try_from (so_target_revision request) with
                    | Some v => mret v
                    | None => fail (invalid_argument "target_revision is too large")
                    end;
  deadline_seconds ← match i64_try_from (rp_deadline_seconds policy) with
                     | Some v => mret v
                     | None => fail (invalid_argument "deadline_seconds is too large")
                     end;
  source ← deployment_inventory (so_node_id request) source_revision;
  if bool_decide (action = ActDeployment) && (target_revision =? source_revision)%Z then
    submit_no_effect now fresh_id actor request
      (mkPlan action policy deadline_seconds source.1 source.2 source.1 source.2)
  else
    staged ← (if is_deployment_action action then
                s ← staged_target actor request target_revision;
                mret (s.1.1, Some s.1.2, s.2)
              else
                mret (fresh_id, None,
                      (mkRelease target_revision (rel_digest source.1) (rel_resolved source.1),
                       [so_engine_slot request])));
    let plan := mkPlan action policy deadline_seconds source.1 source.2 staged.2.1 staged.2.2 in
    slots ← lift (plan_slots plan (so_engine_slot request));
    store_operation now staged.1.1 actor request plan staged.1.2 slots.

Definition same_token (actor token : string) (r : OperationRow) : bool :=
  String.eqb (or_actor r) actor && String.eqb (or_request_token r) token.

Definition submit_tx (now : Z) (fresh_id : Uuid) (actor : string) (request : SubmitOperationRequest) :
    Tx (result Status NodeOperation) :=
  bind_texts [so_node_id request; actor; so_request_token request] ;;
  modify (ensure_node (so_node_id request)) ;;
  db ← get;
  match find_node (so_node_id request) db with
  | None => fail database_error
  | Some node =>
      match List.find (same_token actor (so_request_token request)) (operations db) with
      | Some existing =>
          guard_tx (bool_decide (or_request existing = request))
            (already_exists
               "request_token was already used by this actor with different operation content") ;;
          operation ← lift (load_operation (or_operation_id existing) db);
          mret (Ok operation)
      | None =>
          operation ← submit_new now fresh_id actor request (nr_current_revision node);
          mret (Ok operation)
      end
  end.

Definition submit (now : Z) (fresh_id : Uuid) (actor : string) (request : SubmitOperationRequest) :
    NodeDb → result Status NodeOperation * NodeDb :=
  transact (submit_tx now fresh_id actor request).

End submit.
