(* ===== verification/NodeRun.v ===== *)
(** * Running a node operation (wr-manager/src/operations.rs)

    Agents claim an operation under a lease, execute the step they are given, and report
    results and observations; each of these transactions lets the manager reconcile the
    operation once against a fresh snapshot. [now] is the transaction's [NOW()], [clock] the
    manager's reading of [Utc::now()]. *)

From stdpp Require Import pretty.
From S2P Require Import Prelude RustStr Utf8 Lists Orders Externals Grpc Lifecycle IndexedRouting Deployment Rollout Schedule Operations NodeStatus NodeTables NodeStore NodeSubmit.

Section run.
Context `{CL : CollationLib, UL : UuidLib, SH : Sha256Lib}.

Definition holds_of {A} (o : option A) (p : A → bool) : bool :=
  match o with Some a => p a | None => false end.

(** [changed = TRUE], and the effect taken back for another delivery. *)
Definition mark_changed (id : Uuid) (slot : string) : Tx () :=
  update_targets (is_slot_row id slot) (set_tr_changed true).

Definition retract_delivery (id : Uuid) (slot : string) : Tx () :=
  update_targets (is_slot_row id slot) (λ t, set_tr_effect (set_delivery None false (tr_effect t)) t).

Definition pin_slot (id : Uuid) (slot backend process : string) : Tx () :=
  update_targets (is_slot_row id slot) (set_tr_pins backend process).

(** ** Restoration of a slot *)

Definition ready_engine (s : OperationSlotProgress) (r : Release) (previous_backend previous_process : string) :
    ReadyExpectation :=
  mkReady SEngine (rel_revision r) (rel_digest r) previous_backend previous_process
    (ef_backend_instance_id (sl_effect s)) (ef_process_instance_id (sl_effect s)).

Definition conclusive (o : SlotObservation) : bool :=
  str_is_empty (so_obs_backend_query_error o) && negb (str_is_empty (so_obs_backend_instance_id o))
  && match so_obs_backend_state o with BpRunning | BpExited => true | _ => false end.

(** Nothing runs in the slot. *)
Definition proves_absence (o : SlotObservation) : bool :=
  bool_decide (so_obs_backend_state o = BpExited)
  && (rel_revision (so_obs_observed o) =? 0)%Z && str_is_empty (rel_digest (so_obs_observed o))
  && str_is_empty (so_obs_backend_query_error o) && negb (str_is_empty (so_obs_backend_instance_id o)).

Definition source_host_proven (snapshot : ClusterStatusSnapshot) (operation : NodeOperation)
    (slot : OperationSlotProgress) (observation : option SlotObservation) : bool :=
  if (rel_revision (sl_source slot) =? 0)%Z then
    holds_of observation proves_absence
    && exact_registration_absent snapshot (op_node_id operation) (sl_engine_slot slot)
         (rel_revision (sl_target slot))
  else
    holds_of observation (λ o, observation_ready snapshot o (ready_engine slot (sl_source slot) "" ""))
    && (exact_registration_count snapshot (op_node_id operation) (sl_engine_slot slot)
          (rel_revision (sl_source slot)) (rel_digest (sl_source slot)) =? 1)%nat.

Definition restore_slot (now : Z) (id : Uuid) (snapshot : ClusterStatusSnapshot)
    (operation : NodeOperation) (slot : OperationSlotProgress) : Tx bool :=
  let name := sl_engine_slot slot in
  let e := sl_effect slot in
  let observation := matching_observation snapshot operation name in
  if negb (bool_decide (sl_next_step slot = RestoreSource)) then mret false
  else if negb (str_is_empty (ef_condition_code e)) then
    pause_with_condition id name (ef_condition_code e)
      "restoration effect failed; explicit resume is required" ;;
    mret false
  else if ef_ambiguous e
          && holds_of observation (λ o, negb (str_is_empty (so_obs_backend_query_error o))) then
    pause_with_condition id name "RESTORATION_BACKEND_UNKNOWN"
      (match observation with
       | Some o => so_obs_backend_query_error o
       | None => "restoration backend state is inconclusive"
       end) ;;
    mret false
  else if source_host_proven snapshot operation slot observation then
    switch_authority now (op_node_id operation) name (rel_revision (sl_source slot)) ;;
    healthy ← lift (if (0 <? rel_revision (sl_source slot))%Z then
                      slot_routes_healthy snapshot (op_node_id operation) name
                        (rel_revision (sl_source slot)) (rel_digest (sl_source slot))
                    else Ok true);
    if negb healthy then
      set_slot_condition id name "RESTORATION_ROUTE_PENDING"
        "source authority is restored but required module routes have not converged" ;;
      mret false
    else
      advance_slot id name None (rel_revision (sl_source slot)) ;;
      mret true
  else if ef_ambiguous e && holds_of observation conclusive then
    update_targets (is_slot_row id name)
      (λ t, set_tr_condition "" ""
              (set_tr_effect (set_delivery None false (tr_effect t)) (set_tr_changed true t))) ;;
    mret true
  else
    set_slot_condition id name "RESTORATION_EVIDENCE_PENDING"
      (if ef_ambiguous e
       then "fresh inspection must prove whether the delivered effect changed the slot"
       else "fresh source backend, lifecycle, digest, registration, and route evidence are required") ;;
    mret false.

(** ** Forward steps of a slot *)

Definition reconcile_stop (id : Uuid) (snapshot : ClusterStatusSnapshot) (operation : NodeOperation)
    (slot : OperationSlotProgress) : Tx (option bool) :=
  let name := sl_engine_slot slot in
  let delivered := ef_delivered_at (sl_effect slot) in
  match delivered, matching_observation snapshot operation name with
  | Some _, Some o =>
      if negb (observation_after_delivery o delivered) then mret (Some false)
      else if bool_decide (so_obs_backend_state o = BpRunning)
              && String.eqb (so_obs_backend_instance_id o) (sl_pinned_backend_instance_id slot)
              && str_is_empty (so_obs_backend_query_error o) then
        retract_delivery id name ;; mret (Some true)
      else if negb (bool_decide (so_obs_backend_state o = BpExited))
              || str_is_empty (sl_pinned_backend_instance_id slot)
              || negb (String.eqb (so_obs_backend_instance_id o) (sl_pinned_backend_instance_id slot))
              || negb (str_is_empty (so_obs_backend_query_error o))
              || negb (exact_registration_absent snapshot (op_node_id operation) name
                         (rel_revision (sl_source slot)))
              || negb (old_routes_non_serving snapshot (op_node_id operation) name
                         (rel_revision (sl_source slot))) then
        pause_with_condition id name "STOP_EVIDENCE_PENDING"
          "the fresh pinned backend exit, registration removal, and non-serving routes are not all proven" ;;
        mret (Some false)
      else
        mark_changed id name ;;
        advance_slot id name (next_forward_step (sl_transition slot) StopBackend)
          (rel_revision (sl_source slot)) ;;
        mret None
  | _, _ => mret (Some false)
  end.

Definition observes (r : Release) (o : SlotObservation) : bool :=
  (rel_revision (so_obs_observed o) =? rel_revision r)%Z
  && String.eqb (rel_digest (so_obs_observed o)) (rel_digest r)
  && str_is_empty (so_obs_backend_query_error o).

Definition reconcile_select (id : Uuid) (snapshot : ClusterStatusSnapshot) (operation : NodeOperation)
    (slot : OperationSlotProgress) : Tx (option bool) :=
  let name := sl_engine_slot slot in
  let observation := matching_observation snapshot operation name in
  if holds_of observation (λ o, observation_after_delivery o (ef_delivered_at (sl_effect slot))
                                && observes (sl_source slot) o) then
    retract_delivery id name ;; mret (Some true)
  else if negb (holds_of observation (observes (sl_target slot))) then mret (Some false)
  else
    (if negb (rel_revision (sl_target slot) =? rel_revision (sl_source slot))%Z
     then mark_changed id name else mret ()) ;;
    advance_slot id name (next_forward_step (sl_transition slot) SelectRelease)
      (rel_revision (sl_source slot)) ;;
    mret None.

Definition reconcile_start (id : Uuid) (snapshot : ClusterStatusSnapshot) (operation : NodeOperation)
    (slot : OperationSlotProgress) : Tx (option bool) :=
  let name := sl_engine_slot slot in
  let observation := matching_observation snapshot operation name in
  let expected := ready_engine slot (sl_target slot) (sl_pinned_backend_instance_id slot)
                    (sl_pinned_process_instance_id slot) in
  if negb (holds_of observation (λ o, observation_ready snapshot o expected)) then
    if holds_of observation (λ o, observation_after_delivery o (ef_delivered_at (sl_effect slot))
                                  && bool_decide (so_obs_backend_state o = BpExited)
                                  && observes (sl_target slot) o) then
      retract_delivery id name ;; mret (Some true)
    else mret (Some false)
  else
    advance_slot id name (next_forward_step (sl_transition slot) StartBackend)
      (rel_revision (sl_source slot)) ;;
    mret None.

(** The source is proven before it may be stopped, and pinned. *)
Definition proving_source (slot : OperationSlotProgress) : bool :=
  (0 <? rel_revision (sl_source slot))%Z && str_is_empty (sl_pinned_process_instance_id slot).

Definition verify_expectation (slot : OperationSlotProgress) : ReadyExpectation :=
  if proving_source slot then ready_engine slot (sl_source slot) "" ""
  else ready_engine slot (sl_target slot) (sl_pinned_backend_instance_id slot)
         (sl_pinned_process_instance_id slot).

(** The observation and its lifecycle, when the evidence is ready and registered once. *)
Definition verified (snapshot : ClusterStatusSnapshot) (operation : NodeOperation)
    (slot : OperationSlotProgress) : option (SlotObservation * LifecycleStatus) :=
  o ← matching_observation snapshot operation (sl_engine_slot slot);
  status ← so_obs_lifecycle o;
  if observation_ready snapshot o (verify_expectation slot)
     && (exact_registration_count snapshot (op_node_id operation) (sl_engine_slot slot)
           (re_revision (verify_expectation slot)) (re_digest (verify_expectation slot)) =? 1)%nat
  then Some (o, status) else None.

Definition verify_pending (id : Uuid) (snapshot : ClusterStatusSnapshot) (operation : NodeOperation)
    (slot : OperationSlotProgress) : Tx (option bool) :=
  let name := sl_engine_slot slot in
  match matching_observation snapshot operation name with
  | Some o =>
      (if negb (str_is_empty (so_obs_backend_query_error o)) || ef_reported (sl_effect slot) then
         pause_with_condition id name
           (if proving_source slot then "SOURCE_EVIDENCE_INVALID" else "TARGET_EVIDENCE_INVALID")
           "exact fresh running backend, replacement identities, lifecycle READY, digest, and one registration are required"
       else mret ()) ;;
      mret (Some false)
  | None => mret (Some false)
  end.

Definition verify_source (id : Uuid) (snapshot : ClusterStatusSnapshot) (operation : NodeOperation)
    (slot : OperationSlotProgress) (observed : SlotObservation) (status : LifecycleStatus) :
    Tx (option bool) :=
  let name := sl_engine_slot slot in
  match op_policy operation with
  | None => fail (internal "stored rollout policy is missing")
  | Some policy =>
      available ← lift (stop_preserves_availability snapshot operation name policy);
      if negb available then
        pause_with_condition id name "AVAILABILITY_POLICY_BLOCKED"
          "the next withdrawal would exceed max_unavailable or remove the last healthy slot" ;;
        mret (Some false)
      else
        pin_slot id name (so_obs_backend_instance_id observed) (ls_process_instance_id status) ;;
        advance_slot id name (Some StopBackend) (rel_revision (sl_source slot)) ;;
        mret (Some true)
  end.

Definition verify_replacement (id : Uuid) (snapshot : ClusterStatusSnapshot) (operation : NodeOperation)
    (slot : OperationSlotProgress) (observed : SlotObservation) (status : LifecycleStatus) :
    Tx (option bool) :=
  let name := sl_engine_slot slot in
  let already_authoritative :=
    existsb (λ a, String.eqb (sa_node_id a) (op_node_id operation) && String.eqb (sa_engine_slot a) name
                  && (sa_revision a =? rel_revision (sl_target slot))%Z) (cs_slot_authorities snapshot) in
  let same := (rel_revision (sl_source slot) =? rel_revision (sl_target slot))%Z in
  if already_authoritative && negb same then
    pause_with_condition id name "PREMATURE_TARGET_AUTHORITY"
      "target became authoritative before the manager switch transaction" ;;
    mret (Some false)
  else
    pin_slot id name (so_obs_backend_instance_id observed) (ls_process_instance_id status) ;;
    advance_slot id name (Some (if same then VerifyServing else SwitchAuthority))
      (rel_revision (sl_source slot)) ;;
    mret None.

Definition reconcile_verify (id : Uuid) (snapshot : ClusterStatusSnapshot) (operation : NodeOperation)
    (slot : OperationSlotProgress) : Tx (option bool) :=
  match verified snapshot operation slot with
  | None => verify_pending id snapshot operation slot
  | Some (observed, status) =>
      if proving_source slot then verify_source id snapshot operation slot observed status
      else verify_replacement id snapshot operation slot observed status
  end.

Definition set_switched (d : EngineDetailRow) : EngineDetailRow :=
  mkDetailRow (ed_rollout_order d) (ed_authoritative_revision d) true (ed_serving_converged d)
    (ed_transition_kind d).

Definition set_converged (d : EngineDetailRow) : EngineDetailRow :=
  mkDetailRow (ed_rollout_order d) (ed_authoritative_revision d) (ed_authority_switched d) true
    (ed_transition_kind d).

Definition reconcile_switch (now : Z) (id : Uuid) (operation : NodeOperation)
    (slot : OperationSlotProgress) : Tx (option bool) :=
  let name := sl_engine_slot slot in
  switch_authority now (op_node_id operation) name (rel_revision (sl_target slot)) ;;
  update_targets (is_slot_row id name) (λ t, set_tr_changed true (alter_detail set_switched t)) ;;
  advance_slot id name (next_forward_step (sl_transition slot) SwitchAuthority)
    (rel_revision (sl_target slot)) ;;
  mret None.

Definition reconcile_serving (id : Uuid) (snapshot : ClusterStatusSnapshot) (operation : NodeOperation)
    (slot : OperationSlotProgress) : Tx (option bool) :=
  let name := sl_engine_slot slot in
  healthy ← lift (slot_routes_healthy snapshot (op_node_id operation) name
                    (rel_revision (sl_target slot)) (rel_digest (sl_target slot)));
  if negb healthy then
    set_slot_condition id name "SERVING_CONVERGENCE_PENDING"
      "fresh required module heartbeats and exact healthy default routes have not converged under target authority" ;;
    mret (Some false)
  else
    update_targets (is_slot_row id name) (alter_detail set_converged) ;;
    advance_slot id name None (rel_revision (sl_target slot)) ;;
    mret None.

(** [None] is the end of the [match], after which the slot's condition is cleared. *)
Definition reconcile_forward (now : Z) (id : Uuid) (snapshot : ClusterStatusSnapshot)
    (operation : NodeOperation) (slot : OperationSlotProgress) : Tx (option bool) :=
  match sl_next_step slot with
  | VerifyReleaseMetadata | VerifyProxy =>
      if negb (ef_reported (sl_effect slot)) then mret (Some false)
      else
        advance_slot id (sl_engine_slot slot) (next_forward_step (sl_transition slot) (sl_next_step slot))
          (rel_revision (sl_source slot)) ;;
        mret None
  | StopBackend => reconcile_stop id snapshot operation slot
  | SelectRelease => reconcile_select id snapshot operation slot
  | StartBackend => reconcile_start id snapshot operation slot
  | VerifyTarget => reconcile_verify id snapshot operation slot
  | SwitchAuthority => reconcile_switch now id operation slot
  | VerifyServing => reconcile_serving id snapshot operation slot
  | _ => mret (Some false)
  end.

Definition reconcile_slot (now : Z) (id : Uuid) (snapshot : ClusterStatusSnapshot)
    (operation : NodeOperation) (slot : OperationSlotProgress) : Tx bool :=
  if bool_decide (op_phase operation = PhRestoringSource) then
    restore_slot now id snapshot operation slot
  else if negb (str_is_empty (ef_condition_code (sl_effect slot))) then
    enter_restoration id "manager" "failed" (ef_condition_code (sl_effect slot))
      (if str_is_empty (ef_detail (sl_effect slot)) then "typed effect failed"
       else ef_detail (sl_effect slot)) ;;
    mret false
  else
    outcome ← reconcile_forward now id snapshot operation slot;
    match outcome with
    | Some returned => mret returned
    | None => clear_slot_condition id (sl_engine_slot slot) ;; mret true
    end.

(** ** The operation *)

(** [min_by_key] returns the first of the least. *)
Fixpoint min_by_order (l : list OperationSlotProgress) : option OperationSlotProgress :=
  match l with
  | [] => None
  | s :: rest =>
      match min_by_order rest with
      | Some m => if (sl_rollout_order m <? sl_rollout_order s)%Z then Some m else Some s
      | None => Some s
      end
  end.

Definition finished_row (state : string) (r : OperationRow) : OperationRow :=
  set_or_state state (set_or_phase "complete" (release_lease r)).

Definition commit_node (node_id : string) (target : Z) (db : NodeDb) : NodeDb :=
  set_nodes
    (update_where (λ n, is_node node_id n && bool_decide (nr_target_revision n = Some target))
       (λ n, mkNodeRow (nr_node_id n) target None) (nodes db)) db.

Definition succeeded_deployment (d : DeploymentRow) : DeploymentRow :=
  mkDeploymentRow (dp_node_id d) (dp_revision d) (dp_attempt_token d) (dp_bundle_digest d)
    (dp_inventory d) "succeeded" (dp_allocation_actor d) (dp_abandoned_at d) (dp_operation_id d)
    (dp_resolved_release_digest d) (dp_finalized_at d) (dp_allocated_by d) (dp_revision_digest d)
    (dp_source_revision d).

Definition commit_deployment (node_id : string) (target : Z) (db : NodeDb) : NodeDb :=
  set_deployments
    (update_where (λ d, is_deployment node_id target d && one_of_texts (dp_state d) ["pending"; "active"])
       succeeded_deployment (deployments db)) db.

(** Every target is complete. *)
Definition finish_operation (now : Z) (id : Uuid) (actor : string) (operation : NodeOperation) : Tx () :=
  if bool_decide (op_phase operation = PhRestoringSource) then
    let terminal := if bool_decide (op_restoration_terminal_state operation = OpCancelled)
                    then "cancelled" else "failed" in
    update_operations (of_operation id) (finished_row terminal) ;;
    append_event id actor "SOURCE_RESTORED" terminal (op_lease_epoch operation)
  else if negb (bool_decide (op_action operation = ActRestart))
          && (0 <? rel_revision (op_target operation))%Z then
    let target := rel_revision (op_target operation) in
    modify (commit_node (op_node_id operation) target) ;;
    modify (commit_deployment (op_node_id operation) target) ;;
    fence_cleanup_authority now (op_node_id operation) "SERVING_COMMIT" ;;
    update_operations (of_operation id) (λ r, set_or_committed now (finished_row "succeeded" r)) ;;
    append_event id actor "REVISION_COMMITTED" (pretty target) (op_lease_epoch operation)
  else
    update_operations (of_operation id) (finished_row "succeeded") ;;
    append_event id actor "OPERATION_SUCCEEDED" "" (op_lease_epoch operation).

Definition reconcile (now clock : Z) (id : Uuid) (actor : string) : Tx () :=
  db ← get;
  snapshot ← lift (capture_cluster_status_snapshot now clock db);
  match List.find (λ o, String.eqb (op_operation_id o) (uuid_to_string id)) (cs_active_operations snapshot) with
  | None => fail (failed_precondition "operation is not active")
  | Some operation =>
      if negb (bool_decide (op_state operation = OpQueued) || bool_decide (op_state operation = OpRunning))
      then mret ()
      else
        proxy ← lift (proxy_target operation);
        if negb (restore_engine_slots_before_proxy operation) && negb (tp_complete proxy) then mret ()
        else
          slots ← lift (operation_slots operation);
          match min_by_order (List.filter (λ s, negb (sl_complete s)) slots) with
          | Some slot => reconcile_slot now id snapshot operation slot ;; mret ()
          | None =>
              if negb (tp_complete proxy) then mret ()
              else finish_operation now id actor operation
          end
  end.

End run.
