(* ===== verification/NodeAgent.v ===== *)
(** * The agent's side of a node operation (wr-manager/src/operations.rs, wr-common/src/agent_policy.rs)

    Attestation, claims under a lease, renewals, observations and results; and the operator's
    resume, cancel and change of policy. Every transaction of an agent is fenced by the node,
    the authenticated principal, the activation and the epoch of the lease. *)

From stdpp Require Import pretty.
From S2P Require Import Prelude RustStr Utf8 Lists Orders Externals Grpc Snapshot Lifecycle IndexedRouting Deployment Rollout Schedule Operations NodeStatus NodeTables NodeStore NodeSubmit NodeRun.

(** ** Capabilities *)

Definition AGENT_PROTOCOL_VERSION : string := "operator-engine-lifecycle-v1".

Definition validate_identity (value name : string) : result string () :=
  ensure? negb (str_is_empty value || (128 <? str_len value)%Z
                || negb (str_all (λ b, is_ascii_alphanumeric b || char_eqb b "-" || char_eqb b "_"
                                       || char_eqb b ".") value))
    else name +:+ " must be a non-empty stable identity" in
  Ok ().

Definition validate_sha256_digest (value name : string) : result string () :=
  ensure? valid_digest value else name +:+ " must be an exact SHA-256 digest" in Ok ().

Definition normalize_capabilities (values : list string) : result string (list string) :=
  let? _ := collect_results (λ c, validate_identity c "capability") values in
  Ok (sorted_slots values).

Definition missing_capabilities (required advertised : list string) : result string (list string) :=
  let? required := normalize_capabilities required in
  let? advertised := normalize_capabilities advertised in
  Ok (List.filter (λ c, negb (bool_decide (c ∈ advertised))) required).

(** [map_err(|error| Status::invalid_argument(error.to_string()))]. *)
Definition invalid {A} (r : result string A) : result Status A :=
  match r with Ok a => Ok a | Err e => Err (invalid_argument e) end.

Section agent.
Context `{CL : CollationLib, UL : UuidLib, SH : Sha256Lib}.

(** ** Policies and attestations *)

Record NodeAgentPolicy : Type := mkNodeAgentPolicy {
  na_node_id : string;
  na_protocol_version : string;
  na_retention_count : option Z;
  na_binary_digest : string;
  na_capabilities : list string;
}.

Record NodeAgentAttestation : Type := mkNodeAgentAttestation {
  nt_node_id : string;
  nt_agent_instance_id : string;
  nt_protocol_version : string;
  nt_binary_digest : string;
  nt_capabilities : list string;
}.

Definition canonical_agent_policy (policy : NodeAgentPolicy) : result Status (list string) :=
  let? _ := invalid (validate_identity (na_node_id policy) "node_id") in
  ensure? String.eqb (na_protocol_version policy) AGENT_PROTOCOL_VERSION
    else invalid_argument "node-agent protocol version must exactly match this manager" in
  let? _ := invalid (validate_sha256_digest (na_binary_digest policy) "binary_digest") in
  invalid (normalize_capabilities (na_capabilities policy)).

Definition find_policy (node_id : string) (db : NodeDb) : option AgentPolicyRow :=
  List.find (λ p, String.eqb (ap_node_id p) node_id) (policies db).

Definition explicit_retention (policy : NodeAgentPolicy) : result Status (option Z) :=
  match na_retention_count policy with
  | None => Ok None
  | Some v =>
      ensure? negb (v =? 0)%Z else invalid_argument "retention_count must be positive" in
      match i32_try_from v with
      | Some v => Ok (Some v)
      | None => Err (invalid_argument "retention_count is too large")
      end
  end.

Definition upsert_policy (row : AgentPolicyRow) (l : list AgentPolicyRow) : list AgentPolicyRow :=
  let same p := String.eqb (ap_node_id p) (ap_node_id row) in
  if existsb same l then update_where same (λ _, row) l else l ++ [row].

(** One event for each row that an update returned. *)
Fixpoint append_events (actor code detail : string) (rows : list OperationRow) : Tx () :=
  match rows with
  | [] => mret ()
  | r :: rest =>
      append_event (or_operation_id r) actor code detail (or_lease_epoch r) ;;
      append_events actor code detail rest
  end.

Definition put_agent_policy_tx (now : Z) (actor : string) (policy : NodeAgentPolicy) :
    Tx (result Status NodeAgentPolicy) :=
  capabilities ← lift (canonical_agent_policy policy);
  explicit ← lift (explicit_retention policy);
  db ← get;
  let prior := find_policy (na_node_id policy) db in
  retention ← match explicit, prior with
              | Some v, _ => mret v
              | None, Some row => mret (ap_retention_count row)
              | None, None =>
                  fail (invalid_argument "retention_count is required when creating a node-agent policy")
              end;
  let changed :=
    match prior with
    | None => false
    | Some row =>
        negb (String.eqb (ap_protocol_version row) (na_protocol_version policy))
        || negb (String.eqb (ap_binary_digest row) (na_binary_digest policy))
        || negb (bool_decide (ap_capabilities row = capabilities))
    end in
  bind_texts [actor] ;;
  guard_tx (negb (str_is_empty actor)) database_error ;;
  modify (ensure_node (na_node_id policy)) ;;
  modify (λ db, set_policies
    (upsert_policy (mkAgentPolicy (na_node_id policy) (na_protocol_version policy) retention actor
                      (na_binary_digest policy) capabilities) (policies db)) db) ;;
  (if changed then
     fence_cleanup_authority now (na_node_id policy) "AGENT_POLICY_UPDATED" ;;
     rows ← update_operations
              (λ r, String.eqb (or_node_id r) (na_node_id policy) && String.eqb (or_state r) "running")
              (paused_row "AGENT_POLICY_UPDATED"
                 "node-agent policy changed; attest the replacement and explicitly resume");
     append_events actor "AGENT_POLICY_UPDATED"
       "active lease fenced; replacement activation requires explicit resume" rows
   else mret ()) ;;
  mret (Ok (mkNodeAgentPolicy (na_node_id policy) (na_protocol_version policy) (Some retention)
              (na_binary_digest policy) capabilities)).

Definition put_agent_policy (now : Z) (actor : string) (policy : NodeAgentPolicy) :
    NodeDb → result Status NodeAgentPolicy * NodeDb :=
  transact (put_agent_policy_tx now actor policy).

Definition attestation_conditions (policy : option AgentPolicyRow) (attestation : NodeAgentAttestation)
    (capabilities : list string) : result Status (list DeploymentCondition) :=
  match policy with
  | None =>
      Ok [operation_condition "AGENT_POLICY_MISSING" "manager has no expected policy for this node"]
  | Some p =>
      match missing_capabilities (ap_capabilities p) capabilities with
      | Err _ => Err database_error
      | Ok missing =>
          Ok ((if String.eqb (ap_protocol_version p) (nt_protocol_version attestation) then []
               else [operation_condition "PROTOCOL_MISMATCH"
                       "agent protocol does not match manager policy"])
              ++ (if String.eqb (ap_binary_digest p) (nt_binary_digest attestation) then []
                  else [operation_condition "BINARY_MISMATCH"
                          "agent binary digest does not match manager policy"])
              ++ match missing with
                 | [] => []
                 | _ => [operation_condition "CAPABILITY_MISMATCH"
                           ("missing required capabilities: " +:+ str_join ", " missing)]
                 end)
      end
  end.

Definition upsert_attestation (row : AttestationRow) (l : list AttestationRow) : list AttestationRow :=
  let same a := String.eqb (at_node_id a) (at_node_id row)
                && String.eqb (at_agent_instance_id a) (at_agent_instance_id row) in
  if existsb same l then update_where same (λ _, row) l else l ++ [row].

(** An attestation is stored whatever its conditions; the node must exist. *)
Definition attest_tx (now : Z) (principal : string) (attestation : NodeAgentAttestation) :
    Tx (result Status (list DeploymentCondition)) :=
  lift (invalid (validate_identity (nt_node_id attestation) "node_id")) ;;
  lift (invalid (validate_identity (nt_agent_instance_id attestation) "agent_instance_id")) ;;
  lift (invalid (validate_sha256_digest (nt_binary_digest attestation) "binary_digest")) ;;
  capabilities ← lift (invalid (normalize_capabilities (nt_capabilities attestation)));
  db ← get;
  conditions ← lift (attestation_conditions (find_policy (nt_node_id attestation) db) attestation capabilities);
  bind_texts [principal; nt_protocol_version attestation] ;;
  guard_tx (negb (str_is_empty principal) && negb (str_is_empty (nt_protocol_version attestation))
            && negb (is_none (find_node (nt_node_id attestation) db))) database_error ;;
  modify (set_attestations
    (upsert_attestation
       (mkAttestation (nt_node_id attestation) (nt_agent_instance_id attestation) principal
          (nt_protocol_version attestation) (nt_binary_digest attestation) capabilities now)
       (attestations db))) ;;
  mret (Ok conditions).

Definition attest (now : Z) (principal : string) (attestation : NodeAgentAttestation) :
    NodeDb → result Status (list DeploymentCondition) * NodeDb :=
  transact (attest_tx now principal attestation).

(** An attestation of the last thirty seconds that meets the node's policy. *)
Definition attested (now : Z) (node_id agent_instance_id agent : string) (db : NodeDb) : bool :=
  existsb (λ a,
    String.eqb (at_node_id a) node_id && String.eqb (at_agent_instance_id a) agent_instance_id
    && String.eqb (at_authenticated_principal a) agent
    && (now - from_secs 30 <=? at_observed_at a)%Z
    && holds_of (find_policy node_id db) (λ p,
         String.eqb (at_protocol_version a) (ap_protocol_version p)
         && String.eqb (at_binary_digest a) (ap_binary_digest p)
         && forallb (λ c, bool_decide (c ∈ at_capabilities a)) (ap_capabilities p)))
    (attestations db).

(** ** The operator *)

Definition parse_operation_id (operation_id : string) : result Status Uuid :=
  match uuid_parse_str operation_id with
  | Some id => Ok id
  | None => Err (invalid_argument "operation_id must be a UUID")
  end.

Definition resumed_row (r : OperationRow) : OperationRow :=
  set_or_state "queued" (set_or_failure ("", "") (release_lease r)).

Definition resume_tx (operation_id actor : string) : Tx (result Status NodeOperation) :=
  id ← lift (parse_operation_id operation_id);
  rows ← update_operations (λ r, of_operation id r && String.eqb (or_state r) "paused") resumed_row;
  match rows with
  | [] => fail (failed_precondition "operation must be paused")
  | row :: _ =>
      append_event id actor "OPERATION_RESUMED" "fresh activation and epoch required" (or_lease_epoch row) ;;
      db ← get; operation ← lift (load_operation id db); mret (Ok operation)
  end.

Definition resume (operation_id actor : string) : NodeDb → result Status NodeOperation * NodeDb :=
  transact (resume_tx operation_id actor).

Definition cancel_tx (operation_id actor : string) : Tx (result Status NodeOperation) :=
  id ← lift (parse_operation_id operation_id);
  enter_restoration id actor "cancelled" "CANCEL_REQUESTED"
    "source restoration required before cancellation is terminal" ;;
  db ← get; operation ← lift (load_operation id db); mret (Ok operation).

Definition cancel (operation_id actor : string) : NodeDb → result Status NodeOperation * NodeDb :=
  transact (cancel_tx operation_id actor).

(** ** Leases *)

Definition expire_at (now : Z) : Z := (now + from_secs LEASE_SECONDS)%Z.

Definition lease_live (now : Z) (r : OperationRow) : bool :=
  match le_expires_at (or_lease r) with Some t => (now <? t)%Z | None => false end.

(** The row that an agent's lease of one epoch covers. *)
Definition leased (now : Z) (id : Uuid) (node_id agent agent_instance_id : string) (epoch : Z)
    (r : OperationRow) : bool :=
  of_operation id r && String.eqb (or_node_id r) node_id && String.eqb (or_state r) "running"
  && (or_lease_epoch r =? epoch)%Z
  && bool_decide (le_claimed_by (or_lease r) = Some agent)
  && bool_decide (le_agent_instance_id (or_lease r) = Some agent_instance_id)
  && lease_live now r.

(** The forward deadline has passed: the operation turns to restoration. *)
Definition expire_forward (id : Uuid) : Tx () :=
  enter_restoration id "manager" "failed" "FORWARD_DEADLINE_EXPIRED"
    "forward deadline expired; forward execution is permanently fenced".

Definition forward_expired (now : Z) (r : OperationRow) : Tx bool :=
  if String.eqb (or_phase r) "forward" then deadline_expired now (or_operation_id r) else mret false.

Definition extend_lease (now : Z) (r : OperationRow) : OperationRow :=
  set_or_lease (or_lease_epoch r)
    (mkLease (Some (expire_at now)) (le_claimed_by (or_lease r)) (le_agent_instance_id (or_lease r))) r.

Definition lease_epoch_try (epoch : Z) : Tx Z :=
  match i64_try_from epoch with
  | Some v => mret v
  | None => fail (invalid_argument "lease epoch is too large")
  end.

Definition renew_tx (now : Z) (node_id operation_id : string) (epoch : Z)
    (agent_instance_id agent : string) : Tx (result Status Z) :=
  id ← lift (parse_operation_id operation_id);
  epoch ← lease_epoch_try epoch;
  bind_texts [node_id; agent; agent_instance_id] ;;
  db ← get;
  match List.find (leased now id node_id agent agent_instance_id epoch) (operations db) with
  | None => fail (aborted "operation lease is stale, expired, or activation-mismatched")
  | Some r =>
      expired ← forward_expired now r;
      if (expired : bool) then
        expire_forward id ;;
        mret (Err (deadline_exceeded "forward operation deadline expired"))
      else
        update_operations (of_operation id) (extend_lease now) ;;
        mret (Ok (expire_at now))
  end.

Definition renew (now : Z) (node_id operation_id : string) (epoch : Z)
    (agent_instance_id agent : string) : NodeDb → result Status Z * NodeDb :=
  transact (renew_tx now node_id operation_id epoch agent_instance_id agent).

(** ** Claims *)

(** What the claim would have the agent do. *)
Record Selected : Type := mkSelected {
  se_slot_name : string;
  se_step : StepKind;
  se_release : Release;
  se_pinned_backend : string;
  se_pinned_process : string;
  se_delivered : bool;
  se_ambiguous : bool;
  se_kind : InstructionTargetKind;
}.

Definition select_proxy (operation : NodeOperation) (proxy : OperationTargetProgress) : Selected :=
  let step := tp_next_step proxy in
  let uses_source :=
    bool_decide (op_phase operation = PhRestoringSource)
    || match step with InspectBackend | StopBackend | VerifyTarget => true | _ => false end in
  mkSelected "" step (if uses_source then tp_source proxy else tp_target proxy)
    (tp_pinned_backend_instance_id proxy) (tp_pinned_process_instance_id proxy)
    (negb (is_none (ef_delivered_at (tp_effect proxy)))) (ef_ambiguous (tp_effect proxy)) TkProxy.

Definition select_slot (operation : NodeOperation) (slot : OperationSlotProgress) : option Selected :=
  let step := sl_next_step slot in
  if match step with SwitchAuthority | VerifyServing => true | _ => false end then None
  else
    let uses_source :=
      bool_decide (op_phase operation = PhRestoringSource) || bool_decide (step = StopBackend)
      || (bool_decide (step = VerifyTarget) && proving_source slot) in
    Some (mkSelected (sl_engine_slot slot) step (if uses_source then sl_source slot else sl_target slot)
            (sl_pinned_backend_instance_id slot) (sl_pinned_process_instance_id slot)
            (negb (is_none (ef_delivered_at (sl_effect slot)))) (ef_ambiguous (sl_effect slot)) TkEngineSlot).

Definition select_target (operation : NodeOperation) : result Status (option Selected) :=
  let? proxy := proxy_target operation in
  let? slots := operation_slots operation in
  let pending_slot := List.find (λ s, negb (sl_complete s)) slots in
  if negb (tp_complete proxy)
     && (negb (restore_engine_slots_before_proxy operation) || is_none pending_slot) then
    Ok (Some (select_proxy operation proxy))
  else
    match pending_slot with
    | Some slot => Ok (select_slot operation slot)
    | None => Ok None
    end.

Definition mutating (step : StepKind) : bool :=
  match step with StopBackend | SelectRelease | StartBackend | RestoreSource => true | _ => false end.

Definition inspection (s : Selected) : bool := (mutating (se_step s) && se_delivered s) || se_ambiguous s.

Definition instruction_step (s : Selected) : StepKind := if inspection s then InspectBackend else se_step s.

Definition selected_row (id : Uuid) (s : Selected) : TargetRow → bool :=
  if bool_decide (se_kind s = TkProxy) then is_proxy_row id else is_slot_row id (se_slot_name s).

Definition delivered_target (now : Z) (t : TargetRow) : TargetRow :=
  set_tr_effect (set_delivery (Some now) true (tr_effect t)) t.

(** The instruction, after its delivery is recorded. *)
Definition deliver (now : Z) (id : Uuid) (node_id agent_instance_id agent : string) (epoch : Z)
    (operation : NodeOperation) (s : Selected) : Tx AgentInstruction :=
  db ← get;
  revision_digest ←
    (if (rel_revision (se_release s) =? 0)%Z then mret ""
     else match find_deployment node_id (rel_revision (se_release s)) db with
          | Some d => mret (dp_revision_digest d)
          | None => fail (failed_precondition "instruction deployment is missing")
          end);
  guard_tx (target_step_compatible (se_kind s) (instruction_step s))
    (internal "stored target kind and step are incompatible") ;;
  (if mutating (se_step s) && negb (inspection s) then
     update_targets (selected_row id s) (delivered_target now)
   else mret ()) ;;
  append_event id agent "LEASE_CLAIMED" (se_slot_name s +:+ ":" +:+ step_name (instruction_step s)) epoch ;;
  let restoration := bool_decide (op_phase operation = PhRestoringSource) in
  mret (mkInstruction (uuid_to_string id) node_id epoch (instruction_step s)
          (if restoration then None else Some (op_forward_deadline operation)) agent_instance_id
          (mkInstructionTarget (target_kind_i32 (se_kind s)) (se_release s)
             (Some (if bool_decide (se_kind s = TkProxy) then ProxyIdentity
                    else EngineSlotIdentity (se_slot_name s))))
          (se_pinned_backend s) (se_pinned_process s) restoration revision_digest).

Definition expired_lease (now : Z) (node_id : string) (r : OperationRow) : bool :=
  String.eqb (or_node_id r) node_id && String.eqb (or_state r) "running"
  && match le_expires_at (or_lease r) with Some t => (t <=? now)%Z | None => false end.

Definition claimable_operation (now : Z) (node_id agent_instance_id : string) (locked : list Uuid)
    (r : OperationRow) : bool :=
  String.eqb (or_node_id r) node_id
  && (String.eqb (or_state r) "queued"
      || (String.eqb (or_state r) "running"
          && bool_decide (le_agent_instance_id (or_lease r) = Some agent_instance_id)
          && lease_live now r))
  && negb (bool_decide (or_operation_id r ∈ locked)).

Definition claimed_row (now : Z) (agent_instance_id agent : string) (r : OperationRow) : OperationRow :=
  set_or_state "running"
    (set_or_lease (or_lease_epoch r + 1)
       (mkLease (Some (expire_at now)) (Some agent) (Some agent_instance_id)) r).

(** A queued operation starts a new epoch; a running one is extended. *)
Definition take_lease (now : Z) (agent_instance_id agent : string) (r : OperationRow) : Tx Z :=
  let id := or_operation_id r in
  if String.eqb (or_state r) "queued" then
    guard_tx (negb (is_none (i64_try_from (or_lease_epoch r + 1)))) database_error ;;
    update_operations (of_operation id) (claimed_row now agent_instance_id agent) ;;
    mret (or_lease_epoch r + 1)%Z
  else
    update_operations (of_operation id) (extend_lease now) ;;
    mret (or_lease_epoch r).

Definition claim_tx (now clock : Z) (locked : list Uuid) (node_id agent_instance_id agent : string) :
    Tx (result Status (option AgentInstruction)) :=
  guard_tx (negb (str_is_empty agent_instance_id)) (invalid_argument "agent_instance_id is required") ;;
  bind_texts [node_id; agent_instance_id; agent] ;;
  db ← get;
  guard_tx (attested now node_id agent_instance_id agent db)
    (failed_precondition "fresh authenticated node-agent attestation is required") ;;
  expired ← update_operations (expired_lease now node_id)
              (paused_row "LEASE_EXPIRED" "node-agent lease expired");
  append_events "manager" "LEASE_EXPIRED" "explicit resume is required" expired ;;
  db ← get;
  match sort_by (λ a b, Z.compare (or_created_at a) (or_created_at b))
          (List.filter (claimable_operation now node_id agent_instance_id locked) (operations db)) with
  | [] => mret (Ok None)
  | r :: _ =>
      let id := or_operation_id r in
      late ← forward_expired now r;
      if (late : bool) then expire_forward id ;; mret (Ok None)
      else
        epoch ← take_lease now agent_instance_id agent r;
        reconcile now clock id agent ;;
        db ← get;
        operation ← lift (load_operation id db);
        if negb (bool_decide (op_state operation = OpRunning)) then mret (Ok None)
        else
          selected ← lift (select_target operation);
          match selected with
          | None => mret (Ok None)
          | Some s =>
              instruction ← deliver now id node_id agent_instance_id agent epoch operation s;
              mret (Ok (Some instruction))
          end
  end.

(** [locked] are the rows that other transactions hold and [SKIP LOCKED] passes over. *)
Definition claim (now clock : Z) (locked : list Uuid) (node_id agent_instance_id agent : string) :
    NodeDb → result Status (option AgentInstruction) * NodeDb :=
  transact (claim_tx now clock locked node_id agent_instance_id agent).

(** ** Observations *)

Definition backend_text (b : BackendProcessState) : string :=
  match b with
  | BpRunning => "running" | BpExited => "exited" | BpQueryError => "query_error"
  | BpUnspecified => "unknown"
  end.

Definition in_observed_slot (node_id slot : string) (o : ObservationRow) : bool :=
  String.eqb (ob_node_id o) node_id && String.eqb (ob_engine_slot o) slot.

(** [INSERT .. ON CONFLICT DO UPDATE .. WHERE observed_at <= EXCLUDED.observed_at]. *)
Definition upsert_observation (row : ObservationRow) (l : list ObservationRow) : list ObservationRow :=
  let same := in_observed_slot (ob_node_id row) (ob_engine_slot row) in
  if existsb same l then
    update_where (λ o, same o && (ob_observed_at o <=? ob_observed_at row)%Z) (λ _, row) l
  else l ++ [row].

Definition protection_changed (request : ReportNodeObservationRequest) (db : NodeDb) : bool :=
  match List.find (in_observed_slot (no_node_id request) (no_engine_slot request)) (observations db) with
  | None => true
  | Some o => negb (bool_decide (ob_observed o = no_observed request))
  end.

Definition observation_texts (request : ReportNodeObservationRequest) : list string :=
  [no_backend_instance_id request; rel_digest (no_observed request); rel_resolved (no_observed request);
   no_backend_query_error request].

Definition observation_row (clock : Z) (id : Uuid) (epoch : Z) (backend : BackendProcessState)
    (request : ReportNodeObservationRequest) : ObservationRow :=
  mkObservationRow (no_node_id request) (no_engine_slot request) (no_lifecycle request)
    (backend_text backend) (no_backend_instance_id request) (no_observed request) clock
    (no_backend_query_error request) (Some id) (no_agent_instance_id request) epoch.

Definition report_observation_tx (now clock : Z) (request : ReportNodeObservationRequest) (agent : string) :
    Tx (result Status NodeOperation) :=
  id ← lift (parse_operation_id (no_operation_id request));
  epoch ← lease_epoch_try (no_lease_epoch request);
  let backend := default BpUnspecified (backend_try_from (no_backend_state request)) in
  guard_tx (negb (bool_decide (backend = BpQueryError) && str_is_empty (no_backend_query_error request)))
    (invalid_argument "backend query errors require typed error evidence") ;;
  guard_tx (negb (is_none (i64_try_from (rel_revision (no_observed request)))))
    (invalid_argument "observed_revision is too large") ;;
  bind_texts [no_node_id request; agent; no_agent_instance_id request] ;;
  db ← get;
  match List.find (leased now id (no_node_id request) agent (no_agent_instance_id request) epoch)
          (operations db) with
  | None => fail (aborted "observation has a stale, expired, or activation-mismatched lease")
  | Some r =>
      bind_texts [no_engine_slot request] ;;
      late ← forward_expired now r;
      if (late : bool) then
        expire_forward id ;; mret (Err (deadline_exceeded "forward operation deadline expired"))
      else
        bind_texts (observation_texts request) ;;
        guard_tx (Bool.eqb (bool_decide (backend = BpQueryError))
                    (negb (str_is_empty (no_backend_query_error request)))) database_error ;;
        modify (set_observations
                  (upsert_observation (observation_row clock id epoch backend request) (observations db))) ;;
        (if protection_changed request db then
           fence_cleanup_authority now (no_node_id request) "OBSERVATION_CHANGED" ;; mret ()
         else mret ()) ;;
        reconcile now clock id agent ;;
        db ← get; operation ← lift (load_operation id db); mret (Ok operation)
  end.

Definition report_observation (now clock : Z) (request : ReportNodeObservationRequest) (agent : string) :
    NodeDb → result Status NodeOperation * NodeDb :=
  transact (report_observation_tx now clock request agent).

End agent.
