(* ===== verification/NodeReport.v ===== *)
(** * Results of steps (wr-manager/src/operations.rs)

    An agent reports the result of the step it was given. The report is accepted once per
    lease epoch, step and target; the proxy advances on its result, an engine slot only on
    what the manager observes afterwards. *)

From S2P Require Import Prelude RustStr Utf8 Lists Orders Externals Grpc Lifecycle IndexedRouting Deployment Rollout Schedule Operations NodeStatus NodeTables NodeStore NodeSubmit NodeRun NodeAgent.

Section report.
Context `{CL : CollationLib, UL : UuidLib, SH : Sha256Lib}.

Definition observed_matches (request : ReportStepResultRequest) (expected : Release) : bool :=
  bool_decide (sr_observed request = expected).

(** ** The proxy *)

Definition proxy_result_condition (request : ReportStepResultRequest) (step : StepKind)
    (expected : Release) (pinned_backend pinned_process : string) : string * string :=
  if negb (str_is_empty (sr_condition_code request)) then
    (sr_condition_code request, sr_detail request)
  else if negb (str_is_empty (sr_backend_query_error request)) then
    ("BACKEND_QUERY_ERROR", sr_backend_query_error request)
  else if negb (observed_matches request expected) then
    ("RELEASE_EVIDENCE_MISMATCH", "proxy evidence does not match the immutable instruction triple")
  else if (bool_decide (step = VerifyTarget) || bool_decide (step = VerifyProxy))
          && str_is_empty (sr_process_instance_id request) then
    ("PROXY_EVIDENCE_MISSING", "proxy verification requires a process identity")
  else default ("", sr_detail request) (stop_evidence_condition request step pinned_backend pinned_process).

Definition proxy_next (step : StepKind) : option StepKind :=
  match step with
  | InspectBackend => Some StopBackend
  | StopBackend => Some SelectRelease
  | SelectRelease => Some StartBackend
  | StartBackend => Some VerifyProxy
  | VerifyTarget => Some StopBackend
  | VerifyProxy | RestoreSource => Some StUnspecified
  | _ => None
  end.

Definition proxy_uses_source (step : StepKind) : bool :=
  match step with InspectBackend | StopBackend | RestoreSource | VerifyTarget => true | _ => false end.

Definition failed_effect (code detail : string) (e : Effect) : Effect :=
  mkEffect (ef_delivered_at e) (ef_reported e) (ef_observed e) (ef_backend_instance_id e)
    (ef_process_instance_id e) code detail (ef_ambiguous e) (ef_termination_evidence e).

Definition or_else (a b : string) : string := if str_is_empty a then b else a.

Definition reported_proxy (request : ReportStepResultRequest) (step next : StepKind) (t : TargetRow) :
    TargetRow :=
  let e := tr_effect t in
  set_tr_pins (or_else (sr_backend_instance_id request) (tr_pinned_backend_instance_id t))
    (or_else (sr_process_instance_id request) (tr_pinned_process_instance_id t))
    (set_tr_effect
       (mkEffect None true (sr_observed request) (sr_backend_instance_id request)
          (sr_process_instance_id request) "" "" false
          (if bool_decide (step = StopBackend) then sr_termination_evidence request
           else ef_termination_evidence e))
       (set_tr_changed (tr_changed t || mutating step)
          (set_tr_step (step_name next) (tr_completed_steps t)
             (String.eqb (step_name next) "complete") t))).

Definition result_texts (request : ReportStepResultRequest) : list string :=
  [rel_digest (sr_observed request); rel_resolved (sr_observed request); sr_backend_instance_id request;
   sr_process_instance_id request].

Definition stale_result (what : string) (expected reported : StepKind) : Status :=
  aborted ("stale " +:+ what +:+ " result: expected " +:+ step_name expected +:+ ", received "
           +:+ step_name reported).

Definition observed_revision_fits (request : ReportStepResultRequest) : Tx () :=
  guard_tx (negb (is_none (i64_try_from (rel_revision (sr_observed request)))))
    (invalid_argument "observed_revision is too large").

Definition report_proxy (now clock : Z) (id : Uuid) (request : ReportStepResultRequest) (step : StepKind)
    (agent : string) : Tx () :=
  db ← get;
  match List.find (λ t, is_proxy_row id t && negb (tr_complete t)) (targets db) with
  | None => fail database_error
  | Some proxy =>
      expected ← lift (parse_step (tr_next_step proxy));
      guard_tx (negb (bool_decide (expected = StUnspecified)) && bool_decide (expected = step))
        (stale_result "proxy" expected step) ;;
      let release := if proxy_uses_source step then tr_source proxy else tr_target proxy in
      let condition := proxy_result_condition request step release
                         (tr_pinned_backend_instance_id proxy) (tr_pinned_process_instance_id proxy) in
      if negb (str_is_empty condition.1) then
        bind_texts [condition.1; condition.2] ;;
        update_targets (is_proxy_row id)
          (λ t, set_tr_effect (failed_effect condition.1 condition.2 (tr_effect t)) t) ;;
        update_operations (of_operation id) (paused_row condition.1 condition.2) ;;
        mret ()
      else
        match proxy_next step with
        | None => fail (aborted "invalid proxy operation step")
        | Some next =>
            observed_revision_fits request ;;
            bind_texts (result_texts request) ;;
            update_targets (is_proxy_row id) (reported_proxy request step next) ;;
            reconcile now clock id agent
        end
  end.

(** ** Engine slots *)

Definition checks_release (step : StepKind) : bool :=
  match step with
  | VerifyReleaseMetadata | StopBackend | SelectRelease | StartBackend | VerifyTarget | RestoreSource => true
  | _ => false
  end.

Definition slot_uses_source (step : StepKind) (t : TargetRow) : bool :=
  match step with
  | StopBackend | RestoreSource => true
  | VerifyTarget => (0 <? rel_revision (tr_source t))%Z && str_is_empty (tr_pinned_process_instance_id t)
  | _ => false
  end.

Definition slot_result_condition (request : ReportStepResultRequest) (step : StepKind) (t : TargetRow)
    (pinned_proxy : string) : string * string :=
  let expected := if slot_uses_source step t then tr_source t else tr_target t in
  if negb (str_is_empty (sr_condition_code request)) then
    (sr_condition_code request, sr_detail request)
  else if negb (str_is_empty (sr_backend_query_error request)) then
    ("BACKEND_QUERY_ERROR", sr_backend_query_error request)
  else if checks_release step && negb (observed_matches request expected) then
    ("RELEASE_EVIDENCE_MISMATCH",
     "reported revision/digest do not match the immutable instruction snapshot")
  else if bool_decide (step = VerifyProxy) && str_is_empty (sr_process_instance_id request) then
    ("PROXY_EVIDENCE_MISSING", "proxy verification requires an activation process identity")
  else if bool_decide (step = VerifyProxy) && negb (str_is_empty pinned_proxy)
          && negb (String.eqb (sr_process_instance_id request) pinned_proxy) then
    ("PROXY_IDENTITY_CHANGED", "proxy process identity differs from the operation's pinned activation")
  else
    match stop_evidence_condition request step (tr_pinned_backend_instance_id t)
            (tr_pinned_process_instance_id t) with
    | Some condition => condition
    | None =>
        if match step with StopBackend | StartBackend | RestoreSource => true | _ => false end
           && str_is_empty (sr_backend_instance_id request) then
          ("BACKEND_IDENTITY_MISSING",
           "typed backend effects require the exact resulting backend instance identity")
        else if (bool_decide (step = StartBackend)
                 || (bool_decide (step = RestoreSource) && (0 <? rel_revision (tr_source t))%Z))
                && str_is_empty (sr_process_instance_id request) then
          ("PROCESS_IDENTITY_MISSING",
           "start and restoration effects require the exact resulting process identity")
        else ("", sr_detail request)
    end.

Definition reported_slot (request : ReportStepResultRequest) (step : StepKind)
    (condition : string * string) (t : TargetRow) : TargetRow :=
  let e := tr_effect t in
  set_tr_effect
    (mkEffect (ef_delivered_at e) true (sr_observed request) (sr_backend_instance_id request)
       (sr_process_instance_id request) condition.1 condition.2 (ef_ambiguous e)
       (if bool_decide (step = StopBackend) then sr_termination_evidence request
        else ef_termination_evidence e)) t.

Definition report_slot (now clock : Z) (id : Uuid) (epoch : Z) (request : ReportStepResultRequest)
    (step : StepKind) (slot pinned_proxy agent : string) : Tx () :=
  db ← get;
  match List.find (λ t, is_slot_row id slot t && negb (tr_complete t)) (targets db) with
  | None => fail (failed_precondition "operation slot is complete or unknown")
  | Some t =>
      expected ← lift (parse_step (tr_next_step t));
      guard_tx (bool_decide (expected = step)) (stale_result "step" expected step) ;;
      let condition := slot_result_condition request step t pinned_proxy in
      observed_revision_fits request ;;
      bind_texts (condition.1 :: condition.2 :: result_texts request) ;;
      update_targets (is_slot_row id slot) (reported_slot request step condition) ;;
      (if bool_decide (step = VerifyProxy) && str_is_empty condition.1 then
         update_targets (is_proxy_row id)
           (λ t, set_tr_pins (tr_pinned_backend_instance_id t)
                   (or_else (tr_pinned_process_instance_id t) (sr_process_instance_id request)) t)
       else mret ()) ;;
      append_event id agent "EFFECT_REPORTED" (slot +:+ ":" +:+ step_name step) epoch ;;
      reconcile now clock id agent
  end.

(** ** Receipts *)

Definition receipt_key (id : Uuid) (epoch : Z) (request : ReportStepResultRequest)
    (kind key : string) : ReceiptKey :=
  mkReceiptKey id (sr_node_id request) (sr_agent_instance_id request) epoch (sr_step request) kind key.

Definition store_receipt (key : ReceiptKey) (agent : string) (request : ReportStepResultRequest) : Tx () :=
  guard_tx (negb (str_is_empty (rk_agent_instance_id key)) && negb (str_is_empty agent)
            && (0 <? rk_lease_epoch key)%Z && negb (str_is_empty (rk_node_id key))) database_error ;;
  modify (λ db, set_receipts (receipts db ++ [mkReceipt key agent request]) db).

Definition report_step_tx (now clock : Z) (request : ReportStepResultRequest) (agent : string) :
    Tx (result Status NodeOperation) :=
  id ← lift (parse_operation_id (sr_operation_id request));
  epoch ← lease_epoch_try (sr_lease_epoch request);
  let step := default StUnspecified (step_try_from (sr_step request)) in
  match sr_target request with
  | None => fail (invalid_argument "result target is required")
  | Some target =>
      target_key ← lift (instruction_target_key target);
      guard_tx (target_step_compatible (default TkUnspecified (target_kind_try_from (it_kind target))) step)
        (invalid_argument "target kind does not support the reported step") ;;
      let key := receipt_key id epoch request target_key.1 target_key.2 in
      bind_texts [sr_node_id request; sr_agent_instance_id request; target_key.2] ;;
      db ← get;
      match List.find (λ r, bool_decide (rc_key r = key)) (receipts db) with
      | Some receipt =>
          guard_tx (String.eqb (rc_authenticated_principal receipt) agent
                    && bool_decide (rc_result receipt = request))
            (aborted "result retry conflicts with the accepted instruction receipt") ;;
          operation ← lift (load_operation id db);
          mret (Ok operation)
      | None =>
          bind_texts [agent] ;;
          match List.find (leased now id (sr_node_id request) agent (sr_agent_instance_id request) epoch)
                  (operations db), List.find (is_proxy_row id) (targets db) with
          | Some r, Some proxy =>
              late ← forward_expired now r;
              if (late : bool) then
                expire_forward id ;;
                mret (Err (deadline_exceeded "forward operation deadline expired"))
              else
                (if String.eqb target_key.1 "proxy" then report_proxy now clock id request step agent
                 else report_slot now clock id epoch request step target_key.2
                        (tr_pinned_process_instance_id proxy) agent) ;;
                store_receipt key agent request ;;
                db ← get; operation ← lift (load_operation id db); mret (Ok operation)
          | _, _ => fail (aborted "result has a stale, expired, or activation-mismatched lease")
          end
      end
  end.

Definition report_step (now clock : Z) (request : ReportStepResultRequest) (agent : string) :
    NodeDb → result Status NodeOperation * NodeDb :=
  transact (report_step_tx now clock request agent).

End report.
