(* ===== verification/NodeHost.v ===== *)
(** * Node operations: what an agent reports (wr-cli/src/cmd/node_agent.rs, node_backend.rs)

    The messages that an agent builds from an instruction and from what its execution on the
    host found. The execution itself is the host's. *)

From S2P Require Import Prelude RustStr Utf8 Lists Orders Externals Grpc Lifecycle Rollout Operations NodeStatus NodeTables NodeStore NodeSubmit NodeRun NodeAgent NodeReport.

Inductive WorkloadTarget : Type := WtProxy | WtEngineSlot (engine_slot : string).

Definition workload_target (target : InstructionTarget) : result string WorkloadTarget :=
  match default TkUnspecified (target_kind_try_from (it_kind target)), it_identity target with
  | TkProxy, Some ProxyIdentity => Ok WtProxy
  | TkEngineSlot, Some (EngineSlotIdentity slot) =>
      if negb (str_is_empty slot) && negb (String.eqb slot "proxy") then Ok (WtEngineSlot slot)
      else Err "instruction target kind and identity mismatch"
  | _, _ => Err "instruction target kind and identity mismatch"
  end.

(** What the manager is told of it; without [backend_main_pid] and [cleanup_evidence]. *)
Record StepEvidence : Type := mkStepEvidence {
  sv_observed : Release;
  sv_backend_state : option BackendProcessState;
  sv_backend_instance_id : string;
  sv_process_instance_id : string;
  sv_backend_query_error : string;
  sv_lifecycle : option LifecycleStatus;
  sv_termination : option BackendTerminationEvidence;
}.

Definition backend_i32 (b : BackendProcessState) : Z :=
  match b with BpUnspecified => 0 | BpRunning => 1 | BpExited => 2 | BpQueryError => 3 end.

Record ActivationConfig : Type := mkActivation {
  ac_node_id : string;
  ac_agent_instance_id : string;
  ac_binary_digest : string;
}.

Definition AGENT_CAPABILITIES : list string :=
  ["continuous-lease-v1"; "manager-authorized-retention-v1"; "release-metadata-v1"; "systemd-lifecycle-v1"].

Definition attestation (config : ActivationConfig) : NodeAgentAttestation :=
  mkNodeAgentAttestation (ac_node_id config) (ac_agent_instance_id config) AGENT_PROTOCOL_VERSION
    (ac_binary_digest config) AGENT_CAPABILITIES.

Definition observation_request (config : ActivationConfig) (i : AgentInstruction) (evidence : StepEvidence) :
    result string (option ReportNodeObservationRequest) :=
  let? target := workload_target (ai_target i) in
  match target, sv_backend_state evidence with
  | WtProxy, _ | _, None => Ok None
  | WtEngineSlot slot, Some state =>
      Ok (Some (mkNodeObservation (ac_node_id config) slot (sv_lifecycle evidence) (backend_i32 state)
                  (sv_backend_instance_id evidence) (sv_observed evidence) (sv_backend_query_error evidence)
                  (ai_operation_id i) (ai_agent_instance_id i) (ai_lease_epoch i)))
  end.

(** [failure] is the error's chain of messages. *)
Definition result_request (config : ActivationConfig) (i : AgentInstruction) (evidence : StepEvidence)
    (failure : option string) : ReportStepResultRequest :=
  let condition := match failure with Some detail => ("HOST_STEP_FAILED", detail) | None => ("", "") end in
  mkStepResult (ac_node_id config) (ai_operation_id i) (ai_lease_epoch i) (step_i32 (ai_step i))
    condition.1 condition.2 (ai_agent_instance_id i) (sv_observed evidence) (sv_backend_instance_id evidence)
    (sv_process_instance_id evidence) (sv_backend_query_error evidence) (Some (ai_target i))
    (if bool_decide (ai_step i = StopBackend) then sv_termination evidence else None).

(** An execution that was not cut off: its evidence, or an error as its message and its chain. *)
Definition completed_evidence (i : AgentInstruction) (outcome : result (string * string) StepEvidence) :
    StepEvidence * option string :=
  match outcome with
  | Ok evidence => (evidence, None)
  | Err (message, chain) =>
      (mkStepEvidence (mkRelease (rel_revision (it_release (ai_target i))) (rel_digest (it_release (ai_target i))) "")
         None "" "" message None None, Some chain)
  end.

(** What is then pending. An inspection of a slot is reported by its observation alone. *)
Definition completed_reports (config : ActivationConfig) (i : AgentInstruction)
    (outcome : result (string * string) StepEvidence) :
    result string (option ReportNodeObservationRequest * option ReportStepResultRequest) :=
  let (evidence, failure) := completed_evidence i outcome in
  let? observation := observation_request config i evidence in
  let? target := workload_target (ai_target i) in
  let reports_via_result :=
    if bool_decide (ai_step i = InspectBackend) then match target with WtProxy => true | _ => false end
    else true in
  Ok (observation, if reports_via_result then Some (result_request config i evidence failure) else None).

(** The manager reads back the step and the target of the instruction. *)
Lemma step_try_from_i32 s : step_try_from (step_i32 s) = Some s.
Proof. by destruct s. Qed.
