(* ===== verification/NodeTx.v ===== *)
(** * Node operations: reasoning about transactions

    How a successful transaction is read off statement by statement, what each statement
    leaves of the tables, and the view of one operation: its row and its targets. *)

From S2P Require Import Prelude RustStr Utf8 Lists Orders Externals Grpc Lifecycle Rollout Operations NodeStatus NodeTables NodeStore NodeSubmit NodeRun NodeAgent NodeReport.

(** ** Successful statements *)

Lemma tx_bind_ok {A B} (t : Tx A) (k : A → Tx B) db b db' :
  (t ≫= k) db = Ok (b, db') ↔ ∃ a db1, t db = Ok (a, db1) ∧ k a db1 = Ok (b, db').
Proof. unfold mbind, tx_bind. destruct (t db) as [[a db1]|e]; naive_solver. Qed.

Lemma tx_ret_ok {A} (a : A) db b db' : (mret a : Tx A) db = Ok (b, db') → b = a ∧ db' = db.
Proof. by intros [= <- <-]. Qed.

Lemma tx_get_ok db b db' : get db = Ok (b, db') → b = db ∧ db' = db.
Proof. by intros [= <- <-]. Qed.

Lemma tx_modify_ok f db b db' : modify f db = Ok (b, db') → db' = f db.
Proof. by intros [= <-]. Qed.

Lemma tx_lift_ok {A} (r : result Status A) db b db' : lift r db = Ok (b, db') → r = Ok b ∧ db' = db.
Proof. unfold lift. destruct r; [|done]. by intros [= <- <-]. Qed.

Lemma tx_guard_ok b e db u db' : guard_tx b e db = Ok (u, db') → b = true ∧ db' = db.
Proof. unfold guard_tx. destruct b; [|done]. by intros [= <- <-]. Qed.

Lemma tx_bind_runs {A B} (t : Tx A) (k : A → Tx B) db a db' : t db = Ok (a, db') → (t ≫= k) db = k a db'.
Proof. intros H. unfold mbind, tx_bind. by rewrite H. Qed.

(** Reads off every statement of a successful transaction. *)
Ltac inv_tx :=
  repeat match goal with
  | H : (mbind _ _) _ = Ok (_, _) |- _ =>
      let a := fresh "v" in let d := fresh "db" in let H1 := fresh "Ht" in
      apply tx_bind_ok in H as (a & d & H1 & H)
  | H : mret _ _ = Ok (_, _) |- _ => apply tx_ret_ok in H as [? ?]; simplify_eq
  | H : get _ = Ok (_, _) |- _ => apply tx_get_ok in H as [? ?]; simplify_eq
  | H : modify _ _ = Ok (_, _) |- _ => apply tx_modify_ok in H; simplify_eq
  | H : lift _ _ = Ok (_, _) |- _ => apply tx_lift_ok in H as [? ?]; simplify_eq
  | H : guard_tx _ _ _ = Ok (_, _) |- _ => apply tx_guard_ok in H as [? ?]; simplify_eq
  | H : bind_texts _ _ = Ok (_, _) |- _ => apply tx_guard_ok in H as [? ?]; simplify_eq
  | H : fail _ _ = Ok (_, _) |- _ => discriminate H
  | H : (if ?b then _ else _) _ = Ok (_, _) |- _ => destruct b eqn:?
  | H : (match ?x with _ => _ end) _ = Ok (_, _) |- _ => destruct x eqn:?
  end.

(** A transaction moves the tables by a preorder when its statements do. *)
Definition tx_moves {A} (R : relation NodeDb) (t : Tx A) : Prop :=
  ∀ db a db', t db = Ok (a, db') → R db db'.

Lemma tx_moves_bind {A B} R `{!PreOrder R} (t : Tx A) (k : A → Tx B) :
  tx_moves R t → (∀ a, tx_moves R (k a)) → tx_moves R (t ≫= k).
Proof. intros Ht Hk db b db' (a & db1 & H1 & H2)%tx_bind_ok. etrans; [by eapply Ht|by eapply Hk]. Qed.

Lemma tx_moves_lift {A} R `{!PreOrder R} (r : result Status A) : tx_moves R (lift r).
Proof. by intros db a db' [_ ->]%tx_lift_ok. Qed.

Lemma tx_moves_guard R `{!PreOrder R} b e : tx_moves R (guard_tx b e).
Proof. by intros db a db' [_ ->]%tx_guard_ok. Qed.

Lemma tx_moves_modify R f : (∀ db, R db (f db)) → tx_moves R (modify f).
Proof. by intros Hf db a db' ->%tx_modify_ok. Qed.

Lemma tx_moves_get R `{!PreOrder R} : tx_moves R get.
Proof. by intros db a db' [_ ->]%tx_get_ok. Qed.

Lemma tx_moves_ret {A} R `{!PreOrder R} (a : A) : tx_moves R (mret a).
Proof. by intros db b db' [_ ->]%tx_ret_ok. Qed.

Lemma tx_moves_fail {A} R e : tx_moves R (fail e : Tx A).
Proof. by intros db a db'. Qed.

Create HintDb tx.

(** Follows the statements of a transaction; what it leaves are the writes that no hint knows. *)
Ltac tx_frame :=
  repeat match goal with
  | |- tx_moves _ (mbind _ _) => apply tx_moves_bind; [apply _| |intros ?]
  | |- tx_moves _ get => apply tx_moves_get, _
  | |- tx_moves _ (mret _) => apply tx_moves_ret, _
  | |- tx_moves _ (lift _) => apply tx_moves_lift, _
  | |- tx_moves _ (guard_tx _ _) => apply tx_moves_guard, _
  | |- tx_moves _ (bind_texts _) => apply tx_moves_guard, _
  | |- tx_moves _ (fail _) => apply tx_moves_fail
  | |- tx_moves _ (if ?b then _ else _) => destruct b eqn:?
  | |- tx_moves _ (match ?x with _ => _ end) => destruct x eqn:?
  | |- tx_moves _ (let x := _ in _) => cbv zeta
  | |- tx_moves _ _ => solve [eauto with tx]
  | |- tx_moves _ (modify _) => apply tx_moves_modify; done
  end.

Lemma transact_moves {A} R `{!PreOrder R} (t : Tx (result Status A)) db :
  tx_moves R t → R db (transact t db).2.
Proof. intros Ht. unfold transact. destruct (t db) as [[r db']|e] eqn:E; [by eapply Ht|done]. Qed.

(** ** Updates *)

Section update_where.
Context {A : Type}.
Implicit Types (p q : A → bool) (f g : A → A) (l : list A).

Lemma update_where_app p f l k : update_where p f (l ++ k) = update_where p f l ++ update_where p f k.
Proof. apply fmap_app. Qed.

Lemma update_where_id p f l : (∀ x, x ∈ l → p x = true → f x = x) → update_where p f l = l.
Proof.
  intros H. unfold update_where. rewrite <-(list_fmap_id l) at 2. apply list_fmap_ext.
  intros i x Hx%list_elem_of_lookup_2. simpl. destruct (p x) eqn:E; [|done]. by apply H.
Qed.

Lemma update_where_compose p f g l :
  (∀ x, p (f x) = p x) → update_where p g (update_where p f l) = update_where p (g ∘ f) l.
Proof.
  intros Hp. unfold update_where. rewrite <-list_fmap_compose. apply list_fmap_ext.
  intros i x _. simpl. destruct (p x) eqn:E; [by rewrite Hp, E|by rewrite E].
Qed.

Lemma update_where_ext p q f g l :
  (∀ x, x ∈ l → p x = q x) → (∀ x, x ∈ l → p x = true → f x = g x) → update_where p f l = update_where q g l.
Proof.
  intros Hp Hf. apply list_fmap_ext. intros i x Hx%list_elem_of_lookup_2. simpl.
  rewrite <-Hp by done. destruct (p x) eqn:E; [by apply Hf|done].
Qed.

Lemma filter_update_where q p f l :
  (∀ x, q (f x) = q x) → List.filter q (update_where p f l) = update_where p f (List.filter q l).
Proof.
  intros Hq. induction l as [|x l IH]; [done|]. cbn [update_where fmap list_fmap List.filter] in *.
  assert (q (if p x then f x else x) = q x) as -> by (destruct (p x); [apply Hq|done]).
  destruct (q x); [|exact IH]. cbn. f_equal. exact IH.
Qed.

Lemma find_update_where q p f l :
  (∀ x, q (f x) = q x) →
  List.find q (update_where p f l) = (λ x, if p x then f x else x) <$> List.find q l.
Proof.
  intros Hq. induction l as [|x l IH]; [done|]. cbn [update_where fmap list_fmap List.find].
  assert (q (if p x then f x else x) = q x) as -> by (destruct (p x); [apply Hq|done]).
  by destruct (q x).
Qed.

Lemma elem_of_update_where p f l y :
  y ∈ update_where p f l ↔ ∃ x, y = (if p x then f x else x) ∧ x ∈ l.
Proof. apply list_elem_of_fmap. Qed.

Lemma find_elem q l x : List.find q l = Some x → x ∈ l ∧ q x = true.
Proof. intros [H ?]%List.find_some. by rewrite <-list_elem_of_In in H. Qed.

Lemma find_none q l : List.find q l = None → ∀ x, x ∈ l → q x = false.
Proof. intros H x Hx. eapply List.find_none; [done|by apply list_elem_of_In]. Qed.

Lemma find_app q l k :
  List.find q (l ++ k) = match List.find q l with Some x => Some x | None => List.find q k end.
Proof. induction l as [|x l IH]; [done|]. simpl. by destruct (q x). Qed.

Lemma elem_of_filter_bool q l x : x ∈ List.filter q l ↔ q x = true ∧ x ∈ l.
Proof. rewrite !list_elem_of_In, filter_In. tauto. Qed.

Lemma filter_none q l : (∀ x, x ∈ l → q x = false) → List.filter q l = [].
Proof.
  induction l as [|x l IH]; [done|]. intros H. simpl.
  rewrite (H x) by left. apply IH. intros y Hy. apply H. by right.
Qed.

Lemma filter_all q l : (∀ x, x ∈ l → q x = true) → List.filter q l = l.
Proof.
  induction l as [|x l IH]; [done|]. intros H. simpl.
  rewrite (H x) by left. f_equal. apply IH. intros y Hy. apply H. by right.
Qed.

End update_where.

(** The tables as their constraints have them. *)
Definition operations_ok (l : list OperationRow) : bool := forallb operation_row_ok l && operations_unique l.
Definition targets_ok (l : list TargetRow) : bool := forallb target_row_ok l && targets_unique l.

Lemma put_operations_ok e l db u db' :
  put_operations e l db = Ok (u, db') → db' = set_operations l db ∧ operations_ok l = true.
Proof. unfold put_operations, operations_ok. intros. inv_tx.
  split; [done|]. by apply andb_true_iff. Qed.

Lemma put_targets_ok l db u db' :
  put_targets l db = Ok (u, db') → db' = set_targets l db ∧ targets_ok l = true.
Proof. unfold put_targets, targets_ok. intros. by inv_tx. Qed.

Lemma update_operations_ok p f db rows db' :
  update_operations p f db = Ok (rows, db') →
  db' = set_operations (update_where p f (operations db)) db ∧ rows = f <$> List.filter p (operations db)
  ∧ operations_ok (operations db') = true.
Proof.
  unfold update_operations. intros. inv_tx. apply put_operations_ok in Ht0 as [-> ?]. done.
Qed.

Lemma update_targets_ok p f db u db' :
  update_targets p f db = Ok (u, db') →
  db' = set_targets (update_where p f (targets db)) db ∧ targets_ok (targets db') = true.
Proof. unfold update_targets. intros. inv_tx. apply put_targets_ok in H as [-> ?]. done. Qed.

Lemma append_event_ok id actor code detail epoch db u db' :
  append_event id actor code detail epoch db = Ok (u, db') →
  ∃ l, db' = set_operation_events l db.
Proof. unfold append_event. intros. inv_tx. eauto. Qed.

(** ** The view of one operation *)

Definition OpView : Type := option OperationRow * list TargetRow.

Definition op_view (id : Uuid) (db : NodeDb) : OpView :=
  (find_operation_row id db, List.filter (target_of_operation id) (targets db)).

(** What a statement that does not write operations, targets or receipts leaves of them. *)
Definition same_core (db db' : NodeDb) : Prop :=
  operations db' = operations db ∧ targets db' = targets db ∧ receipts db' = receipts db.

#[global] Instance same_core_preorder : PreOrder same_core.
Proof. unfold same_core. split; [done|]. intros ??? (?&?&?) (?&?&?). naive_solver congruence. Qed.

Lemma same_core_view id db db' : same_core db db' → op_view id db' = op_view id db.
Proof. intros (H1 & H2 & _). unfold op_view, find_operation_row. by rewrite H1, H2. Qed.

Lemma append_event_core id actor code detail epoch : tx_moves same_core (append_event id actor code detail epoch).
Proof. intros db u db' [l ->]%append_event_ok. done. Qed.

#[export] Hint Resolve append_event_core : tx.

Lemma append_events_core actor code detail rows : tx_moves same_core (append_events actor code detail rows).
Proof. induction rows as [|r rows IH]; simpl; tx_frame. Qed.

Lemma fence_cleanup_core now node_id reason : tx_moves same_core (fence_cleanup_authority now node_id reason).
Proof. unfold fence_cleanup_authority, alter_cleanup. tx_frame. Qed.

#[export] Hint Resolve append_events_core fence_cleanup_core : tx.

Lemma switch_authority_core now node_id slot revision : tx_moves same_core (switch_authority now node_id slot revision).
Proof. unfold switch_authority. tx_frame. Qed.

#[export] Hint Resolve switch_authority_core : tx.

(** A row keeps what identifies it. *)
Definition keeps_key (f : TargetRow → TargetRow) : Prop :=
  ∀ t, tr_operation_id (f t) = tr_operation_id t ∧ tr_kind (f t) = tr_kind t ∧ tr_key (f t) = tr_key t.

Definition keeps_id (f : OperationRow → OperationRow) : Prop :=
  ∀ r, or_operation_id (f r) = or_operation_id r.

Lemma keeps_key_slot f id slot t : keeps_key f → is_slot_row id slot (f t) = is_slot_row id slot t.
Proof. intros H. destruct (H t) as (H1 & H2 & H3). unfold is_slot_row, target_of_operation. by rewrite H1, H2, H3. Qed.

Lemma keeps_key_compose f g : keeps_key f → keeps_key g → keeps_key (g ∘ f).
Proof. intros Hf Hg t. simpl. destruct (Hf t) as (?&?&?), (Hg (f t)) as (?&?&?). repeat split; congruence. Qed.

Lemma view_targets id p f db :
  keeps_key f →
  op_view id (set_targets (update_where p f (targets db)) db)
  = ((op_view id db).1, update_where p f (op_view id db).2).
Proof.
  intros Hf. unfold op_view. cbn [targets set_targets fst snd]. f_equal.
  apply filter_update_where. intros t. unfold target_of_operation. by destruct (Hf t) as (-> & _).
Qed.

Lemma view_operations id p f db :
  keeps_id f →
  op_view id (set_operations (update_where p f (operations db)) db)
  = ((λ r, if p r then f r else r) <$> (op_view id db).1, (op_view id db).2).
Proof.
  intros Hf. unfold op_view, find_operation_row. cbn [operations set_operations fst snd]. f_equal.
  apply find_update_where. intros r. unfold of_operation. by rewrite Hf.
Qed.

Lemma view_row_id id db r ts : op_view id db = (Some r, ts) → or_operation_id r = id.
Proof.
  unfold op_view, find_operation_row. intros [= [_ Hid]%find_elem _].
  unfold of_operation in Hid. by bool_to_prop.
Qed.

Lemma view_target_id id db t : t ∈ (op_view id db).2 → tr_operation_id t = id ∧ t ∈ targets db.
Proof.
  unfold op_view. cbn [snd]. intros [Hid Ht]%elem_of_filter_bool.
  unfold target_of_operation in Hid. by bool_to_prop.
Qed.

(** ** What an update of one slot or of the proxy leaves *)

(** [F] applied to one slot of an operation. *)
Definition slot_changed (id : Uuid) (slot : string) (F : TargetRow → TargetRow) (db db' : NodeDb) : Prop :=
  operations db' = operations db ∧ receipts db' = receipts db
  ∧ targets db' = update_where (is_slot_row id slot) F (targets db) ∧ keeps_key F
  ∧ targets_ok (targets db') = true.

Lemma slot_changed_compose id slot F G db db1 db' :
  slot_changed id slot F db db1 → slot_changed id slot G db1 db' → slot_changed id slot (G ∘ F) db db'.
Proof.
  intros (O1 & R1 & T1 & K1 & _) (O2 & R2 & T2 & K2 & ?).
  split; [congruence|]. split; [congruence|]. split; [|split; [by apply keeps_key_compose|done]].
  rewrite T2, T1. apply update_where_compose. intros t. by apply keeps_key_slot.
Qed.

Lemma core_slot_changed id slot F db db1 db' :
  same_core db db1 → slot_changed id slot F db1 db' → slot_changed id slot F db db'.
Proof. 
  intros (O1 & T1 & R1) (O2 & R2 & T2 & K2 & ?). split; [congruence|]. split; [congruence|]. split; [congruence|done].
 Qed.

Lemma update_slot_changed id slot F db u db' :
  keeps_key F → update_targets (is_slot_row id slot) F db = Ok (u, db') → slot_changed id slot F db db'.
Proof. intros K [-> ?]%update_targets_ok. done. Qed.

(** The row that [advance_slot] leaves. *)
Definition advance_row (next : option StepKind) (revision : Z) (t : TargetRow) : TargetRow :=
  alter_detail (set_authoritative_revision revision) (advanced_target next t).

Lemma advance_slot_changed id slot next revision db u db' :
  advance_slot id slot next revision db = Ok (u, db') →
  slot_changed id slot (advance_row next revision) db db'.
Proof.
  unfold advance_slot. intros H. inv_tx.
  refine (slot_changed_compose id slot (advanced_target next) _ db db0 db' _ _); by eapply update_slot_changed.
Qed.

Lemma set_slot_condition_changed id slot code detail db u db' :
  set_slot_condition id slot code detail db = Ok (u, db') →
  slot_changed id slot (set_tr_condition code detail) db db'.
Proof. unfold set_slot_condition. intros H. inv_tx. by eapply update_slot_changed. Qed.

(** A view after the change of a slot. *)
Lemma slot_changed_view id0 slot F db db' id :
  slot_changed id0 slot F db db' →
  op_view id db' = if decide (id = id0) then ((op_view id db).1, update_where (is_slot_row id0 slot) F (op_view id db).2)
                   else op_view id db.
Proof.
  intros (O & _ & T & K & _). unfold op_view, find_operation_row. rewrite O, T. cbn [fst snd].
  rewrite filter_update_where by (intros t; unfold target_of_operation; by destruct (K t) as (-> & _)).
  case_decide as Hid; [done|]. f_equal. apply update_where_id. intros t [Ht _]%elem_of_filter_bool Hs.
  unfold is_slot_row, target_of_operation in *. bool_to_prop. congruence.
Qed.
