(* ===== verification/NodeSteps.v ===== *)
(** * Node operations: the moves of one operation

    What may happen to an operation and its targets, as a relation on views: every
    transaction of operations.rs is a sequence of these moves (shown in the next file), and what
    holds of every operation is proved here by induction on them. A step of a slot needs
    evidence in a snapshot of the cluster; [Ev] says which snapshots may be consulted. *)

From S2P Require Import Prelude RustStr Utf8 Lists Orders Externals Grpc Lifecycle Rollout Operations NodeStatus NodeTables NodeStore NodeSubmit NodeRun NodeAgent NodeReport NodeTx.

(** ** Moves of a target *)

Definition at_step (t : TargetRow) (s : StepKind) : Prop := parse_step (tr_next_step t) = Ok s.

(** The slot still has to prove its source. *)
Definition proving_row (t : TargetRow) : bool :=
  (0 <? rel_revision (tr_source t))%Z && str_is_empty (tr_pinned_process_instance_id t).

Definition transition_of (t : TargetRow) (k : DerivedTransition) : Prop :=
  ∃ d, tr_detail t = Some d ∧ parse_transition (ed_transition_kind d) = Ok k.

Definition source_revision (t : TargetRow) : Z := rel_revision (tr_source t).
Definition target_revision (t : TargetRow) : Z := rel_revision (tr_target t).

(** ** Active rows *)

Lemma queued_active r : or_state r = "queued" → is_active r = true.
Proof. unfold is_active. by intros ->. Qed.

Lemma running_active r : or_state r = "running" → is_active r = true.
Proof. unfold is_active. by intros ->. Qed.

Lemma paused_active r : or_state r = "paused" → is_active r = true.
Proof. unfold is_active. by intros ->. Qed.

#[export] Hint Resolve queued_active running_active paused_active : wr.

Section steps.
Context `{UL : UuidLib}.

(** ** Evidence *)

Section evidence.
Context (sn : ClusterStatusSnapshot) (r : OperationRow) (t : TargetRow).

(** [o] is a fresh observation of the slot, made for the operation under its lease. *)
Definition observed_slot (o : SlotObservation) : Prop :=
  o ∈ cs_observations sn ∧ so_obs_node_id o = or_node_id r ∧ so_obs_engine_slot o = tr_key t
  ∧ so_obs_operation_id o = uuid_to_string (or_operation_id r)
  ∧ so_obs_agent_instance_id o = default "" (le_agent_instance_id (or_lease r))
  ∧ so_obs_lease_epoch o = or_lease_epoch r
  ∧ (cs_observed_at sn - so_obs_observed_at o ≤ from_secs EVIDENCE_FRESH_SECONDS)%Z.

Definition shows_release (o : SlotObservation) (release : Release) : Prop :=
  rel_revision (so_obs_observed o) = rel_revision release
  ∧ rel_digest (so_obs_observed o) = rel_digest release
  ∧ str_is_empty (so_obs_backend_query_error o) = true.

(** The backend runs the release and its process says that it is ready; neither is the
    [previous] one, where there is one. *)
Definition runs_ready (o : SlotObservation) (process : string) (release : Release)
    (previous_backend previous_process : string) : Prop :=
  observed_slot o ∧ shows_release o release ∧ so_obs_backend_state o = BpRunning
  ∧ str_is_empty (so_obs_backend_instance_id o) = false
  ∧ (str_is_empty previous_backend = false → so_obs_backend_instance_id o ≠ previous_backend)
  ∧ ∃ status, so_obs_lifecycle o = Some status
    ∧ ls_state status = wire_process_state PReady ∧ ls_service_kind status = wire_service_kind SEngine
    ∧ ls_process_instance_id status = process ∧ str_is_empty process = false
    ∧ (str_is_empty previous_process = false → process ≠ previous_process).

(** Exactly one fresh registration of the slot at the release. *)
Definition registered_once (release : Release) : Prop :=
  exact_registration_count sn (or_node_id r) (tr_key t) (rel_revision release) (rel_digest release) = 1.

(** The pinned backend has exited after the delivery of the stop, nothing is registered at
    the source any more, and no route to it is healthy. *)
Definition stopped_evidence : Prop :=
  ∃ o delivered, observed_slot o ∧ ef_delivered_at (tr_effect t) = Some delivered
    ∧ (delivered < so_obs_observed_at o)%Z ∧ so_obs_backend_state o = BpExited
    ∧ str_is_empty (so_obs_backend_query_error o) = true
    ∧ so_obs_backend_instance_id o = tr_pinned_backend_instance_id t
    ∧ exact_registration_absent sn (or_node_id r) (tr_key t) (rel_revision (tr_source t)) = true
    ∧ old_routes_non_serving sn (or_node_id r) (tr_key t) (rel_revision (tr_source t)) = true.

Definition selected_evidence : Prop := ∃ o, observed_slot o ∧ shows_release o (tr_target t).

Definition started_evidence : Prop :=
  ∃ o process, runs_ready o process (tr_target t) (tr_pinned_backend_instance_id t)
                 (tr_pinned_process_instance_id t).

(** The source runs as the pins will say. *)
Definition source_evidence (backend process : string) : Prop :=
  ∃ o, runs_ready o process (tr_source t) "" "" ∧ so_obs_backend_instance_id o = backend
    ∧ registered_once (tr_source t).

(** A replacement runs the target, which is not yet authoritative unless it is the source. *)
Definition target_evidence (backend process : string) : Prop :=
  ∃ o, runs_ready o process (tr_target t) (tr_pinned_backend_instance_id t)
         (tr_pinned_process_instance_id t)
    ∧ so_obs_backend_instance_id o = backend ∧ registered_once (tr_target t)
    ∧ (source_revision t ≠ target_revision t →
       ∀ a, a ∈ cs_slot_authorities sn → sa_node_id a = or_node_id r → sa_engine_slot a = tr_key t →
         sa_revision a ≠ target_revision t).

Definition serving_evidence (release : Release) : Prop :=
  slot_routes_healthy sn (or_node_id r) (tr_key t) (rel_revision release) (rel_digest release) = Ok true.

(** Nothing runs in the slot, or the source does and is served. *)
Definition restored_evidence : Prop :=
  (rel_revision (tr_source t) = 0%Z
   ∧ (∃ o, observed_slot o ∧ so_obs_backend_state o = BpExited
        ∧ rel_revision (so_obs_observed o) = 0%Z ∧ str_is_empty (so_obs_backend_query_error o) = true)
   ∧ exact_registration_absent sn (or_node_id r) (tr_key t) (rel_revision (tr_target t)) = true)
  ∨ (∃ o process, runs_ready o process (tr_source t) "" "") ∧ registered_once (tr_source t)
    ∧ ((0 < rel_revision (tr_source t))%Z → serving_evidence (tr_source t)).
End evidence.

(** A forward step that its evidence completes. The switch of authority follows the evidence
    of the target, which the step before it has required. *)
Inductive forward_move (sn : ClusterStatusSnapshot) (r : OperationRow) (t : TargetRow) : TargetRow → Prop :=
| fm_metadata k :
    at_step t VerifyReleaseMetadata → transition_of t k → ef_reported (tr_effect t) = true →
    forward_move sn r t (advance_row (next_forward_step k VerifyReleaseMetadata) (source_revision t) t)
| fm_stop k :
    at_step t StopBackend → transition_of t k → stopped_evidence sn r t →
    forward_move sn r t (advance_row (next_forward_step k StopBackend) (source_revision t) (set_tr_changed true t))
| fm_select k :
    at_step t SelectRelease → transition_of t k → selected_evidence sn r t →
    forward_move sn r t (advance_row (next_forward_step k SelectRelease) (source_revision t)
                      (set_tr_changed (tr_changed t || negb (target_revision t =? source_revision t)%Z) t))
| fm_start k :
    at_step t StartBackend → transition_of t k → started_evidence sn r t →
    forward_move sn r t (advance_row (next_forward_step k StartBackend) (source_revision t) t)
| fm_prove backend process :
    at_step t VerifyTarget → proving_row t = true →
    source_evidence sn r t backend process →
    forward_move sn r t (advance_row (Some StopBackend) (source_revision t) (set_tr_pins backend process t))
| fm_verify backend process :
    at_step t VerifyTarget → proving_row t = false → target_evidence sn r t backend process →
    forward_move sn r t
      (advance_row (Some (if (source_revision t =? target_revision t)%Z then VerifyServing else SwitchAuthority))
         (source_revision t) (set_tr_pins backend process t))
| fm_switch k :
    at_step t SwitchAuthority → transition_of t k →
    forward_move sn r t (advance_row (next_forward_step k SwitchAuthority) (target_revision t)
                      (set_tr_changed true (alter_detail set_switched t)))
| fm_serving :
    at_step t VerifyServing → serving_evidence sn r t (tr_target t) →
    forward_move sn r t (advance_row None (target_revision t) (alter_detail set_converged t)).

(** An effect is delivered when neither a delivery nor an ambiguous effect is on record. *)
Inductive delivered_move (t : TargetRow) : TargetRow → Prop :=
| dm_deliver now s :
    at_step t s → mutating s = true → ef_delivered_at (tr_effect t) = None →
    ef_ambiguous (tr_effect t) = false →
    delivered_move t (delivered_target now t).

Section moves.
Context (Ev : ClusterStatusSnapshot → Prop).

Inductive slot_move (r : OperationRow) (t : TargetRow) : TargetRow → Prop :=
| sm_condition code detail : slot_move r t (set_tr_condition code detail t)
| sm_deliver t' : tr_complete t = false → delivered_move t t' → slot_move r t t'
| sm_report request s condition :
    tr_complete t = false → at_step t s → slot_move r t (reported_slot request s condition t)
| sm_retract s :
    or_phase r ≠ "restoring_source" → tr_complete t = false → at_step t s → mutating s = true →
    slot_move r t (set_tr_effect (set_delivery None false (tr_effect t)) t)
| sm_forward sn t' :
    or_phase r ≠ "restoring_source" → tr_complete t = false → Ev sn → forward_move sn r t t' →
    slot_move r t t'
| sm_restored sn :
    or_phase r = "restoring_source" → tr_complete t = false → at_step t RestoreSource →
    Ev sn → restored_evidence sn r t →
    slot_move r t (advance_row None (source_revision t) t)
| sm_inspected :
    or_phase r = "restoring_source" → tr_complete t = false → at_step t RestoreSource →
    slot_move r t (set_tr_condition "" ""
                     (set_tr_effect (set_delivery None false (tr_effect t)) (set_tr_changed true t))).

Inductive proxy_move (t : TargetRow) : TargetRow → Prop :=
| pm_deliver t' : tr_complete t = false → delivered_move t t' → proxy_move t t'
| pm_failed code detail : proxy_move t (set_tr_effect (failed_effect code detail (tr_effect t)) t)
| pm_report request s next :
    tr_complete t = false → at_step t s → proxy_next s = Some next →
    proxy_move t (reported_proxy request s next t).

(** ** Moves of an operation *)

(** The state that a completed operation ends in. *)
Definition final_state (r : OperationRow) (state : string) : Prop :=
  if decide (or_phase r = "restoring_source") then state = "failed" ∨ state = "cancelled"
  else state = "succeeded".

(** How a slot starts. *)
Definition transition_ok (k : DerivedTransition) (source target : Release) : Prop :=
  match k with
  | Addition => rel_revision source = 0 ∧ 0 < rel_revision target
  | Removal => 0 < rel_revision source ∧ rel_revision target = 0
  | Replacement => 0 < rel_revision source ∧ 0 < rel_revision target
  | Unchanged => rel_revision source = rel_revision target
  | Restart => 0 < rel_revision source ∧ source = target
  end%Z.

(** The transition that an action gives a slot. *)
Definition transition_fits (action : string) (t : TargetRow) : Prop :=
  ∃ a k, parse_action action = Ok a ∧ transition_of t k
    ∧ match a with
      | ActRestart => k = Restart ∧ (0 < rel_revision (tr_source t))%Z ∧ tr_source t = tr_target t
      | ActDeployment | ActRollback => k = derive_transition (tr_source t) (tr_target t)
      | ActUnspecified => False
      end.

Definition fresh_slot (t : TargetRow) : Prop :=
  ∃ d k, tr_detail t = Some d ∧ parse_transition (ed_transition_kind d) = Ok k
    ∧ transition_ok k (tr_source t) (tr_target t)
    ∧ ed_authoritative_revision d = source_revision t
    ∧ tr_next_step t = match first_forward_step k with Some s => step_name s | None => "complete" end
    ∧ tr_complete t = is_none (first_forward_step k)
    ∧ tr_completed_steps t = 0%Z ∧ tr_pinned_process_instance_id t = "".

Definition fresh_proxy (t : TargetRow) : Prop :=
  tr_next_step t ∈ ["verify_target"; "select_release"; "complete"]
  ∧ tr_complete t = String.eqb (tr_next_step t) "complete".

Definition fresh_target (t : TargetRow) : Prop :=
  (tr_kind t = "proxy" ∧ fresh_proxy t) ∨ (tr_kind t = "engine_slot" ∧ fresh_slot t).

Definition uuid_in_range (id : Uuid) : Prop := (0 ≤ id < 2 ^ 128)%Z.

(** Submitted, or already what the node has committed. *)
Definition fresh_row (r : OperationRow) : Prop :=
  uuid_in_range (or_operation_id r) ∧ or_forward_fenced r = false ∧ or_lease_epoch r = 0%Z
  ∧ or_lease r = no_lease
  ∧ ((or_state r = "queued" ∧ or_phase r = "forward") ∨ (or_state r = "succeeded" ∧ or_phase r = "complete")).

Inductive op_move : OpView → OpView → Prop :=
| mv_create r ts :
    fresh_row r → (∀ t, t ∈ ts → fresh_target t) →
    (∀ t, t ∈ ts → tr_kind t = "engine_slot" → transition_fits (or_action r) t) →
    (or_phase r = "complete" → ∀ t, t ∈ ts → tr_complete t = true) →
    op_move (None, []) (Some r, ts)
| mv_claim r ts now agent_instance_id agent :
    or_state r = "queued" →
    op_move (Some r, ts) (Some (claimed_row now agent_instance_id agent r), ts)
| mv_extend r ts now : or_state r = "running" → op_move (Some r, ts) (Some (extend_lease now r), ts)
| mv_pause r ts code detail :
    or_state r = "queued" ∨ or_state r = "running" →
    op_move (Some r, ts) (Some (paused_row code detail r), ts)
| mv_resume r ts : or_state r = "paused" → op_move (Some r, ts) (Some (resumed_row r), ts)
| mv_restore r ts terminal code detail :
    is_active r = true → terminal = "failed" ∨ terminal = "cancelled" →
    op_move (Some r, ts) (Some (restoring_row terminal code detail r), restoring_target <$> ts)
| mv_slot r ts slot F :
    is_active r = true → keeps_key F →
    (∀ t, t ∈ ts → is_slot_row (or_operation_id r) slot t = true → slot_move r t (F t)) →
    op_move (Some r, ts) (Some r, update_where (is_slot_row (or_operation_id r) slot) F ts)
| mv_proxy r ts F :
    is_active r = true → keeps_key F →
    (∀ t, t ∈ ts → is_proxy_row (or_operation_id r) t = true → proxy_move t (F t)) →
    op_move (Some r, ts) (Some r, update_where (is_proxy_row (or_operation_id r)) F ts)
| mv_finish r r' ts state :
    is_active r = true → final_state r state →
    r' = finished_row state r ∨ (∃ now, r' = set_or_committed now (finished_row state r)) →
    (∀ t, t ∈ ts → tr_complete t = true) →
    op_move (Some r, ts) (Some r', ts).
End moves.

(** What is done on some evidence is done on more. *)
Lemma op_move_mono (Ev Ev' : ClusterStatusSnapshot → Prop) v v' :
  (∀ sn, Ev sn → Ev' sn) → op_move Ev v v' → op_move Ev' v v'.
Proof.
  intros HE Hm. destruct Hm; try (by econstructor). apply mv_slot; [done..|].
  intros t Ht Hp. destruct (H1 t Ht Hp); by econstructor; eauto.
Qed.

(** Moves on whatever evidence. *)
Definition any_snapshot : ClusterStatusSnapshot → Prop := λ _, True.

(** ** What holds of every operation *)

(** The steps of a transition, with the proof of its source before the stop. *)
Definition on_path (k : DerivedTransition) (s : StepKind) (proving : bool) : bool :=
  match k, s with
  | Addition, (VerifyReleaseMetadata | SelectRelease | StartBackend | VerifyTarget) => negb proving
  | Addition, (SwitchAuthority | VerifyServing) => true
  | Replacement, VerifyReleaseMetadata => proving
  | Replacement, (StopBackend | SelectRelease | StartBackend) => negb proving
  | Replacement, (VerifyTarget | SwitchAuthority | VerifyServing) => true
  | Removal, VerifyTarget => proving
  | Removal, StopBackend => negb proving
  | Removal, SwitchAuthority => true
  | Restart, (StopBackend | StartBackend) => negb proving
  | Restart, (VerifyTarget | VerifyServing) => true
  | _, _ => false
  end.

(** The steps that remain, this one included. *)
Definition steps_left (s : StepKind) (proving : bool) : Z :=
  match s with
  | VerifyReleaseMetadata => 8
  | VerifyTarget => if proving then 7 else 3
  | StopBackend => 6
  | SelectRelease => 5
  | StartBackend => 4
  | SwitchAuthority => 2
  | VerifyServing => 1
  | _ => 0
  end.

Definition MAX_FORWARD_STEPS : Z := 8.

Definition serving_revision (s : StepKind) (t : TargetRow) : Z :=
  if bool_decide (s = VerifyServing) then target_revision t else source_revision t.

Definition forward_slot (k : DerivedTransition) (d : EngineDetailRow) (t : TargetRow) : Prop :=
  if tr_complete t then
    ed_authoritative_revision d = target_revision t ∧ (tr_completed_steps t ≤ MAX_FORWARD_STEPS)%Z
  else
    ∃ s, at_step t s ∧ on_path k s (proving_row t) = true
      ∧ ed_authoritative_revision d = serving_revision s t
      ∧ (tr_completed_steps t + steps_left s (proving_row t) ≤ MAX_FORWARD_STEPS)%Z
      ∧ (s = StopBackend → str_is_empty (tr_pinned_backend_instance_id t) = false).

Definition restoring_slot (d : EngineDetailRow) (t : TargetRow) : Prop :=
  if tr_complete t then ed_authoritative_revision d = source_revision t else at_step t RestoreSource.

Definition finished_slot (r : OperationRow) (d : EngineDetailRow) (t : TargetRow) : Prop :=
  tr_complete t = true
  ∧ ed_authoritative_revision d
    = if String.eqb (or_state r) "succeeded" then target_revision t else source_revision t.

Definition phase_slot (r : OperationRow) (k : DerivedTransition) (d : EngineDetailRow) (t : TargetRow) : Prop :=
  (or_phase r = "forward" → forward_slot k d t)
  ∧ (or_phase r = "restoring_source" → restoring_slot d t)
  ∧ (or_phase r = "complete" → finished_slot r d t).

Definition slot_inv (r : OperationRow) (t : TargetRow) : Prop :=
  ∃ d k, tr_detail t = Some d ∧ parse_transition (ed_transition_kind d) = Ok k
    ∧ transition_ok k (tr_source t) (tr_target t)
    ∧ (ed_authoritative_revision d = source_revision t ∨ tr_changed t = true)
    ∧ phase_slot r k d t.

Definition proxy_inv (r : OperationRow) (t : TargetRow) : Prop :=
  tr_complete t = true
  ∨ or_phase r ≠ "complete" ∧
    tr_next_step t ∈ ["verify_target"; "stop_backend"; "select_release"; "start_backend"; "verify_proxy";
                      "restore_source"].

Definition row_inv (r : OperationRow) : Prop :=
  uuid_in_range (or_operation_id r)
  ∧ ((or_phase r = "forward" ∧ or_forward_fenced r = false)
     ∨ (or_phase r = "restoring_source" ∧ or_forward_fenced r = true)
     ∨ (or_phase r = "complete" ∧ is_active r = false
        ∧ (or_state r = "succeeded" ↔ or_forward_fenced r = false))).

Definition target_inv (r : OperationRow) (t : TargetRow) : Prop :=
  (tr_kind t = "proxy" ∧ proxy_inv r t) ∨ (tr_kind t = "engine_slot" ∧ slot_inv r t).

Definition view_inv (v : OpView) : Prop :=
  match v.1 with
  | None => v.2 = []
  | Some r => row_inv r ∧ ∀ t, t ∈ v.2 → target_inv r t
  end.

(** ** Stored names are read back *)

Lemma parse_step_name s : parse_step (step_name s) = Ok s.
Proof. by destruct s. Qed.

Lemma parse_step_inj a b s : parse_step a = Ok s → parse_step b = Ok s → a = b.
Proof.
  assert (∀ v, parse_step v = Ok s → v = step_name s) as Hn; [|intros ->%Hn ->%Hn; done].
  intros v. unfold parse_step.
  repeat (case_match eqn:E; [apply String.eqb_eq in E as ->; by intros [= <-]|clear E]). done.
Qed.

(** ** Preservation: the slots *)

Lemma advance_forward k d t next revision :
  match next with
  | None => revision = target_revision t ∧ (tr_completed_steps t + 1 ≤ MAX_FORWARD_STEPS)%Z
  | Some s =>
      on_path k s (proving_row t) = true ∧ revision = serving_revision s t
      ∧ (tr_completed_steps t + 1 + steps_left s (proving_row t) ≤ MAX_FORWARD_STEPS)%Z
      ∧ (s = StopBackend → str_is_empty (tr_pinned_backend_instance_id t) = false)
  end →
  forward_slot k (set_authoritative_revision revision d) (advance_row next revision t).
Proof.
  destruct next as [s|]; [|done]. intros (Hp & Hr & Hs & Hb). exists s. split; [|done].
  apply (parse_step_name s).
Qed.

(** The step of a slot that a move reads is the step that the slot is at. *)
Lemma forward_at k d t s :
  tr_complete t = false → forward_slot k d t → at_step t s →
  on_path k s (proving_row t) = true ∧ ed_authoritative_revision d = serving_revision s t
  ∧ (tr_completed_steps t + steps_left s (proving_row t) ≤ MAX_FORWARD_STEPS)%Z.
Proof.
  intros Hc. unfold forward_slot, at_step. rewrite Hc. intros (s' & Hs' & ? & ? & ? & _) Hs.
  rewrite Hs in Hs'. by simplify_eq.
Qed.

Lemma transition_of_eq t d k k' :
  tr_detail t = Some d → parse_transition (ed_transition_kind d) = Ok k → transition_of t k' → k' = k.
Proof. intros Hd Hk (d' & Hd' & Hk'). congruence. Qed.

(** The next step of a path is on it, with one step less to go. *)
Lemma next_step_on_path k t s :
  transition_ok k (tr_source t) (tr_target t) → on_path k s (proving_row t) = true →
  s ≠ VerifyTarget → s ≠ VerifyServing → s ≠ SwitchAuthority →
  ∃ s', next_forward_step k s = Some s' ∧ on_path k s' (proving_row t) = true
    ∧ s' ≠ VerifyServing ∧ s' ≠ StopBackend
    ∧ (1 + steps_left s' (proving_row t) ≤ steps_left s (proving_row t))%Z.
Proof.
  intros Hok Hp H1 H2 H3. destruct k, s; try done; cbn in *; eexists;
    (split; [reflexivity|]); destruct (proving_row t); try done; cbn; repeat split; try done; lia.
Qed.

(** After the switch a slot serves the target, or is done. *)
Lemma after_switch k t :
  on_path k SwitchAuthority (proving_row t) = true →
  next_forward_step k SwitchAuthority = Some VerifyServing ∧ on_path k VerifyServing (proving_row t) = true
  ∨ next_forward_step k SwitchAuthority = None.
Proof. destruct k; cbn; naive_solver. Qed.

Lemma steps_left_pos k s p : on_path k s p = true → (1 ≤ steps_left s p)%Z.
Proof. destruct k, s; try done; destruct p; cbn; lia. Qed.

Lemma source_evidence_pins sn r t backend process :
  source_evidence sn r t backend process →
  str_is_empty backend = false ∧ str_is_empty process = false.
Proof. intros (o & (_ & _ & _ & Hb & _ & st & _ & _ & _ & _ & Hp & _) & <- & _). done. Qed.

(** Where a forward move leads: the detail it leaves is that of the slot, with another
    authoritative revision. *)
Lemma forward_move_slot sn r k d t t' :
  tr_complete t = false → tr_detail t = Some d → parse_transition (ed_transition_kind d) = Ok k →
  transition_ok k (tr_source t) (tr_target t) → forward_slot k d t → forward_move sn r t t' →
  ∃ d', tr_detail t' = Some d' ∧ ed_transition_kind d' = ed_transition_kind d ∧ forward_slot k d' t'
    ∧ (ed_authoritative_revision d' = source_revision t ∨ tr_changed t' = true ∨
       (tr_changed t' = tr_changed t ∧ ed_authoritative_revision d' = ed_authoritative_revision d)).
Proof.
  intros Hc Hd Hk Hok Hf [k' Hs Hk' _|k' Hs Hk' _|k' Hs Hk' _|k' Hs Hk' _|b p Hs Hp Hev
    |b p Hs Hp _|k' Hs Hk'|Hs _];
    try (apply source_evidence_pins in Hev as [Hb Hpr]);
    destruct (forward_at k d t _ Hc Hf Hs) as (Hpath & Hauth & Hleft);
    try (rewrite (transition_of_eq _ _ _ _ Hd Hk Hk') in * );
    cbn [tr_detail advance_row alter_detail advanced_target set_tr_condition set_tr_effect set_tr_step
         set_tr_changed set_tr_pins]; rewrite Hd; eexists;
    (split; [reflexivity|]); (split; [reflexivity|]).
  all: split; [apply advance_forward|by auto].
  1-4: (edestruct (next_step_on_path k t) as (s' & -> & Hp' & Hv & Hst & Hl); [done..|];
        split; [exact Hp'|]; split; [unfold serving_revision; by rewrite bool_decide_false|];
        split; [|done];
        assert (tr_completed_steps t + 1 + steps_left s' (proving_row t) ≤ MAX_FORWARD_STEPS)%Z by lia; done).
  - assert (proving_row (set_tr_pins b p t) = false) as Hnp by (unfold proving_row; cbn; by rewrite Hpr, andb_false_r).
    rewrite Hnp. rewrite Hp in *. split; [by destruct k|]. split; [done|]. split; [|done]. cbn in *. lia.
  - assert (on_path k (if (source_revision t =? target_revision t)%Z then VerifyServing else SwitchAuthority)
              (proving_row (set_tr_pins b p t)) = true
            ∧ (steps_left (if source_revision t =? target_revision t then VerifyServing else SwitchAuthority)
                 (proving_row (set_tr_pins b p t)) ≤ 2)%Z) as [? Hl].
    { rewrite Hp in Hpath. unfold source_revision, target_revision.
      destruct k; try done; cbn in Hok; case_match; bool_to_prop; cbn; try done; try lia.
      destruct Hok as [_ Heq]. by rewrite Heq in *. }
    split; [done|]. split; [by case_match eqn:E; [apply Z.eqb_eq in E|]|].
    split; [|by case_match]. rewrite Hp in Hleft. cbn in Hleft |- *. cbn in Hl. lia.
  - destruct (after_switch k t Hpath) as [[-> Hp']| ->]; [|split; [done|cbn in *; lia]].
    split; [exact Hp'|]. split; [done|]. split; [cbn in *; lia|done].
  - split; [done|cbn in *; lia].
Qed.

(** A row that differs only in its condition, effect or [changed] mark keeps its place. *)
Definition same_place (t t' : TargetRow) : Prop :=
  tr_kind t' = tr_kind t ∧ tr_next_step t' = tr_next_step t ∧ tr_completed_steps t' = tr_completed_steps t
  ∧ tr_complete t' = tr_complete t ∧ tr_source t' = tr_source t ∧ tr_target t' = tr_target t
  ∧ tr_pinned_backend_instance_id t' = tr_pinned_backend_instance_id t
  ∧ tr_pinned_process_instance_id t' = tr_pinned_process_instance_id t
  ∧ (tr_changed t = true → tr_changed t' = true) ∧ tr_detail t' = tr_detail t.

Lemma same_place_slot r t t' : same_place t t' → slot_inv r t → slot_inv r t'.
Proof.
  intros (_ & H1 & H2 & H3 & H4 & H5 & H6 & H7 & H8 & H9) (d & k & Hd & Hk & Hok & Hch & Hp).
  exists d, k. rewrite H9, H4, H5. split; [done|]. split; [done|]. split; [done|].
  assert (source_revision t' = source_revision t ∧ target_revision t' = target_revision t) as [Hs Ht]
    by (unfold source_revision, target_revision; by rewrite H4, H5).
  split; [rewrite Hs; tauto|].
  unfold phase_slot, forward_slot, restoring_slot, finished_slot, serving_revision, at_step, proving_row in *.
  by rewrite H1, H2, H3, H4, H6, H7, Hs, Ht.
Qed.

Lemma same_place_proxy r t t' : same_place t t' → proxy_inv r t → proxy_inv r t'.
Proof. intros (_ & H1 & _ & H3 & _). unfold proxy_inv. by rewrite H1, H3. Qed.

Section preservation.
Context {Ev : ClusterStatusSnapshot → Prop}.

Lemma slot_move_kind r t t' : slot_move Ev r t t' → tr_kind t' = tr_kind t.
Proof. by intros [|? _ []| | |? ? _ _ _ []|? _ _ _ _ _|]. Qed.

Lemma slot_move_inv r t t' : row_inv r → is_active r = true → slot_move Ev r t t' → slot_inv r t → slot_inv r t'.
Proof.
  intros (_ & Hr) Ha Hm Hi.
  destruct Hm as [code detail|t' _ [now s _ _ _ _]|request s condition _ _|s _ _ _ _
    |sn t' Hph Hc _ Hf|sn Hph Hc Hs _ _|Hph Hc Hs];
    try (by eapply same_place_slot; [|exact Hi]).
  - destruct Hi as (d & k & Hd & Hk & Hok & Hch & Hp). destruct Hr as [[Hr _]|[[Hr _]|(_ & Hr & _)]]; [|done|congruence].
    destruct Hp as (Hp & _ & _). specialize (Hp Hr).
    destruct (forward_move_slot _ _ _ _ _ _ Hc Hd Hk Hok Hp Hf) as (d' & Hd' & Hk' & Hp' & Hch').
    assert (tr_source t' = tr_source t ∧ tr_target t' = tr_target t) as [Es Et] by (by destruct Hf).
    exists d', k. split; [done|]. split; [congruence|]. rewrite Es, Et. split; [done|].
    split; [|by unfold phase_slot; rewrite Hr; repeat split].
    unfold source_revision in *. rewrite Es. destruct Hch' as [?|[?|[-> ->]]]; [by left|by right|done].
  - destruct Hi as (d & k & Hd & Hk & Hok & Hch & _).
    exists (set_authoritative_revision (source_revision t) d), k.
    unfold advance_row. cbn. rewrite Hd. split; [done|]. split; [done|]. split; [done|]. split; [by left|].
    by unfold phase_slot; rewrite Hph; repeat split.
Qed.

Lemma proxy_move_inv r t t' : or_phase r ≠ "complete" → proxy_move t t' → proxy_inv r t → proxy_inv r t'.
Proof.
  intros Hph Hm Hi. destruct Hm as [t' _ [now s _ _ _ _]|code detail|request s next Hc Hs Hn];
    [by apply (same_place_proxy r t)..|].
  unfold proxy_inv, reported_proxy. cbn. destruct s; cbn in Hn; simplify_eq; try (by left);
    right; (split; [done|]); cbn; set_solver.
Qed.

Lemma proxy_move_kind t t' : proxy_move t t' → tr_kind t' = tr_kind t.
Proof. by intros [? ? []| |]. Qed.

(** ** Preservation: the operation *)

Lemma restoring_target_inv terminal code detail r t :
  target_inv r t → target_inv (restoring_row terminal code detail r) (restoring_target t).
Proof.
  intros [[Hk Hp]|[Hk (d & k & Hd & Htk & Hok & Hch & _)]].
  - left. split; [done|]. unfold proxy_inv, restoring_target. cbn.
    destruct (tr_changed t || _); [right; split; [done|set_solver]|by left].
  - right. split; [done|]. exists d, k. unfold restoring_target. cbn. split; [done|]. split; [done|].
    split; [done|]. split; [done|]. split; [done|]. split; [|done]. intros _. unfold restoring_slot. cbn.
    destruct (tr_changed t) eqn:Hc; cbn; [done|]. destruct Hch as [Hch|]; [|done].
    by destruct (ef_ambiguous _).
Qed.

Lemma fresh_slot_inv r t :
  fresh_row r → (or_phase r = "complete" → tr_complete t = true) → fresh_slot t → slot_inv r t.
Proof.
  intros (_ & _ & _ & _ & Hst) Hc (d & k & Hd & Hk & Hok & Ha & Hn & Hcm & H0 & Hpin).
  exists d, k. split; [done|]. split; [done|]. split; [done|]. split; [by left|].
  assert (tr_complete t = true → source_revision t = target_revision t) as Heq.
  { rewrite Hcm. by destruct k. }
  destruct Hst as [[Hs Hp]|[Hs Hp]]; unfold phase_slot; rewrite Hp; (split; [|split]); try done; intros _.
  - unfold forward_slot. destruct (tr_complete t) eqn:E; [rewrite Ha, H0; split; [by apply Heq|done]|].
    destruct (first_forward_step k) as [s|] eqn:Ef; [|done]. exists s. unfold at_step. rewrite Hn.
    split; [apply parse_step_name|]. rewrite Ha, H0.
    assert (proving_row t = (0 <? source_revision t)%Z) as -> by (unfold proving_row; by rewrite Hpin, andb_true_r).
    unfold source_revision in *. destruct k; cbn in Ef, Hok; simplify_eq; cbn [on_path steps_left];
      destruct (Z.ltb_spec 0 (rel_revision (tr_source t))); try lia; by repeat split.
  - split; [by apply Hc|]. rewrite Hs, Ha. by apply Heq, Hc.
Qed.

Lemma fresh_proxy_inv r t :
  (or_phase r = "complete" → tr_complete t = true) → fresh_proxy t → proxy_inv r t.
Proof.
  unfold fresh_proxy, proxy_inv. intros Hc [Hn Hcm]. destruct (tr_complete t) eqn:E; [by left|]. right.
  split; [by intros ?%Hc|]. rewrite !elem_of_cons, elem_of_nil in Hn.
  destruct_or! Hn; rewrite Hn in *; [set_solver..|done].
Qed.

Lemma target_inv_row r r' t :
  or_phase r' = or_phase r → (or_phase r = "complete" → or_state r' = or_state r) →
  target_inv r t → target_inv r' t.
Proof.
  intros Hp Hs [Hpx|[Hk (d & k & Hd & Htk & Hok & Hch & H1 & H2 & H3)]];
    [left; unfold proxy_inv in *; by rewrite Hp|].
  right. split; [done|]. exists d, k. do 4 (split; [done|]). unfold phase_slot. rewrite Hp.
  split; [done|]. split; [done|]. intros H. unfold finished_slot. rewrite (Hs H). by apply H3.
Qed.

Lemma finished_target_inv r r' t state :
  row_inv r → is_active r = true → final_state r state → or_phase r' = "complete" → or_state r' = state →
  tr_complete t = true → target_inv r t → target_inv r' t.
Proof.
  intros (_ & Hr) Ha Hf Hp Hs Hc [[? _]|[Hk (d & k & Hd & Htk & Hok & Hch & H1 & H2 & _)]];
    [left; by split; [|left]|].
  right. split; [done|]. exists d, k. do 4 (split; [done|]). unfold phase_slot. rewrite Hp.
  split; [done|]. split; [done|]. intros _. split; [done|]. rewrite Hs.
  unfold final_state in Hf. unfold forward_slot, restoring_slot in *. rewrite Hc in *.
  destruct Hr as [[Hr _]|[[Hr _]|(_ & Hr & _)]]; [| |congruence]; rewrite Hr in Hf; cbn in Hf.
  - rewrite Hf. by apply H1.
  - destruct Hf as [-> | ->]; by apply H2.
Qed.

Lemma row_inv_same r r' :
  or_operation_id r' = or_operation_id r → or_phase r' = or_phase r →
  or_forward_fenced r' = or_forward_fenced r → is_active r = true → row_inv r → row_inv r'.
Proof.
  intros Hid Hp Hf Ha [Hi Hr]. split; [by rewrite Hid|]. rewrite Hp, Hf.
  destruct Hr as [?|[?|(_ & Hr & _)]]; [by left|by right; left|congruence].
Qed.

(** An operation moves only while it is active. *)
Lemma op_move_active r ts v : op_move Ev (Some r, ts) v → is_active r = true.
Proof. inversion 1; subst; naive_solver eauto with wr. Qed.

Lemma active_phase r : row_inv r → is_active r = true → or_phase r ≠ "complete".
Proof. intros [_ [[-> _]|[[-> _]|(_ & ? & _)]]] ?; [done..|congruence]. Qed.

Lemma lease_move_inv r r' ts :
  or_operation_id r' = or_operation_id r → or_phase r' = or_phase r →
  or_forward_fenced r' = or_forward_fenced r → is_active r = true →
  view_inv (Some r, ts) → view_inv (Some r', ts).
Proof.
  intros Hid Hp Hf Ha [Hr Ht]. split; [by apply (row_inv_same r)|]. intros t Hin.
  apply (target_inv_row r); [done| |by apply Ht]. intros Hc.
  destruct Hr as [_ [[? _]|[[? _]|(_ & Hr & _)]]]; congruence.
Qed.

Lemma update_where_inv (P : TargetRow → Prop) p F ts :
  (∀ t, t ∈ ts → P t) → (∀ t, t ∈ ts → p t = true → P t → P (F t)) → ∀ t, t ∈ update_where p F ts → P t.
Proof.
  intros Hts HF t (t0 & -> & Hin)%elem_of_update_where. destruct (p t0) eqn:E; [|by apply Hts].
  apply HF; [done..|by apply Hts].
Qed.

Lemma op_move_inv v v' : op_move Ev v v' → view_inv v → view_inv v'.
Proof.
  intros Hm Hi. pose proof Hm as Hm0.
  destruct Hm as [r ts Hf Ht _ Hc|r ts now inst agent Hs|r ts now Hs|r ts code detail Hs|r ts Hs
    |r ts terminal code detail Ha Hterm|r ts slot F Ha Hk HF|r ts F Ha Hk HF|r r' ts state Ha Hs Hr' Hc].
  - split.
    + destruct Hf as (? & Hfe & _ & _ & Hst). split; [done|].
      destruct Hst as [[Hs Hp]|[Hs Hp]]; rewrite Hp, Hfe; [by left|right; right].
      unfold is_active. by rewrite Hs.
    + intros t Hin. destruct (Ht t Hin) as [[? ?]|[? ?]]; [left|right]; (split; [done|]).
      * by apply fresh_proxy_inv; [intros; apply Hc|].
      * apply fresh_slot_inv; [done|intros; by apply Hc|done].
  - apply (lease_move_inv r); eauto with wr.
  - apply (lease_move_inv r); eauto with wr.
  - apply (lease_move_inv r); destruct Hs; eauto with wr.
  - apply (lease_move_inv r); eauto with wr.
  - destruct Hi as [Hr Ht]. split; [split; [apply Hr|right; by left]|].
    intros t (t0 & -> & Hin)%list_elem_of_fmap. by apply restoring_target_inv, Ht.
  - destruct Hi as [Hr Ht]. split; [done|]. apply update_where_inv; [done|].
    intros t Hin Hp Hti. specialize (HF t Hin Hp). right.
    rewrite (slot_move_kind _ _ _ HF). unfold is_slot_row in Hp. bool_to_prop.
    destruct Hti as [[Hkd _]|[Hkd Hti]]; [rewrite Hkd in *; done|]. split; [done|]. by eapply slot_move_inv.
  - destruct Hi as [Hr Ht]. split; [done|]. apply update_where_inv; [done|].
    intros t Hin Hp Hti. specialize (HF t Hin Hp). left.
    rewrite (proxy_move_kind _ _ HF). unfold is_proxy_row in Hp. bool_to_prop.
    destruct Hti as [[Hkd Hti]|[Hkd _]]; [|rewrite Hkd in *; done]. split; [done|].
    eapply proxy_move_inv; [|done..]. by apply active_phase.
  - destruct Hi as [Hr Ht].
    assert (or_operation_id r' = or_operation_id r ∧ or_phase r' = "complete" ∧ or_state r' = state
            ∧ or_forward_fenced r' = or_forward_fenced r) as (Eid & Ep & Es & Ef)
      by (by destruct Hr' as [-> | [now ->]]).
    split; [|intros t Hin; eapply (finished_target_inv r); eauto].
    destruct Hr as [Hid Hr]. split; [by rewrite Eid|]. right; right. split; [done|].
    unfold is_active, final_state in *. rewrite Es, Ef.
    destruct Hr as [[Hr Hfe]|[[Hr Hfe]|(_ & Hr & _)]]; [| |congruence]; rewrite Hr in Hs; cbn in Hs; rewrite Hfe.
    + by rewrite Hs.
    + by destruct Hs as [-> | ->].
Qed.

Lemma op_moves_inv v v' : rtc (op_move Ev) v v' → view_inv v → view_inv v'.
Proof. induction 1; eauto using op_move_inv. Qed.

(** ** What moves keep *)

Lemma op_moves_final r ts v : is_active r = false → rtc (op_move Ev) (Some r, ts) v → v = (Some r, ts).
Proof. intros Ha. inversion 1 as [|? v1 ? Hm]; [done|]. apply op_move_active in Hm. congruence. Qed.

(** Who holds the lease. *)
Definition holder (r : OperationRow) : option string * option string :=
  (le_claimed_by (or_lease r), le_agent_instance_id (or_lease r)).

(** A later row of the operation: its epoch is no less; in the same epoch the lease is held by
    nobody else; a fence stays; and what was submitted is unchanged. *)
Definition submitted (r : OperationRow) :=
  (or_operation_id r, or_node_id r, or_request_token r, or_actor r, or_action r, or_request r, or_policy r,
   (or_source_revision r, or_target r, or_created_at r, or_forward_deadline r)).

Record later_row (r r' : OperationRow) : Prop := mkLaterRow {
  lr_epoch : (or_lease_epoch r ≤ or_lease_epoch r')%Z;
  lr_holder : or_lease_epoch r' = or_lease_epoch r → holder r' = (None, None) ∨ holder r' = holder r;
  lr_running : or_lease_epoch r' = or_lease_epoch r → or_state r' = "running" → or_state r = "running";
  lr_fenced : or_forward_fenced r = true → or_forward_fenced r' = true;
  lr_submitted : submitted r' = submitted r;
}.

#[global] Instance later_row_preorder : PreOrder later_row.
Proof.
  split; [by intros r; split; auto|]. intros a b c [E1 H1 R1 F1 S1] [E2 H2 R2 F2 S2]. split.
  - lia.
  - intros Heq. assert (or_lease_epoch b = or_lease_epoch a) as Hb by lia.
    destruct (H2 ltac:(lia)) as [?|Hc]; [by left|]. destruct (H1 Hb) as [Hn|Hh]; [|right; congruence].
    left. congruence.
  - intros Heq Hr. apply R1; [lia|]. apply R2; [lia|done].
  - auto.
  - congruence.
Qed.

Lemma final_state_not_running r state : final_state r state → state ≠ "running".
Proof. unfold final_state. case_decide; [by intros [-> | ->]|by intros ->]. Qed.

Lemma op_move_later r ts r' ts' : op_move Ev (Some r, ts) (Some r', ts') → later_row r r'.
Proof.
  inversion 1; subst; try done; try (split; cbn; auto; (done || lia)).
  match goal with H : final_state _ _ |- _ => apply final_state_not_running in H end.
  by match goal with H : _ ∨ _ |- _ => destruct H as [-> | [now ->]] end; split; cbn; auto; (done || lia).
Qed.

(** An operation is never removed. *)
Lemma op_move_some r ts v : op_move Ev (Some r, ts) v → ∃ r' ts', v = (Some r', ts').
Proof. inversion 1; subst; eauto. Qed.

Lemma op_moves_later r ts v : rtc (op_move Ev) (Some r, ts) v → ∃ r' ts', v = (Some r', ts') ∧ later_row r r'.
Proof.
  intros H. remember (Some r, ts) as v0 eqn:E. revert r ts E.
  induction H as [v|v v1 v2 Hm _ IH]; intros r ts ->; [by exists r, ts|].
  destruct (op_move_some _ _ _ Hm) as (r1 & ts1 & ->).
  destruct (IH _ _ eq_refl) as (r2 & ts2 & -> & Hl). exists r2, ts2. split; [done|].
  etrans; [by eapply op_move_later|done].
Qed.

(** What a target was submitted with. *)
Definition planned (t : TargetRow) :=
  (tr_operation_id t, tr_kind t, tr_key t, tr_source t, tr_target t,
   (λ d, (ed_rollout_order d, ed_transition_kind d)) <$> tr_detail t).

Lemma planned_detail t f :
  (∀ d, ed_rollout_order (f d) = ed_rollout_order d ∧ ed_transition_kind (f d) = ed_transition_kind d) →
  planned (alter_detail f t) = planned t.
Proof. intros Hf. unfold planned. cbn. destruct (tr_detail t) as [d|]; [|done]. cbn. by destruct (Hf d) as [-> ->]. Qed.

Lemma planned_advance next revision t : planned (advance_row next revision t) = planned t.
Proof. unfold advance_row. by rewrite planned_detail. Qed.

Lemma forward_move_planned sn r t t' : forward_move sn r t t' → planned t' = planned t.
Proof.
  intros []; rewrite planned_advance; try done;
    match goal with |- planned ?x = _ => change (planned (alter_detail set_switched t) = planned t)
                                       || change (planned (alter_detail set_converged t) = planned t) end;
    by rewrite planned_detail.
Qed.

Lemma slot_move_planned r t t' : slot_move Ev r t t' → planned t' = planned t.
Proof. intros [|? _ []| | |? ? _ _ _ Hf|? _ _ _ _ _|]; try done;
    [by eapply forward_move_planned|apply planned_advance]. Qed.

Lemma proxy_move_planned t t' : proxy_move t t' → planned t' = planned t.
Proof. by intros [? _ []| |]. Qed.

Lemma update_where_planned p F ts :
  (∀ t, t ∈ ts → p t = true → planned (F t) = planned t) → planned <$> update_where p F ts = planned <$> ts.
Proof.
  intros H. unfold update_where. rewrite <-list_fmap_compose. apply list_fmap_ext.
  intros i t Ht%list_elem_of_lookup_2. cbn. destruct (p t) eqn:E; [by apply H|done].
Qed.

Lemma op_move_planned r ts r' ts' : op_move Ev (Some r, ts) (Some r', ts') → planned <$> ts' = planned <$> ts.
Proof.
  inversion 1; subst; try done.
  - rewrite <-list_fmap_compose. by apply list_fmap_ext.
  - apply update_where_planned. eauto using slot_move_planned.
  - apply update_where_planned. eauto using proxy_move_planned.
Qed.

Lemma transition_fits_planned action t t' : planned t' = planned t → transition_fits action t → transition_fits action t'.
Proof.
  unfold planned. intros E (a & k & Ha & (d & Hd & Hk) & Hm). injection E as Eid Ek Ekey Es Et Ed.
  rewrite Hd in Ed. destruct (tr_detail t') as [d'|] eqn:Hd'; [|done]. cbn in Ed. injection Ed as _ Etr.
  exists a, k. split; [done|]. split; [exists d'; by rewrite Etr|]. by rewrite Es, Et.
Qed.

Definition view_fits (v : OpView) : Prop :=
  match v.1 with
  | None => True
  | Some r => ∀ t, t ∈ v.2 → tr_kind t = "engine_slot" → transition_fits (or_action r) t
  end.

Lemma op_move_fits v v' : op_move Ev v v' → view_fits v → view_fits v'.
Proof.
  destruct v as [[r|] ts]; [|by inversion 1]. intros Hm Hf. destruct (op_move_some _ _ _ Hm) as (r' & ts' & ->).
  pose proof (op_move_planned _ _ _ _ Hm) as Hp. destruct (op_move_later _ _ _ _ Hm) as [_ _ _ _ Es].
  cbn. intros t' Ht' Hk. apply (list_elem_of_fmap_2 planned) in Ht'. rewrite Hp in Ht'.
  apply list_elem_of_fmap in Ht' as (t & E & Ht). assert (or_action r' = or_action r) as -> by (unfold submitted in Es; congruence).
  apply (transition_fits_planned _ t); [done|]. apply Hf; [done|]. unfold planned in E. congruence.
Qed.

Lemma op_moves_fits v v' : rtc (op_move Ev) v v' → view_fits v → view_fits v'.
Proof. induction 1; eauto using op_move_fits. Qed.

End preservation.

End steps.
