(* ===== verification/NodeLoad.v ===== *)
(** * Node operations: what a loaded operation says of the tables

    The message that [load_operation] builds is read back as facts of the rows: every slot and
    the proxy of the message come from one row, and every row is one of them. *)

From S2P Require Import Prelude RustStr Utf8 Lists Orders Externals Grpc Lifecycle Rollout Operations NodeStatus NodeTables NodeStore NodeSubmit NodeRun NodeAgent NodeReport NodeTx NodeSteps.

Lemma collect_results_Forall2 {E A B} (f : A → result E B) l ys :
  collect_results f l = Ok ys ↔ Forall2 (λ x y, f x = Ok y) l ys.
Proof.
  revert ys. induction l as [|x l IH]; intros ys; simpl.
  - split; [by intros [= <-]|by inversion 1].
  - rewrite rbind_ok. setoid_rewrite rbind_ok. setoid_rewrite IH. split.
    + intros (y & Hy & rest & Hr & [= <-]). by constructor.
    + inversion 1; subst. naive_solver.
Qed.

(** A slot of a message and its row. *)
Record row_slot (t : TargetRow) (s : OperationSlotProgress) : Prop := mkRowSlot {
  rs_kind : tr_kind t = "engine_slot";
  rs_key : tr_key t = sl_engine_slot s;
  rs_step : at_step t (sl_next_step s);
  rs_complete : tr_complete t = sl_complete s;
  rs_source : tr_source t = sl_source s;
  rs_target : tr_target t = sl_target s;
  rs_backend : tr_pinned_backend_instance_id t = sl_pinned_backend_instance_id s;
  rs_process : tr_pinned_process_instance_id t = sl_pinned_process_instance_id s;
  rs_effect : tr_effect t = sl_effect s;
  rs_transition : transition_of t (sl_transition s);
  rs_authority : ed_authoritative_revision <$> tr_detail t = Some (sl_authoritative_revision s);
}.

Record row_proxy (t : TargetRow) (p : OperationTargetProgress) : Prop := mkRowProxy {
  rx_kind : tr_kind t = "proxy";
  rx_step : at_step t (tp_next_step p);
  rx_complete : tr_complete t = tp_complete p;
  rx_source : tr_source t = tp_source p;
  rx_target : tr_target t = tp_target p;
  rx_effect : tr_effect t = tp_effect p;
}.

Lemma target_from_row_kind t p :
  target_from_row t = Ok p →
  (tp_kind p = TkProxy ∧ row_proxy t p)
  ∨ (tp_kind p = TkEngineSlot ∧ ∃ s, slot_of_target p = Ok s ∧ row_slot t s).
Proof.
  unfold target_from_row. intros H. apply rbind_ok in H as ([[[kind identity] details] transition] & H1 & H).
  apply rbind_ok in H as (step & Hstep & [= <-]).
  destruct (String.eqb (tr_kind t) "proxy" && _) eqn:Ep.
  - simplify_eq. bool_to_prop. left. split; [done|]. by split; try apply String.eqb_eq.
  - clear Ep. destruct (String.eqb (tr_kind t) "engine_slot" && _ && _) eqn:Ee; [|done].
    bool_to_prop. destruct (tr_detail t) as [d|] eqn:Ed; [|done].
    apply rbind_ok in H1 as (k & Hk & [= <- <- <- <-]). right. split; [done|].
    unfold slot_of_target, engine_details, engine_slot, target_key. cbn. eexists.
    split; [by rewrite (proj2 (negb_true_iff _)) by done|].
    split; try done; [by apply String.eqb_eq|by exists d|by rewrite Ed].
Qed.

Section load.
Context `{CL : CollationLib, UL : UuidLib, SH : Sha256Lib}.

(** A message and the view it was loaded from. *)
Record loaded (r : OperationRow) (ts : list TargetRow) (o : NodeOperation) : Prop := mkLoaded {
  ld_id : op_operation_id o = uuid_to_string (or_operation_id r);
  ld_node : op_node_id o = or_node_id r;
  ld_action : parse_action (or_action r) = Ok (op_action o);
  ld_target : op_target o = or_target r;
  ld_state : parse_state (or_state r) = Ok (op_state o);
  ld_phase : parse_phase (or_phase r) = Ok (op_phase o);
  ld_epoch : op_lease_epoch o = or_lease_epoch r;
  ld_instance : op_agent_instance_id o = default "" (le_agent_instance_id (or_lease r));
  ld_source : op_source_revision o = or_source_revision r;
  ld_deadline : op_forward_deadline o = or_forward_deadline r;
  ld_terminal : transpose (or_restoration_terminal_state r) parse_state
                = Ok (match or_restoration_terminal_state r with
                      | None => None | Some _ => Some (op_restoration_terminal_state o) end);
  ld_targets : Forall2 (λ t p, target_from_row t = Ok p) (sort_by target_row_cmp ts) (op_targets o);
}.

Lemma load_operation_loaded id db o :
  load_operation id db = Ok o →
  ∃ r, find_operation_row id db = Some r ∧ loaded r (op_view id db).2 o.
Proof.
  unfold load_operation. destruct (find_operation_row id db) as [r|] eqn:Ef; [|done]. intros H. exists r.
  split; [done|]. unfold load_row in H.
  assert (or_operation_id r = id) as Hid.
  { unfold find_operation_row in Ef. apply find_elem in Ef as [_ Hid]. unfold of_operation in Hid. by bool_to_prop. }
  unfold op_view. cbn [snd]. rewrite <-Hid. unfold operation_from_row in H. inv_ok H. simplify_eq.
  split; try done; cbn; [|by apply collect_results_Forall2].
  unfold transpose in *. destruct (or_restoration_terminal_state r); [|done].
  destruct (parse_state s); simplify_eq/=; done.
Qed.

Lemma loaded_row r ts o t :
  loaded r ts o → t ∈ ts → ∃ p, p ∈ op_targets o ∧ target_from_row t = Ok p.
Proof.
  intros L Ht. rewrite <-(sort_by_perm target_row_cmp) in Ht.
  apply list_elem_of_lookup in Ht as [i Hi].
  destruct (Forall2_lookup_l _ _ _ _ _ (ld_targets _ _ _ L) Hi) as (p & Hp & ?).
  exists p. by eauto using list_elem_of_lookup_2.
Qed.

Lemma loaded_target r ts o p :
  loaded r ts o → p ∈ op_targets o → ∃ t, t ∈ ts ∧ target_from_row t = Ok p.
Proof.
  intros L [i Hi]%list_elem_of_lookup.
  destruct (Forall2_lookup_r _ _ _ _ _ (ld_targets _ _ _ L) Hi) as (t & Ht & ?).
  exists t. split; [|done]. rewrite <-(sort_by_perm target_row_cmp). by eapply list_elem_of_lookup_2.
Qed.

Lemma loaded_slots r ts o slots s :
  loaded r ts o → operation_slots o = Ok slots → s ∈ slots → ∃ t, t ∈ ts ∧ row_slot t s.
Proof.
  intros L Hs%collect_results_Forall2 [i Hi]%list_elem_of_lookup.
  destruct (Forall2_lookup_r _ _ _ _ _ Hs Hi) as (p & Hp%list_elem_of_lookup_2 & Hps).
  apply elem_of_filter_bool in Hp as [Hk Hp]. bool_to_prop.
  destruct (loaded_target _ _ _ _ L Hp) as (t & Ht & Hf). exists t. split; [done|].
  destruct (target_from_row_kind _ _ Hf) as [[? _]|(_ & s' & Hs' & Hr)]; [congruence|].
  rewrite Hps in Hs'. by simplify_eq.
Qed.

Lemma loaded_slot_row r ts o slots t :
  loaded r ts o → operation_slots o = Ok slots → t ∈ ts → tr_kind t = "engine_slot" →
  ∃ s, s ∈ slots ∧ row_slot t s.
Proof.
  intros L Hs%collect_results_Forall2 Ht Hk.
  destruct (loaded_row _ _ _ _ L Ht) as (p & Hp & Hf).
  destruct (target_from_row_kind _ _ Hf) as [[_ [Hpk _ _ _ _ _]]|(Hpk & s & Hs' & Hr)]; [congruence|].
  assert (p ∈ List.filter (λ t, bool_decide (tp_kind t = TkEngineSlot)) (op_targets o)) as [i Hi]%list_elem_of_lookup.
  { apply elem_of_filter_bool. split; [by apply bool_decide_true|done]. }
  destruct (Forall2_lookup_l _ _ _ _ _ Hs Hi) as (s2 & Hs2 & Hps).
  rewrite Hs' in Hps. simplify_eq. exists s2. by eauto using list_elem_of_lookup_2.
Qed.

Lemma loaded_proxy r ts o p : loaded r ts o → proxy_target o = Ok p → ∃ t, t ∈ ts ∧ row_proxy t p.
Proof.
  intros L. unfold proxy_target. destruct (List.find _ _) as [p'|] eqn:Ef; [|done]. intros [= ->].
  apply find_elem in Ef as [Hp Hk]. bool_to_prop.
  destruct (loaded_target _ _ _ _ L Hp) as (t & Ht & Hf). exists t. split; [done|].
  by destruct (target_from_row_kind _ _ Hf) as [[_ ?]|(? & _)]; [|congruence].
Qed.

Lemma loaded_kinds r ts o t : loaded r ts o → t ∈ ts → tr_kind t = "proxy" ∨ tr_kind t = "engine_slot".
Proof.
  intros L Ht. destruct (loaded_row _ _ _ _ L Ht) as (p & _ & Hf).
  destruct (target_from_row_kind _ _ Hf) as [[_ [? _ _ _ _ _]]|(_ & s & _ & [])]; auto.
Qed.

(** Texts of the states and phases. *)
Lemma parse_state_active v s :
  parse_state v = Ok s → s = OpQueued ∨ s = OpRunning → v = "queued" ∨ v = "running".
Proof.
  unfold parse_state. intros H.
  repeat (case_match eqn:E; [apply String.eqb_eq in E as ->; simplify_eq; naive_solver|clear E]). done.
Qed.

Lemma parse_state_running v : parse_state v = Ok OpRunning → v = "running".
Proof.
  unfold parse_state. intros H.
  repeat (case_match eqn:E; [apply String.eqb_eq in E as ->; simplify_eq; naive_solver|clear E]). done.
Qed.

Lemma parse_phase_restoring v p : parse_phase v = Ok p → p = PhRestoringSource ↔ v = "restoring_source".
Proof.
  unfold parse_phase. intros H.
  repeat (case_match eqn:E; [apply String.eqb_eq in E as ->; simplify_eq; naive_solver|clear E]). done.
Qed.

End load.
