(* ===== verification/NodeRefine.v ===== *)
(** * Node operations: transactions are moves

    Every transaction that succeeds moves every operation by the moves of NodeSteps, and
    keeps the tables within their constraints. *)

From S2P Require Import Prelude RustStr Utf8 Lists Orders Externals Grpc Lifecycle IndexedRouting Deployment Rollout Schedule Operations NodeStatus NodeTables NodeStore NodeSubmit NodeRun NodeAgent NodeReport NodeTx NodeSteps NodeLoad.

(** ** The tables *)

Record db_ok (db : NodeDb) : Prop := mkDbOk {
  dk_operations : operations_ok (operations db) = true;
  dk_targets : targets_ok (targets db) = true;
  dk_views : ∀ id, view_inv (op_view id db);
}.

Section refine.
Context `{CL : CollationLib, UL : UuidLib, SH : Sha256Lib}.

(** The moves of every operation, of tables that are in order, on evidence in [Ev]. *)
Definition node_moves_on (Ev : ClusterStatusSnapshot → Prop) (db db' : NodeDb) : Prop :=
  db_ok db → db_ok db' ∧ ∀ id, rtc (op_move Ev) (op_view id db) (op_view id db').

Context {Ev : ClusterStatusSnapshot → Prop}.

#[local] Abbreviation node_moves := (node_moves_on Ev).
#[local] Abbreviation op_move := (op_move Ev).
#[local] Abbreviation slot_move := (slot_move Ev).

#[global] Instance node_moves_preorder : PreOrder node_moves.
Proof.
  split; [intros db H; split; [done|]; by intros id|]. intros a b c H1 H2 Ha. destruct (H1 Ha) as [Hb M1], (H2 Hb) as [Hc M2].
  split; [done|]. intros id. etrans; [apply M1|apply M2].
Qed.

Lemma node_moves_intro db db' :
  (db_ok db → operations_ok (operations db') = true ∧ targets_ok (targets db') = true
              ∧ ∀ id, rtc op_move (op_view id db) (op_view id db')) →
  node_moves db db'.
Proof.
  intros H Hdb. destruct (H Hdb) as (Ho & Ht & Hm). split; [|done]. split; [done..|].
  intros id. apply (op_moves_inv (Ev := Ev) (op_view id db)); [apply Hm|apply Hdb].
Qed.

Lemma node_moves_ok db db' : (db_ok db → node_moves db db') → node_moves db db'.
Proof. intros H Hdb. by apply H. Qed.

Lemma same_core_moves db db' : same_core db db' → node_moves db db'.
Proof.
  intros Hc. apply node_moves_intro. intros [Ho Ht _]. pose proof Hc as (E1 & E2 & _).
  rewrite E1, E2. split; [done|]. split; [done|]. intros id. by rewrite (same_core_view id db db').
Qed.

Lemma tx_core_moves {A} (t : Tx A) : tx_moves same_core t → tx_moves node_moves t.
Proof. intros H db a db' Ht. by eapply same_core_moves, H. Qed.

(** Keys identify rows. *)
Lemma NoDup_fmap_inj {A B} (f : A → B) l x y : NoDup (f <$> l) → x ∈ l → y ∈ l → f x = f y → x = y.
Proof.
  intros Hn [i Hi]%list_elem_of_lookup [j Hj]%list_elem_of_lookup Hf.
  assert (i = j) as ->; [|congruence]. eapply NoDup_lookup; [done| |].
  - by rewrite list_lookup_fmap, Hi.
  - by rewrite list_lookup_fmap, Hj, Hf.
Qed.

Lemma operation_row_unique db r r' :
  db_ok db → r ∈ operations db → r' ∈ operations db → or_operation_id r = or_operation_id r' → r = r'.
Proof.
  intros [Ho _ _] Hr Hr' Heq. unfold operations_ok, operations_unique in Ho. bool_to_prop.
  by eapply (NoDup_fmap_inj or_operation_id (operations db)).
Qed.

Lemma target_row_unique db t t' :
  db_ok db → t ∈ targets db → t' ∈ targets db → tr_operation_id t = tr_operation_id t' →
  tr_kind t = tr_kind t' → tr_key t = tr_key t' → t = t'.
Proof.
  intros [_ Ht _] H1 H2 E1 E2 E3. unfold targets_ok, targets_unique in Ht. bool_to_prop.
  eapply (NoDup_fmap_inj (λ t, (tr_operation_id t, tr_kind t, tr_key t)) (targets db)); [done..|cbn; congruence].
Qed.

Lemma row_constraints db r : db_ok db → r ∈ operations db → operation_row_ok r = true.
Proof.
  intros [Ho _ _] Hr. unfold operations_ok in Ho. apply andb_true_iff in Ho as [Ho _].
  by apply (proj1 (forallb_forall _ _) Ho), list_elem_of_In.
Qed.

Lemma inactive_phase db r : db_ok db → r ∈ operations db → is_active r = false → or_phase r = "complete".
Proof.
  intros Hdb Hr Ha. pose proof (row_constraints _ _ Hdb Hr) as Hok. unfold operation_row_ok, is_active in *.
  rewrite Ha, andb_false_r, orb_false_r in Hok. bool_to_prop. by apply String.eqb_eq.
Qed.

Lemma target_constraints db t : db_ok db → t ∈ targets db → target_row_ok t = true.
Proof.
  intros [_ Ho _] Ht. unfold targets_ok in Ho. apply andb_true_iff in Ho as [Ho _].
  by apply (proj1 (forallb_forall _ _) Ho), list_elem_of_In.
Qed.

Lemma find_row id db r : find_operation_row id db = Some r → r ∈ operations db ∧ or_operation_id r = id.
Proof.
  unfold find_operation_row. intros [Hr Hid]%find_elem. unfold of_operation in Hid. by bool_to_prop.
Qed.

Lemma row_found db r : db_ok db → r ∈ operations db → find_operation_row (or_operation_id r) db = Some r.
Proof.
  intros Hdb Hr. destruct (find_operation_row (or_operation_id r) db) as [r'|] eqn:E.
  - destruct (find_row _ _ _ E) as [Hr' Hid]. f_equal. by eapply operation_row_unique.
  - pose proof (find_none _ _ E r Hr) as H. unfold of_operation in H. bool_to_prop. done.
Qed.

(** Rows of operations. *)
Lemma update_operations_moves p f db rows db' :
  keeps_id f → update_operations p f db = Ok (rows, db') →
  (db_ok db → ∀ id r ts, op_view id db = (Some r, ts) → p r = true → op_move (Some r, ts) (Some (f r), ts)) →
  node_moves db db'.
Proof.
  intros Hf (-> & _ & Ho)%update_operations_ok Hm. apply node_moves_intro. intros Hdb.
  split; [done|]. split; [apply Hdb|]. intros id. rewrite view_operations by done.
  destruct (op_view id db) as [[r|] ts] eqn:E; [|done]. cbn. destruct (p r) eqn:Ep; [|done].
  by eapply rtc_once, Hm.
Qed.

(** One slot of one operation. *)
Lemma slot_changed_moves id slot F db db' r :
  slot_changed id slot F db db' → find_operation_row id db = Some r → is_active r = true →
  (db_ok db → ∀ t, t ∈ (op_view id db).2 → is_slot_row id slot t = true → slot_move r t (F t)) →
  node_moves db db'.
Proof.
  intros Hc Hr Ha HF. apply node_moves_intro. intros Hdb. pose proof Hc as (O & _ & _ & K & T).
  rewrite O. split; [apply Hdb|]. split; [done|]. intros id'. rewrite (slot_changed_view _ _ _ _ _ id' Hc).
  case_decide as Hid; [subst id'|done]. destruct (find_row _ _ _ Hr) as [_ Hri].
  unfold op_view. rewrite Hr. cbn [fst snd]. rewrite <-Hri. apply rtc_once, mv_slot; [done..|].
  rewrite Hri. by apply HF.
Qed.

Lemma proxy_update_moves id F db u db' r :
  update_targets (is_proxy_row id) F db = Ok (u, db') → keeps_key F →
  find_operation_row id db = Some r → is_active r = true →
  (db_ok db → ∀ t, t ∈ (op_view id db).2 → is_proxy_row id t = true → proxy_move t (F t)) →
  node_moves db db'.
Proof.
  intros [-> Ht]%update_targets_ok K Hr Ha HF. apply node_moves_intro. intros Hdb.
  split; [apply Hdb|]. split; [done|]. intros id'. rewrite view_targets by done.
  destruct (decide (id' = id)) as [->|Hid].
  - destruct (find_row _ _ _ Hr) as [_ Hri]. unfold op_view. rewrite Hr. cbn [fst snd].
    rewrite <-Hri. apply rtc_once, mv_proxy; [done..|]. rewrite Hri. by apply HF.
  - rewrite update_where_id; [by destruct (op_view id' db)|]. intros t [Htid _]%view_target_id Hp.
    unfold is_proxy_row, target_of_operation in Hp. bool_to_prop. congruence.
Qed.

Lemma set_slot_condition_moves id slot code detail db u db' r :
  set_slot_condition id slot code detail db = Ok (u, db') →
  find_operation_row id db = Some r → is_active r = true →
  node_moves db db' ∧ find_operation_row id db' = Some r.
Proof.
  intros Hc%set_slot_condition_changed Hr Ha. split; [|by destruct Hc as (O & _); unfold find_operation_row; rewrite O].
  eapply slot_changed_moves; [done..|]. intros. constructor.
Qed.

Lemma pause_row_moves id code detail db rows db' :
  update_operations (λ r, of_operation id r && one_of_texts (or_state r) ["queued"; "running"])
    (paused_row code detail) db = Ok (rows, db') →
  node_moves db db'.
Proof.
  intros H. eapply update_operations_moves; [|done|]; [done|]. intros _ id' r ts _ Hp.
  apply mv_pause. unfold one_of_texts in Hp. cbn in Hp. bool_to_prop.
  rewrite orb_false_r in *. bool_to_prop. destruct H1 as [->%String.eqb_eq| ->%String.eqb_eq]; auto.
Qed.

Lemma pause_with_condition_moves id slot code detail db u db' r :
  pause_with_condition id slot code detail db = Ok (u, db') →
  find_operation_row id db = Some r → is_active r = true → node_moves db db'.
Proof.
  unfold pause_with_condition. intros H Hr Ha. inv_tx.
  etrans; [by eapply set_slot_condition_moves|]. by eapply pause_row_moves.
Qed.

(** ** Restoration *)

Section moves.

Lemma enter_restoration_moves id actor terminal code detail db u db' :
  enter_restoration id actor terminal code detail db = Ok (u, db') →
  terminal = "failed" ∨ terminal = "cancelled" → node_moves db db'.
Proof.
  unfold enter_restoration. intros H Hterm. inv_tx. subst.
  apply update_operations_ok in Ht0 as (-> & Hrows & Ho). apply update_targets_ok in Ht as [-> Ht].
  apply append_event_core in H. etrans; [|by apply same_core_moves].
  apply node_moves_intro. intros Hdb. split; [done|]. split; [done|]. intros id'.
  rewrite view_targets, view_operations by done. cbn [fst snd].
  assert (∃ r0, r0 ∈ operations db ∧ (of_operation id r0 && negb (or_committed r0) && is_active r0) = true)
    as (r0 & Hr0 & Hp0).
  { destruct (List.filter _ (operations db)) as [|r0 l0] eqn:E; [done|]. exists r0.
    apply and_comm, (elem_of_filter_bool (λ r, of_operation id r && negb (or_committed r) && is_active r)).
    rewrite E. left. }
  destruct (decide (id' = id)) as [->|Hid].
  - assert (or_operation_id r0 = id) as Hri by (unfold of_operation in Hp0; by bool_to_prop).
    pose proof (row_found db r0 Hdb Hr0) as Hf. rewrite Hri in Hf.
    unfold op_view. rewrite Hf. cbn [fst snd fmap option_fmap option_map]. rewrite Hp0.
    assert (update_where (target_of_operation id) restoring_target
              (List.filter (target_of_operation id) (targets db))
            = restoring_target <$> List.filter (target_of_operation id) (targets db)) as ->.
    { apply list_fmap_ext. intros i t [Hid _]%list_elem_of_lookup_2%elem_of_filter_bool. by rewrite Hid. }
    apply rtc_once, mv_restore; [by bool_to_prop|done].
  - rewrite update_where_id.
    2:{ intros t [Ht0 _]%view_target_id Hp. unfold target_of_operation in Hp. bool_to_prop. congruence. }
    destruct (op_view id' db) as [[r|] ts] eqn:E; [|done]. cbn.
    destruct (of_operation id r) eqn:Eo; [|done]. unfold of_operation in Eo. bool_to_prop.
    apply view_row_id in E. congruence.
Qed.

(** ** Slots *)

(** The row of a slot of the message. *)
Definition the_slot (id : Uuid) (s : OperationSlotProgress) (db : NodeDb) : Prop :=
  ∀ t, t ∈ (op_view id db).2 → is_slot_row id (sl_engine_slot s) t = true → row_slot t s.

Lemma the_slot_intro id s db t :
  db_ok db → t ∈ (op_view id db).2 → row_slot t s → the_slot id s db.
Proof.
  intros Hdb Ht Hs t' Ht' Hp. destruct (view_target_id _ _ _ Ht), (view_target_id _ _ _ Ht').
  unfold is_slot_row in Hp. bool_to_prop.
  assert (t = t') as <-; [|done]. eapply target_row_unique; [done..| | |].
  - congruence.
  - rewrite (rs_kind _ _ Hs). symmetry. by apply String.eqb_eq.
  - rewrite (rs_key _ _ Hs). symmetry. by apply String.eqb_eq.
Qed.

Lemma slot_step id s F db db' r :
  slot_changed id (sl_engine_slot s) F db db' → find_operation_row id db = Some r → is_active r = true →
  the_slot id s db → (∀ t, row_slot t s → slot_move r t (F t)) → node_moves db db'.
Proof. intros Hc Hr Ha Hs HF. eapply slot_changed_moves; [done..|]. intros _ t Ht Hp. by apply HF, Hs. Qed.

(** The message is that of the row. *)
Definition row_operation (r : OperationRow) (o : NodeOperation) : Prop :=
  op_operation_id o = uuid_to_string (or_operation_id r) ∧ op_node_id o = or_node_id r
  ∧ op_agent_instance_id o = default "" (le_agent_instance_id (or_lease r))
  ∧ op_lease_epoch o = or_lease_epoch r.

Lemma loaded_row_operation r ts o : loaded r ts o → row_operation r o.
Proof. intros []. done. Qed.

Section slot.
Context (id : Uuid) (r : OperationRow) (operation : NodeOperation) (snapshot : ClusterStatusSnapshot)
  (s : OperationSlotProgress) (db : NodeDb).
Context (Hr : find_operation_row id db = Some r) (Ha : is_active r = true) (Hs : the_slot id s db)
  (Hinc : sl_complete s = false) (Hop : row_operation r operation) (Hev : Ev snapshot).

Lemma row_open t : row_slot t s → tr_complete t = false.
Proof using Hinc. intros []. congruence. Qed.

Lemma same_core_find db1 : same_core db db1 → find_operation_row id db1 = Some r.
Proof using Hr. intros (O & _). unfold find_operation_row. rewrite O. exact Hr. Qed.

Lemma pause_moves code detail u db' :
  pause_with_condition id (sl_engine_slot s) code detail db = Ok (u, db') → node_moves db db'.
Proof using Hr Ha. intros H. by eapply pause_with_condition_moves. Qed.

(** What the manager matched is an observation of the row. *)
Lemma matched_observed t o :
  row_slot t s → matching_observation snapshot operation (sl_engine_slot s) = Some o →
  observed_slot snapshot r t o.
Proof using Hop.
  intros Hrow [Ho Hm]%find_elem. destruct Hop as (E1 & E2 & E3 & E4).
  rewrite E1, E2, E3, E4 in Hm. unfold observation_is_fresh in Hm. bool_to_prop.
  repeat match goal with H : String.eqb _ _ = true |- _ => apply String.eqb_eq in H end.
  split; [done|]. rewrite (rs_key _ _ Hrow). repeat split; try done; lia.
Qed.

Lemma ready_runs t o release backend process :
  row_slot t s → matching_observation snapshot operation (sl_engine_slot s) = Some o →
  observation_ready snapshot o (ready_engine s release backend process) = true →
  ∃ st, so_obs_lifecycle o = Some st
    ∧ runs_ready snapshot r t o (ls_process_instance_id st) release backend process.
Proof using Hop.
  intros Hrow Hm Hr'. pose proof (matched_observed t o Hrow Hm) as Hob.
  unfold observation_ready in Hr'. cbn in Hr'. case_match eqn:E; [done|].
  destruct (so_obs_lifecycle o) as [st|] eqn:El; [|done]. exists st. split; [done|]. bool_to_prop.
  repeat match goal with H : String.eqb _ _ = true |- _ => apply String.eqb_eq in H end.
  unfold runs_ready, shows_release.
  split; [done|]. split; [done|]. split; [done|]. split; [done|]. split.
  - intros Hb Heq. rewrite Heq, Hb, String.eqb_refl in *. by destruct_or!.
  - exists st. repeat split; try done. intros Hp Heq.
    rewrite Heq, Hp, String.eqb_refl in *. by destruct_or!.
Qed.

Lemma exact_count_once t release :
  row_slot t s →
  exact_registration_count snapshot (op_node_id operation) (sl_engine_slot s) (rel_revision release)
    (rel_digest release) = 1 →
  registered_once snapshot r t release.
Proof using Hop.
  intros Hrow Hc. destruct Hop as (_ & E & _). unfold registered_once.
  by rewrite (rs_key _ _ Hrow), <-E.
Qed.

Lemma source_proven_restored t :
  row_slot t s →
  source_host_proven snapshot operation s (matching_observation snapshot operation (sl_engine_slot s)) = true →
  (if (0 <? rel_revision (sl_source s))%Z
   then slot_routes_healthy snapshot (op_node_id operation) (sl_engine_slot s)
          (rel_revision (sl_source s)) (rel_digest (sl_source s)) else Ok true) = Ok true →
  restored_evidence snapshot r t.
Proof using Hop.
  intros Hrow Hp Hh. pose proof Hop as (_ & En & _). unfold source_host_proven in Hp.
  destruct (matching_observation snapshot operation (sl_engine_slot s)) as [o|] eqn:Hm;
    [|by destruct (rel_revision (sl_source s) =? 0)%Z].
  pose proof (matched_observed t o Hrow Hm) as Hob. cbn [holds_of] in Hp.
  unfold restored_evidence. rewrite (rs_source _ _ Hrow), (rs_target _ _ Hrow), (rs_key _ _ Hrow).
  destruct (rel_revision (sl_source s) =? 0)%Z eqn:Hz; bool_to_prop.
  - left. split; [done|]. split; [|by rewrite <-En]. exists o. unfold proves_absence in *. by bool_to_prop.
  - right. destruct (ready_runs t o (sl_source s) "" "" Hrow Hm ltac:(done)) as (st & _ & Hrun).
    split; [by eexists _, _|]. split; [by apply exact_count_once|].
    intros Hpos. rewrite (proj2 (Z.ltb_lt _ _) Hpos) in Hh. unfold serving_evidence.
    by rewrite (rs_key _ _ Hrow), <-En.
Qed.

Lemma restore_slot_moves now b db' :
  or_phase r = "restoring_source" →
  restore_slot now id snapshot operation s db = Ok (b, db') → node_moves db db'.
Proof using Hr Ha Hs Hinc Hop Hev.
  intros Hph. unfold restore_slot. intros H.
  destruct (negb (bool_decide (sl_next_step s = RestoreSource))) eqn:Est; [by inv_tx|].
  bool_to_prop.
  assert (∀ t, row_slot t s → at_step t RestoreSource) as Hstep by (intros t []; congruence).
  inv_tx; try by eapply pause_moves.
  - pose proof (switch_authority_core _ _ _ _ _ _ _ Ht) as Hc. etrans; [by apply same_core_moves|].
    eapply (set_slot_condition_moves id); [done|by apply same_core_find|done].
  - pose proof (switch_authority_core _ _ _ _ _ _ _ Ht) as Hc. etrans; [by apply same_core_moves|].
    eapply (slot_step id s); [by eapply advance_slot_changed|by apply same_core_find|done| |].
    + unfold the_slot. by rewrite (same_core_view id _ _ Hc).
    + intros t Hrow. rewrite <-(rs_source _ _ Hrow).
      apply (sm_restored _ _ _ snapshot); [done|by apply row_open|by apply Hstep|done|].
      bool_to_prop. subst. by apply source_proven_restored.
  - eapply (slot_step id s); [eapply update_slot_changed; [|done]; done|done..|].
    intros t Hrow. apply sm_inspected; [done|by apply row_open|by apply Hstep].
  - by eapply (set_slot_condition_moves id).
Qed.


(** A forward branch that ends in [None] has changed only the slot. *)
Definition forward_result (o : option bool) (db' : NodeDb) : Prop :=
  node_moves db db' ∧ (o = None → find_operation_row id db' = Some r).

Lemma forward_changed F o db' :
  slot_changed id (sl_engine_slot s) F db db' → (∀ t, row_slot t s → slot_move r t (F t)) →
  forward_result o db'.
Proof using Hr Ha Hs.
  intros Hc HF. split; [by eapply slot_step|]. intros _. destruct Hc as (O & _).
  unfold find_operation_row. rewrite O. exact Hr.
Qed.

Lemma forward_same o : forward_result o db.
Proof using Hr. by split. Qed.

Lemma forward_paused b code detail u db' :
  pause_with_condition id (sl_engine_slot s) code detail db = Ok (u, db') → forward_result (Some b) db'.
Proof using Hr Ha. intros H. split; [by eapply pause_moves|done]. Qed.

Lemma retract_moves db' u o step :
  or_phase r ≠ "restoring_source" → sl_next_step s = step → mutating step = true →
  retract_delivery id (sl_engine_slot s) db = Ok (u, db') → forward_result o db'.
Proof using Hr Ha Hs Hinc Hop Hev.
  intros Hph Hst Hm H. eapply forward_changed; [eapply update_slot_changed; [|exact H]; done|].
  intros t Hrow. apply (sm_retract _ _ _ step); [done|by apply row_open| |done].
  rewrite <-Hst. by destruct Hrow.
Qed.

(** The forward steps of the row of the slot. *)
Lemma slot_forward F db' o :
  or_phase r ≠ "restoring_source" → slot_changed id (sl_engine_slot s) F db db' →
  (∀ t, row_slot t s → forward_move snapshot r t (F t)) → forward_result o db'.
Proof using Hr Ha Hs Hinc Hop Hev.
  intros Hph Hc HF. eapply forward_changed; [done|]. intros t Hrow.
  apply (sm_forward _ _ _ snapshot); [done|by apply row_open|done|by apply HF].
Qed.

Lemma exited_stopped t o delivered :
  row_slot t s → matching_observation snapshot operation (sl_engine_slot s) = Some o →
  ef_delivered_at (sl_effect s) = Some delivered →
  negb (observation_after_delivery o (Some delivered)) = false →
  negb (bool_decide (so_obs_backend_state o = BpExited))
  || str_is_empty (sl_pinned_backend_instance_id s)
  || negb (String.eqb (so_obs_backend_instance_id o) (sl_pinned_backend_instance_id s))
  || negb (str_is_empty (so_obs_backend_query_error o))
  || negb (exact_registration_absent snapshot (op_node_id operation) (sl_engine_slot s)
             (rel_revision (sl_source s)))
  || negb (old_routes_non_serving snapshot (op_node_id operation) (sl_engine_slot s)
             (rel_revision (sl_source s))) = false →
  stopped_evidence snapshot r t.
Proof using Hop.
  intros Hrow Hm Hd Hafter Hx. pose proof (matched_observed t o Hrow Hm) as Hob.
  pose proof Hop as (_ & En & _). rewrite En in Hx.
  cbn in Hafter. bool_to_prop.
  repeat match goal with H : String.eqb _ _ = true |- _ => apply String.eqb_eq in H end.
  exists o, delivered. rewrite (rs_effect _ _ Hrow), (rs_backend _ _ Hrow), (rs_key _ _ Hrow), (rs_source _ _ Hrow).
  repeat split; try done; try apply Hob; lia.
Qed.

Lemma reconcile_stop_moves o db' :
  or_phase r ≠ "restoring_source" → sl_next_step s = StopBackend →
  reconcile_stop id snapshot operation s db = Ok (o, db') → forward_result o db'.
Proof using Hr Ha Hs Hinc Hop Hev.
  intros Hph Hst. unfold reconcile_stop. intros H. inv_tx;
    try (by apply forward_same); try (by eapply retract_moves); try (by eapply forward_paused).
  eapply slot_forward; [done|eapply slot_changed_compose; [eapply update_slot_changed; [|exact Ht]; done|by eapply advance_slot_changed]|].
  intros t Hrow. cbn. rewrite <-(rs_source _ _ Hrow).
  apply fm_stop; [rewrite <-Hst; by destruct Hrow|by destruct Hrow|by eapply exited_stopped].
Qed.

Lemma shown_selected t :
  row_slot t s →
  negb (holds_of (matching_observation snapshot operation (sl_engine_slot s)) (observes (sl_target s))) = false →
  selected_evidence snapshot r t.
Proof using Hop.
  intros Hrow Hh. bool_to_prop.
  destruct (matching_observation snapshot operation (sl_engine_slot s)) as [o|] eqn:Hm; [|done].
  exists o. split; [by apply matched_observed|]. cbn in Hh. unfold observes in Hh. bool_to_prop.
  unfold shows_release. rewrite (rs_target _ _ Hrow). split; [done|]. split; [by apply String.eqb_eq|done].
Qed.

Lemma reconcile_select_moves o db' :
  or_phase r ≠ "restoring_source" → sl_next_step s = SelectRelease →
  reconcile_select id snapshot operation s db = Ok (o, db') → forward_result o db'.
Proof using Hr Ha Hs Hinc Hop Hev.
  intros Hph Hst. unfold reconcile_select. intros H. inv_tx;
    try (by apply forward_same); try (by eapply retract_moves); try (by eapply forward_paused).
  - eapply slot_forward; [done|eapply slot_changed_compose; [eapply update_slot_changed; [|exact Ht]; done|by eapply advance_slot_changed]|].
    intros t Hrow.
    assert (set_tr_changed true t = set_tr_changed (tr_changed t || negb (target_revision t =? source_revision t)%Z) t) as E.
    { unfold target_revision, source_revision. rewrite (rs_source _ _ Hrow), (rs_target _ _ Hrow).
      by match goal with H : negb (_ =? _)%Z = _ |- _ => rewrite H, orb_true_r end. }
    cbn. rewrite E, <-(rs_source _ _ Hrow). apply fm_select; [by rewrite <-Hst; destruct Hrow|by destruct Hrow|by apply shown_selected].
  - eapply slot_forward; [done|by eapply advance_slot_changed|].
    intros t Hrow.
    assert (t = set_tr_changed (tr_changed t || negb (target_revision t =? source_revision t)%Z) t) as E.
    { unfold target_revision, source_revision. rewrite (rs_source _ _ Hrow), (rs_target _ _ Hrow).
      match goal with H : negb (_ =? _)%Z = _ |- _ => rewrite H, orb_false_r end. by destruct t. }
    pose proof (fm_select snapshot r t (sl_transition s)) as Hm. rewrite <-E in Hm.
    rewrite <-(rs_source _ _ Hrow). apply Hm; [by rewrite <-Hst; destruct Hrow|by destruct Hrow|by apply shown_selected].
Qed.

Lemma reconcile_start_moves o db' :
  or_phase r ≠ "restoring_source" → sl_next_step s = StartBackend →
  reconcile_start id snapshot operation s db = Ok (o, db') → forward_result o db'.
Proof using Hr Ha Hs Hinc Hop Hev.
  intros Hph Hst. unfold reconcile_start. intros H. inv_tx;
    try (by apply forward_same); try (by eapply retract_moves).
  eapply slot_forward; [done|by eapply advance_slot_changed|].
  intros t Hrow. rewrite <-(rs_source _ _ Hrow). apply fm_start; [rewrite <-Hst; by destruct Hrow|by destruct Hrow|].
  match goal with H : negb (holds_of _ _) = false |- _ => rename H into Hready end. bool_to_prop.
  destruct (matching_observation snapshot operation (sl_engine_slot s)) as [ob|] eqn:Hm; [|done].
  cbn [holds_of] in Hready. destruct (ready_runs t ob _ _ _ Hrow Hm Hready) as (st & _ & Hrun).
  unfold started_evidence. rewrite (rs_target _ _ Hrow), (rs_backend _ _ Hrow), (rs_process _ _ Hrow).
  by eexists _, _.
Qed.

(** What [verified] found, as evidence of the row. *)
Lemma verified_runs t o status :
  row_slot t s → verified snapshot operation s = Some (o, status) →
  let release := if proving_source s then sl_source s else sl_target s in
  let backend := if proving_source s then "" else sl_pinned_backend_instance_id s in
  let process := if proving_source s then "" else sl_pinned_process_instance_id s in
  runs_ready snapshot r t o (ls_process_instance_id status) release backend process
  ∧ registered_once snapshot r t release.
Proof using Hop.
  intros Hrow. unfold verified, verify_expectation.
  destruct (matching_observation _ _ _) as [o'|] eqn:Hm; [|done]. cbn.
  destruct (so_obs_lifecycle o') as [st|] eqn:El; [|done]. cbn.
  destruct (proving_source s); (destruct (observation_ready _ _ _ && _) eqn:Er; [|done]);
    intros [= <- <-]; bool_to_prop; cbn [re_revision re_digest ready_engine] in *;
    (edestruct ready_runs as (st' & Hst' & Hrun); [done..|]); rewrite El in Hst'; simplify_eq;
    (split; [exact Hrun|by apply exact_count_once]).
Qed.

Lemma replacement_unauthorized t :
  row_slot t s →
  existsb (λ a, String.eqb (sa_node_id a) (op_node_id operation)
                && String.eqb (sa_engine_slot a) (sl_engine_slot s)
                && (sa_revision a =? rel_revision (sl_target s))%Z) (cs_slot_authorities snapshot)
  && negb (rel_revision (sl_source s) =? rel_revision (sl_target s))%Z = false →
  source_revision t ≠ target_revision t →
  ∀ a, a ∈ cs_slot_authorities snapshot → sa_node_id a = or_node_id r → sa_engine_slot a = tr_key t →
    sa_revision a ≠ target_revision t.
Proof using Hop.
  intros Hrow Hx Hne a Hin Hn Hs' Hrev. unfold source_revision, target_revision in *.
  rewrite (rs_source _ _ Hrow), (rs_target _ _ Hrow), ?(rs_key _ _ Hrow) in *.
  destruct Hop as (_ & En & _). rewrite (proj2 (Z.eqb_neq _ _) Hne), andb_true_r in Hx.
  apply not_true_iff_false in Hx. apply Hx, existsb_exists. exists a.
  rewrite <-list_elem_of_In, En, Hn, Hs', Hrev, !String.eqb_refl, Z.eqb_refl. done.
Qed.

Lemma proving_source_row t : row_slot t s → proving_row t = proving_source s.
Proof using Type. intros Hrow. unfold proving_row, proving_source. by rewrite (rs_source _ _ Hrow), (rs_process _ _ Hrow). Qed.

Lemma pin_advance_changed backend process next revision u v db1 db' :
  pin_slot id (sl_engine_slot s) backend process db = Ok (u, db1) →
  advance_slot id (sl_engine_slot s) next revision db1 = Ok (v, db') →
  slot_changed id (sl_engine_slot s) (advance_row next revision ∘ set_tr_pins backend process) db db'.
Proof using Type.
  intros H1 H2. eapply slot_changed_compose; [eapply update_slot_changed; [|exact H1]; done|by eapply advance_slot_changed].
Qed.

Lemma reconcile_verify_moves o db' :
  or_phase r ≠ "restoring_source" → sl_next_step s = VerifyTarget →
  reconcile_verify id snapshot operation s db = Ok (o, db') → forward_result o db'.
Proof using Hr Ha Hs Hinc Hop Hev.
  intros Hph Hst. unfold reconcile_verify, verify_pending, verify_source, verify_replacement. intros H.
  assert (∀ t, row_slot t s → at_step t VerifyTarget) as Hstep by (intros t []; congruence).
  inv_tx; try (by apply forward_same); try (by eapply forward_paused).
  - eapply slot_forward; [done|by eapply pin_advance_changed|].
    intros t Hrow. cbn. rewrite <-(rs_source _ _ Hrow).
    apply fm_prove; [by apply Hstep|by rewrite proving_source_row|].
    match goal with H : verified _ _ _ = _ |- _ => destruct (verified_runs t _ _ Hrow H) as [Hrun Hreg] end.
    match goal with H : proving_source s = true |- _ => rewrite H in Hrun, Hreg end.
    unfold source_evidence. rewrite (rs_source _ _ Hrow). by eexists.
  - eapply slot_forward; [done|by eapply pin_advance_changed|].
    intros t Hrow. cbn. rewrite <-(rs_source _ _ Hrow), <-(rs_target _ _ Hrow).
    apply fm_verify; [by apply Hstep|by rewrite proving_source_row|].
    match goal with H : verified _ _ _ = _ |- _ => destruct (verified_runs t _ _ Hrow H) as [Hrun Hreg] end.
    match goal with H : proving_source s = false |- _ => rewrite H in Hrun, Hreg end.
    unfold target_evidence. rewrite (rs_target _ _ Hrow), (rs_backend _ _ Hrow), (rs_process _ _ Hrow).
    eexists. split; [exact Hrun|]. split; [done|]. split; [done|]. by apply replacement_unauthorized.
Qed.

Lemma reconcile_switch_moves now o db' :
  or_phase r ≠ "restoring_source" → sl_next_step s = SwitchAuthority →
  reconcile_switch now id operation s db = Ok (o, db') → forward_result o db'.
Proof using Hr Ha Hs Hinc Hop Hev.
  intros Hph Hst. unfold reconcile_switch. intros H. inv_tx.
  eapply slot_forward; [done| |].
  - eapply core_slot_changed; [by eapply switch_authority_core|].
    eapply slot_changed_compose; [eapply update_slot_changed; [|exact Ht0]; done|by eapply advance_slot_changed].
  - intros t Hrow. cbn. rewrite <-(rs_target _ _ Hrow).
    apply fm_switch; [rewrite <-Hst; by destruct Hrow|by destruct Hrow].
Qed.

Lemma reconcile_serving_moves o db' :
  or_phase r ≠ "restoring_source" → sl_next_step s = VerifyServing →
  reconcile_serving id snapshot operation s db = Ok (o, db') → forward_result o db'.
Proof using Hr Ha Hs Hinc Hop Hev.
  intros Hph Hst. unfold reconcile_serving. intros H. inv_tx.
  - eapply forward_changed; [by eapply set_slot_condition_changed|]. intros. constructor.
  - eapply slot_forward; [done| |].
    + eapply slot_changed_compose; [eapply update_slot_changed; [|exact Ht]; done|by eapply advance_slot_changed].
    + intros t Hrow. cbn. rewrite <-(rs_target _ _ Hrow).
      apply fm_serving; [rewrite <-Hst; by destruct Hrow|]. bool_to_prop. subst.
      destruct Hop as (_ & En & _). unfold serving_evidence. by rewrite (rs_target _ _ Hrow), (rs_key _ _ Hrow), <-En.
Qed.

Lemma reconcile_forward_moves now o db' :
  or_phase r ≠ "restoring_source" → sl_next_step s ≠ VerifyProxy →
  reconcile_forward now id snapshot operation s db = Ok (o, db') → forward_result o db'.
Proof using Hr Ha Hs Hinc Hop Hev.
  intros Hph Hnp. unfold reconcile_forward. destruct (sl_next_step s) eqn:Est; intros H; try done;
    try (by inv_tx; apply forward_same).
  - inv_tx; [by apply forward_same|]. eapply slot_forward; [done|by eapply advance_slot_changed|].
    intros t Hrow. rewrite <-(rs_source _ _ Hrow). bool_to_prop.
    apply fm_metadata; [rewrite <-Est; by destruct Hrow|by destruct Hrow|by rewrite (rs_effect _ _ Hrow)].
  - by eapply reconcile_stop_moves.
  - by eapply reconcile_select_moves.
  - by eapply reconcile_start_moves.
  - by eapply reconcile_verify_moves.
  - by eapply reconcile_switch_moves.
  - by eapply reconcile_serving_moves.
Qed.

Lemma reconcile_slot_moves now b db' :
  (op_phase operation = PhRestoringSource ↔ or_phase r = "restoring_source") → sl_next_step s ≠ VerifyProxy →
  reconcile_slot now id snapshot operation s db = Ok (b, db') → node_moves db db'.
Proof using Hr Ha Hs Hinc Hop Hev.
  intros Hph Hnp. unfold reconcile_slot. case_bool_decide as Hphase; [by apply restore_slot_moves, Hph|].
  intros H. inv_tx.
  - eapply enter_restoration_moves; [done|by left].
  - by eapply reconcile_forward_moves; [tauto|done|].
  - destruct (reconcile_forward_moves now None _ ltac:(tauto) Hnp Ht) as [Hm Hf]. etrans; [exact Hm|].
    by eapply set_slot_condition_moves; [|by apply Hf|].
Qed.

End slot.

(** ** The operation *)

(** The row that a statement of one operation updates. *)
Lemma of_operation_row id db r r' id' ts :
  find_operation_row id db = Some r → op_view id' db = (Some r', ts) → of_operation id r' = true →
  id' = id ∧ r' = r ∧ ts = (op_view id db).2.
Proof.
  intros Hr Hv Ho. pose proof (view_row_id _ _ _ _ Hv) as Hid. unfold of_operation in Ho. bool_to_prop.
  assert (id' = id) as -> by congruence. unfold op_view in *. by simplify_eq.
Qed.

Lemma finish_row_moves id f db rows db' r state :
  update_operations (of_operation id) f db = Ok (rows, db') → keeps_id f →
  f r = finished_row state r ∨ (∃ now, f r = set_or_committed now (finished_row state r)) →
  find_operation_row id db = Some r → is_active r = true → final_state r state →
  (∀ t, t ∈ (op_view id db).2 → tr_complete t = true) → node_moves db db'.
Proof.
  intros H K Hf Hr Ha Hs Hc. eapply update_operations_moves; [done..|]. intros _ id' r' ts Hv Ho.
  destruct (of_operation_row _ _ _ _ _ _ Hr Hv Ho) as (-> & -> & ->). by eapply mv_finish.
Qed.

Lemma finish_operation_moves now id actor operation db u db' r :
  finish_operation now id actor operation db = Ok (u, db') →
  find_operation_row id db = Some r → is_active r = true →
  (op_phase operation = PhRestoringSource ↔ or_phase r = "restoring_source") →
  (∀ t, t ∈ (op_view id db).2 → tr_complete t = true) → node_moves db db'.
Proof.
  unfold finish_operation. intros H Hr Ha Hph Hc. case_bool_decide as Hop; inv_tx.
  - apply append_event_core in H. etrans; [|by apply same_core_moves].
    eapply (finish_row_moves id); [exact Ht|done|by left|done..| |done].
    unfold final_state. rewrite decide_True by tauto. case_match; auto.
  - apply append_event_core in H. etrans; [|by apply same_core_moves].
    pose proof (fence_cleanup_core _ _ _ _ _ _ Ht1) as Hcore. cbn in Hcore.
    etrans; [apply same_core_moves, Hcore|]. destruct Hcore as (O & T & _).
    eapply (finish_row_moves id); [exact Ht2|done|right; by eexists|..]; try done.
    + unfold find_operation_row. by rewrite O.
    + unfold final_state. by rewrite decide_False by tauto.
    + unfold op_view. cbn. by rewrite T.
  - apply append_event_core in H. etrans; [|by apply same_core_moves].
    eapply (finish_row_moves id); [exact Ht|done|by left|done..| |done].
    unfold final_state. by rewrite decide_False by tauto.
Qed.

Lemma uuid_to_string_inj a b :
  uuid_in_range a → uuid_in_range b → uuid_to_string a = uuid_to_string b → a = b.
Proof. intros Ha%uuid_parse_to_string Hb%uuid_parse_to_string E. congruence. Qed.

Lemma view_row_range id db r : db_ok db → find_operation_row id db = Some r → uuid_in_range id.
Proof.
  intros Hdb Hr. pose proof (dk_views _ Hdb id) as Hv. unfold op_view, view_inv in Hv. rewrite Hr in Hv. cbn in Hv.
  destruct Hv as [[Hid _] _]. destruct (find_row _ _ _ Hr) as [_ E]. by rewrite <-E.
Qed.

(** The operation that [reconcile] finds in the snapshot is that of the tables. *)
Lemma snapshot_operation now clock id db snapshot o :
  db_ok db → uuid_in_range id → capture_cluster_status_snapshot now clock db = Ok snapshot →
  List.find (λ o, String.eqb (op_operation_id o) (uuid_to_string id)) (cs_active_operations snapshot) = Some o →
  ∃ r, find_operation_row id db = Some r ∧ loaded r (op_view id db).2 o.
Proof.
  intros Hdb Hid Hc [Ho Ht%String.eqb_eq]%find_elem.
  unfold capture_cluster_status_snapshot in Hc. inv_ok Hc. simplify_eq. cbn in Ho.
  match goal with H : list_from_client _ _ _ = Ok _ |- _ => apply collect_results_Forall2 in H as Hl end.
  apply list_elem_of_lookup in Ho as [i Hi]. destruct (Forall2_lookup_r _ _ _ _ _ Hl Hi) as (r' & _ & Hload).
  destruct (load_operation_loaded _ _ _ Hload) as (r & Hr & L).
  assert (or_operation_id r' = id) as <-; [|by exists r].
  destruct (find_row _ _ _ Hr) as [_ E]. apply uuid_to_string_inj; [by eapply view_row_range|done|].
  rewrite <-E, <-(ld_id _ _ _ L). done.
Qed.

Lemma min_by_order_elem l s : min_by_order l = Some s → s ∈ l.
Proof.
  revert s. induction l as [|a l IH]; [done|]. intros s. simpl.
  destruct (min_by_order l) as [m|] eqn:E; [|intros [= <-]; left].
  case_match; intros [= <-]; [right; by apply IH|left].
Qed.

Lemma min_by_order_none l : min_by_order l = None → l = [].
Proof. destruct l as [|a l]; [done|]. simpl. by repeat case_match. Qed.

Lemma filter_nil_all {A} (p : A → bool) l x : List.filter (λ x, negb (p x)) l = [] → x ∈ l → p x = true.
Proof.
  intros Hf Hx. destruct (p x) eqn:E; [done|].
  assert (x ∈ List.filter (λ x, negb (p x)) l) as Hin by (apply elem_of_filter_bool; by rewrite E).
  rewrite Hf in Hin. by apply elem_of_nil in Hin.
Qed.

(** A step of an engine slot is never that of the proxy. *)
Lemma engine_step db t s : db_ok db → t ∈ targets db → row_slot t s → sl_next_step s ≠ VerifyProxy.
Proof.
  intros Hdb Hin Hrow Hs. pose proof (target_constraints _ _ Hdb Hin) as Hok.
  pose proof (rs_step _ _ Hrow) as Hst. rewrite Hs in Hst.
  assert (tr_next_step t = "verify_proxy") as Hn by (by eapply parse_step_inj).
  unfold target_row_ok in Hok. rewrite Hn, (rs_kind _ _ Hrow) in Hok. cbn in Hok.
  by rewrite andb_false_r in Hok.
Qed.

Lemma proxy_row_unique db id t t' :
  db_ok db → t ∈ (op_view id db).2 → t' ∈ (op_view id db).2 → tr_kind t = "proxy" → tr_kind t' = "proxy" → t = t'.
Proof.
  intros [_ Hok _] [E1 Ht]%view_target_id [E2 Ht']%view_target_id K1 K2.
  unfold targets_ok, targets_unique in Hok. bool_to_prop.
  eapply (NoDup_fmap_inj tr_operation_id (List.filter (λ t, String.eqb (tr_kind t) "proxy") (targets db)));
    [done| | |congruence]; apply elem_of_filter_bool; by rewrite ?K1, ?K2.
Qed.

Lemma all_complete db id r o p slots :
  db_ok db → loaded r (op_view id db).2 o → proxy_target o = Ok p → operation_slots o = Ok slots →
  tp_complete p = true → List.filter (λ s, negb (sl_complete s)) slots = [] →
  ∀ t, t ∈ (op_view id db).2 → tr_complete t = true.
Proof.
  intros Hdb L Hp Hs Hpc Hsc t Ht. destruct (loaded_kinds _ _ _ _ L Ht) as [Hk|Hk].
  - destruct (loaded_proxy _ _ _ _ L Hp) as (t' & Ht' & [Hk' _ Hc' _ _ _]).
    rewrite (proxy_row_unique db id t t') by done. congruence.
  - destruct (loaded_slot_row _ _ _ _ _ L Hs Ht Hk) as (s & Hin & Hrow).
    rewrite (rs_complete _ _ Hrow). by eapply filter_nil_all.
Qed.

Lemma loaded_active r ts o :
  loaded r ts o → negb (bool_decide (op_state o = OpQueued) || bool_decide (op_state o = OpRunning)) = false →
  is_active r = true.
Proof.
  intros L H. bool_to_prop. rewrite !bool_decide_eq_true in H.
  destruct (parse_state_active _ _ (ld_state _ _ _ L) H); eauto with wr.
Qed.

Lemma reconcile_moves now clock id actor db u db' :
  (∀ sn, capture_cluster_status_snapshot now clock db = Ok sn → Ev sn) →
  uuid_in_range id → reconcile now clock id actor db = Ok (u, db') → node_moves db db'.
Proof.
  intros Hev Hid. unfold reconcile. intros H. apply node_moves_ok. intros Hdb.
  inv_tx; try done;
    match goal with H1 : capture_cluster_status_snapshot _ _ _ = _, H2 : List.find _ _ = Some _ |- _ =>
      destruct (snapshot_operation _ _ _ _ _ _ Hdb Hid H1 H2) as (r & Hr & L) end;
    assert (is_active r = true) as Ha by (by eapply loaded_active);
    pose proof (parse_phase_restoring _ _ (ld_phase _ _ _ L)) as Hph.
  - match goal with H : min_by_order _ = Some _ |- _ => apply min_by_order_elem, elem_of_filter_bool in H as [Hinc Hin] end.
    bool_to_prop. destruct (loaded_slots _ _ _ _ _ L ltac:(eassumption) Hin) as (t & Ht' & Hrow).
    eapply reconcile_slot_moves; [exact Hr|done| |done|by eapply loaded_row_operation|by apply Hev|exact Hph| |exact Ht].
    + by eapply the_slot_intro.
    + eapply engine_step; [done| |done]. by eapply view_target_id.
  - eapply finish_operation_moves; [done..|]. eapply all_complete; [done..| |].
    + by bool_to_prop.
    + by apply min_by_order_none.
Qed.

End moves.

End refine.
