(* ===== verification/NodeRefineTx.v ===== *)
(** * Node operations: every remote procedure is a sequence of moves *)

From S2P Require Import Prelude RustStr Utf8 Lists Orders Externals Grpc Lifecycle IndexedRouting Deployment Rollout Schedule Operations NodeStatus NodeTables NodeStore NodeSubmit NodeRun NodeAgent NodeReport NodeTx NodeSteps NodeLoad NodeRefine.

(** ** Reading a lease *)

Lemma lease_epoch_try_ok e db v db' : lease_epoch_try e db = Ok (v, db') → v = e ∧ db' = db.
Proof.
  unfold lease_epoch_try, i64_try_from. intros H. destruct (e <=? _)%Z; inv_tx; done.
Qed.

Lemma forward_expired_ok now r db late db' :
  forward_expired now r db = Ok (late, db') →
  db' = db ∧ (late = true → or_phase r = "forward")
  ∧ (late = false → find_operation_row (or_operation_id r) db = Some r → or_phase r = "forward" →
     (now < or_forward_deadline r)%Z ∧ or_forward_fenced r = false).
Proof.
  unfold forward_expired, deadline_expired. intros H. inv_tx.
  - apply String.eqb_eq in Heqb. split; [done|]. split; [done|]. intros Hf [= ->] _.
    rewrite Heqb in Hf. cbn in Hf. bool_to_prop. by split; [lia|].
  - split; [done|]. split; [done|]. intros _ _ Hp. by rewrite Hp in *.
Qed.

Ltac inv_lease :=
  inv_tx;
  repeat match goal with
  | H : lease_epoch_try _ _ = Ok (_, _) |- _ => apply lease_epoch_try_ok in H as [? ?]; subst
  | H : forward_expired _ _ _ = Ok (_, _) |- _ => apply forward_expired_ok in H as (? & ? & ?); subst
  end.

Section transactions.
Context `{CL : CollationLib, UL : UuidLib, SH : Sha256Lib}.

(** ** What a reconciliation consults *)

(** The tables, other than observations, that a snapshot shows evidence from. *)
Definition same_cluster (db db' : NodeDb) : Prop :=
  nodes db' = nodes db ∧ deployments db' = deployments db ∧ authorities db' = authorities db
  ∧ engines db' = engines db ∧ heartbeats db' = heartbeats db ∧ routes db' = routes db.

Definition same_observations (db db' : NodeDb) : Prop := observations db' = observations db.

#[global] Instance same_cluster_preorder : PreOrder same_cluster.
Proof. unfold same_cluster. split; [done|]. intros ???. naive_solver congruence. Qed.

#[global] Instance same_observations_preorder : PreOrder same_observations.
Proof. unfold same_observations. split; [done|]. intros ???. congruence. Qed.

(** Of a call that took [db] to [db'] only snapshots in [Ev] were captured: of the cluster as
    the call found it, with the observations that it left. *)
Definition consults (Ev : ClusterStatusSnapshot → Prop) (now clock : Z) (db db' : NodeDb) : Prop :=
  ∀ dbm sn, same_cluster db dbm → same_observations dbm db' →
    capture_cluster_status_snapshot now clock dbm = Ok sn → Ev sn.

Context {Ev : ClusterStatusSnapshot → Prop}.

#[local] Abbreviation node_moves := (node_moves_on Ev).

Section keeps.
Context (R : relation NodeDb) `{!PreOrder R}.
Context (R_operations : ∀ l db, R db (set_operations l db)) (R_targets : ∀ l db, R db (set_targets l db))
  (R_events : ∀ l db, R db (set_operation_events l db)) (R_cleanup : ∀ c db, R db (set_cleanup c db)).

Lemma update_operations_keeps p f : tx_moves R (update_operations p f).
Proof using R_operations. intros db rows db' (-> & _)%update_operations_ok. apply R_operations. Qed.

Lemma update_targets_keeps p f : tx_moves R (update_targets p f).
Proof using R_targets. intros db u db' [-> _]%update_targets_ok. apply R_targets. Qed.

Lemma append_event_keeps id actor code detail epoch : tx_moves R (append_event id actor code detail epoch).
Proof using R_events. intros db u db' [l ->]%append_event_ok. apply R_events. Qed.

Lemma fence_cleanup_keeps now node_id reason : tx_moves R (fence_cleanup_authority now node_id reason).
Proof using R_cleanup PreOrder0.
  unfold fence_cleanup_authority, alter_cleanup. tx_frame; apply tx_moves_modify; intros; apply R_cleanup.
Qed.

#[local] Hint Resolve append_event_keeps update_operations_keeps : tx.

Lemma append_events_keeps actor code detail rows : tx_moves R (append_events actor code detail rows).
Proof using R_events PreOrder0. induction rows as [|row rows IH]; simpl; tx_frame. Qed.

Lemma take_lease_keeps now instance agent row : tx_moves R (take_lease now instance agent row).
Proof using R_operations PreOrder0. unfold take_lease. tx_frame. Qed.
End keeps.

Ltac keeps_tables := first [apply _|by intros].

#[local] Hint Extern 3 (tx_moves same_observations (update_operations _ _)) =>
  apply update_operations_keeps; keeps_tables : tx.
#[local] Hint Extern 3 (tx_moves same_observations (update_targets _ _)) =>
  apply update_targets_keeps; keeps_tables : tx.
#[local] Hint Extern 3 (tx_moves same_observations (append_event _ _ _ _ _)) =>
  apply append_event_keeps; keeps_tables : tx.
#[local] Hint Extern 3 (tx_moves same_observations (fence_cleanup_authority _ _ _)) =>
  apply fence_cleanup_keeps; keeps_tables : tx.

Lemma switch_authority_observations now node_id slot revision :
  tx_moves same_observations (switch_authority now node_id slot revision).
Proof. unfold switch_authority. tx_frame. Qed.

#[local] Hint Resolve switch_authority_observations : tx.

Lemma restore_slot_observations now id snapshot operation s :
  tx_moves same_observations (restore_slot now id snapshot operation s).
Proof. unfold restore_slot, pause_with_condition, set_slot_condition, advance_slot. tx_frame. Qed.

Lemma reconcile_forward_observations now id snapshot operation s :
  tx_moves same_observations (reconcile_forward now id snapshot operation s).
Proof.
  unfold reconcile_forward. destruct (sl_next_step s);
    unfold reconcile_stop, reconcile_select, reconcile_start, reconcile_verify, verify_pending, verify_source,
      verify_replacement, reconcile_switch, reconcile_serving, retract_delivery, pin_slot, mark_changed,
      pause_with_condition, set_slot_condition, advance_slot; tx_frame.
Qed.

Lemma finish_operation_observations now id actor operation :
  tx_moves same_observations (finish_operation now id actor operation).
Proof. unfold finish_operation. tx_frame. Qed.

#[local] Hint Resolve restore_slot_observations reconcile_forward_observations finish_operation_observations : tx.

(** A reconciliation leaves the observations that it was shown. *)
Lemma reconcile_observations now clock id actor : tx_moves same_observations (reconcile now clock id actor).
Proof.
  unfold reconcile, reconcile_slot, clear_slot_condition, set_slot_condition, enter_restoration. tx_frame.
Qed.

Lemma deliver_observations now id node instance agent epoch o s :
  tx_moves same_observations (deliver now id node instance agent epoch o s).
Proof. unfold deliver. tx_frame. Qed.

(** ** Leases *)

Lemma parse_operation_id_range text id : parse_operation_id text = Ok id → uuid_in_range id.
Proof.
  unfold parse_operation_id. destruct (uuid_parse_str text) as [u|] eqn:E; [|done].
  intros [= <-]. by apply uuid_parse_range in E.
Qed.

Lemma expire_forward_moves id db u db' : expire_forward id db = Ok (u, db') → node_moves db db'.
Proof. unfold expire_forward. intros H. eapply enter_restoration_moves; [done|by left]. Qed.

Lemma leased_row now id node agent instance epoch db r :
  db_ok db → List.find (leased now id node agent instance epoch) (operations db) = Some r →
  find_operation_row id db = Some r ∧ or_state r = "running" ∧ or_lease_epoch r = epoch
  ∧ holder r = (Some agent, Some instance) ∧ or_node_id r = node ∧ lease_live now r = true.
Proof.
  intros Hdb [Hr Hl]%find_elem. unfold leased, of_operation in Hl. bool_to_prop. subst.
  repeat match goal with H : String.eqb _ _ = true |- _ => apply String.eqb_eq in H end.
  split; [by apply row_found|]. unfold holder. repeat split; congruence.
Qed.

Lemma extend_moves now id db rows db' r :
  update_operations (of_operation id) (extend_lease now) db = Ok (rows, db') →
  find_operation_row id db = Some r → or_state r = "running" → node_moves db db'.
Proof.
  intros H Hr Hs. eapply update_operations_moves; [|exact H|]; [done|]. intros _ id' r' ts Hv Ho.
  destruct (of_operation_row _ _ _ _ _ _ Hr Hv Ho) as (-> & -> & ->). by apply mv_extend.
Qed.

Lemma renew_moves now node_id operation_id epoch instance agent :
  tx_moves node_moves (renew_tx now node_id operation_id epoch instance agent).
Proof.
  intros db a db' H. apply node_moves_ok. intros Hdb.
  unfold renew_tx in H. inv_lease;
    match goal with H1 : List.find _ _ = Some _ |- _ => destruct (leased_row _ _ _ _ _ _ _ _ Hdb H1) as (Hr & Hs & _) end.
  - by eapply expire_forward_moves.
  - by eapply extend_moves.
Qed.

(** ** The operator *)

Lemma resume_moves operation_id actor : tx_moves node_moves (resume_tx operation_id actor).
Proof.
  intros db a db' H. unfold resume_tx in H. inv_tx.
  etrans; [|by eapply same_core_moves, append_event_core].
  eapply update_operations_moves; [|eassumption|]; [done|]. intros _ id' r ts _ Hp.
  cbn beta in Hp. bool_to_prop. apply mv_resume. by apply String.eqb_eq.
Qed.

Lemma cancel_moves operation_id actor : tx_moves node_moves (cancel_tx operation_id actor).
Proof.
  intros db a db' H. unfold cancel_tx in H. inv_tx. eapply enter_restoration_moves; [eassumption|by right].
Qed.

Lemma attest_moves now principal attestation : tx_moves node_moves (attest_tx now principal attestation).
Proof. apply tx_core_moves. unfold attest_tx. tx_frame. Qed.

Lemma running_paused_moves p code detail :
  (∀ r, p r = true → or_state r = "running") →
  tx_moves node_moves (update_operations p (paused_row code detail)).
Proof.
  intros Hp db rows db' H. eapply update_operations_moves; [|exact H|]; [done|]. intros _ id r ts _ Hr.
  apply mv_pause. right. by apply Hp.
Qed.

Lemma ensure_node_core node_id db : same_core db (ensure_node node_id db).
Proof. unfold ensure_node. by case_match. Qed.

Lemma put_agent_policy_moves now actor policy : tx_moves node_moves (put_agent_policy_tx now actor policy).
Proof.
  unfold put_agent_policy_tx. tx_frame; try (apply tx_core_moves; by auto with tx).
  - apply tx_moves_modify. intros db. apply same_core_moves, ensure_node_core.
  - apply tx_moves_modify. intros db. by apply same_core_moves.
  - apply running_paused_moves. intros r Hr. bool_to_prop. by apply String.eqb_eq.
Qed.

(** ** Claims *)

Lemma selected_proxy_row id db r o p :
  db_ok db → loaded r (op_view id db).2 o → proxy_target o = Ok p →
  ∀ t, t ∈ (op_view id db).2 → is_proxy_row id t = true → row_proxy t p.
Proof.
  intros Hdb L Hp t Ht Hi. destruct (loaded_proxy _ _ _ _ L Hp) as (t' & Ht' & Hrow).
  assert (t = t') as ->; [|done]. eapply proxy_row_unique; [done..| |by destruct Hrow].
  unfold is_proxy_row in Hi. bool_to_prop. by apply String.eqb_eq.
Qed.

(** What a claim selects, in terms of rows. *)
Lemma select_target_rows id db r o s :
  db_ok db → loaded r (op_view id db).2 o → select_target o = Ok (Some s) →
  (se_kind s = TkProxy ∨ se_kind s = TkEngineSlot)
  ∧ (∃ t, t ∈ (op_view id db).2 ∧ selected_row id s t = true)
  ∧ ∀ t, t ∈ (op_view id db).2 → selected_row id s t = true →
      tr_complete t = false ∧ at_step t (se_step s)
      ∧ se_delivered s = negb (is_none (ef_delivered_at (tr_effect t)))
      ∧ se_ambiguous s = ef_ambiguous (tr_effect t).
Proof.
  intros Hdb L Hsel. unfold select_target in Hsel. inv_ok Hsel. rename x into p, x0 into slots.
  case_match eqn:Eb.
  - simplify_eq. bool_to_prop. split; [by left|].
    destruct (loaded_proxy _ _ _ _ L H) as (t0 & Ht0 & Hrow0). split.
    + exists t0. split; [done|]. unfold selected_row. rewrite bool_decide_true by done.
      unfold is_proxy_row, target_of_operation. destruct (view_target_id _ _ _ Ht0) as [-> _].
      by rewrite (rx_kind _ _ Hrow0), Z.eqb_refl.
    + intros t Ht Hs. pose proof (selected_proxy_row _ _ _ _ _ Hdb L H t Ht Hs) as Hrow.
      destruct Hrow. cbn. repeat split; congruence.
  - destruct (List.find _ slots) as [s0|] eqn:Ef; [|done]. apply find_elem in Ef as [Hin Hinc]. bool_to_prop.
    simplify_eq. unfold select_slot in Hsel. case_match; [done|]. simplify_eq. split; [by right|].
    destruct (loaded_slots _ _ _ _ _ L H0 Hin) as (t0 & Ht0 & Hrow0). split.
    + exists t0. split; [done|]. unfold selected_row. rewrite bool_decide_false by done.
      unfold is_slot_row, target_of_operation. destruct (view_target_id _ _ _ Ht0) as [-> _].
      rewrite (rs_kind _ _ Hrow0), (rs_key _ _ Hrow0), Z.eqb_refl. apply String.eqb_refl.
    + intros t Ht Hs. pose proof (the_slot_intro id s0 db t0 Hdb Ht0 Hrow0 t Ht Hs) as Hrow.
      destruct Hrow. cbn. repeat split; congruence.
Qed.

Lemma deliver_moves now id node instance agent epoch o s db i db' r :
  deliver now id node instance agent epoch o s db = Ok (i, db') → db_ok db →
  find_operation_row id db = Some r → is_active r = true → loaded r (op_view id db).2 o →
  select_target o = Ok (Some s) → node_moves db db'.
Proof.
  intros H Hdb Hr Ha L Hsel. destruct (select_target_rows _ _ _ _ _ Hdb L Hsel) as (Hk & _ & Hrows).
  unfold deliver in H. apply tx_bind_ok in H as (? & ? & [-> ->]%tx_get_ok & H).
  apply tx_bind_ok in H as (digest & db1 & Hd & H).
  assert (db1 = db) as -> by (by case_match; inv_tx). clear Hd. inv_tx; simplify_eq;
    match goal with H : append_event _ _ _ _ _ _ = _ |- _ => apply append_event_core in H; etrans; [|by apply same_core_moves] end;
    [|done].
  bool_to_prop. unfold inspection in *. bool_to_prop.
  assert (∀ t, t ∈ (op_view id db).2 → selected_row id s t = true →
            tr_complete t = false ∧ delivered_move t (delivered_target now t)) as Hdel.
  { intros t Ht' Hs. destruct (Hrows t Ht' Hs) as (Hc & Hst & Hde & Ham). split; [done|].
    apply (dm_deliver _ _ (se_step s)); [done..| |congruence]. destruct (ef_delivered_at _); [|done].
    cbn in Hde. destruct (mutating (se_step s)), (se_delivered s); cbn in *; naive_solver. }
  unfold selected_row in *. case_bool_decide as Hkind.
  - eapply proxy_update_moves; [eassumption|done..|]. intros _ t Ht' Hp. by apply pm_deliver; apply Hdel.
  - eapply slot_changed_moves; [eapply update_slot_changed; [|eassumption]; done|done..|].
    intros _ t Ht' Hp. by apply sm_deliver; apply Hdel.
Qed.

Lemma take_lease_moves now instance agent db r epoch db' :
  take_lease now instance agent r db = Ok (epoch, db') → db_ok db → r ∈ operations db →
  or_state r = "queued" ∨ or_state r = "running" → node_moves db db'.
Proof.
  intros H Hdb Hin Hst. pose proof (row_found _ _ Hdb Hin) as Hr. unfold take_lease in H. inv_tx.
  - eapply update_operations_moves; [|eassumption|]; [done|]. intros _ id' r' ts Hv Ho.
    destruct (of_operation_row _ _ _ _ _ _ Hr Hv Ho) as (-> & -> & ->). apply mv_claim. by apply String.eqb_eq.
  - eapply extend_moves; [eassumption|done|]. destruct Hst as [Hst|]; [|done]. by rewrite Hst in *.
Qed.

Lemma claimable_state now node instance locked r :
  claimable_operation now node instance locked r = true → or_state r = "queued" ∨ or_state r = "running".
Proof.
  unfold claimable_operation. intros H. bool_to_prop.
  match goal with H : _ ∨ _ |- _ => destruct H as [->%String.eqb_eq|H] end; [by left|].
  bool_to_prop. right. by apply String.eqb_eq.
Qed.

Lemma expired_lease_running now node r : expired_lease now node r = true → or_state r = "running".
Proof. unfold expired_lease. intros H. bool_to_prop. by apply String.eqb_eq. Qed.

Lemma sorted_head {A} (cmp : A → A → comparison) p l x rest :
  sort_by cmp (List.filter p l) = x :: rest → x ∈ l ∧ p x = true.
Proof.
  intros H. apply and_comm, (elem_of_filter_bool p l).
  rewrite <-(sort_by_perm cmp (List.filter p l)), H. left.
Qed.

(** A claim after the expiry of leases: nothing, the end of the forward phase, or a lease, a
    reconciliation and perhaps an instruction. *)
Lemma claim_moves now clock locked node_id instance agent db a db' :
  claim_tx now clock locked node_id instance agent db = Ok (a, db') →
  consults Ev now clock db db' → node_moves db db'.
Proof.
  intros H Hev. unfold claim_tx in H.
  apply tx_bind_ok in H as (? & ? & [_ ->]%tx_guard_ok & H).
  apply tx_bind_ok in H as (? & ? & [_ ->]%tx_guard_ok & H).
  apply tx_bind_ok in H as (? & ? & [-> ->]%tx_get_ok & H).
  apply tx_bind_ok in H as (? & ? & [_ ->]%tx_guard_ok & H).
  apply tx_bind_ok in H as (expired & db1 & Hexp & H).
  apply tx_bind_ok in H as (? & db2 & Hevents & H).
  assert (same_cluster db db2) as Hc2.
  { etrans; [eapply update_operations_keeps; [by intros|exact Hexp]
            |eapply append_events_keeps; [apply _|by intros|exact Hevents]]. }
  apply running_paused_moves in Hexp; [|apply expired_lease_running].
  apply append_events_core, (same_core_moves (Ev := Ev)) in Hevents.
  apply tx_bind_ok in H as (? & ? & [-> ->]%tx_get_ok & H).
  etrans; [exact Hexp|]. etrans; [exact Hevents|]. clear Hexp Hevents. apply node_moves_ok. intros Hdb.
  destruct (sort_by _ _) as [|r rest] eqn:Es; [by inv_tx|].
  apply sorted_head in Es as [Hin Hcl]. apply claimable_state in Hcl.
  apply tx_bind_ok in H as (late & ? & (-> & _)%forward_expired_ok & H).
  destruct late; [inv_tx; by eapply expire_forward_moves|].
  apply tx_bind_ok in H as (epoch & db3 & Htl & H).
  assert (same_cluster db db3) as Hc3.
  { etrans; [exact Hc2|]. eapply take_lease_keeps; [apply _|by intros|exact Htl]. }
  apply take_lease_moves in Htl; [|done..].
  apply tx_bind_ok in H as (? & db4 & Hrec & H).
  assert (same_observations db3 db') as Ho.
  { etrans; [by eapply reconcile_observations|]. inv_tx; try done. by eapply deliver_observations. }
  apply (reconcile_moves (Ev := Ev)) in Hrec; [|by intros sn; apply Hev|by eapply view_row_range, row_found].
  etrans; [exact Htl|]. etrans; [exact Hrec|]. apply node_moves_ok. intros Hdb4. inv_tx; try done.
  match goal with H : load_operation _ _ = Ok _ |- _ => destruct (load_operation_loaded _ _ _ H) as (r4 & Hr4 & L) end.
  eapply deliver_moves; [eassumption|done..| |done|done].
  apply running_active, parse_state_running. rewrite (ld_state _ _ _ L). bool_to_prop. by f_equal.
Qed.

(** ** Reports *)

Lemma report_observation_moves now clock request agent db a db' :
  report_observation_tx now clock request agent db = Ok (a, db') →
  consults Ev now clock db db' → node_moves db db'.
Proof.
  intros H Hev. unfold report_observation_tx in H. apply node_moves_ok. intros Hdb. inv_lease.
  - by eapply expire_forward_moves.
  - etrans; [|eapply reconcile_moves; [|by eapply parse_operation_id_range|eassumption]].
    2:{ intros sn. apply Hev; [|by eapply reconcile_observations].
        match goal with H : fence_cleanup_authority _ _ _ _ = _ |- _ =>
          apply fence_cleanup_keeps with (R := same_cluster) in H; [|apply _|by intros] end.
        etrans; [|eassumption]. done. }
    match goal with H : fence_cleanup_authority _ _ _ _ = _ |- _ => apply fence_cleanup_core, (same_core_moves (Ev := Ev)) in H end.
    etrans; [|eassumption]. by apply same_core_moves.
  - etrans; [|eapply reconcile_moves; [|by eapply parse_operation_id_range|eassumption]].
    + by apply same_core_moves.
    + intros sn. apply Hev; [done|by eapply reconcile_observations].
Qed.

Lemma proxy_found db id t :
  db_ok db → List.find (λ t, is_proxy_row id t && negb (tr_complete t)) (targets db) = Some t →
  tr_complete t = false ∧ is_proxy_row id t = true ∧ t ∈ (op_view id db).2
  ∧ ∀ t', t' ∈ (op_view id db).2 → is_proxy_row id t' = true → t' = t.
Proof.
  intros Hdb [Ht Hp]%find_elem. cbn beta in Hp. bool_to_prop.
  assert (t ∈ (op_view id db).2) as Hv.
  { apply elem_of_filter_bool. unfold is_proxy_row in *. by bool_to_prop. }
  do 3 (split; [done|]). intros t' Ht' Hp'. unfold is_proxy_row in *. bool_to_prop.
  eapply proxy_row_unique; [done..| |]; by apply String.eqb_eq.
Qed.

Lemma slot_found db id slot t :
  db_ok db → List.find (λ t, is_slot_row id slot t && negb (tr_complete t)) (targets db) = Some t →
  tr_complete t = false ∧ is_slot_row id slot t = true ∧ t ∈ (op_view id db).2
  ∧ ∀ t', t' ∈ (op_view id db).2 → is_slot_row id slot t' = true → t' = t.
Proof.
  intros Hdb [Ht Hp]%find_elem. cbn beta in Hp. bool_to_prop.
  assert (t ∈ (op_view id db).2) as Hv.
  { apply elem_of_filter_bool. unfold is_slot_row in *. by bool_to_prop. }
  do 3 (split; [done|]). intros t' [Ht' Hin]%view_target_id Hp'.
  unfold is_slot_row, target_of_operation in *. bool_to_prop.
  repeat match goal with H : String.eqb _ _ = true |- _ => apply String.eqb_eq in H end.
  eapply target_row_unique; [done..| | |]; congruence.
Qed.

Lemma report_proxy_moves now clock id request step agent db u db' r :
  report_proxy now clock id request step agent db = Ok (u, db') → consults Ev now clock db db' →
  db_ok db → uuid_in_range id →
  find_operation_row id db = Some r → or_state r = "running" → node_moves db db'.
Proof.
  intros H Hev Hdb Hid Hr Hst. pose proof (running_active _ Hst) as Ha. unfold report_proxy, observed_revision_fits in H. inv_tx;
    match goal with H : List.find _ _ = Some _ |- _ => destruct (proxy_found _ _ _ Hdb H) as (Hc & Hp & Hv & Hu) end.
  - etrans; [eapply (proxy_update_moves id); [eassumption|done..|]; intros; apply pm_failed|].
    eapply update_operations_moves; [|eassumption|]; [done|]. intros _ id' r' ts Hview Ho.
    match goal with H : update_targets _ _ _ = _ |- _ => apply update_targets_ok in H as [-> _] end.
    apply mv_pause. right. by destruct (of_operation_row id (set_targets _ db) r r' id' ts Hr Hview Ho) as (_ & -> & _).
  - etrans; [|eapply reconcile_moves; [|eassumption..]].
    2:{ intros sn. apply Hev; [|by eapply reconcile_observations].
        eapply (update_targets_keeps same_cluster); [by intros|eassumption]. }
    eapply (proxy_update_moves id); [eassumption|done..|]. intros _ t' Ht' Hp'. rewrite (Hu t' Ht' Hp').
    apply pm_report; [done| |done]. bool_to_prop. subst. done.
Qed.

Lemma report_slot_moves now clock id epoch request step slot pinned agent db u db' r :
  report_slot now clock id epoch request step slot pinned agent db = Ok (u, db') →
  consults Ev now clock db db' → db_ok db → uuid_in_range id →
  find_operation_row id db = Some r → or_state r = "running" → step ≠ VerifyProxy → node_moves db db'.
Proof.
  intros H Hev Hdb Hid Hr Hst Hne. pose proof (running_active _ Hst) as Ha. unfold report_slot, observed_revision_fits in H.
  rewrite (bool_decide_false (step = VerifyProxy)) in H by done. inv_tx; try done.
  match goal with H : List.find _ _ = Some _ |- _ => destruct (slot_found _ _ _ _ Hdb H) as (Hc & Hp & Hv & Hu) end.
  etrans; [|eapply reconcile_moves; [|eassumption..]].
  2:{ intros sn. apply Hev; [|by eapply reconcile_observations].
      etrans; [eapply (update_targets_keeps same_cluster); [by intros|eassumption]|].
      eapply (append_event_keeps same_cluster); [by intros|eassumption]. }
  etrans; [|by eapply same_core_moves, append_event_core].
  eapply slot_changed_moves; [eapply update_slot_changed; [|eassumption]; done|done..|].
  intros _ t' Ht' Hp'. rewrite (Hu t' Ht' Hp'). apply sm_report; [done|]. bool_to_prop. by subst.
Qed.

Lemma store_receipt_ok key agent request db u db' :
  store_receipt key agent request db = Ok (u, db') →
  db' = set_receipts (receipts db ++ [mkReceipt key agent request]) db.
Proof. unfold store_receipt. intros H. by inv_tx. Qed.

Lemma set_receipts_moves l db : node_moves db (set_receipts l db).
Proof.
  apply node_moves_intro. intros [Ho Ht _]. split; [done|]. split; [done|].
  intros id. apply rtc_refl.
Qed.

(** A result of an engine slot is of a step that slots have. *)
Lemma engine_result_step target key step :
  instruction_target_key target = Ok key → String.eqb key.1 "proxy" = false →
  target_step_compatible (default TkUnspecified (target_kind_try_from (it_kind target))) step = true →
  step ≠ VerifyProxy.
Proof.
  unfold instruction_target_key. destruct (default TkUnspecified _); try done.
  - by destruct (it_identity target) as [[]|]; intros [= <-].
  - intros _ _ Hc ->. done.
Qed.

Lemma report_step_moves now clock request agent db a db' :
  report_step_tx now clock request agent db = Ok (a, db') →
  consults Ev now clock db db' → node_moves db db'.
Proof.
  intros H Hev. unfold report_step_tx in H. apply node_moves_ok. intros Hdb. inv_lease; try done;
    match goal with H : List.find (leased _ _ _ _ _ _) _ = Some _ |- _ =>
      destruct (leased_row _ _ _ _ _ _ _ _ Hdb H) as (Hr & Hs & _) end;
    try (match goal with H : store_receipt _ _ _ _ = _ |- _ => apply store_receipt_ok in H as -> end;
         etrans; [|apply set_receipts_moves]);
    match goal with H : parse_operation_id _ = Ok _ |- _ => apply parse_operation_id_range in H end.
  - by eapply expire_forward_moves.
  - by eapply report_proxy_moves.
  - by eapply report_slot_moves; [..|by eapply engine_result_step].
Qed.

(** ** Submissions *)

Lemma operations_ok_ids l : operations_ok l = true → NoDup (or_operation_id <$> l).
Proof. unfold operations_ok, operations_unique. intros H. by bool_to_prop. Qed.

Lemma create_moves r ts db db' :
  operations db' = operations db ++ [r] → targets db' = targets db ++ ts →
  operations_ok (operations db') = true → targets_ok (targets db') = true →
  (∀ t, t ∈ ts → tr_operation_id t = or_operation_id r) → fresh_row r → (∀ t, t ∈ ts → fresh_target t) →
  (∀ t, t ∈ ts → tr_kind t = "engine_slot" → transition_fits (or_action r) t) →
  (or_phase r = "complete" → ∀ t, t ∈ ts → tr_complete t = true) →
  node_moves db db'.
Proof.
  intros Eo Et Ho Ht Hid Hr Hts Hfits Hc. apply node_moves_intro. intros Hdb. split; [done|]. split; [done|]. intros id.
  unfold op_view, find_operation_row. rewrite Eo, Et, find_app, List.filter_app. cbn.
  destruct (decide (id = or_operation_id r)) as [->|Hne].
  - assert (of_operation (or_operation_id r) r = true) as -> by apply Z.eqb_refl.
    destruct (List.find (of_operation (or_operation_id r)) (operations db)) as [r'|] eqn:Ef.
    { exfalso. apply operations_ok_ids in Ho. rewrite Eo, fmap_app in Ho. apply find_row in Ef as [Hin Heq].
      apply NoDup_app in Ho as (_ & Hd & _). apply (Hd (or_operation_id r)); [|by left].
      rewrite <-Heq. by apply list_elem_of_fmap_2. }
    pose proof (dk_views _ Hdb (or_operation_id r)) as Hv. unfold view_inv, op_view, find_operation_row in Hv.
    rewrite Ef in Hv. cbn in Hv. rewrite Hv. cbn.
    rewrite (filter_all _ ts) by (intros t Ht'; unfold target_of_operation; by rewrite Hid, Z.eqb_refl).
    by apply rtc_once, mv_create.
  - assert (of_operation id r = false) as -> by (by apply Z.eqb_neq).
    rewrite (filter_none _ ts), app_nil_r.
    2:{ intros t Ht'. unfold target_of_operation. rewrite Hid by done. by apply Z.eqb_neq. }
    by destruct (List.find _ _).
Qed.

(** A loaded operation has passed [validate_stored_transition]. *)
Lemma validated_transition name action t p :
  parse_action name = Ok action → target_from_row t = Ok p → tp_kind p = TkEngineSlot →
  validate_target action p = Ok () → transition_fits name t.
Proof.
  intros Ha Hf Hk Hv. destruct (target_from_row_kind _ _ Hf) as [[? _]|(_ & s & Hs & Hrow)]; [congruence|].
  exists action, (sl_transition s). split; [done|]. split; [apply (rs_transition _ _ Hrow)|].
  unfold slot_of_target in Hs. inv_ok Hs. destruct (tp_transition p) as [k|] eqn:Ek; [|done]. simplify_eq. cbn in *.
  assert (tp_source p = tr_source t ∧ tp_target p = tr_target t) as [Es Et]
    by (split; symmetry; [apply (rs_source _ _ Hrow)|apply (rs_target _ _ Hrow)]).
  unfold validate_target, validate_stored_transition in Hv. rewrite Ek, Es, Et in Hv. inv_ok Hv. bool_to_prop. subst.
  destruct action; simplify_eq; try done.
  match goal with H : (if ?b then _ else _) = Ok _ |- _ => destruct b eqn:E end; simplify_eq. bool_to_prop.
  split; [done|]. by split; [lia|].
Qed.

(** A transition that fits moves between revisions as its kind says. *)
Lemma transition_fits_ok name t :
  transition_fits name t → target_row_ok t = true →
  ∃ d k, tr_detail t = Some d ∧ parse_transition (ed_transition_kind d) = Ok k
    ∧ transition_ok k (tr_source t) (tr_target t).
Proof.
  intros (a & k & _ & (d & Hd & Hk) & Hm) Hok. exists d, k. split; [done|]. split; [done|].
  unfold target_row_ok in Hok. bool_to_prop. clear Hd Hk.
  destruct a; try done; try (by destruct Hm as (-> & ? & ?)); subst k; unfold derive_transition;
    destruct (Z.ltb_spec 0 (rel_revision (tr_source t))), (Z.ltb_spec 0 (rel_revision (tr_target t)));
      try case_bool_decide; cbn; try lia; congruence.
Qed.

Lemma load_transitions id db o t :
  load_operation id db = Ok o → t ∈ (op_view id db).2 → tr_kind t = "engine_slot" →
  ∃ r, find_operation_row id db = Some r ∧ transition_fits (or_action r) t.
Proof.
  intros Hl Ht Hk. destruct (load_operation_loaded _ _ _ Hl) as (r & Hr & L). exists r. split; [done|].
  destruct (loaded_row _ _ _ _ L Ht) as (p & Hp & Hf).
  destruct (target_from_row_kind _ _ Hf) as [[_ [Hpk _ _ _ _ _]]|(Hpk & _)]; [congruence|].
  unfold load_operation in Hl. rewrite Hr in Hl. unfold load_row, operation_from_row in Hl. inv_ok Hl. simplify_eq. cbn in Hp.
  match goal with H : collect_results (validate_target _) _ = Ok _ |- _ => apply collect_results_Forall2 in H as Hv end.
  assert (p ∈ List.filter (λ t, bool_decide (tp_kind t = TkEngineSlot)) x0) as [i Hi]%list_elem_of_lookup
    by (apply elem_of_filter_bool; by rewrite bool_decide_true).
  destruct (Forall2_lookup_l _ _ _ _ _ Hv Hi) as ([] & _ & Hval).
  by eapply validated_transition.
Qed.

Lemma parse_transition_name k : parse_transition (transition_name k) = Ok k.
Proof. by destruct k. Qed.

Lemma release_if_positive_revision v r : rel_revision (release_if_positive v r) = v.
Proof. unfold release_if_positive. by destruct (0 <? v)%Z. Qed.

(** A new slot, once its transition is known to be valid. *)
Lemma new_engine_fresh id request p n slot :
  let t := new_engine_target id request p n slot in
  (∃ d k, tr_detail t = Some d ∧ parse_transition (ed_transition_kind d) = Ok k
     ∧ transition_ok k (tr_source t) (tr_target t)) →
  fresh_target t.
Proof.
  intros t (d & k & Hd & Hk & Hok). right. split; [done|]. unfold fresh_slot. exists d, k.
  split; [done|]. split; [done|]. split; [done|]. unfold t, new_engine_target in Hd. cbn in Hd. simplify_eq. cbn in Hk.
  rewrite parse_transition_name in Hk. simplify_eq. cbn.
  repeat split; try done. unfold source_revision, t. cbn. by rewrite release_if_positive_revision.
Qed.

Lemma elem_of_imap {A B} (f : nat → A → B) l y : y ∈ imap f l → ∃ i x, y = f i x ∧ x ∈ l.
Proof.
  intros [i Hi]%list_elem_of_lookup. rewrite list_lookup_imap in Hi.
  destruct (l !! i) as [x|] eqn:E; [|done]. simplify_eq/=. exists i, x. by eauto using list_elem_of_lookup_2.
Qed.

(** Statements that write neither operations nor targets. *)
Lemma modify_if_core (b : bool) f db u db' :
  (∀ db, same_core db (f db)) → (if b then modify f else mret ()) db = Ok (u, db') → same_core db db'.
Proof. intros Hf. destruct b; intros H; inv_tx; [apply Hf|done]. Qed.

Lemma new_proxy_fresh id request p : fresh_target (new_proxy_target id request p).
Proof.
  left. split; [done|]. split; [|done]. unfold new_proxy_target. cbn. repeat case_match; set_solver.
Qed.

(** What an accepted submission stores. *)
Record stored (r : OperationRow) (ts : list TargetRow) (db : NodeDb) (o : NodeOperation) (db' : NodeDb) : Prop := mkStored {
  st_operations : operations db' = operations db ++ [r];
  st_targets : targets db' = targets db ++ ts;
  st_operations_ok : operations_ok (operations db') = true;
  st_targets_ok : targets_ok (targets db') = true;
  st_load : load_operation (or_operation_id r) db' = Ok o;
}.

Lemma stored_moves r ts db o db' :
  stored r ts db o db' → (∀ t, t ∈ ts → tr_operation_id t = or_operation_id r) → fresh_row r →
  (∀ t, t ∈ ts →
     (tr_kind t = "engine_slot" → ∃ d k, tr_detail t = Some d ∧ parse_transition (ed_transition_kind d) = Ok k
        ∧ transition_ok k (tr_source t) (tr_target t)) → fresh_target t) →
  (or_phase r = "complete" → ∀ t, t ∈ ts → tr_complete t = true) → node_moves db db'.
Proof.
  intros [Eo Et Ho Ht Hl] Htid Hr Hts Hc.
  assert (∀ t, t ∈ ts → tr_kind t = "engine_slot" → transition_fits (or_action r) t) as Hfits.
  { intros t Hin Hk. destruct (load_transitions _ _ _ t Hl) as (r' & Hr' & Hfit); [|done|].
    { apply elem_of_filter_bool. rewrite Et. unfold target_of_operation.
      rewrite (Htid t Hin), Z.eqb_refl. split; [done|]. apply elem_of_app. by right. }
    apply find_row in Hr' as [Hin' Eid]. replace r with r'; [done|].
    apply (NoDup_fmap_inj or_operation_id (operations db')); [by apply operations_ok_ids|done| |done].
    rewrite Eo. apply elem_of_app. right. by left. }
  eapply (create_moves r ts); try done.
  intros t Hin. apply Hts; [done|]. intros Hk. apply (transition_fits_ok (or_action r)); [by apply Hfits|].
  unfold targets_ok in Ht. bool_to_prop. eapply (proj1 (forallb_forall _ _)); [done|].
  apply list_elem_of_In. rewrite Et. apply elem_of_app. by right.
Qed.

Lemma store_operation_stored now id actor request p digest slots db o db' :
  store_operation now id actor request p digest slots db = Ok (o, db') →
  stored (new_operation now id actor request p digest)
    (new_proxy_target id request p :: imap (new_engine_target id request p) slots) db o db'.
Proof.
  intros H. unfold store_operation in H.
  apply tx_bind_ok in H as (? & db1 & H1 & H). apply modify_if_core in H1 as (O1 & T1 & _); [|done].
  apply tx_bind_ok in H as (? & ? & [_ ->]%tx_guard_ok & H).
  apply tx_bind_ok in H as (? & ? & [_ ->]%tx_guard_ok & H).
  apply tx_bind_ok in H as (? & ? & [-> ->]%tx_get_ok & H).
  apply tx_bind_ok in H as (? & db2 & [-> Ho]%put_operations_ok & H).
  apply tx_bind_ok in H as (? & db3 & H3 & H). apply modify_if_core in H3 as (O3 & T3 & _); [|done].
  apply tx_bind_ok in H as (? & db4 & [-> Ht]%put_targets_ok & H).
  apply tx_bind_ok in H as (? & db5 & (O5 & T5 & _)%append_event_core & H).
  apply tx_bind_ok in H as (? & db6 & (O6 & T6 & _)%fence_cleanup_core & H). inv_tx.
  split; rewrite ?O6, ?O5, ?T6, ?T5; cbn in *; rewrite ?O3, ?O1, ?T1 in *; done.
Qed.

Lemma submit_no_effect_stored now id actor request p db o db' :
  submit_no_effect now id actor request p db = Ok (o, db') →
  ∃ digest, stored (no_effect_operation now id actor request p digest)
    (mkTargetRow id (so_node_id request) "proxy" "proxy" "complete" 0 true ("", "") (sp_source p) (sp_source p)
       "" "" false no_effect None
     :: imap (no_effect_engine_target id (so_node_id request) (sp_source p)) (sorted_slots (sp_source_slots p)))
    db o db'.
Proof.
  intros H. unfold submit_no_effect in H.
  apply tx_bind_ok in H as (? & ? & [-> ->]%tx_get_ok & H). destruct (find_deployment _ _ _) as [d|]; [|done].
  do 3 (apply tx_bind_ok in H as (? & ? & [_ ->]%tx_guard_ok & H)).
  apply tx_bind_ok in H as (? & db2 & [-> Ho]%put_operations_ok & H).
  apply tx_bind_ok in H as (? & db4 & [-> Ht]%put_targets_ok & H).
  apply tx_bind_ok in H as (? & db5 & (O5 & T5 & _)%append_event_core & H). inv_tx.
  exists (dp_revision_digest d). split; rewrite ?O5, ?T5; cbn in *; done.
Qed.

Lemma store_operation_moves now id actor request p digest slots :
  uuid_in_range id → tx_moves node_moves (store_operation now id actor request p digest slots).
Proof.
  intros Hid db o db' H%store_operation_stored. eapply stored_moves; [exact H|..].
  - intros t [->|(i & slot & -> & _)%elem_of_imap]%elem_of_cons; done.
  - repeat split; try done; try apply Hid. by left.
  - intros t [->|(i & slot & -> & _)%elem_of_imap]%elem_of_cons Hv; [apply new_proxy_fresh|].
    by apply new_engine_fresh, Hv.
  - done.
Qed.

Lemma submit_no_effect_moves now id actor request p :
  uuid_in_range id → tx_moves node_moves (submit_no_effect now id actor request p).
Proof.
  intros Hid db o db' [digest H]%submit_no_effect_stored. eapply stored_moves; [exact H|..].
  - intros t [->|(i & slot & -> & _)%elem_of_imap]%elem_of_cons; done.
  - repeat split; try done; try apply Hid. by right.
  - intros t [->|(i & slot & -> & _)%elem_of_imap]%elem_of_cons Hv; [left|right]; (split; [done|]).
    + split; [cbn; set_solver|done].
    + destruct (Hv eq_refl) as (d' & k & Hd & Hk & Hok). cbn in Hd. simplify_eq. cbn in Hk. simplify_eq.
      by eexists _, Unchanged.
  - intros _ t [->|(i & slot & -> & _)%elem_of_imap]%elem_of_cons; done.
Qed.

Lemma deployment_inventory_moves node_id revision : tx_moves node_moves (deployment_inventory node_id revision).
Proof. unfold deployment_inventory. tx_frame. Qed.

Lemma staged_target_range actor request revision db s db' :
  staged_target actor request revision db = Ok (s, db') → uuid_in_range s.1.1.
Proof.
  unfold staged_target. intros H. inv_tx; simplify_eq. cbn. by eapply uuid_parse_range.
Qed.

Lemma staged_target_moves actor request revision : tx_moves node_moves (staged_target actor request revision).
Proof. unfold staged_target. tx_frame. apply deployment_inventory_moves. Qed.

Lemma submit_new_moves now fresh_id actor request source :
  uuid_in_range fresh_id → tx_moves node_moves (submit_new now fresh_id actor request source).
Proof.
  intros Hid. unfold submit_new.
  apply tx_moves_bind; [apply _|tx_frame|intros _].
  apply tx_moves_bind; [apply _|tx_frame|intros target].
  apply tx_moves_bind; [apply _|tx_frame|intros deadline].
  apply tx_moves_bind; [apply _|apply deployment_inventory_moves|intros inventory].
  case_match; [by apply submit_no_effect_moves|]. case_match.
  - intros db o db' ((a & b) & db1 & H1 & H2)%tx_bind_ok. apply tx_bind_ok in H1 as (s & db2 & Hs & H1). inv_tx.
    pose proof (staged_target_range _ _ _ _ _ _ Hs) as Hr. cbn [fst snd] in *.
    etrans; [exact (staged_target_moves _ _ _ _ _ _ Hs)|].
    exact (store_operation_moves _ _ _ _ _ _ _ Hr _ _ _ H2).
  - intros db o db' Hs. inv_tx. by eapply (store_operation_moves _ _ _ _ _ _ _ Hid).
Qed.

Lemma submit_moves now fresh_id actor request :
  uuid_in_range fresh_id → tx_moves node_moves (submit_tx now fresh_id actor request).
Proof.
  intros Hid. unfold submit_tx. tx_frame; [|by apply submit_new_moves].
  apply tx_moves_modify. intros db. apply same_core_moves, ensure_node_core.
Qed.

End transactions.
