(* ===== verification/NodeFacts.v ===== *)
(** * Node operations: what every run keeps

    The manager's calls on node operations, interleaved in any order with each other and with
    the writers of the other tables, from empty tables of operations. Every operation that they
    store can be loaded. *)

From S2P Require Import Prelude RustStr Utf8 Lists Orders Externals Grpc Lifecycle IndexedRouting Deployment Rollout Schedule Operations NodeStatus NodeTables NodeStore NodeSubmit NodeRun NodeAgent NodeReport NodeTx NodeSteps NodeLoad NodeRefine NodeRefineTx.

(** ** Runs *)

Inductive NodeCall : Type :=
| CSubmit (now : Z) (fresh_id : Uuid) (actor : string) (request : SubmitOperationRequest)
| CClaim (now clock : Z) (locked : list Uuid) (node_id agent_instance_id agent : string)
| CRenew (now : Z) (node_id operation_id : string) (epoch : Z) (agent_instance_id agent : string)
| CObserve (now clock : Z) (request : ReportNodeObservationRequest) (agent : string)
| CReport (now clock : Z) (request : ReportStepResultRequest) (agent : string)
| CResume (operation_id actor : string)
| CCancel (operation_id actor : string)
| CPolicy (now : Z) (actor : string) (policy : NodeAgentPolicy)
| CAttest (now : Z) (principal : string) (attestation : NodeAgentAttestation).

(** [Uuid::new_v4] has 128 bits. *)
Definition call_ok (c : NodeCall) : Prop :=
  match c with CSubmit _ fresh_id _ _ => uuid_in_range fresh_id | _ => True end.

(** The moves of every operation, whatever the evidence. *)
Abbreviation node_moves := (node_moves_on any_snapshot).

Section facts.
Context `{CL : CollationLib, UL : UuidLib, SH : Sha256Lib}.

Definition perform (c : NodeCall) (db : NodeDb) : NodeDb :=
  match c with
  | CSubmit now fresh_id actor request => (submit now fresh_id actor request db).2
  | CClaim now clock locked node_id instance agent => (claim now clock locked node_id instance agent db).2
  | CRenew now node_id operation_id epoch instance agent =>
      (renew now node_id operation_id epoch instance agent db).2
  | CObserve now clock request agent => (report_observation now clock request agent db).2
  | CReport now clock request agent => (report_step now clock request agent db).2
  | CResume operation_id actor => (resume operation_id actor db).2
  | CCancel operation_id actor => (cancel operation_id actor db).2
  | CPolicy now actor policy => (put_agent_policy now actor policy db).2
  | CAttest now principal attestation => (attest now principal attestation db).2
  end.

(** The rest of the manager writes none of the tables of this component. *)
Definition other_writers (db db' : NodeDb) : Prop :=
  same_core db db' ∧ operation_events db' = operation_events db ∧ authorities db' = authorities db
  ∧ observations db' = observations db ∧ policies db' = policies db ∧ attestations db' = attestations db.

Inductive node_step (db : NodeDb) : NodeDb → Prop :=
| ns_call c : call_ok c → node_step db (perform c db)
| ns_other db' : other_writers db db' → node_step db db'.

Definition node_initial (db : NodeDb) : Prop :=
  operations db = [] ∧ targets db = [] ∧ receipts db = [] ∧ authorities db = [].

Definition node_reachable (db : NodeDb) : Prop := ∃ db0, node_initial db0 ∧ rtc node_step db0 db.

(** The calls that reconcile an operation, with their [NOW()] and their reading of the clock. *)
Definition call_clock (c : NodeCall) : option (Z * Z) :=
  match c with
  | CClaim now clock _ _ _ _ | CObserve now clock _ _ | CReport now clock _ _ => Some (now, clock)
  | _ => None
  end.

(** The evidence of a call that takes [db] to [db']: a snapshot that it captured of the cluster
    as it found it, with the observations on record when it commits. *)
Definition evidence (c : NodeCall) (db db' : NodeDb) (sn : ClusterStatusSnapshot) : Prop :=
  ∃ now clock dbm, call_clock c = Some (now, clock) ∧ same_cluster db dbm
    ∧ same_observations dbm db' ∧ capture_cluster_status_snapshot now clock dbm = Ok sn.

Lemma evidence_consulted c db db' now clock :
  call_clock c = Some (now, clock) → consults (evidence c db db') now clock db db'.
Proof. intros Hc dbm sn H1 H2 H3. by exists now, clock, dbm. Qed.

Lemma transact_moves_at {A} Ev (t : Tx (result Status A)) db :
  (∀ a db', t db = Ok (a, db') → (transact t db).2 = db' → node_moves_on Ev db db') →
  node_moves_on Ev db (transact t db).2.
Proof.
  intros H. unfold transact in H |- *. destruct (t db) as [[a db']|e]; [by eapply H|done].
Qed.

Lemma perform_moves c db : call_ok c → node_moves_on (evidence c db (perform c db)) db (perform c db).
Proof.
  intros Hc. destruct (call_clock c) as [[now clock]|] eqn:Hclock.
  - pose proof (evidence_consulted c db (perform c db) now clock Hclock) as Hev.
    destruct c; try done; injection Hclock as -> ->; apply transact_moves_at; intros a db' H Hdb'; subst db';
      [eapply claim_moves|eapply report_observation_moves|eapply report_step_moves]; first [exact H|exact Hev].
  - generalize (evidence c db (perform c db)). intros Ev.
    destruct c; try done; apply (transact_moves (node_moves_on Ev)).
    + by apply submit_moves.
    + apply renew_moves.
    + apply resume_moves.
    + apply cancel_moves.
    + apply put_agent_policy_moves.
    + apply attest_moves.
Qed.

Lemma node_moves_any Ev db db' : node_moves_on Ev db db' → node_moves_on any_snapshot db db'.
Proof.
  intros H Hdb. destruct (H Hdb) as [Hdb' Hm]. split; [done|]. intros id.
  eapply rtc_subrel; [|apply Hm]. intros v v'. by apply op_move_mono.
Qed.

Lemma node_step_moves db db' : node_step db db' → node_moves db db'.
Proof.
  intros [c Hc|db1 [Hc _]]; [by eapply node_moves_any, perform_moves|by apply same_core_moves].
Qed.

Lemma node_steps_moves db db' : rtc node_step db db' → node_moves db db'.
Proof. induction 1 as [|db db1 db' Hs _ IH]; [done|]. etrans; [by apply node_step_moves|done]. Qed.

Lemma reachable_ok db : node_reachable db → db_ok db.
Proof.
  intros (db0 & (Ho & Ht & _) & Hs). apply (node_steps_moves _ _ Hs). split.
  - by rewrite Ho.
  - by rewrite Ht.
  - intros id. unfold op_view, find_operation_row. by rewrite Ho, Ht.
Qed.

Lemma reachable_steps db db' : node_reachable db → rtc node_step db db' → node_reachable db'.
Proof. intros (db0 & Hi & Hs) Hs'. exists db0. split; [done|]. by etrans. Qed.

(** The view of a row of the tables. *)
Lemma row_view db r : db_ok db → r ∈ operations db → (op_view (or_operation_id r) db).1 = Some r.
Proof. apply row_found. Qed.

Lemma row_target db r t :
  db_ok db → r ∈ operations db → t ∈ targets db → tr_operation_id t = or_operation_id r →
  row_inv r ∧ target_inv r t.
Proof.
  intros Hdb Hr Ht Hid. pose proof (dk_views _ Hdb (or_operation_id r)) as Hv. unfold view_inv in Hv.
  rewrite (row_view _ _ Hdb Hr) in Hv. destruct Hv as [Hri Hts]. split; [done|]. apply Hts.
  apply elem_of_filter_bool. unfold target_of_operation. by rewrite Hid, Z.eqb_refl.
Qed.

(** ** Every stored operation can be loaded *)

Lemma reachable_fits db id : node_reachable db → view_fits (op_view id db).
Proof.
  intros (db0 & Hi & Hs). assert (db_ok db0) as Hok by (apply reachable_ok; by exists db0).
  destruct (node_steps_moves _ _ Hs Hok) as [_ Hm]. eapply op_moves_fits; [apply Hm|].
  unfold view_fits, op_view, find_operation_row. by rewrite (proj1 Hi).
Qed.

Lemma one_of_parsed {A} (parse : string → result Status A) l v :
  forallb (λ v, is_ok (parse v)) l = true → one_of_texts v l = true → ∃ a, parse v = Ok a.
Proof.
  intros Hl (w & Hw & ->%String.eqb_eq)%existsb_exists. apply (proj1 (forallb_forall _ _) Hl) in Hw.
  destruct (parse w); [eauto|done].
Qed.

Lemma collect_results_total {E A B} (f : A → result E B) l :
  (∀ x, x ∈ l → ∃ y, f x = Ok y) → ∃ ys, collect_results f l = Ok ys.
Proof.
  induction l as [|x l IH]; intros H; [by eexists|]. destruct (H x) as [y Hy]; [by left|].
  destruct IH as [ys Hys]; [intros; apply H; by right|]. exists (y :: ys). cbn. by rewrite Hy, Hys.
Qed.

Lemma target_loads t :
  target_row_ok t = true → (tr_kind t = "engine_slot" → ∃ k, transition_of t k) → ∃ p, target_from_row t = Ok p.
Proof.
  intros Hok Hk. unfold target_row_ok in Hok. bool_to_prop. unfold target_from_row.
  destruct_or!; bool_to_prop.
  - destruct (one_of_parsed parse_step PROXY_STEPS (tr_next_step t)) as [s Hs]; [done..|].
    rewrite Hs. repeat match goal with H : String.eqb _ _ = true |- _ => rewrite H end. by eexists.
  - destruct (one_of_parsed parse_step ENGINE_STEPS (tr_next_step t)) as [s Hs]; [done..|].
    destruct Hk as (k & d & Hd & Hk); [by apply String.eqb_eq|]. rewrite Hs, Hd, Hk.
    repeat match goal with H : _ = true |- _ => rewrite H | H : _ = false |- _ => rewrite H end.
    rewrite andb_false_r. by eexists.
Qed.

Lemma fitting_target_validates name a t p :
  parse_action name = Ok a → transition_fits name t → target_from_row t = Ok p → tp_kind p = TkEngineSlot →
  validate_target a p = Ok ().
Proof.
  intros Ha (a' & k & Ha' & (d & Hd & Hk) & Hm) Hp Hkind. rewrite Ha in Ha'. simplify_eq.
  destruct (target_from_row_kind _ _ Hp) as [[? _]|(_ & s & Hs & Hrow)]; [congruence|].
  pose proof (transition_of_eq _ _ _ _ Hd Hk (rs_transition _ _ Hrow)) as Es.
  pose proof (rs_source _ _ Hrow) as Eso. pose proof (rs_target _ _ Hrow) as Eta.
  unfold slot_of_target in Hs. inv_ok Hs. destruct (tp_transition p) as [k'|] eqn:Ek; [|done]. simplify_eq. cbn in *. subst.
  unfold validate_target, validate_stored_transition. rewrite Ek, <-Eso, <-Eta.
  destruct a'; try done; cbn; [|by rewrite bool_decide_true..].
  destruct Hm as (-> & Hpos & E). rewrite (proj2 (Z.leb_gt _ _) Hpos), bool_decide_true by done. done.
Qed.

Lemma row_loads r :
  operation_row_ok r = true →
  (∃ a, parse_action (or_action r) = Ok a) ∧ (∃ s, parse_state (or_state r) = Ok s)
  ∧ (∃ p, parse_phase (or_phase r) = Ok p) ∧ ∃ t, transpose (or_restoration_terminal_state r) parse_state = Ok t.
Proof.
  intros Hok. unfold operation_row_ok, active_state in Hok. bool_to_prop.
  split; [by eapply (one_of_parsed parse_action); [|eassumption]|].
  assert ((∃ s, parse_state (or_state r) = Ok s) ∧ ∃ p, parse_phase (or_phase r) = Ok p) as [Hs Hp].
  { repeat match goal with H : _ || _ = true |- _ => apply orb_true_iff in H end. destruct_or!; bool_to_prop;
      (split; [by eapply (one_of_parsed parse_state); [|eassumption]|]);
      try (by eapply (one_of_parsed parse_phase); [|eassumption]).
    all: match goal with H : String.eqb _ "complete" = true |- _ => apply String.eqb_eq in H as -> end; by eexists. }
  split; [done|]. split; [done|]. destruct (or_restoration_terminal_state r) as [t|]; [|by eexists].
  destruct (one_of_parsed parse_state ["failed"; "cancelled"] t) as [s' Hs']; [done..|]. cbn. rewrite Hs'. by eexists.
Qed.

(** A target that fits its operation is loaded and validated. *)
Lemma targets_load action a ts :
  parse_action action = Ok a →
  (∀ t, t ∈ ts → target_row_ok t = true ∧ (tr_kind t = "engine_slot" → transition_fits action t)) →
  ∃ ps us, collect_results target_from_row ts = Ok ps
    ∧ collect_results (validate_target a) (List.filter (λ t, bool_decide (tp_kind t = TkEngineSlot)) ps) = Ok us.
Proof.
  intros Ha Hts. destruct (collect_results_total target_from_row ts) as [ps Hps].
  { intros t [Ht Hk]%Hts. apply target_loads; [done|]. intros (a' & k & _ & Hk' & _)%Hk. by exists k. }
  destruct (collect_results_total (validate_target a) (List.filter (λ t, bool_decide (tp_kind t = TkEngineSlot)) ps)) as [us Hus];
    [|by exists ps, us].
  intros p [Hk Hp]%elem_of_filter_bool. apply bool_decide_eq_true in Hk. apply collect_results_Forall2 in Hps.
  apply list_elem_of_lookup in Hp as [i Hi]. destruct (Forall2_lookup_r _ _ _ _ _ Hps Hi) as (t & Ht & Hf).
  apply list_elem_of_lookup_2 in Ht. exists (). eapply fitting_target_validates; [exact Ha| |exact Hf|done].
  apply (Hts t Ht). destruct (target_from_row_kind _ _ Hf) as [[? _]|(_ & s & _ & Hrow)]; [congruence|]. apply Hrow.
Qed.

Lemma operation_loads db id r :
  node_reachable db → find_operation_row id db = Some r → ∃ o, load_operation id db = Ok o.
Proof.
  intros Hre Hr. pose proof (reachable_ok _ Hre) as Hdb. pose proof (reachable_fits _ id Hre) as Hfits.
  unfold view_fits, op_view in Hfits. cbn [fst snd] in Hfits. rewrite Hr in Hfits.
  destruct (find_row _ _ _ Hr) as [Hin Hid].
  destruct (row_loads _ (row_constraints _ _ Hdb Hin)) as ([a Ha] & [st Hst] & [ph Hph] & [te Hte]).
  unfold load_operation, load_row, operation_from_row. rewrite Hr, Hid.
  destruct (targets_load (or_action r) a (sort_by target_row_cmp (List.filter (target_of_operation id) (targets db))))
    as (ps & us & Hps & Hus); [done| |].
  { intros t Ht. rewrite sort_by_perm in Ht. split; [|by apply Hfits].
    apply elem_of_filter_bool in Ht as [_ Ht]. by eapply target_constraints. }
  rewrite Ha. cbn [rbind]. rewrite Hps. cbn [rbind]. rewrite Hus, Hst. cbn [rbind]. rewrite Hph, Hte. by eexists.
Qed.

(** ** Refinement *)

(** C3. Every call of operations.rs, in any reachable state and with any interleaving, moves
    every operation by a finite sequence of the abstract moves: creation, lease moves, delivery
    only of effects that are neither delivered nor ambiguous, forward and restoration steps on
    their evidence, and completion once every target is complete. The evidence is a fresh
    observation of the slot, made for the operation under its lease, together with the
    registrations and routes, in a snapshot that the call itself captured of the tables: the
    pinned backend exited and no longer serving for a stop, the target selected, a replacement
    running it ready and registered once, its routes healthy. A call that captures no snapshot
    advances no slot, and the other writers of the tables change no operation. *)
Theorem transactions_refine_moves db id :
  node_reachable db →
  (∀ c, call_ok c →
     rtc (op_move (evidence c db (perform c db))) (op_view id db) (op_view id (perform c db)))
  ∧ ∀ db', other_writers db db' → op_view id db' = op_view id db.
Proof.
  intros Hr. split; [intros c Hc|intros db' [Hc _]; by apply same_core_view].
  by apply (perform_moves c db Hc (reachable_ok _ Hr)).
Qed.

(** C17. An operation ends uniformly: every one of its targets, the proxy included, is complete;
    when it has succeeded each engine slot has its target revision on record as the authoritative
    one, and when it has failed or was cancelled its source revision. It has succeeded exactly
    when its forward phase was never fenced. *)
Theorem finished_operations_uniform db r :
  node_reachable db → r ∈ operations db → is_active r = false →
  (or_state r = "succeeded" ↔ or_forward_fenced r = false)
  ∧ ∀ t, t ∈ targets db → tr_operation_id t = or_operation_id r →
    tr_complete t = true
    ∧ (tr_kind t = "engine_slot" →
       ed_authoritative_revision <$> tr_detail t
       = Some (if decide (or_state r = "succeeded") then target_revision t else source_revision t)).
Proof.
  intros Hre Hr Ha. pose proof (reachable_ok _ Hre) as Hdb.
  pose proof (inactive_phase _ _ Hdb Hr Ha) as Hp.
  split.
  - pose proof (dk_views _ Hdb (or_operation_id r)) as Hv. unfold view_inv in Hv.
    rewrite (row_view _ _ Hdb Hr) in Hv. destruct Hv as [[_ [[Hf _]|[[Hf _]|(_ & _ & Hf)]]] _]; congruence.
  - intros t Ht Hid. destruct (row_target _ _ _ Hdb Hr Ht Hid) as [_ [[Hk Hi]|[_ Hi]]].
    { split; [|congruence]. by destruct Hi as [Hc|[Hn _]]. }
    destruct Hi as (d & k & Hd & _ & _ & _ & _ & _ & Hf). destruct (Hf Hp) as [Hc Hauth]. split; [done|].
    intros _. rewrite Hd. cbn. rewrite Hauth. f_equal. case_decide as Hs; [by rewrite Hs|].
    by destruct (String.eqb_spec (or_state r) "succeeded").
Qed.

(** C18. A finished operation is final: no later call changes its row or its targets. *)
Theorem finished_operations_final db db' r :
  node_reachable db → rtc node_step db db' → r ∈ operations db → is_active r = false →
  op_view (or_operation_id r) db' = op_view (or_operation_id r) db.
Proof.
  intros Hre Hs Hr Ha. pose proof (reachable_ok _ Hre) as Hdb.
  destruct (node_steps_moves _ _ Hs Hdb) as [_ Hm]. specialize (Hm (or_operation_id r)).
  pose proof (row_view _ _ Hdb Hr) as Hv. destruct (op_view (or_operation_id r) db) as [o ts]. cbn in Hv. subst o.
  by apply (op_moves_final (Ev := any_snapshot)).
Qed.

(** C27. The forward phase is bounded: until its operation is fenced, a slot has completed at most
    eight steps, and one that is not complete has a step left on its path. *)
Theorem forward_steps_bounded db r t :
  node_reachable db → r ∈ operations db → or_forward_fenced r = false →
  t ∈ targets db → tr_operation_id t = or_operation_id r → tr_kind t = "engine_slot" → is_active r = true →
  (0 ≤ tr_completed_steps t ≤ MAX_FORWARD_STEPS)%Z
  ∧ (tr_complete t = false → ∃ s, at_step t s ∧
       (1 ≤ steps_left s (proving_row t) ≤ MAX_FORWARD_STEPS - tr_completed_steps t)%Z).
Proof.
  intros Hre Hr Hf Ht Hid Hk Ha. pose proof (reachable_ok _ Hre) as Hdb.
  destruct (row_target _ _ _ Hdb Hr Ht Hid) as [[_ Hph] [[? _]|[_ Hi]]]; [congruence|].
  assert (0 ≤ tr_completed_steps t)%Z as H0.
  { pose proof (target_constraints _ _ Hdb Ht) as Hrow. unfold target_row_ok in Hrow. by bool_to_prop. }
  destruct Hph as [[Hp _]|[[_ ?]|(_ & ? & _)]]; [|congruence..].
  destruct Hi as (d & k & _ & _ & _ & _ & Hfs & _). specialize (Hfs Hp). unfold forward_slot in Hfs.
  destruct (tr_complete t); [by destruct Hfs; split; [lia|]|].
  destruct Hfs as (s & Hs & Hpath & _ & Hle & _). pose proof (steps_left_pos _ _ _ Hpath). split; [lia|].
  intros _. exists s. split; [done|lia].
Qed.

End facts.
