(* ===== verification/NodeFrame.v ===== *)
(** * Node operations: frames of transactions

    A relation on the tables that the few writes of a reconciliation respect is respected by
    every reconciliation, and one that the remaining writes respect too by every call. *)

From S2P Require Import Prelude RustStr Utf8 Lists Orders Externals Grpc Lifecycle IndexedRouting Deployment Rollout Schedule Operations NodeStatus NodeTables NodeStore NodeSubmit NodeRun NodeAgent NodeReport NodeTx NodeSteps NodeLoad NodeRefine NodeRefineTx NodeFacts.

(** Neither operations, targets, receipts nor authorities are written. *)
Definition quiet (db db' : NodeDb) : Prop := same_core db db' ∧ authorities db' = authorities db.

#[global] Instance quiet_preorder : PreOrder quiet.
Proof. split; [done|]. intros a b c [H1 E1] [H2 E2]. split; [by etrans|congruence]. Qed.

Lemma append_event_quiet id actor code detail epoch : tx_moves quiet (append_event id actor code detail epoch).
Proof. intros db u db' [l ->]%append_event_ok. done. Qed.

#[local] Hint Resolve append_event_quiet : tx.

Lemma append_events_quiet actor code detail rows : tx_moves quiet (append_events actor code detail rows).
Proof. induction rows as [|r rows IH]; simpl; tx_frame. Qed.

Lemma fence_cleanup_quiet now node_id reason : tx_moves quiet (fence_cleanup_authority now node_id reason).
Proof. unfold fence_cleanup_authority, alter_cleanup. tx_frame. Qed.

Lemma ensure_node_quiet node_id db : quiet db (ensure_node node_id db).
Proof. unfold ensure_node. by case_match. Qed.

(** An update of operations that keeps identifiers and epochs and ends no row running. *)
Definition settling (f : OperationRow → OperationRow) : Prop :=
  keeps_id f ∧ ∀ r, or_state (f r) ≠ "running" ∧ or_lease_epoch (f r) = or_lease_epoch r.

(** ** Reconciliations *)

Class ReconcileFrame `{CL : CollationLib, UL : UuidLib, SH : Sha256Lib} (R : relation NodeDb) : Prop := {
  rf_preorder :: PreOrder R;
  rf_quiet db db' : quiet db db' → R db db';
  rf_switch now node_id slot revision : tx_moves R (switch_authority now node_id slot revision);
  rf_slot id slot f : keeps_key f → tx_moves R (update_targets (is_slot_row id slot) f);
  rf_restoring id : tx_moves R (update_targets (target_of_operation id) restoring_target);
  rf_settling p f : settling f → tx_moves R (update_operations p f);
}.

Section reconcile.
Context `{CL : CollationLib, UL : UuidLib, SH : Sha256Lib}.
Context (R : relation NodeDb) `{RF : !ReconcileFrame R}.

Lemma quiet_frame {A} (t : Tx A) : tx_moves quiet t → tx_moves R t.
Proof using RF. intros H db a db' Ht. by eapply rf_quiet, H. Qed.

Lemma append_event_frame id actor code detail epoch : tx_moves R (append_event id actor code detail epoch).
Proof using RF. apply quiet_frame, append_event_quiet. Qed.

Lemma append_events_frame actor code detail rows : tx_moves R (append_events actor code detail rows).
Proof using RF. apply quiet_frame, append_events_quiet. Qed.

Lemma fence_cleanup_frame now node_id reason : tx_moves R (fence_cleanup_authority now node_id reason).
Proof using RF. apply quiet_frame, fence_cleanup_quiet. Qed.

Lemma modify_frame f : (∀ db, quiet db (f db)) → tx_moves R (modify f).
Proof using RF. intros Hf. apply tx_moves_modify. intros db. by apply rf_quiet. Qed.

#[local] Hint Resolve append_event_frame append_events_frame fence_cleanup_frame rf_switch rf_restoring : tx.
#[local] Hint Extern 2 (tx_moves _ (update_targets (is_slot_row _ _) _)) => apply rf_slot; done : tx.
#[local] Hint Extern 2 (tx_moves _ (update_operations _ (paused_row _ _))) => apply rf_settling; done : tx.
#[local] Hint Extern 2 (tx_moves _ (modify _)) => apply modify_frame; done : tx.

Lemma enter_restoration_frame id actor terminal code detail :
  tx_moves R (enter_restoration id actor terminal code detail).
Proof using RF. unfold enter_restoration. tx_frame. by apply rf_settling. Qed.

Lemma set_slot_condition_frame id slot code detail : tx_moves R (set_slot_condition id slot code detail).
Proof using RF. unfold set_slot_condition. tx_frame. Qed.

Lemma advance_slot_frame id slot next revision : tx_moves R (advance_slot id slot next revision).
Proof using RF. unfold advance_slot. tx_frame. Qed.

#[local] Hint Resolve enter_restoration_frame set_slot_condition_frame advance_slot_frame : tx.

Lemma pause_with_condition_frame id slot code detail : tx_moves R (pause_with_condition id slot code detail).
Proof using RF. unfold pause_with_condition. tx_frame. Qed.

#[local] Hint Resolve pause_with_condition_frame : tx.

Lemma restore_slot_frame now id snapshot operation s : tx_moves R (restore_slot now id snapshot operation s).
Proof using RF. unfold restore_slot. tx_frame. Qed.

Lemma reconcile_forward_frame now id snapshot operation s : tx_moves R (reconcile_forward now id snapshot operation s).
Proof using RF.
  unfold reconcile_forward. destruct (sl_next_step s);
    unfold reconcile_stop, reconcile_select, reconcile_start, reconcile_verify, verify_pending, verify_source,
      verify_replacement, reconcile_switch, reconcile_serving, retract_delivery, pin_slot, mark_changed; tx_frame.
Qed.

Lemma finish_operation_frame now id actor operation : tx_moves R (finish_operation now id actor operation).
Proof using RF.
  unfold finish_operation. tx_frame; (apply rf_settling; split; [done|]; intros r; split; [|done]); by repeat case_match.
Qed.

#[local] Hint Resolve restore_slot_frame reconcile_forward_frame finish_operation_frame : tx.

Lemma reconcile_frame now clock id actor : tx_moves R (reconcile now clock id actor).
Proof using RF. unfold reconcile, reconcile_slot, clear_slot_condition. tx_frame. Qed.

Lemma forward_expired_frame now r : tx_moves R (forward_expired now r).
Proof using RF. by intros db b db' (-> & _)%forward_expired_ok. Qed.

Lemma lease_epoch_try_frame e : tx_moves R (lease_epoch_try e).
Proof using RF. by intros db b db' [_ ->]%lease_epoch_try_ok. Qed.

End reconcile.

(** ** Calls *)

Class CallFrame `{CL : CollationLib, UL : UuidLib, SH : Sha256Lib} (R : relation NodeDb) : Prop := {
  cf_reconcile :: ReconcileFrame R;
  cf_update p f : tx_moves R (update_operations p f);
  cf_deliver id s now : tx_moves R (update_targets (selected_row id s) (delivered_target now));
  cf_stored r ts db o db' :
    stored r ts db o db' → receipts db' = receipts db → authorities db' = authorities db → R db db';
}.

Section calls.
Context `{CL : CollationLib, UL : UuidLib, SH : Sha256Lib}.
Context (R : relation NodeDb) `{CF : !CallFrame R}.

#[local] Hint Resolve append_event_frame append_events_frame fence_cleanup_frame enter_restoration_frame reconcile_frame
  forward_expired_frame lease_epoch_try_frame cf_update cf_deliver : tx.
#[local] Hint Extern 2 (tx_moves _ (modify _)) => apply modify_frame; [apply _|done] : tx.
#[local] Hint Extern 2 (tx_moves _ (update_targets (is_slot_row _ _) _)) => apply rf_slot; done : tx.

#[local] Hint Extern 1 (ReconcileFrame _) => apply _ : tx.

Lemma ensure_node_frame node_id : tx_moves R (modify (ensure_node node_id)).
Proof using CF. apply modify_frame; [apply _|]. intros. apply ensure_node_quiet. Qed.

#[local] Hint Resolve ensure_node_frame : tx.

(** A submission writes neither receipts nor authorities. *)
Definition same_rest (db db' : NodeDb) : Prop := receipts db' = receipts db ∧ authorities db' = authorities db.

#[local] Instance same_rest_preorder : PreOrder same_rest.
Proof using Type. split; [done|]. intros a b c [] []. split; congruence. Qed.

Lemma put_operations_rest e l : tx_moves same_rest (put_operations e l).
Proof using Type. by intros db u db' [-> _]%put_operations_ok. Qed.

Lemma put_targets_rest l : tx_moves same_rest (put_targets l).
Proof using Type. by intros db u db' [-> _]%put_targets_ok. Qed.

Lemma quiet_rest {A} (t : Tx A) : tx_moves quiet t → tx_moves same_rest t.
Proof using Type. intros H db a db' Ht. by destruct (H _ _ _ Ht) as [(_ & _ & ?) ?]. Qed.

Lemma append_event_rest id actor code detail epoch : tx_moves same_rest (append_event id actor code detail epoch).
Proof using Type. apply quiet_rest, append_event_quiet. Qed.

Lemma fence_cleanup_rest now node_id reason : tx_moves same_rest (fence_cleanup_authority now node_id reason).
Proof using Type. apply quiet_rest, fence_cleanup_quiet. Qed.

#[local] Hint Resolve put_operations_rest put_targets_rest append_event_rest fence_cleanup_rest : tx.

Lemma store_operation_frame now id actor request p digest slots :
  tx_moves R (store_operation now id actor request p digest slots).
Proof using CF.
  intros db o db' H. assert (same_rest db db') as []; [|by eapply cf_stored; [apply store_operation_stored|..]].
  revert db o db' H. unfold store_operation. change (tx_moves same_rest (store_operation now id actor request p digest slots)).
  unfold store_operation. tx_frame.
Qed.

Lemma submit_no_effect_frame now id actor request p : tx_moves R (submit_no_effect now id actor request p).
Proof using CF.
  intros db o db' H. assert (same_rest db db') as [].
  - revert db o db' H. change (tx_moves same_rest (submit_no_effect now id actor request p)).
    unfold submit_no_effect. tx_frame.
  - destruct (submit_no_effect_stored _ _ _ _ _ _ _ _ H). by eapply cf_stored.
Qed.

#[local] Hint Resolve store_operation_frame submit_no_effect_frame : tx.

Lemma submit_frame now fresh_id actor request : tx_moves R (submit_tx now fresh_id actor request).
Proof using CF. unfold submit_tx, submit_new, staged_target, deployment_inventory. tx_frame. Qed.

Lemma take_lease_frame now instance agent r : tx_moves R (take_lease now instance agent r).
Proof using CF. unfold take_lease. tx_frame. Qed.

#[local] Hint Resolve take_lease_frame : tx.

Lemma claim_frame now clock locked node_id instance agent :
  tx_moves R (claim_tx now clock locked node_id instance agent).
Proof using CF. unfold claim_tx, expire_forward, deliver. tx_frame. Qed.

Definition is_report (c : NodeCall) : bool := match c with CReport _ _ _ _ => true | _ => false end.

Lemma perform_frame c db : is_report c = false → R db (perform c db).
Proof using CF.
  intros Hc. destruct c; try done; apply (transact_moves R).
  - apply submit_frame.
  - apply claim_frame.
  - unfold renew_tx, expire_forward. tx_frame.
  - unfold report_observation_tx, expire_forward. tx_frame.
  - unfold resume_tx. tx_frame.
  - unfold cancel_tx. tx_frame.
  - unfold put_agent_policy_tx. tx_frame.
  - unfold attest_tx. tx_frame.
Qed.

(** A result of a slot writes the slot alone, and one of the proxy the proxy. *)
Lemma report_slot_frame now clock id epoch request step slot pinned agent :
  step ≠ VerifyProxy → tx_moves R (report_slot now clock id epoch request step slot pinned agent).
Proof using CF.
  intros Hs. unfold report_slot, observed_revision_fits. rewrite (bool_decide_false (step = VerifyProxy)) by done.
  cbn [andb]. tx_frame.
Qed.

Lemma report_proxy_frame now clock id request step agent :
  (∀ f, tx_moves R (update_targets (is_proxy_row id) f)) →
  tx_moves R (report_proxy now clock id request step agent).
Proof using CF. intros Hf. unfold report_proxy, observed_revision_fits. tx_frame; apply Hf. Qed.

End calls.
