(* ===== verification/NodeStuck.v ===== *)
(** * Node operations: an ambiguous effect of the proxy

    A delivered effect of the proxy is marked ambiguous until its result is reported. Every
    statement but the one that stores such a result keeps the mark, and keeps the target
    open. *)

From S2P Require Import Prelude RustStr Utf8 Lists Orders Externals Grpc Lifecycle IndexedRouting Deployment Rollout Schedule Operations NodeStatus NodeTables NodeStore NodeSubmit NodeRun NodeAgent NodeReport NodeTx NodeSteps NodeLoad NodeRefine NodeRefineTx NodeFacts NodeFrame.

(** The proxy of the operation is open and its effect ambiguous. *)
Definition stuck_row (id : Uuid) (t : TargetRow) : Prop :=
  is_proxy_row id t = true ∧ tr_complete t = false ∧ ef_ambiguous (tr_effect t) = true.

Definition stuck (id : Uuid) (db : NodeDb) : Prop := ∃ t, t ∈ targets db ∧ stuck_row id t.

Definition stays_stuck (id : Uuid) (db db' : NodeDb) : Prop := stuck id db → stuck id db'.

#[global] Instance stays_stuck_preorder id : PreOrder (stays_stuck id).
Proof. split; [by intros db H|]. intros a b c H1 H2 H. by apply H2, H1. Qed.

Section stuck.
Context `{CL : CollationLib, UL : UuidLib, SH : Sha256Lib}.
Context (id : Uuid).

Lemma same_targets_stuck db db' : targets db' = targets db → stays_stuck id db db'.
Proof. intros E. unfold stays_stuck, stuck. by rewrite E. Qed.

Lemma update_operations_stuck p f : tx_moves (stays_stuck id) (update_operations p f).
Proof. intros db rows db' (-> & _ & _)%update_operations_ok. by apply same_targets_stuck. Qed.

Lemma update_targets_stuck p f :
  (∀ t, p t = true → stuck_row id t → stuck_row id (f t)) → tx_moves (stays_stuck id) (update_targets p f).
Proof.
  intros Hf db u db' [-> _]%update_targets_ok (t & Ht & Hs). exists (if p t then f t else t).
  split; [apply elem_of_update_where; by exists t|]. destruct (p t) eqn:E; [by apply Hf|done].
Qed.

#[global] Instance stuck_reconcile : ReconcileFrame (stays_stuck id).
Proof.
  split; [apply _|..].
  - intros db db' [(_ & Et & _) _]. by apply same_targets_stuck.
  - intros now node_id slot revision db u db' (_ & Et & _)%switch_authority_core. by apply same_targets_stuck.
  - intros id0 slot f _. apply update_targets_stuck. intros t Hs (Hp & _).
    unfold is_slot_row, is_proxy_row in *. bool_to_prop.
    repeat match goal with H : String.eqb _ _ = true |- _ => apply String.eqb_eq in H end. congruence.
  - intros id0. apply update_targets_stuck. intros t _ (Hp & Hc & Ha).
    unfold stuck_row, restoring_target. cbn. by rewrite Ha, orb_true_r.
  - intros p f _. apply update_operations_stuck.
Qed.

#[global] Instance stuck_calls : CallFrame (stays_stuck id).
Proof.
  split; [apply _|apply update_operations_stuck|..].
  - intros id0 s now. apply update_targets_stuck. by intros t _ (Hp & Hc & _).
  - intros r ts db o db' [_ Et _ _ _] _ _ (t & Ht & Hs). exists t. split; [|done]. rewrite Et. apply elem_of_app. by left.
Qed.

(** The result of another operation's proxy. *)
Lemma report_proxy_other now clock id0 request step agent :
  id0 ≠ id → tx_moves (stays_stuck id) (report_proxy now clock id0 request step agent).
Proof.
  intros Hid. apply report_proxy_frame; [apply _|]. intros f. apply update_targets_stuck. intros t Hp (Hp' & _).
  unfold is_proxy_row, target_of_operation in *. bool_to_prop. congruence.
Qed.

End stuck.
