(* ===== verification/NodeClaims.v ===== *)
(** * Node operations: leases and instructions

    What an instruction that a claim returns guarantees to the agent that receives it, and why
    two agents never act under one epoch. *)

From S2P Require Import Prelude RustStr Utf8 Lists Orders Externals Grpc Lifecycle IndexedRouting Deployment Rollout Schedule Operations NodeStatus NodeTables NodeStore NodeSubmit NodeRun NodeAgent NodeReport NodeTx NodeSteps NodeLoad NodeRefine NodeRefineTx NodeFacts NodeFrame NodeStuck.

Section claims.
Context `{CL : CollationLib, UL : UuidLib, SH : Sha256Lib}.

(** ** Leases under reconciliation *)

(** A reconciliation keeps the lease of what is still running, and every epoch. *)
Definition settles (db db' : NodeDb) : Prop :=
  ∀ id r', find_operation_row id db' = Some r' →
    ∃ r, find_operation_row id db = Some r
      ∧ (r' = r ∨ (or_state r' ≠ "running" ∧ or_lease_epoch r' = or_lease_epoch r)).

#[local] Instance settles_preorder : PreOrder settles.
Proof.
  split; [intros db id r' Hr; by exists r'; eauto|]. intros a b c H1 H2 id r2 Hr2.
  destruct (H2 _ _ Hr2) as (r1 & Hr1 & E2). destruct (H1 _ _ Hr1) as (r & Hr & E1). exists r. split; [done|].
  destruct E2 as [->|[Hs He]]; [done|]. right. split; [done|]. destruct E1 as [->|[_ He1]]; congruence.
Qed.

#[local] Instance settles_reconcile : ReconcileFrame settles.
Proof.
  assert (∀ db db', operations db' = operations db → settles db db') as Hsame.
  { intros db db' E id r'. unfold find_operation_row. rewrite E. eauto. }
  split; [apply _|..].
  - intros db db' [(Eo & _) _]. by apply Hsame.
  - intros now node_id slot revision db u db' (Eo & _)%switch_authority_core. by apply Hsame.
  - intros id slot f _ db u db' [-> _]%update_targets_ok. by apply Hsame.
  - intros id db u db' [-> _]%update_targets_ok. by apply Hsame.
  - intros p f [K Hf] db rows db' (-> & _ & _)%update_operations_ok id r'.
    pose proof (view_operations id p f db K) as Hv. unfold op_view in Hv. injection Hv as Hv.
    rewrite Hv. destruct (find_operation_row id db) as [r|]; [|done]. cbn. intros [= <-]. exists r.
    split; [done|]. destruct (p r); [right; apply Hf|by left].
Qed.

(** ** The instruction of a claim *)

Lemma take_lease_ok now instance agent db r epoch db' :
  take_lease now instance agent r db = Ok (epoch, db') → db_ok db → r ∈ operations db →
  or_state r = "queued" ∨ (or_state r = "running" ∧ le_agent_instance_id (or_lease r) = Some instance) →
  ∃ r', find_operation_row (or_operation_id r) db' = Some r' ∧ or_lease_epoch r' = epoch
    ∧ le_agent_instance_id (or_lease r') = Some instance
    ∧ le_expires_at (or_lease r') = Some (expire_at now) ∧ or_phase r' = or_phase r
    ∧ or_forward_deadline r' = or_forward_deadline r ∧ or_forward_fenced r' = or_forward_fenced r
    ∧ or_state r' = "running".
Proof.
  intros H Hdb Hin Hinst. pose proof (row_found _ _ Hdb Hin) as Hr. unfold take_lease in H.
  assert (of_operation (or_operation_id r) r = true) as Ho by apply Z.eqb_refl.
  inv_tx; match goal with H : update_operations _ ?f _ = _ |- _ =>
      apply update_operations_ok in H as (-> & _ & _); exists (f r);
      pose proof (view_operations (or_operation_id r) (of_operation (or_operation_id r)) f db ltac:(done)) as Hv end;
    unfold op_view in Hv; injection Hv as Hv; rewrite Hr in Hv; cbn in Hv; rewrite Ho in Hv;
    (split; [exact Hv|]); (split; [done|]).
  - by repeat split.
  - destruct Hinst as [Hq|[Hs Hi]]; [by rewrite Hq in *|]. by repeat split.
Qed.

Lemma claimable_lease now node instance locked r :
  claimable_operation now node instance locked r = true →
  or_state r = "queued" ∨ (or_state r = "running" ∧ le_agent_instance_id (or_lease r) = Some instance).
Proof.
  unfold claimable_operation. intros H. bool_to_prop.
  match goal with H : _ ∨ _ |- _ => destruct H as [->%String.eqb_eq|H] end; [by left|].
  bool_to_prop. right. split; [by apply String.eqb_eq|done].
Qed.

(** The state in which a claim selects its target: the lease is taken and the operation
    reconciled. *)
Record claim_state (now : Z) (node_id instance agent : string) (db : NodeDb) (i : AgentInstruction)
    (db' : NodeDb) (id : Uuid) (r : OperationRow) (o : NodeOperation) (s : Selected) (dbR : NodeDb) : Prop := mkClaimState {
  cl_moves : node_moves db dbR;
  cl_stuck : ∀ id, stays_stuck id db dbR;
  cl_ok : db_ok dbR;
  cl_row : find_operation_row id dbR = Some r;
  cl_running : or_state r = "running";
  cl_instance : le_agent_instance_id (or_lease r) = Some instance;
  cl_expiry : le_expires_at (or_lease r) = Some (expire_at now);
  cl_deadline : or_phase r = "forward" → (now < or_forward_deadline r)%Z ∧ or_forward_fenced r = false;
  cl_loaded : loaded r (op_view id dbR).2 o;
  cl_selected : select_target o = Ok (Some s);
  cl_deliver : deliver now id node_id instance agent (or_lease_epoch r) o s dbR = Ok (i, db');
}.

Lemma claim_inv now clock locked node_id instance agent db i db' :
  db_ok db → claim_tx now clock locked node_id instance agent db = Ok (Ok (Some i), db') →
  ∃ id r o s dbR, claim_state now node_id instance agent db i db' id r o s dbR.
Proof.
  intros Hdb H. unfold claim_tx in H.
  apply tx_bind_ok in H as (? & ? & [_ ->]%tx_guard_ok & H).
  apply tx_bind_ok in H as (? & ? & [_ ->]%tx_guard_ok & H).
  apply tx_bind_ok in H as (? & ? & [-> ->]%tx_get_ok & H).
  apply tx_bind_ok in H as (? & ? & [_ ->]%tx_guard_ok & H).
  apply tx_bind_ok in H as (expired & db1 & Hexp & H). pose proof (λ id, update_operations_stuck id _ _ _ _ _ Hexp) as S1.
  apply (running_paused_moves (Ev := any_snapshot)) in Hexp; [|apply expired_lease_running].
  apply tx_bind_ok in H as (? & db2 & Hev & H). pose proof (λ id, append_events_frame (stays_stuck id) _ _ _ _ _ _ _ Hev) as S2.
  apply append_events_core, (same_core_moves (Ev := any_snapshot)) in Hev.
  apply tx_bind_ok in H as (? & ? & [-> ->]%tx_get_ok & H).
  assert (node_moves db db2) as Hm2 by (by etrans). destruct (Hm2 Hdb) as [Hdb2 _].
  destruct (sort_by _ _) as [|r rest] eqn:Es; [by inv_tx|].
  apply sorted_head in Es as [Hin Hcl]. pose proof (row_found _ _ Hdb2 Hin) as Hr.
  pose proof (claimable_state _ _ _ _ _ Hcl) as Hst. apply claimable_lease in Hcl.
  apply tx_bind_ok in H as (late & ? & (-> & _ & Hdl)%forward_expired_ok & H).
  destruct late; [by inv_tx|]. specialize (Hdl eq_refl Hr).
  apply tx_bind_ok in H as (epoch & db3 & Htl & H).
  destruct (take_lease_ok _ _ _ _ _ _ _ Htl Hdb2 Hin Hcl) as (r3 & Hr3 & He & Hi & Hex & Hp & Hd & Hf & Hrun).
  pose proof (λ id, take_lease_frame (stays_stuck id) _ _ _ _ _ _ _ Htl) as S3. apply (take_lease_moves (Ev := any_snapshot)) in Htl; [|done..].
  apply tx_bind_ok in H as (? & db4 & Hrec & H). pose proof (reconcile_frame settles _ _ _ _ _ _ _ Hrec) as Hset.
  pose proof (λ id, reconcile_frame (stays_stuck id) _ _ _ _ _ _ _ Hrec) as S4.
  apply (reconcile_moves (Ev := any_snapshot)) in Hrec; [|done|by eapply view_row_range].
  assert (node_moves db db4) as Hm4 by (by etrans; [exact Hm2|]; etrans).
  destruct (Hm4 Hdb) as [Hdb4 _]. inv_tx; try done.
  match goal with H : load_operation _ _ = Ok _ |- _ => destruct (load_operation_loaded _ _ _ H) as (r4 & Hr4 & L) end.
  assert (or_state r4 = "running") as Hs4.
  { apply parse_state_running. rewrite (ld_state _ _ _ L). bool_to_prop. by f_equal. }
  destruct (Hset _ _ Hr4) as (r3' & Hr3' & Hor). rewrite Hr3 in Hr3'. simplify_eq.
  destruct Hor as [->|[? _]]; [|done].
  eexists _, r3', _, _, db4. split; try done; [|by rewrite Hp, Hd, Hf].
  intros id Hstk. by apply S4, S3, S2, S1.
Qed.

(** The target that an instruction names. *)
Definition instruction_row (i : AgentInstruction) (t : TargetRow) : Prop :=
  match it_identity (ai_target i) with
  | Some ProxyIdentity => tr_kind t = "proxy"
  | Some (EngineSlotIdentity slot) => tr_kind t = "engine_slot" ∧ tr_key t = slot
  | None => False
  end.

Lemma deliver_ok now id node_id instance agent epoch o s db i db' :
  deliver now id node_id instance agent epoch o s db = Ok (i, db') →
  ai_operation_id i = uuid_to_string id ∧ ai_lease_epoch i = epoch ∧ ai_step i = instruction_step s
  ∧ ai_agent_instance_id i = instance
  ∧ it_identity (ai_target i)
    = Some (if bool_decide (se_kind s = TkProxy) then ProxyIdentity else EngineSlotIdentity (se_slot_name s))
  ∧ operations db' = operations db
  ∧ targets db' = (if mutating (se_step s) && negb (inspection s)
                   then update_where (selected_row id s) (delivered_target now) (targets db) else targets db).
Proof.
  unfold deliver. intros H. apply tx_bind_ok in H as (? & ? & [-> ->]%tx_get_ok & H).
  apply tx_bind_ok in H as (digest & db1 & Hd & H).
  assert (db1 = db) as -> by (by case_match; inv_tx). clear Hd. inv_tx; simplify_eq; cbn;
    match goal with H : append_event _ _ _ _ _ _ = _ |- _ => apply append_event_ok in H as [l ->] end;
    repeat (split; [done|]).
  - match goal with H : update_targets _ _ _ = _ |- _ => apply update_targets_ok in H as [-> _] end. done.
  - done.
Qed.

(** Inspections are instructions, never steps of a target. *)
Lemma no_inspection_step r t :
  row_inv r → is_active r = true → target_inv r t → tr_complete t = false → ¬ at_step t InspectBackend.
Proof.
  intros [_ Hr] Ha Ht Hc Hs. destruct Ht as [[_ [Hp|[_ Hp]]]|[_ (d & k & _ & _ & _ & _ & Hf & Hre & _)]].
  - congruence.
  - unfold at_step in Hs. rewrite !elem_of_cons, elem_of_nil in Hp.
    by destruct_or! Hp; rewrite Hp in Hs.
  - destruct Hr as [[Hp _]|[[Hp _]|(_ & ? & _)]]; [| |congruence].
    + destruct (forward_at _ _ _ _ Hc (Hf Hp) Hs) as (Hpath & _). by destruct k.
    + specialize (Hre Hp). unfold restoring_slot, at_step in *. rewrite Hc, Hs in Hre. done.
Qed.

(** The stored step of what a claim selects is not an inspection. *)
Lemma selected_not_inspection now node_id instance agent db i db' id r o s dbR :
  claim_state now node_id instance agent db i db' id r o s dbR → se_step s ≠ InspectBackend.
Proof.
  intros [_ _ Hdb Hr Hrun _ _ _ L Hsel _] Hs.
  destruct (select_target_rows _ _ _ _ _ Hdb L Hsel) as (_ & (t & Ht & Hp) & Hrows).
  destruct (Hrows t Ht Hp) as (Hc & Hst & _). rewrite Hs in Hst.
  pose proof (dk_views _ Hdb id) as Hv. unfold view_inv in Hv. unfold op_view in Hv at 1. cbn [fst] in Hv. rewrite Hr in Hv.
  destruct Hv as [Hri Hti]. by eapply (no_inspection_step r t); [done|by apply running_active|by apply Hti|..].
Qed.

Lemma selected_instruction_row now id node_id instance agent epoch o s db i db' t :
  deliver now id node_id instance agent epoch o s db = Ok (i, db') → selected_row id s t = true → instruction_row i t.
Proof.
  intros (_ & _ & _ & _ & Hi & _)%deliver_ok Hs. unfold instruction_row. rewrite Hi. unfold selected_row in Hs.
  case_bool_decide; unfold is_proxy_row, is_slot_row in Hs; bool_to_prop; [|split]; by apply String.eqb_eq.
Qed.

(** C24. An instruction is issued under a running lease of its epoch, held by the activation that
    receives it and valid for fifteen seconds, and in the forward phase only before the
    deadline. Its target is open. An effect is instructed only when no earlier delivery of it
    is outstanding, and its delivery is on record, as ambiguous, before the agent learns of
    it; a delivered or ambiguous effect is answered with an inspection. *)
Theorem claims_record_deliveries now clock locked node_id instance agent db i db' :
  node_reachable db → claim now clock locked node_id instance agent db = (Ok (Some i), db') →
  ∃ id r dbR t,
    (op_view id db').1 = Some r ∧ ai_operation_id i = uuid_to_string id
    ∧ or_state r = "running" ∧ or_lease_epoch r = ai_lease_epoch i
    ∧ le_agent_instance_id (or_lease r) = Some instance ∧ le_expires_at (or_lease r) = Some (expire_at now)
    ∧ (or_phase r = "forward" → (now < or_forward_deadline r)%Z)
    ∧ rtc (op_move any_snapshot) (op_view id db) (op_view id dbR) ∧ t ∈ (op_view id dbR).2
    ∧ instruction_row i t ∧ tr_complete t = false
    ∧ if decide (ai_step i = InspectBackend) then
        (ef_delivered_at (tr_effect t) ≠ None ∨ ef_ambiguous (tr_effect t) = true) ∧ t ∈ targets db'
      else
        at_step t (ai_step i) ∧ ef_ambiguous (tr_effect t) = false
        ∧ if mutating (ai_step i) then ef_delivered_at (tr_effect t) = None ∧ delivered_target now t ∈ targets db'
          else t ∈ targets db'.
Proof.
  intros Hre Hcl. pose proof (reachable_ok _ Hre) as Hdb. unfold claim, transact in Hcl.
  destruct (claim_tx _ _ _ _ _ _ _) as [[res db1]|e] eqn:Htx; [|done]. simplify_eq.
  destruct (claim_inv _ _ _ _ _ _ _ _ _ Hdb Htx) as (id & r & o & s & dbR & Hst).
  pose proof (selected_not_inspection _ _ _ _ _ _ _ _ _ _ _ _ Hst) as Hni.
  destruct Hst as [Hm _ HdbR Hr Hrun Hinst Hexp Hdl L Hsel Hde].
  destruct (select_target_rows _ _ _ _ _ HdbR L Hsel) as (_ & (t & Ht & Hp) & Hrows).
  destruct (Hrows t Ht Hp) as (Hc & Hstep & Hdv & Ham).
  pose proof (selected_instruction_row _ _ _ _ _ _ _ _ _ _ _ _ Hde Hp) as Hir.
  destruct (deliver_ok _ _ _ _ _ _ _ _ _ _ _ Hde) as (Eid & Eep & Est & _ & _ & Eo & Et).
  exists id, r, dbR, t. split; [unfold op_view, find_operation_row; cbn; by rewrite Eo|].
  do 5 (split; [done|]). split; [by intros [? _]%Hdl|]. split; [by apply Hm|]. do 3 (split; [done|]).
  destruct (view_target_id _ _ _ Ht) as [_ Htin]. rewrite Est, Et. unfold instruction_step.
  assert (inspection s = mutating (se_step s) && negb (is_none (ef_delivered_at (tr_effect t))) || ef_ambiguous (tr_effect t))
    as Ei by (unfold inspection; by rewrite Hdv, Ham).
  destruct (inspection s).
  - rewrite decide_True by done. rewrite andb_false_r. split; [|done].
    destruct (ef_ambiguous (tr_effect t)); [by right|left]. destruct (ef_delivered_at _); [done|].
    cbn in Ei. by rewrite andb_false_r in Ei.
  - rewrite decide_False by done. symmetry in Ei. bool_to_prop. split; [done|]. split; [done|].
    destruct (mutating (se_step s)); cbn; [|done].
    split; [destruct (ef_delivered_at _); [naive_solver|done]|].
    apply elem_of_update_where. exists t. by rewrite Hp.
Qed.

(** What the claimed row says of the instruction. *)
Lemma claim_row now clock locked node_id instance agent db i db' :
  node_reachable db → claim now clock locked node_id instance agent db = (Ok (Some i), db') →
  ∃ id r ts, op_view id db' = (Some r, ts) ∧ uuid_in_range id ∧ ai_operation_id i = uuid_to_string id
    ∧ or_lease_epoch r = ai_lease_epoch i ∧ ai_agent_instance_id i = instance
    ∧ le_agent_instance_id (or_lease r) = Some instance.
Proof.
  intros Hre Hcl. pose proof (reachable_ok _ Hre) as Hdb. unfold claim, transact in Hcl.
  destruct (claim_tx _ _ _ _ _ _ _) as [[res db1]|e] eqn:Htx; [|done]. simplify_eq.
  destruct (claim_inv _ _ _ _ _ _ _ _ _ Hdb Htx) as (id & r & o & s & dbR & [_ _ HdbR Hr _ Hinst _ _ _ _ Hde]).
  destruct (deliver_ok _ _ _ _ _ _ _ _ _ _ _ Hde) as (Eid & Eep & _ & Ein & _ & Eo & _).
  exists id, r, (op_view id db').2. split; [unfold op_view, find_operation_row; cbn; by rewrite Eo; rewrite <-Hr|].
  split; [by eapply view_row_range|]. done.
Qed.

(** C6. A lease epoch has one holder: two instructions of one operation that carry the same
    epoch go to the same activation, whatever happens between the two claims. *)
Theorem epochs_have_one_holder now1 clock1 locked1 node1 instance1 agent1 now2 clock2 locked2 node2 instance2 agent2
    db db1 db2 db3 i1 i2 :
  node_reachable db → claim now1 clock1 locked1 node1 instance1 agent1 db = (Ok (Some i1), db1) →
  rtc node_step db1 db2 → claim now2 clock2 locked2 node2 instance2 agent2 db2 = (Ok (Some i2), db3) →
  ai_operation_id i1 = ai_operation_id i2 → ai_lease_epoch i1 = ai_lease_epoch i2 →
  ai_agent_instance_id i1 = ai_agent_instance_id i2.
Proof.
  intros Hre H1 Hs H2 Hid Hep.
  assert (node_step db db1) as Hs1.
  { replace db1 with (perform (CClaim now1 clock1 locked1 node1 instance1 agent1) db) by (cbn; by rewrite H1). by constructor. }
  assert (node_step db2 db3) as Hs3.
  { replace db3 with (perform (CClaim now2 clock2 locked2 node2 instance2 agent2) db2) by (cbn; by rewrite H2). by constructor. }
  assert (node_reachable db1) as Hre1 by (eapply reachable_steps; [exact Hre|by apply rtc_once]).
  destruct (claim_row _ _ _ _ _ _ _ _ _ Hre H1) as (id1 & r1 & ts1 & V1 & R1 & E1 & P1 & A1 & L1).
  destruct (claim_row _ _ _ _ _ _ _ _ _ (reachable_steps _ _ Hre1 Hs) H2) as (id2 & r2 & ts2 & V2 & R2 & E2 & P2 & A2 & L2).
  assert (id1 = id2) as <- by (apply uuid_to_string_inj; congruence).
  destruct (node_steps_moves db1 db3 ltac:(by eapply rtc_r) (reachable_ok _ Hre1)) as [_ Hm].
  specialize (Hm id1). rewrite V1 in Hm. destruct (op_moves_later _ _ _ Hm) as (r & ts & Hv & Hl).
  rewrite Hv in V2. simplify_eq. destruct (lr_holder _ _ Hl ltac:(congruence)) as [Hn|Hh];
    unfold holder in *; congruence.
Qed.

End claims.
