(* ===== verification/NodeResults.v ===== *)
(** * Node operations: results, and effects that stay ambiguous

    Which results the manager accepts, and that an accepted one decides every later report of
    its instruction. A claim answers an effect whose outcome is unknown with
    an inspection; the result of an inspection of the proxy is never accepted, so that an
    ambiguous effect of the proxy ends all progress of its node. *)

From S2P Require Import Prelude RustStr Utf8 Lists Orders Externals Grpc Lifecycle IndexedRouting Deployment Rollout Schedule Operations NodeStatus NodeTables NodeStore NodeSubmit NodeRun NodeAgent NodeReport NodeTx NodeSteps NodeLoad NodeRefine NodeRefineTx NodeFacts NodeFrame NodeClaims.

Section results.
Context `{CL : CollationLib, UL : UuidLib, SH : Sha256Lib}.

(** ** Receipts *)

Definition same_receipts (db db' : NodeDb) : Prop := receipts db' = receipts db.

#[local] Instance same_receipts_preorder : PreOrder same_receipts.
Proof. unfold same_receipts. split; [done|]. intros a b c H1 H2. congruence. Qed.

Lemma update_targets_receipts p f : tx_moves same_receipts (update_targets p f).
Proof. by intros db u db' [-> _]%update_targets_ok. Qed.

Lemma update_operations_receipts p f : tx_moves same_receipts (update_operations p f).
Proof. by intros db rows db' (-> & _ & _)%update_operations_ok. Qed.

#[local] Instance receipts_reconcile : ReconcileFrame same_receipts.
Proof.
  split; [apply _|..].
  - by intros db db' [(_ & _ & Er) _].
  - by intros now node_id slot revision db u db' (_ & _ & Er)%switch_authority_core.
  - intros. apply update_targets_receipts.
  - intros. apply update_targets_receipts.
  - intros. apply update_operations_receipts.
Qed.

(** Only [report_step] writes receipts. *)
#[local] Instance receipts_calls : CallFrame same_receipts.
Proof.
  split; [apply _|intros; apply update_operations_receipts|intros; apply update_targets_receipts|].
  by intros r ts db o db' _ Er _.
Qed.

(** ** Accepted results *)

(** The open target that a result names, at the step that it reports. *)
Definition answers_open_step (id : Uuid) (step : StepKind) (key : string * string) (db : NodeDb) : Prop :=
  ∃ t, t ∈ (op_view id db).2 ∧ (tr_kind t, tr_key t) = key ∧ tr_complete t = false ∧ at_step t step.

Lemma proxy_key db t : db_ok db → t ∈ targets db → tr_kind t = "proxy" → tr_key t = "proxy".
Proof.
  intros Hdb Hin Hk. pose proof (target_constraints _ _ Hdb Hin) as Hok. unfold target_row_ok in Hok.
  rewrite Hk in Hok. cbn in Hok. rewrite orb_false_r in Hok. bool_to_prop. by apply String.eqb_eq.
Qed.

Lemma report_proxy_open now clock id request step agent db u db' :
  db_ok db → report_proxy now clock id request step agent db = Ok (u, db') →
  answers_open_step id step ("proxy", "proxy") db.
Proof.
  intros Hdb H. unfold report_proxy in H. apply tx_bind_ok in H as (? & ? & [-> ->]%tx_get_ok & H).
  destruct (List.find _ _) as [t|] eqn:Ef; [|done]. destruct (proxy_found _ _ _ Hdb Ef) as (Hc & Hp & Hv & _).
  apply tx_bind_ok in H as (expected & ? & [Hs ->]%tx_lift_ok & H).
  apply tx_bind_ok in H as (? & ? & [Hg ->]%tx_guard_ok & _). bool_to_prop. subst.
  exists t. split; [done|]. split; [|done]. destruct (view_target_id _ _ _ Hv) as [_ Hin].
  unfold is_proxy_row in Hp. apply andb_true_iff in Hp as [_ Hk%String.eqb_eq].
  f_equal; [done|]. by eapply proxy_key.
Qed.

Lemma report_slot_open now clock id epoch request step slot pinned agent db u db' :
  db_ok db → report_slot now clock id epoch request step slot pinned agent db = Ok (u, db') →
  answers_open_step id step ("engine_slot", slot) db.
Proof.
  intros Hdb H. unfold report_slot in H. apply tx_bind_ok in H as (? & ? & [-> ->]%tx_get_ok & H).
  destruct (List.find _ _) as [t|] eqn:Ef; [|done]. destruct (slot_found _ _ _ _ Hdb Ef) as (Hc & Hp & Hv & _).
  apply tx_bind_ok in H as (expected & ? & [Hs ->]%tx_lift_ok & H).
  apply tx_bind_ok in H as (? & ? & [Hg ->]%tx_guard_ok & _). bool_to_prop. subst.
  exists t. split; [done|]. split; [|done]. unfold is_slot_row in Hp. bool_to_prop. f_equal; by apply String.eqb_eq.
Qed.

Definition reported_step (request : ReportStepResultRequest) : StepKind :=
  default StUnspecified (step_try_from (sr_step request)).

(** What a report is checked for before its receipt is looked up is a matter of its key. *)
Definition key_checked (k : ReceiptKey) : bool :=
  negb (is_none (i64_try_from (rk_lease_epoch k)))
  && target_step_compatible (if String.eqb (rk_target_kind k) "proxy" then TkProxy else TkEngineSlot)
       (default StUnspecified (step_try_from (rk_step k)))
  && forallb pg_text [rk_node_id k; rk_agent_instance_id k; rk_target_key k].

(** What becomes of a result: a replay changes nothing; otherwise it needs the live lease, and
    then the forward phase has expired or it answers the open step. *)
Inductive result_outcome (now : Z) (request : ReportStepResultRequest) (agent : string) (db : NodeDb)
    (id : Uuid) (key : string * string) : result Status NodeOperation → NodeDb → Prop :=
| ro_replay rc res :
    rc ∈ receipts db → rc_key rc = receipt_key id (sr_lease_epoch request) request key.1 key.2 →
    rc_authenticated_principal rc = agent → rc_result rc = request →
    result_outcome now request agent db id key res db
| ro_expired r e db' :
    find_operation_row id db = Some r → receipts db' = receipts db →
    result_outcome now request agent db id key (Err e) db'
| ro_accepted r res db' :
    find_operation_row id db = Some r →
    leased now id (sr_node_id request) agent (sr_agent_instance_id request) (sr_lease_epoch request) r = true →
    (or_phase r = "forward" → (now < or_forward_deadline r)%Z) →
    answers_open_step id (reported_step request) key db →
    key_checked (receipt_key id (sr_lease_epoch request) request key.1 key.2) = true →
    receipt_key id (sr_lease_epoch request) request key.1 key.2 ∉ rc_key <$> receipts db →
    receipts db' = receipts db
      ++ [mkReceipt (receipt_key id (sr_lease_epoch request) request key.1 key.2) agent request] →
    result_outcome now request agent db id key res db'.

Lemma leased_find now id node agent instance epoch db r :
  db_ok db → List.find (leased now id node agent instance epoch) (operations db) = Some r →
  find_operation_row id db = Some r ∧ leased now id node agent instance epoch r = true ∧ or_operation_id r = id.
Proof.
  intros Hdb Hf. destruct (leased_row _ _ _ _ _ _ _ _ Hdb Hf) as (Hr & _). split; [done|].
  split; [by apply find_elem in Hf as [_ ?]|]. by apply (find_row id db).
Qed.

Lemma accepted_target target key :
  instruction_target_key target = Ok key →
  key = (if String.eqb key.1 "proxy" then ("proxy", "proxy") else ("engine_slot", key.2)).
Proof.
  unfold instruction_target_key. by destruct (default TkUnspecified _), (it_identity target) as [[]|];
    try case_match; intros [= <-].
Qed.

Lemma accepted_kind target key :
  instruction_target_key target = Ok key →
  default TkUnspecified (target_kind_try_from (it_kind target))
  = (if String.eqb key.1 "proxy" then TkProxy else TkEngineSlot).
Proof.
  unfold instruction_target_key. by destruct (default TkUnspecified _), (it_identity target) as [[]|];
    try case_match; intros [= <-].
Qed.

Lemma epoch_fits epoch (db db' : NodeDb) v : lease_epoch_try epoch db = Ok (v, db') → is_none (i64_try_from epoch) = false.
Proof. unfold lease_epoch_try. by destruct (i64_try_from epoch). Qed.

Lemma fresh_key (k : ReceiptKey) l :
  List.find (λ r, bool_decide (rc_key r = k)) l = None → k ∉ rc_key <$> l.
Proof.
  intros Hf (rc & -> & Hrc)%list_elem_of_fmap. pose proof (find_none _ _ Hf _ Hrc) as Hk.
  cbn beta in Hk. by rewrite bool_decide_eq_true_2 in Hk.
Qed.

Lemma report_step_outcome now clock request agent db res db' :
  db_ok db → report_step_tx now clock request agent db = Ok (res, db') →
  ∃ id target key, parse_operation_id (sr_operation_id request) = Ok id ∧ sr_target request = Some target
    ∧ instruction_target_key target = Ok key ∧ result_outcome now request agent db id key res db'.
Proof.
  intros Hdb H. unfold report_step_tx in H. apply tx_bind_ok in H as (id & ? & [Hpid ->]%tx_lift_ok & H).
  apply tx_bind_ok in H as (epoch & ? & Hep & H). pose proof (epoch_fits _ _ _ _ Hep) as Hfit. inv_lease;
    eexists _, _, _; (split; [eassumption|]); (split; [reflexivity|]); (split; [eassumption|]).
  { match goal with H : List.find _ _ = Some _ |- _ => apply find_elem in H as [Hin Hk] end.
    cbn beta in Hk. bool_to_prop. by eapply ro_replay; [..|apply String.eqb_eq|]. }
  all: match goal with H : List.find (leased _ _ _ _ _ _) _ = Some _ |- _ =>
         destruct (leased_find _ _ _ _ _ _ _ _ Hdb H) as (Hr & Hl & Hid) end.
  { eapply ro_expired; [exact Hr|].
    match goal with H : expire_forward _ _ = _ |- _ => exact (enter_restoration_frame same_receipts _ _ _ _ _ _ _ _ H) end. }
  all: match goal with H : store_receipt _ _ _ _ = _ |- _ => apply store_receipt_ok in H as -> end;
    match goal with H : instruction_target_key _ = Ok _ |- _ => pose proof (accepted_target _ _ H) as Hkey end;
    match goal with H : String.eqb _ "proxy" = _ |- _ => rewrite H in Hkey end;
    match goal with H : instruction_target_key _ = Ok _ |- _ => pose proof (accepted_kind _ _ H) as Hkind end;
    (eapply ro_accepted; [exact Hr|exact Hl|intros Hp; rewrite <-Hid in Hr; naive_solver| |
       unfold key_checked; cbn [rk_lease_epoch rk_target_kind rk_step rk_node_id rk_agent_instance_id rk_target_key receipt_key];
       rewrite <-Hkind, Hfit; apply andb_true_iff; split; [apply andb_true_iff; split|]; done|by apply fresh_key|]).
  - rewrite Hkey. by eapply report_proxy_open.
  - cbn. f_equal. match goal with H : report_proxy _ _ _ _ _ _ _ = _ |- _ => exact (report_proxy_frame same_receipts _ _ _ _ _ _ (update_targets_receipts _) _ _ _ H) end.
  - rewrite Hkey. by eapply report_slot_open.
  - cbn. f_equal. match goal with H : report_slot _ _ _ _ _ _ _ _ _ _ = _ |- _ => refine (report_slot_frame same_receipts _ _ _ _ _ _ _ _ _ _ _ _ _ H) end.
    by eapply engine_result_step.
Qed.

(** C9. A result is accepted once: it replays a result that was accepted before from the same
    principal with the same content, and then nothing changes; or its sender holds the live
    lease of that epoch, the forward deadline has not passed, and it reports the very step
    that its open target is at. *)
Theorem accepted_results_hold_lease now clock request agent db o db' :
  node_reachable db → report_step now clock request agent db = (Ok o, db') →
  ∃ id target key, parse_operation_id (sr_operation_id request) = Ok id ∧ sr_target request = Some target
    ∧ instruction_target_key target = Ok key
    ∧ ((∃ rc, rc ∈ receipts db ∧ rc_authenticated_principal rc = agent ∧ rc_result rc = request ∧ db' = db)
       ∨ (∃ r, find_operation_row id db = Some r
            ∧ leased now id (sr_node_id request) agent (sr_agent_instance_id request) (sr_lease_epoch request) r = true
            ∧ (or_phase r = "forward" → (now < or_forward_deadline r)%Z)
            ∧ answers_open_step id (reported_step request) key db)).
Proof.
  intros Hre H. unfold report_step, transact in H.
  destruct (report_step_tx _ _ _ _ _) as [[res db1]|e] eqn:Htx; [|done]. simplify_eq.
  destruct (report_step_outcome _ _ _ _ _ _ _ (reachable_ok _ Hre) Htx) as (id & target & key & Hid & Ht & Hk & Ho).
  exists id, target, key. do 3 (split; [done|]). inversion Ho; subst; [left|right]; eauto 10.
Qed.

(** ** Inspections *)

Lemma open_step_not_inspection id step key db r :
  db_ok db → find_operation_row id db = Some r → is_active r = true →
  answers_open_step id step key db → step ≠ InspectBackend.
Proof.
  intros Hdb Hr Ha (t & Ht & _ & Hc & Hs) ->. pose proof (dk_views _ Hdb id) as Hv. unfold view_inv in Hv.
  unfold op_view in Hv at 1. cbn [fst] in Hv. rewrite Hr in Hv. destruct Hv as [Hri Hti].
  by apply (no_inspection_step r t); [..|apply Hti| |].
Qed.

Lemma leased_active now id node agent instance epoch r : leased now id node agent instance epoch r = true → is_active r = true.
Proof.
  unfold leased. intros H. bool_to_prop. apply running_active. by apply String.eqb_eq.
Qed.

(** A step stores one receipt at most: of a report that answers an open step under a live
    lease, with a key that no earlier receipt has. *)
Definition stores (db : NodeDb) (rc : ReceiptRow) : Prop :=
  ∃ now id target key r request agent,
    rc = mkReceipt (receipt_key id (sr_lease_epoch request) request key.1 key.2) agent request
    ∧ parse_operation_id (sr_operation_id request) = Ok id ∧ sr_target request = Some target
    ∧ instruction_target_key target = Ok key
    ∧ find_operation_row id db = Some r
    ∧ leased now id (sr_node_id request) agent (sr_agent_instance_id request) (sr_lease_epoch request) r = true
    ∧ answers_open_step id (reported_step request) key db
    ∧ key_checked (rc_key rc) = true ∧ rc_key rc ∉ rc_key <$> receipts db.

Lemma receipts_grow db db' :
  db_ok db → node_step db db' → receipts db' = receipts db ∨ ∃ rc, receipts db' = receipts db ++ [rc] ∧ stores db rc.
Proof.
  intros Hok [c Hc|db1 [(_ & _ & E) _]]; [|by left].
  destruct c as [| | | |now clock request agent| | | |]; try (left; by apply (perform_frame same_receipts)).
  cbn. unfold report_step, transact. destruct (report_step_tx _ _ _ _ _) as [[res db1]|e] eqn:Htx; [|by left].
  destruct (report_step_outcome _ _ _ _ _ _ _ Hok Htx) as (id & target & key & Hid & Ht & Hk & Ho).
  destruct Ho as [rc' res _ _ _ _|r e db1 _ E|r res db1 Hr Hl _ Ha Hc1 Hf E]; [by left|by left|].
  right. eexists. split; [exact E|]. by exists now, id, target, key, r, request, agent.
Qed.

Record receipts_ok (db : NodeDb) : Prop := {
  ro_stored : ∀ rc, rc ∈ receipts db → is_Some (find_operation_row (rk_operation_id (rc_key rc)) db);
  ro_unique : NoDup (rc_key <$> receipts db);
  ro_checked : ∀ rc, rc ∈ receipts db → key_checked (rc_key rc) = true;
  ro_no_inspection : ∀ rc, rc ∈ receipts db → reported_step (rc_result rc) ≠ InspectBackend;
}.

(** An operation stays. *)
Lemma row_persists db db' id :
  db_ok db → node_step db db' → is_Some (find_operation_row id db) → is_Some (find_operation_row id db').
Proof.
  intros Hok Hst [r Hr]. destruct (node_step_moves _ _ Hst Hok) as [_ Hm]. specialize (Hm id).
  unfold op_view in Hm at 1. rewrite Hr in Hm. destruct (op_moves_later _ _ _ Hm) as (r' & ts' & Hv & _).
  unfold op_view in Hv. simplify_eq. by eexists.
Qed.

Lemma stores_ok db rc db' :
  db_ok db → node_step db db' → receipts_ok db → stores db rc → receipts db' = receipts db ++ [rc] → receipts_ok db'.
Proof.
  intros Hok Hst [Hrow Hu Hc Hn] (now & id & target & key & r & request & agent & -> & _ & _ & _ & Hr & Hl & Ha & Hk & Hf) E.
  split; rewrite E.
  - intros rc [Hrc| ->%list_elem_of_singleton]%elem_of_app; (eapply row_persists; [done..|]); [by apply Hrow|by exists r].
  - rewrite fmap_app. apply NoDup_app. split; [done|]. split; [|by apply NoDup_singleton].
    intros k Hin ->%list_elem_of_singleton. by apply Hf.
  - intros rc [Hrc| ->%list_elem_of_singleton]%elem_of_app; [by apply Hc|done].
  - intros rc [Hrc| ->%list_elem_of_singleton]%elem_of_app; [by apply Hn|].
    apply (open_step_not_inspection id _ key db r); [done..| |done]. by eapply leased_active.
Qed.

Lemma receipts_ok_step db db' : db_ok db → receipts_ok db → node_step db db' → receipts_ok db'.
Proof.
  intros Hok Hrc Hst. destruct (receipts_grow _ _ Hok Hst) as [E|(rc & E & Hs)]; [|by eapply stores_ok].
  destruct Hrc. split; rewrite E; [|done..]. intros rc Hrc. eapply row_persists; eauto.
Qed.

Lemma reachable_receipts db : node_reachable db → receipts_ok db.
Proof.
  intros (db0 & Hi & Hs). assert (receipts_ok db0 ∧ db_ok db0) as [H0 Hok].
  { split; [|apply reachable_ok; by exists db0]. destruct Hi as (_ & _ & Hr & _).
    split; rewrite Hr; try (by intros rc Hrc%elem_of_nil). constructor. }
  clear Hi. induction Hs as [|db db1 db' Hst _ IH]; [done|].
  apply IH; [by eapply receipts_ok_step|by apply (node_step_moves _ _ Hst)].
Qed.

Lemma receipts_persist db db' : node_reachable db → rtc node_step db db' → receipts db `prefix_of` receipts db'.
Proof.
  intros Hre Hs. induction Hs as [|db db1 db' Hst _ IH]; [done|].
  etrans; [|apply IH; eapply reachable_steps; [exact Hre|by apply rtc_once]].
  destruct (receipts_grow _ _ (reachable_ok _ Hre) Hst) as [->|(rc & -> & _)]; [done|by eexists].
Qed.

(** ** Retries *)

Lemma find_receipt rc l : NoDup (rc_key <$> l) → rc ∈ l → List.find (λ r, bool_decide (rc_key r = rc_key rc)) l = Some rc.
Proof.
  induction l as [|a l IH]; [by intros _ ?%elem_of_nil|]. intros [Hn Hd]%NoDup_cons [->|Hin]%elem_of_cons; cbn.
  - by rewrite bool_decide_eq_true_2.
  - rewrite bool_decide_eq_false_2; [by apply IH|]. intros E. apply Hn. rewrite E. by apply list_elem_of_fmap_2.
Qed.

Lemma receipt_answer now clock request agent db id target key rc :
  parse_operation_id (sr_operation_id request) = Ok id → sr_target request = Some target →
  instruction_target_key target = Ok key →
  negb (is_none (i64_try_from (sr_lease_epoch request))) = true →
  target_step_compatible (default TkUnspecified (target_kind_try_from (it_kind target)))
    (default StUnspecified (step_try_from (sr_step request))) = true →
  forallb pg_text [sr_node_id request; sr_agent_instance_id request; key.2] = true →
  List.find (λ r, bool_decide (rc_key r = receipt_key id (sr_lease_epoch request) request key.1 key.2)) (receipts db) = Some rc →
  report_step_tx now clock request agent db
  = (if String.eqb (rc_authenticated_principal rc) agent && bool_decide (rc_result rc = request)
     then let? o := load_operation id db in Ok (Ok o, db)
     else Err (aborted "result retry conflicts with the accepted instruction receipt")).
Proof.
  intros Hid Ht Hk He Hcompat Htexts Hf. unfold report_step_tx. rewrite Ht.
  rewrite (tx_bind_runs _ _ _ id db) by (unfold lift; by rewrite Hid).
  rewrite (tx_bind_runs _ _ _ (sr_lease_epoch request) db)
    by (unfold lease_epoch_try, i64_try_from in *; by destruct (_ <=? _)%Z).
  cbv zeta. rewrite (tx_bind_runs _ _ _ key db) by (unfold lift; by rewrite Hk).
  rewrite (tx_bind_runs _ _ _ () db) by (by rewrite Hcompat).
  rewrite (tx_bind_runs _ _ _ () db) by (unfold bind_texts; by rewrite Htexts).
  rewrite (tx_bind_runs get _ _ db db) by done. rewrite Hf.
  destruct (_ && _) eqn:Eg; cbn; [|done]. by destruct (load_operation id db).
Qed.

(** C36. The first accepted result decides its instruction for good. The receipt of a result
    stays, and any later report for the same operation, node, activation, lease epoch, step and
    target changes nothing: the same principal sending the same content is answered with the
    operation as it is by then, and any other report is refused as a conflicting retry. A step that is
    instructed again in one lease epoch can therefore not be reported with a new outcome. *)
Theorem receipts_decide_retries db db' rc now clock request agent id target key :
  node_reachable db → rc ∈ receipts db → rtc node_step db db' →
  parse_operation_id (sr_operation_id request) = Ok id → sr_target request = Some target →
  instruction_target_key target = Ok key →
  rc_key rc = receipt_key id (sr_lease_epoch request) request key.1 key.2 →
  ∃ o, load_operation id db' = Ok o ∧
    report_step now clock request agent db'
    = (if decide (rc_authenticated_principal rc = agent ∧ rc_result rc = request) then Ok o
       else Err (aborted "result retry conflicts with the accepted instruction receipt"), db').
Proof.
  intros Hre Hrc Hs Hid Ht Hk Ekey. pose proof (reachable_steps _ _ Hre Hs) as Hre'.
  pose proof (reachable_receipts _ Hre') as [Hst Hu Hc _].
  assert (rc ∈ receipts db') as Hrc' by (by destruct (receipts_persist _ _ Hre Hs) as [k ->]; apply elem_of_app; left).
  pose proof (Hc _ Hrc') as Hck. pose proof (find_receipt _ _ Hu Hrc') as Hf. destruct (Hst _ Hrc') as [r Hr].
  rewrite Ekey in Hck, Hf, Hr. cbn in Hr. destruct (operation_loads _ _ _ Hre' Hr) as [o Hl]. exists o. split; [done|].
  unfold key_checked in Hck.
  cbn [rk_lease_epoch rk_target_kind rk_step rk_node_id rk_agent_instance_id rk_target_key receipt_key] in Hck.
  rewrite <-(accepted_kind _ _ Hk) in Hck. apply andb_true_iff in Hck as [[He Hcompat]%andb_true_iff Htexts].
  unfold report_step, transact. rewrite (receipt_answer _ _ _ _ _ _ _ _ _ Hid Ht Hk He Hcompat Htexts Hf), Hl.
  rewrite bool_decide_decide. destruct (String.eqb_spec (rc_authenticated_principal rc) agent) as [Ea|Ea];
    repeat destruct (decide _); naive_solver.
Qed.

(** The result of an inspection is never accepted. A claim answers an effect that was
    delivered without a result with [InspectBackend]; but no target is ever at that step,
    so that [report_step] refuses whatever the agent then reports. *)
Theorem inspection_results_refused now clock request agent db :
  node_reachable db → reported_step request = InspectBackend →
  is_ok (report_step now clock request agent db).1 = false.
Proof.
  intros Hre Hs. pose proof (reachable_ok _ Hre) as Hdb. pose proof (reachable_receipts _ Hre) as Hrc.
  unfold report_step, transact. destruct (report_step_tx _ _ _ _ _) as [[res db1]|e] eqn:Htx; [|done].
  destruct (report_step_outcome _ _ _ _ _ _ _ Hdb Htx) as (id & target & key & _ & _ & _ & Ho).
  destruct Ho as [rc res Hin _ _ E|r e db1 _ _|r res db1 Hr Hl _ Ha _ _ _]; [|done|].
  - destruct (ro_no_inspection _ Hrc _ Hin). by rewrite E.
  - destruct (open_step_not_inspection _ _ _ _ _ Hdb Hr (leased_active _ _ _ _ _ _ _ Hl) Ha). done.
Qed.

End results.
