(* ===== verification/NodeWedge.v ===== *)
(** * Node operations: an ambiguous effect of the proxy ends all progress

    The composition of the manager with its agents: agents report what the manager instructed
    them to do, or are late with results of earlier epochs. *)

From S2P Require Import Prelude RustStr Utf8 Lists Orders Externals Grpc Lifecycle IndexedRouting Deployment Rollout Schedule Operations NodeStatus NodeTables NodeStore NodeSubmit NodeRun NodeAgent NodeReport NodeHost NodeTx NodeSteps NodeLoad NodeRefine NodeRefineTx NodeFacts NodeFrame NodeStuck NodeClaims NodeResults.

Section wedge.
Context `{CL : CollationLib, UL : UuidLib, SH : Sha256Lib}.

(** ** The manager and its agents *)

Definition issued_by (c : NodeCall) (db : NodeDb) : list AgentInstruction :=
  match c with
  | CClaim now clock locked node_id instance agent =>
      match (claim now clock locked node_id instance agent db).1 with Ok (Some i) => [i] | _ => [] end
  | _ => []
  end.

(** The instructions issued since some moment, and the tables; at that moment no lease of an
    epoch above [epoch] had been taken. *)
Inductive agent_step (epoch : Z) : list AgentInstruction * NodeDb → list AgentInstruction * NodeDb → Prop :=
| as_call issued db c :
    call_ok c → is_report c = false →
    agent_step epoch (issued, db) (issued ++ issued_by c db, perform c db)
| as_report issued db now clock agent config i outcome observation request :
    i ∈ issued → completed_reports config i outcome = Ok (observation, Some request) →
    agent_step epoch (issued, db) (issued, perform (CReport now clock request agent) db)
| as_late issued db now clock agent request :
    (sr_lease_epoch request ≤ epoch)%Z →
    agent_step epoch (issued, db) (issued, perform (CReport now clock request agent) db)
| as_other issued db db' : other_writers db db' → agent_step epoch (issued, db) (issued, db').

Lemma agent_step_step epoch s s' : agent_step epoch s s' → node_step s.2 s'.2.
Proof. intros []; by constructor. Qed.

(** ** Results that could end the ambiguity *)

Lemma report_step_stuck id now clock request agent db res db' :
  db_ok db → report_step_tx now clock request agent db = Ok (res, db') → stuck id db →
  stuck id db'
  ∨ ∃ target r, parse_operation_id (sr_operation_id request) = Ok id ∧ sr_target request = Some target
      ∧ instruction_target_key target = Ok ("proxy", "proxy") ∧ find_operation_row id db = Some r
      ∧ leased now id (sr_node_id request) agent (sr_agent_instance_id request) (sr_lease_epoch request) r = true
      ∧ answers_open_step id (reported_step request) ("proxy", "proxy") db.
Proof.
  intros Hdb H Hst. unfold report_step_tx in H. inv_lease; try (by left);
    match goal with H : List.find (leased _ _ _ _ _ _) _ = Some _ |- _ =>
      destruct (leased_find _ _ _ _ _ _ _ _ Hdb H) as (Hr & Hl & _) end.
  - left. match goal with H : expire_forward _ _ = _ |- _ => exact (enter_restoration_frame (stays_stuck id) _ _ _ _ _ _ _ _ H Hst) end.
  - match goal with H : store_receipt _ _ _ _ = _ |- _ => apply store_receipt_ok in H as -> end.
    match goal with H : instruction_target_key _ = Ok _ |- _ => pose proof (accepted_target _ _ H) as Hkey; rename H into Hk end.
    match goal with H : String.eqb _ "proxy" = _ |- _ => rewrite H in Hkey end. rewrite Hkey in Hk.
    destruct (decide (v = id)) as [->|Hne].
    + right. do 2 eexists. do 5 (split; [eassumption||reflexivity|]). by eapply report_proxy_open.
    + left. match goal with H : report_proxy _ _ _ _ _ _ _ = _ |- _ =>
        exact (report_proxy_other id _ _ _ _ _ _ Hne _ _ _ H Hst) end.
  - match goal with H : store_receipt _ _ _ _ = _ |- _ => apply store_receipt_ok in H as -> end.
    left. match goal with H : report_slot _ _ _ _ _ _ _ _ _ _ = _ |- _ =>
      refine (report_slot_frame (stays_stuck id) _ _ _ _ _ _ _ _ _ _ _ _ _ H Hst) end. by eapply engine_result_step.
Qed.

(** ** The wedge *)

(** A claim of an operation whose proxy is stuck instructs the proxy only to inspect. *)
Lemma stuck_claim_inspects id now clock locked node_id instance agent db i db' :
  db_ok db → claim_tx now clock locked node_id instance agent db = Ok (Ok (Some i), db') → stuck id db →
  parse_operation_id (ai_operation_id i) = Ok id → it_identity (ai_target i) = Some ProxyIdentity →
  ai_step i = InspectBackend.
Proof.
  intros Hdb Htx Hst Hid Hpx. destruct (claim_inv _ _ _ _ _ _ _ _ _ Hdb Htx) as (id' & r & o & s & dbR & Hcs).
  destruct Hcs as [_ Hstk HdbR Hr _ _ _ _ L Hsel Hde].
  destruct (deliver_ok _ _ _ _ _ _ _ _ _ _ _ Hde) as (Eid & _ & Est & _ & Eit & _).
  assert (id' = id) as ->.
  { rewrite Eid in Hid. unfold parse_operation_id in Hid.
    rewrite uuid_parse_to_string in Hid by (by eapply view_row_range). by simplify_eq. }
  rewrite Eit in Hpx. case_bool_decide as Hk; [|done]. destruct (Hstk id Hst) as (t & Ht & Hp & Hc & Ha).
  destruct (select_target_rows _ _ _ _ _ HdbR L Hsel) as (_ & _ & Hrows).
  destruct (Hrows t) as (_ & _ & _ & Ham).
  - apply elem_of_filter_bool. split; [|done]. unfold is_proxy_row in Hp. by bool_to_prop.
  - unfold selected_row. by rewrite bool_decide_true.
  - rewrite Est. unfold instruction_step, inspection. by rewrite Ham, Ha, orb_true_r.
Qed.

(** What a run of obedient agents keeps. *)
Definition wedged (epoch : Z) (id : Uuid) (node : string) (s : list AgentInstruction * NodeDb) : Prop :=
  node_reachable s.2 ∧ stuck id s.2
  ∧ (∃ r, find_operation_row id s.2 = Some r ∧ or_node_id r = node ∧ (epoch ≤ or_lease_epoch r)%Z
        ∧ (or_lease_epoch r = epoch → or_state r ≠ "running"))
  ∧ ∀ i, i ∈ s.1 → parse_operation_id (ai_operation_id i) = Ok id →
      it_identity (ai_target i) = Some ProxyIdentity → ai_step i = InspectBackend.

(** The row of the operation only gets later. *)
Lemma wedged_row epoch id node db db' :
  node_reachable db → node_step db db' →
  (∃ r, find_operation_row id db = Some r ∧ or_node_id r = node ∧ (epoch ≤ or_lease_epoch r)%Z
     ∧ (or_lease_epoch r = epoch → or_state r ≠ "running")) →
  ∃ r, find_operation_row id db' = Some r ∧ or_node_id r = node ∧ (epoch ≤ or_lease_epoch r)%Z
    ∧ (or_lease_epoch r = epoch → or_state r ≠ "running").
Proof.
  intros Hre Hs (r & Hr & Hn & He & Hrun). destruct (node_step_moves _ _ Hs (reachable_ok _ Hre)) as [_ Hm].
  specialize (Hm id). destruct (op_view id db) as [o ts] eqn:Ev. unfold op_view in Ev. rewrite Hr in Ev. simplify_eq.
  destruct (op_moves_later _ _ _ Hm) as (r' & ts' & Hv & Hl). unfold op_view in Hv. simplify_eq.
  exists r'. split; [done|]. destruct Hl as [E1 _ E3 _ E5]. unfold submitted in E5. simplify_eq.
  split; [congruence|]. split; [lia|]. intros E Hr'. apply Hrun; [lia|]. apply E3; [lia|done].
Qed.

(** A result of an obedient or a late agent does not end the ambiguity. *)
Lemma wedged_result epoch id node now clock request agent issued db :
  wedged epoch id node (issued, db) →
  (sr_lease_epoch request ≤ epoch)%Z
  ∨ (∃ i config outcome observation, i ∈ issued ∧ completed_reports config i outcome = Ok (observation, Some request)) →
  stuck id (perform (CReport now clock request agent) db).
Proof.
  intros (Hre & Hst & (r & Hr & Hn & He & Hrun) & Hi) Hreq. cbn in *. pose proof (reachable_ok _ Hre) as Hdb.
  unfold report_step, transact. destruct (report_step_tx _ _ _ _ _) as [[res db1]|e] eqn:Htx; [|done]. cbn.
  destruct (report_step_stuck id _ _ _ _ _ _ _ Hdb Htx Hst) as [?|(target & r' & Hid & Ht & Hk & Hr' & Hl & Ho)]; [done|].
  exfalso. rewrite Hr in Hr'. simplify_eq. destruct Hreq as [Hlate|(i & config & outcome & observation & Hin & Hc)].
  - unfold leased in Hl. bool_to_prop. apply Hrun; [lia|by apply String.eqb_eq].
  - destruct (open_step_not_inspection _ _ _ _ _ Hdb Hr (leased_active _ _ _ _ _ _ _ Hl) Ho).
    unfold completed_reports in Hc. destruct (completed_evidence i outcome) as [ev failure]. inv_ok Hc.
    destruct (if bool_decide _ then _ else _); simplify_eq. cbn in *. simplify_eq.
    unfold reported_step. cbn. rewrite step_try_from_i32. cbn. apply Hi; [done..|].
    unfold instruction_target_key in Hk. destruct (default TkUnspecified _), (it_identity _) as [[]|]; try done;
      by destruct (negb _ && _).
Qed.

Lemma wedged_step epoch id node s s' : agent_step epoch s s' → wedged epoch id node s → wedged epoch id node s'.
Proof.
  intros Hs Hw. pose proof (agent_step_step _ _ _ Hs) as Hn. pose proof Hw as (Hre & Hst & Hrow & Hi).
  assert (node_reachable s'.2) as Hre' by (eapply reachable_steps; [exact Hre|by apply rtc_once]).
  pose proof (wedged_row _ _ _ _ _ Hre Hn Hrow) as Hrow'.
  destruct Hs as [issued db c Hc Hr|issued db now clock agent config i outcome observation request Hin Hcr
    |issued db now clock agent request Hl|issued db db' [(_ & Et & _) _]]; cbn in *.
  - split; [done|]. split; [by apply (perform_frame (stays_stuck id))|]. split; [done|].
    intros i [Hin|Hin]%elem_of_app; [by apply Hi|]. destruct c; try (by apply elem_of_nil in Hin). cbn in Hin.
    unfold claim, transact in Hin. destruct (claim_tx _ _ _ _ _ _ _) as [[[[i'|]|e] db1]|e] eqn:Htx;
      try (by apply elem_of_nil in Hin). apply list_elem_of_singleton in Hin as ->.
    intros H1 H2. by eapply (stuck_claim_inspects id _ _ _ _ _ _ db); [by apply reachable_ok|exact Htx|..].
  - split; [done|]. split; [|done]. eapply wedged_result; [exact Hw|]. right. by exists i, config, outcome, observation.
  - split; [done|]. split; [|done]. eapply wedged_result; [exact Hw|]. by left.
  - split; [done|]. split; [|done]. by eapply same_targets_stuck.
Qed.

(** A stuck proxy belongs to an active operation. *)
Lemma stuck_active id db r : db_ok db → stuck id db → find_operation_row id db = Some r → is_active r = true.
Proof.
  intros Hdb (t & Ht & Hp & Hc & _) Hr. pose proof (dk_views _ Hdb id) as Hv. unfold view_inv in Hv.
  unfold op_view in Hv at 1. cbn [fst] in Hv. rewrite Hr in Hv. destruct Hv as [[_ Hri] Hti].
  assert (t ∈ (op_view id db).2) as Hin.
  { apply elem_of_filter_bool. split; [|done]. unfold is_proxy_row in Hp. by bool_to_prop. }
  destruct (Hti t Hin) as [[_ [?|[Hph _]]]|[Hk _]]; [congruence| |].
  - destruct (find_row _ _ _ Hr) as [Hro _]. destruct (is_active r) eqn:Ha; [done|].
    by destruct (Hph (inactive_phase _ _ Hdb Hro Ha)).
  - unfold is_proxy_row in Hp. bool_to_prop. rewrite Hk in *. done.
Qed.

(** C34. An ambiguous effect of the proxy ends all progress of its node: when the lease under which
    it was delivered is lost, then whatever operators, agents and the rest of the manager do, as
    long as agents report the results of what they are instructed to do, the operation stays
    active with its proxy open, through resumption, cancellation and new activations, and no other
    operation of the node is ever active. *)
Theorem ambiguous_proxy_wedges_node db id r issued db' :
  node_reachable db → find_operation_row id db = Some r → stuck id db → or_state r ≠ "running" →
  rtc (agent_step (or_lease_epoch r)) ([], db) (issued, db') →
  stuck id db'
  ∧ ∃ r', find_operation_row id db' = Some r' ∧ is_active r' = true ∧ or_node_id r' = or_node_id r
    ∧ ∀ r2, r2 ∈ operations db' → or_node_id r2 = or_node_id r → is_active r2 = true → r2 = r'.
Proof.
  intros Hre Hr Hst Hrun Hs.
  assert (wedged (or_lease_epoch r) id (or_node_id r) ([], db)) as H0.
  { split; [done|]. split; [done|]. split; [by exists r|]. intros i Hi. by apply elem_of_nil in Hi. }
  assert (wedged (or_lease_epoch r) id (or_node_id r) (issued, db')) as (Hre' & Hst' & (r' & Hr' & Hn & _) & _).
  { remember ([], db) as s eqn:E. remember (issued, db') as s' eqn:E'. clear E E'.
    induction Hs; eauto using wedged_step. }
  cbn [fst snd] in *. pose proof (reachable_ok _ Hre') as Hdb'. pose proof (stuck_active _ _ _ Hdb' Hst' Hr') as Ha.
  split; [done|]. exists r'. do 3 (split; [done|]). intros r2 Hin2 Hn2 Ha2.
  destruct (find_row _ _ _ Hr') as [Hin' _]. destruct Hdb' as [Ho _ _].
  unfold operations_ok, operations_unique in Ho. apply andb_true_iff in Ho as [_ [_ Ho%bool_decide_eq_true]%andb_true_iff].
  apply (NoDup_fmap_inj or_node_id (List.filter is_active (operations db'))); [done| | |congruence].
  - by apply elem_of_filter_bool.
  - by apply elem_of_filter_bool.
Qed.

End wedge.
