(* ===== verification/NodeAuthority.v ===== *)
(** * Node operations: authority over slots

    The table of slot authorities keeps at most one authoritative revision per slot, and a
    switch leaves the routes of every other revision's engines unhealthy. *)

From S2P Require Import Prelude RustStr Utf8 Lists Orders Externals Grpc Lifecycle IndexedRouting Deployment Rollout Schedule Operations NodeStatus NodeTables NodeStore NodeSubmit NodeRun NodeAgent NodeReport NodeTx NodeSteps NodeLoad NodeRefine NodeRefineTx NodeFacts NodeFrame.

Definition authority_key (a : AuthorityRow) : string * string * Z := (au_node_id a, au_engine_slot a, au_revision a).

(** The primary key, and the partial unique index on authoritative rows. *)
Definition one_authority (l : list AuthorityRow) : Prop :=
  NoDup (authority_key <$> l)
  ∧ ∀ a b, a ∈ l → b ∈ l → au_authoritative a = true → au_authoritative b = true →
      au_node_id a = au_node_id b → au_engine_slot a = au_engine_slot b → a = b.

(** The slot has no authority. *)
Definition no_authority (node_id slot : string) (l : list AuthorityRow) : Prop :=
  ∀ a, a ∈ l → in_authority node_id slot a = true → au_authoritative a = false.

Definition revoke (node_id slot : string) (l : list AuthorityRow) : list AuthorityRow :=
  update_where (λ a, in_authority node_id slot a && au_authoritative a) (set_authoritative false) l.

Lemma revoke_keys node_id slot l : authority_key <$> revoke node_id slot l = authority_key <$> l.
Proof.
  unfold revoke, update_where. rewrite <-list_fmap_compose. apply list_fmap_ext. intros i a _. cbn.
  by destruct (_ && _).
Qed.

Lemma elem_of_revoke node_id slot l a :
  a ∈ revoke node_id slot l → au_authoritative a = true → a ∈ l ∧ in_authority node_id slot a = false.
Proof.
  intros (b & -> & Hb)%elem_of_update_where. destruct (in_authority node_id slot b && au_authoritative b) eqn:E; [done|].
  intros Ha. split; [done|]. rewrite Ha, andb_true_r in E. done.
Qed.

Lemma revoke_ok node_id slot l :
  one_authority l → one_authority (revoke node_id slot l) ∧ no_authority node_id slot (revoke node_id slot l).
Proof.
  intros [Hk Ho]. split; [split|].
  - by rewrite revoke_keys.
  - intros a b Ha Hb Hta Htb Hn Hs. apply Ho; try done; by eapply elem_of_revoke.
  - intros a Ha Hi. destruct (au_authoritative a) eqn:E; [|done].
    destruct (elem_of_revoke _ _ _ _ Ha E) as [_ ?]. congruence.
Qed.

Lemma in_authority_key node_id slot a :
  in_authority node_id slot a = true ↔ au_node_id a = node_id ∧ au_engine_slot a = slot.
Proof. unfold in_authority. by rewrite andb_true_iff, !String.eqb_eq. Qed.

(** The row that a grant leaves. *)
Definition granted (node_id slot : string) (revision : Z) (d : DeploymentRow) : AuthorityRow :=
  mkAuthority node_id slot revision true (dp_resolved_release_digest d).

Lemma grant_elem node_id slot revision db d l a :
  find_deployment node_id revision db = Some d →
  a ∈ grant_authority node_id slot revision db l ↔
  (a ∈ l ∧ (in_authority node_id slot a && (au_revision a =? revision)%Z) = false)
  ∨ a = granted node_id slot revision d.
Proof.
  intros Hd. unfold grant_authority. rewrite Hd. case_match eqn:Ex.
  - apply existsb_exists in Ex as (b & Hb%list_elem_of_In & Hs). rewrite elem_of_update_where. split.
    + intros (x & -> & Hx). case_match; auto.
    + intros [[Ha Hn]| ->]; [exists a; by rewrite Hn|exists b; by rewrite Hs].
  - rewrite elem_of_app, list_elem_of_singleton. split; [|tauto]. intros [Ha|]; [left|tauto]. split; [done|].
    destruct (_ && _) eqn:E; [|done]. assert (existsb (λ a, in_authority node_id slot a && (au_revision a =? revision)%Z) l = true);
      [|congruence]. apply existsb_exists. exists a. split; [by apply list_elem_of_In|done].
Qed.

Lemma grant_ok node_id slot revision db l :
  one_authority l → no_authority node_id slot l → one_authority (grant_authority node_id slot revision db l).
Proof.
  intros [Hk Ho] Hno. destruct (find_deployment node_id revision db) as [d|] eqn:Hd;
    [|unfold grant_authority; by rewrite Hd]. split.
  - unfold grant_authority. rewrite Hd. case_match eqn:Ex.
    + unfold update_where. rewrite <-list_fmap_compose. erewrite list_fmap_ext; [exact Hk|]. intros i a _. cbn.
      destruct (in_authority node_id slot a && _) eqn:E; [|done]. apply andb_true_iff in E as [E1 E2%Z.eqb_eq].
      apply in_authority_key in E1 as [<- <-]. unfold authority_key. cbn. congruence.
    + rewrite fmap_app. apply NoDup_app. split; [done|]. split; [|apply NoDup_singleton].
      intros k (a & -> & Ha)%list_elem_of_fmap Hk'. apply list_elem_of_singleton in Hk'. unfold authority_key in Hk'. cbn in Hk'.
      simplify_eq. rewrite (proj2 (existsb_exists _ _)) in Ex; [done|]. exists a. split; [by apply list_elem_of_In|].
      rewrite Z.eqb_refl, andb_true_r. by apply in_authority_key.
  - intros a b Ha Hb Hta Htb Hn Hs. rewrite (grant_elem _ _ _ _ d) in Ha, Hb by done.
    destruct Ha as [[Ha _]| ->], Hb as [[Hb _]| ->].
    + by apply Ho.
    + rewrite (Hno a Ha) in Hta; [done|]. by apply in_authority_key.
    + rewrite (Hno b Hb) in Htb; [done|]. by apply in_authority_key.
    + done.
Qed.

Section authority.
Context `{CL : CollationLib, UL : UuidLib, SH : Sha256Lib}.

(** What a switch writes. *)
Lemma switch_authority_ok now node_id slot revision db u db' :
  switch_authority now node_id slot revision db = Ok (u, db') →
  authorities db' = (if (0 <? revision)%Z then grant_authority node_id slot revision db (revoke node_id slot (authorities db))
                     else revoke node_id slot (authorities db))
  ∧ let serving r := healthy r && bool_decide (engine_id r ∈ withdrawn_engines node_id slot revision db) in
    routes db' = update_where serving unhealthy (routes db)
    ∧ routing_version db' = (routing_version db + Z.b2z (existsb serving (routes db)))%Z.
Proof.
  unfold switch_authority. intros H. apply tx_bind_ok in H as (? & ? & [-> ->]%tx_get_ok & H).
  apply tx_bind_ok in H as (? & db1 & ->%tx_modify_ok & H). apply tx_bind_ok in H as (? & db2 & ->%tx_modify_ok & H).
  apply tx_bind_ok in H as (? & db3 & Hv & H).
  assert (authorities db' = authorities db3 ∧ routes db' = routes db3 ∧ routing_version db' = routing_version db3) as (-> & -> & ->).
  { unfold fence_cleanup_authority, alter_cleanup in H. by inv_tx. }
  clear H. cbn. destruct (existsb _ (routes db)); inv_tx; cbn; (split; [done|]); (split; [done|]); lia.
Qed.

Definition keeps_authority (db db' : NodeDb) : Prop := one_authority (authorities db) → one_authority (authorities db').

#[local] Instance keeps_authority_preorder : PreOrder keeps_authority.
Proof. split; [by intros db H|]. intros a b c H1 H2 H. by apply H2, H1. Qed.

Lemma same_authorities db db' : authorities db' = authorities db → keeps_authority db db'.
Proof. unfold keeps_authority. by intros ->. Qed.

Lemma update_targets_authority p f : tx_moves keeps_authority (update_targets p f).
Proof. intros db u db' [-> _]%update_targets_ok. by apply same_authorities. Qed.

Lemma update_operations_authority p f : tx_moves keeps_authority (update_operations p f).
Proof. intros db rows db' (-> & _ & _)%update_operations_ok. by apply same_authorities. Qed.

#[local] Instance authority_reconcile : ReconcileFrame keeps_authority.
Proof.
  split; [apply _|..].
  - intros db db' [_ E]. by apply same_authorities.
  - intros now node_id slot revision db u db' [E _]%switch_authority_ok Hok. rewrite E.
    destruct (revoke_ok node_id slot _ Hok) as [Hr Hn]. case_match; [by apply grant_ok|done].
  - intros. apply update_targets_authority.
  - intros. apply update_targets_authority.
  - intros. apply update_operations_authority.
Qed.

#[local] Instance authority_calls : CallFrame keeps_authority.
Proof.
  split; [apply _|intros; apply update_operations_authority|intros; apply update_targets_authority|].
  intros r ts db o db' _ _ E. by apply same_authorities.
Qed.

Lemma report_step_authority now clock request agent :
  tx_moves keeps_authority (report_step_tx now clock request agent).
Proof.
  intros db a db' H. unfold report_step_tx in H. inv_lease; try done.
  - match goal with H : expire_forward _ _ = _ |- _ => exact (enter_restoration_frame keeps_authority _ _ _ _ _ _ _ _ H) end.
  - match goal with H : store_receipt _ _ _ _ = _ |- _ => apply store_receipt_ok in H as -> end.
    match goal with H : report_proxy _ _ _ _ _ _ _ = _ |- _ =>
      exact (report_proxy_frame keeps_authority _ _ _ _ _ _ (update_targets_authority _) _ _ _ H) end.
  - match goal with H : store_receipt _ _ _ _ = _ |- _ => apply store_receipt_ok in H as -> end.
    match goal with H : report_slot _ _ _ _ _ _ _ _ _ _ = _ |- _ =>
      refine (report_slot_frame keeps_authority _ _ _ _ _ _ _ _ _ _ _ _ _ H) end. by eapply engine_result_step.
Qed.

Lemma node_step_authority db db' : node_step db db' → keeps_authority db db'.
Proof.
  intros [c Hc|db1 (_ & _ & E & _)]; [|by apply same_authorities].
  destruct (is_report c) eqn:Er; [|by apply (perform_frame keeps_authority)].
  destruct c; try done. apply (transact_moves keeps_authority), report_step_authority.
Qed.

(** C19. A slot has at most one authoritative revision, in every reachable state: no interleaving of
    switches, restorations and other calls violates the unique index. *)
Theorem one_authority_per_slot db : node_reachable db → one_authority (authorities db).
Proof.
  intros (db0 & (_ & _ & _ & E) & Hs).
  assert (one_authority (authorities db0)) as H0.
  { rewrite E. split; [constructor|]. intros a b Ha. by apply elem_of_nil in Ha. }
  clear E. induction Hs as [|db db1 db' Hst _ IH]; [done|]. by apply IH, (node_step_authority _ _ Hst).
Qed.

(** A switch leaves exactly its revision authoritative over the slot, and no healthy route to an
    engine that another revision registered for it; the routing version moves with every withdrawal. *)
Theorem switch_authority_exact now node_id slot revision db u db' :
  one_authority (authorities db) → (0 < revision)%Z → find_deployment node_id revision db ≠ None →
  switch_authority now node_id slot revision db = Ok (u, db') →
  (∀ a, a ∈ authorities db' → in_authority node_id slot a = true →
     au_authoritative a = bool_decide (au_revision a = revision))
  ∧ (∃ a, a ∈ authorities db' ∧ in_authority node_id slot a = true ∧ au_revision a = revision)
  ∧ (∀ r, r ∈ routes db' → engine_id r ∈ withdrawn_engines node_id slot revision db → healthy r = false)
  ∧ (routes db' ≠ routes db → routing_version db' = routing_version db + 1)%Z.
Proof.
  intros Hok Hpos Hd Hsw. destruct (find_deployment node_id revision db) as [d|] eqn:Ed; [|done].
  destruct (switch_authority_ok _ _ _ _ _ _ _ Hsw) as (Ea & Er & Ev). rewrite Ea, Er, Ev. clear Ea Er Ev Hsw.
  rewrite (proj2 (Z.ltb_lt 0 revision)) by done. destruct (revoke_ok node_id slot _ Hok) as [_ Hn]. split; [|split; [|split]].
  - intros a Ha Hi. rewrite (grant_elem _ _ _ _ d) in Ha by done. destruct Ha as [[Ha Hf]| ->].
    + rewrite Hi in Hf. cbn in Hf. apply Z.eqb_neq in Hf. rewrite bool_decide_false by done. by apply Hn.
    + by rewrite bool_decide_true.
  - exists (granted node_id slot revision d). rewrite (grant_elem _ _ _ _ d) by done. split; [by right|].
    split; [by apply in_authority_key|done].
  - intros r (r0 & -> & Hr)%elem_of_update_where Hw. case_match eqn:E; [done|].
    rewrite bool_decide_true, andb_true_r in E by done. done.
  - intros Hne. destruct (existsb _ (routes db)) eqn:Ex; [done|]. destruct Hne. apply update_where_id.
    intros r Hr Hs. rewrite (proj2 (existsb_exists _ _)) in Ex; [done|]. exists r. split; [by apply list_elem_of_In|done].
Qed.

End authority.
