(* ===== verification/NodeSubmitFacts.v ===== *)
(** * Node operations: submissions and availability

    A request token names one operation for good; and what the manager checks before it lets
    a slot be stopped. *)

From S2P Require Import Prelude RustStr Utf8 Lists Orders Externals Grpc Lifecycle IndexedRouting Deployment Rollout Schedule Operations NodeStatus NodeTables NodeStore NodeSubmit NodeRun NodeAgent NodeReport NodeTx NodeSteps NodeLoad NodeRefine NodeRefineTx NodeFacts.

Section submissions.
Context `{CL : CollationLib, UL : UuidLib, SH : Sha256Lib}.

(** ** Tokens *)

(** The row that an accepted submission answers with. *)
Lemma submit_row now fresh_id actor request db o db' :
  submit_tx now fresh_id actor request db = Ok (Ok o, db') →
  ∃ r, r ∈ operations db' ∧ or_actor r = actor ∧ or_request_token r = so_request_token request
    ∧ or_request r = request ∧ op_operation_id o = uuid_to_string (or_operation_id r).
Proof.
  intros H. unfold submit_tx in H. apply tx_bind_ok in H as (? & ? & [_ ->]%tx_guard_ok & H).
  apply tx_bind_ok in H as (? & db1 & ->%tx_modify_ok & H). apply tx_bind_ok in H as (? & ? & [-> ->]%tx_get_ok & H).
  destruct (find_node _ _) as [node|]; [|done]. destruct (List.find _ _) as [r|] eqn:Ef.
  - inv_tx. exists r. apply find_elem in Ef as [Hin Ht]. unfold same_token in Ht. bool_to_prop.
    match goal with H : load_operation _ _ = Ok _ |- _ => destruct (load_operation_loaded _ _ _ H) as (r' & Hr' & L) end.
    split; [done|]. split; [by apply String.eqb_eq|]. split; [by apply String.eqb_eq|]. split; [done|].
    destruct (find_row _ _ _ Hr') as [_ <-]. apply L.
  - assert (∀ r ts db0, stored r ts db0 o db' → or_actor r = actor → or_request_token r = so_request_token request →
              or_request r = request →
              ∃ r, r ∈ operations db' ∧ or_actor r = actor ∧ or_request_token r = so_request_token request
                ∧ or_request r = request ∧ op_operation_id o = uuid_to_string (or_operation_id r)) as Hst.
    { intros r ts db0 [Eo _ _ _ Hl] Ha Ht Hr. exists r. split; [rewrite Eo; apply elem_of_app; right; by left|].
      do 3 (split; [done|]). destruct (load_operation_loaded _ _ _ Hl) as (r' & Hr' & L).
      destruct (find_row _ _ _ Hr') as [_ <-]. apply L. }
    apply tx_bind_ok in H as (o' & db2 & H & H0). inv_tx. unfold submit_new in H.
    do 4 (apply tx_bind_ok in H as (? & ? & _ & H)). destruct (_ && _).
    + apply submit_no_effect_stored in H as [digest H]. by eapply Hst.
    + apply tx_bind_ok in H as (? & ? & _ & H). apply tx_bind_ok in H as (? & ? & _ & H).
      apply store_operation_stored in H. by eapply Hst.
Qed.

(** The row of an operation in a later state. *)
Lemma later_row_of db db' r :
  node_reachable db → rtc node_step db db' → r ∈ operations db →
  ∃ r', r' ∈ operations db' ∧ submitted r' = submitted r.
Proof.
  intros Hre Hs Hr. pose proof (reachable_ok _ Hre) as Hdb. destruct (node_steps_moves _ _ Hs Hdb) as [_ Hm].
  specialize (Hm (or_operation_id r)). pose proof (row_view _ _ Hdb Hr) as Hv.
  destruct (op_view (or_operation_id r) db) as [o ts]. cbn in Hv. subst o.
  destruct (op_moves_later _ _ _ Hm) as (r' & ts' & Hv & Hl). unfold op_view in Hv. simplify_eq.
  exists r'. split; [by eapply find_row|apply Hl].
Qed.

Lemma token_row db r actor token :
  db_ok db → r ∈ operations db → or_actor r = actor → or_request_token r = token →
  List.find (same_token actor token) (operations db) = Some r.
Proof.
  intros [Ho _ _] Hr Ha Ht. unfold operations_ok, operations_unique in Ho. bool_to_prop.
  assert (same_token actor token r = true) as Hs by (unfold same_token; by rewrite Ha, Ht, !String.eqb_refl).
  destruct (List.find (same_token actor token) (operations db)) as [r'|] eqn:Ef.
  - apply find_elem in Ef as [Hr' Hs']. f_equal. unfold same_token in Hs'. bool_to_prop.
    eapply (NoDup_fmap_inj (λ r, (or_actor r, or_request_token r)) (operations db)); [done..|].
    f_equal; (etrans; [by apply String.eqb_eq|done]).
  - pose proof (find_none _ _ Ef r Hr). congruence.
Qed.

Lemma ensured_node node_id db : ∃ node, find_node node_id (ensure_node node_id db) = Some node.
Proof.
  unfold ensure_node. destruct (find_node node_id db) as [node|] eqn:E; cbn; [by exists node|].
  unfold find_node in *. cbn. rewrite find_app, E. cbn. rewrite String.eqb_refl. by eexists.
Qed.

Lemma same_core_load id db db' : same_core db db' → load_operation id db' = load_operation id db.
Proof. intros (Eo & Et & _). unfold load_operation, load_row, find_operation_row. by rewrite Eo, Et. Qed.

(** A submission whose token is taken. *)
Lemma submit_taken now id actor request db r :
  forallb pg_text [so_node_id request; actor; so_request_token request] = true →
  List.find (same_token actor (so_request_token request)) (operations db) = Some r →
  submit_tx now id actor request db
  = (if bool_decide (or_request r = request)
     then let? o := load_operation (or_operation_id r) db in Ok (Ok o, ensure_node (so_node_id request) db)
     else Err (already_exists "request_token was already used by this actor with different operation content")).
Proof.
  intros Ht Hf. unfold submit_tx. rewrite (tx_bind_runs _ _ _ () db) by (unfold bind_texts; by rewrite Ht).
  rewrite (tx_bind_runs _ _ _ () (ensure_node (so_node_id request) db)) by done.
  rewrite (tx_bind_runs get _ _ _ _) by reflexivity. destruct (ensured_node (so_node_id request) db) as [node ->].
  pose proof (ensure_node_core (so_node_id request) db) as Hcore. rewrite (proj1 Hcore), Hf.
  case_bool_decide; [|done]. rewrite (tx_bind_runs _ _ _ () (ensure_node (so_node_id request) db)) by done.
  unfold mbind, tx_bind, lift. rewrite (same_core_load _ _ _ Hcore). by destruct (load_operation _ db).
Qed.

Lemma submit_texts now id actor request db a :
  submit_tx now id actor request db = Ok a → forallb pg_text [so_node_id request; actor; so_request_token request] = true.
Proof. destruct a. unfold submit_tx. intros H. by apply tx_bind_ok in H as (? & ? & [Hg _]%tx_guard_ok & _). Qed.

(** C21. A request token is used once. Whatever happens after a submission was accepted, the same actor's
    next submission under that token adds no operation and no target: with the same content it
    is answered with the operation that the token created, with other content it is refused. *)
Theorem submissions_are_idempotent now id now' id' actor request request' db o db1 db2 :
  node_reachable db → uuid_in_range id → submit now id actor request db = (Ok o, db1) → rtc node_step db1 db2 →
  so_request_token request' = so_request_token request →
  let again := submit now' id' actor request' db2 in
  operations again.2 = operations db2 ∧ targets again.2 = targets db2
  ∧ (request' = request → ∃ o', again.1 = Ok o' ∧ op_operation_id o' = op_operation_id o)
  ∧ (request' ≠ request → is_ok again.1 = false).
Proof.
  intros Hre Hid Hsub Hs Htok again.
  assert (node_reachable db1) as Hre1.
  { eapply reachable_steps; [exact Hre|]. apply rtc_once.
    replace db1 with (perform (CSubmit now id actor request) db) by (cbn; by rewrite Hsub). by constructor. }
  unfold submit, transact in Hsub. destruct (submit_tx _ _ _ _ db) as [[res db1']|e] eqn:Htx; [|done]. simplify_eq.
  destruct (submit_row _ _ _ _ _ _ _ Htx) as (r & Hr & Ha & Ht & Hrq & Eo).
  destruct (later_row_of _ _ _ Hre1 Hs Hr) as (r2 & Hr2 & Hsub). unfold submitted in Hsub. simplify_eq.
  pose proof (reachable_steps _ _ Hre1 Hs) as Hre2. pose proof (reachable_ok _ Hre2) as Hdb2.
  pose proof (token_row db2 r2 (or_actor r) (so_request_token request') Hdb2 Hr2 ltac:(congruence) ltac:(congruence)) as Hf.
  unfold again, submit, transact. destruct (forallb pg_text [so_node_id request'; or_actor r; so_request_token request']) eqn:Hg.
  - rewrite (submit_taken _ _ _ _ _ _ Hg Hf). replace (or_request r2) with (or_request r) by congruence.
    case_bool_decide as Hc; [|by split_and!; try done; intros ->].
    destruct (operation_loads db2 (or_operation_id r2) r2 Hre2 (row_found _ _ Hdb2 Hr2)) as [o' Hl]. rewrite Hl. cbn.
    destruct (ensure_node_core (so_node_id request') db2) as (Eop & Etg & _).
    split; [done|]. split; [done|]. split; [|by intros []]. intros _. exists o'. split; [done|].
    destruct (load_operation_loaded _ _ _ Hl) as (r3 & Hr3 & L). destruct (find_row _ _ _ Hr3) as [_ E3].
    rewrite (ld_id _ _ _ L), E3. congruence.
  - destruct (submit_tx now' id' _ request' db2) as [a|e] eqn:Htx2.
    { apply submit_texts in Htx2. congruence. }
    split_and!; try done. intros ->. apply submit_texts in Htx. congruence.
Qed.

End submissions.

(** ** Availability *)

Section availability.
Context `{CL : CollationLib, UL : UuidLib, SH : Sha256Lib}.
Context (snapshot : ClusterStatusSnapshot) (node : string).

Definition serves (e : string * (Z * string)) : bool :=
  match slot_routes_healthy snapshot node e.1 e.2.1 e.2.2 with Ok b => b | Err _ => false end.

(** The slots besides [slot] that serve. *)
Definition other_healthy (slot : string) (l : list (string * (Z * string))) : list (string * (Z * string)) :=
  List.filter (λ e, negb (String.eqb e.1 slot) && serves e) l.

Lemma count_healthy_exact slot l healthy selected :
  NoDup l.*1 → count_healthy snapshot node slot l = Ok (healthy, selected) →
  (healthy - Z.b2z selected)%Z = Z.of_nat (length (other_healthy slot l))
  ∧ (slot ∉ l.*1 → selected = false).
Proof using Type.
  revert healthy selected. induction l as [|[c [rev digest]] l IH]; intros healthy selected Hnd Hc; cbn in Hc.
  - simplify_eq. done.
  - cbn in Hnd. apply NoDup_cons in Hnd as [Hni Hnd]. inv_ok Hc. simplify_eq.
    match goal with H : count_healthy _ _ _ _ = Ok _ |- _ => destruct (IH _ _ Hnd H) as [E Hs] end.
    unfold other_healthy in *. cbn [List.filter fst]. unfold serves at 1. cbn [fst snd].
    match goal with H : slot_routes_healthy _ _ _ _ _ = Ok _ |- _ => rewrite H end.
    destruct (String.eqb_spec c slot) as [->|Hne]; cbn [negb andb].
    + rewrite (Hs Hni) in E. split; [|intros Hn; destruct Hn; left]. cbn in E. lia.
    + split; [|intros Hn; apply Hs; intros Hin; apply Hn; by right]. destruct x; cbn [Z.b2z length]; cbn in E |- *; lia.
Qed.

Lemma other_healthy_perm slot l k :
  l ≡ₚ k → length (other_healthy slot l) = length (other_healthy slot k).
Proof using Type. intros H. unfold other_healthy. rewrite !list_filter_bool. by rewrite H. Qed.

End availability.

(** C26. A slot may be stopped exactly when, of the slots that the node should serve, another one
    serves or downtime is allowed, and those that would not serve are no more than
    [max_unavailable]. *)
Theorem stop_availability_exact `{SH : Sha256Lib} snapshot operation slot policy slots b :
  operation_slots operation = Ok slots → stop_preserves_availability snapshot operation slot policy = Ok b →
  let desired := foldl override_slot (committed_slots snapshot (op_node_id operation)) slots in
  let others := other_healthy snapshot (op_node_id operation) slot (map_to_list desired) in
  b = true ↔ (rp_allow_downtime policy = true ∨ others ≠ [])
             ∧ (Z.of_nat (size desired) - Z.of_nat (length others) ≤ rp_max_unavailable policy)%Z.
Proof.
  intros Hs H desired others. unfold stop_preserves_availability in H. rewrite Hs in H. cbn [rbind] in H. inv_ok H.
  simplify_eq. match goal with H : count_healthy _ _ _ _ = Ok _ |- _ => rename H into Hc end.
  apply count_healthy_exact in Hc as [E _].
  2:{ rewrite (sort_by_perm _ (map_to_list _)). apply NoDup_fst_map_to_list. }
  fold desired in E. rewrite (other_healthy_perm _ _ _ _ (map_to_list desired)) in E by apply sort_by_perm.
  fold others in E. rewrite E, andb_true_iff, orb_true_iff, Z.ltb_lt, Z.leb_le.
  assert ((0 < Z.of_nat (length others))%Z ↔ others ≠ []) as ->.
  { destruct others; cbn; split; [lia|done|done|lia]. }
  done.
Qed.
