(* ===== verification/NodeDeploy.v ===== *)
(** * Deployments of a node: allocation, finalization, abandonment and rollback
      (wr-manager/src/db.rs, service.rs)

    A revision is allocated under an attempt token and staged as the node's target; an
    operation then takes it up ([NodeSubmit]). The rows of [wr_node_slot_owners] that an
    allocation creates belong to registrations and are not kept. *)

From S2P Require Import Prelude RustStr Utf8 Lists Orders Externals Grpc Identity Http Naming Snapshot Lifecycle Deployment Rollout RolloutApi Schedule Operations NodeStatus NodeTables NodeStore NodeSubmit.
From stdpp Require Import pretty.

Record BeginDeploymentRequest : Type := mkBeginDeployment {
  bd_node_id : string;
  bd_attempt_token : string;
  bd_bundle_digest : string;
  bd_inventory : option DeploymentInventoryV1;
}.

Record FinalizeDeploymentRequest : Type := mkFinalizeDeployment {
  fd_node_id : string;
  fd_attempt_token : string;
  fd_revision : Z;
  fd_bundle_digest : string;
  fd_resolved_release_digest : string;
}.

#[global] Instance ModuleIdentity_eq_dec : EqDecision ModuleIdentity.
Proof. solve_decision. Defined.
#[global] Instance ExpectedModule_eq_dec : EqDecision ExpectedModule.
Proof. solve_decision. Defined.
#[global] Instance SecretRequest_eq_dec : EqDecision SecretRequest.
Proof. solve_decision. Defined.
#[global] Instance ExpectedEngine_eq_dec : EqDecision ExpectedEngine.
Proof. solve_decision. Defined.
#[global] Instance DeploymentInventoryV1_eq_dec : EqDecision DeploymentInventoryV1.
Proof. solve_decision. Defined.

(** The text of the contract's errors abridged. *)
Definition contract_error {A} (r : result DeployError A) : result Status A :=
  match r with Ok a => Ok a | Err _ => Err (invalid_argument "deployment contract violated") end.

Definition deployment_revision (value : Z) : result Status Z :=
  match i64_try_from value with
  | Some v => Ok v
  | None => Err (invalid_argument "deployment revision is too large")
  end.

Definition is_attempt (node_id token : string) (d : DeploymentRow) : bool :=
  String.eqb (dp_node_id d) node_id && String.eqb (dp_attempt_token d) token.

(** [SELECT COALESCE(MAX(revision), 0) + 1]. *)
Definition next_revision (node_id : string) (db : NodeDb) : Z :=
  (foldr Z.max 0 (dp_revision <$> List.filter (λ d, String.eqb (dp_node_id d) node_id) (deployments db)) + 1)%Z.

Definition staged_conflict {A} (node_id : string) (target : Z) : Tx A :=
  fail (failed_precondition
          ("node '" +:+ node_id +:+ "' already has staged target revision " +:+ pretty target)).

Definition stage_node (node_id : string) (target : option Z) : NodeDb → NodeDb :=
  λ db, set_nodes
    (update_where (is_node node_id) (λ n, mkNodeRow (nr_node_id n) (nr_current_revision n) target) (nodes db)) db.

(** [UPDATE wr_nodes SET target_revision = NULL .. AND target_revision = $2]. *)
Definition unstage_node (node_id : string) (revision : Z) : NodeDb → NodeDb :=
  λ db, set_nodes
    (update_where (λ n, is_node node_id n && bool_decide (nr_target_revision n = Some revision))
       (λ n, mkNodeRow (nr_node_id n) (nr_current_revision n) None) (nodes db)) db.

Section deploy.
Context `{CL : CollationLib, UL : UuidLib, SH : Sha256Lib, SV : SemverLib, HL : HttpLib}.
Context (uri_to_string : Uri → string) (inventory_encoded_len : DeploymentInventoryV1 → Z).

Abbreviation canonicalize := (canonicalize_inventory uri_to_string inventory_encoded_len).
Abbreviation digest_of := (revision_digest uri_to_string inventory_encoded_len).

(** The deployment that a transaction answers with. *)
Definition answer_deployment (node_id : string) (revision : Z) : Tx (result Status DeploymentRecord) :=
  db ← get;
  match find_deployment node_id revision db with
  | Some d => record ← lift (deployment_row d); mret (Ok record)
  | None => fail database_error
  end.

(** The insertion of a pending deployment, with its constraints. *)
Definition insert_deployment (node_id : string) (revision : Z) (token bundle_digest : string)
    (inventory : DeploymentInventoryV1) (digest : string) (source_revision : Z) (actor : string) : Tx () :=
  bind_texts [token; bundle_digest; actor] ;;
  guard_tx (negb (str_is_empty actor) && (revision <=? 9223372036854775807)%Z) database_error ;;
  modify (λ db, set_deployments
    (deployments db ++ [mkDeploymentRow node_id revision token bundle_digest inventory "pending" None None None
                          "" None actor digest source_revision]) db).

Definition required_inventory (inventory : option DeploymentInventoryV1) : result Status DeploymentInventoryV1 :=
  match inventory with
  | Some inventory => contract_error (canonicalize inventory)
  | None => Err (invalid_argument "deployment inventory is required")
  end.

Definition begin_deployment_tx (now : Z) (request : BeginDeploymentRequest) (actor : string) :
    Tx (result Status DeploymentRecord) :=
  inventory ← lift (required_inventory (bd_inventory request));
  let node_id := bd_node_id request in
  bind_texts [node_id] ;;
  modify (ensure_node node_id) ;;
  bind_texts [bd_attempt_token request] ;;
  db ← get;
  match find_node node_id db with
  | None => fail database_error
  | Some node =>
      match List.find (is_attempt node_id (bd_attempt_token request)) (deployments db) with
      | Some d =>
          existing ← lift (deployment_row d);
          guard_tx (String.eqb (dp_allocated_by d) actor && String.eqb (dp_bundle_digest d) (bd_bundle_digest request)
                    && bool_decide (dp_inventory d = inventory) && (dp_source_revision d =? 0)%Z)
            (already_exists "attempt_token was already used with different deployment content") ;;
          mret (Ok existing)
      | None =>
          match nr_target_revision node with
          | Some target => staged_conflict node_id target
          | None =>
              let revision := next_revision node_id db in
              modify (stage_node node_id (Some revision)) ;;
              digest ← lift (contract_error (digest_of node_id revision (bd_bundle_digest request) inventory));
              insert_deployment node_id revision (bd_attempt_token request) (bd_bundle_digest request) inventory
                digest 0 actor ;;
              fence_cleanup_authority now node_id "DEPLOYMENT_ALLOCATED" ;;
              answer_deployment node_id revision
          end
      end
  end.

Definition begin_deployment (now : Z) (request : BeginDeploymentRequest) (actor : string) :
    NodeDb → result Status DeploymentRecord * NodeDb :=
  transact (begin_deployment_tx now request actor).

Definition finalized (now : Z) (resolved : string) (d : DeploymentRow) : DeploymentRow :=
  mkDeploymentRow (dp_node_id d) (dp_revision d) (dp_attempt_token d) (dp_bundle_digest d) (dp_inventory d)
    (dp_state d) (dp_allocation_actor d) (dp_abandoned_at d) (dp_operation_id d) resolved (Some now)
    (dp_allocated_by d) (dp_revision_digest d) (dp_source_revision d).

Definition finalize_deployment_tx (now : Z) (request : FinalizeDeploymentRequest) (actor : string) :
    Tx (result Status DeploymentRecord) :=
  revision ← lift (deployment_revision (fd_revision request));
  let node_id := fd_node_id request in
  bind_texts [node_id; fd_attempt_token request] ;;
  let this d := is_attempt node_id (fd_attempt_token request) d && (dp_revision d =? revision)%Z in
  db ← get;
  match List.find this (deployments db) with
  | None => fail database_error
  | Some d =>
      guard_tx (String.eqb (dp_allocated_by d) actor)
        (permission_denied "deployment allocation belongs to a different authenticated actor") ;;
      guard_tx (String.eqb (dp_bundle_digest d) (fd_bundle_digest request))
        (already_exists "finalization source identity conflicts with the allocated deployment") ;;
      guard_tx (is_none (dp_abandoned_at d)) (failed_precondition "staged allocation was abandoned") ;;
      let existing := dp_resolved_release_digest d in
      guard_tx (str_is_empty existing || String.eqb existing (fd_resolved_release_digest request))
        (already_exists "deployment was already finalized with a different resolved release digest") ;;
      (if str_is_empty existing then
         guard_tx (is_none (dp_operation_id d))
           (failed_precondition "submitted deployment cannot be finalized") ;;
         bind_texts [fd_resolved_release_digest request] ;;
         guard_tx (negb (str_is_empty (fd_resolved_release_digest request))) database_error ;;
         modify (λ db, set_deployments
           (update_where this (finalized now (fd_resolved_release_digest request)) (deployments db)) db) ;;
         fence_cleanup_authority now node_id "DEPLOYMENT_FINALIZED" ;; mret ()
       else mret ()) ;;
      answer_deployment node_id revision
  end.

Definition finalize_deployment (now : Z) (request : FinalizeDeploymentRequest) (actor : string) :
    NodeDb → result Status DeploymentRecord * NodeDb :=
  transact (finalize_deployment_tx now request actor).

Definition set_dp_state (state : string) (abandoned_at : option Z) (d : DeploymentRow) : DeploymentRow :=
  mkDeploymentRow (dp_node_id d) (dp_revision d) (dp_attempt_token d) (dp_bundle_digest d) (dp_inventory d)
    state (dp_allocation_actor d) abandoned_at (dp_operation_id d) (dp_resolved_release_digest d)
    (dp_finalized_at d) (dp_allocated_by d) (dp_revision_digest d) (dp_source_revision d).

(** An engine registered for the revision, or authority over a slot. *)
Definition has_effect (node_id : string) (revision : Z) (db : NodeDb) : bool :=
  existsb (λ e, bool_decide (en_deployment_node_id e = Some node_id)
                && bool_decide (en_deployment_revision e = Some revision)) (engines db)
  || existsb (λ a, String.eqb (au_node_id a) node_id && (au_revision a =? revision)%Z && au_authoritative a)
       (authorities db).

Definition abandon_deployment_tx (now : Z) (node_id token actor : string) : Tx (result Status DeploymentRecord) :=
  bind_texts [node_id; token] ;;
  db ← get;
  match List.find (is_attempt node_id token) (deployments db) with
  | None => fail (not_found "staged allocation not found")
  | Some d =>
      guard_tx (String.eqb (dp_allocated_by d) actor)
        (permission_denied "deployment allocation belongs to a different authenticated actor") ;;
      if negb (is_none (dp_abandoned_at d)) then answer_deployment node_id (dp_revision d)
      else
        guard_tx (is_none (dp_operation_id d))
          (failed_precondition "a submitted allocation must be cancelled through its operation") ;;
        guard_tx (negb (has_effect node_id (dp_revision d) db))
          (failed_precondition "staged allocation has activation or authority evidence and cannot be abandoned") ;;
        modify (λ db, set_deployments
          (update_where (is_deployment node_id (dp_revision d)) (set_dp_state "failed" (Some now)) (deployments db)) db) ;;
        modify (unstage_node node_id (dp_revision d)) ;;
        fence_cleanup_authority now node_id "DEPLOYMENT_ABANDONED" ;;
        answer_deployment node_id (dp_revision d)
  end.

Definition abandon_deployment (now : Z) (node_id token actor : string) :
    NodeDb → result Status DeploymentRecord * NodeDb :=
  transact (abandon_deployment_tx now node_id token actor).

(** The successful deployment that a rollback returns to: the given one, or the last before
    the current revision. *)
Definition rollback_source (node_id : string) (requested current : Z) (db : NodeDb) : option DeploymentRow :=
  let prior d := String.eqb (dp_node_id d) node_id && String.eqb (dp_state d) "succeeded"
                 && (dp_revision d <? current)%Z in
  if (requested =? 0)%Z then
    head (sort_by (λ a b, Z.compare (dp_revision b) (dp_revision a)) (List.filter prior (deployments db)))
  else List.find (λ d, prior d && (dp_revision d =? requested)%Z) (deployments db).

Definition begin_rollback_tx (node_id : string) (to_revision : Z) (token actor : string) :
    Tx (result Status DeploymentRecord) :=
  bind_texts [node_id] ;;
  db ← get;
  match find_node node_id db with
  | None => fail (not_found ("node '" +:+ node_id +:+ "' has no deployment history"))
  | Some node =>
      bind_texts [token] ;;
      match List.find (is_attempt node_id token) (deployments db) with
      | Some d =>
          existing ← lift (deployment_row d);
          guard_tx (String.eqb (dp_allocated_by d) actor && negb (dp_source_revision d =? 0)%Z
                    && ((to_revision =? 0)%Z || (dp_source_revision d =? to_revision)%Z))
            (already_exists "attempt_token was already used for different deployment content") ;;
          mret (Ok existing)
      | None =>
          match nr_target_revision node with
          | Some target => staged_conflict node_id target
          | None =>
              requested ← (if (to_revision =? 0)%Z then mret 0%Z
                           else match i64_try_from to_revision with
                                | Some v => mret v
                                | None => fail (invalid_argument "to_revision is too large")
                                end);
              match rollback_source node_id requested (nr_current_revision node) db with
              | None => fail (not_found "requested prior successful deployment snapshot not found")
              | Some d =>
                  selected ← lift (deployment_row d);
                  let revision := next_revision node_id db in
                  modify (stage_node node_id (Some revision)) ;;
                  digest ← match digest_of node_id revision (dr_bundle_digest selected) (dp_inventory d) with
                           | Ok digest => mret digest
                           | Err _ => fail (internal "deployment contract violated")
                           end;
                  insert_deployment node_id revision token (dr_bundle_digest selected) (dp_inventory d) digest
                    (dp_revision d) actor ;;
                  answer_deployment node_id revision
              end
          end
      end
  end.

Definition begin_rollback (node_id : string) (to_revision : Z) (token actor : string) :
    NodeDb → result Status DeploymentRecord * NodeDb :=
  transact (begin_rollback_tx node_id to_revision token actor).

Definition complete_deployment_tx (node_id : string) (revision : Z) (succeeded : bool) :
    Tx (result Status DeploymentRecord) :=
  revision ← lift (deployment_revision revision);
  bind_texts [node_id] ;;
  db ← get;
  let open d := is_deployment node_id revision d && one_of_texts (dp_state d) ["pending"; "active"] in
  guard_tx (existsb open (deployments db))
    (failed_precondition ("deployment " +:+ node_id +:+ "/" +:+ pretty revision +:+ " is not pending or active")) ;;
  modify (λ db, set_deployments
    (update_where open (λ d, set_dp_state (if succeeded then "succeeded" else "failed") (dp_abandoned_at d) d)
       (deployments db)) db) ;;
  modify (λ db, set_nodes
    (update_where (λ n, is_node node_id n && bool_decide (nr_target_revision n = Some revision))
       (λ n, mkNodeRow (nr_node_id n) (if succeeded then revision else nr_current_revision n) None) (nodes db)) db) ;;
  answer_deployment node_id revision.

Definition complete_deployment (node_id : string) (revision : Z) (succeeded : bool) :
    NodeDb → result Status DeploymentRecord * NodeDb :=
  transact (complete_deployment_tx node_id revision succeeded).

(** ** Requests of operators *)

Definition parse_node_id (node_id : string) : result Status () :=
  match name_parse TNamespace node_id with
  | Ok _ => Ok ()
  | Err _ => Err (invalid_argument "node_id must be a valid stable identity")
  end.

Definition validate_deployment_request (request : BeginDeploymentRequest) : result Status () :=
  let? _ := parse_node_id (bd_node_id request) in
  ensure? valid_deployment_token (bd_attempt_token request)
    else invalid_argument "attempt_token must be 1..=128 URL-safe characters" in
  ensure? valid_bundle_digest (bd_bundle_digest request)
    else invalid_argument "bundle_digest must be sha256:<lowercase hex>" in
  let? _ := required_inventory (bd_inventory request) in
  Ok ().

Definition canonicalize_deployment_request (request : BeginDeploymentRequest) :
    result Status BeginDeploymentRequest :=
  let? inventory := required_inventory (bd_inventory request) in
  Ok (mkBeginDeployment (bd_node_id request) (bd_attempt_token request) (bd_bundle_digest request) (Some inventory)).

(** The request with its policy filled in. *)
Definition validate_submission (request : SubmitOperationRequest) : result Status SubmitOperationRequest :=
  let? _ := parse_node_id (so_node_id request) in
  ensure? valid_deployment_token (so_request_token request)
    else invalid_argument "request_token must be 1..=128 URL-safe characters" in
  let action := default ActUnspecified (action_try_from (so_action request)) in
  let? _ :=
    match action with
    | ActDeployment | ActRollback =>
        ensure? negb (so_target_revision request =? 0)%Z && valid_bundle_digest (so_bundle_digest request)
                && valid_bundle_digest (so_resolved_release_digest request)
          else invalid_argument
                 "deployment operations require target_revision, source bundle digest, and resolved release digest" in
        ensure? str_is_empty (so_engine_slot request)
          else invalid_argument "deployment operations must not specify engine_slot" in
        Ok ()
    | ActRestart =>
        ensure? valid_deployment_token (so_engine_slot request)
          else invalid_argument "restart requires one URL-safe stable engine_slot" in
        ensure? (so_target_revision request =? 0)%Z && str_is_empty (so_bundle_digest request)
                && str_is_empty (so_resolved_release_digest request)
          else invalid_argument "restart must not specify target deployment identity" in
        Ok ()
    | ActUnspecified => Err (invalid_argument "operation action is required")
    end in
  let policy := default (default_policy action) (so_policy request) in
  ensure? negb (rp_max_unavailable policy =? 0)%Z && negb (rp_deadline_seconds policy =? 0)%Z
    else invalid_argument "policy requires positive max_unavailable and deadline_seconds" in
  Ok (mkSubmit (so_node_id request) (so_request_token request) (so_action request) (so_target_revision request)
        (so_bundle_digest request) (Some policy) (so_resolved_release_digest request) (so_engine_slot request)).

End deploy.
