(* ===== verification/NodeCleanup.v ===== *)
(** * Release cleanup of a node (wr-manager/src/operations.rs)

    Which releases a node must keep, the authority to delete others as the manager
    materializes it, and the agent's claims, renewals and results. Protobuf encodings are a
    parameter; what is stored encoded is kept as its value. *)

From S2P Require Import Prelude RustStr Utf8 Lists Orders Externals Grpc Lifecycle Rollout Schedule Operations NodeStatus NodeTables NodeStore NodeSubmit NodeRun NodeAgent.

(** [encode_to_vec] of the two messages. A message starts with the tag of its first field
    unless that field has its default value. *)
Class CleanupCodec : Type := {
  release_encode : Release → string;
  authority_encode : CleanupAuthority → string;
  release_encode_tag r :
    (0 < rel_revision r)%Z → ∃ rest, release_encode r = String (ascii_of_nat 8) rest;
}.

(** ** What must be kept *)

(** Iteration over a [BTreeSet] and a [BTreeMap]. *)
Definition set_entries (s : gset Z) : list Z := sort_by Z.compare (elements s).

Definition map_entries {A} (m : gmap Z A) : list (Z * A) :=
  sort_by (λ a b, Z.compare a.1 b.1) (map_to_list m).

Record CleanupPolicySnapshot : Type := mkCleanupPolicy {
  cp_fingerprint : string;
  cp_known : list Release;
  cp_delete : list Release;
}.

(** The deployments of a node, the last revision first. *)
Definition node_deployments (node_id : string) (db : NodeDb) : list DeploymentRow :=
  sort_by (λ a b, Z.compare (dp_revision b) (dp_revision a))
    (List.filter (λ d, String.eqb (dp_node_id d) node_id) (deployments db)).

Definition known_releases (node_id : string) (db : NodeDb) : gmap Z (string * string) :=
  foldr delete
    (list_to_map ((λ d, (dp_revision d, (dp_bundle_digest d, dp_resolved_release_digest d)))
                  <$> node_deployments node_id db))
    (rel_revision ∘ de_release <$> List.filter (λ e, String.eqb (de_node_id e) node_id) (deletions (cleanup db))).

(** The last successful deployments but the current one, as many as the policy retains. *)
Definition retained_revisions (retention : Z) (current : Z) (known : gmap Z (string * string)) (rows : list DeploymentRow) :
    list Z :=
  dp_revision <$>
    take (Z.to_nat retention)
      (List.filter (λ d, String.eqb (dp_state d) "succeeded" && negb (dp_revision d =? current)%Z
                         && bool_decide (is_Some (known !! dp_revision d))) rows).

Definition staged_revisions (known : gmap Z (string * string)) (rows : list DeploymentRow) : list Z :=
  dp_revision <$>
    List.filter (λ d, one_of_texts (dp_state d) ["pending"; "active"] && is_none (dp_abandoned_at d)
                      && bool_decide (is_Some (known !! dp_revision d))) rows.

Definition operation_revisions (node_id : string) (db : NodeDb) : list Z :=
  List.filter (λ r, 0 <? r)%Z
    (concat ((λ r, [or_source_revision r; rel_revision (or_target r)])
             <$> List.filter (λ r, String.eqb (or_node_id r) node_id && active_state (or_state r)) (operations db))).

Definition observed_revisions (node_id : string) (db : NodeDb) : list Z :=
  rel_revision ∘ ob_observed <$>
    List.filter (λ o, String.eqb (ob_node_id o) node_id && (0 <? rel_revision (ob_observed o))%Z) (observations db).

Definition authoritative_revisions (node_id : string) (db : NodeDb) : list Z :=
  au_revision <$> List.filter (λ a, String.eqb (au_node_id a) node_id && au_authoritative a) (authorities db).

Definition protected_revisions (node_id : string) (retention : Z) (node : NodeRow) (db : NodeDb) : gset Z :=
  let known := known_releases node_id db in
  let rows := node_deployments node_id db in
  let current := nr_current_revision node in
  list_to_set
    ((if (0 <? current)%Z then [current] else [])
     ++ option_list (nr_target_revision node)
     ++ retained_revisions retention current known rows
     ++ operation_revisions node_id db
     ++ staged_revisions known rows
     ++ observed_revisions node_id db
     ++ authoritative_revisions node_id db).

Definition release_of (entry : Z * (string * string)) : Release := mkRelease entry.1 entry.2.1 entry.2.2.

Definition str_concat (l : list string) : string := foldr String.append "" l.

Definition lease_expires_by (clock : Z) (c : CleanupRow) : bool :=
  match le_expires_at (cl_lease c) with Some t => (t <=? clock)%Z | None => true end.

Section cleanup.
Context `{CL : CollationLib, UL : UuidLib, SH : Sha256Lib, CC : CleanupCodec}.

Definition fingerprint_input (retention : Z) (protected : gset Z) (known : list Release) : string :=
  be_bytes 8 retention
  +:+ str_concat (be_bytes 8 <$> set_entries protected) +:+ str_concat (release_encode <$> known).

Definition cleanup_policy (node_id : string) (retention : Z) (node : NodeRow) (db : NodeDb) : CleanupPolicySnapshot :=
  let protected := protected_revisions node_id retention node db in
  let known := release_of <$> map_entries (known_releases node_id db) in
  mkCleanupPolicy ("sha256:" +:+ sha256_hex (fingerprint_input retention protected known)) known
    (List.filter (λ r, negb (bool_decide (rel_revision r ∈ protected))) known).

Definition manager_cleanup_policy (node_id : string) (db : NodeDb) : result Status CleanupPolicySnapshot :=
  match find_policy node_id db with
  | None => Err (failed_precondition "node-agent retention policy is missing")
  | Some policy =>
      match find_node node_id db with
      | None => Err database_error
      | Some node => Ok (cleanup_policy node_id (ap_retention_count policy) node db)
      end
  end.

(** ** Rows *)

Definition CLEANUP_STATES : list string := ["clean"; "needs_reconcile"; "pending"; "claimed"; "paused"].

Definition cleanup_row_ok (c : CleanupRow) : bool :=
  let claimed := String.eqb (cl_state c) "claimed" in
  (0 <=? cl_candidate_count c)%Z
  && Bool.eqb claimed (negb (is_none (le_agent_instance_id (cl_lease c))))
  && Bool.eqb claimed (negb (is_none (le_claimed_by (cl_lease c))))
  && Bool.eqb claimed (negb (is_none (cl_claim_instance c)))
  && Bool.eqb claimed (negb (is_none (le_expires_at (cl_lease c))))
  && Bool.eqb (is_none (cl_authority c)) (str_is_empty (cl_payload_digest c))
  && (negb (one_of_texts (cl_state c) ["pending"; "claimed"]) || negb (is_none (cl_authority c)))
  && (0 <? cl_generation c)%Z && (0 <=? cl_lease_epoch c)%Z && one_of_texts (cl_state c) CLEANUP_STATES.

Definition set_cleanups (l : list CleanupRow) (t : CleanupTables) : CleanupTables :=
  mkCleanupTables l (generations t) (cleanup_events t) (cleanup_receipts t) (deletions t).

Definition set_generations (l : list GenerationRow) (t : CleanupTables) : CleanupTables :=
  mkCleanupTables (cleanups t) l (cleanup_events t) (cleanup_receipts t) (deletions t).

(** The rows that [RETURNING] gives. *)
Definition update_cleanups (p : CleanupRow → bool) (f : CleanupRow → CleanupRow) : Tx (list CleanupRow) :=
  db ← get;
  guard_tx (forallb cleanup_row_ok (update_where p f (cleanups (cleanup db)))) database_error ;;
  alter_cleanup (λ t, set_cleanups (update_where p f (cleanups t)) t) ;;
  mret (f <$> List.filter p (cleanups (cleanup db))).

Definition update_generations (p : GenerationRow → bool) (outcome : string) : Tx () :=
  alter_cleanup (λ t, set_generations (update_where p (set_outcome outcome) (generations t)) t).

Definition new_cleanup (node_id : string) : CleanupRow :=
  mkCleanup node_id 1 "needs_reconcile" "" None "" None 0 no_lease None 0 None None ("", "").

(** [INSERT .. SELECT node_id FROM wr_nodes ON CONFLICT DO NOTHING]. *)
Definition ensure_cleanups (db : NodeDb) : NodeDb :=
  let l := cleanups (cleanup db) in
  set_cleanup
    (set_cleanups
       (l ++ (new_cleanup <$> List.filter (λ n, negb (existsb (is_cleanup_of n) l)) (nr_node_id <$> nodes db)))
       (cleanup db)) db.

Inductive NodeCleanupState : Type := NcClean | NcNeedsReconcile | NcPending | NcClaimed | NcPaused.

Definition cleanup_state (value : string) : result Status NodeCleanupState :=
  if String.eqb value "clean" then Ok NcClean
  else if String.eqb value "needs_reconcile" then Ok NcNeedsReconcile
  else if String.eqb value "pending" then Ok NcPending
  else if String.eqb value "claimed" then Ok NcClaimed
  else if String.eqb value "paused" then Ok NcPaused
  else Err (internal "stored cleanup state is invalid").

Record NodeCleanupSummary : Type := mkCleanupSummary {
  cs_cleanup_node_id : string;
  cs_state : NodeCleanupState;
  cs_generation : Z;
  cs_candidate_count : Z;
  cs_last_reconciled_at : option Z;
  cs_next_action_at : option Z;
  cs_inventory_count : Z;
  cs_diagnostic : string * string;
}.

Definition cleanup_summary_from_row (c : CleanupRow) : result Status NodeCleanupSummary :=
  let? state := cleanup_state (cl_state c) in
  Ok (mkCleanupSummary (cl_node_id c) state (cl_generation c) (cl_candidate_count c) (cl_last_reconciled_at c)
        (cl_next_reconcile_at c) (Z.of_nat (length (default [] (cl_known_inventory c)))) (cl_diagnostic c)).

Definition find_cleanup (node_id : string) (db : NodeDb) : option CleanupRow :=
  List.find (is_cleanup_of node_id) (cleanups (cleanup db)).

Definition get_node_cleanup_status (node_id : string) (db : NodeDb) : result Status NodeCleanupSummary :=
  ensure? negb (str_is_empty node_id) else invalid_argument "node_id is required" in
  ensure? pg_text node_id else database_error in
  match find_cleanup node_id db with
  | Some c => cleanup_summary_from_row c
  | None => Err (not_found "node cleanup state not found")
  end.

Definition get_cleanup_summary_in (node_id : string) : Tx NodeCleanupSummary :=
  db ← get;
  match find_cleanup node_id db with
  | Some c => lift (cleanup_summary_from_row c)
  | None => fail database_error
  end.

Definition retry_node_cleanup_tx (now : Z) (node_id : string) (observed_generation : Z) :
    Tx (result Status NodeCleanupSummary) :=
  generation ← match i64_try_from observed_generation with
               | Some v => mret v
               | None => fail (invalid_argument "observed generation is too large")
               end;
  bind_texts [node_id] ;;
  rows ← update_cleanups
           (λ c, is_cleanup_of node_id c && (cl_generation c =? generation)%Z && String.eqb (cl_state c) "paused")
           (fenced_cleanup now);
  match rows with
  | [] => fail (failed_precondition "cleanup generation changed or is not paused")
  | row :: _ =>
      update_generations (is_generation node_id generation ["materialized"; "paused"]) "superseded" ;;
      summary ← lift (cleanup_summary_from_row row);
      mret (Ok summary)
  end.

Definition retry_node_cleanup (now : Z) (node_id : string) (observed_generation : Z) :
    NodeDb → result Status NodeCleanupSummary * NodeDb :=
  transact (retry_node_cleanup_tx now node_id observed_generation).

(** ** The periodic reconciliation *)

Definition RECONCILE_SECONDS : Z := 30.

Definition reconciled (now : Z) (c : CleanupRow) : CleanupRow :=
  mkCleanup (cl_node_id c) (cl_generation c) (cl_state c) (cl_protection_fingerprint c) (cl_authority c)
    (cl_payload_digest c) (cl_known_inventory c) (cl_candidate_count c) (cl_lease c) (cl_claim_instance c)
    (cl_lease_epoch c) (Some now) (Some (now + from_secs RECONCILE_SECONDS)%Z) (cl_diagnostic c).

Definition set_cl_state (state : string) (diagnostic : string * string) (c : CleanupRow) : CleanupRow :=
  mkCleanup (cl_node_id c) (cl_generation c) state (cl_protection_fingerprint c) (cl_authority c)
    (cl_payload_digest c) (cl_known_inventory c) (cl_candidate_count c) (cl_lease c) (cl_claim_instance c)
    (cl_lease_epoch c) (cl_last_reconciled_at c) (cl_next_reconcile_at c) diagnostic.

Definition superseded_cleanup (c : CleanupRow) : CleanupRow :=
  mkCleanup (cl_node_id c) (cl_generation c + 1) "needs_reconcile" (cl_protection_fingerprint c) None ""
    (cl_known_inventory c) 0 no_lease None (cl_lease_epoch c) (cl_last_reconciled_at c) (cl_next_reconcile_at c)
    (cl_diagnostic c).

Definition clean_cleanup (now : Z) (fingerprint : string) (c : CleanupRow) : CleanupRow :=
  reconciled now
    (mkCleanup (cl_node_id c) (cl_generation c) "clean" fingerprint None "" (cl_known_inventory c) 0 (cl_lease c)
       (cl_claim_instance c) (cl_lease_epoch c) None None ("", "")).

Definition pending_cleanup (now : Z) (fingerprint : string) (authority : CleanupAuthority) (digest : string)
    (c : CleanupRow) : CleanupRow :=
  reconciled now
    (mkCleanup (cl_node_id c) (cl_generation c) "pending" fingerprint (Some authority) digest (cl_known_inventory c)
       (Z.of_nat (length (ca_delete_releases authority))) no_lease None (cl_lease_epoch c) None None ("", "")).

(** [INSERT .. ON CONFLICT (node_id, generation) DO UPDATE]. *)
Definition upsert_generation (g : GenerationRow) (l : list GenerationRow) : list GenerationRow :=
  let same h := String.eqb (cg_node_id h) (cg_node_id g) && (cg_generation h =? cg_generation g)%Z in
  if existsb same l then update_where same (λ _, g) l else l ++ [g].

(** What may be deleted of the inventory that the node last reported. *)
Definition deletable (policy : CleanupPolicySnapshot) (inventory : option (list Release)) : list Release :=
  match inventory with
  | None => []
  | Some inventory => List.filter (λ r, bool_decide (r ∈ cp_delete policy)) inventory
  end.

(** The authority of a generation, from the row as it was read. *)
Definition materialize (now : Z) (policy : CleanupPolicySnapshot) (generation : Z) (row : CleanupRow) : Tx () :=
  let node_id := cl_node_id row in
  let prior := cl_known_inventory row in
  let delete := deletable policy prior in
  if negb (is_none prior) && bool_decide (delete = []) then
    update_cleanups (is_cleanup_of node_id) (clean_cleanup now (cp_fingerprint policy)) ;; mret ()
  else
    let authority := mkCleanupAuthority delete (default [] prior) in
    let digest := "sha256:" +:+ sha256_hex (authority_encode authority) in
    alter_cleanup (λ t, set_generations
      (upsert_generation (mkGeneration node_id generation (cp_fingerprint policy) authority digest prior "materialized")
         (generations t)) t) ;;
    update_cleanups (λ c, is_cleanup_of node_id c && (cl_generation c =? generation)%Z)
      (pending_cleanup now (cp_fingerprint policy) authority digest) ;;
    mret ().

Definition reconcile_cleanup (now clock : Z) (row : CleanupRow) : Tx () :=
  let node_id := cl_node_id row in
  let state := cl_state row in
  db ← get;
  match manager_cleanup_policy node_id db with
  | Err e =>
      bind_texts [st_message e] ;;
      update_cleanups (is_cleanup_of node_id)
        (λ c, reconciled now (set_cl_state "paused" ("POLICY_QUERY_FAILED", st_message e) c)) ;;
      mret ()
  | Ok policy =>
      let fingerprint_changed := negb (String.eqb (cl_protection_fingerprint row) (cp_fingerprint policy)) in
      let lease_expired := String.eqb state "claimed" && lease_expires_by clock row in
      if negb (String.eqb state "needs_reconcile") && (fingerprint_changed || lease_expired) then
        update_cleanups (is_cleanup_of node_id) superseded_cleanup ;;
        update_generations (is_generation node_id (cl_generation row) ["materialized"]) "superseded" ;;
        materialize now policy (cl_generation row + 1) row
      else if one_of_texts state ["pending"; "claimed"] then
        update_cleanups (is_cleanup_of node_id) (reconciled now) ;; mret ()
      else materialize now policy (cl_generation row) row
  end.

Definition due (now : Z) (c : CleanupRow) : bool :=
  String.eqb (cl_state c) "needs_reconcile"
  || negb (String.eqb (cl_state c) "paused")
     && match cl_next_reconcile_at c with None => true | Some t => (t <=? now)%Z end.

(** [ORDER BY last_reconciled_at ASC NULLS FIRST]; ties keep the order of the table. *)
Definition reconciled_cmp (a b : CleanupRow) : comparison :=
  match cl_last_reconciled_at a, cl_last_reconciled_at b with
  | None, None => Eq
  | None, Some _ => Lt
  | Some _, None => Gt
  | Some s, Some t => Z.compare s t
  end.

Fixpoint reconcile_cleanups (now clock : Z) (rows : list CleanupRow) : Tx () :=
  match rows with
  | [] => mret ()
  | row :: rest => reconcile_cleanup now clock row ;; reconcile_cleanups now clock rest
  end.

(** [locked] are the nodes whose rows other transactions hold and [SKIP LOCKED] passes over. The
    batch runs at READ COMMITTED, and its queries may see different commits; here it reads one
    state. *)
Definition reconcile_node_cleanup_batch_tx (now clock : Z) (locked : list string) (batch_size : Z) :
    Tx (result Status Z) :=
  modify ensure_cleanups ;;
  db ← get;
  let rows := take (Z.to_nat batch_size)
                (sort_by reconciled_cmp
                   (List.filter (λ c, due now c && negb (bool_decide (cl_node_id c ∈ locked)))
                      (cleanups (cleanup db)))) in
  reconcile_cleanups now clock rows ;;
  mret (Ok (Z.of_nat (length rows))).

Definition reconcile_node_cleanup_batch (now clock : Z) (locked : list string) (batch_size : Z) :
    NodeDb → result Status Z * NodeDb :=
  transact (reconcile_node_cleanup_batch_tx now clock locked batch_size).

(** ** Claims of agents *)

Definition cleanup_attested (now : Z) (node_id agent_instance_id principal : string) (db : NodeDb) : bool :=
  attested now node_id agent_instance_id principal db.

Record NodeCleanupInstruction : Type := mkCleanupInstruction {
  ci_node_id : string;
  ci_agent_instance_id : string;
  ci_generation : Z;
  ci_lease_epoch : Z;
  ci_claim_instance : string;
  ci_payload_digest : string;
  ci_delete_releases : list Release;
  ci_expected_inventory : list Release;
  ci_deadline : Z;
}.

(** The lease of one activation is live, by the manager's clock. *)
Definition claim_live (clock : Z) (agent_instance_id principal : string) (c : CleanupRow) : bool :=
  String.eqb (cl_state c) "claimed"
  && bool_decide (le_agent_instance_id (cl_lease c) = Some agent_instance_id)
  && bool_decide (le_claimed_by (cl_lease c) = Some principal)
  && match le_expires_at (cl_lease c) with Some t => (clock <? t)%Z | None => false end.

Definition claimed_cleanup (now : Z) (agent_instance_id principal : string) (claim : Uuid) (epoch : Z)
    (c : CleanupRow) : CleanupRow :=
  mkCleanup (cl_node_id c) (cl_generation c) "claimed" (cl_protection_fingerprint c) (cl_authority c)
    (cl_payload_digest c) (cl_known_inventory c) (cl_candidate_count c)
    (mkLease (Some (expire_at now)) (Some principal) (Some agent_instance_id)) (Some claim) epoch
    (cl_last_reconciled_at c) (cl_next_reconcile_at c) (cl_diagnostic c).

(** A claimed row without a claim instance would panic; no such row is stored. *)
Definition claim_node_cleanup_tx (now clock : Z) (fresh_id : Uuid) (node_id agent_instance_id principal : string) :
    Tx (result Status (option NodeCleanupInstruction)) :=
  guard_tx (negb (str_is_empty node_id || str_is_empty agent_instance_id))
    (invalid_argument "node_id and agent_instance_id are required") ;;
  bind_texts [node_id; agent_instance_id; principal] ;;
  db ← get;
  guard_tx (cleanup_attested now node_id agent_instance_id principal db)
    (failed_precondition "fresh authenticated node-agent attestation is required") ;;
  match find_cleanup node_id db with
  | None => mret (Ok None)
  | Some row =>
      if negb (String.eqb (cl_state row) "pending") && negb (claim_live clock agent_instance_id principal row)
      then mret (Ok None)
      else
        policy ← lift (manager_cleanup_policy node_id db);
        if negb (String.eqb (cp_fingerprint policy) (cl_protection_fingerprint row)) then
          fence_cleanup_authority now node_id "CLAIM_POLICY_CHANGED" ;; mret (Ok None)
        else
          authority ← match cl_authority row with
                      | Some authority => mret authority
                      | None => fail (internal "pending cleanup authority is missing")
                      end;
          let held := String.eqb (cl_state row) "claimed" in
          claim ← (if held then match cl_claim_instance row with
                                | Some claim => mret claim
                                | None => fail (internal "claimed cleanup has claim instance")
                                end
                   else mret fresh_id);
          let epoch := if held then cl_lease_epoch row else (cl_lease_epoch row + 1)%Z in
          update_cleanups (is_cleanup_of node_id) (claimed_cleanup now agent_instance_id principal claim epoch) ;;
          mret (Ok (Some (mkCleanupInstruction node_id agent_instance_id (cl_generation row) epoch
                            (uuid_to_string claim) (cl_payload_digest row) (ca_delete_releases authority)
                            (ca_known_inventory authority) (clock + from_secs LEASE_SECONDS)%Z)))
  end.

Definition claim_node_cleanup (now clock : Z) (fresh_id : Uuid) (node_id agent_instance_id principal : string) :
    NodeDb → result Status (option NodeCleanupInstruction) * NodeDb :=
  transact (claim_node_cleanup_tx now clock fresh_id node_id agent_instance_id principal).

Record RenewCleanupRequest : Type := mkRenewCleanup {
  rw_node_id : string;
  rw_agent_instance_id : string;
  rw_generation : Z;
  rw_lease_epoch : Z;
  rw_claim_instance : string;
}.

Definition cleanup_fence (generation epoch : Z) (claim : string) : result Status (Z * Z * Uuid) :=
  match i64_try_from generation with
  | None => Err (invalid_argument "generation is too large")
  | Some generation =>
      match i64_try_from epoch with
      | None => Err (invalid_argument "lease epoch is too large")
      | Some epoch =>
          match uuid_parse_str claim with
          | None => Err (invalid_argument "claim_instance must be a UUID")
          | Some claim => Ok (generation, epoch, claim)
          end
      end
  end.

(** The row that one claim of one generation holds; [time] is the clock that decides the lease. *)
Definition claim_holds (time generation epoch : Z) (claim : Uuid) (agent_instance_id principal : string)
    (c : CleanupRow) : bool :=
  (cl_generation c =? generation)%Z && String.eqb (cl_state c) "claimed" && (cl_lease_epoch c =? epoch)%Z
  && bool_decide (cl_claim_instance c = Some claim)
  && bool_decide (le_agent_instance_id (cl_lease c) = Some agent_instance_id)
  && bool_decide (le_claimed_by (cl_lease c) = Some principal)
  && match le_expires_at (cl_lease c) with Some t => (time <? t)%Z | None => false end.

Definition renewed_cleanup (now : Z) (c : CleanupRow) : CleanupRow :=
  mkCleanup (cl_node_id c) (cl_generation c) (cl_state c) (cl_protection_fingerprint c) (cl_authority c)
    (cl_payload_digest c) (cl_known_inventory c) (cl_candidate_count c)
    (mkLease (Some (expire_at now)) (le_claimed_by (cl_lease c)) (le_agent_instance_id (cl_lease c)))
    (cl_claim_instance c) (cl_lease_epoch c) (cl_last_reconciled_at c) (cl_next_reconcile_at c) (cl_diagnostic c).

(** The new expiry; [None] is a superseded claim. *)
Definition renew_node_cleanup_tx (now : Z) (request : RenewCleanupRequest) (principal : string) :
    Tx (result Status (option Z)) :=
  fence ← lift (cleanup_fence (rw_generation request) (rw_lease_epoch request) (rw_claim_instance request));
  bind_texts [rw_node_id request; rw_agent_instance_id request; principal] ;;
  rows ← update_cleanups
           (λ c, is_cleanup_of (rw_node_id request) c
                 && claim_holds now fence.1.1 fence.1.2 fence.2 (rw_agent_instance_id request) principal c)
           (renewed_cleanup now);
  mret (Ok (match rows with row :: _ => le_expires_at (cl_lease row) | [] => None end)).

Definition renew_node_cleanup (now : Z) (request : RenewCleanupRequest) (principal : string) :
    NodeDb → result Status (option Z) * NodeDb :=
  transact (renew_node_cleanup_tx now request principal).

(** ** Results *)

Definition canonical_releases (values : list Release) : result Status (gmap Z (string * string)) :=
  foldl (λ acc r,
      let? m := acc in
      ensure? negb (rel_revision r =? 0)%Z && negb (str_is_empty (rel_digest r))
              && negb (str_is_empty (rel_resolved r)) && bool_decide (m !! rel_revision r = None)
        else failed_precondition "cleanup result contains invalid or duplicate release identity" in
      Ok (<[rel_revision r := (rel_digest r, rel_resolved r)]> m))
    (Ok ∅) values.

Inductive CleanupDisposition : Type := CdAccepted | CdSuperseded.

Definition is_cleanup_receipt (node_id : string) (generation : Z) (agent_instance_id : string) (epoch : Z)
    (claim : Uuid) (r : CleanupReceiptRow) : bool :=
  String.eqb (cr_node_id r) node_id && (cr_generation r =? generation)%Z
  && String.eqb (cr_agent_instance_id r) agent_instance_id && (cr_lease_epoch r =? epoch)%Z
  && (cr_claim_instance r =? claim)%Z.

(** The inventory that a result must leave: any releases of the catalogue if the node's was unknown,
    else what was issued less the deletions. *)
Definition check_inventory (node_id : string) (authority : CleanupAuthority)
    (issued resulting : gmap Z (string * string)) (db : NodeDb) : result Status () :=
  if bool_decide (ca_known_inventory authority = []) then
    let? policy := manager_cleanup_policy node_id db in
    let? catalog := canonical_releases (cp_known policy) in
    ensure? bool_decide (map_Forall (λ revision identity, catalog !! revision = Some identity) resulting)
      else failed_precondition "complete inventory contains an unknown release identity" in
    Ok ()
  else
    let? known := canonical_releases (ca_known_inventory authority) in
    ensure? bool_decide (resulting = known ∖ issued)
      else failed_precondition "resulting inventory does not equal issued inventory minus authorized deletions" in
    Ok ().

Definition insert_deletion (node_id : string) (generation : Z) (l : list DeletionRow) (r : Release) :
    list DeletionRow :=
  if existsb (λ e, String.eqb (de_node_id e) node_id && (rel_revision (de_release e) =? rel_revision r)%Z) l
  then l else l ++ [mkDeletion node_id r generation].

Definition accepted_cleanup (inventory : list Release) (c : CleanupRow) : CleanupRow :=
  mkCleanup (cl_node_id c) (cl_generation c) "clean" (cl_protection_fingerprint c) None "" (Some inventory) 0
    no_lease None (cl_lease_epoch c) (cl_last_reconciled_at c) (cl_next_reconcile_at c) ("", "").

Definition failed_cleanup (code detail : string) (c : CleanupRow) : CleanupRow :=
  mkCleanup (cl_node_id c) (cl_generation c) "paused" (cl_protection_fingerprint c) (cl_authority c)
    (cl_payload_digest c) (cl_known_inventory c) (cl_candidate_count c) no_lease None (cl_lease_epoch c)
    (cl_last_reconciled_at c) (cl_next_reconcile_at c) (code, detail).

(** The deletions that a successful result must report, and the inventory it must leave. *)
Definition check_cleanup_result (request : ReportCleanupRequest) (authority : CleanupAuthority) (db : NodeDb) :
    result Status () :=
  let? deleted := canonical_releases (rr_deleted_releases request) in
  let? issued := canonical_releases (ca_delete_releases authority) in
  ensure? bool_decide (deleted = issued)
    else failed_precondition "deleted releases do not exactly match issued authority" in
  let? resulting := canonical_releases (rr_resulting_inventory request) in
  check_inventory (rr_node_id request) authority issued resulting db.

Definition of_generation (node_id : string) (generation : Z) (g : GenerationRow) : bool :=
  String.eqb (cg_node_id g) node_id && (cg_generation g =? generation)%Z.

Definition store_cleanup_result (request : ReportCleanupRequest) (authority : CleanupAuthority) (generation : Z) :
    Tx () :=
  let node_id := rr_node_id request in
  if str_is_empty (rr_condition_code request) then
    db ← get;
    lift (check_cleanup_result request authority db) ;;
    bind_texts (concat ((λ r, [rel_digest r; rel_resolved r]) <$> rr_deleted_releases request)) ;;
    alter_cleanup (λ t, mkCleanupTables (cleanups t) (generations t) (cleanup_events t) (cleanup_receipts t)
      (foldl (insert_deletion node_id generation) (deletions t) (rr_deleted_releases request))) ;;
    update_cleanups (is_cleanup_of node_id) (accepted_cleanup (rr_resulting_inventory request)) ;;
    update_generations (of_generation node_id generation) "succeeded"
  else
    bind_texts [rr_condition_code request; rr_detail request] ;;
    update_cleanups (is_cleanup_of node_id) (failed_cleanup (rr_condition_code request) (rr_detail request)) ;;
    update_generations (of_generation node_id generation) "paused".

Definition report_node_cleanup_result_tx (clock : Z) (request : ReportCleanupRequest) (principal : string) :
    Tx (result Status (CleanupDisposition * NodeCleanupSummary)) :=
  fence ← lift (cleanup_fence (rr_generation request) (rr_lease_epoch request) (rr_claim_instance request));
  let generation := fence.1.1 in
  let epoch := fence.1.2 in
  let claim := fence.2 in
  let node_id := rr_node_id request in
  let instance := rr_agent_instance_id request in
  bind_texts [node_id; instance] ;;
  db ← get;
  match List.find (is_cleanup_receipt node_id generation instance epoch claim) (cleanup_receipts (cleanup db)) with
  | Some receipt =>
      guard_tx (String.eqb (cr_authenticated_principal receipt) principal && bool_decide (cr_result receipt = request))
        (aborted "cleanup result retry conflicts with stored receipt") ;;
      summary ← get_cleanup_summary_in node_id;
      mret (Ok (CdAccepted, summary))
  | None =>
      match find_cleanup node_id db with
      | None => fail (not_found "node cleanup state not found")
      | Some row =>
          if negb (claim_holds clock generation epoch claim instance principal row) then
            summary ← lift (cleanup_summary_from_row row);
            mret (Ok (CdSuperseded, summary))
          else
            guard_tx (String.eqb (cl_payload_digest row) (rr_payload_digest request))
              (failed_precondition "cleanup payload digest does not match issued authority") ;;
            authority ← match cl_authority row with
                        | Some authority => mret authority
                        | None => fail (internal "claimed authority")
                        end;
            store_cleanup_result request authority generation ;;
            bind_texts [principal; rr_payload_digest request] ;;
            guard_tx (negb (str_is_empty principal) && negb (str_is_empty instance) && (0 <? epoch)%Z
                      && negb (str_is_empty (rr_payload_digest request))) database_error ;;
            alter_cleanup (λ t, mkCleanupTables (cleanups t) (generations t) (cleanup_events t)
              (cleanup_receipts t ++ [mkCleanupReceipt node_id generation instance epoch claim principal request])
              (deletions t)) ;;
            summary ← get_cleanup_summary_in node_id;
            mret (Ok (CdAccepted, summary))
      end
  end.

Definition report_node_cleanup_result (clock : Z) (request : ReportCleanupRequest) (principal : string) :
    NodeDb → result Status (CleanupDisposition * NodeCleanupSummary) * NodeDb :=
  transact (report_node_cleanup_result_tx clock request principal).

End cleanup.

(** ** The host *)

(** What an agent finds on its host: the revisions that slots and the proxy have selected, and
    the releases in the order of their revisions. *)
Record HostReleases : Type := mkHost {
  ho_selected : list Z;
  ho_releases : list Release;
}.

Fixpoint check_allowlist (host : HostReleases) (seen : list Z) (allowlist : list Release) : result string () :=
  match allowlist with
  | [] => Ok ()
  | r :: rest =>
      ensure? negb (bool_decide (rel_revision r ∈ seen))
        else "manager cleanup allow-list contains a duplicate revision" in
      ensure? negb (bool_decide (rel_revision r ∈ ho_selected host))
        else "manager cleanup allow-list includes a selected release" in
      ensure? forallb (λ h, negb (rel_revision h =? rel_revision r)%Z || bool_decide (h = r)) (ho_releases host)
        else "manager cleanup allow-list identity does not match local release" in
      check_allowlist host (rel_revision r :: seen) rest
  end.

(** The releases that remain; the others are deleted. *)
Definition host_cleanup (host : HostReleases) (allowlist : list Release) : result string (list Release) :=
  let? _ := check_allowlist host [] allowlist in
  Ok (List.filter (λ h, negb (bool_decide (rel_revision h ∈ rel_revision <$> allowlist))) (ho_releases host)).

(** What the agent reports of it; [Err] carries the chain of messages. *)
Definition cleanup_report (i : NodeCleanupInstruction) (outcome : result string (list Release)) :
    ReportCleanupRequest :=
  let report deleted resulting code detail :=
    mkCleanupReport (ci_node_id i) (ci_agent_instance_id i) (ci_generation i) (ci_lease_epoch i)
      (ci_claim_instance i) (ci_payload_digest i) deleted resulting code detail in
  match outcome with
  | Ok retained => report (ci_delete_releases i) retained "" ""
  | Err detail => report [] [] "HOST_CLEANUP_FAILED" detail
  end.
