(* ===== verification/NodeSystem.v ===== *)
(** * The manager's calls on nodes

    Deployments ([NodeDeploy]), operations ([NodeFacts]) and release cleanup ([NodeCleanup]) share
    one database. Their calls interleave with each other and with the registrations of
    engines, which activate pending deployments. *)

From S2P Require Import Prelude RustStr Utf8 Lists Orders Externals Grpc Http Lifecycle IndexedRouting Deployment Rollout Schedule Operations NodeStatus NodeTables NodeStore NodeSubmit NodeRun NodeAgent NodeReport NodeTx NodeSteps NodeLoad NodeRefine NodeRefineTx NodeFacts NodeDeploy NodeCleanup.

Inductive SystemCall : Type :=
| SNode (c : NodeCall)
| SBegin (now : Z) (request : BeginDeploymentRequest) (actor : string)
| SFinalize (now : Z) (request : FinalizeDeploymentRequest) (actor : string)
| SAbandon (now : Z) (node_id token actor : string)
| SRollback (node_id : string) (to_revision : Z) (token actor : string)
| SReconcile (now clock : Z) (locked : list string) (batch_size : Z)
| SClaimCleanup (now clock : Z) (fresh_id : Uuid) (node_id agent_instance_id principal : string)
| SRenewCleanup (now : Z) (request : RenewCleanupRequest) (principal : string)
| SReportCleanup (clock : Z) (request : ReportCleanupRequest) (principal : string)
| SRetryCleanup (now : Z) (node_id : string) (observed_generation : Z).

(** The identifiers that [Uuid::new_v4] generates have 128 bits. *)
Definition system_ok (c : SystemCall) : Prop :=
  match c with
  | SNode c => call_ok c
  | SClaimCleanup _ _ fresh_id _ _ _ => uuid_in_range fresh_id
  | _ => True
  end.

Section system.
Context `{CL : CollationLib, UL : UuidLib, SH : Sha256Lib, SV : SemverLib, HL : HttpLib, CC : CleanupCodec}.
Context (uri_to_string : Uri → string) (inventory_encoded_len : DeploymentInventoryV1 → Z).

Definition perform_system (c : SystemCall) (db : NodeDb) : NodeDb :=
  match c with
  | SNode c => perform c db
  | SBegin now request actor => (begin_deployment uri_to_string inventory_encoded_len now request actor db).2
  | SFinalize now request actor => (finalize_deployment now request actor db).2
  | SAbandon now node_id token actor => (abandon_deployment now node_id token actor db).2
  | SRollback node_id to_revision token actor =>
      (begin_rollback uri_to_string inventory_encoded_len node_id to_revision token actor db).2
  | SReconcile now clock locked batch_size => (reconcile_node_cleanup_batch now clock locked batch_size db).2
  | SClaimCleanup now clock fresh_id node_id instance principal =>
      (claim_node_cleanup now clock fresh_id node_id instance principal db).2
  | SRenewCleanup now request principal => (renew_node_cleanup now request principal db).2
  | SReportCleanup clock request principal => (report_node_cleanup_result clock request principal db).2
  | SRetryCleanup now node_id observed_generation => (retry_node_cleanup now node_id observed_generation db).2
  end.

(** A registration and the loss of one: engines, heartbeats and routes change, and a pending
    deployment may become active. *)
Definition registration (db db' : NodeDb) : Prop :=
  other_writers db db' ∧ nodes db' = nodes db ∧ cleanup db' = cleanup db
  ∧ ∃ p, (∀ d, p d = true → dp_state d = "pending")
      ∧ deployments db' = update_where p (λ d, set_dp_state "active" (dp_abandoned_at d) d) (deployments db).

Inductive system_step (db : NodeDb) : NodeDb → Prop :=
| ss_call c : system_ok c → system_step db (perform_system c db)
| ss_registration db' : registration db db' → system_step db db'.

Definition system_initial (db : NodeDb) : Prop :=
  node_initial db ∧ nodes db = [] ∧ deployments db = [] ∧ cleanup db = mkCleanupTables [] [] [] [] [].

Definition system_reachable (db : NodeDb) : Prop := ∃ db0, system_initial db0 ∧ rtc system_step db0 db.

(** ** The tables of operations *)

#[local] Instance other_writers_preorder : PreOrder other_writers.
Proof using Type.
  split; [done|]. intros a b c (Hab & ? & ? & ? & ? & ?) (Hbc & ? & ? & ? & ? & ?).
  split; [by etrans|]. repeat split; congruence.
Qed.

Lemma fence_cleanup_others now node_id reason : tx_moves other_writers (fence_cleanup_authority now node_id reason).
Proof using Type. unfold fence_cleanup_authority, alter_cleanup. tx_frame. Qed.

Lemma update_cleanups_others p f : tx_moves other_writers (update_cleanups p f).
Proof using Type. unfold update_cleanups, alter_cleanup. tx_frame. Qed.

Lemma update_generations_others p v : tx_moves other_writers (update_generations p v).
Proof using Type. unfold update_generations, alter_cleanup. tx_frame. Qed.

Lemma ensure_node_others node_id : tx_moves other_writers (modify (ensure_node node_id)).
Proof using Type. apply tx_moves_modify. intros db. unfold ensure_node. by case_match. Qed.

#[local] Hint Resolve fence_cleanup_others update_cleanups_others update_generations_others ensure_node_others : tx.

Lemma materialize_others now policy generation row : tx_moves other_writers (materialize now policy generation row).
Proof using Type. unfold materialize, alter_cleanup. tx_frame. Qed.

#[local] Hint Resolve materialize_others : tx.

Lemma reconcile_cleanups_others now clock rows : tx_moves other_writers (reconcile_cleanups now clock rows).
Proof using Type. induction rows as [|row rows IH]; cbn [reconcile_cleanups]; unfold reconcile_cleanup; tx_frame. Qed.

#[local] Hint Resolve reconcile_cleanups_others : tx.

(** The calls on deployments and cleanup write no table of operations. *)
Lemma system_node_step db db' : system_step db db' → node_step db db'.
Proof using Type.
  intros [c Hc|db1 [Ho _]]; [|by apply ns_other].
  destruct c; [by apply ns_call|apply ns_other, (transact_moves other_writers)..].
  - unfold begin_deployment_tx, insert_deployment, answer_deployment, staged_conflict. tx_frame.
  - unfold finalize_deployment_tx, answer_deployment. tx_frame.
  - unfold abandon_deployment_tx, answer_deployment. tx_frame.
  - unfold begin_rollback_tx, insert_deployment, answer_deployment, staged_conflict. tx_frame.
  - unfold reconcile_node_cleanup_batch_tx. tx_frame.
  - unfold claim_node_cleanup_tx. tx_frame.
  - unfold renew_node_cleanup_tx. tx_frame.
  - unfold report_node_cleanup_result_tx, store_cleanup_result, get_cleanup_summary_in, alter_cleanup. tx_frame.
  - unfold retry_node_cleanup_tx. tx_frame.
Qed.

Lemma system_node_steps db db' : rtc system_step db db' → rtc node_step db db'.
Proof using Type. apply rtc_congruence with (f := id). intros. by apply system_node_step. Qed.

Lemma system_reachable_node db : system_reachable db → node_reachable db.
Proof using Type. intros (db0 & [Hi _] & Hs). exists db0. split; [done|by apply system_node_steps]. Qed.

Lemma system_reachable_steps db db' : system_reachable db → rtc system_step db db' → system_reachable db'.
Proof using Type. intros (db0 & Hi & Hs) Hs'. exists db0. split; [done|by etrans]. Qed.

End system.
