(* ===== verification/NodeStaging.v ===== *)
(** * Deployments of a node: what every run keeps

    A node stages one revision at a time. Every deployment that is open and not taken up is
    the staged one, a deployment that is taken up is bound to its operation for good, and an
    operation commits the revision that is bound to it. *)

From S2P Require Import Prelude RustStr Utf8 Lists Orders Externals Grpc Http Lifecycle IndexedRouting Deployment Rollout Schedule Operations NodeStatus NodeTables NodeStore NodeSubmit NodeRun NodeAgent NodeReport NodeTx NodeSteps NodeLoad NodeRefine NodeRefineTx NodeFacts NodeDeploy NodeCleanup NodeSystem.

(** ** The invariant *)

Definition open_deployment (d : DeploymentRow) : bool :=
  one_of_texts (dp_state d) ["pending"; "active"] && is_none (dp_abandoned_at d) && is_none (dp_operation_id d).

(** The operation will commit its target revision, or has done so. *)
Definition commits (r : OperationRow) : bool :=
  negb (String.eqb (or_action r) "restart") && (0 <? rel_revision (or_target r))%Z.

Definition key_of (d : DeploymentRow) : string * Z := (dp_node_id d, dp_revision d).
Definition token_of (d : DeploymentRow) : string * string := (dp_node_id d, dp_attempt_token d).

(** What an allocation fixes. *)
Definition allocation (d : DeploymentRow) :=
  (dp_node_id d, dp_revision d, dp_attempt_token d, dp_bundle_digest d, dp_inventory d, dp_allocated_by d,
   (dp_revision_digest d, dp_source_revision d)).

Record staging_inv (db : NodeDb) : Prop := mkStagingInv {
  si_range r : r ∈ operations db → uuid_in_range (or_operation_id r);
  si_rows : operations_ok (operations db) = true;
  si_nodes : NoDup (nr_node_id <$> nodes db);
  si_keys : NoDup (key_of <$> deployments db);
  si_tokens : NoDup (token_of <$> deployments db);
  si_home d : d ∈ deployments db → ∃ n, n ∈ nodes db ∧ nr_node_id n = dp_node_id d;
  si_open d n :
    d ∈ deployments db → open_deployment d = true → n ∈ nodes db → nr_node_id n = dp_node_id d →
    nr_target_revision n = Some (dp_revision d);
  si_bound d id :
    d ∈ deployments db → dp_operation_id d = Some id →
    ∃ r, r ∈ operations db ∧ or_operation_id r = id ∧ or_actor r = dp_allocated_by d
      ∧ or_request_token r = dp_attempt_token d;
  si_commits r :
    r ∈ operations db → commits r = true → or_committed r = false →
    ∃ d, d ∈ deployments db ∧ key_of d = (or_node_id r, rel_revision (or_target r))
      ∧ dp_operation_id d = Some (or_operation_id r);
}.

Definition committed_op (id : Uuid) (db : NodeDb) : Prop :=
  ∃ r, r ∈ operations db ∧ or_operation_id r = id ∧ or_committed r = true.

Definition staged (node_id : string) (revision : Z) (db : NodeDb) : Prop :=
  ∃ n, n ∈ nodes db ∧ nr_node_id n = node_id ∧ nr_target_revision n = Some revision.

Definition bound (node_id : string) (revision : Z) (id : Uuid) (db : NodeDb) : Prop :=
  ∃ d, d ∈ deployments db ∧ key_of d = (node_id, revision) ∧ dp_operation_id d = Some id.

(** A step keeps the invariant and every allocation; a staged revision that an operation is
    bound to stays staged until that operation commits. *)
Record staging_kept (db db' : NodeDb) : Prop := mkStagingKept {
  sk_inv : staging_inv db';
  sk_committed id : committed_op id db → committed_op id db';
  sk_bound node_id revision id : bound node_id revision id db → bound node_id revision id db';
  sk_staged node_id revision id :
    staged node_id revision db → bound node_id revision id db → staged node_id revision db' ∨ committed_op id db';
  sk_rows d : d ∈ deployments db → ∃ d', d' ∈ deployments db' ∧ allocation d' = allocation d;
}.

Definition staging_step (db db' : NodeDb) : Prop := staging_inv db → staging_kept db db'.

#[global] Instance staging_step_preorder : PreOrder staging_step.
Proof.
  split.
  - intros db H. split; eauto.
  - intros a b c Hab Hbc H. destruct (Hab H) as [I1 C1 B1 S1 R1]. destruct (Hbc I1) as [I2 C2 B2 S2 R2].
    split; [done|eauto|eauto| |].
    + intros node revision id Hs Hb. destruct (S1 _ _ _ Hs Hb) as [Hs1|Hc]; [|by right; apply C2].
      by apply S2; [|apply B1].
    + intros d Hd. destruct (R1 _ Hd) as (d1 & Hd1 & E1). destruct (R2 _ Hd1) as (d2 & Hd2 & E2).
      exists d2. split; [done|congruence].
Qed.

(** ** Statements *)

Definition same_staging (db db' : NodeDb) : Prop :=
  operations db' = operations db ∧ nodes db' = nodes db ∧ deployments db' = deployments db.

#[global] Instance same_staging_preorder : PreOrder same_staging.
Proof. split; [done|]. intros a b c (?&?&?) (?&?&?). repeat split; congruence. Qed.

Lemma same_staging_step db db' : same_staging db db' → staging_step db db'.
Proof.
  intros (Eo & En & Ed) [R O N K T H P B C].
  split; [split|..]; unfold committed_op, staged, bound in *; rewrite ?Eo, ?En, ?Ed; eauto.
Qed.

Lemma staging_frame {A} (t : Tx A) : tx_moves same_staging t → tx_moves staging_step t.
Proof. intros H db a db' Ht. by eapply same_staging_step, H. Qed.

(** An update of operations that keeps what was submitted and what was committed. *)
Definition keeps_submission (f : OperationRow → OperationRow) : Prop :=
  ∀ r, submitted (f r) = submitted r ∧ (or_committed r = true → or_committed (f r) = true).

Lemma submitted_fields r r' :
  submitted r' = submitted r →
  or_operation_id r' = or_operation_id r ∧ or_node_id r' = or_node_id r ∧ or_actor r' = or_actor r
  ∧ or_request_token r' = or_request_token r ∧ or_target r' = or_target r ∧ commits r' = commits r.
Proof. unfold submitted, commits. intros [=]. repeat split; congruence. Qed.

Section update.
Context (p : OperationRow → bool) (f : OperationRow → OperationRow) (Hf : keeps_submission f).

Lemma update_later l r :
  r ∈ l → ∃ r', r' ∈ update_where p f l ∧ submitted r' = submitted r ∧
    (or_committed r = true → or_committed r' = true).
Proof using Hf.
  intros Hr. exists (if p r then f r else r). split; [apply elem_of_update_where; eauto|].
  destruct (p r); [apply Hf|done].
Qed.

Lemma update_earlier l r' :
  r' ∈ update_where p f l →
    ∃ r, r ∈ l ∧ submitted r' = submitted r ∧ (or_committed r' = false → or_committed r = false).
Proof using Hf.
  intros (r & -> & Hr)%elem_of_update_where. exists r. split; [done|]. destruct (p r); [|done].
  destruct (Hf r) as [Hs Hc]. split; [done|]. destruct (or_committed r); [|done]. by rewrite Hc.
Qed.

Lemma update_operations_staging : tx_moves staging_step (update_operations p f).
Proof using Hf.
  intros db rows db' (-> & _ & Hok)%update_operations_ok [R O N K T H P B C].
  split; [split|..]; unfold committed_op; cbn [operations nodes deployments set_operations]; eauto.
  - intros r' (r & Hr & Hs & _)%update_earlier. apply submitted_fields in Hs as (-> & _). by apply R.
  - intros d id Hd Hid. destruct (B _ _ Hd Hid) as (r & Hr & Ei & Ea & Et).
    destruct (update_later _ _ Hr) as (r' & Hr' & Hs & _). apply submitted_fields in Hs as (? & _ & ? & ? & _).
    exists r'. split; [done|]. repeat split; congruence.
  - intros r' (r & Hr & Hs & Hc)%update_earlier Hcm Hu. apply submitted_fields in Hs as (-> & -> & _ & _ & -> & Ec).
    rewrite Ec in Hcm. apply C; auto.
  - intros id (r & Hr & Ei & Hc). destruct (update_later _ _ Hr) as (r' & Hr' & Hs & Hc').
    apply submitted_fields in Hs as (Es & _). exists r'. split; [done|]. split; [congruence|auto].
Qed.

End update.

(** ** Reconciliations *)

Lemma fmap_update_where {A B} (h : A → B) p f l : (∀ x, h (f x) = h x) → h <$> update_where p f l = h <$> l.
Proof.
  intros H. unfold update_where. rewrite <-list_fmap_compose. apply list_fmap_ext. intros i x _. simpl.
  by destruct (p x).
Qed.

Section calls.
Context `{CL : CollationLib, UL : UuidLib, SH : Sha256Lib}.

Lemma update_targets_staging p f : tx_moves staging_step (update_targets p f).
Proof using Type. apply staging_frame. by intros db u db' [-> _]%update_targets_ok. Qed.

Lemma append_event_same id actor code detail epoch : tx_moves same_staging (append_event id actor code detail epoch).
Proof using Type. by intros db u db' [l ->]%append_event_ok. Qed.

#[local] Hint Resolve append_event_same : tx.

Lemma append_events_same actor code detail rows : tx_moves same_staging (append_events actor code detail rows).
Proof using Type. induction rows as [|r rows IH]; simpl; tx_frame. Qed.

Lemma fence_cleanup_same now node_id reason : tx_moves same_staging (fence_cleanup_authority now node_id reason).
Proof using Type. unfold fence_cleanup_authority, alter_cleanup. tx_frame. Qed.

#[local] Hint Resolve fence_cleanup_same : tx.

Lemma switch_authority_same now node_id slot revision :
  tx_moves same_staging (switch_authority now node_id slot revision).
Proof using Type. unfold switch_authority. tx_frame. Qed.

Lemma append_event_staging id actor code detail epoch :
  tx_moves staging_step (append_event id actor code detail epoch).
Proof using Type. apply staging_frame, append_event_same. Qed.

Lemma append_events_staging actor code detail rows : tx_moves staging_step (append_events actor code detail rows).
Proof using Type. apply staging_frame, append_events_same. Qed.

Lemma fence_cleanup_staging now node_id reason : tx_moves staging_step (fence_cleanup_authority now node_id reason).
Proof using Type. apply staging_frame, fence_cleanup_same. Qed.

Lemma switch_authority_staging now node_id slot revision :
  tx_moves staging_step (switch_authority now node_id slot revision).
Proof using Type. apply staging_frame, switch_authority_same. Qed.

#[local] Hint Resolve update_targets_staging append_event_staging append_events_staging fence_cleanup_staging
  switch_authority_staging : tx.
#[local] Hint Extern 2 (tx_moves staging_step (update_operations _ _)) => apply update_operations_staging; done : tx.
#[local] Hint Extern 2 (tx_moves staging_step (modify _)) => apply staging_frame, tx_moves_modify; done : tx.

Lemma enter_restoration_staging id actor terminal code detail :
  tx_moves staging_step (enter_restoration id actor terminal code detail).
Proof using Type. unfold enter_restoration. tx_frame. Qed.

#[local] Hint Resolve enter_restoration_staging : tx.

Lemma reconcile_slot_staging now id snapshot operation s :
  tx_moves staging_step (reconcile_slot now id snapshot operation s).
Proof using Type.
  unfold reconcile_slot, restore_slot, clear_slot_condition, reconcile_forward, reconcile_stop, reconcile_select,
    reconcile_start, reconcile_verify, verify_pending, verify_source, verify_replacement, reconcile_switch,
    reconcile_serving, retract_delivery, pin_slot, mark_changed, advance_slot, pause_with_condition, set_slot_condition.
  tx_frame.
Qed.

Lemma active_uncommitted r : operation_row_ok r = true → is_active r = true → or_committed r = false.
Proof using Type.
  unfold operation_row_ok, is_active. intros H Ha. bool_to_prop. destruct (or_committed r); [|done].
  bool_to_prop. match goal with H : String.eqb (or_phase r) _ = true |- _ => apply String.eqb_eq in H;
    rewrite H in * end.
  cbn in *.
  repeat match goal with
  | H : _ \/ _ |- _ => destruct H as [H|H]
  | H : _ || _ = true |- _ => apply orb_true_iff in H as [H|H]
  | H : String.eqb _ _ = true |- _ => apply String.eqb_eq in H
  end; congruence.
Qed.

(** An operation commits the revision that is bound to it. *)
Section commit.
Context (db db' : NodeDb) (r : OperationRow) (now : Z) (Hr : r ∈ operations db) (Hcm : commits r = true).
Context (Hu : or_committed r = false).
Let target := rel_revision (or_target r).
Context (En : nodes db' = nodes (commit_node (or_node_id r) target db)).
Context (Ed : deployments db' = deployments (commit_deployment (or_node_id r) target db)).
Context (Eo : operations db' = update_where (of_operation (or_operation_id r))
                (λ r, set_or_committed now (finished_row "succeeded" r)) (operations db)).
Context (Hok : operations_ok (operations db') = true) (Hinv : staging_inv db).

Lemma committed_keeps : keeps_submission (λ r, set_or_committed now (finished_row "succeeded" r)).
Proof using Type. done. Qed.

Lemma commit_row d' :
  d' ∈ deployments db' →
  ∃ d, d ∈ deployments db ∧ allocation d' = allocation d ∧ dp_operation_id d' = dp_operation_id d
    ∧ (open_deployment d' = true → open_deployment d = true ∧ key_of d ≠ (or_node_id r, target)).
Proof using Ed.
  rewrite Ed. intros (d & -> & Hd)%elem_of_update_where. exists d. split; [done|]. case_match eqn:E; [done|].
  do 2 (split; [done|]). intros Ho. split; [done|]. intros [= Ek1 Ek2]. unfold open_deployment in Ho. bool_to_prop.
  assert (is_deployment (or_node_id r) target d = true) as Hi by (unfold is_deployment; by rewrite Ek1, Ek2, String.eqb_refl, Z.eqb_refl).
  rewrite Hi in E. match goal with H : one_of_texts _ _ = true |- _ => rewrite H in E end. by destruct E.
Qed.

Lemma commit_row_later d :
  d ∈ deployments db → ∃ d', d' ∈ deployments db' ∧ allocation d' = allocation d ∧
    dp_operation_id d' = dp_operation_id d.
Proof using Ed.
  rewrite Ed. intros Hd. eexists. split; [apply elem_of_update_where; by exists d|]. by case_match.
Qed.

Lemma commit_node_row n' :
  n' ∈ nodes db' →
  ∃ n, n ∈ nodes db ∧ nr_node_id n' = nr_node_id n
    ∧ (nr_target_revision n' = nr_target_revision n ∨ nr_node_id n = or_node_id r ∧ nr_target_revision n = Some target).
Proof using En.
  rewrite En. intros (n & -> & Hn)%elem_of_update_where. exists n. split; [done|]. case_match eqn:E; [|by auto].
  split; [done|]. right. bool_to_prop. split; [by apply String.eqb_eq|done].
Qed.

Lemma commit_inv : staging_inv db'.
Proof using En Ed Eo Hok Hinv.
  destruct Hinv as [R O N K T H P B C]. split; [| |rewrite En|rewrite Ed|rewrite Ed|..].
  - rewrite Eo. intros r' (r0 & Hr0 & Hs & _)%(update_earlier _ _ committed_keeps).
    apply submitted_fields in Hs as (-> & _). by apply R.
  - done.
  - cbn. by rewrite fmap_update_where.
  - cbn. by rewrite fmap_update_where.
  - cbn. by rewrite fmap_update_where.
  - intros d' (d & Hd & Ea & _)%commit_row. injection Ea as -> _ _ _ _ _ _ _. destruct (H d Hd) as (n & Hn & E).
    rewrite En, <-E. eexists. split; [apply elem_of_update_where; by exists n|]. by case_match.
  - intros d' n' (d & Hd & Ea & _ & Ho)%commit_row Ho' (n & Hn & -> & Ht)%commit_node_row E.
    injection Ea as Ea1 -> _ _ _ _ _ _. rewrite Ea1 in E. destruct (Ho Ho') as [Hod Hk].
    pose proof (P d n Hd Hod Hn E) as Htn. destruct Ht as [->|[En' Et]]; [done|].
    destruct Hk. unfold key_of. congruence.
  - intros d' id (d & Hd & Ea & -> & _)%commit_row Hid. injection Ea as _ _ -> _ _ -> _ _.
    destruct (B d id Hd Hid) as (r0 & Hr0 & Ei & Eact & Et).
    destruct (update_later (of_operation (or_operation_id r)) _ committed_keeps _ _ Hr0) as (r' & Hr' & Hs & _).
    apply submitted_fields in Hs as (? & _ & ? & ? & _). exists r'. rewrite Eo. split; [done|].
    repeat split; congruence.
  - rewrite Eo. intros r' (r0 & Hr0 & Hs & Hc)%(update_earlier _ _ committed_keeps) Hcm' Hu'.
    apply submitted_fields in Hs as (-> & -> & _ & _ & -> & Ec). rewrite Ec in Hcm'.
    destruct (C r0 Hr0 Hcm' (Hc Hu')) as (d & Hd & Ek & Eid).
    destruct (commit_row_later d Hd) as (d' & Hd' & Ea & Eid').
    exists d'. split; [done|]. injection Ea as Ea1 Ea2 _ _ _ _ _ _. unfold key_of in *. split; congruence.
Qed.

Lemma commit_kept : staging_kept db db'.
Proof using Hr Hcm Hu En Ed Eo Hok Hinv.
  destruct Hinv as [R O N K T H P B C]. split; [apply commit_inv|..].
  - intros id (r0 & Hr0 & Ei & Hc).
    destruct (update_later (of_operation (or_operation_id r)) _ committed_keeps _ _ Hr0)
      as (r' & Hr' & Hs & Hc'). apply submitted_fields in Hs as (Es & _).
    exists r'. rewrite Eo. split; [done|]. split; [congruence|auto].
  - intros node revision id (d & Hd & Ek & Eid). destruct (commit_row_later d Hd) as (d' & Hd' & Ea & Eid').
    exists d'. split; [done|]. injection Ea as Ea1 Ea2 _ _ _ _ _ _. unfold key_of in *. split; congruence.
  - intros node revision id (n & Hn & E1 & E2) (d & Hd & Ek & Eid).
    destruct (decide ((node, revision) = (or_node_id r, target))) as [E|Hne].
    + right. destruct (C r Hr Hcm Hu) as (d0 & Hd0 & Ek0 & Eid0).
      assert (d = d0) as -> by (eapply (NoDup_fmap_inj key_of); [exact K|done..|]; fold target in Ek0; congruence).
      assert (id = or_operation_id r) as -> by congruence.
      exists (set_or_committed now (finished_row "succeeded" r)). rewrite Eo. split; [|done].
      apply elem_of_update_where. exists r. unfold of_operation. by rewrite Z.eqb_refl.
    + left. exists n. split; [|done]. rewrite En. apply elem_of_update_where. exists n. split; [|done].
      case_match eqn:Ec; [|done]. bool_to_prop. destruct Hne. f_equal; [|congruence].
      rewrite <-E1. by apply String.eqb_eq.
  - intros d Hd. destruct (commit_row_later d Hd) as (d' & Hd' & Ea & _). eauto.
Qed.

End commit.

Lemma row_ok_of db r : staging_inv db → r ∈ operations db → operation_row_ok r = true.
Proof using Type.
  intros Hinv Hr. pose proof (si_rows _ Hinv) as Ho. unfold operations_ok in Ho. apply andb_true_iff in Ho as [Ho _].
  by apply (proj1 (forallb_forall _ _) Ho), list_elem_of_In.
Qed.

Lemma loaded_commits r ts o :
  loaded r ts o → op_action o ≠ ActRestart → (0 < rel_revision (op_target o))%Z → commits r = true.
Proof using Type.
  intros L Ha Ht. unfold commits. rewrite <-(ld_target _ _ _ L), (proj2 (Z.ltb_lt _ _) Ht), andb_true_r.
  pose proof (ld_action _ _ _ L) as Hp. destruct (String.eqb_spec (or_action r) "restart") as [E|]; [|done].
  rewrite E in Hp. destruct Ha. by injection Hp.
Qed.

Lemma finish_operation_staging now id actor o r ts db u db' :
  r ∈ operations db → or_operation_id r = id → loaded r ts o → is_active r = true →
  finish_operation now id actor o db = Ok (u, db') → staging_step db db'.
Proof using Type.
  intros Hr <- L Ha H. unfold finish_operation in H. case_match eqn:Eph; [|case_match eqn:Ec].
  - eapply (tx_moves_bind staging_step); [..|exact H]; [|intros ?; cbv beta]; eauto with tx.
  - apply tx_bind_ok in H as (? & ? & ->%tx_modify_ok & H). apply tx_bind_ok in H as (? & ? & ->%tx_modify_ok & H).
    apply tx_bind_ok in H as (? & db1 & Hf%fence_cleanup_same & H).
    apply tx_bind_ok in H as (? & db2 & (-> & _ & Hok)%update_operations_ok & H).
    apply append_event_same in H. intros Hinv. bool_to_prop.
    assert (commits r = true) as Hcm by (eapply loaded_commits; [done..|lia]).
    destruct Hf as (F1 & F2 & F3), H as (G1 & G2 & G3). rewrite (ld_node _ _ _ L), (ld_target _ _ _ L) in *.
    eapply (commit_kept db db' r now); try done; [apply active_uncommitted; [by eapply row_ok_of|done]|..];
      rewrite ?G1, ?G2, ?G3; cbn [nodes deployments operations set_operations]; rewrite ?F1, ?F2, ?F3; try done.
      by rewrite F1 in Hok.
  - eapply (tx_moves_bind staging_step); [..|exact H]; [|intros ?; cbv beta]; eauto with tx.
Qed.

Lemma reconcile_staging now clock id actor : uuid_in_range id → tx_moves staging_step (reconcile now clock id actor).
Proof using Type.
  intros Hid db u db' H. unfold reconcile in H.
  apply tx_bind_ok in H as (? & ? & [-> ->]%tx_get_ok & H).
  apply tx_bind_ok in H as (snapshot & ? & [Hc ->]%tx_lift_ok & H).
  destruct (List.find _ _) as [o|] eqn:Ho; [|done]. destruct (negb _) eqn:Hact; [inv_tx; reflexivity|].
  apply tx_bind_ok in H as (proxy & ? & [_ ->]%tx_lift_ok & H). destruct (_ && _); [inv_tx; reflexivity|].
  apply tx_bind_ok in H as (slots & ? & [_ ->]%tx_lift_ok & H). destruct (min_by_order _) as [s|].
  - eapply (tx_moves_bind staging_step); [..|exact H]; [apply reconcile_slot_staging|intros ?; apply tx_moves_ret, _].
  - case_match; [inv_tx; reflexivity|].
    apply find_elem in Ho as [Ho Et%String.eqb_eq].
    intros Hinv. unfold capture_cluster_status_snapshot in Hc. inv_ok Hc. simplify_eq. cbn in Ho.
    match goal with H : list_from_client _ _ _ = Ok _ |- _ => apply collect_results_Forall2 in H as Hl end.
    apply list_elem_of_lookup in Ho as [i Hi]. destruct (Forall2_lookup_r _ _ _ _ _ Hl Hi) as (r' & _ & Hload).
    destruct (load_operation_loaded _ _ _ Hload) as (r & Hr & L). destruct (find_row _ _ _ Hr) as [Hin _].
    eapply finish_operation_staging; [exact Hin| |exact L|by eapply loaded_active|exact H|done].
    apply uuid_to_string_inj; [by apply (si_range _ Hinv)|done|]. by rewrite <-(ld_id _ _ _ L).
Qed.

(** ** Submissions *)

Lemma ensure_node_staging node_id : tx_moves staging_step (modify (ensure_node node_id)).
Proof using Type.
  apply tx_moves_modify. intros db. unfold ensure_node. destruct (find_node node_id db) as [n|] eqn:E; [reflexivity|].
  cbn [is_none]. intros [R O N K T H P B C]. pose proof (find_none _ _ E) as Hfresh. cbn beta in Hfresh.
  split; [split|..]; unfold committed_op, staged, bound; cbn [operations nodes deployments set_nodes]; eauto.
  - rewrite fmap_app. apply NoDup_app. split; [done|]. split; [|apply NoDup_singleton].
    intros x (n & -> & Hn)%list_elem_of_fmap Hx%list_elem_of_singleton. apply Hfresh, String.eqb_neq in Hn.
    by destruct Hn.
  - intros d Hd. destruct (H d Hd) as (n & Hn & En). exists n. split; [apply elem_of_app; by left|done].
  - intros d n Hd Ho [Hn|Hn%list_elem_of_singleton]%elem_of_app En; [by eapply P|]. subst n. cbn in En.
    destruct (H d Hd) as (n' & Hn' & En'). apply Hfresh, String.eqb_neq in Hn'. congruence.
  - intros node revision id (n & Hn & E1) _. left. exists n. split; [apply elem_of_app; by left|done].
Qed.

Section append.
Context (db db' : NodeDb) (r : OperationRow) (Eo : operations db' = operations db ++ [r]).
Context (Hok : operations_ok (operations db') = true) (Hid : uuid_in_range (or_operation_id r)).

Lemma append_elem r0 : r0 ∈ operations db → r0 ∈ operations db'.
Proof using Eo. rewrite Eo. intros. apply elem_of_app. by left. Qed.

Lemma append_new : r ∈ operations db'.
Proof using Eo. rewrite Eo. apply elem_of_app. right. by apply list_elem_of_singleton. Qed.

Lemma append_committed id : committed_op id db → committed_op id db'.
Proof using Eo. intros (r0 & Hr & H). exists r0. split; [by apply append_elem|done]. Qed.

Lemma append_range : staging_inv db → ∀ r0, r0 ∈ operations db' → uuid_in_range (or_operation_id r0).
Proof using Eo Hid.
  intros Hinv r0. rewrite Eo. intros [Hr| ->%list_elem_of_singleton]%elem_of_app; [by apply (si_range _ Hinv)|done].
Qed.

(** An operation that commits nothing. *)
Lemma append_staging :
  nodes db' = nodes db → deployments db' = deployments db → (commits r = true → or_committed r = true) →
  staging_step db db'.
Proof using Eo Hok Hid.
  intros En Ed Hc Hinv. pose proof (append_range Hinv) as HR. destruct Hinv as [R O N K T H P B C].
  split; [split|..]; try done; unfold staged, bound in *; rewrite ?En, ?Ed; eauto using append_committed.
  - intros d id Hd Hi. destruct (B d id Hd Hi) as (r0 & Hr0 & ?). exists r0. split; [by apply append_elem|done].
  - intros r0. rewrite Eo. intros [Hr| ->%list_elem_of_singleton]%elem_of_app Hcm Hu; [by apply C|].
    apply Hc in Hcm. congruence.
Qed.

(** An operation that takes up the open deployment of its actor and token. *)
Context (d : DeploymentRow) (Hd : d ∈ deployments db) (Hopen : open_deployment d = true).
Context (Ek : key_of d = (or_node_id r, rel_revision (or_target r))).
Context (Ea : dp_allocated_by d = or_actor r) (Et : dp_attempt_token d = or_request_token r).
Context (En : nodes db' = update_where (is_node (or_node_id r))
                (λ n, mkNodeRow (nr_node_id n) (nr_current_revision n) (Some (rel_revision (or_target r)))) (nodes db)).
Context (Ed : deployments db' = update_where (is_deployment (or_node_id r) (rel_revision (or_target r)))
                (assign_deployment (or_actor r) (or_operation_id r)) (deployments db)).

Lemma is_deployment_key node_id revision d0 :
  is_deployment node_id revision d0 = true ↔ key_of d0 = (node_id, revision).
Proof using Type.
  unfold is_deployment, key_of. rewrite andb_true_iff, String.eqb_eq, Z.eqb_eq.
  split; [intros [-> ->]|intros [= -> ->]]; done.
Qed.

Lemma taken_row d' :
  staging_inv db → d' ∈ deployments db' →
  ∃ d0, d0 ∈ deployments db ∧ allocation d' = allocation d0
    ∧ (d0 = d ∧ dp_operation_id d' = Some (or_operation_id r)
       ∨ key_of d0 ≠ key_of d ∧ dp_operation_id d' = dp_operation_id d0 ∧ open_deployment d' = open_deployment d0).
Proof using Hd Ek Ed.
  intros Hinv. rewrite Ed. intros (d0 & -> & Hd0)%elem_of_update_where. exists d0. split; [done|].
  case_match eqn:E.
  - apply is_deployment_key in E. split; [done|]. left. split; [|done].
    eapply (NoDup_fmap_inj key_of); [apply (si_keys _ Hinv)|done..|congruence].
  - split; [done|]. right. split; [|done]. rewrite Ek, <-is_deployment_key. congruence.
Qed.

Lemma taken_later d0 :
  staging_inv db → d0 ∈ deployments db →
  ∃ d', d' ∈ deployments db' ∧ allocation d' = allocation d0
    ∧ (d0 = d ∧ dp_operation_id d' = Some (or_operation_id r) ∨ dp_operation_id d' = dp_operation_id d0).
Proof using Hd Ek Ed.
  intros Hinv Hd0. rewrite Ed. eexists. split; [apply elem_of_update_where; by exists d0|].
  case_match eqn:E; [|by auto].
  apply is_deployment_key in E. split; [done|]. left. split; [|done].
  eapply (NoDup_fmap_inj key_of); [apply (si_keys _ Hinv)|done..|congruence].
Qed.

(** Nothing else was staged. *)
Lemma taken_target n : staging_inv db → n ∈ nodes db → nr_node_id n = or_node_id r →
  nr_target_revision n = Some (rel_revision (or_target r)).
Proof using Hd Hopen Ek.
  intros Hinv Hn E. injection Ek as Ek1 Ek2. rewrite <-Ek2. apply (si_open _ Hinv d n); congruence.
Qed.

Lemma taken_nodes : staging_inv db → nodes db' = nodes db.
Proof using Hd Hopen Ek En.
  intros Hinv. rewrite En. apply update_where_id. intros n Hn E%String.eqb_eq.
  pose proof (taken_target n Hinv Hn E). destruct n as [i c t]. cbn in *. congruence.
Qed.

Lemma taken_inv : staging_inv db → staging_inv db'.
Proof using Type*.
  intros Hinv. pose proof (taken_nodes Hinv) as En'. pose proof (append_range Hinv) as HR.
  pose proof (λ d', taken_row d' Hinv) as Hrow. pose proof (λ d0, taken_later d0 Hinv) as Hlater.
  destruct Hinv as [R O N K T H P B C]. split; [done|done|by rewrite En'|rewrite Ed|rewrite Ed|rewrite ?En'..|].
  - by rewrite fmap_update_where.
  - by rewrite fmap_update_where.
  - intros d' (d0 & Hd0 & Eal & _)%Hrow. injection Eal as -> _ _ _ _ _ _ _. by apply H.
  - intros d' n (d0 & Hd0 & Eal & [[-> Eid]|(_ & _ & Eop)])%Hrow Ho Hn E.
    + unfold open_deployment in Ho. rewrite Eid in Ho. cbn in Ho. by rewrite andb_false_r in Ho.
    + injection Eal as Eal -> _ _ _ _ _ _. apply P; congruence.
  - intros d' id (d0 & Hd0 & Eal & [[-> Eid]|(_ & Eid & _)])%Hrow Hi; injection Eal as _ _ E1 _ _ E2 _ _.
    + exists r. split; [apply append_new|]. repeat split; congruence.
    + destruct (B d0 id Hd0 ltac:(congruence)) as (r0 & Hr0 & ? & ? & ?). exists r0.
      split; [by apply append_elem|]. repeat split; congruence.
  - intros r0 Hr0 Hcm Hu. rewrite Eo in Hr0. apply elem_of_app in Hr0 as [Hr0| ->%list_elem_of_singleton].
    + destruct (C r0 Hr0 Hcm Hu) as (d0 & Hd0 & Ek0 & Eid0).
      destruct (Hlater d0 Hd0) as (d' & Hd' & Eal & [[-> _]|Eid]).
      * unfold open_deployment in Hopen. rewrite Eid0 in Hopen. cbn in Hopen. by rewrite andb_false_r in Hopen.
      * exists d'. split; [done|]. injection Eal as E1 E2 _ _ _ _ _ _. unfold key_of in *. split; congruence.
    + destruct (Hlater d Hd) as (d' & Hd' & Eal & Eid). exists d'. split; [done|].
      injection Eal as E1 E2 _ _ _ _ _ _. unfold key_of in *. split; [congruence|].
      destruct (Hrow d' Hd') as (d0 & Hd0 & Eal0 & [[_ E]|(Hne & _)]); [done|]. destruct Hne.
      injection Eal0 as E3 E4 _ _ _ _ _ _. unfold key_of. congruence.
Qed.

Lemma taken_staging : staging_step db db'.
Proof using Type*.
  intros Hinv. pose proof (taken_nodes Hinv) as En'. pose proof (λ d0, taken_later d0 Hinv) as Hlater.
  split; [by apply taken_inv|apply append_committed|..].
  - intros node revision id (d0 & Hd0 & Ek0 & Eid0). destruct (Hlater d0 Hd0) as (d' & Hd' & Eal & [[-> _]|Eid]).
    + unfold open_deployment in Hopen. rewrite Eid0 in Hopen. cbn in Hopen. by rewrite andb_false_r in Hopen.
    + exists d'. split; [done|]. injection Eal as E1 E2 _ _ _ _ _ _. unfold key_of in *. split; congruence.
  - intros node revision id Hs _. left. unfold staged. by rewrite En'.
  - intros d0 Hd0. destruct (Hlater d0 Hd0) as (d' & Hd' & Eal & _). eauto.
Qed.

End append.

Lemma store_operation_tables now id actor request p digest slots db o db' :
  store_operation now id actor request p digest slots db = Ok (o, db') →
  let deployment := is_deployment_action (sp_action p) in
  let target := rel_revision (sp_target p) in
  nodes db' = (if deployment then
                 update_where (is_node (so_node_id request))
                   (λ n, mkNodeRow (nr_node_id n) (nr_current_revision n) (Some target)) (nodes db)
               else nodes db)
  ∧ deployments db' = (if deployment then
                         update_where (is_deployment (so_node_id request) target) (assign_deployment actor id)
                           (deployments db)
                       else deployments db).
Proof using Type.
  intros H. unfold store_operation in H. cbv zeta.
  apply tx_bind_ok in H as (? & db1 & H1 & H).
  do 2 (apply tx_bind_ok in H as (? & ? & [_ ->]%tx_guard_ok & H)).
  apply tx_bind_ok in H as (? & ? & [-> ->]%tx_get_ok & H).
  apply tx_bind_ok in H as (? & db2 & [-> _]%put_operations_ok & H).
  apply tx_bind_ok in H as (? & db3 & H3 & H).
  apply tx_bind_ok in H as (? & db4 & [-> _]%put_targets_ok & H).
  apply tx_bind_ok in H as (? & db5 & (_ & N5 & D5)%append_event_same & H).
  apply tx_bind_ok in H as (? & db6 & (_ & N6 & D6)%fence_cleanup_same & H). inv_tx;
    rewrite N6, N5, D6, D5; done.
Qed.

Lemma deployment_inventory_ok node_id revision db inventory db' :
  deployment_inventory node_id revision db = Ok (inventory, db') → db' = db ∧ rel_revision inventory.1 = revision.
Proof using Type. unfold deployment_inventory. intros H. inv_tx; [by split; [|symmetry; apply Z.eqb_eq]|done]. Qed.

Lemma staged_target_row actor request revision db s db' :
  staged_target actor request revision db = Ok (s, db') →
  db' = db ∧ rel_revision s.2.1 = revision
  ∧ ∃ d, find_deployment (so_node_id request) revision db = Some d
      ∧ one_of_texts (dp_state d) ["pending"; "active"] = true ∧ dp_abandoned_at d = None
      ∧ dp_allocated_by d = actor ∧ dp_attempt_token d = so_request_token request.
Proof using Type.
  unfold staged_target. intros H. apply tx_bind_ok in H as (inventory & ? & [-> Er]%deployment_inventory_ok & H).
  inv_tx. simplify_eq. cbn. do 2 (split; [done|]). eexists. split; [done|]. split; [done|].
  split; [by destruct (dp_abandoned_at _)|]. split; by apply String.eqb_eq.
Qed.

Lemma find_deployment_elem node_id revision db d :
  find_deployment node_id revision db = Some d → d ∈ deployments db ∧ key_of d = (node_id, revision).
Proof using Type. intros [Hd Hk]%find_elem. split; [done|]. by apply is_deployment_key. Qed.

(** The deployment that a new request takes up is open: its actor and token have no operation yet. *)
Lemma untaken_open db d actor token :
  staging_inv db → List.find (same_token actor token) (operations db) = None → d ∈ deployments db →
  one_of_texts (dp_state d) ["pending"; "active"] = true → dp_abandoned_at d = None →
  dp_allocated_by d = actor → dp_attempt_token d = token → open_deployment d = true.
Proof using Type.
  intros Hinv Hnew Hd Hs Ha Eact Et. unfold open_deployment. rewrite Hs, Ha.
  destruct (dp_operation_id d) as [id|] eqn:Eid; [|done].
  destruct (si_bound _ Hinv d id Hd Eid) as (r & Hr & _ & E1 & E2).
  pose proof (find_none _ _ Hnew r Hr) as Hf. unfold same_token in Hf.
  by rewrite E1, E2, Eact, Et, !String.eqb_refl in Hf.
Qed.

Lemma submit_new_staging now fresh_id actor request source db o db' :
  uuid_in_range fresh_id → List.find (same_token actor (so_request_token request)) (operations db) = None →
  submit_new now fresh_id actor request source db = Ok (o, db') → staging_step db db'.
Proof using Type.
  intros Hid Hnew H Hinv. unfold submit_new in H.
  apply tx_bind_ok in H as (? & ? & [Hact ->]%tx_guard_ok & H).
  apply tx_bind_ok in H as (target & db1 & H1 & H).
  assert (db1 = db) as -> by (destruct (i64_try_from _); by inv_tx). clear H1.
  apply tx_bind_ok in H as (deadline & db1 & H1 & H).
  assert (db1 = db) as -> by (destruct (i64_try_from _); by inv_tx). clear H1.
  apply tx_bind_ok in H as (inventory & ? & [-> _]%deployment_inventory_ok & H).
  set (action := default ActUnspecified (action_try_from (so_action request))) in *. destruct (_ && _).
  - destruct (submit_no_effect_stored _ _ _ _ _ _ _ _ H) as [digest [Eo _ Hok _ _]].
    unfold submit_no_effect in H. inv_tx.
    repeat match goal with
    | H : put_operations _ _ _ = Ok _ |- _ => apply put_operations_ok in H as [-> _]
    | H : put_targets _ _ = Ok _ |- _ => apply put_targets_ok in H as [-> _]
    | H : append_event _ _ _ _ _ _ = Ok _ |- _ => apply append_event_same in H as (_ & ? & ?)
    end. by eapply append_staging.
  - apply tx_bind_ok in H as (staged & db1 & H1 & H).
    apply tx_bind_ok in H as (slots & ? & [_ ->]%tx_lift_ok & H).
    destruct (store_operation_stored _ _ _ _ _ _ _ _ _ _ H) as [Eo _ Hok _ _].
    destruct (store_operation_tables _ _ _ _ _ _ _ _ _ _ H) as [En Ed]. cbn [sp_action sp_target] in *.
    destruct (is_deployment_action action) eqn:Ea.
    + apply tx_bind_ok in H1 as (s & db2 & Hs & H1). inv_tx. cbn [fst snd] in *.
      pose proof (staged_target_range _ _ _ _ _ _ Hs) as Hr.
      destruct (staged_target_row _ _ _ _ _ _ Hs) as (-> & Er & d & Hf & Hst & Hab & Eact & Et).
      apply find_deployment_elem in Hf as [Hd Ek].
      eapply (taken_staging db db' (new_operation now s.1.1 actor request _ (Some s.1.2))); try done.
      * by eapply untaken_open.
      * cbn. by rewrite Er.
    + inv_tx. cbn [fst snd] in *.
      eapply append_staging; [exact Eo|exact Hok|exact Hid|exact En|exact Ed| |exact Hinv]. unfold commits. cbn.
      clearbody action. by destruct action.
Qed.

Lemma submit_staging now fresh_id actor request :
  uuid_in_range fresh_id → tx_moves staging_step (submit_tx now fresh_id actor request).
Proof using Type.
  intros Hid db a db' H. unfold submit_tx in H. apply tx_bind_ok in H as (? & ? & [_ ->]%tx_guard_ok & H).
  apply tx_bind_ok in H as (? & db1 & H1%ensure_node_staging & H). etrans; [exact H1|]. clear H1.
  apply tx_bind_ok in H as (? & ? & [-> ->]%tx_get_ok & H). destruct (find_node _ _) as [node|]; [|done].
  destruct (List.find _ _) as [r|] eqn:Ef; [inv_tx; reflexivity|].
  apply tx_bind_ok in H as (o & db2 & H & H0). inv_tx. by eapply submit_new_staging.
Qed.

(** ** The calls of operators and agents *)

#[local] Hint Resolve ensure_node_staging : tx.

Lemma forward_expired_staging now r : tx_moves staging_step (forward_expired now r).
Proof using Type. intros db b db' (-> & _)%forward_expired_ok. reflexivity. Qed.

Lemma lease_epoch_try_staging e : tx_moves staging_step (lease_epoch_try e).
Proof using Type. intros db b db' [_ ->]%lease_epoch_try_ok. reflexivity. Qed.

#[local] Hint Resolve forward_expired_staging lease_epoch_try_staging : tx.

Lemma take_lease_staging now instance agent r : tx_moves staging_step (take_lease now instance agent r).
Proof using Type. unfold take_lease. tx_frame. Qed.

#[local] Hint Resolve take_lease_staging : tx.

Lemma deliver_staging now id node_id instance agent epoch o s :
  tx_moves staging_step (deliver now id node_id instance agent epoch o s).
Proof using Type. unfold deliver. tx_frame. Qed.

#[local] Hint Resolve deliver_staging : tx.

(** What a statement reads satisfies the invariant. *)
Lemma staging_get {B} (k : NodeDb → Tx B) :
  (∀ db, staging_inv db → tx_moves staging_step (k db)) → tx_moves staging_step (get ≫= k).
Proof using Type. intros H db b db' (? & ? & [-> ->]%tx_get_ok & Hk)%tx_bind_ok Hinv. by eapply (H db Hinv). Qed.

Lemma staging_lift {A B} (r : result Status A) (k : A → Tx B) :
  (∀ a, r = Ok a → tx_moves staging_step (k a)) → tx_moves staging_step (lift r ≫= k).
Proof using Type. intros H db b db' (a & ? & [E ->]%tx_lift_ok & Hk)%tx_bind_ok. by eapply (H a E). Qed.

Lemma claim_staging now clock locked node_id instance agent :
  tx_moves staging_step (claim_tx now clock locked node_id instance agent).
Proof using Type.
  unfold claim_tx. do 6 (apply tx_moves_bind; [apply _|by tx_frame|intros ?]).
  apply staging_get. intros db Hinv. destruct (sort_by _ _) as [|r rest] eqn:Es; [by tx_frame|].
  apply sorted_head in Es as [Hin _]. pose proof (si_range _ Hinv r Hin) as Hid.
  unfold expire_forward. tx_frame. by apply reconcile_staging.
Qed.

Lemma report_proxy_staging now clock id request step agent :
  uuid_in_range id → tx_moves staging_step (report_proxy now clock id request step agent).
Proof using Type. intros Hid. unfold report_proxy, observed_revision_fits. tx_frame; by apply reconcile_staging. Qed.

Lemma report_slot_staging now clock id epoch request step slot pinned agent :
  uuid_in_range id → tx_moves staging_step (report_slot now clock id epoch request step slot pinned agent).
Proof using Type. intros Hid. unfold report_slot, observed_revision_fits. tx_frame; by apply reconcile_staging. Qed.

Lemma report_step_staging now clock request agent : tx_moves staging_step (report_step_tx now clock request agent).
Proof using Type.
  unfold report_step_tx, expire_forward, store_receipt. apply staging_lift. intros id Hid%parse_operation_id_range.
  cbv zeta.
  tx_frame; [by apply report_proxy_staging|by apply report_slot_staging].
Qed.

Lemma report_observation_staging now clock request agent :
  tx_moves staging_step (report_observation_tx now clock request agent).
Proof using Type.
  unfold report_observation_tx, expire_forward. apply staging_lift. intros id Hid%parse_operation_id_range.
  tx_frame; by apply reconcile_staging.
Qed.

Lemma perform_staging c db : call_ok c → staging_step db (perform c db).
Proof using Type.
  intros Hc. destruct c; apply (transact_moves staging_step).
  - by apply submit_staging.
  - apply claim_staging.
  - unfold renew_tx, expire_forward. tx_frame.
  - apply report_observation_staging.
  - apply report_step_staging.
  - unfold resume_tx. tx_frame.
  - unfold cancel_tx. tx_frame.
  - unfold put_agent_policy_tx. tx_frame.
  - unfold attest_tx. tx_frame.
Qed.

(** ** Deployments *)

Section rows.
Context (db db' : NodeDb) (p : DeploymentRow → bool) (f : DeploymentRow → DeploymentRow).
Context (Eo : operations db' = operations db) (Ed : deployments db' = update_where p f (deployments db)).
Context (Hf : ∀ d, allocation (f d) = allocation d ∧ dp_operation_id (f d) = dp_operation_id d).
Context (Hp : ∀ d, p d = true → open_deployment (f d) = true → open_deployment d = true).

Lemma updated_row d' :
  d' ∈ deployments db' →
  ∃ d, d ∈ deployments db ∧ d' = (if p d then f d else d) ∧ allocation d' = allocation d
    ∧ dp_operation_id d' = dp_operation_id d ∧ (open_deployment d' = true → open_deployment d = true).
Proof using Ed Hf Hp.
  rewrite Ed. intros (d & -> & Hd)%elem_of_update_where. exists d. split; [done|]. split; [done|].
  case_match; [|done]. destruct (Hf d). split; [done|]. split; [done|]. by apply Hp.
Qed.

Lemma updated_later d :
  d ∈ deployments db → ∃ d', d' ∈ deployments db' ∧ allocation d' = allocation d ∧
    dp_operation_id d' = dp_operation_id d.
Proof using Ed Hf.
  rewrite Ed. intros Hd. eexists. split; [apply elem_of_update_where; by exists d|]. case_match; [apply Hf|done].
Qed.

Lemma updated_keys : key_of <$> deployments db' = key_of <$> deployments db ∧
  token_of <$> deployments db' = token_of <$> deployments db.
Proof using Ed Hf.
  rewrite Ed. split; apply fmap_update_where; intros d; destruct (Hf d) as [[= E1 E2 E3] _]; unfold key_of, token_of;
    congruence.
Qed.

(** Rows of deployments change without their allocation, and at most the node whose staged
    revision is no longer open is unstaged. *)
Lemma updated_staging :
  nr_node_id <$> nodes db' = nr_node_id <$> nodes db →
  (∀ n', n' ∈ nodes db' → ∃ n, n ∈ nodes db ∧ nr_node_id n' = nr_node_id n
     ∧ (nr_target_revision n' = nr_target_revision n
        ∨ ∀ d', d' ∈ deployments db' → open_deployment d' = true → dp_node_id d' = nr_node_id n →
            nr_target_revision n ≠ Some (dp_revision d'))) →
  (∀ node revision id, staging_inv db → staged node revision db → bound node revision id db → staged node revision db') →
  staging_step db db'.
Proof using Type*.
  intros Hids Hn Hst Hinv. pose proof updated_keys as [Hk Ht]. destruct Hinv as [R O N K T H P B C] eqn:Einv.
  clear Einv.
  split; [split|..]; unfold committed_op; rewrite ?Eo, ?Hk, ?Ht, ?Hids; try done.
  - intros d' (d & Hd & _ & Ea & _)%updated_row. injection Ea as -> _ _ _ _ _ _ _. destruct (H d Hd) as (n & Hin & E).
    assert (dp_node_id d ∈ nr_node_id <$> nodes db') as Hin'.
    { rewrite Hids, <-E. apply list_elem_of_fmap. eauto. }
    apply list_elem_of_fmap in Hin' as (n' & -> & ?). eauto.
  - intros d' n' Hd' Ho Hn' E. destruct (updated_row d' Hd') as (d & Hd & _ & Ea & _ & Hod).
    destruct (Hn n' Hn') as (n & Hin & Ei & Ht'). injection Ea as E1 E2 _ _ _ _ _ _.
    pose proof (P d n Hd (Hod Ho) Hin ltac:(congruence)) as Htn.
    destruct Ht' as [->|Hne]; [congruence|]. destruct (Hne d' Hd' Ho); congruence.
  - intros d' id (d & Hd & _ & Ea & -> & _)%updated_row Hid. injection Ea as _ _ -> _ _ -> _ _. by apply B.
  - intros r Hr Hcm Hu. destruct (C r Hr Hcm Hu) as (d & Hd & Ek & Eid).
    destruct (updated_later d Hd) as (d' & Hd' & Ea & Eid'). exists d'. split; [done|].
    injection Ea as E1 E2 _ _ _ _ _ _. unfold key_of in *. split; congruence.
  - intros node revision id (d & Hd & Ek & Eid).
    destruct (updated_later d Hd) as (d' & Hd' & Ea & Eid'). exists d'. split; [done|].
    injection Ea as E1 E2 _ _ _ _ _ _. unfold key_of in *. split; congruence.
  - intros node revision id Hs Hb. left. by eapply Hst.
  - intros d Hd. destruct (updated_later d Hd) as (d' & Hd' & Ea & _). eauto.
Qed.

Lemma updated_rows_staging : nodes db' = nodes db → staging_step db db'.
Proof using Type*.
  intros En. apply updated_staging; rewrite ?En; [done|eauto|]. intros node revision id _ Hs _. unfold staged.
  by rewrite En.
Qed.

End rows.

Lemma registration_staging db db' : registration db db' → staging_step db db'.
Proof using Type.
  intros (Ho & En & _ & p & Hp & Ed). destruct Ho as [(Eo & _) _].
  eapply updated_rows_staging; [done|exact Ed|done| |done].
  intros d Hd Hopen. unfold open_deployment in *. cbn in Hopen. by rewrite (Hp d Hd).
Qed.

Lemma answer_deployment_staging node_id revision : tx_moves staging_step (answer_deployment node_id revision).
Proof using Type. unfold answer_deployment. tx_frame. Qed.

#[local] Hint Resolve answer_deployment_staging : tx.

Lemma finalize_staging now request actor : tx_moves staging_step (finalize_deployment_tx now request actor).
Proof using Type.
  unfold finalize_deployment_tx. tx_frame. apply tx_moves_modify. intros db.
  by eapply (updated_rows_staging db _ _ (finalized now (fd_resolved_release_digest request))).
Qed.

Lemma key_unique db d1 d2 : staging_inv db → d1 ∈ deployments db → d2 ∈ deployments db → key_of d1 = key_of d2 →
  d1 = d2.
Proof using Type. intros Hi. apply (NoDup_fmap_inj key_of), Hi. Qed.

Lemma node_unique db n1 n2 : staging_inv db → n1 ∈ nodes db → n2 ∈ nodes db → nr_node_id n1 = nr_node_id n2 → n1 = n2.
Proof using Type. intros Hi. apply (NoDup_fmap_inj nr_node_id), Hi. Qed.

(** The staged revision of a deployment that is closed and was never taken up is withdrawn. *)
Lemma unstage_staging db node_id revision d :
  d ∈ deployments db → key_of d = (node_id, revision) → dp_operation_id d = None → open_deployment d = false →
  staging_step db (unstage_node node_id revision db).
Proof using Type.
  intros Hd Ek Eo Hopen Hinv. destruct Hinv as [R O N K T H P B C] eqn:E. clear E.
  assert (nr_node_id <$> nodes (unstage_node node_id revision db) = nr_node_id <$> nodes db) as Hids
    by (cbn; by apply fmap_update_where).
  split; [split|..]; unfold committed_op, bound; rewrite ?Hids; eauto.
  - intros d' Hd'. destruct (H d' Hd') as (n & Hn & En). cbn [nodes set_nodes unstage_node].
    eexists. split; [apply elem_of_update_where; by exists n|]. by case_match.
  - intros d' n' Hd' Ho (n & -> & Hn)%elem_of_update_where En.
    destruct (is_node node_id n && _) eqn:Ep; [|by eapply P]. cbn in En. pose proof (P _ _ Hd' Ho Hn En) as Ht.
    apply andb_true_iff in Ep as [Ei Ep%bool_decide_eq_true]. apply String.eqb_eq in Ei.
    assert (d' = d) as -> by (eapply key_unique; [done..|]; unfold key_of in *; congruence). congruence.
  - intros node rev id (n & Hn & En & Et) (d' & Hd' & Ek' & Eid). left. exists n. split; [|done].
    apply elem_of_update_where. exists n. split; [|done].
    destruct (is_node node_id n && _) eqn:Ep; [|done].
    apply andb_true_iff in Ep as [Ei Ep%bool_decide_eq_true]. apply String.eqb_eq in Ei.
    assert (d' = d) as -> by (eapply key_unique; [done..|]; congruence). congruence.
Qed.

Lemma abandon_staging now node_id token actor : tx_moves staging_step (abandon_deployment_tx now node_id token actor).
Proof using Type.
  intros db a db' Ht. unfold abandon_deployment_tx in Ht. inv_tx; [by eapply answer_deployment_staging|].
  rename select (List.find _ _ = Some _) into Hf. apply find_elem in Hf as [Hd [En Et]%andb_true_iff].
  etrans; [|etrans; [|etrans]].
  - by eapply (updated_rows_staging db (set_deployments _ db)
      (is_deployment node_id (dp_revision d)) (set_dp_state "failed" (Some now))).
  - eapply (unstage_staging _ node_id (dp_revision d) (set_dp_state "failed" (Some now) d)); cbn; try done.
    + apply elem_of_update_where. exists d. split; [|done]. unfold is_deployment. by rewrite En, Z.eqb_refl.
    + unfold key_of. cbn. f_equal. by apply String.eqb_eq.
    + by destruct (dp_operation_id d).
  - by eapply fence_cleanup_staging.
  - by eapply answer_deployment_staging.
Qed.

Lemma foldr_max_le l x : x ∈ l → (x ≤ foldr Z.max 0 l)%Z.
Proof using Type. induction 1; cbn; lia. Qed.

Lemma next_revision_fresh db node_id d :
  d ∈ deployments db → dp_node_id d = node_id → (dp_revision d < next_revision node_id db)%Z.
Proof using Type.
  intros Hd En. unfold next_revision. apply Z.lt_succ_r, foldr_max_le, list_elem_of_fmap.
  exists d. split; [done|]. apply list_elem_of_In, filter_In. split; [by apply list_elem_of_In|].
  by apply String.eqb_eq.
Qed.

(** A fresh revision is staged on a node that has none, under a fresh token. *)
Lemma allocate_staging db n d :
  n ∈ nodes db → nr_target_revision n = None → dp_node_id d = nr_node_id n →
  dp_revision d = next_revision (dp_node_id d) db → dp_operation_id d = None →
  List.find (is_attempt (dp_node_id d) (dp_attempt_token d)) (deployments db) = None →
  staging_step db (set_deployments (deployments db ++ [d]) (stage_node (dp_node_id d) (Some (dp_revision d)) db)).
Proof using Type.
  intros Hn Ht En Er Eo Hnone Hinv. destruct Hinv as [R O N K T H P B C] eqn:E. clear E.
  assert (∀ n', n' ∈ nodes db → is_node (dp_node_id d) n' = true → n' = n) as Hu.
  { intros n' Hn' Hi%String.eqb_eq. by eapply node_unique; [..|congruence]. }
  assert (∀ d', d' ∈ deployments db → open_deployment d' = true → dp_node_id d' ≠ dp_node_id d) as Hclosed.
  { intros d' Hd' Ho E. pose proof (P _ _ Hd' Ho Hn ltac:(congruence)). congruence. }
  set (db' := set_deployments _ _).
  assert (nr_node_id <$> nodes db' = nr_node_id <$> nodes db) as Hids by (cbn; by apply fmap_update_where).
  split; [split|..]; unfold committed_op, bound; rewrite ?Hids; try done.
  - cbn. rewrite fmap_app. apply NoDup_app. split; [done|]. split; [|apply NoDup_singleton].
    intros x (d' & -> & Hd')%list_elem_of_fmap Hx%list_elem_of_singleton. injection Hx as E1 E2.
    pose proof (next_revision_fresh db _ d' Hd' E1). lia.
  - cbn. rewrite fmap_app. apply NoDup_app. split; [done|]. split; [|apply NoDup_singleton].
    intros x (d' & -> & Hd')%list_elem_of_fmap Hx%list_elem_of_singleton. injection Hx as E1 E2.
    pose proof (find_none _ _ Hnone) as Hfresh. apply Hfresh in Hd'. unfold is_attempt in Hd'.
    by rewrite E1, E2, !String.eqb_refl in Hd'.
  - assert (∀ n0, n0 ∈ nodes db → ∃ n', n' ∈ nodes db' ∧ nr_node_id n' = nr_node_id n0) as Hlater.
    { intros n0 Hn0. eexists. split; [apply elem_of_update_where; by exists n0|]. by case_match. }
    intros d' [Hd'|Hx%list_elem_of_singleton]%elem_of_app; [|subst d'; rewrite En; by apply Hlater].
    destruct (H d' Hd') as (n0 & Hn0 & <-). by apply Hlater.
  - intros d' n' Hd' Ho (n0 & -> & Hn0)%elem_of_update_where.
    apply elem_of_app in Hd' as [Hd'|Hx%list_elem_of_singleton].
    + destruct (is_node _ n0) eqn:Ei; [|by eapply P]. cbn. apply String.eqb_eq in Ei.
      intros E. destruct (Hclosed d' Hd' Ho). congruence.
    + subst d'. destruct (is_node _ n0) eqn:Ei; [done|]. apply String.eqb_neq in Ei. done.
  - intros d' id [Hd'|Hx%list_elem_of_singleton]%elem_of_app Hid; [by eapply B|subst; congruence].
  - intros r Hr Hcm Hun. destruct (C r Hr Hcm Hun) as (d' & Hd' & Hk). exists d'. split; [|done]. apply elem_of_app.
    by left.
  - intros node rev id (d' & Hd' & Hk). exists d'. split; [|done]. apply elem_of_app. by left.
  - intros node rev id (n0 & Hn0 & E0 & Et) _. left. exists n0. split; [|done].
    apply elem_of_update_where. exists n0. split; [|done].
    destruct (is_node _ n0) eqn:Ei; [|done]. apply Hu in Ei as ->; [|done]. congruence.
  - intros d' Hd'. exists d'. split; [|done]. apply elem_of_app. by left.
Qed.

Section allocation.
Context `{SV : SemverLib, HL : HttpLib, CC : CleanupCodec}.
Context (uri_to_string : Uri → string) (inventory_encoded_len : DeploymentInventoryV1 → Z).

Lemma insert_deployment_staging db n token bundle inventory digest source actor u db' :
  find_node (nr_node_id n) db = Some n → nr_target_revision n = None →
  List.find (is_attempt (nr_node_id n) token) (deployments db) = None →
  insert_deployment (nr_node_id n) (next_revision (nr_node_id n) db) token bundle inventory digest source actor
    (stage_node (nr_node_id n) (Some (next_revision (nr_node_id n) db)) db) = Ok (u, db') →
  staging_step db db'.
Proof using Type.
  intros [Hn _]%find_elem Ht Hnone H. unfold insert_deployment in H. inv_tx.
  by apply (allocate_staging db n (mkDeploymentRow (nr_node_id n) (next_revision (nr_node_id n) db) token bundle inventory
    "pending" None None None "" None actor digest source)).
Qed.

Lemma find_node_named node_id db n : find_node node_id db = Some n → nr_node_id n = node_id.
Proof using Type. intros [_ H]%find_elem. by apply String.eqb_eq. Qed.

Lemma begin_staging now request actor :
  tx_moves staging_step (begin_deployment_tx uri_to_string inventory_encoded_len now request actor).
Proof using Type.
  intros db a db' Ht. unfold begin_deployment_tx, staged_conflict in Ht.
  apply tx_bind_ok in Ht as (inventory & db0 & [_ ->]%tx_lift_ok & Ht). cbv zeta in Ht.
  apply tx_bind_ok in Ht as ([] & db1 & [_ ->]%tx_guard_ok & Ht).
  apply tx_bind_ok in Ht as ([] & db1 & Hen & Ht). etrans; [by eapply ensure_node_staging|].
  clear Hen. inv_tx; [reflexivity|].
  rename select (find_node _ _ = _) into Hf. pose proof (find_node_named _ _ _ Hf) as E. rewrite <-E in *.
  etrans; [|etrans]; [by eapply insert_deployment_staging|by eapply fence_cleanup_staging|by eapply answer_deployment_staging].
Qed.

Lemma rollback_staging node_id to_revision token actor :
  tx_moves staging_step (begin_rollback_tx uri_to_string inventory_encoded_len node_id to_revision token actor).
Proof using Type.
  intros db a db' Ht. unfold begin_rollback_tx, staged_conflict in Ht. inv_tx; [reflexivity|..];
    rename select (find_node _ _ = _) into Hf; pose proof (find_node_named _ _ _ Hf) as E; rewrite <-E in *;
    (etrans; [by eapply insert_deployment_staging|by eapply answer_deployment_staging]).
Qed.

(** ** The cleanup of releases *)

Lemma update_cleanups_same p f : tx_moves same_staging (update_cleanups p f).
Proof using Type. unfold update_cleanups, alter_cleanup. tx_frame. Qed.

Lemma update_generations_same p v : tx_moves same_staging (update_generations p v).
Proof using Type. unfold update_generations, alter_cleanup. tx_frame. Qed.

#[local] Hint Resolve update_cleanups_same update_generations_same : tx.

Lemma materialize_same now policy generation row : tx_moves same_staging (materialize now policy generation row).
Proof using Type. unfold materialize, alter_cleanup. tx_frame. Qed.

#[local] Hint Resolve materialize_same : tx.

Lemma reconcile_cleanups_same now clock rows : tx_moves same_staging (reconcile_cleanups now clock rows).
Proof using Type. induction rows as [|row rows IH]; cbn [reconcile_cleanups]; unfold reconcile_cleanup; tx_frame. Qed.

#[local] Hint Resolve reconcile_cleanups_same : tx.

Definition is_cleanup_call (c : SystemCall) : bool :=
  match c with
  | SReconcile _ _ _ _ | SClaimCleanup _ _ _ _ _ _ | SRenewCleanup _ _ _ | SReportCleanup _ _ _
  | SRetryCleanup _ _ _ => true
  | _ => false
  end.

Lemma cleanup_call_same c db :
  is_cleanup_call c = true → same_staging db (perform_system uri_to_string inventory_encoded_len c db).
Proof using Type.
  intros Hc. destruct c; try done; apply (transact_moves same_staging).
  - unfold reconcile_node_cleanup_batch_tx. tx_frame.
  - unfold claim_node_cleanup_tx. tx_frame.
  - unfold renew_node_cleanup_tx. tx_frame.
  - unfold report_node_cleanup_result_tx, store_cleanup_result, get_cleanup_summary_in, alter_cleanup. tx_frame.
  - unfold retry_node_cleanup_tx. tx_frame.
Qed.

(** ** Runs *)

Lemma system_staging db db' : system_step uri_to_string inventory_encoded_len db db' → staging_step db db'.
Proof using Type.
  intros [c Hc|db1 Hr]; [|by apply registration_staging].
  destruct c; try (by apply same_staging_step, cleanup_call_same);
    [by apply perform_staging|apply (transact_moves staging_step)..].
  - apply begin_staging.
  - apply finalize_staging.
  - apply abandon_staging.
  - apply rollback_staging.
Qed.

Lemma initial_staging db : system_initial db → staging_inv db.
Proof using Type.
  intros [Hi (En & Ed & _)]. assert (operations db = []) as Eo by apply Hi.
  assert (∀ {A} (x : A), x ∉ []) as Hnil by (intros A x; apply not_elem_of_nil).
  split; rewrite ?Eo, ?En, ?Ed; try done; try (intros; exfalso; by eapply Hnil); apply NoDup_nil_2.
Qed.

Lemma steps_staging db db' : rtc (system_step uri_to_string inventory_encoded_len) db db' → staging_step db db'.
Proof using Type. induction 1; [reflexivity|]. etrans; [by apply system_staging|done]. Qed.

Lemma reachable_staging db : system_reachable uri_to_string inventory_encoded_len db → staging_inv db.
Proof using Type. intros (db0 & Hi%initial_staging & Hs%steps_staging). by apply Hs. Qed.

(** ** What follows *)

Lemma steps_allocation db db' d :
  staging_inv db → rtc (system_step uri_to_string inventory_encoded_len) db db' → d ∈ deployments db →
  ∃ d', d' ∈ deployments db' ∧ allocation d' = allocation d.
Proof using Type. intros Hi Hs. by apply (steps_staging _ _ Hs Hi). Qed.

(** The one row of a node's attempt. *)
Lemma find_attempt db d :
  staging_inv db → d ∈ deployments db →
  List.find (is_attempt (dp_node_id d) (dp_attempt_token d)) (deployments db) = Some d.
Proof using Type.
  intros Hi Hd. destruct (List.find _ _) as [d'|] eqn:E.
  - apply find_elem in E as [Hd' [E1%String.eqb_eq E2%String.eqb_eq]%andb_true_iff].
    f_equal. eapply (NoDup_fmap_inj token_of); [apply (si_tokens _ Hi)|done..|]. unfold token_of. congruence.
  - apply (find_none _ _ E) in Hd. unfold is_attempt in Hd. by rewrite !String.eqb_refl in Hd.
Qed.

Lemma find_home db d : staging_inv db → d ∈ deployments db → ∃ n, find_node (dp_node_id d) db = Some n.
Proof using Type.
  intros Hi Hd. destruct (si_home _ Hi d Hd) as (n & Hn & En). destruct (find_node _ _) eqn:E; [eauto|].
  apply (find_none _ _ E) in Hn. cbn in Hn. by rewrite En, String.eqb_refl in Hn.
Qed.

Lemma ensure_node_home node_id db n : find_node node_id db = Some n → ensure_node node_id db = db.
Proof using Type. unfold ensure_node. by intros ->. Qed.

(** What a request to begin a deployment agrees with, and the record it is answered with. *)
Definition begun (request : BeginDeploymentRequest) (actor : string) (d : DeploymentRow) (record : DeploymentRecord) : Prop :=
  dp_node_id d = bd_node_id request ∧ dp_attempt_token d = bd_attempt_token request
  ∧ dp_bundle_digest d = bd_bundle_digest request ∧ dp_allocated_by d = actor ∧ dp_source_revision d = 0%Z
  ∧ required_inventory uri_to_string inventory_encoded_len (bd_inventory request) = Ok (dp_inventory d)
  ∧ deployment_row d = Ok record.

Lemma begun_allocation request actor d d' record :
  allocation d' = allocation d → begun request actor d record → begun request actor d' record.
Proof using Type.
  intros Ea Hb. injection Ea as E1 E2 E3 E4 E5 E6 E7 E8. unfold begun, deployment_row in *.
  by rewrite E1, E2, E3, E4, E5, E6, E7, E8.
Qed.

Lemma transact_ok {A} (t : Tx (result Status A)) db a db' : transact t db = (Ok a, db') → t db = Ok (Ok a, db').
Proof using Type. unfold transact. destruct (t db) as [[r db1]|e]; [|done]. by intros [= -> ->]. Qed.

Lemma answer_deployment_ok node_id revision db record db' :
  answer_deployment node_id revision db = Ok (Ok record, db') →
  db' = db ∧ ∃ d, d ∈ deployments db ∧ key_of d = (node_id, revision) ∧ deployment_row d = Ok record.
Proof using Type.
  intros H. unfold answer_deployment in H. inv_tx. rename select (find_deployment _ _ _ = _) into Hf.
  apply find_deployment_elem in Hf as [? ?]. eauto 6.
Qed.

Lemma insert_deployment_row node_id revision token bundle inventory digest source actor db u db' :
  insert_deployment node_id revision token bundle inventory digest source actor db = Ok (u, db') →
  ∃ d, d ∈ deployments db' ∧ allocation d = (node_id, revision, token, bundle, inventory, actor, (digest, source)).
Proof using Type.
  intros H. unfold insert_deployment in H. inv_tx. eexists. split; [apply elem_of_app; right; by left|done].
Qed.

Lemma begin_begun now request actor db record db' :
  staging_inv db → begin_deployment uri_to_string inventory_encoded_len now request actor db = (Ok record, db') →
  (forallb pg_text [bd_node_id request] = true ∧ forallb pg_text [bd_attempt_token request] = true)
  ∧ ∃ d, d ∈ deployments db' ∧ begun request actor d record.
Proof using Type.
  intros Hi Ht%transact_ok. pose proof (begin_staging _ _ _ _ _ _ Ht Hi) as [Hi' _ _ _ _].
  unfold begin_deployment_tx, staged_conflict in Ht. inv_tx; (split; [done|]).
  - rename select (List.find _ _ = _) into Hf.
    apply find_elem in Hf as [Hd [E1%String.eqb_eq E2%String.eqb_eq]%andb_true_iff].
    exists d. split; [done|]. rename select (_ && _ = true) into Hg.
    apply andb_true_iff in Hg as [[[Ea%String.eqb_eq Eb%String.eqb_eq]%andb_true_iff Ei%bool_decide_eq_true]%andb_true_iff Es%Z.eqb_eq].
    subst. by repeat split.
  - rename select (insert_deployment _ _ _ _ _ _ _ _ _ = _) into Hins.
    rename select (fence_cleanup_authority _ _ _ _ = _) into Hfc.
    apply answer_deployment_ok in Ht as (-> & d & Hd & Ek & Er). apply fence_cleanup_same in Hfc as (_ & _ & Ed).
    apply insert_deployment_row in Hins as (row & Hrow & Ha). rewrite <-Ed in Hrow.
    assert (d = row) as -> by (eapply key_unique; [done..|]; unfold key_of in *; injection Ha; congruence).
    exists row. split; [done|]. injection Ha as E1 E2 E3 E4 E5 E6 E7 E8. by rewrite <-E5 in *.
Qed.

Lemma begun_replays now request actor db d record :
  staging_inv db → forallb pg_text [bd_node_id request] = true ∧ forallb pg_text [bd_attempt_token request] = true →
  d ∈ deployments db → begun request actor d record →
  begin_deployment uri_to_string inventory_encoded_len now request actor db = (Ok record, db).
Proof using Type.
  intros Hi [T1 T2] Hd (E1 & E2 & E3 & E4 & E5 & E6 & E7). destruct (find_home _ _ Hi Hd) as [n Hn].
  pose proof (find_attempt _ _ Hi Hd) as Hf. rewrite E1 in Hn. rewrite E1, E2 in Hf.
  unfold begin_deployment, transact, begin_deployment_tx, bind_texts, guard_tx, lift, get, modify, mbind, tx_bind, mret, tx_ret, rbind.
  rewrite E6. cbn beta iota zeta. rewrite T1. cbn beta iota. rewrite (ensure_node_home _ _ _ Hn), T2. cbn beta iota.
  rewrite Hn, Hf, E7, E3, E4, E5. cbn beta iota.
  by rewrite !String.eqb_refl, bool_decide_eq_true_2.
Qed.

(** C20. An attempt names one deployment for good: once a request to begin a deployment is
    accepted, the same request of the same actor is answered with the same record and changes
    nothing, whatever calls and registrations come in between. *)
Theorem deployment_attempts_are_idempotent now request actor db record db1 db2 now' :
  system_reachable uri_to_string inventory_encoded_len db →
  begin_deployment uri_to_string inventory_encoded_len now request actor db = (Ok record, db1) →
  rtc (system_step uri_to_string inventory_encoded_len) db1 db2 →
  begin_deployment uri_to_string inventory_encoded_len now' request actor db2 = (Ok record, db2).
Proof using Type.
  intros Hr Hb Hs. destruct (begin_begun _ _ _ _ _ _ (reachable_staging _ Hr) Hb) as (Ht & d & Hd & Hd').
  assert (system_reachable uri_to_string inventory_encoded_len db1) as Hr1.
  { eapply system_reachable_steps; [exact Hr|]. apply rtc_once.
    replace db1 with (perform_system uri_to_string inventory_encoded_len (SBegin now request actor) db) by (cbn; by rewrite Hb).
    by apply ss_call. }
  destruct (steps_allocation _ _ d (reachable_staging _ Hr1) Hs Hd) as (d2 & Hd2 & Ea).
  eapply begun_replays; [|done..|by eapply begun_allocation].
  eapply reachable_staging, system_reachable_steps; done.
Qed.

Lemma finished_uncommitted db db' r :
  system_reachable uri_to_string inventory_encoded_len db →
  rtc (system_step uri_to_string inventory_encoded_len) db db' →
  r ∈ operations db → is_active r = false → or_committed r = false → ¬ committed_op (or_operation_id r) db'.
Proof using Type.
  intros Hre Hs Hr Ha Hu (r' & Hr' & Ei & Hc). pose proof (system_reachable_node _ _ _ Hre) as Hn.
  pose proof (reachable_ok _ Hn) as Hdb.
  destruct (node_steps_moves _ _ (system_node_steps _ _ _ _ Hs) Hdb) as [Hdb' Hm].
  specialize (Hm (or_operation_id r)). pose proof (row_view _ _ Hdb Hr) as Hv.
  pose proof (row_view _ _ Hdb' Hr') as Hv'.
  rewrite Ei in Hv'. destruct (op_view (or_operation_id r) db) as [o ts]. cbn in Hv. subst o.
  apply op_moves_final in Hm; [|done]. rewrite Hm in Hv'. injection Hv' as ->. congruence.
Qed.

Lemma find_staged db node_id revision :
  staging_inv db → staged node_id revision db →
  ∃ n, find_node node_id db = Some n ∧ nr_target_revision n = Some revision.
Proof using Type.
  intros Hi (n & Hn & En & Et). destruct (find_node node_id db) as [n'|] eqn:E.
  - exists n'. split; [done|]. pose proof (find_node_named _ _ _ E). apply find_elem in E as [Hn' _].
    by rewrite (node_unique db n' n) by congruence.
  - apply (find_none _ _ E) in Hn. cbn in Hn. by rewrite En, String.eqb_refl in Hn.
Qed.

Definition fresh_token (node_id token : string) (db : NodeDb) : Prop :=
  List.find (is_attempt node_id token) (deployments db) = None.

Lemma transact_refused {A} (t : Tx (result Status A)) db :
  (∀ r db', t db ≠ Ok (r, db')) → ∃ e, transact t db = (Err e, db).
Proof using Type. intros H. unfold transact. destruct (t db) as [[r db']|e]; [|eauto]. by destruct (H r db'). Qed.

Lemma staged_blocks_begin db n now request actor :
  find_node (bd_node_id request) db = Some n → is_Some (nr_target_revision n) →
  fresh_token (bd_node_id request) (bd_attempt_token request) db →
  ∃ e, begin_deployment uri_to_string inventory_encoded_len now request actor db = (Err e, db).
Proof using Type.
  intros Hn [t Ht] Hf. apply transact_refused. intros r db' H. unfold begin_deployment_tx, staged_conflict in H.
  inv_tx; rewrite (ensure_node_home _ _ _ Hn) in *; unfold fresh_token in Hf; congruence.
Qed.

Lemma staged_blocks_rollback db n node_id to_revision token actor :
  find_node node_id db = Some n → is_Some (nr_target_revision n) → fresh_token node_id token db →
  ∃ e, begin_rollback uri_to_string inventory_encoded_len node_id to_revision token actor db = (Err e, db).
Proof using Type.
  intros Hn [t Ht] Hf. apply transact_refused. intros r db' H. unfold begin_rollback_tx, staged_conflict in H.
  inv_tx; unfold fresh_token in Hf; congruence.
Qed.

Lemma bound_blocks_abandon db now d id actor :
  staging_inv db → d ∈ deployments db → dp_operation_id d = Some id →
  (abandon_deployment now (dp_node_id d) (dp_attempt_token d) actor db).2 = db.
Proof using Type.
  intros Hi Hd Hid. unfold abandon_deployment, transact.
  destruct (abandon_deployment_tx _ _ _ _ _) as [[r db']|e] eqn:E; [|done].
  cbn. unfold abandon_deployment_tx in E. pose proof (find_attempt _ _ Hi Hd) as Hf. unfold answer_deployment in E.
  inv_tx; try done; rewrite Hid in *; discriminate.
Qed.

(** C33. A deployment that failed or was cancelled blocks its node: the revision stays staged in
    every later state, every new attempt to deploy or roll back is refused, and the staged
    allocation cannot be abandoned. *)
Theorem failed_deployment_blocks_node db db' d r :
  system_reachable uri_to_string inventory_encoded_len db →
  d ∈ deployments db → staged (dp_node_id d) (dp_revision d) db → dp_operation_id d = Some (or_operation_id r) →
  r ∈ operations db → is_active r = false → or_committed r = false →
  rtc (system_step uri_to_string inventory_encoded_len) db db' →
  staged (dp_node_id d) (dp_revision d) db'
  ∧ (∀ now request actor, bd_node_id request = dp_node_id d →
       fresh_token (dp_node_id d) (bd_attempt_token request) db' →
       ∃ e, begin_deployment uri_to_string inventory_encoded_len now request actor db' = (Err e, db'))
  ∧ (∀ to_revision token actor, fresh_token (dp_node_id d) token db' →
       ∃ e, begin_rollback uri_to_string inventory_encoded_len (dp_node_id d) to_revision token actor db' = (Err e, db'))
  ∧ (∀ now actor, (abandon_deployment now (dp_node_id d) (dp_attempt_token d) actor db').2 = db').
Proof using Type.
  intros Hre Hd Hst Hid Hr Ha Hu Hs. pose proof (reachable_staging _ Hre) as Hi.
  destruct (steps_staging _ _ Hs Hi) as [Hi' _ HB HS HR].
  assert (bound (dp_node_id d) (dp_revision d) (or_operation_id r) db) as Hb by (exists d; by split).
  destruct (HS _ _ _ Hst Hb) as [Hst'|Hc]; [|by destruct (finished_uncommitted db db' r)].
  destruct (find_staged _ _ _ Hi' Hst') as (n & Hn & Ht). split; [done|]. split; [|split].
  - intros now request actor E Hf. eapply staged_blocks_begin; rewrite ?E; [done|by rewrite Ht|done].
  - intros to_revision token actor Hf. eapply staged_blocks_rollback; [done|by rewrite Ht|done].
  - intros now actor. destruct (HR d Hd) as (d1 & Hd1 & Ea). destruct (HB _ _ _ Hb) as (d2 & Hd2 & Ek & Hid2).
    injection Ea as E1 E2 E3 _ _ _ _ _.
    assert (d2 = d1) as -> by (eapply key_unique; [done..|]; unfold key_of in *; congruence).
    rewrite <-E1, <-E3. by eapply bound_blocks_abandon.
Qed.

End allocation.
End calls.
