(* ===== verification/NodeFences.v ===== *)
(** * What operations and deployments change of release cleanup

    The calls on operations and deployments touch the cleanup of a node by fencing its
    authority alone. *)

From S2P Require Import Prelude RustStr Utf8 Lists Orders Externals Grpc Lifecycle IndexedRouting Deployment Rollout Schedule Operations NodeStatus NodeTables NodeStore NodeSubmit NodeRun NodeAgent NodeReport NodeTx NodeSteps NodeLoad NodeRefine NodeRefineTx NodeFacts NodeDeploy NodeCleanup NodeSystem NodeStaging.

Definition row_fenced (c c' : CleanupRow) : Prop :=
  c' = c
  ∨ cl_node_id c' = cl_node_id c ∧ cl_known_inventory c' = cl_known_inventory c ∧ cl_state c' = "needs_reconcile".

#[global] Instance row_fenced_preorder : PreOrder row_fenced.
Proof.
  split; [by left|]. intros a b c [->|(E1 & E2 & E3)] [->|(F1 & F2 & F3)]; [by left|by right..|].
  right. repeat split; congruence.
Qed.

Definition positive (db : NodeDb) : Prop := ∀ d, d ∈ deployments db → (0 < dp_revision d)%Z.

Definition fences (db db' : NodeDb) : Prop :=
  Forall2 row_fenced (cleanups (cleanup db)) (cleanups (cleanup db'))
  ∧ (deletions (cleanup db'), cleanup_receipts (cleanup db')) = (deletions (cleanup db), cleanup_receipts (cleanup db))
  ∧ (positive db → positive db').

#[global] Instance fences_preorder : PreOrder fences.
Proof.
  split; [done|]. intros a b c (F1 & D1 & K1) (F2 & D2 & K2). split; [by etrans|]. split; [congruence|auto].
Qed.

Lemma keys_positive db db' :
  (key_of <$> deployments db') = (key_of <$> deployments db) → positive db → positive db'.
Proof.
  intros E Hp d Hd. apply (list_elem_of_fmap_2 key_of) in Hd. rewrite E in Hd.
  apply list_elem_of_fmap in Hd as (d0 & [= _ ->] & Hd0). by apply Hp.
Qed.

Section calls.
Context `{CL : CollationLib, UL : UuidLib, SH : Sha256Lib}.

Lemma fenced_rows now node_id l : Forall2 row_fenced l (update_where (is_cleanup_of node_id) (fenced_cleanup now) l).
Proof using Type.
  induction l as [|c l IH]; cbn; [constructor|]. constructor; [|exact IH]. case_match; [by right|by left].
Qed.

Lemma fence_cleanup_fences now node_id reason : tx_moves fences (fence_cleanup_authority now node_id reason).
Proof using Type.
  unfold fence_cleanup_authority, alter_cleanup. tx_frame. apply tx_moves_modify. intros db. split; [|done].
  apply fenced_rows.
Qed.

Lemma update_targets_fences p f : tx_moves fences (update_targets p f).
Proof using Type. by intros db u db' [-> _]%update_targets_ok. Qed.

Lemma update_operations_fences p f : tx_moves fences (update_operations p f).
Proof using Type. by intros db u db' (-> & _)%update_operations_ok. Qed.

Lemma append_event_fences id actor code detail epoch : tx_moves fences (append_event id actor code detail epoch).
Proof using Type. by intros db u db' [l ->]%append_event_ok. Qed.

#[local] Hint Resolve append_event_fences : tx.

Lemma append_events_fences actor code detail rows : tx_moves fences (append_events actor code detail rows).
Proof using Type. induction rows as [|r rows IH]; simpl; tx_frame. Qed.

Lemma modify_fences f : (∀ db, cleanup (f db) = cleanup db ∧ key_of <$> deployments (f db) = key_of <$> deployments db) → tx_moves fences (modify f).
Proof using Type.
  intros Hf. apply tx_moves_modify. intros db. destruct (Hf db) as [E1 E2]. unfold fences. rewrite E1.
  split; [done|]. split; [done|]. by apply keys_positive.
Qed.

#[local] Hint Resolve append_events_fences fence_cleanup_fences update_targets_fences update_operations_fences : tx.
#[local] Hint Extern 3 (tx_moves _ (modify _)) => apply modify_fences; done : tx.

Lemma enter_restoration_fences id actor terminal code detail :
  tx_moves fences (enter_restoration id actor terminal code detail).
Proof using Type. unfold enter_restoration. tx_frame. Qed.

Lemma set_slot_condition_fences id slot code detail : tx_moves fences (set_slot_condition id slot code detail).
Proof using Type. unfold set_slot_condition. tx_frame. Qed.

Lemma advance_slot_fences id slot next revision : tx_moves fences (advance_slot id slot next revision).
Proof using Type. unfold advance_slot. tx_frame. Qed.

Lemma switch_authority_fences now node_id slot revision :
  tx_moves fences (switch_authority now node_id slot revision).
Proof using Type. unfold switch_authority. tx_frame. Qed.

#[local] Hint Resolve enter_restoration_fences set_slot_condition_fences advance_slot_fences switch_authority_fences : tx.

Lemma pause_with_condition_fences id slot code detail : tx_moves fences (pause_with_condition id slot code detail).
Proof using Type. unfold pause_with_condition. tx_frame. Qed.

#[local] Hint Resolve pause_with_condition_fences : tx.

Lemma restore_slot_fences now id snapshot operation s : tx_moves fences (restore_slot now id snapshot operation s).
Proof using Type. unfold restore_slot. tx_frame. Qed.

Lemma reconcile_forward_fences now id snapshot operation s :
  tx_moves fences (reconcile_forward now id snapshot operation s).
Proof using Type.
  unfold reconcile_forward. destruct (sl_next_step s);
    unfold reconcile_stop, reconcile_select, reconcile_start, reconcile_verify, verify_pending, verify_source,
      verify_replacement, reconcile_switch, reconcile_serving, retract_delivery, pin_slot, mark_changed; tx_frame.
Qed.

Lemma commit_deployment_fences node_id target : tx_moves fences (modify (commit_deployment node_id target)).
Proof using Type. apply modify_fences. intros db. split; [done|]. by apply fmap_update_where. Qed.

#[local] Hint Resolve commit_deployment_fences restore_slot_fences reconcile_forward_fences : tx.

Lemma finish_operation_fences now id actor operation : tx_moves fences (finish_operation now id actor operation).
Proof using Type. unfold finish_operation. tx_frame. Qed.

#[local] Hint Resolve finish_operation_fences : tx.

Lemma reconcile_fences now clock id actor : tx_moves fences (reconcile now clock id actor).
Proof using Type. unfold reconcile, reconcile_slot, clear_slot_condition. tx_frame. Qed.

Lemma forward_expired_fences now r : tx_moves fences (forward_expired now r).
Proof using Type. by intros db b db' (-> & _)%forward_expired_ok. Qed.

Lemma lease_epoch_try_fences e : tx_moves fences (lease_epoch_try e).
Proof using Type. by intros db b db' [_ ->]%lease_epoch_try_ok. Qed.

Lemma put_operations_fences e l : tx_moves fences (put_operations e l).
Proof using Type. by intros db u db' [-> _]%put_operations_ok. Qed.

Lemma put_targets_fences l : tx_moves fences (put_targets l).
Proof using Type. by intros db u db' [-> _]%put_targets_ok. Qed.

Lemma ensure_node_fences node_id : tx_moves fences (modify (ensure_node node_id)).
Proof using Type. apply modify_fences. intros db. unfold ensure_node. by case_match. Qed.

#[local] Hint Resolve reconcile_fences forward_expired_fences lease_epoch_try_fences put_operations_fences put_targets_fences
  ensure_node_fences : tx.

Lemma store_operation_fences now id actor request p digest slots :
  tx_moves fences (store_operation now id actor request p digest slots).
Proof using Type.
  unfold store_operation. tx_frame. apply modify_fences. intros db. split; [done|]. by apply fmap_update_where.
Qed.

Lemma submit_no_effect_fences now id actor request p : tx_moves fences (submit_no_effect now id actor request p).
Proof using Type. unfold submit_no_effect. tx_frame. Qed.

Lemma take_lease_fences now instance agent r : tx_moves fences (take_lease now instance agent r).
Proof using Type. unfold take_lease. tx_frame. Qed.

#[local] Hint Resolve store_operation_fences submit_no_effect_fences take_lease_fences : tx.

Lemma perform_fences c db : fences db (perform c db).
Proof using Type.
  destruct c; apply (transact_moves fences).
  - unfold submit_tx, submit_new, staged_target, deployment_inventory. tx_frame.
  - unfold claim_tx, expire_forward, deliver. tx_frame.
  - unfold renew_tx, expire_forward. tx_frame.
  - unfold report_observation_tx, expire_forward. tx_frame.
  - unfold report_step_tx, expire_forward, store_receipt, report_proxy, report_slot, observed_revision_fits. tx_frame.
  - unfold resume_tx. tx_frame.
  - unfold cancel_tx. tx_frame.
  - unfold put_agent_policy_tx. tx_frame.
  - unfold attest_tx. tx_frame.
Qed.

(** ** Deployments *)

Lemma answer_deployment_fences node_id revision : tx_moves fences (answer_deployment node_id revision).
Proof using Type. unfold answer_deployment. tx_frame. Qed.

#[local] Hint Resolve answer_deployment_fences : tx.

Lemma next_revision_positive node_id db : (0 < next_revision node_id db)%Z.
Proof using Type.
  unfold next_revision. generalize (dp_revision <$> List.filter (λ d, String.eqb (dp_node_id d) node_id) (deployments db)). induction l; cbn in *; lia.
Qed.

Lemma insert_deployment_fences node_id revision token bundle inventory digest source actor :
  (0 < revision)%Z → tx_moves fences (insert_deployment node_id revision token bundle inventory digest source actor).
Proof using Type.
  intros Hr. unfold insert_deployment. tx_frame. apply tx_moves_modify. intros db. split; [done|]. split; [done|].
  intros Hp d [Hd|Hd%list_elem_of_singleton]%elem_of_app; [by apply Hp|by subst].
Qed.

#[local] Hint Resolve insert_deployment_fences next_revision_positive : tx.

Section allocation.
Context `{SV : SemverLib, HL : HttpLib, CC : CleanupCodec}.
Context (uri_to_string : Uri → string) (inventory_encoded_len : DeploymentInventoryV1 → Z).

Lemma begin_fences now request actor : tx_moves fences (begin_deployment_tx uri_to_string inventory_encoded_len now request actor).
Proof using Type. unfold begin_deployment_tx, staged_conflict. tx_frame. Qed.

Lemma finalize_fences now request actor : tx_moves fences (finalize_deployment_tx now request actor).
Proof using Type.
  unfold finalize_deployment_tx. tx_frame. apply modify_fences. intros db. split; [done|]. by apply fmap_update_where.
Qed.

Lemma abandon_fences now node_id token actor : tx_moves fences (abandon_deployment_tx now node_id token actor).
Proof using Type.
  unfold abandon_deployment_tx. tx_frame. apply modify_fences. intros db. split; [done|]. by apply fmap_update_where.
Qed.

Lemma rollback_fences node_id to_revision token actor :
  tx_moves fences (begin_rollback_tx uri_to_string inventory_encoded_len node_id to_revision token actor).
Proof using Type. unfold begin_rollback_tx, staged_conflict. tx_frame. Qed.

Lemma registration_fences db db' : registration db db' → fences db db'.
Proof using Type.
  intros (_ & _ & Ec & p & _ & Ed). unfold fences. rewrite Ec. split; [done|]. split; [done|]. apply keys_positive.
  rewrite Ed. by apply fmap_update_where.
Qed.

End allocation.
End calls.
