(* ===== verification/NodeCleanupFacts.v ===== *)
(** * Release cleanup: what every run keeps

    The authority of a cleanup in flight was computed from the protections of an earlier state,
    whose fingerprint it carries; it covers releases of the inventory that the node reported,
    and that inventory only shrinks. A new retention leaves the claims in flight as they are. *)

From S2P Require Import Prelude RustStr Utf8 Lists Orders Externals Grpc Http Lifecycle IndexedRouting Deployment Rollout Schedule Operations NodeStatus NodeTables NodeStore NodeSubmit NodeRun NodeAgent NodeReport NodeTx NodeSteps NodeLoad NodeRefine NodeRefineTx NodeFacts NodeDeploy NodeCleanup NodeSystem NodeStaging NodeFences.

(** ** The invariant *)

(** What the policy of a node is computed from: how many releases are retained, the revisions
    that are protected, and the releases of the catalogue. *)
Definition protection (node_id : string) (db : NodeDb) : option (Z * gset Z * list Release) :=
  policy ← find_policy node_id db;
  node ← find_node node_id db;
  Some (ap_retention_count policy, protected_revisions node_id (ap_retention_count policy) node db,
        release_of <$> map_entries (known_releases node_id db)).

Definition in_flight (c : CleanupRow) : bool := one_of_texts (cl_state c) ["pending"; "claimed"].

(** The inventory of a node shrinks. *)
Definition inventory_le (c c' : CleanupRow) : Prop :=
  ∀ inventory, cl_known_inventory c = Some inventory →
  ∃ inventory', cl_known_inventory c' = Some inventory' ∧ inventory' ⊆ inventory.

#[global] Instance inventory_le_preorder : PreOrder inventory_le.
Proof.
  split; [intros c l E; by exists l|]. intros a b c Hab Hbc l E. destruct (Hab l E) as (l1 & E1 & H1).
  destruct (Hbc l1 E1) as (l2 & E2 & H2). exists l2. split; [done|by etrans].
Qed.

Lemma same_inventory_le c c' : cl_known_inventory c' = cl_known_inventory c → inventory_le c c'.
Proof. intros E l El. exists l. by rewrite E. Qed.

Section inv.
Context `{CL : CollationLib, UL : UuidLib, SH : Sha256Lib, CC : CleanupCodec}.
(** The states of the run so far. *)
Context (past : NodeDb → Prop).

Definition protection_fingerprint (p : Z * gset Z * list Release) : string :=
  "sha256:" +:+ sha256_hex (fingerprint_input p.1.1 p.1.2 p.2).

(** The protections that the row's authority was computed from. *)
Definition issued_under (c : CleanupRow) (a : CleanupAuthority) : Prop :=
  ∃ db0 p, past db0 ∧ protection (cl_node_id c) db0 = Some p ∧ cl_protection_fingerprint c = protection_fingerprint p
    ∧ ∀ r, r ∈ ca_delete_releases a → r ∈ p.2 ∧ rel_revision r ∉ p.1.2.

Definition authority_inv (c : CleanupRow) : Prop :=
  ∃ a, cl_authority c = Some a ∧ ca_known_inventory a = default [] (cl_known_inventory c)
    ∧ ca_delete_releases a ⊆ ca_known_inventory a
    ∧ (cl_known_inventory c = None ∨ ca_delete_releases a ≠ [])
    ∧ issued_under c a.

Record cleanup_inv (db : NodeDb) : Prop := mkCleanupInv {
  ci_names : NoDup (cl_node_id <$> cleanups (cleanup db));
  ci_issued c : c ∈ cleanups (cleanup db) → in_flight c = true → authority_inv c;
}.

Definition inventory_kept (db db' : NodeDb) : Prop :=
  ∀ c, c ∈ cleanups (cleanup db) →
  ∃ c', c' ∈ cleanups (cleanup db') ∧ cl_node_id c' = cl_node_id c ∧ inventory_le c c'.

Definition cleanup_step (db db' : NodeDb) : Prop :=
  cleanup_inv db → cleanup_inv db' ∧ inventory_kept db db'.

#[global] Instance cleanup_step_preorder : PreOrder cleanup_step.
Proof using Type.
  split.
  - intros db Hi. split; [done|]. intros c Hc. by exists c.
  - intros a b c Hab Hbc Ha. destruct (Hab Ha) as [Hb Kab]. destruct (Hbc Hb) as [Hc Kbc]. split; [done|].
    intros x Hx. destruct (Kab x Hx) as (y & Hy & Ey & Ly). destruct (Kbc y Hy) as (z & Hz & Ez & Lz).
    exists z. split; [done|]. split; [congruence|by etrans].
Qed.

(** ** Statements *)

Lemma same_cleanups_step db db' : cleanups (cleanup db') = cleanups (cleanup db) → cleanup_step db db'.
Proof using Type.
  intros E [N I]. split; [split; by rewrite E|]. intros c Hc. exists c. by rewrite E.
Qed.

Lemma fences_step db db' : fences db db' → cleanup_step db db'.
Proof using Type.
  intros (F & _ & _) [N I].
  assert (cl_node_id <$> cleanups (cleanup db') = cl_node_id <$> cleanups (cleanup db)) as En.
  { clear -F. induction F as [|c c' l l' [->|(E & _)] _ IH]; cbn; congruence. }
  split; [split; [by rewrite En|]|].
  - intros c' Hc' Hf. apply list_elem_of_lookup in Hc' as [i Hi].
    destruct (Forall2_lookup_r _ _ _ _ _ F Hi) as (c & Hc & [->|(_ & _ & E)]).
    + apply I; [|done]. by eapply list_elem_of_lookup_2.
    + unfold in_flight in Hf. by rewrite E in Hf.
  - intros c Hc. apply list_elem_of_lookup in Hc as [i Hi].
    destruct (Forall2_lookup_l _ _ _ _ _ F Hi) as (c' & Hc' & Hr). exists c'.
    split; [by eapply list_elem_of_lookup_2|].
    destruct Hr as [->|(E1 & E2 & _)]; [done|]. split; [done|by apply same_inventory_le].
Qed.

Lemma update_cleanups_ok p f db rows db' :
  update_cleanups p f db = Ok (rows, db') →
  db' = set_cleanup (set_cleanups (update_where p f (cleanups (cleanup db))) (cleanup db)) db
  ∧ rows = f <$> List.filter p (cleanups (cleanup db)).
Proof using Type. intros H. unfold update_cleanups, alter_cleanup in H. by inv_tx. Qed.

(** An update of cleanups that keeps the invariant row by row. *)
Lemma update_cleanups_step p f db rows db' :
  update_cleanups p f db = Ok (rows, db') →
  (∀ c, cl_node_id (f c) = cl_node_id c) →
  (cleanup_inv db → ∀ c, c ∈ cleanups (cleanup db) → p c = true →
     inventory_le c (f c) ∧ (in_flight (f c) = true → authority_inv (f c))) →
  cleanup_step db db'.
Proof using Type.
  intros [-> _]%update_cleanups_ok Hn Hf Hinv. specialize (Hf Hinv). destruct Hinv as [N I]. split; [split|].
  - cbn. by rewrite fmap_update_where.
  - intros c' (c & -> & Hc)%elem_of_update_where. destruct (p c) eqn:Ep; [|by apply I]. by apply Hf.
  - intros c Hc. eexists. split; [apply elem_of_update_where; by exists c|].
    destruct (p c) eqn:Ep; [|done]. split; [done|]. by apply Hf.
Qed.

(** What the invariant of a row depends on. *)
Definition issue_of (c : CleanupRow) :=
  (cl_node_id c, cl_protection_fingerprint c, cl_authority c, cl_known_inventory c).

Lemma authority_inv_same c c' : issue_of c' = issue_of c → authority_inv c → authority_inv c'.
Proof using Type.
  unfold issue_of. intros E. injection E as E1 E2 E3 E4. unfold authority_inv, issued_under.
  by rewrite E1, E2, E3, E4.
Qed.

(** Rows that leave the flight. *)
Lemma update_grounded p f db rows db' :
  update_cleanups p f db = Ok (rows, db') →
  (∀ c, cl_node_id (f c) = cl_node_id c ∧ cl_known_inventory (f c) = cl_known_inventory c ∧ in_flight (f c) = false) →
  cleanup_step db db'.
Proof using Type.
  intros Hu Hf. eapply update_cleanups_step; [done|apply Hf|]. intros _ c _ _. destruct (Hf c) as (_ & E & Eg).
  split; [by apply same_inventory_le|congruence].
Qed.

(** Rows of which the issue and the flight stay the same. *)
Lemma update_same p f db rows db' :
  update_cleanups p f db = Ok (rows, db') →
  (∀ c, issue_of (f c) = issue_of c) →
  (∀ c, c ∈ cleanups (cleanup db) → p c = true → cleanup_inv db → in_flight (f c) = true → in_flight c = true) →
  cleanup_step db db'.
Proof using Type.
  intros Hu Hf Hi. eapply update_cleanups_step; [done|intros c; by injection (Hf c)|]. intros Hinv c Hc Hp.
  split; [apply same_inventory_le; by injection (Hf c)|]. intros Hfl.
  eapply authority_inv_same; [apply Hf|]. apply (ci_issued _ Hinv c Hc). by apply Hi.
Qed.

(** ** The policy *)

Lemma manager_policy_ok node_id db policy :
  manager_cleanup_policy node_id db = Ok policy →
  ∃ p, protection node_id db = Some p ∧ cp_fingerprint policy = protection_fingerprint p ∧ cp_known policy = p.2
    ∧ ∀ r, r ∈ cp_delete policy → r ∈ p.2 ∧ rel_revision r ∉ p.1.2.
Proof using Type.
  unfold manager_cleanup_policy, protection. destruct (find_policy node_id db) as [ap|]; [|done].
  destruct (find_node node_id db) as [n|]; [|done]. intros [= <-]. eexists. split; [done|]. split; [done|].
  split; [done|].
  cbn. intros r (Hr & Hn)%list_elem_of_In%filter_In. rewrite <-list_elem_of_In in Hr. split; [done|].
  by apply negb_true_iff, bool_decide_eq_false in Hn.
Qed.

(** The tables that the policy reads. *)
Definition same_policy (db db' : NodeDb) : Prop :=
  ∃ t, deletions t = deletions (cleanup db) ∧ db' = set_cleanup t db.

Lemma same_policy_protection db db' node_id : same_policy db db' → protection node_id db' = protection node_id db.
Proof using Type. intros (t & E & ->). unfold protection, protected_revisions, known_releases. cbn. by rewrite E. Qed.

#[local] Instance same_policy_preorder : PreOrder same_policy.
Proof using Type.
  split; [intros db; exists (cleanup db); by destruct db|].
  intros a b c (t & E & ->) (t' & E' & ->). exists t'. split; [cbn in E'; congruence|done].
Qed.

(** Only the cleanup of one node is written. *)
Definition touches (node_id : string) (db db' : NodeDb) : Prop :=
  same_policy db db'
  ∧ ∀ c, c ∈ cleanups (cleanup db) → cl_node_id c ≠ node_id → c ∈ cleanups (cleanup db').

#[local] Instance touches_preorder node_id : PreOrder (touches node_id).
Proof using Type. split; [done|]. intros a b c [S1 H1] [S2 H2]. split; [by etrans|auto]. Qed.

Lemma update_cleanups_touches node_id p f :
  (∀ c, p c = true → cl_node_id c = node_id) → tx_moves (touches node_id) (update_cleanups p f).
Proof using Type.
  intros Hp db rows db' [-> _]%update_cleanups_ok. split; [eexists; split; [|reflexivity]; done|].
  intros c Hc Hn. apply elem_of_update_where. exists c. split; [|done]. destruct (p c) eqn:E; [|done].
  by apply Hp in E.
Qed.

Lemma update_generations_touches node_id p v : tx_moves (touches node_id) (update_generations p v).
Proof using Type. apply tx_moves_modify. intros db. split; [eexists; split; [|reflexivity]; done|done]. Qed.

#[local] Hint Resolve update_generations_touches : tx.
#[local] Hint Extern 2 (tx_moves (touches _) (update_cleanups _ _)) =>
  apply update_cleanups_touches; intros ? Hrow; try apply andb_true_iff in Hrow as [Hrow _];
    by apply String.eqb_eq : tx.
#[local] Hint Extern 2 (tx_moves (touches _) (alter_cleanup _)) =>
  apply tx_moves_modify; intros ?; split; [eexists; split; [|reflexivity]; done|done] : tx.

Lemma materialize_touches now policy generation row :
  tx_moves (touches (cl_node_id row)) (materialize now policy generation row).
Proof using Type. unfold materialize. tx_frame. Qed.

#[local] Hint Resolve materialize_touches : tx.

Lemma reconcile_cleanup_touches now clock row : tx_moves (touches (cl_node_id row)) (reconcile_cleanup now clock row).
Proof using Type. unfold reconcile_cleanup. tx_frame. Qed.

(** ** Reconciliation *)

(** The inventory of every cleanup row of the node. *)
Definition known_is (node_id : string) (inventory : option (list Release)) (db : NodeDb) : Prop :=
  ∀ c, c ∈ cleanups (cleanup db) → cl_node_id c = node_id → cl_known_inventory c = inventory.

Lemma deletable_elem policy inventory r :
  r ∈ deletable policy inventory → r ∈ default [] inventory ∧ r ∈ cp_delete policy.
Proof using Type.
  destruct inventory as [l|]; [|by intros ?%not_elem_of_nil]. cbn.
  intros [Hr Hd]%list_elem_of_In%filter_In. rewrite <-list_elem_of_In in Hr. by apply bool_decide_eq_true in Hd.
Qed.

Lemma update_generations_step p v : tx_moves cleanup_step (update_generations p v).
Proof using Type. apply tx_moves_modify. intros db. by apply same_cleanups_step. Qed.

Lemma materialize_step now policy generation row db0 db u db' :
  past db0 → same_policy db0 db → manager_cleanup_policy (cl_node_id row) db = Ok policy →
  known_is (cl_node_id row) (cl_known_inventory row) db →
  materialize now policy generation row db = Ok (u, db') → cleanup_step db db'.
Proof using Type.
  intros Hpast Hs Hp Hk H. destruct (manager_policy_ok _ _ _ Hp) as (p & Hpr & Ef & _ & Hdel).
  rewrite (same_policy_protection _ _ _ Hs) in Hpr.
  unfold materialize in H. destruct (_ && _) eqn:Ec.
  - apply tx_bind_ok in H as (rows & db1 & Hu & [_ ->]%tx_ret_ok). by eapply update_grounded.
  - cbv zeta in H. apply tx_bind_ok in H as (? & db1 & E1%tx_modify_ok & H).
    apply tx_bind_ok in H as (rows & db2 & Hu & [_ ->]%tx_ret_ok).
    etrans; [apply (same_cleanups_step db db1); by rewrite E1|].
    eapply update_cleanups_step; [exact Hu|done|]. rewrite E1. intros _ c Hc [Hn _]%andb_true_iff.
    apply String.eqb_eq in Hn. pose proof (Hk c Hc Hn) as Ek. split; [by apply same_inventory_le|]. intros _.
    eexists. split; [reflexivity|]. cbn. rewrite Ek. split; [done|]. split; [|split].
    + intros r [Hr _]%deletable_elem. done.
    + destruct (cl_known_inventory row) as [l|]; [|by left]. right. cbn in Ec. by apply bool_decide_eq_false in Ec.
    + exists db0, p. split; [done|]. cbn. rewrite Hn. split; [done|]. split; [done|].
      intros r [_ Hr]%deletable_elem. by apply Hdel.
Qed.

Lemma reconcile_cleanup_step now clock row db0 db u db' :
  past db0 → same_policy db0 db → row ∈ cleanups (cleanup db) →
  reconcile_cleanup now clock row db = Ok (u, db') → cleanup_step db db'.
Proof using Type.
  intros Hpast Hs Hrow H Hi. generalize Hi. change (cleanup_step db db').
  assert (known_is (cl_node_id row) (cl_known_inventory row) db) as Hk.
  { intros c Hc En. f_equal. by eapply (NoDup_fmap_inj cl_node_id); [apply (ci_names _ Hi)|..]. }
  unfold reconcile_cleanup in H. cbv zeta in H. apply tx_bind_ok in H as (? & ? & [-> ->]%tx_get_ok & H).
  destruct (manager_cleanup_policy _ _) as [policy|e] eqn:Hp.
  - destruct (_ && _) eqn:Esup.
    + apply tx_bind_ok in H as (rows & db1 & Hu & H). apply tx_bind_ok in H as (? & db2 & Hg & H).
      pose proof (update_cleanups_ok _ _ _ _ _ Hu) as [E1 _]. apply tx_modify_ok in Hg as E2.
      etrans; [by eapply update_grounded|]. etrans; [by eapply update_generations_step|].
      assert (same_policy db db2) as Hs2.
      { trans db1; [rewrite E1|rewrite E2]; eexists; (split; [|reflexivity]); done. }
      eapply (materialize_step _ _ _ _ db0); [done|by etrans| | |exact H].
      * destruct Hs2 as (t & Et & E). rewrite E, <-Hp.
        unfold manager_cleanup_policy, cleanup_policy, protected_revisions, known_releases. cbn. by rewrite Et.
      * rewrite E2, E1. intros c' (c & -> & Hc)%elem_of_update_where. case_match; exact (Hk c Hc).
    + destruct (one_of_texts _ _) eqn:Eo.
      * apply tx_bind_ok in H as (rows & db1 & Hu & [_ ->]%tx_ret_ok). by eapply update_same.
      * by eapply (materialize_step _ _ _ _ db0).
  - apply tx_bind_ok in H as (? & ? & [_ ->]%tx_guard_ok & H).
    apply tx_bind_ok in H as (rows & db1 & Hu & [_ ->]%tx_ret_ok). by eapply update_grounded.
Qed.

Lemma reconcile_cleanups_step now clock db0 rows db u db' :
  past db0 → same_policy db0 db → NoDup (cl_node_id <$> rows) → (∀ row, row ∈ rows → row ∈ cleanups (cleanup db)) →
  reconcile_cleanups now clock rows db = Ok (u, db') → cleanup_step db db'.
Proof using Type.
  intros Hpast. revert db. induction rows as [|row rows IH]; intros db Hs Hnd Hin H; cbn in H; [inv_tx; reflexivity|].
  apply tx_bind_ok in H as (? & db1 & H1 & H2). cbn in Hnd. apply NoDup_cons in Hnd as [Hnew Hnd].
  destruct (reconcile_cleanup_touches _ _ _ _ _ _ H1) as [Hs1 Ho].
  etrans; [eapply reconcile_cleanup_step; [done..|by apply Hin; left|done]|].
  apply IH; [by etrans|done| |done].
  intros r Hr. apply Ho; [by apply Hin; right|]. intros E. apply Hnew. rewrite <-E. by apply list_elem_of_fmap_2.
Qed.

Lemma ensure_cleanups_step db : NoDup (nr_node_id <$> nodes db) → cleanup_step db (ensure_cleanups db).
Proof using Type.
  intros Hnodes [N I]. split; [split|]; cbn [cleanup cleanups set_cleanup set_cleanups ensure_cleanups].
  - rewrite fmap_app, <-list_fmap_compose. apply NoDup_app. split; [done|]. split.
    + intros x (c & -> & Hc)%list_elem_of_fmap (y & E & [_ Hy]%list_elem_of_In%filter_In)%list_elem_of_fmap.
      cbn in E. apply negb_true_iff in Hy. rewrite (proj2 (existsb_exists _ _)) in Hy; [done|].
      exists c. split; [by apply list_elem_of_In|]. apply String.eqb_eq. done.
    + rewrite list_filter_bool. rewrite (list_fmap_id _) by done. by apply NoDup_filter.
  - intros c [Hc|(n & -> & _)%list_elem_of_fmap]%elem_of_app Hf; [by apply I|done].
  - intros c Hc. exists c. split; [apply elem_of_app; by left|done].
Qed.

Lemma take_sort_filter {A B} (f : A → B) cmp (p : A → bool) n l :
  NoDup (f <$> l) →
  NoDup (f <$> take n (sort_by cmp (List.filter p l))) ∧ ∀ x, x ∈ take n (sort_by cmp (List.filter p l)) → x ∈ l.
Proof using Type.
  intros Hl. rewrite list_filter_bool. split.
  - assert (NoDup (f <$> sort_by cmp (filter (λ x, p x = true) l))) as Hs by (rewrite sort_by_perm; by apply NoDup_fmap_filter).
    rewrite fmap_take. rewrite <-(take_drop n (f <$> _)) in Hs. by apply NoDup_app in Hs as [? _].
  - intros x Hx%subseteq_take. rewrite sort_by_perm in Hx. by apply list_elem_of_filter in Hx as [_ ?].
Qed.

Lemma batch_step now clock locked batch_size db :
  past db → NoDup (nr_node_id <$> nodes db) →
  cleanup_step db (reconcile_node_cleanup_batch now clock locked batch_size db).2.
Proof using Type.
  intros Hpast Hnodes. unfold reconcile_node_cleanup_batch, transact.
  destruct (reconcile_node_cleanup_batch_tx _ _ _ _ _) as [[r db']|e] eqn:H; [|reflexivity]. cbn.
  unfold reconcile_node_cleanup_batch_tx in H. inv_tx. intros Hi.
  pose proof (ensure_cleanups_step db Hnodes) as H1. destruct (H1 Hi) as [[N1 _] _]. generalize Hi.
  match goal with |- _ → cleanup_inv ?d ∧ _ => change (cleanup_step db d) end.
  etrans; [exact H1|]. destruct (take_sort_filter cl_node_id reconciled_cmp
    (λ c, due now c && negb (bool_decide (cl_node_id c ∈ locked))) (Z.to_nat batch_size) _ N1) as [Hnd Hin].
  eapply reconcile_cleanups_step; [exact Hpast| |exact Hnd|exact Hin|done].
  eexists. split; [|reflexivity]. done.
Qed.

(** ** Claims and results *)

Lemma cleanup_row_unique db node_id row c :
  cleanup_inv db → find_cleanup node_id db = Some row → c ∈ cleanups (cleanup db) → is_cleanup_of node_id c = true →
    c = row.
Proof using Type.
  intros Hi [Hr Hn%String.eqb_eq]%find_elem Hc Hcn%String.eqb_eq.
  eapply (NoDup_fmap_inj cl_node_id); [apply (ci_names _ Hi)|done..|congruence].
Qed.

Lemma fence_cleanup_step now node_id reason : tx_moves cleanup_step (fence_cleanup_authority now node_id reason).
Proof using Type. intros db u db' H. by eapply fences_step, fence_cleanup_fences. Qed.

Lemma claimable_in_flight clock instance principal row :
  negb (String.eqb (cl_state row) "pending") && negb (claim_live clock instance principal row) = false →
  in_flight row = true.
Proof using Type.
  intros [H|H]%andb_false_iff; apply negb_false_iff in H; unfold in_flight, one_of_texts, existsb.
  - by rewrite H.
  - unfold claim_live in H. rewrite !andb_true_iff in H. destruct H as [[[H _] _] _].
    rewrite H. by rewrite orb_true_r.
Qed.

Lemma claim_cleanup_step now clock fresh_id node_id instance principal :
  tx_moves cleanup_step (claim_node_cleanup_tx now clock fresh_id node_id instance principal).
Proof using Type.
  intros db r db' H. unfold claim_node_cleanup_tx in H. inv_tx; try reflexivity; try (by eapply fence_cleanup_step).
  all: eapply update_same; [eassumption|done|]; intros x Hx Hn Hi _;
    rewrite (cleanup_row_unique _ _ _ _ Hi ltac:(eassumption) Hx Hn); by eapply claimable_in_flight.
Qed.

Lemma renew_cleanup_step now request principal : tx_moves cleanup_step (renew_node_cleanup_tx now request principal).
Proof using Type.
  intros db r db' H. unfold renew_node_cleanup_tx in H. inv_tx.
  eapply update_same; [eassumption|done|]. done.
Qed.

Lemma retry_cleanup_step now node_id generation :
  tx_moves cleanup_step (retry_node_cleanup_tx now node_id generation).
Proof using Type.
  intros db r db' H. unfold retry_node_cleanup_tx in H. inv_tx.
  all: etrans; [eapply update_grounded; [eassumption|done]|by eapply update_generations_step].
Qed.

Lemma canonical_releases_ok values m :
  canonical_releases values = Ok m → ∀ k v, m !! k = Some v ↔ release_of (k, v) ∈ values.
Proof using Type.
  unfold canonical_releases. set (f := λ (acc : result Status (gmap Z (string * string))) r, _).
  assert (∀ e l, foldl f (Err e) l = Err e) as Herr by (intros e l; by induction l).
  assert (∀ l m0, foldl f (Ok m0) l = Ok m → ∀ k v, m !! k = Some v ↔ m0 !! k = Some v ∨ release_of (k, v) ∈ l) as Hgen.
  { induction l as [|r l IH]; intros m0 H k v; cbn in H.
    - injection H as ->. rewrite elem_of_nil. naive_solver.
    - destruct (_ && _) eqn:Ec in H; [|by rewrite Herr in H]. apply andb_true_iff in Ec as [_ Ec%bool_decide_eq_true].
      rewrite (IH _ H k v), elem_of_cons. destruct r as [rev dig res]; cbn in *. unfold release_of; cbn.
      destruct (decide (k = rev)) as [->|Hne].
      + rewrite lookup_insert_eq, Ec. destruct v as [a b]; cbn. naive_solver congruence.
      + rewrite lookup_insert_ne by done. naive_solver. }
  intros H k v. rewrite (Hgen _ _ H). rewrite lookup_empty. naive_solver.
Qed.

Lemma canonical_releases_elem values m r :
  canonical_releases values = Ok m → r ∈ values ↔ m !! rel_revision r = Some (rel_digest r, rel_resolved r).
Proof using Type. intros H. rewrite (canonical_releases_ok _ _ H). by destruct r. Qed.

(** An accepted result leaves of a known inventory what was not deleted. *)
Lemma check_result_inventory request authority db :
  check_cleanup_result request authority db = Ok () → ca_known_inventory authority ≠ [] →
  rr_resulting_inventory request ⊆ ca_known_inventory authority.
Proof using Type.
  intros H Hne. unfold check_cleanup_result, check_inventory in H. rewrite (bool_decide_false _ Hne) in H.
  inv_ok H. intros r Hr.
  repeat match goal with E : bool_decide _ = true |- _ => apply bool_decide_eq_true in E end.
  rename select (canonical_releases (rr_resulting_inventory _) = _) into Hres.
  rename select (canonical_releases (ca_known_inventory _) = _) into Hknown.
  apply (canonical_releases_elem _ _ _ Hres) in Hr. apply (canonical_releases_elem _ _ _ Hknown). subst.
  by apply lookup_difference_Some in Hr as [? _].
Qed.

Lemma authority_inventory_le c a l : authority_inv c → cl_authority c = Some a → cl_known_inventory c = Some l →
  ca_known_inventory a = l ∧ l ≠ [].
Proof using Type.
  intros (a' & Ea & Ek & Hsub & Hne & _) E El. rewrite E in Ea. injection Ea as <-. rewrite El in *. cbn in Ek.
  split; [done|].
  destruct Hne as [|Hne]; [done|]. intros ->. rewrite Ek in Hsub. destruct (ca_delete_releases a) as [|r d]; [done|].
  by destruct (not_elem_of_nil r); apply Hsub; left.
Qed.

Lemma claim_holds_in_flight time generation epoch claim instance principal c :
  claim_holds time generation epoch claim instance principal c = true → in_flight c = true.
Proof using Type.
  unfold claim_holds, in_flight, one_of_texts, existsb. rewrite !andb_true_iff. intros [[[[[[_ H] _] _] _] _] _].
  rewrite H. by rewrite orb_true_r.
Qed.

Lemma store_result_step request authority generation db row u db' :
  find_cleanup (rr_node_id request) db = Some row → in_flight row = true → cl_authority row = Some authority →
  store_cleanup_result request authority generation db = Ok (u, db') → cleanup_step db db'.
Proof using Type.
  intros Hf Hfl Ha H. unfold store_cleanup_result in H. destruct (str_is_empty _).
  - apply tx_bind_ok in H as (? & ? & [-> ->]%tx_get_ok & H).
    apply tx_bind_ok in H as ([] & ? & [Hc ->]%tx_lift_ok & H).
    apply tx_bind_ok in H as (? & ? & [_ ->]%tx_guard_ok & H).
    apply tx_bind_ok in H as (? & db1 & E1%tx_modify_ok & H). apply tx_bind_ok in H as (rows & db2 & Hu & H).
    assert (cleanups (cleanup db1) = cleanups (cleanup db)) as Ec by (by rewrite E1).
    intros Hi. generalize Hi. change (cleanup_step db db').
    etrans; [by apply (same_cleanups_step db db1)|]. etrans; [|by eapply update_generations_step].
    eapply update_cleanups_step; [exact Hu|done|]. rewrite Ec. intros _ c Hin Hn.
    rewrite (cleanup_row_unique _ _ _ _ Hi Hf Hin Hn). split; [|done]. intros l El.
    apply find_elem in Hf as [Hr _].
    destruct (authority_inventory_le row authority l) as [Ek Hne]; [by apply (ci_issued _ Hi)|done..|].
    exists (rr_resulting_inventory request). split; [done|]. rewrite <-Ek.
    eapply check_result_inventory; [done|congruence].
  - apply tx_bind_ok in H as (? & ? & [_ ->]%tx_guard_ok & H). apply tx_bind_ok in H as (rows & db2 & Hu & H).
    etrans; [by eapply update_grounded|by eapply update_generations_step].
Qed.

Lemma report_cleanup_step clock request principal :
  tx_moves cleanup_step (report_node_cleanup_result_tx clock request principal).
Proof using Type.
  intros db r db' H. unfold report_node_cleanup_result_tx, get_cleanup_summary_in, alter_cleanup in H.
  inv_tx; try reflexivity.
  all: rename select (store_cleanup_result _ _ _ _ = _) into Hst; rename select (negb _ = false) into Hh.
  all: (etrans; [eapply store_result_step; [eassumption|by eapply claim_holds_in_flight, negb_false_iff|eassumption|exact Hst]|]).
  all: by apply same_cleanups_step.
Qed.

(** ** Reported inventories *)

(** An accepted result of the node reported the inventory. *)
Definition reported_inventory (node_id : string) (inventory : list Release) (db : NodeDb) : Prop :=
  ∃ rc, rc ∈ cleanup_receipts (cleanup db) ∧ cr_node_id rc = node_id
    ∧ rr_condition_code (cr_result rc) = "" ∧ rr_resulting_inventory (cr_result rc) = inventory.

(** Receipts stay, and an inventory that becomes known was reported. *)
Definition inventories_from (db db' : NodeDb) : Prop :=
  cleanup_receipts (cleanup db) ⊆ cleanup_receipts (cleanup db')
  ∧ ∀ c' l, c' ∈ cleanups (cleanup db') → cl_known_inventory c' = Some l →
    (∃ c, c ∈ cleanups (cleanup db) ∧ cl_node_id c = cl_node_id c' ∧ cl_known_inventory c = Some l)
    ∨ reported_inventory (cl_node_id c') l db'.

Lemma reported_later node_id l db db' :
  cleanup_receipts (cleanup db) ⊆ cleanup_receipts (cleanup db') →
  reported_inventory node_id l db → reported_inventory node_id l db'.
Proof using Type. intros Hs (rc & Hrc & H). exists rc. split; [by apply Hs|done]. Qed.

#[global] Instance inventories_from_preorder : PreOrder inventories_from.
Proof using Type.
  split.
  - intros db. split; [done|]. intros c l Hc El. left. by exists c.
  - intros a b c [S1 H1] [S2 H2]. split; [by etrans|]. intros z l Hz El.
    destruct (H2 z l Hz El) as [(y & Hy & Ey & Ely)|]; [|by right]. rewrite <-Ey.
    destruct (H1 y l Hy Ely) as [?|Hr]; [by left|right; by eapply reported_later].
Qed.

Lemma same_rows_from db db' :
  cleanup_receipts (cleanup db') = cleanup_receipts (cleanup db) → cleanups (cleanup db') = cleanups (cleanup db) →
  inventories_from db db'.
Proof using Type. intros Er Ec. split; [by rewrite Er|]. intros c l Hc El. left. exists c. by rewrite <-Ec. Qed.

Lemma fences_from db db' : fences db db' → inventories_from db db'.
Proof using Type.
  intros (F & E & _). injection E as _ Er. split; [by rewrite Er|]. intros c' l [i Hi]%list_elem_of_lookup El. left.
  destruct (Forall2_lookup_r _ _ _ _ _ F Hi) as (c & Hc%list_elem_of_lookup_2 & Hr). exists c. split; [done|].
  destruct Hr as [->|(E1 & E2 & _)]; [done|]. by rewrite <-E1, <-E2.
Qed.

Lemma update_cleanups_from p f :
  (∀ c, cl_node_id (f c) = cl_node_id c ∧ cl_known_inventory (f c) = cl_known_inventory c) →
  tx_moves inventories_from (update_cleanups p f).
Proof using Type.
  intros Hf db rows db' [-> _]%update_cleanups_ok. split; [done|].
  intros c' l (c & -> & Hc)%elem_of_update_where El. left. exists c. split; [done|].
  destruct (p c); [|done]. destruct (Hf c) as [E1 E2]. by rewrite <-E1, <-E2.
Qed.

Lemma update_generations_from p v : tx_moves inventories_from (update_generations p v).
Proof using Type. apply tx_moves_modify. intros db. by apply same_rows_from. Qed.

Lemma ensure_cleanups_from : tx_moves inventories_from (modify ensure_cleanups).
Proof using Type.
  apply tx_moves_modify. intros db. split; [done|].
  intros c l [Hc|(n & -> & _)%list_elem_of_fmap]%elem_of_app El; [|done]. left. by exists c.
Qed.

Lemma fence_cleanup_from now node_id reason : tx_moves inventories_from (fence_cleanup_authority now node_id reason).
Proof using Type. intros db u db' H. by eapply fences_from, fence_cleanup_fences. Qed.

#[local] Hint Resolve update_generations_from ensure_cleanups_from fence_cleanup_from : tx.
#[local] Hint Extern 2 (tx_moves inventories_from (update_cleanups _ _)) => by apply update_cleanups_from : tx.
#[local] Hint Extern 2 (tx_moves inventories_from (alter_cleanup _)) =>
  apply tx_moves_modify; intros ?; by apply same_rows_from : tx.

Lemma materialize_from now policy generation row : tx_moves inventories_from (materialize now policy generation row).
Proof using Type. unfold materialize. tx_frame. Qed.

#[local] Hint Resolve materialize_from : tx.

Lemma reconcile_cleanup_from now clock row : tx_moves inventories_from (reconcile_cleanup now clock row).
Proof using Type. unfold reconcile_cleanup. tx_frame. Qed.

#[local] Hint Resolve reconcile_cleanup_from : tx.

Lemma reconcile_cleanups_from now clock rows : tx_moves inventories_from (reconcile_cleanups now clock rows).
Proof using Type. induction rows as [|row rows IH]; cbn; tx_frame. Qed.

#[local] Hint Resolve reconcile_cleanups_from : tx.

Lemma batch_from now clock locked batch_size :
  tx_moves inventories_from (reconcile_node_cleanup_batch_tx now clock locked batch_size).
Proof using Type. unfold reconcile_node_cleanup_batch_tx. tx_frame. Qed.

Lemma claim_cleanup_from now clock fresh_id node_id instance principal :
  tx_moves inventories_from (claim_node_cleanup_tx now clock fresh_id node_id instance principal).
Proof using Type. unfold claim_node_cleanup_tx. tx_frame. Qed.

Lemma renew_cleanup_from now request principal : tx_moves inventories_from (renew_node_cleanup_tx now request principal).
Proof using Type. unfold renew_node_cleanup_tx. tx_frame. Qed.

Lemma retry_cleanup_from now node_id generation : tx_moves inventories_from (retry_node_cleanup_tx now node_id generation).
Proof using Type. unfold retry_node_cleanup_tx. tx_frame. Qed.

(** What a stored result leaves known of its node is what it reports. *)
Lemma store_result_rows request authority generation db u db' :
  store_cleanup_result request authority generation db = Ok (u, db') →
  cleanup_receipts (cleanup db') = cleanup_receipts (cleanup db)
  ∧ ∀ c' l, c' ∈ cleanups (cleanup db') → cl_known_inventory c' = Some l →
    (∃ c, c ∈ cleanups (cleanup db) ∧ cl_node_id c = cl_node_id c' ∧ cl_known_inventory c = Some l)
    ∨ cl_node_id c' = rr_node_id request ∧ rr_condition_code request = "" ∧ rr_resulting_inventory request = l.
Proof using Type.
  intros H. unfold store_cleanup_result, update_cleanups, alter_cleanup, update_generations, alter_cleanup in H.
  destruct (str_is_empty (rr_condition_code request)) eqn:Ec; inv_tx; cbn; (split; [done|]);
    intros c' l (c & -> & Hc)%elem_of_update_where El; destruct (is_cleanup_of (rr_node_id request) c) eqn:Ep;
    try (left; by exists c).
  right. cbn in *. unfold is_cleanup_of in Ep. apply String.eqb_eq in Ep. simplify_eq.
  split; [done|]. split; [|done]. by destruct (rr_condition_code request).
Qed.

Lemma report_cleanup_from clock request principal :
  tx_moves inventories_from (report_node_cleanup_result_tx clock request principal).
Proof using Type.
  intros db r db' H. unfold report_node_cleanup_result_tx, get_cleanup_summary_in, alter_cleanup in H.
  inv_tx; try reflexivity.
  all: rename select (store_cleanup_result _ _ _ _ = _) into Hst; apply store_result_rows in Hst as [Er Hst].
  all: split; cbn; [rewrite Er; intros x Hx; apply elem_of_app; by left|].
  all: intros c' l Hc' El; destruct (Hst c' l Hc' El) as [?|(E1 & E2 & E3)]; [by left|right].
  all: eexists; (split; [apply elem_of_app; right; left|]); cbn; done.
Qed.

(** ** The encoding of a policy *)

Definition policy_input (p : Z * gset Z * list Release) : string := fingerprint_input p.1.1 p.1.2 p.2.

(** Revisions that are far from exhausting 64 bits: the first byte of such a revision is not
    the tag of a release's first field. *)
Definition small_revisions (p : Z * gset Z * list Release) : Prop := ∀ r, r ∈ p.1.2 → (0 ≤ r < 2 ^ 59)%Z.

Lemma be_bytes_8_head v : (0 ≤ v < 2 ^ 59)%Z →
  ∃ rest, be_bytes 8 v = String (ascii_of_N (Z.to_N (v / 2 ^ 56))) rest ∧ (v / 2 ^ 56 < 8)%Z.
Proof using Type.
  intros Hv. eexists. split; [|apply Z.div_lt_upper_bound; lia].
  cbn [be_bytes]. rewrite !Z.div_div by lia. rewrite str_app_nil_l, !str_app_cons. f_equal. f_equal. f_equal.
  apply Z.mod_small. split; [apply Z.div_pos; lia|apply Z.div_lt_upper_bound; lia].
Qed.

Lemma concat_tag (l : list Release) :
  (∀ r, r ∈ l → (0 < rel_revision r)%Z) →
  str_concat (release_encode <$> l) = EmptyString ∨ ∃ rest, str_concat (release_encode <$> l) = String (ascii_of_nat 8) rest.
Proof using Type.
  destruct l as [|r l]; [by left|]. intros Hl. right.
  destruct (release_encode_tag r) as [rest E]; [apply Hl; by left|].
  cbn. rewrite E. by eexists.
Qed.

Lemma revisions_inj l1 l2 k1 k2 :
  (∀ r, r ∈ l1 → (0 ≤ r < 2 ^ 59)%Z) → (∀ r, r ∈ l2 → (0 ≤ r < 2 ^ 59)%Z) →
  (k1 = EmptyString ∨ ∃ rest, k1 = String (ascii_of_nat 8) rest) →
  (k2 = EmptyString ∨ ∃ rest, k2 = String (ascii_of_nat 8) rest) →
  str_concat (be_bytes 8 <$> l1) +:+ k1 = str_concat (be_bytes 8 <$> l2) +:+ k2 → l1 = l2.
Proof using Type.
  assert (∀ v s k, (0 ≤ v < 2 ^ 59)%Z → (k = EmptyString ∨ ∃ rest, k = String (ascii_of_nat 8) rest) → be_bytes 8 v +:+ s ≠ k) as Hne.
  { intros v s k Hv Hk E. destruct (be_bytes_8_head v Hv) as (rest & Ev & Hlt). rewrite Ev in E.
    destruct Hk as [->|(rest' & ->)]; [done|]. injection E as E _. apply (f_equal N_of_ascii) in E.
    pose proof (Z.div_pos v (2 ^ 56) ltac:(lia) ltac:(lia)). rewrite N_ascii_embedding in E by lia.
    change (N_of_ascii (ascii_of_nat 8)) with 8%N in E. lia. }
  revert l2. induction l1 as [|x l1 IH]; intros [|y l2] H1 H2 Hk1 Hk2; cbn [fmap list_fmap str_concat foldr];
    intros E; [done|..].
  - cbn in E. destruct (Hne y (str_concat (be_bytes 8 <$> l2) +:+ k2) k1); [apply H2; by left|done|].
    by rewrite str_app_assoc in E.
  - destruct (Hne x (str_concat (be_bytes 8 <$> l1) +:+ k1) k2); [apply H1; by left|done|].
    by rewrite str_app_assoc in E.
  - rewrite !str_app_assoc in E. apply str_app_inj_length in E as [Ex E]; [|by rewrite !length_be_bytes].
    apply be_bytes_inj in Ex as ->;
      [|pose proof (H1 x ltac:(by left)); cbn; lia|pose proof (H2 y ltac:(by left)); cbn; lia].
    f_equal. apply IH; try done; intros r Hr; [apply H1|apply H2]; by right.
Qed.

Lemma policy_input_protected p q :
  small_revisions p → small_revisions q → (∀ r, r ∈ p.2 → (0 < rel_revision r)%Z) →
    (∀ r, r ∈ q.2 → (0 < rel_revision r)%Z) →
  policy_input p = policy_input q → p.1.2 = q.1.2.
Proof using Type.
  intros Hp Hq Kp Kq E. unfold policy_input, fingerprint_input in E.
  apply str_app_inj_length in E as [_ E]; [|by rewrite !length_be_bytes].
  assert (∀ (s : gset Z) r, r ∈ set_entries s ↔ r ∈ s) as Hs.
  { intros s r. unfold set_entries. by rewrite sort_by_perm, elem_of_elements. }
  apply revisions_inj in E;
    [|intros r ?%Hs; by apply Hp|intros r ?%Hs; by apply Hq|by apply concat_tag|by apply concat_tag].
  apply set_eq. intros r. by rewrite <-!Hs, E.
Qed.

(** ** The catalogue *)

Lemma map_entries_elem {A} (m : gmap Z A) k v : (k, v) ∈ map_entries m ↔ m !! k = Some v.
Proof using Type. unfold map_entries. by rewrite sort_by_perm, elem_of_map_to_list. Qed.

Lemma catalogue_positive node_id db p r :
  positive db → protection node_id db = Some p → r ∈ p.2 → (0 < rel_revision r)%Z.
Proof using Type.
  intros Hpos Hp. unfold protection in Hp. destruct (find_policy _ _); [|done]. cbn in Hp.
  destruct (find_node _ _); [|done].
  injection Hp as <-. cbn. intros ([k v] & -> & Hk%map_entries_elem)%list_elem_of_fmap. cbn.
  unfold known_releases in Hk.
  assert (∀ l (m : gmap Z (string * string)), foldr delete m l !! k = Some v → m !! k = Some v) as Hdel.
  { intros l m. induction l as [|x l IH]; cbn; [done|]. intros [_ H]%lookup_delete_Some. auto. }
  apply Hdel, elem_of_list_to_map_2, list_elem_of_fmap in Hk as (d & [= -> _] & Hd). apply Hpos.
  unfold node_deployments in Hd. rewrite sort_by_perm, list_filter_bool in Hd.
  by apply list_elem_of_filter in Hd as [_ ?].
Qed.

End inv.

(** ** Runs *)

Section runs.
Context `{CL : CollationLib, UL : UuidLib, SH : Sha256Lib, SV : SemverLib, HL : HttpLib, CC : CleanupCodec}.
Context (uri_to_string : Uri → string) (inventory_encoded_len : DeploymentInventoryV1 → Z).

Abbreviation step := (system_step uri_to_string inventory_encoded_len).
Abbreviation reachable := (system_reachable uri_to_string inventory_encoded_len).

Lemma system_cleanup (past : NodeDb → Prop) db db' :
  past db → staging_inv db → step db db' → cleanup_step past db db'.
Proof using Type.
  intros Hpast Hi [c Hc|db1 Hr]; [|by eapply fences_step, registration_fences]. destruct c.
  - by apply fences_step, perform_fences.
  - apply fences_step, (transact_moves fences), begin_fences.
  - apply fences_step, (transact_moves fences), finalize_fences.
  - apply fences_step, (transact_moves fences), abandon_fences.
  - apply fences_step, (transact_moves fences), rollback_fences.
  - apply batch_step; [done|]. by apply si_nodes.
  - apply (transact_moves (cleanup_step past)), claim_cleanup_step.
  - apply (transact_moves (cleanup_step past)), renew_cleanup_step.
  - apply (transact_moves (cleanup_step past)), report_cleanup_step.
  - apply (transact_moves (cleanup_step past)), retry_cleanup_step.
Qed.

(** The states of the run up to the given one. *)
Definition before (db db0 : NodeDb) : Prop := reachable db0 ∧ rtc step db0 db.

Lemma steps_cleanup final db db' :
  reachable db → rtc step db db' → rtc step db' final → cleanup_step (before final) db db'.
Proof using Type.
  intros Hr Hs. revert Hr. induction Hs as [db|db db1 db' H1 Hs IH]; intros Hr Hf; [reflexivity|].
  etrans; [apply system_cleanup; [|by eapply reachable_staging|done]|].
  - split; [done|]. eapply rtc_l; [done|]. by etrans.
  - apply IH; [|done]. eapply system_reachable_steps; [done|by apply rtc_once].
Qed.

Lemma initial_cleanup past db : system_initial db → cleanup_inv past db.
Proof using Type.
  intros [_ (_ & _ & E)]. split; rewrite E; cbn; [apply NoDup_nil_2|]. intros c Hc. by apply not_elem_of_nil in Hc.
Qed.

Lemma reachable_cleanup db : reachable db → cleanup_inv (before db) db.
Proof using Type.
  intros (db0 & Hi & Hs). assert (reachable db0) as Hr by (exists db0; split; [done|reflexivity]).
  by apply (steps_cleanup db db0 db Hr Hs); [|apply initial_cleanup].
Qed.

Lemma system_positive db db' : step db db' → positive db → positive db'.
Proof using Type.
  intros [c Hc|db1 Hr]; [|by apply registration_fences in Hr as (_ & _ & ?)].
  destruct (is_cleanup_call c) eqn:Ec.
  { unfold positive. by destruct (cleanup_call_same uri_to_string inventory_encoded_len c db Ec) as (_ & _ & ->). }
  assert (fences db (perform_system uri_to_string inventory_encoded_len c db)) as (_ & _ & ?); [|done].
  destruct c; try done; [by apply perform_fences|apply (transact_moves fences)..];
    [apply begin_fences|apply finalize_fences|apply abandon_fences|apply rollback_fences].
Qed.

Lemma reachable_positive db : reachable db → positive db.
Proof using Type.
  intros (db0 & (_ & _ & E & _) & Hs). assert (positive db0) as Hp.
  { intros d Hd. rewrite E in Hd. by apply not_elem_of_nil in Hd. }
  clear E. induction Hs; [done|]. by eauto using system_positive.
Qed.

Lemma system_from db db' : step db db' → inventories_from db db'.
Proof using Type.
  intros [c Hc|db1 Hr]; [|by eapply fences_from, registration_fences]. destruct c.
  - by apply fences_from, perform_fences.
  - apply fences_from, (transact_moves fences), begin_fences.
  - apply fences_from, (transact_moves fences), finalize_fences.
  - apply fences_from, (transact_moves fences), abandon_fences.
  - apply fences_from, (transact_moves fences), rollback_fences.
  - apply (transact_moves inventories_from), batch_from.
  - apply (transact_moves inventories_from), claim_cleanup_from.
  - apply (transact_moves inventories_from), renew_cleanup_from.
  - apply (transact_moves inventories_from), report_cleanup_from.
  - apply (transact_moves inventories_from), retry_cleanup_from.
Qed.

(** Every inventory that the manager knows was reported. *)
Lemma reachable_reported db c l :
  reachable db → c ∈ cleanups (cleanup db) → cl_known_inventory c = Some l → reported_inventory (cl_node_id c) l db.
Proof using Type.
  intros (db0 & [_ (_ & _ & E)] & Hs) Hc El. assert (inventories_from db0 db) as [_ H].
  { clear -Hs. induction Hs as [|a b d Hab _ IH]; [reflexivity|]. etrans; [by apply system_from|done]. }
  destruct (H c l Hc El) as [(c0 & Hc0 & _)|]; [|done]. rewrite E in Hc0. by apply not_elem_of_nil in Hc0.
Qed.

(** What an instruction was answered from. *)
Lemma claim_instruction past now clock fresh_id node_id instance principal db i db' :
  cleanup_inv past db → claim_node_cleanup now clock fresh_id node_id instance principal db = (Ok (Some i), db') →
  ∃ row a policy, find_cleanup node_id db = Some row ∧ authority_inv past row ∧ cl_authority row = Some a
    ∧ ci_delete_releases i = ca_delete_releases a ∧ ci_expected_inventory i = ca_known_inventory a
    ∧ manager_cleanup_policy node_id db = Ok policy ∧ cp_fingerprint policy = cl_protection_fingerprint row.
Proof using Type.
  intros Hi H%transact_ok. unfold claim_node_cleanup_tx in H. inv_tx.
  all: rename select (find_cleanup _ _ = Some _) into Hf;
    rename select (_ && negb (claim_live _ _ _ _) = false) into Hl;
    apply claimable_in_flight in Hl; pose proof Hf as [Hin _]%find_elem; pose proof (ci_issued _ _ Hi _ Hin Hl);
    rename select (negb _ = false) into He; apply negb_false_iff, String.eqb_eq in He; by eauto 12.
Qed.

(** C11. A claim deletes no release that is protected when it is answered: each of its deletions is in an
    inventory that an accepted result of the node reported, none of them was protected in the state that
    the authority was computed from, and the fingerprint of that state's protections is the current one.
    So no deletion is protected now, unless two inputs of the fingerprint collide under SHA-256 or a
    protected revision has reached 2^59, beyond which the encoding that is hashed is ambiguous. *)
Theorem claims_spare_protected_releases now clock fresh_id node_id instance principal db i db' :
  reachable db → claim_node_cleanup now clock fresh_id node_id instance principal db = (Ok (Some i), db') →
  ∃ db0 p0 p, rtc step db0 db ∧ protection node_id db0 = Some p0 ∧ protection node_id db = Some p
    ∧ (∀ r, r ∈ ci_delete_releases i →
         r ∈ ci_expected_inventory i ∧ reported_inventory node_id (ci_expected_inventory i) db ∧ rel_revision r ∉ p0.1.2)
    ∧ sha256_hex (policy_input p0) = sha256_hex (policy_input p)
    ∧ (policy_input p0 = policy_input p → small_revisions p0 → small_revisions p →
       ∀ r, r ∈ ci_delete_releases i → rel_revision r ∉ p.1.2).
Proof using Type.
  intros Hr Hc. destruct (claim_instruction _ _ _ _ _ _ _ _ _ _ (reachable_cleanup _ Hr) Hc)
    as (row & a & policy & Hf & (a' & Ea & Einv & Hsub & _ & db0 & p0 & [Hr0 Hs0] & Hp0 & Efp & Hdel) & Ea' & Ed & Ek & Hp & Ef).
  rewrite Ea in Ea'. injection Ea' as ->. apply find_elem in Hf as [Hrow Hn%String.eqb_eq]. rewrite Hn in Hp0.
  destruct (manager_policy_ok _ _ _ Hp) as (p & Hpr & Ef' & _). exists db0, p0, p. rewrite Ed, Ek.
  repeat (split; [done|]). split; [|split].
  - intros r H. split; [by apply Hsub|]. split; [|by apply Hdel]. apply Hsub in H. rewrite Einv in H |- *.
    destruct (cl_known_inventory row) as [l|] eqn:El; [|by apply not_elem_of_nil in H]. rewrite <-Hn. by apply reachable_reported.
  - rewrite Ef, Efp in Ef'. by injection Ef'.
  - intros E S0 S r H. rewrite <-(policy_input_protected p0 p); try done; [by apply Hdel| |].
    + intros x. apply (catalogue_positive node_id db0); [by apply reachable_positive|done].
    + intros x. apply (catalogue_positive node_id db); [by apply reachable_positive|done].
Qed.

(** ** The inventory *)

Lemma later_inventory db db' row inventory :
  reachable db → row ∈ cleanups (cleanup db) → cl_known_inventory row = Some inventory → rtc step db db' →
  cleanup_inv (before db') db'
  ∧ ∀ row', find_cleanup (cl_node_id row) db' = Some row' →
    ∃ inventory', cl_known_inventory row' = Some inventory' ∧ inventory' ⊆ inventory.
Proof using Type.
  intros Hr Hrow El Hs. pose proof (system_reachable_steps _ _ _ _ Hr Hs) as Hr'.
  pose proof (reachable_cleanup _ Hr') as Hi'.
  split; [done|]. intros row' Hf.
  assert (cleanup_inv (before db') db) as Hi.
  { destruct Hr as (db0 & H0 & Hs0). eapply (steps_cleanup db' db0 db); [|done..|by apply initial_cleanup].
    exists db0. split; [done|reflexivity]. }
  destruct (steps_cleanup db' _ _ Hr Hs ltac:(reflexivity) Hi) as [_ Hk].
  destruct (Hk row Hrow) as (c & Hc & Ec & Hle).
  rewrite <-(cleanup_row_unique _ _ _ _ _ Hi' Hf Hc); [by apply Hle|]. by apply String.eqb_eq.
Qed.

(** A successful result that reports a release outside of the node's inventory changes nothing. *)
Lemma foreign_release_refused past clock request principal db inventory r :
  cleanup_inv past db →
  (∀ row, find_cleanup (rr_node_id request) db = Some row →
     ∃ inventory', cl_known_inventory row = Some inventory' ∧ inventory' ⊆ inventory) →
  rr_condition_code request = "" → r ∈ rr_resulting_inventory request → r ∉ inventory →
  (report_node_cleanup_result clock request principal db).2 = db.
Proof using Type.
  intros Hi Hinv Hok Hin Hout. unfold report_node_cleanup_result, transact.
  destruct (report_node_cleanup_result_tx _ _ _ _) as [[res db']|e] eqn:H; [|done]. cbn.
  unfold report_node_cleanup_result_tx, get_cleanup_summary_in, alter_cleanup, store_cleanup_result in H.
  rewrite Hok in H. cbn [str_is_empty] in H. inv_tx; try done.
  all: rename select (check_cleanup_result _ _ _ = Ok _) into Hc; rename select (find_cleanup _ db = Some _) into Hf.
  all: rename select (negb (claim_holds _ _ _ _ _ _ _) = false) into Hh;
    rename select (cl_authority _ = Some _) into Ha.
  all: apply negb_false_iff, claim_holds_in_flight in Hh; pose proof Hf as [Hrow _]%find_elem.
  all: destruct (Hinv _ eq_refl) as (l & El & Hsub);
    destruct (authority_inventory_le _ _ _ _ (ci_issued _ _ Hi _ Hrow Hh) Ha El) as [Ek Hne].
  all: destruct Hout; apply Hsub; rewrite <-Ek; match type of Hc with _ = Ok ?u => destruct u end;
    eapply check_result_inventory; [done|congruence|done].
Qed.

Lemma check_allowlist_ok host seen allowlist r h :
  check_allowlist host seen allowlist = Ok () → r ∈ allowlist → h ∈ ho_releases host →
  rel_revision h = rel_revision r → h = r.
Proof using Type.
  revert seen. induction allowlist as [|x l IH]; intros seen H Hr Hh E; [by apply not_elem_of_nil in Hr|].
  cbn in H. inv_ok H. apply elem_of_cons in Hr as [->|Hr]; [|by eapply IH].
  rename select (forallb _ _ = true) into Hall. rewrite forallb_forall in Hall.
  apply list_elem_of_In, Hall in Hh. rewrite E, Z.eqb_refl in Hh. by apply bool_decide_eq_true in Hh.
Qed.

(** The host keeps every release that it is not told to delete. *)
Lemma host_cleanup_keeps host allowlist retained r :
  host_cleanup host allowlist = Ok retained → r ∈ ho_releases host → r ∉ allowlist → r ∈ retained.
Proof using Type.
  intros H Hr Hn. unfold host_cleanup in H. inv_ok H. injection H as <-.
  apply list_elem_of_In, filter_In. split; [by apply list_elem_of_In|]. apply negb_true_iff, bool_decide_eq_false.
  intros (y & E & Hy)%list_elem_of_fmap. apply Hn.
  match goal with H : check_allowlist _ _ _ = Ok ?u |- _ => destruct u;
    by rewrite (check_allowlist_ok _ _ _ _ _ H Hy Hr E) end.
Qed.

(** C35. A release that a node installs after its first inventory is never cleaned up: it is in
    no later list of deletions, and while the host holds it the report of a cleanup that the
    host carried out changes nothing. *)
Theorem later_releases_never_cleaned db db' row inventory r :
  reachable db → row ∈ cleanups (cleanup db) → cl_known_inventory row = Some inventory → r ∉ inventory →
  rtc step db db' →
  (∀ now clock fresh_id instance principal i db2,
     claim_node_cleanup now clock fresh_id (cl_node_id row) instance principal db' = (Ok (Some i), db2) →
     r ∉ ci_delete_releases i)
  ∧ (∀ i host retained clock principal,
     ci_node_id i = cl_node_id row → r ∉ ci_delete_releases i → r ∈ ho_releases host →
     host_cleanup host (ci_delete_releases i) = Ok retained →
     (report_node_cleanup_result clock (cleanup_report i (Ok retained)) principal db').2 = db').
Proof using Type.
  intros Hr Hrow El Hn Hs. destruct (later_inventory _ _ _ _ Hr Hrow El Hs) as [Hi Hlater]. split.
  - intros now clock fresh_id instance principal i db2 Hc Hin.
    destruct (claim_instruction _ _ _ _ _ _ _ _ _ _ Hi Hc) as (row' & a & policy & Hf & Ha & Ea & Ed & _).
    destruct (Hlater _ Hf) as (l & El' & Hsub). apply Hn, Hsub. destruct Ha as (a' & Ea' & Ek & Hdel & _).
    rewrite Ea in Ea'. injection Ea' as <-. rewrite El' in Ek. cbn in Ek. rewrite <-Ek. apply Hdel. by rewrite <-Ed.
  - intros i host retained clock principal En Hd Hh Hc.
    eapply (foreign_release_refused _ _ _ _ _ inventory r Hi); cbn; [by rewrite En|done| |done].
    by eapply host_cleanup_keeps.
Qed.

End runs.

(** ** Changes of the retention *)

Section retention.
Context `{CL : CollationLib, UL : UuidLib, SH : Sha256Lib, CC : CleanupCodec}.

(** The second state has the cleanup tables and the deployments of the first, and no fewer
    policies and nodes. *)
Record extends (db db' : NodeDb) : Prop := mkExtends {
  ex_cleanup : cleanup db' = cleanup db;
  ex_deployments : deployments db' = deployments db;
  ex_policies node_id : is_Some (find_policy node_id db) → is_Some (find_policy node_id db');
  ex_nodes node_id : is_Some (find_node node_id db) → is_Some (find_node node_id db');
}.

Lemma extends_cleanup db db' t t' : extends db db' → t' = t → extends (set_cleanup t db) (set_cleanup t' db').
Proof using Type. intros [E1 E2 Hp Hn] ->. by split. Qed.

Lemma extends_find db db' node_id : extends db db' → find_cleanup node_id db' = find_cleanup node_id db.
Proof using Type. intros H. unfold find_cleanup. by rewrite (ex_cleanup _ _ H). Qed.

(** What succeeds in a state succeeds in an extension, with the same answer. *)
Definition follows {A} (t t' : Tx A) : Prop :=
  ∀ db db' a d, extends db db' → t db = Ok (a, d) → ∃ d', t' db' = Ok (a, d') ∧ extends d d'.

Lemma follows_bind {A B} (t t' : Tx A) (k k' : A → Tx B) :
  follows t t' → (∀ a, follows (k a) (k' a)) → follows (t ≫= k) (t' ≫= k').
Proof using Type.
  intros Ht Hk db db' b d He (a & d1 & H1 & H2)%tx_bind_ok. destruct (Ht _ _ _ _ He H1) as (d1' & H1' & He').
  destruct (Hk a _ _ _ _ He' H2) as (d' & H2' & Hd). exists d'. by rewrite (tx_bind_runs _ _ _ _ _ H1').
Qed.

Lemma follows_get {B} (k k' : NodeDb → Tx B) :
  (∀ db db', extends db db' → follows (k db) (k' db')) → follows (get ≫= k) (get ≫= k').
Proof using Type.
  intros Hk db db' b d He (? & ? & [-> ->]%tx_get_ok & H)%tx_bind_ok. by apply (Hk db db' He db db').
Qed.

Lemma follows_lift {A} (r r' : result Status A) : (∀ a, r = Ok a → r' = Ok a) → follows (lift r) (lift r').
Proof using Type.
  intros Hr db db' a d He [E ->]%tx_lift_ok. exists db'. unfold lift. by rewrite (Hr _ E).
Qed.

Lemma follows_ret {A} (a : A) : follows (mret a) (mret a).
Proof using Type. intros db db' b d He [-> ->]%tx_ret_ok. by exists db'. Qed.

Lemma follows_guard b e : follows (guard_tx b e) (guard_tx b e).
Proof using Type. destruct b; [apply follows_ret|]. by intros db db' a d _ H. Qed.

Lemma follows_fail {A} e (t : Tx A) : follows (fail e) t.
Proof using Type. by intros db db' a d _ H. Qed.

Lemma follows_alter f : follows (alter_cleanup f) (alter_cleanup f).
Proof using Type.
  intros db db' a d He H. unfold alter_cleanup in *. destruct a. apply tx_modify_ok in H as ->. eexists.
  split; [reflexivity|]. apply extends_cleanup; [done|]. by rewrite (ex_cleanup _ _ He).
Qed.

Lemma follows_update p f : follows (update_cleanups p f) (update_cleanups p f).
Proof using Type.
  unfold update_cleanups. apply follows_get. intros db db' He. rewrite (ex_cleanup _ _ He).
  apply follows_bind; [apply follows_guard|intros _]. apply follows_bind; [apply follows_alter|intros _].
  apply follows_ret.
Qed.

Lemma catalogue_extends db db' node_id p :
  extends db db' → manager_cleanup_policy node_id db = Ok p →
  ∃ p', manager_cleanup_policy node_id db' = Ok p' ∧ cp_known p' = cp_known p.
Proof using Type.
  intros [Ec Ed Hp Hn] H. unfold manager_cleanup_policy in *.
  destruct (find_policy node_id db) as [ap|] eqn:Ep; [|done]. destruct (Hp node_id) as [ap' ->]; [by rewrite Ep|].
  destruct (find_node node_id db) as [n|] eqn:En; [|done]. destruct (Hn node_id) as [n' ->]; [by rewrite En|].
  simplify_eq. eexists. split; [reflexivity|]. cbn. unfold known_releases, node_deployments. by rewrite Ed, Ec.
Qed.

Lemma check_result_extends request authority db db' :
  extends db db' → check_cleanup_result request authority db = Ok () →
  check_cleanup_result request authority db' = Ok ().
Proof using Type.
  intros He H. unfold check_cleanup_result in *. inv_ok H.
  repeat match goal with E : canonical_releases _ = Ok _ |- _ => rewrite E; cbn [rbind]; clear E end.
  match goal with E : bool_decide _ = true |- _ => rewrite E end. unfold check_inventory in *.
  destruct (bool_decide (ca_known_inventory authority = [])); [|done].
  destruct (manager_cleanup_policy _ db) as [p|] eqn:Ep; [|done].
  destruct (catalogue_extends _ _ _ _ He Ep) as (p' & -> & Ek). cbn. by rewrite Ek.
Qed.

Lemma follows_summary node_id : follows (get_cleanup_summary_in node_id) (get_cleanup_summary_in node_id).
Proof using Type.
  unfold get_cleanup_summary_in. apply follows_get. intros db db' He. rewrite (extends_find _ _ _ He).
  destruct (find_cleanup node_id db); [by apply follows_lift|apply follows_fail].
Qed.

#[local] Hint Resolve follows_bind follows_ret follows_guard follows_fail follows_alter follows_update follows_summary : core.

Lemma follows_store request authority generation :
  follows (store_cleanup_result request authority generation) (store_cleanup_result request authority generation).
Proof using Type.
  unfold store_cleanup_result, update_generations, bind_texts. destruct (str_is_empty _).
  - apply follows_get. intros db db' He. apply follows_bind; [|auto 8].
    apply follows_lift. intros []. by apply check_result_extends.
  - auto 8.
Qed.

#[local] Hint Resolve follows_store : core.

Lemma follows_report clock request principal :
  follows (report_node_cleanup_result_tx clock request principal) (report_node_cleanup_result_tx clock request principal).
Proof using Type.
  unfold report_node_cleanup_result_tx, bind_texts. apply follows_bind; [by apply follows_lift|intros fence].
  apply follows_bind; [auto|intros _]. apply follows_get. intros db db' He. rewrite (ex_cleanup _ _ He).
  destruct (List.find _ _) as [receipt|]; [auto 8|]. rewrite (extends_find _ _ _ He).
  destruct (find_cleanup _ db) as [row|]; [|auto]. destruct (negb _).
  - apply follows_bind; [by apply follows_lift|auto].
  - apply follows_bind; [auto|intros _]. apply follows_bind; [by destruct (cl_authority row)|auto 12].
Qed.

Lemma follows_renew now request principal :
  follows (renew_node_cleanup_tx now request principal) (renew_node_cleanup_tx now request principal).
Proof using Type.
  unfold renew_node_cleanup_tx, bind_texts. apply follows_bind; [by apply follows_lift|auto 8].
Qed.

Lemma follows_answer {A} (t : Tx (result Status A)) db db' a :
  follows t t → extends db db' → (transact t db).1 = Ok a → (transact t db').1 = Ok a.
Proof using Type.
  intros Hf He. unfold transact. destruct (t db) as [[r d]|e] eqn:E; [|done].
  destruct (Hf _ _ _ _ He E) as (d' & -> & _). done.
Qed.

(** ** Policies *)

Lemma upsert_policy_found row l node_id :
  is_Some (List.find (λ p, String.eqb (ap_node_id p) node_id) l) →
  is_Some (List.find (λ p, String.eqb (ap_node_id p) node_id) (upsert_policy row l)).
Proof using Type.
  intros [p Hp]. unfold upsert_policy. destruct (existsb _ l); [|rewrite find_app, Hp; by eexists].
  induction l as [|q l IH]; [done|]. cbn in *. destruct (String.eqb_spec (ap_node_id q) (ap_node_id row)) as [E|Hne].
  - rewrite E in Hp. destruct (String.eqb (ap_node_id row) node_id); [by eexists|by apply IH].
  - destruct (String.eqb (ap_node_id q) node_id); [by eexists|by apply IH].
Qed.

Lemma upsert_policy_is row l :
  List.find (λ p, String.eqb (ap_node_id p) (ap_node_id row)) (upsert_policy row l) = Some row.
Proof using Type.
  unfold upsert_policy. destruct (existsb _ l) eqn:E.
  - induction l as [|q l IH]; [done|]. cbn in *. destruct (String.eqb (ap_node_id q) (ap_node_id row)) eqn:Eq.
    + by rewrite String.eqb_refl.
    + rewrite Eq. by apply IH.
  - rewrite find_app. destruct (List.find _ l) as [p|] eqn:Ef; [|cbn; by rewrite String.eqb_refl].
    apply find_elem in Ef as [Hin Hp]. rewrite <-not_true_iff_false in E. destruct E. apply existsb_exists.
    exists p. by rewrite <-list_elem_of_In.
Qed.

Lemma ensure_node_found node_id db other :
  is_Some (find_node other db) → is_Some (find_node other (ensure_node node_id db)).
Proof using Type.
  intros [n Hn]. unfold ensure_node. case_match; [|by eexists]. unfold find_node in *. cbn. rewrite find_app, Hn. by eexists.
Qed.

(** A policy that keeps the agent's identity is stored, and nothing else is written. *)
Lemma put_policy_same_agent now actor policy db row answer db' :
  find_policy (na_node_id policy) db = Some row →
  ap_protocol_version row = na_protocol_version policy → ap_binary_digest row = na_binary_digest policy →
  normalize_capabilities (na_capabilities policy) = Ok (ap_capabilities row) →
  put_agent_policy_tx now actor policy db = Ok (Ok answer, db') →
  ∃ new, ap_node_id new = na_node_id policy
    ∧ (∀ v, na_retention_count policy = Some v → ap_retention_count new = v)
    ∧ db' = set_policies (upsert_policy new (policies (ensure_node (na_node_id policy) db)))
              (ensure_node (na_node_id policy) db).
Proof using Type.
  intros Hrow Ep Eb Ec H. unfold put_agent_policy_tx in H.
  apply tx_bind_ok in H as (capabilities & ? & [Hcap ->]%tx_lift_ok & H).
  assert (capabilities = ap_capabilities row) as ->.
  { unfold canonical_agent_policy in Hcap. inv_ok Hcap. unfold invalid in Hcap. rewrite Ec in Hcap. cbn in Hcap. congruence. }
  apply tx_bind_ok in H as (explicit & ? & [Hex ->]%tx_lift_ok & H).
  apply tx_bind_ok in H as (? & ? & [-> ->]%tx_get_ok & H). rewrite Hrow in H. cbv zeta in H.
  apply tx_bind_ok in H as (retention & db1 & Hret & H).
  rewrite Ep, Eb, !String.eqb_refl, bool_decide_true in H by done. cbn [negb orb] in H. inv_tx.
  all: eexists; (split; [|split; [|reflexivity]]); [done|]; cbn; intros w Hw; unfold explicit_retention in Hex; rewrite Hw in Hex.
  all: inv_ok Hex; unfold i32_try_from in Hex; destruct (_ <=? _)%Z; congruence.
Qed.

(** C37. A new retention leaves the cleanups in flight as they are. A policy that changes
    neither the agent's protocol version nor its binary digest nor its capabilities fences no
    cleanup authority, whatever retention it sets: a claim that could be renewed still is, and a
    result that would have been accepted still is, even of a release that the new retention
    protects. *)
Theorem retention_changes_keep_claims now actor policy db row answer db' :
  find_policy (na_node_id policy) db = Some row →
  ap_protocol_version row = na_protocol_version policy → ap_binary_digest row = na_binary_digest policy →
  normalize_capabilities (na_capabilities policy) = Ok (ap_capabilities row) →
  put_agent_policy now actor policy db = (Ok answer, db') →
  (∀ v, na_retention_count policy = Some v → ap_retention_count <$> find_policy (na_node_id policy) db' = Some v)
  ∧ cleanup db' = cleanup db
  ∧ (∀ now' request principal a,
       (renew_node_cleanup now' request principal db).1 = Ok a → (renew_node_cleanup now' request principal db').1 = Ok a)
  ∧ ∀ clock request principal a,
      (report_node_cleanup_result clock request principal db).1 = Ok a →
      (report_node_cleanup_result clock request principal db').1 = Ok a.
Proof using Type.
  intros Hrow Ep Eb Ec H%transact_ok.
  destruct (put_policy_same_agent _ _ _ _ _ _ _ Hrow Ep Eb Ec H) as (new & En & Hv & ->).
  assert (extends db (set_policies (upsert_policy new (policies (ensure_node (na_node_id policy) db)))
                        (ensure_node (na_node_id policy) db))) as He.
  { assert (cleanup (ensure_node (na_node_id policy) db) = cleanup db
            ∧ deployments (ensure_node (na_node_id policy) db) = deployments db
            ∧ policies (ensure_node (na_node_id policy) db) = policies db) as (E1 & E2 & E3)
      by (unfold ensure_node; by case_match).
    split; [done|done|intros n Hn; unfold find_policy in *; cbn; rewrite E3; by apply upsert_policy_found|].
    intros n Hn. exact (ensure_node_found _ _ _ Hn). }
  split; [|split; [exact (ex_cleanup _ _ He)|split]].
  - intros v E. unfold find_policy. cbn. rewrite <-En, upsert_policy_is. cbn. by rewrite (Hv v E).
  - intros now' request principal a. apply follows_answer; [apply follows_renew|exact He].
  - intros clock request principal a. apply follows_answer; [apply follows_report|exact He].
Qed.

End retention.
