(* ===== verification/NodeDemo.v ===== *)
(** * Node operations: example runs

    A node that runs revision 1 in two slots, with revision 2 staged: the restart of a slot to
    its end, a deployment whose proxy effect becomes ambiguous, and states in which the theorems apply. *)

From S2P Require Import Prelude RustStr Utf8 Lists Orders Externals Models Grpc Snapshot Lifecycle IndexedRouting Deployment Rollout RolloutDemo Schedule Operations NodeStatus NodeTables NodeStore NodeSubmit NodeRun NodeAgent NodeReport NodeHost NodeTx NodeSteps NodeLoad NodeRefine NodeRefineTx NodeFacts NodeFrame NodeStuck NodeClaims NodeResults NodeWedge NodeAuthority NodeSubmitFacts.

Section demo.
#[local] Existing Instances toy_sha256 toy_uuid toy_collation.

(** ** The node *)

Definition demo_digest (tail : string) : string :=
  "sha256:00112233445566778899aabbccddeeff00112233445566778899aabbccddee" +:+ tail.

Definition demo_module : ModuleIdentity := mkModuleIdentity "shop" "cart" "1.0.0".

Definition demo_engine (slot : string) : ExpectedEngine :=
  mkExpectedEngine slot [mkExpectedModule (Some demo_module) ""] [] [] "" "".

Definition demo_inventory : DeploymentInventoryV1 := mkInventory 1 [demo_engine "blue"; demo_engine "green"].

Definition demo_deployment (revision : Z) (state tail resolved : string) : DeploymentRow :=
  mkDeploymentRow "node-a" revision ("token-" +:+ tail) (demo_digest tail) demo_inventory state None None None
    (demo_digest resolved) (Some 1%Z) "operator" (demo_digest "aa") 0.

Definition demo_registration (id slot : string) : EngineRow :=
  mkEngineRow (mkRegistration id [demo_module] (Some (mkMetadata "node-a" 1 (demo_digest "01") slot)))
    (from_secs 100) (Some "node-a") (Some slot) (Some 1%Z).

Definition demo_route (id : string) : RoutingRule :=
  mkRoutingRule (id +:+ "/shop/cart/1.0.0") "" "cart" id "" "1.0.0" true "" "shop" "p".

Definition demo_db : NodeDb :=
  mkNodeDb [mkNodeRow "node-a" 1 None]
    [demo_deployment 1 "succeeded" "01" "f1"; demo_deployment 2 "pending" "02" "f2"]
    [] [] [] [] [] [] [mkAgentPolicy "node-a" "v" 2 "operator" (demo_digest "bb") []]
    [mkAttestation "node-a" "act-1" "agent" "v" (demo_digest "bb") [] (from_secs 100);
     mkAttestation "node-a" "act-2" "agent" "v" (demo_digest "bb") [] (from_secs 120)]
    [demo_registration "e1" "blue"; demo_registration "e2" "green"]
    [mkModuleHeartbeat "e1" demo_module (from_secs 100); mkModuleHeartbeat "e2" demo_module (from_secs 100)]
    [demo_route "e1"; demo_route "e2"] 0 (mkCleanupTables [] [] [] [] []).

Definition demo_source : Release := mkRelease 1 (demo_digest "01") (demo_digest "f1").

Lemma demo_reachable : node_reachable demo_db.
Proof. exists demo_db. by split. Qed.

(** ** The restart of one slot *)

Definition demo_policy : RolloutPolicy := mkRolloutPolicy 1 true 300.

Definition demo_restart : SubmitOperationRequest :=
  mkSubmit "node-a" "restart" 3 0 "" (Some demo_policy) "" "blue".

Definition demo_config : ActivationConfig := mkActivation "node-a" "act-1" (demo_digest "bb").

Definition demo_claim (seconds : Z) : NodeCall :=
  CClaim (from_secs seconds) (from_secs seconds) [] "node-a" "act-1" "agent".

Definition demo_lifecycle (process : string) : LifecycleStatus :=
  mkLifecycleStatus 2 3 process None 0 "" "" false 0 "" 0 "" 0 "".

Definition demo_evidence (state : BackendProcessState) (backend process : string) : StepEvidence :=
  mkStepEvidence demo_source (Some state) backend process ""
    (match state with BpRunning => Some (demo_lifecycle process) | _ => None end)
    (Some (mkTermination backend process true false 1 "" (Some 0%Z) None)).

(** The instruction that a claim returns. *)
Definition demo_issued (c : NodeCall) (db : NodeDb) : option AgentInstruction := head (issued_by c db).

(** The agent executes the step and sends its result, then its observation. *)
Definition demo_execute (seconds : Z) (i : option AgentInstruction) (evidence : StepEvidence) (db : NodeDb) :
    bool * NodeDb :=
  match i with
  | None => (false, db)
  | Some i =>
      match completed_reports demo_config i (Ok evidence) with
      | Ok (observation, Some request) =>
          let reported := report_step (from_secs seconds) (from_secs seconds) request "agent" db in
          match observation with
          | None => (is_ok reported.1, reported.2)
          | Some o =>
              let observed := report_observation (from_secs (seconds + 1)) (from_secs (seconds + 1)) o "agent" reported.2 in
              (is_ok reported.1 && is_ok observed.1, observed.2)
          end
      | _ => (false, db)
      end
  end.

(** The stopped engine is gone from the registry. *)
Definition demo_withdraw (db : NodeDb) : NodeDb :=
  mkNodeDb (nodes db) (deployments db) (operations db) (targets db) (operation_events db) (receipts db)
    (authorities db) (observations db) (policies db) (attestations db)
    (List.filter (λ e, negb (String.eqb (er_engine_id (en_registration e)) "e1")) (engines db))
    (heartbeats db) (routes db) (routing_version db) (cleanup db).

Definition demo_submitted : NodeDb := perform (CSubmit (from_secs 100) 9 "operator" demo_restart) demo_db.

Definition demo_proved : bool * NodeDb :=
  let db := perform (demo_claim 101) demo_submitted in
  demo_execute 101 (demo_issued (demo_claim 101) demo_submitted) (demo_evidence BpRunning "b1" "p1") db.

Definition demo_stopped : bool * NodeDb :=
  let db := demo_proved.2 in
  demo_execute 104 (demo_issued (demo_claim 103) db) (demo_evidence BpExited "b1" "p1")
    (demo_withdraw (perform (demo_claim 103) db)).

(** Between the two: the result of the stop is stored, and its observation is about to be. *)
Definition demo_stop_completed : option (option ReportNodeObservationRequest * option ReportStepResultRequest) :=
  i ← demo_issued (demo_claim 103) demo_proved.2;
  match completed_reports demo_config i (Ok (demo_evidence BpExited "b1" "p1")) with Ok c => Some c | Err _ => None end.

Definition demo_stop_reported : NodeDb :=
  let db := demo_withdraw (perform (demo_claim 103) demo_proved.2) in
  match demo_stop_completed with
  | Some (_, Some request) => perform (CReport (from_secs 104) (from_secs 104) request "agent") db
  | _ => db
  end.

Definition demo_stop_observation : option ReportNodeObservationRequest := c ← demo_stop_completed; c.1.

Definition demo_observe (seconds : Z) (o : ReportNodeObservationRequest) : NodeCall :=
  CObserve (from_secs seconds) (from_secs seconds) o "agent".

Definition demo_started : bool * NodeDb :=
  let db := demo_stopped.2 in
  demo_execute 107 (demo_issued (demo_claim 106) db) (demo_evidence BpRunning "b2" "p2") (perform (demo_claim 106) db).

(** The started engine registers; its evidence is complete, and the slot goes on to its end
    with the claims that follow. *)
Definition demo_register (db : NodeDb) : NodeDb :=
  mkNodeDb (nodes db) (deployments db) (operations db) (targets db) (operation_events db) (receipts db)
    (authorities db) (observations db) (policies db) (attestations db)
    (demo_registration "e1" "blue" :: engines db)
    (heartbeats db) (routes db) (routing_version db) (cleanup db).

Definition demo_restarted : NodeDb :=
  perform (demo_claim 111) (perform (demo_claim 110) (perform (demo_claim 109) (demo_register demo_started.2))).

(** ** A deployment whose proxy effect becomes ambiguous *)

Definition demo_deploy : SubmitOperationRequest :=
  mkSubmit "node-a" "token-02" 7 2 (demo_digest "02") (Some demo_policy) (demo_digest "f2") "".

Definition demo_deploying : NodeDb := perform (CSubmit (from_secs 100) 9 "operator" demo_deploy) demo_db.

Definition demo_proxy_proved : bool * NodeDb :=
  demo_execute 101 (demo_issued (demo_claim 101) demo_deploying) (demo_evidence BpRunning "px" "pp")
    (perform (demo_claim 101) demo_deploying).

(** The stop of the proxy is delivered; no result arrives while the lease lasts. *)
Definition demo_delivered : NodeDb := perform (demo_claim 103) demo_proxy_proved.2.

Definition demo_claim_again (seconds : Z) : NodeCall :=
  CClaim (from_secs seconds) (from_secs seconds) [] "node-a" "act-2" "agent".

Definition demo_lost : NodeDb := perform (demo_claim_again 120) demo_delivered.

Definition demo_resume : NodeCall := CResume (coded 7%Z) "operator".

Definition demo_resumed : NodeDb := perform demo_resume demo_lost.

Definition demo_inspecting : NodeDb := perform (demo_claim_again 121) demo_resumed.

(** Submitting the committed revision again ends at once. *)
Definition demo_same : SubmitOperationRequest :=
  mkSubmit "node-a" "same" 7 1 (demo_digest "01") (Some demo_policy) (demo_digest "f1") "".

Definition demo_finished : NodeDb := perform (CSubmit (from_secs 100) 9 "operator" demo_same) demo_db.

(** ** The runs *)

Lemma perform_steps c db : call_ok c → rtc node_step db (perform c db).
Proof. intros Hc. by apply rtc_once, ns_call. Qed.

Lemma demo_execute_steps seconds i evidence db : rtc node_step db (demo_execute seconds i evidence db).2.
Proof.
  unfold demo_execute. destruct i as [i|]; [|done]. destruct (completed_reports _ _ _) as [[observation [request|]]|]; try done.
  assert (rtc node_step db (report_step (from_secs seconds) (from_secs seconds) request "agent" db).2) as Hs
    by (by apply (perform_steps (CReport (from_secs seconds) (from_secs seconds) request "agent"))).
  destruct observation as [o|]; [|done]. cbn [snd]. etrans; [exact Hs|].
  by apply (perform_steps (CObserve (from_secs (seconds + 1)) (from_secs (seconds + 1)) o "agent")).
Qed.

Lemma demo_execute_reachable seconds i evidence db :
  node_reachable db → node_reachable (demo_execute seconds i evidence db).2.
Proof. intros H. eapply reachable_steps; [exact H|apply demo_execute_steps]. Qed.

Lemma perform_reachable c db : call_ok c → node_reachable db → node_reachable (perform c db).
Proof. intros Hc H. eapply reachable_steps; [exact H|by apply perform_steps]. Qed.

Lemma demo_submitted_reachable : node_reachable demo_submitted.
Proof. apply perform_reachable; [done|apply demo_reachable]. Qed.

Lemma demo_proved_reachable : node_reachable demo_proved.2.
Proof. apply demo_execute_reachable, perform_reachable, demo_submitted_reachable. done. Qed.

Lemma demo_withdraw_steps db : rtc node_step db (demo_withdraw db).
Proof. by apply rtc_once, ns_other. Qed.

Lemma demo_withdraw_reachable db : node_reachable db → node_reachable (demo_withdraw db).
Proof. intros H. eapply reachable_steps; [exact H|apply demo_withdraw_steps]. Qed.

Lemma demo_started_reachable : node_reachable demo_started.2.
Proof.
  apply demo_execute_reachable, perform_reachable; [done|].
  apply demo_execute_reachable, demo_withdraw_reachable, perform_reachable, demo_proved_reachable. done.
Qed.

Lemma demo_started_steps : rtc node_step demo_submitted demo_started.2.
Proof.
  etrans; [|apply demo_execute_steps]. etrans; [|by apply perform_steps].
  etrans; [|apply demo_execute_steps]. etrans; [|apply demo_withdraw_steps]. etrans; [|by apply perform_steps].
  etrans; [|apply demo_execute_steps]. by apply perform_steps.
Qed.

Lemma demo_register_reachable db : node_reachable db → node_reachable (demo_register db).
Proof. intros H. eapply reachable_steps; [exact H|]. by apply rtc_once, ns_other. Qed.

Lemma demo_restarted_reachable : node_reachable demo_restarted.
Proof.
  unfold demo_restarted. do 3 (apply perform_reachable; [done|]). apply demo_register_reachable, demo_started_reachable.
Qed.

Lemma demo_deploying_reachable : node_reachable demo_deploying.
Proof. apply perform_reachable; [done|apply demo_reachable]. Qed.

Lemma demo_proxy_proved_reachable : node_reachable demo_proxy_proved.2.
Proof. apply demo_execute_reachable, perform_reachable, demo_deploying_reachable. done. Qed.

Lemma demo_lost_reachable : node_reachable demo_lost.
Proof. apply perform_reachable, perform_reachable, demo_proxy_proved_reachable; done. Qed.

Lemma demo_inspecting_reachable : node_reachable demo_inspecting.
Proof. apply perform_reachable, perform_reachable, demo_lost_reachable; done. Qed.

(** The answer of a claim that issues an instruction. *)
Lemma demo_claim_answer seconds db i :
  demo_issued (demo_claim seconds) db = Some i →
  claim (from_secs seconds) (from_secs seconds) [] "node-a" "act-1" "agent" db = (Ok (Some i), perform (demo_claim seconds) db).
Proof.
  unfold demo_issued. cbn. destruct (claim _ _ _ _ _ _ db) as [[[i'|]|e] db'] eqn:E; try done. by intros [= <-].
Qed.

(** A value that evaluates to something. *)
Lemma evaluates {A} (o : option A) : (match o with Some _ => true | None => false end) = true → ∃ a, o = Some a.
Proof. destruct o; [eauto|discriminate]. Qed.

(** ** Witnesses *)

(** The step that the slot is at. *)
Definition slot_at_step (id : Uuid) (db : NodeDb) : option string :=
  tr_next_step <$> List.find (is_slot_row id "blue") (op_view id db).2.

Lemma demo_stop_reported_reachable : node_reachable demo_stop_reported.
Proof.
  assert (node_reachable (demo_withdraw (perform (demo_claim 103) demo_proved.2))) as H
    by (apply demo_withdraw_reachable, perform_reachable, demo_proved_reachable; done).
  unfold demo_stop_reported. destruct demo_stop_completed as [[o [request|]]|]; try exact H.
  by apply perform_reachable.
Qed.

(** The observation of the stopped process, with the registration withdrawn, is the evidence
    on which the slot goes on to its start. *)
Lemma transactions_refine_moves_witness :
  ∃ o, demo_stop_observation = Some o
    ∧ slot_at_step 9 demo_stop_reported = Some "stop_backend"
    ∧ slot_at_step 9 (perform (demo_observe 105 o) demo_stop_reported) = Some "start_backend"
    ∧ rtc (op_move (evidence (demo_observe 105 o) demo_stop_reported (perform (demo_observe 105 o) demo_stop_reported)))
        (op_view 9 demo_stop_reported) (op_view 9 (perform (demo_observe 105 o) demo_stop_reported)).
Proof.
  assert (match demo_stop_observation with
          | Some o => bool_decide (slot_at_step 9 demo_stop_reported = Some "stop_backend")
                      && bool_decide (slot_at_step 9 (perform (demo_observe 105 o) demo_stop_reported) = Some "start_backend")
          | None => false
          end = true) as H by by vm_compute.
  destruct demo_stop_observation as [o|] eqn:Ho; [|discriminate H].
  pose proof demo_stop_reported_reachable as Hre. set (db := demo_stop_reported) in *. clearbody db.
  apply andb_true_iff in H as [H1%bool_decide_eq_true H2%bool_decide_eq_true].
  exists o. split; [reflexivity|]. split; [exact H1|]. split; [exact H2|].
  apply (transactions_refine_moves db 9); [exact Hre|exact I].
Defined.

(** The rows of a state that is given by its evaluation. *)
Lemma demo_row (p : OperationRow → bool) db :
  existsb p (operations db) = true → ∃ r, r ∈ operations db ∧ p r = true.
Proof. intros (r & Hr%list_elem_of_In & Hp)%existsb_exists. eauto. Qed.

Lemma demo_target (p : TargetRow → bool) db :
  existsb p (targets db) = true → ∃ t, t ∈ targets db ∧ p t = true.
Proof. intros (t & Ht%list_elem_of_In & Hp)%existsb_exists. eauto. Qed.

(** The restart has succeeded: its proxy and its slot are complete, and the slot is back at the
    revision that it serves. *)
Lemma finished_operations_uniform_witness :
  ∃ r proxy slot, r ∈ operations demo_restarted ∧ or_state r = "succeeded" ∧ or_forward_fenced r = false
    ∧ proxy ∈ targets demo_restarted ∧ tr_kind proxy = "proxy" ∧ tr_complete proxy = true
    ∧ slot ∈ targets demo_restarted ∧ tr_kind slot = "engine_slot" ∧ tr_complete slot = true
    ∧ ed_authoritative_revision <$> tr_detail slot = Some (target_revision slot).
Proof.
  destruct (demo_row (λ r, negb (is_active r) && String.eqb (or_state r) "succeeded" && (or_operation_id r =? 9)%Z)
              demo_restarted) as (r & Hr & Hp); [by vm_compute|].
  destruct (demo_target (λ t, String.eqb (tr_kind t) "proxy" && (tr_operation_id t =? 9)%Z) demo_restarted)
    as (px & Hx & Hpx); [by vm_compute|].
  destruct (demo_target (λ t, String.eqb (tr_kind t) "engine_slot" && (tr_operation_id t =? 9)%Z) demo_restarted)
    as (sl & Hs & Hsl); [by vm_compute|].
  pose proof demo_restarted_reachable as Hre. set (db := demo_restarted) in *. clearbody db. cbn beta in *.
  apply andb_true_iff in Hp as [[Ha%negb_true_iff Hst%String.eqb_eq]%andb_true_iff Hid%Z.eqb_eq].
  apply andb_true_iff in Hpx as [Hkx%String.eqb_eq Hix%Z.eqb_eq].
  apply andb_true_iff in Hsl as [Hks%String.eqb_eq His%Z.eqb_eq].
  destruct (finished_operations_uniform db r Hre Hr Ha) as [Hf Ht].
  destruct (Ht px Hx ltac:(congruence)) as [Hcx _]. destruct (Ht sl Hs ltac:(congruence)) as [Hcs Hauth].
  exists r, px, sl. repeat (split; [by (assumption || apply Hf)|]). rewrite (Hauth Hks), decide_True by exact Hst. reflexivity.
Defined.

Lemma finished_operations_final_witness :
  ∃ r, r ∈ operations demo_finished
    ∧ op_view (or_operation_id r) (perform (demo_claim 101) demo_finished) = op_view (or_operation_id r) demo_finished.
Proof.
  destruct (demo_row (λ r, negb (is_active r)) demo_finished) as (r & Hr & Ha); [by vm_compute|].
  exists r. split; [done|]. apply (finished_operations_final demo_finished); [|by apply perform_steps|done|].
  - apply perform_reachable; [done|apply demo_reachable].
  - by destruct (is_active r).
Defined.

Lemma forward_steps_bounded_witness :
  ∃ t, t ∈ targets demo_started.2 ∧ tr_completed_steps t = 3%Z ∧ (tr_completed_steps t ≤ MAX_FORWARD_STEPS)%Z.
Proof.
  destruct (demo_row (λ r, is_active r && negb (or_forward_fenced r) && (or_operation_id r =? 9)%Z) demo_started.2)
    as (r & Hr & Hp); [by vm_compute|].
  destruct (demo_target (λ t, String.eqb (tr_kind t) "engine_slot" && (tr_operation_id t =? 9)%Z
                              && (tr_completed_steps t =? 3)%Z) demo_started.2) as (t & Ht & Hq); [by vm_compute|].
  cbn beta in Hp, Hq. bool_to_prop. exists t. split; [done|]. split; [done|].
  apply (forward_steps_bounded demo_started.2 r t); try done; [apply demo_started_reachable|congruence|by apply String.eqb_eq].
Defined.

Lemma claims_record_deliveries_witness :
  ∃ i, demo_issued (demo_claim 103) demo_proxy_proved.2 = Some i ∧ ai_step i = StopBackend
    ∧ ∃ t, delivered_target (from_secs 103) t ∈ targets demo_delivered.
Proof.
  assert (option_map ai_step (demo_issued (demo_claim 103) demo_proxy_proved.2) = Some StopBackend) as Hs by by vm_compute.
  destruct (demo_issued (demo_claim 103) demo_proxy_proved.2) as [i|] eqn:Hi; [|done]. injection Hs as Hs.
  exists i. split; [done|]. split; [done|].
  destruct (claims_record_deliveries _ _ _ _ _ _ _ _ _ demo_proxy_proved_reachable (demo_claim_answer _ _ _ Hi))
    as (id & r & dbR & t & _ & _ & _ & _ & _ & _ & _ & _ & _ & _ & _ & Hd).
  exists t. rewrite Hs in Hd. apply Hd.
Defined.

Lemma epochs_have_one_holder_witness :
  ∃ i1 i2, demo_issued (demo_claim 101) demo_submitted = Some i1
    ∧ demo_issued (demo_claim 102) (perform (demo_claim 101) demo_submitted) = Some i2
    ∧ ai_agent_instance_id i1 = ai_agent_instance_id i2.
Proof.
  destruct (evaluates (demo_issued (demo_claim 101) demo_submitted)) as [i1 H1]; [by vm_compute|].
  destruct (evaluates (demo_issued (demo_claim 102) (perform (demo_claim 101) demo_submitted))) as [i2 H2]; [by vm_compute|].
  exists i1, i2. split; [done|]. split; [done|].
  assert (option_map (λ i, (ai_operation_id i, ai_lease_epoch i)) (demo_issued (demo_claim 101) demo_submitted)
          = option_map (λ i, (ai_operation_id i, ai_lease_epoch i))
              (demo_issued (demo_claim 102) (perform (demo_claim 101) demo_submitted))) as E by by vm_compute.
  rewrite H1, H2 in E. injection E as E1 E2.
  apply (epochs_have_one_holder _ _ _ _ _ _ _ _ _ _ _ _ _ _ _ _ _ _ demo_submitted_reachable
           (demo_claim_answer _ _ _ H1) (rtc_refl _ _) (demo_claim_answer _ _ _ H2) E1 E2).
Defined.

Lemma one_authority_per_slot_witness : one_authority (authorities demo_started.2).
Proof. apply one_authority_per_slot, demo_started_reachable. Defined.

Lemma accepted_results_hold_lease_witness :
  ∃ i request, demo_issued (demo_claim 101) demo_deploying = Some i
    ∧ completed_reports demo_config i (Ok (demo_evidence BpRunning "px" "pp")) = Ok (None, Some request)
    ∧ answers_open_step 7 (reported_step request) ("proxy", "proxy") (perform (demo_claim 101) demo_deploying).
Proof.
  set (db := perform (demo_claim 101) demo_deploying).
  assert (match demo_issued (demo_claim 101) demo_deploying with
          | Some i => match completed_reports demo_config i (Ok (demo_evidence BpRunning "px" "pp")) with
                      | Ok (None, Some request) =>
                          is_ok (report_step (from_secs 101) (from_secs 101) request "agent" db).1
                          && bool_decide (parse_operation_id (sr_operation_id request) = Ok 7%Z)
                          && bool_decide (instruction_target_key <$> sr_target request = Some (Ok ("proxy", "proxy")))
                          && match receipts db with [] => true | _ => false end
                      | _ => false
                      end
          | None => false
          end = true) as H by by vm_compute.
  destruct (demo_issued (demo_claim 101) demo_deploying) as [i|]; [|done].
  destruct (completed_reports _ _ _) as [[[?|] [request|]]|] eqn:Er; try done.
  exists i, request. split; [done|]. split; [done|].
  assert (node_reachable db) as Hre by (apply perform_reachable; [done|apply demo_deploying_reachable]). clearbody db.
  apply andb_true_iff in H as [[[H Hp%bool_decide_eq_true]%andb_true_iff Hk%bool_decide_eq_true]%andb_true_iff Hn].
  destruct (report_step _ _ request "agent" db) as [[o|e] db'] eqn:Hrep; [|done].
  destruct (accepted_results_hold_lease (from_secs 101) (from_secs 101) request "agent" db o db')
    as (id & target & key & Hid & Ht & Hkey & Ho); [exact Hre|exact Hrep|].
  rewrite Hp in Hid. injection Hid as <-.
  rewrite Ht in Hk. cbn in Hk. rewrite Hkey in Hk. injection Hk as ->.
  destruct Ho as [(rc & Hrc & _)|(r & _ & _ & _ & Ha)]; [|exact Ha].
  destruct (receipts db); [by apply elem_of_nil in Hrc|done].
Defined.

(** The proxy's inspection, by the second activation. *)
Lemma inspection_results_refused_witness :
  ∃ i request, demo_issued (demo_claim_again 121) demo_resumed = Some i ∧ ai_step i = InspectBackend
    ∧ completed_reports demo_config i (Ok (demo_evidence BpRunning "px" "pp")) = Ok (None, Some request)
    ∧ is_ok (report_step (from_secs 122) (from_secs 122) request "agent" demo_inspecting).1 = false.
Proof.
  assert (match demo_issued (demo_claim_again 121) demo_resumed with
          | Some i => bool_decide (ai_step i = InspectBackend)
                      && match completed_reports demo_config i (Ok (demo_evidence BpRunning "px" "pp")) with
                         | Ok (None, Some request) => bool_decide (reported_step request = InspectBackend)
                         | _ => false
                         end
          | None => false
          end = true) as H by by vm_compute.
  destruct (demo_issued (demo_claim_again 121) demo_resumed) as [i|]; [|done].
  destruct (completed_reports _ _ _) as [[[?|] [request|]]|] eqn:Er; try (by rewrite andb_false_r in H).
  bool_to_prop. exists i, request. do 3 (split; [done|]).
  apply inspection_results_refused; [apply demo_inspecting_reachable|done].
Defined.

Lemma two_calls epoch db c1 c2 :
  call_ok c1 → call_ok c2 → is_report c1 = false → is_report c2 = false →
  rtc (agent_step epoch) ([], db)
    (issued_by c1 db ++ issued_by c2 (perform c1 db), perform c2 (perform c1 db)).
Proof. intros. eapply rtc_l; [by apply (as_call _ _ _ c1)|]. by apply rtc_once, as_call. Qed.

Lemma ambiguous_proxy_wedges_node_witness :
  ∃ r, find_operation_row 7 demo_inspecting = Some r ∧ is_active r = true ∧ or_state r = "running".
Proof.
  assert (match find_operation_row 7 demo_lost with
          | Some r => bool_decide (or_state r = "paused") | None => false end = true) as H by by vm_compute.
  destruct (find_operation_row 7 demo_lost) as [r|] eqn:Hr; [|done]. bool_to_prop.
  destruct (demo_target (λ t, is_proxy_row 7 t && negb (tr_complete t) && ef_ambiguous (tr_effect t)) demo_lost)
    as (t & Ht & Hq); [by vm_compute|]. cbn beta in Hq. bool_to_prop.
  assert (stuck 7 demo_lost) as Hst by (exists t; repeat split; assumption).
  destruct (ambiguous_proxy_wedges_node demo_lost 7 r
              (issued_by demo_resume demo_lost ++ issued_by (demo_claim_again 121) (perform demo_resume demo_lost))
              (perform (demo_claim_again 121) (perform demo_resume demo_lost)))
    as (_ & r' & Hr' & Ha & _); [apply demo_lost_reachable|exact Hr|exact Hst|rewrite H; discriminate| |].
  { apply (two_calls _ demo_lost demo_resume (demo_claim_again 121)); exact I || reflexivity. }
  exists r'. split; [exact Hr'|]. split; [exact Ha|].
  assert (or_state <$> find_operation_row 7 demo_inspecting = Some "running") as Hs by by vm_compute.
  unfold demo_inspecting, demo_resumed in Hs. rewrite Hr' in Hs. by injection Hs.
Defined.

Lemma accepted_call {A} (answer : result Status A * NodeDb) : is_ok answer.1 = true → ∃ a, answer = (Ok a, answer.2).
Proof. destruct answer as [[a|e] db]; [by exists a|discriminate]. Qed.

Lemma submissions_are_idempotent_witness :
  ∃ o o', (submit (from_secs 100) 9 "operator" demo_restart demo_db).1 = Ok o
    ∧ (submit (from_secs 130) 11 "operator" demo_restart demo_started.2).1 = Ok o'
    ∧ op_operation_id o' = op_operation_id o
    ∧ operations (submit (from_secs 130) 11 "operator" demo_restart demo_started.2).2 = operations demo_started.2.
Proof.
  destruct (accepted_call (submit (from_secs 100) 9 "operator" demo_restart demo_db)) as [o E]; [by vm_compute|].
  destruct (submissions_are_idempotent _ 9 (from_secs 130) 11 "operator" _ demo_restart _ o _ demo_started.2 demo_reachable
           ltac:(done) E demo_started_steps eq_refl) as (Eo & _ & Hsame & _).
  destruct (Hsame eq_refl) as (o' & E' & Eid). exists o, o'. rewrite E. split; [reflexivity|].
  split; [exact E'|]. split; [exact Eid|exact Eo].
Defined.

Lemma stop_availability_exact_witness :
  ∃ snapshot operation slots,
    operation_slots operation = Ok slots
    ∧ stop_preserves_availability snapshot operation "blue" demo_policy = Ok true
    ∧ (Z.of_nat (size (foldl override_slot (committed_slots snapshot (op_node_id operation)) slots))
       - Z.of_nat (length (other_healthy snapshot (op_node_id operation) "blue"
                             (map_to_list (foldl override_slot (committed_slots snapshot (op_node_id operation)) slots))))
       ≤ 1)%Z.
Proof.
  assert (match capture_cluster_status_snapshot (from_secs 101) (from_secs 101) demo_submitted, load_operation 9 demo_submitted with
          | Ok snapshot, Ok operation =>
              is_ok (operation_slots operation)
              && bool_decide (stop_preserves_availability snapshot operation "blue" demo_policy = Ok true)
          | _, _ => false
          end = true) as H by by vm_compute.
  destruct (capture_cluster_status_snapshot _ _ _) as [snapshot|]; [|done].
  destruct (load_operation 9 demo_submitted) as [operation|]; [|done].
  destruct (operation_slots operation) as [slots|] eqn:Hs; [|done]. bool_to_prop.
  exists snapshot, operation, slots. do 2 (split; [done|]).
  by apply (stop_availability_exact snapshot operation "blue" demo_policy slots true).
Defined.

(** ** Retries *)

(** The slot is verified as it was before its stop; after its start it has not registered, so
    that the manager has the agent verify it again in the same epoch. The result of that
    verification, of the new process, is refused. *)
Lemma receipts_decide_retries_witness :
  ∃ rc i request, rc ∈ receipts demo_started.2
    ∧ demo_issued (demo_claim 109) demo_started.2 = Some i ∧ ai_step i = VerifyTarget
    ∧ (∃ o, completed_reports demo_config i (Ok (demo_evidence BpRunning "b2" "p2")) = Ok (o, Some request))
    ∧ report_step (from_secs 110) (from_secs 110) request "agent" (perform (demo_claim 109) demo_started.2)
      = (Err (aborted "result retry conflicts with the accepted instruction receipt"), perform (demo_claim 109) demo_started.2).
Proof.
  assert (match demo_issued (demo_claim 109) demo_started.2 with
          | Some i =>
              match completed_reports demo_config i (Ok (demo_evidence BpRunning "b2" "p2")) with
              | Ok (_, Some request) =>
                  bool_decide (ai_step i = VerifyTarget)
                  && bool_decide (parse_operation_id (sr_operation_id request) = Ok 9%Z)
                  && bool_decide (instruction_target_key <$> sr_target request = Some (Ok ("engine_slot", "blue")))
                  && existsb (λ rc, bool_decide (rc_key rc = receipt_key 9 (sr_lease_epoch request) request "engine_slot" "blue")
                                    && negb (bool_decide (rc_result rc = request))) (receipts demo_started.2)
              | _ => false
              end
          | None => false
          end = true) as H by by vm_compute.
  pose proof demo_started_reachable as Hre.
  assert (rtc node_step demo_started.2 (perform (demo_claim 109) demo_started.2)) as Hs by (by apply perform_steps).
  set (db' := perform (demo_claim 109) demo_started.2) in *. clearbody db'.
  destruct (demo_issued (demo_claim 109) demo_started.2) as [i|]; [|discriminate H].
  set (db := demo_started.2) in *. clearbody db.
  destruct (completed_reports _ _ _) as [[o [request|]]|] eqn:Er; try discriminate H.
  apply andb_true_iff in H as [[[Hi%bool_decide_eq_true Hid%bool_decide_eq_true]%andb_true_iff Hk%bool_decide_eq_true]%andb_true_iff
    (rc & Hrc%list_elem_of_In & [Hkey%bool_decide_eq_true Hne%negb_true_iff%bool_decide_eq_false]%andb_true_iff)%existsb_exists].
  destruct (sr_target request) as [target|] eqn:Ht; [|discriminate Hk]. injection Hk as Hk.
  destruct (receipts_decide_retries db db' rc (from_secs 110) (from_secs 110) request "agent" 9 target ("engine_slot", "blue"))
    as (op & _ & E); [done..|].
  exists rc, i, request. split; [done|]. split; [done|]. split; [done|]. split; [by exists o|].
  rewrite E, decide_False; [done|]. by intros [_ ?].
Defined.

End demo.
