(* ===== verification/NodeSystemDemo.v ===== *)
(** * Deployments and cleanup: example runs

    From empty tables: a deployment that is cancelled, and a staged release that is abandoned and
    cleaned up; and a retention that is raised while an agent deletes. *)

From S2P Require Import Prelude RustStr Utf8 Lists Orders Externals Models Grpc Http Snapshot Lifecycle IndexedRouting Deployment Rollout RolloutDemo Schedule Operations NodeStatus NodeTables NodeStore NodeSubmit NodeRun NodeAgent NodeReport NodeHost NodeTx NodeSteps NodeLoad NodeRefine NodeRefineTx NodeFacts NodeDeploy NodeCleanup NodeSystem NodeStaging NodeFences NodeCleanupFacts.

(** An encoding with the tag of the first field in front. *)
Definition toy_release (r : Release) : string :=
  let rest := rel_digest r +:+ rel_resolved r in
  if (0 <? rel_revision r)%Z then String (ascii_of_nat 8) (be_bytes 8 (rel_revision r) +:+ rest) else rest.

#[refine] Definition toy_codec : CleanupCodec := {|
  release_encode := toy_release;
  authority_encode a := str_concat ((toy_release <$> ca_delete_releases a) ++ "|" :: (toy_release <$> ca_known_inventory a));
|}.
Proof. intros r Hr. unfold toy_release. rewrite (proj2 (Z.ltb_lt _ _) Hr). by eexists. Defined.

(** A digest that tells short texts apart. *)
Definition hex_char (v : Z) : ascii := ascii_of_N (Z.to_N (if (v <? 10)%Z then 48 + v else 87 + v)).

Fixpoint hex_text (n : nat) (v : Z) : string :=
  match n with O => EmptyString | S n => String (hex_char (v mod 16)) (hex_text n (v / 16)) end.

Lemma hex_char_digit v : (λ c, is_ascii_digit c || byte_in 97 102 c) (hex_char (v mod 16)) = true.
Proof.
  pose proof (Z.mod_pos_bound v 16 ltac:(lia)) as Hv. generalize dependent (v mod 16)%Z. clear v. intros v Hv.
  assert (v ∈ seqZ 0 16) as Hin by (apply elem_of_seqZ; lia).
  clear Hv. revert v Hin. apply Forall_forall. by repeat constructor.
Qed.

Fixpoint text_sum (acc : Z) (s : string) : Z :=
  match s with EmptyString => acc | String c s => text_sum ((257 * acc + Z.of_N (N_of_ascii c) + 1) mod 1000003) s end.

Lemma hex_text_digits n v : str_all (λ c, is_ascii_digit c || byte_in 97 102 c) (hex_text n v) = true.
Proof.
  revert v. induction n as [|n IH]; intros v; [done|]. cbn [hex_text str_all]. by rewrite hex_char_digit, IH.
Qed.

Lemma hex_text_length n v : String.length (hex_text n v) = n.
Proof. revert v. induction n as [|n IH]; intros v; [done|]. cbn. by rewrite IH. Qed.

Definition sum_sha256 : Sha256Lib :=
  {| sha256_hex s := hex_text 64 (text_sum 0 s); sha256_hex_length s := hex_text_length 64 _;
     sha256_hex_digits s := hex_text_digits 64 _ |}.

Section demo.
#[local] Existing Instances sum_sha256 toy_uuid toy_collation toy_semver toy_http toy_codec.

Definition sys_digest (tail : string) : string :=
  "sha256:00112233445566778899aabbccddeeff00112233445566778899aabbccddee" +:+ tail.

Definition sys_print (_ : Uri) : string := "".
Definition sys_size (i : DeploymentInventoryV1) : Z := 64 * Z.of_nat (length (di_engines i)).

Definition sys_inventory : DeploymentInventoryV1 :=
  mkInventory 1 [mkExpectedEngine "blue" [mkExpectedModule (Some (mkModuleIdentity "shop" "cart" "1.0.0")) ""] [] [] "" ""].

Definition sys_empty : NodeDb :=
  mkNodeDb [] [] [] [] [] [] [] [] [] [] [] [] [] 0 (mkCleanupTables [] [] [] [] []).

Abbreviation call := (perform_system sys_print sys_size).

Definition sys_policy (retention : Z) : NodeAgentPolicy := mkNodeAgentPolicy "node-a" AGENT_PROTOCOL_VERSION (Some retention) (sys_digest "bb") [].

Definition sys_begin (token : string) : BeginDeploymentRequest :=
  mkBeginDeployment "node-a" token (sys_digest "01") (Some sys_inventory).

Definition sys_finalize (token : string) (revision : Z) : FinalizeDeploymentRequest :=
  mkFinalizeDeployment "node-a" token revision (sys_digest "01") (sys_digest "f1").

Definition sys_calls (cs : list SystemCall) (db : NodeDb) : NodeDb := foldl (λ db c, call c db) db cs.

Definition sys_attest (seconds : Z) : SystemCall :=
  SNode (CAttest (from_secs seconds) "agent"
    (mkNodeAgentAttestation "node-a" "act-1" AGENT_PROTOCOL_VERSION (sys_digest "bb") [])).

(** Revision 1 is staged. *)
Definition sys_stage (token : string) (revision : Z) : list SystemCall :=
  [SBegin (from_secs 100) (sys_begin token) "operator"; SFinalize (from_secs 100) (sys_finalize token revision) "operator"].

Definition sys_prepared : NodeDb :=
  sys_calls [SNode (CPolicy (from_secs 90) "operator" (sys_policy 1)); sys_attest 100] sys_empty.

Definition sys_staged : NodeDb := sys_calls (sys_stage "token-1" 1) sys_prepared.

(** Its operation is cancelled before any effect; the next claim finishes it. *)
Definition sys_deploy : SubmitOperationRequest :=
  mkSubmit "node-a" "token-1" 7 1 (sys_digest "01") (Some (mkRolloutPolicy 1 true 300)) (sys_digest "f1") "".

Definition sys_cancelled : NodeDb :=
  sys_calls
    [SNode (CSubmit (from_secs 100) 9 "operator" sys_deploy); SNode (CCancel (uuid_to_string 7) "operator");
     SNode (CClaim (from_secs 101) (from_secs 101) [] "node-a" "act-1" "agent")] sys_staged.

(** A round of cleanup: the instruction that a claim is answered with, and the report of the host. *)
Definition sys_issue (seconds : Z) (fresh_id : Uuid) (db : NodeDb) : option NodeCleanupInstruction :=
  match (claim_node_cleanup (from_secs seconds) (from_secs seconds) fresh_id "node-a" "act-1" "agent" db).1 with
  | Ok i => i
  | Err _ => None
  end.

Definition sys_claimed (seconds : Z) (fresh_id : Uuid) (db : NodeDb) : NodeDb :=
  call (SClaimCleanup (from_secs seconds) (from_secs seconds) fresh_id "node-a" "act-1" "agent") db.

Definition sys_report (seconds : Z) (host : HostReleases) (i : option NodeCleanupInstruction) (db : NodeDb) :
  NodeDb :=
  match i with
  | Some i => call (SReportCleanup (from_secs seconds)
                      (cleanup_report i (host_cleanup host (ci_delete_releases i))) "agent") db
  | None => db
  end.

Definition sys_release (revision : Z) : Release := mkRelease revision (sys_digest "01") (sys_digest "f1").

(** Revision 1 is abandoned; the host reports that it holds it. *)
Definition sys_due : NodeDb :=
  sys_calls [SAbandon (from_secs 101) "node-a" "token-1" "operator"; SReconcile (from_secs 102) (from_secs 102) [] 10] sys_staged.

Definition sys_inventoried : NodeDb :=
  sys_report 104 (mkHost [] [sys_release 1]) (sys_issue 103 11 sys_due) (sys_claimed 103 11 sys_due).

(** Its deletion is due. *)
Definition sys_pending : NodeDb :=
  sys_calls [sys_attest 140; SReconcile (from_secs 141) (from_secs 141) [] 10] sys_inventoried.

(** Revision 2 is staged and installed before the claim. *)
Definition sys_grown_due : NodeDb :=
  sys_calls (sys_stage "token-2" 2 ++ [sys_attest 140; SReconcile (from_secs 141) (from_secs 141) [] 10]) sys_inventoried.

Definition sys_grown : NodeDb := sys_claimed 142 12 sys_grown_due.

(** ** The runs *)

Abbreviation reachable := (system_reachable sys_print sys_size).
Abbreviation step := (system_step sys_print sys_size).

Lemma sys_calls_steps cs db : Forall system_ok cs → rtc step db (sys_calls cs db).
Proof.
  intros Hcs. revert db. induction Hcs as [|c cs Hc Hcs IH]; intros db; [reflexivity|].
  eapply rtc_l; [by apply ss_call|]. apply IH.
Qed.

Lemma sys_calls_reachable cs db : Forall system_ok cs → reachable db → reachable (sys_calls cs db).
Proof. intros Hcs Hr. eapply system_reachable_steps; [done|by apply sys_calls_steps]. Qed.

Lemma sys_call_reachable c db : system_ok c → reachable db → reachable (call c db).
Proof. intros Hc Hr. eapply system_reachable_steps; [done|]. by apply rtc_once, ss_call. Qed.

Lemma sys_prepared_reachable : reachable sys_prepared.
Proof.
  apply sys_calls_reachable; [by repeat constructor|]. exists sys_empty. split; [by repeat split|reflexivity].
Qed.

Lemma sys_staged_reachable : reachable sys_staged.
Proof. apply sys_calls_reachable; [by repeat constructor|]. apply sys_prepared_reachable. Qed.

Lemma sys_cancelled_reachable : reachable sys_cancelled.
Proof. apply sys_calls_reachable; [by repeat constructor|]. apply sys_staged_reachable. Qed.

Lemma sys_due_reachable : reachable sys_due.
Proof. apply sys_calls_reachable; [by repeat constructor|]. apply sys_staged_reachable. Qed.

Lemma sys_inventoried_reachable : reachable sys_inventoried.
Proof.
  assert (reachable (sys_claimed 103 11 sys_due)) as Hr by (apply sys_call_reachable; [done|apply sys_due_reachable]).
  unfold sys_inventoried, sys_report. destruct (sys_issue 103 11 sys_due); [|exact Hr].
  apply sys_call_reachable; [done|exact Hr].
Qed.

Lemma sys_pending_reachable : reachable sys_pending.
Proof. apply sys_calls_reachable; [by repeat constructor|]. apply sys_inventoried_reachable. Qed.

Lemma sys_grown_steps : rtc step sys_inventoried sys_grown.
Proof.
  apply (rtc_r sys_inventoried sys_grown_due sys_grown).
  - apply sys_calls_steps. by repeat constructor.
  - exact (ss_call _ _ sys_grown_due (SClaimCleanup (from_secs 142) (from_secs 142) 12 "node-a" "act-1" "agent")
             ltac:(by split)).
Qed.

(** ** Witnesses *)

Lemma deployment_attempts_are_idempotent_witness :
  ∃ record db1,
    begin_deployment sys_print sys_size (from_secs 100) (sys_begin "token-1") "operator" sys_prepared = (Ok record, db1)
    ∧ begin_deployment sys_print sys_size (from_secs 200) (sys_begin "token-1") "operator"
        (call (SFinalize (from_secs 100) (sys_finalize "token-1" 1) "operator") db1)
      = (Ok record, call (SFinalize (from_secs 100) (sys_finalize "token-1" 1) "operator") db1).
Proof.
  assert (is_ok (begin_deployment sys_print sys_size (from_secs 100) (sys_begin "token-1") "operator" sys_prepared).1 = true)
    as Hok by (by vm_compute).
  destruct (begin_deployment sys_print sys_size (from_secs 100) (sys_begin "token-1") "operator" sys_prepared)
    as [[record|e] db1] eqn:E; [|discriminate Hok].
  exists record, db1. split; [reflexivity|].
  apply (deployment_attempts_are_idempotent _ _ _ _ _ _ _ _ _ _ sys_prepared_reachable E).
  apply rtc_once, ss_call. exact I.
Defined.

(** The staged deployment of a node whose operation ended without a commit. *)
Definition blocked (db : NodeDb) (d : DeploymentRow) (r : OperationRow) : bool :=
  existsb (λ n, String.eqb (nr_node_id n) (dp_node_id d) && bool_decide (nr_target_revision n = Some (dp_revision d)))
    (nodes db)
  && bool_decide (dp_operation_id d = Some (or_operation_id r)) && negb (is_active r) && negb (or_committed r).

Lemma blocked_ok db d r :
  blocked db d r = true →
  staged (dp_node_id d) (dp_revision d) db ∧ dp_operation_id d = Some (or_operation_id r)
  ∧ is_active r = false ∧ or_committed r = false.
Proof.
  unfold blocked. rewrite !andb_true_iff, !negb_true_iff. intros [[[Hn Hid%bool_decide_eq_true] Ha] Hu].
  apply existsb_exists in Hn as (n & Hn%list_elem_of_In & [En%String.eqb_eq Et%bool_decide_eq_true]%andb_true_iff).
  split; [by exists n|done].
Qed.

Lemma blocked_rows db node_id :
  existsb (λ d, existsb (blocked db d) (operations db) && String.eqb (dp_node_id d) node_id) (deployments db) = true →
  ∃ d r, d ∈ deployments db ∧ dp_node_id d = node_id ∧ r ∈ operations db ∧ blocked db d r = true.
Proof.
  intros (d & Hd%list_elem_of_In & [(r & Hr%list_elem_of_In & Hb)%existsb_exists E%String.eqb_eq]%andb_true_iff)%existsb_exists.
  by exists d, r.
Qed.

Lemma unused_token node_id token db :
  forallb (λ d, negb (is_attempt node_id token d)) (deployments db) = true → fresh_token node_id token db.
Proof.
  intros H. unfold fresh_token. destruct (List.find _ _) as [d|] eqn:E; [|done]. apply List.find_some in E as [Hd E].
  rewrite forallb_forall in H. apply H in Hd. by rewrite E in Hd.
Qed.

Lemma failed_deployment_blocks_node_witness :
  ∃ e, begin_deployment sys_print sys_size (from_secs 200) (sys_begin "token-2") "operator" sys_cancelled
       = (Err e, sys_cancelled).
Proof.
  destruct (blocked_rows sys_cancelled "node-a") as (d & r & Hd & Ed & Hr & Hb); [vm_compute; reflexivity|].
  destruct (blocked_ok _ _ _ Hb) as (Hst & Hid & Ha & Hu).
  destruct (failed_deployment_blocks_node sys_print sys_size sys_cancelled sys_cancelled d r sys_cancelled_reachable Hd
              Hst Hid Hr Ha Hu (rtc_refl _ _)) as (_ & Hbegin & _).
  apply Hbegin; [exact (eq_sym Ed)|]. rewrite Ed. apply unused_token. vm_compute. reflexivity.
Defined.

Lemma sys_issue_answer seconds fresh_id db i :
  sys_issue seconds fresh_id db = Some i →
  claim_node_cleanup (from_secs seconds) (from_secs seconds) fresh_id "node-a" "act-1" "agent" db
  = (Ok (Some i), sys_claimed seconds fresh_id db).
Proof.
  unfold sys_issue, sys_claimed, perform_system. destruct (claim_node_cleanup _ _ _ _ _ _ db) as [[o|e] db']; [|done].
  cbn. by intros ->.
Qed.

(** The instruction of a claim that deletes the given releases. *)
Lemma sys_issue_deletes seconds fresh_id db l :
  match sys_issue seconds fresh_id db with
  | Some i => bool_decide (ci_delete_releases i = l) && String.eqb (ci_node_id i) "node-a"
  | None => false
  end = true →
  ∃ i, sys_issue seconds fresh_id db = Some i ∧ ci_delete_releases i = l ∧ ci_node_id i = "node-a".
Proof.
  destruct (sys_issue seconds fresh_id db) as [i|]; [|done].
  intros [E%bool_decide_eq_true En%String.eqb_eq]%andb_true_iff.
  by exists i.
Qed.

Lemma claims_spare_protected_releases_witness :
  ∃ i, sys_issue 142 12 sys_pending = Some i ∧ sys_release 1 ∈ ci_delete_releases i
    ∧ reported_inventory "node-a" (ci_expected_inventory i) sys_pending
    ∧ ∃ db0 p0, rtc step db0 sys_pending ∧ protection "node-a" db0 = Some p0 ∧ (1 ∉ p0.1.2)%Z.
Proof.
  destruct (sys_issue_deletes 142 12 sys_pending [sys_release 1]) as (i & Hi & Ed & _); [vm_compute; reflexivity|].
  exists i. split; [exact Hi|]. assert (sys_release 1 ∈ ci_delete_releases i) as Hin by (rewrite Ed; left).
  split; [exact Hin|].
  destruct (claims_spare_protected_releases _ _ _ _ _ _ _ _ _ _ _ sys_pending_reachable (sys_issue_answer _ _ _ _ Hi))
    as (db0 & p0 & p & Hs & Hp0 & _ & Hdel & _).
  destruct (Hdel _ Hin) as (_ & Hrep & Hnot). split; [exact Hrep|].
  exists db0, p0. split; [exact Hs|]. split; [exact Hp0|exact Hnot].
Defined.

Lemma known_row db l :
  existsb (λ c, String.eqb (cl_node_id c) "node-a" && bool_decide (cl_known_inventory c = Some l)) (cleanups (cleanup db)) = true →
  ∃ c, c ∈ cleanups (cleanup db) ∧ cl_node_id c = "node-a" ∧ cl_known_inventory c = Some l.
Proof.
  intros (c & Hc%list_elem_of_In & [En%String.eqb_eq Ek%bool_decide_eq_true]%andb_true_iff)%existsb_exists.
  by exists c.
Qed.

Lemma later_releases_never_cleaned_witness :
  ∃ i retained, sys_issue 142 12 sys_grown_due = Some i
    ∧ host_cleanup (mkHost [] [sys_release 1; sys_release 2]) (ci_delete_releases i) = Ok retained
    ∧ (report_node_cleanup_result (from_secs 143) (cleanup_report i (Ok retained)) "agent" sys_grown).2 = sys_grown.
Proof.
  destruct (sys_issue_deletes 142 12 sys_grown_due [sys_release 1]) as (i & Hi & Ed & En); [vm_compute; reflexivity|].
  destruct (known_row sys_inventoried [sys_release 1]) as (row & Hrow & Er & Ek); [vm_compute; reflexivity|].
  assert (∃ retained, host_cleanup (mkHost [] [sys_release 1; sys_release 2]) [sys_release 1] = Ok retained) as [retained Hh]
    by (eexists; vm_compute; reflexivity).
  assert (sys_release 2 ∉ [sys_release 1]) as Hout by (intros E%list_elem_of_singleton; discriminate E).
  exists i, retained. rewrite Ed. split; [exact Hi|]. split; [exact Hh|].
  eapply (later_releases_never_cleaned _ _ sys_inventoried sys_grown row [sys_release 1] (sys_release 2)
            sys_inventoried_reachable Hrow Ek Hout sys_grown_steps); [congruence|by rewrite Ed| |by rewrite Ed].
  right; left.
Defined.

(** ** A retention that is raised while an agent deletes *)

Definition kept_deployment (revision : Z) : DeploymentRow :=
  mkDeploymentRow "node-a" revision "token" (sys_digest "01") sys_inventory "succeeded" None None None
    (sys_digest "f1") (Some 1%Z) "operator" (sys_digest "aa") 0.

(** Three successful deployments, of which the policy retains one besides the current one. *)
Definition kept_db : NodeDb :=
  mkNodeDb [mkNodeRow "node-a" 3 None] (kept_deployment <$> [1; 2; 3]%Z) [] [] [] [] [] [] [] [] [] [] [] 0
    (mkCleanupTables [] [] [] [] []).

Definition kept_due : NodeDb :=
  sys_calls [SNode (CPolicy (from_secs 90) "operator" (sys_policy 1)); sys_attest 100;
             SReconcile (from_secs 102) (from_secs 102) [] 10] kept_db.

Definition kept_inventoried : NodeDb :=
  sys_report 104 (mkHost [3] (sys_release <$> [1; 2; 3]))%Z (sys_issue 103 11 kept_due) (sys_claimed 103 11 kept_due).

Definition kept_pending : NodeDb :=
  sys_calls [sys_attest 140; SReconcile (from_secs 141) (from_secs 141) [] 10] kept_inventoried.

Definition kept_claimed : NodeDb := sys_claimed 142 12 kept_pending.

(** The retention is raised to two, and nothing else of the policy. *)
Definition kept_raised : NodeDb := call (SNode (CPolicy (from_secs 143) "operator" (sys_policy 2))) kept_claimed.

Definition kept_renewal (i : NodeCleanupInstruction) : RenewCleanupRequest :=
  mkRenewCleanup (ci_node_id i) (ci_agent_instance_id i) (ci_generation i) (ci_lease_epoch i) (ci_claim_instance i).

Definition is_protected (node_id : string) (revision : Z) (db : NodeDb) : bool :=
  match protection node_id db with Some p => bool_decide (revision ∈ p.1.2) | None => false end.

Lemma call_policy now actor policy db :
  call (SNode (CPolicy now actor policy)) db = (put_agent_policy now actor policy db).2.
Proof. reflexivity. Qed.

Lemma kept_raised_put : kept_raised = (put_agent_policy (from_secs 143) "operator" (sys_policy 2) kept_claimed).2.
Proof. apply call_policy. Qed.

(** Revision 1 is claimed for deletion, the policy of the node is changed to retain it, and the
    claim is still renewed and its deletion still accepted. *)
Lemma retention_changes_keep_claims_witness :
  ∃ i summary, sys_issue 142 12 kept_pending = Some i ∧ ci_delete_releases i = [sys_release 1]
    ∧ is_protected "node-a" 1 kept_claimed = false ∧ is_protected "node-a" 1 kept_raised = true
    ∧ (renew_node_cleanup (from_secs 144) (kept_renewal i) "agent" kept_raised).1 = Ok (Some (expire_at (from_secs 144)))
    ∧ (report_node_cleanup_result (from_secs 145)
         (cleanup_report i (host_cleanup (mkHost [3] (sys_release <$> [1; 2; 3])) (ci_delete_releases i)))%Z "agent" kept_raised).1
      = Ok (CdAccepted, summary).
Proof.
  assert (match sys_issue 142 12 kept_pending, find_policy "node-a" kept_claimed with
          | Some i, Some row =>
              bool_decide (ci_delete_releases i = [sys_release 1])
              && negb (is_protected "node-a" 1 kept_claimed)
              && is_protected "node-a" 1 (put_agent_policy (from_secs 143) "operator" (sys_policy 2) kept_claimed).2
              && match (renew_node_cleanup (from_secs 144) (kept_renewal i) "agent" kept_claimed).1 with
                 | Ok o => bool_decide (o = Some (expire_at (from_secs 144)))
                 | Err _ => false
                 end
              && match (report_node_cleanup_result (from_secs 145)
                          (cleanup_report i (host_cleanup (mkHost [3] (sys_release <$> [1; 2; 3])) (ci_delete_releases i)))%Z
                          "agent" kept_claimed).1 with
                 | Ok (CdAccepted, _) => true
                 | _ => false
                 end
              && String.eqb (ap_protocol_version row) (na_protocol_version (sys_policy 2))
              && String.eqb (ap_binary_digest row) (na_binary_digest (sys_policy 2))
              && match normalize_capabilities (na_capabilities (sys_policy 2)) with
                 | Ok l => bool_decide (l = ap_capabilities row)
                 | Err _ => false
                 end
              && is_ok (put_agent_policy (from_secs 143) "operator" (sys_policy 2) kept_claimed).1
          | _, _ => false
          end = true) as H by (vm_compute; reflexivity).
  destruct (sys_issue 142 12 kept_pending) as [i|]; [|discriminate H].
  rewrite kept_raised_put. set (db := kept_claimed) in *. clearbody db.
  destruct (find_policy "node-a" db) as [row|] eqn:Hrow; [|discriminate H].
  apply andb_true_iff in H as [[[[[[[[Hd%bool_decide_eq_true Hp1%negb_true_iff]%andb_true_iff Hp2]%andb_true_iff Hren]%andb_true_iff
    Hrep]%andb_true_iff Ev%String.eqb_eq]%andb_true_iff Eb%String.eqb_eq]%andb_true_iff Ec]%andb_true_iff Hok].
  destruct (normalize_capabilities _) as [l|] eqn:El; [|discriminate Ec]. apply bool_decide_eq_true in Ec as ->.
  destruct (put_agent_policy _ _ _ db) as [[answer|] db'] eqn:Hput; [|discriminate Hok].
  destruct (retention_changes_keep_claims (from_secs 143) "operator" (sys_policy 2) db row answer db' Hrow Ev Eb El Hput)
    as (_ & _ & Hrenew & Hreport).
  destruct (renew_node_cleanup _ _ _ db).1 as [o|] eqn:E1; [|discriminate Hren].
  destruct (report_node_cleanup_result _ _ _ db).1 as [[[] summary]|] eqn:E2; try discriminate Hrep.
  apply bool_decide_eq_true in Hren as ->. exists i, summary. split; [reflexivity|]. split; [exact Hd|].
  split; [exact Hp1|]. split; [exact Hp2|]. split; [apply (Hrenew _ _ _ _ E1)|apply (Hreport _ _ _ _ E2)].
Defined.

End demo.
